(* ===== verification/_CoqProject ===== *)
-Q . S2P
Prelude.v
Codec.v
Sha256.v
Keys.v
KeyParse.v
KeySpec.v
KeyTheory.v
KeySound.v
KeyProps.v
Records.v
InodeRecords.v
MetaRecords.v
SnapshotRecords.v
AnalyticsRecords.v
VerificationRecords.v
Validate.v
Content.v
Aggregates.v
References.v
Graph.v
RecordProps.v
IndexMap.v
Crypto.v
Pack.v
RepoIndex.v
MasterIndex.v
AssociatedSet.v
PackSizer.v
Upload.v
Stream.v
Rewrite.v
Repack.v
Durable.v
PruneMarker.v
Prune.v
Execute.v
Calendar.v
Duration.v
Policy.v
Glob.v
Json.v
Filter.v
Journal.v
Staged.v
Store.v
Catalog.v
CatalogTheory.v
CatalogProps.v
