(* ===== verification/Prelude.v ===== *)
(** * Vaultic: a verification development

    Vaultic is a backup program. A repository stores blobs (pieces of files, and
    directory trees) in encrypted pack files, and an index that says in which pack each
    blob is. This library models the repository, from the pack format and the in-memory
    index up to saving, loading and pruning ([src/internal/repository]); the schema of the
    new index store, its keys, records and their validation ([src/internal/index/schema]);
    the transactions of the index daemon on it ([src/internal/index/daemon]); the journal of
    uploads that wait for the index ([src/internal/repository/staging]); and two parts that
    decide what a backup holds, the retention policy ([src/internal/data]) and the path
    filters ([src/internal/filter]).

    ** Conventions

    Pure Go functions are Rocq functions under the same name. An error is [Err] with a
    message in the type [result]; a Go panic (an index out of range, an explicit panic) is
    also [Err]. Code that changes a structure takes and returns it. Structures are records
    whose fields have the names of the code, with a prefix where names clash. Integers are
    [Z], with [wrap_u] and [wrap_i] where the code's width matters; bytes are [Byte.byte].
    Go maps are [gmap], and where the code iterates over one, or over a channel that
    several goroutines fill, the order is a parameter. What is not part of the sources is
    a parameter too: the block cipher and authenticator ([Crypto.Cipher], with the laws
    [CipherLaws]), zstd ([Upload.Zstd]), the hash of Go maps, temporary files, random
    numbers, the clock and the backend, whose calls may fail wherever the code checks for
    an error. SHA-256 is computed. Loops have fuel where they are not structural; the fuel
    is the length of the data or a bound on the number of rounds, and a lemma shows that it
    is never used up.

    ** The repository

    - [Crypto]: sealing and opening ([crypto.go]). [Open] accepts exactly what [Seal]
      made.
    - [Pack]: the pack format ([pack/pack.go]), its writer and its reader. What a packer
      wrote is read back, with the same blobs at the same places.
    - [IndexMap]: the hash table of the index with its array tree and bloom bits
      ([index/indexmap.go]). It refines a list of entries, whatever the hash function.
    - [RepoIndex]: an index of packs ([index/index.go]). It answers with the blobs that
      were stored; merging and saving lose nothing.
    - [MasterIndex]: the indexes of a repository and the blobs on their way
      ([index/master_index.go]). No blob is saved twice, and merging keeps the answers.
    - [AssociatedSet]: sets of blobs with values ([index/associated_data.go]), which refine
      finite maps while the index grows.
    - [PackSizer]: the target size of packs ([pack_sizer.go]), with a Newton iteration that
      is shown to end and to be exact for every 64-bit value.
    - [Upload]: saving and loading of blobs ([packer_manager.go], [packer_uploader.go],
      [repository_blobs.go] and others). The uploads are a step relation, so that packs
      are finished and uploaded in any order. Everything given can be loaded, or was known
      before, whatever the caches hold.
    - [Rewrite]: incremental loading and rewriting of index files. A rewrite keeps every
      blob of a pack that is not excluded.
    - [PruneMarker]: the two phases of a deferred prune ([prune_plan.go]), with failures
      and cancellation at every point. Nothing is deleted that an index names, and an
      interrupted plan is finished by the next attempt that meets no failure.
    - [Prune]: the planning of a prune ([prune.go]). No blob in use is lost.
    - [Stream]: reading many blobs of one pack ([repository_engine.go]). Whatever the pack
      holds and however it is cut into requests, the blobs are delivered as if each had been
      loaded on its own, and what was read from the pack has its hash.
    - [Repack]: copying blobs to new packs ([repack.go]). The lister, the workers and the
      uploader are one step relation; every run ends, and one that ends without an error
      has copied every blob.
    - [Durable]: index files and the index in memory. No entry of a final index is without
      a file, and after an upload everything is on disk.
    - [Execute]: the execution of a prune plan ([prune.go], [repair_index.go]), which puts
      [Prune], [Repack], [Rewrite] and [PruneMarker] together. From the plan to the files
      that are left, no blob in use is lost, whatever fails; in the unsafe recovery, which
      deletes the index files first, the data stays and the new index names it at the end.

    ** The schema of the index store

    - [Codec]: the encoder and decoder of values ([codec.go]).
    - [Sha256]: the hash of content addresses.
    - [Keys], [KeyParse]: construction and parsing of keys ([keys.go], [keys_parse.go],
      [key_codecs.go]). [KeySpec] specifies the key space without its byte layout;
      [KeyTheory], [KeySound] and [KeyProps] show that the code implements it: keys round
      trip, differ for different contents, and a scan of a prefix meets what it should.
    - [Records], [InodeRecords], [MetaRecords], [SnapshotRecords], [AnalyticsRecords],
      [VerificationRecords]: every record with its marshalling and unmarshalling.
    - [Validate]: [ValidateValue], which accepts a value under a key exactly when it
      decodes to the record the key stores and agrees with it.
    - [Content]: cutting the blobs of a file into segments and assembling them.
    - [Aggregates], [References]: rebuilding of totals and of reference counts.
    - [Graph]: the validation of directory graphs, equivalent to being a rooted tree, and
      the resolution of snapshot roots.
    - [RecordProps]: records that are written but cannot be read, and older formats.

    ** The index daemon

    - [Store]: the database with its serializable transactions, their messages and commits
      ([client_rpc.go], [schema_store_publish.go], [vaulticdb/src/storage.rs]). Calls fail
      wherever the code checks for an error, and a commit can be refused, applied, or
      applied without its answer. A batch is atomic, immutable records never change, and
      blocks of revisions are disjoint. The sizes of messages are those of the documented
      encoding of [daemon.proto].
    - [Catalog]: the transactions on packs ([schema_store_import.go],
      [schema_store_reconcile.go], [history.go]): publication, acknowledgment, deletion,
      usage and tiers. [CatalogTheory] has the arithmetic of the totals; [CatalogProps] has
      the operations as steps of the database. In every database they lead to, the totals
      are those that [Aggregates] rebuilds from the packs, and a publication loses no
      location of a blob.

    ** Staged uploads

    - [Journal]: sealing, publishing and reading of the segments of a job over mirrors that
      fail ([staging/journal.go]), with their envelopes. The libraries for JSON, HKDF and
      AES-GCM are parameters ([JournalCodec], with the laws [JournalLaws]); [Json] says what
      JSON does to strings and raw messages. What is published is read back up to that.
    - [Staged]: completions, extensions and the other ends of a job, discovery, and the set
      of packs that a prune must not touch. The packs of a published job are in it.

    ** Policies and filters

    - [Calendar], [Duration], [Policy]: dates of the standard library, durations, and the
      evaluation of a retention policy ([data/duration.go], [data/snapshot_policy.go]). The
      snapshots that are kept are those that a declarative description of the policy names.
    - [Glob], [Filter]: matching of one path component, as a class of laws with an instance,
      and patterns over whole paths ([filter/filter.go]). A match is one that the pattern
      means, and no selected path lies below a directory that is skipped.

    ** How the parts fit

    [Upload] is proved against the lemmas of [Pack], [MasterIndex] and [Crypto] (through
    the class [CipherLaws]); [Prune] uses [MasterIndex] and [AssociatedSet], and its plan is
    what [PruneMarker] stores and [Rewrite] carries out on the index; [Execute] runs the
    whole of it against the files of [Durable]. [Store] validates its batches with [Validate]
    and [KeyParse], [Catalog] runs in the transactions of [Store] on the records of
    [Records] and is compared with [Aggregates], and [PruneMarker] takes the set of packs
    that [Staged] computes as a parameter. A component's facts are in its module of theory,
    and the properties in the module after it.

    ** Findings

    Theorems also record where the code does not do what it means to: a backup between the
    phases of a deferred prune can lose data ([PruneMarker]), merged packs with too many
    blobs cannot be finished ([Upload]), a prune loses a blob whose other copy is in a
    missing pack and ignores the percentage that should limit it ([Prune]), a failed flush
    of the index is not repeated ([MasterIndex]), a rewrite that is cancelled at its end
    drops an index and succeeds ([Rewrite]), records that cannot be read back
    ([RecordProps], [KeyProps]), a duration that wraps around and removes every snapshot
    ([Policy]), a parser that panics ([Duration]), patterns with two double wildcards that
    miss paths ([Filter]), jobs that can never be published and publications that cannot be
    repeated ([Journal]), and a journal that is taken for absent when no mirror answers
    ([Staged]).

    ** Not modelled

    The text of JSON documents; the goroutines themselves, locks and memory accounting (an
    operation under a lock runs alone, and concurrent ones are steps in any order); the
    backends, caches, file systems and the storage engine below the daemon, which are
    libraries or the operating system; the publication of reconciled revisions, whose state
    is spread over scans and streams of the daemon; analytics, maintenance, the archiver,
    the restorer, the servers and the command line, which are I/O around the packages
    above, and whose results no definition here could state without modelling the outside
    world they act on. *)
From stdpp Require Import base list numbers strings gmap.
From Stdlib Require Import ZArith Lia.
From Stdlib Require Export Init.Byte.
From Stdlib Require Strings.Byte Strings.String.

#[global] Open Scope Z_scope.

(** ** Machine integers

    A Go integer of width [w] is a [Z]; the predicates below are its range and
    [wrap_u]/[wrap_i] the conversions [uintW(x)] and [intW(x)]. *)
Definition u_range (w : Z) (z : Z) : Prop := 0 <= z < 2 ^ w.
Definition i_range (w : Z) (z : Z) : Prop := - 2 ^ (w - 1) <= z < 2 ^ (w - 1).
Definition wrap_u (w : Z) (z : Z) : Z := z mod 2 ^ w.
Definition wrap_i (w : Z) (z : Z) : Z := (z + 2 ^ (w - 1)) mod 2 ^ w - 2 ^ (w - 1).

Abbreviation uint8 := (u_range 8).
Abbreviation uint16 := (u_range 16).
Abbreviation uint32 := (u_range 32).
Abbreviation uint64 := (u_range 64).
Abbreviation int32 := (i_range 32).
Abbreviation int64 := (i_range 64).

Definition MaxUint32 : Z := 4294967295.
Definition MaxUint64 : Z := 18446744073709551615.

Lemma wrap_u_range w z : 0 <= w -> u_range w (wrap_u w z).
Proof. intros Hw. unfold u_range, wrap_u. apply Z.mod_pos_bound. lia. Qed.

Lemma wrap_u_small w z : u_range w z -> wrap_u w z = z.
Proof. intros H. unfold wrap_u. by apply Z.mod_small. Qed.

Lemma wrap_i_range w z : 0 < w -> i_range w (wrap_i w z).
Proof.
  intros Hw. unfold i_range, wrap_i.
  assert (2 ^ w = 2 * 2 ^ (w - 1)) as E.
  { rewrite <- (Z.pow_succ_r 2 (w - 1)) by lia. f_equal. lia. }
  pose proof (Z.mod_pos_bound (z + 2 ^ (w - 1)) (2 ^ w)). lia.
Qed.

(** Converting a signed value to unsigned and back is the identity. *)
Lemma wrap_i_wrap_u w z : 0 < w -> i_range w z -> wrap_i w (wrap_u w z) = z.
Proof.
  intros Hw H. unfold i_range, wrap_i, wrap_u in *.
  assert (2 ^ w = 2 * 2 ^ (w - 1)) as E.
  { rewrite <- (Z.pow_succ_r 2 (w - 1)) by lia. f_equal. lia. }
  rewrite Zplus_mod_idemp_l, Z.mod_small; lia.
Qed.

Lemma wrap_u_wrap_i w z : 0 < w -> u_range w z -> wrap_u w (wrap_i w z) = z.
Proof.
  intros Hw H. unfold u_range, wrap_i, wrap_u in *.
  rewrite Zminus_mod_idemp_l. replace (z + _ - _) with z by lia.
  by apply Z.mod_small.
Qed.

(** ** Bytes *)
Abbreviation bytes := (list byte).

Definition b2z (b : byte) : Z := Z.of_N (Byte.to_N b).

Definition z2b (z : Z) : byte :=
  match Byte.of_N (Z.to_N (z mod 256)) with
  | Some b => b
  | None => x00
  end.

(** The bytes of a string literal, [[]byte("...")]. *)
Definition str (s : string) : bytes := String.list_byte_of_string s.

#[export] Instance byte_eq_dec : EqDecision byte.
Proof. refine (fun a b => match Byte.byte_eq_dec a b with left p => left p | right p => right p end). Defined.

Lemma b2z_range b : 0 <= b2z b < 256.
Proof. unfold b2z. pose proof (Byte.to_N_bounded b). lia. Qed.

Lemma z2b_b2z b : z2b (b2z b) = b.
Proof.
  unfold z2b. rewrite Z.mod_small by apply b2z_range.
  unfold b2z. rewrite N2Z.id, Byte.of_to_N. done.
Qed.

Lemma b2z_z2b z : b2z (z2b z) = z mod 256.
Proof.
  unfold z2b. pose proof (Z.mod_pos_bound z 256).
  destruct (Byte.of_N (Z.to_N (z mod 256))) eqn:E.
  - unfold b2z. apply Byte.to_of_N in E. rewrite E. lia.
  - apply Byte.of_N_None_iff in E. lia.
Qed.

Lemma b2z_inj a b : b2z a = b2z b -> a = b.
Proof. intros E. rewrite <- (z2b_b2z a), <- (z2b_b2z b). by f_equal. Qed.

#[export] Instance byte_countable : Countable byte.
Proof. refine (inj_countable' Byte.to_N (fun n => default x00 (Byte.of_N n)) _).
  intros b. by rewrite Byte.of_to_N.
Defined.

(** Equality of byte strings, [bytes.Equal] and [string(a) == string(b)]. *)
Fixpoint bytes_eqb (a b : bytes) : bool :=
  match a, b with
  | [], [] => true
  | x :: a', y :: b' => Byte.eqb x y && bytes_eqb a' b'
  | _, _ => false
  end.

Lemma byte_eqb_eq a b : Byte.eqb a b = true <-> a = b.
Proof.
  split.
  - apply Byte.byte_dec_bl.
  - apply Byte.byte_dec_lb.
Qed.

Lemma bytes_eqb_eq a b : bytes_eqb a b = true <-> a = b.
Proof.
  revert b; induction a as [|x a IH]; intros [|y b]; simpl; try (split; congruence).
  rewrite andb_true_iff, byte_eqb_eq, IH. split; [intros [-> ->]; done | by intros [= -> ->]].
Qed.

Lemma bytes_eqb_refl a : bytes_eqb a a = true.
Proof. by apply bytes_eqb_eq. Qed.

Lemma bytes_eqb_neq a b : bytes_eqb a b = false <-> a <> b.
Proof. rewrite <- bytes_eqb_eq. destruct (bytes_eqb a b); split; congruence. Qed.

(** Lexicographic comparison, [bytes.Compare] and the order of the store. *)
Fixpoint bytes_compare (a b : bytes) : comparison :=
  match a, b with
  | [], [] => Eq
  | [], _ => Lt
  | _, [] => Gt
  | x :: a', y :: b' =>
      match Z.compare (b2z x) (b2z y) with
      | Eq => bytes_compare a' b'
      | c => c
      end
  end.

(** ** Slices

    [zlen] is [len], [sub i j l] is the Go slice [l[i:j]] and [from i l] the
    slice [l[i:]]; the code takes them only after a length check. *)
Definition zlen {A} (l : list A) : Z := Z.of_nat (length l).
Definition from {A} (i : nat) (l : list A) : list A := drop i l.
Definition sub {A} (i j : nat) (l : list A) : list A := take (j - i) (drop i l).
Definition byte_at (i : nat) (l : bytes) : byte := default x00 (l !! i).

Lemma zlen_app {A} (a b : list A) : zlen (a ++ b) = zlen a + zlen b.
Proof. unfold zlen. rewrite length_app. lia. Qed.

Lemma zlen_zero {A} (l : list A) : zlen l = 0 -> l = [].
Proof. by destruct l. Qed.

Lemma zlen_nonneg {A} (l : list A) : 0 <= zlen l.
Proof. unfold zlen. lia. Qed.

(** ** Big-endian integers ([encoding/binary.BigEndian]) *)
Fixpoint be (n : nat) (z : Z) : bytes :=
  match n with
  | O => []
  | S n' => z2b (z / 256 ^ Z.of_nat n') :: be n' z
  end.

Definition unbe (l : bytes) : Z := foldl (fun acc b => acc * 256 + b2z b) 0 l.

Lemma be_length n z : length (be n z) = n.
Proof. induction n; simpl; congruence. Qed.

Lemma foldl_unbe acc l :
  foldl (fun acc b => acc * 256 + b2z b) acc l = acc * 256 ^ zlen l + unbe l.
Proof.
  unfold unbe, zlen. revert acc; induction l as [|b l IH]; intros acc; simpl foldl.
  - change (Z.of_nat (length (@nil byte))) with 0. lia.
  - rewrite IH, (IH (0 * 256 + b2z b)).
    replace (Z.of_nat (length (b :: l))) with (Z.succ (Z.of_nat (length l))) by (simpl; lia).
    rewrite Z.pow_succ_r by lia. lia.
Qed.

Lemma unbe_cons b l : unbe (b :: l) = b2z b * 256 ^ zlen l + unbe l.
Proof. unfold unbe at 1. simpl foldl. rewrite foldl_unbe. lia. Qed.

Lemma unbe_app a b : unbe (a ++ b) = unbe a * 256 ^ zlen b + unbe b.
Proof. unfold unbe at 1. rewrite foldl_app, foldl_unbe. done. Qed.

Lemma unbe_range l : 0 <= unbe l < 256 ^ zlen l.
Proof.
  induction l as [|b l IH]; [by cbn|].
  rewrite unbe_cons. unfold zlen in *.
  replace (Z.of_nat (length (b :: l))) with (Z.succ (Z.of_nat (length l))) by (simpl; lia).
  rewrite Z.pow_succ_r by lia. pose proof (b2z_range b). nia.
Qed.

Lemma unbe_be n z : unbe (be n z) = z mod 256 ^ Z.of_nat n.
Proof.
  revert z; induction n as [|n IH]; intros z.
  - by rewrite Z.mod_1_r.
  - simpl be. rewrite unbe_cons, IH, b2z_z2b. unfold zlen. rewrite be_length.
    rewrite Nat2Z.inj_succ, Z.pow_succ_r by lia.
    set (p := 256 ^ Z.of_nat n). assert (0 < p) by (apply Z.pow_pos_nonneg; lia).
    rewrite (Z.mul_comm 256 p), Z.rem_mul_r by lia. lia.
Qed.

Lemma be_unbe l : be (length l) (unbe l) = l.
Proof.
  assert (forall n z k, be n (z + k * 256 ^ Z.of_nat n) = be n z) as Hshift.
  { induction n as [|n IH]; intros z k; [done|]. simpl be. f_equal.
    - apply b2z_inj. rewrite !b2z_z2b.
      rewrite Nat2Z.inj_succ, Z.pow_succ_r by lia.
      replace (k * (256 * 256 ^ Z.of_nat n)) with ((k * 256) * 256 ^ Z.of_nat n) by lia.
      rewrite Z.div_add by (apply Z.pow_nonzero; lia).
      by rewrite Z.mod_add.
    - rewrite Nat2Z.inj_succ, Z.pow_succ_r by lia.
      replace (k * (256 * 256 ^ Z.of_nat n)) with ((k * 256) * 256 ^ Z.of_nat n) by lia.
      apply IH. }
  induction l as [|b l IH]; [done|]. simpl be. f_equal.
  - rewrite unbe_cons. unfold zlen. rewrite Z.div_add_l by (apply Z.pow_nonzero; lia).
    rewrite Z.div_small by apply unbe_range. rewrite Z.add_0_r. apply z2b_b2z.
  - rewrite unbe_cons, Z.add_comm. unfold zlen. by rewrite Hshift, IH.
Qed.

Lemma be_mod n z : be n (z mod 256 ^ Z.of_nat n) = be n z.
Proof. rewrite <- unbe_be. pose proof (be_unbe (be n z)) as H. by rewrite be_length in H. Qed.

(** Comparing equally long byte strings compares the integers they denote. *)
Lemma be_inj n a b : 0 <= a < 256 ^ Z.of_nat n -> 0 <= b < 256 ^ Z.of_nat n -> be n a = be n b -> a = b.
Proof.
  intros Ha Hb E%(f_equal unbe). by rewrite !unbe_be, !Z.mod_small in E.
Qed.

Lemma be_app_inj n a b (r s : bytes) :
  0 <= a < 256 ^ Z.of_nat n -> 0 <= b < 256 ^ Z.of_nat n ->
  be n a ++ r = be n b ++ s -> a = b /\ r = s.
Proof.
  intros Ha Hb E. apply app_inj_1 in E as [E ->]; [|by rewrite !be_length].
  split; [|done]. by apply (be_inj n).
Qed.

Lemma bytes_compare_unbe a b :
  length a = length b -> bytes_compare a b = Z.compare (unbe a) (unbe b).
Proof.
  revert b; induction a as [|x a IH]; intros [|y b] Hl; try discriminate Hl; [done|].
  injection Hl as Hl. cbn [bytes_compare]. rewrite !unbe_cons, IH by done.
  pose proof (unbe_range a) as Ha. pose proof (unbe_range b) as Hb.
  assert (zlen a = zlen b) as E by (unfold zlen; lia). rewrite E in *.
  set (p := 256 ^ zlen b) in *. destruct (Z.compare_spec (b2z x) (b2z y)) as [->|H|H].
  - destruct (Z.compare_spec (unbe a) (unbe b)); symmetry;
      [apply Z.compare_eq_iff | apply Z.compare_lt_iff | apply Z.compare_gt_iff]; lia.
  - symmetry. apply Z.compare_lt_iff. nia.
  - symmetry. apply Z.compare_gt_iff. nia.
Qed.

Lemma bytes_compare_refl a : bytes_compare a a = Eq.
Proof. rewrite bytes_compare_unbe by done. apply Z.compare_refl. Qed.

Lemma bytes_compare_app_l p a b : bytes_compare (p ++ a) (p ++ b) = bytes_compare a b.
Proof. induction p as [|x p IH]; [done|]. cbn. by rewrite Z.compare_refl. Qed.

Lemma bytes_compare_app a b x y :
  length a = length b ->
  bytes_compare (a ++ x) (b ++ y) =
    match bytes_compare a b with Eq => bytes_compare x y | c => c end.
Proof.
  revert b; induction a as [|h a IH]; intros [|k b] Hl; try discriminate Hl; [done|].
  injection Hl as Hl. cbn. rewrite (IH b Hl). by destruct (Z.compare (b2z h) (b2z k)).
Qed.

Lemma bytes_compare_be n x y :
  0 <= x < 256 ^ Z.of_nat n -> 0 <= y < 256 ^ Z.of_nat n ->
  bytes_compare (be n x) (be n y) = Z.compare x y.
Proof.
  intros Hx Hy. rewrite bytes_compare_unbe by by rewrite !be_length.
  by rewrite !unbe_be, !Z.mod_small.
Qed.

Lemma bytes_compare_eq a b : bytes_compare a b = Eq <-> a = b.
Proof.
  split; [|intros ->; apply bytes_compare_refl].
  revert b; induction a as [|x a IH]; intros [|y b]; try discriminate; [done|].
  cbn. destruct (Z.compare_spec (b2z x) (b2z y)) as [E|?|?]; try discriminate.
  apply b2z_inj in E as ->. intros H. f_equal. by apply IH.
Qed.

Lemma bytes_compare_antisym a b : bytes_compare b a = CompOpp (bytes_compare a b).
Proof.
  revert b; induction a as [|x a IH]; intros [|y b]; try done.
  cbn. rewrite (Z.compare_antisym (b2z x) (b2z y)).
  destruct (Z.compare (b2z x) (b2z y)); [apply IH|done|done].
Qed.

Lemma bytes_compare_lt_trans a b c :
  bytes_compare a b = Lt -> bytes_compare b c = Lt -> bytes_compare a c = Lt.
Proof.
  revert b c; induction a as [|x a IH]; intros [|y b] [|z c]; try done. cbn.
  destruct (Z.compare_spec (b2z x) (b2z y)) as [E|E|E];
  destruct (Z.compare_spec (b2z y) (b2z z)) as [F|F|F]; try done;
  destruct (Z.compare_spec (b2z x) (b2z z)) as [G|G|G]; try done; try lia; eauto.
Qed.

(** ** Prefixes ([strings.HasPrefix]) *)
Fixpoint has_prefix (p l : bytes) : bool :=
  match p, l with
  | [], _ => true
  | x :: p', y :: l' => Byte.eqb x y && has_prefix p' l'
  | _ :: _, [] => false
  end.

Lemma has_prefix_spec p l : has_prefix p l = true <-> exists r, l = p ++ r.
Proof.
  revert l; induction p as [|x p IH]; intros [|y l]; cbn.
  - split; eauto.
  - split; eauto.
  - split; [done | by intros [? ?]].
  - rewrite andb_true_iff, byte_eqb_eq, IH. split.
    + intros [-> [r ->]]. by exists r.
    + intros [r [= -> ->]]. eauto.
Qed.

Lemma has_prefix_app p q l : has_prefix (p ++ q) (p ++ l) = has_prefix q l.
Proof. induction p as [|x p IH]; [done|]. cbn. by rewrite (proj2 (byte_eqb_eq x x)), IH. Qed.

(** ** Results

    A Go function that returns [(A, error)] returns [result A]: [Ok] with the
    value, or [Err] with the error's message. *)
Inductive result (A : Type) : Type :=
| Ok (a : A)
| Err (msg : string).
Arguments Ok {A} a.
Arguments Err {A} msg.

Definition rbind {A B} (m : result A) (k : A -> result B) : result B :=
  match m with
  | Ok a => k a
  | Err e => Err e
  end.

Definition is_ok {A} (m : result A) : bool :=
  match m with Ok _ => true | Err _ => false end.

(** [if cond { return ..., fmt.Errorf(msg) }] *)
Definition guard (bad : bool) (msg : string) : result unit :=
  if bad then Err msg else Ok tt.

Declare Scope go_scope.
Delimit Scope go_scope with go.
Notation "'let!' x ':=' m 'in' k" := (rbind m (fun x => k))
  (at level 200, x pattern, m at level 200, k at level 200, right associativity) : go_scope.
Notation "'do!' m ';' k" := (rbind m (fun _ => k))
  (at level 200, m at level 200, k at level 200, right associativity) : go_scope.
#[global] Open Scope go_scope.

Lemma rbind_ok {A B} (m : result A) (k : A -> result B) b :
  rbind m k = Ok b <-> exists a, m = Ok a /\ k a = Ok b.
Proof. destruct m; cbn; split; [eauto | by intros (? & [= ->] & ?) | done | by intros (? & ? & ?)]. Qed.

Lemma guard_ok bad msg : guard bad msg = Ok tt <-> bad = false.
Proof. destruct bad; cbn; split; congruence. Qed.

Lemma is_ok_spec {A} (m : result A) : is_ok m = true <-> exists a, m = Ok a.
Proof. destruct m; cbn; split; eauto; [done | by intros [? ?]]. Qed.

(** ** Tactics *)

(** Turn a list of known length into an explicit list of variables. *)
Ltac explode l :=
  match goal with
  | H : length l = _ |- _ =>
      repeat (let b := fresh "b" in
              destruct l as [|b l]; [discriminate H | cbn [length] in H; apply eq_add_S in H]);
      apply nil_length_inv in H; subst l
  end.

(** Split boolean tests in the hypotheses into their propositional content. *)
Ltac split_bools :=
  repeat match goal with
  | H : _ && _ = true |- _ => apply andb_true_iff in H; destruct H
  | H : _ || _ = false |- _ => apply orb_false_iff in H; destruct H
  | H : negb _ = true |- _ => apply negb_true_iff in H
  | H : negb _ = false |- _ => apply negb_false_iff in H
  | H : Byte.eqb _ _ = true |- _ => apply byte_eqb_eq in H
  | H : bytes_eqb _ _ = true |- _ => apply bytes_eqb_eq in H
  | H : bytes_eqb _ _ = false |- _ => apply bytes_eqb_neq in H
  | H : Nat.eqb _ _ = true |- _ => apply Nat.eqb_eq in H
  | H : Z.eqb _ _ = true |- _ => apply Z.eqb_eq in H
  | H : Z.eqb _ _ = false |- _ => apply Z.eqb_neq in H
  | H : Z.leb _ _ = true |- _ => apply Z.leb_le in H
  | H : Z.leb _ _ = false |- _ => apply Z.leb_gt in H
  | H : Z.ltb _ _ = true |- _ => apply Z.ltb_lt in H
  | H : Z.ltb _ _ = false |- _ => apply Z.ltb_ge in H
  end.

(** Decompose a successful chain of [let!] and [do!]. *)
Ltac inv_results :=
  repeat match goal with
  | H : Ok _ = Ok _ |- _ => injection H as H; try subst
  | H : Err _ = Ok _ |- _ => discriminate H
  | H : Ok _ = Err _ |- _ => discriminate H
  | H : guard _ _ = Ok ?u |- _ => destruct u; apply guard_ok in H
  | H : rbind _ _ = Ok _ |- _ =>
      let a := fresh "a" in let E := fresh "E" in
      apply rbind_ok in H; destruct H as (a & E & H)
  end.

(** Range conditions on constants. *)
Ltac range := unfold u_range, i_range in *; lia.
