(* ===== verification/Codec.v ===== *)
(** * The value codec of the schema ([internal/index/schema/codec.go])

    Every value of the store is a version byte followed by fixed-width
    big-endian integers, 32-byte identifiers and length-prefixed byte strings.
    [Encoder] and [Decoder] are the two halves of the Go file; a [field] is one
    call of an encoder method, and a [MarshalBinary] method is the list of the
    calls it makes. The decoder keeps [len(data)] and the unread suffix
    [data[at:]], the two quantities its methods inspect. *)
From stdpp Require Import base list numbers strings.
From Stdlib Require Import ZArith Lia.
From S2P Require Import Prelude.

Definition Version : Z := 0.
Definition MaxEncodedValueBytes : Z := 15 * 1024 * 1024.
Definition maxFieldBytes : Z := MaxEncodedValueBytes.

(** [type ID [32]byte]: a byte list, of length 32 where it is well formed. *)
Abbreviation ID := (list byte).
Definition id_ok (id : ID) : Prop := length id = 32%nat.
Definition zero_id : ID := repeat x00 32.
Definition is_zero_id (id : ID) : bool := bytes_eqb id zero_id.

Arguments zero_id : simpl never.
Arguments is_zero_id : simpl never.

Lemma zero_id_ok : id_ok zero_id.
Proof. done. Qed.

Lemma is_zero_id_spec id : is_zero_id id = true <-> id = zero_id.
Proof. apply bytes_eqb_eq. Qed.

(** ** The encoder *)
Module Encoder.

Definition newEncoder : bytes := [z2b Version].
Definition u8 (e : bytes) (value : Z) : bytes := e ++ [z2b value].
Definition bool (e : bytes) (value : Datatypes.bool) : bytes :=
  if value then u8 e 1 else u8 e 0.
Definition u32 (e : bytes) (value : Z) : bytes := e ++ be 4 value.
Definition u16 (e : bytes) (value : Z) : bytes := e ++ be 2 value.
Definition u64 (e : bytes) (value : Z) : bytes := e ++ be 8 value.
Definition i64 (e : bytes) (value : Z) : bytes := u64 e (wrap_u 64 value).
Definition id (e : bytes) (value : ID) : bytes := e ++ value.
Definition bytes (e : Prelude.bytes) (value : Prelude.bytes) : result Prelude.bytes :=
  if (maxFieldBytes <? zlen value) || (MaxUint32 <? zlen value)
  then Err "field is too large"
  else Ok (u32 e (zlen value) ++ value).
Definition finish (e : Prelude.bytes) : result Prelude.bytes :=
  if MaxEncodedValueBytes <? zlen e then Err "encoded value is too large" else Ok e.

End Encoder.

(** One call of an encoder method, or a validity check made between calls. *)
Inductive field : Type :=
| U8 (value : Z)
| Bool (value : bool)
| U16 (value : Z)
| U32 (value : Z)
| U64 (value : Z)
| I64 (value : Z)
| IDf (value : ID)
| Str (value : bytes)
| Refuse (bad : bool) (msg : string).

Definition put (e : bytes) (f : field) : result bytes :=
  match f with
  | U8 v => Ok (Encoder.u8 e v)
  | Bool v => Ok (Encoder.bool e v)
  | U16 v => Ok (Encoder.u16 e v)
  | U32 v => Ok (Encoder.u32 e v)
  | U64 v => Ok (Encoder.u64 e v)
  | I64 v => Ok (Encoder.i64 e v)
  | IDf v => Ok (Encoder.id e v)
  | Str v => Encoder.bytes e v
  | Refuse bad msg => if bad then Err msg else Ok e
  end.

Fixpoint puts (e : bytes) (fs : list field) : result bytes :=
  match fs with
  | [] => Ok e
  | f :: fs' => let! e' := put e f in puts e' fs'
  end.

(** [e := newEncoder(); e.f1(..); ...; return e.finish()] *)
Definition encode (fs : list field) : result bytes :=
  let! e := puts Encoder.newEncoder fs in Encoder.finish e.

(** ** The decoder *)
Module Decoder.

Record decoder := mk { d_len : Z; d_rest : bytes }.

Definition newDecoder (data : bytes) : result decoder :=
  match data with
  | [] => Err "unsupported or missing schema version"
  | b :: rest =>
      if (MaxEncodedValueBytes <? zlen data) || negb (b2z b =? Version)
      then Err "unsupported or missing schema version"
      else Ok (mk (zlen data) rest)
  end.

Definition take (size : Z) (d : decoder) : result (bytes * decoder) :=
  if (size <? 0) || (zlen (d_rest d) <? size)
  then Err "truncated value"
  else Ok (list.take (Z.to_nat size) (d_rest d), mk (d_len d) (drop (Z.to_nat size) (d_rest d))).

Definition u8 (d : decoder) : result (Z * decoder) :=
  let! (value, d) := take 1 d in Ok (b2z (byte_at 0 value), d).

Definition bool (d : decoder) : result (Datatypes.bool * decoder) :=
  let! (value, d) := u8 d in
  if 1 <? value then Err "invalid boolean" else Ok (value =? 1, d).

Definition u32 (d : decoder) : result (Z * decoder) :=
  let! (value, d) := take 4 d in Ok (unbe value, d).

Definition u16 (d : decoder) : result (Z * decoder) :=
  let! (value, d) := take 2 d in Ok (unbe value, d).

Definition u64 (d : decoder) : result (Z * decoder) :=
  let! (value, d) := take 8 d in Ok (unbe value, d).

Definition i64 (d : decoder) : result (Z * decoder) :=
  let! (value, d) := u64 d in Ok (wrap_i 64 value, d).

Definition id (d : decoder) : result (ID * decoder) := take 32 d.

Definition bytes (d : decoder) : result (Prelude.bytes * decoder) :=
  let! (size, d) := u32 d in
  if maxFieldBytes <? size then Err "field is too large" else take size d.

(** [d.at != len(d.data)] *)
Definition more (d : decoder) : Datatypes.bool :=
  match d_rest d with [] => false | _ :: _ => true end.

Definition done (d : decoder) : result unit := guard (more d) "trailing data".

(** [for index := range make([]A, count) { ... }] *)
Fixpoint many {A} (count : nat) (item : decoder -> result (A * decoder)) (d : decoder)
  : result (list A * decoder) :=
  match count with
  | O => Ok ([], d)
  | S n =>
      let! (x, d) := item d in
      let! (xs, d) := many n item d in
      Ok (x :: xs, d)
  end.

(** A loop that also looks at the previous item; [None] before the first. *)
Fixpoint many_after {A} (count : nat) (item : option A -> decoder -> result (A * decoder))
    (previous : option A) (d : decoder) : result (list A * decoder) :=
  match count with
  | O => Ok ([], d)
  | S n =>
      let! (x, d) := item previous d in
      let! (xs, d) := many_after n item (Some x) d in
      Ok (x :: xs, d)
  end.

End Decoder.

(** The fields of a list whose items are checked against their predecessors. *)
Fixpoint fields_after {A} (w : option A -> A -> list field) (previous : option A) (xs : list A)
  : list field :=
  match xs with
  | [] => []
  | x :: xs' => w previous x ++ fields_after w (Some x) xs'
  end.

Definition marshalNextRevision (next : Z) : bytes := z2b Version :: be 8 next.

Definition MarshalNextRevision (next : Z) : result bytes :=
  if next =? 0 then Err "next revision must be non-zero" else Ok (marshalNextRevision next).

Definition UnmarshalNextRevision (data : bytes) : result Z :=
  let! d := Decoder.newDecoder data in
  let! (value, d) := Decoder.u64 d in
  do! guard (value =? 0) "next revision must be non-zero";
  do! Decoder.done d;
  Ok value.

(** ** The wire form of a field *)

Definition wire (f : field) : bytes :=
  match f with
  | U8 v => [z2b v]
  | Bool v => [if v then x01 else x00]
  | U16 v => be 2 v
  | U32 v => be 4 v
  | U64 v => be 8 v
  | I64 v => be 8 (wrap_u 64 v)
  | IDf v => v
  | Str v => be 4 (zlen v) ++ v
  | Refuse _ _ => []
  end.

Definition writable (f : field) : bool :=
  match f with
  | Str v => zlen v <=? maxFieldBytes
  | Refuse bad _ => negb bad
  | _ => true
  end.

Definition wires (fs : list field) : bytes := concat (map wire fs).

(** The Go type of each argument. *)
Definition typed (f : field) : Prop :=
  match f with
  | U8 v => uint8 v
  | U16 v => uint16 v
  | U32 v => uint32 v
  | U64 v => uint64 v
  | I64 v => int64 v
  | IDf v => id_ok v
  | _ => True
  end.

Lemma put_spec e f e' : put e f = Ok e' <-> writable f = true /\ e' = e ++ wire f.
Proof.
  destruct f as [v|v|v|v|v|v|v|v|b m]; cbn; try (split; [intros [= <-]; done | by intros [_ ->]]).
  - destruct v; split; [intros [= <-]; done | by intros [_ ->] | intros [= <-]; done | by intros [_ ->]].
  - unfold Encoder.bytes, Encoder.u32, maxFieldBytes, MaxUint32, MaxEncodedValueBytes.
    destruct (Z.ltb_spec (15 * 1024 * 1024) (zlen v)), (Z.ltb_spec 4294967295 (zlen v)),
      (Z.leb_spec (zlen v) (15 * 1024 * 1024)); cbn; try lia;
      rewrite <- ?app_assoc; (split; [intros [= <-]; done | by intros [? ->]]).
  - destruct b; cbn; rewrite ?app_nil_r; split; [done | by intros [? _] | intros [= ->]; done | by intros [_ ->]].
Qed.

Lemma puts_spec e fs e' :
  puts e fs = Ok e' <-> forallb writable fs = true /\ e' = e ++ wires fs.
Proof.
  revert e; induction fs as [|f fs IH]; intros e; cbn.
  - rewrite app_nil_r. split; [intros [= ->]; done | by intros [_ ->]].
  - rewrite rbind_ok, andb_true_iff. split.
    + intros (m & [Ha ->]%put_spec & [Hf ->]%IH). by rewrite <- app_assoc.
    + intros [[Ha Hf] ->]. exists (e ++ wire f). split; [by apply put_spec|].
      apply IH. by rewrite <- app_assoc.
Qed.

(** A record is encoded exactly when all its calls succeed and it fits. *)
Lemma encode_spec fs b :
  encode fs = Ok b <->
  forallb writable fs = true /\ b = z2b Version :: wires fs /\ zlen b <= MaxEncodedValueBytes.
Proof.
  unfold encode, Encoder.finish, Encoder.newEncoder. rewrite rbind_ok. split.
  - intros (e & [Hf ->]%puts_spec & H).
    destruct (Z.ltb_spec MaxEncodedValueBytes (zlen ([z2b Version] ++ wires fs))); [done|].
    injection H as <-. done.
  - intros (Hf & -> & Hl). exists (z2b Version :: wires fs). split; [by apply puts_spec|].
    destruct (Z.ltb_spec MaxEncodedValueBytes (zlen (z2b Version :: wires fs))); [lia|done].
Qed.

Lemma wires_cons f fs : wires (f :: fs) = wire f ++ wires fs.
Proof. done. Qed.

Lemma wires_app fs gs : wires (fs ++ gs) = wires fs ++ wires gs.
Proof. unfold wires. by rewrite map_app, concat_app. Qed.

Lemma wires_refuse b m fs : wires (Refuse b m :: fs) = wires fs.
Proof. done. Qed.

(** ** Decoding what was encoded

    Each method reads back the field at the head of the unread suffix. *)
Section Forward.
Import Decoder.

Lemma take_app t x rest : take (zlen x) (mk t (x ++ rest)) = Ok (x, mk t rest).
Proof.
  unfold take. cbn [d_rest d_len]. rewrite zlen_app.
  pose proof (zlen_nonneg x). pose proof (zlen_nonneg rest).
  destruct (Z.ltb_spec (zlen x) 0), (Z.ltb_spec (zlen x + zlen rest) (zlen x)); try lia.
  cbn. unfold zlen. rewrite Nat2Z.id. by rewrite take_app_length, drop_app_length.
Qed.

Lemma take_wires t n f fs :
  zlen (wire f) = n -> take n (mk t (wires (f :: fs))) = Ok (wire f, mk t (wires fs)).
Proof. intros <-. apply take_app. Qed.

Lemma newDecoder_wires fs :
  zlen (z2b Version :: wires fs) <= MaxEncodedValueBytes ->
  newDecoder (z2b Version :: wires fs) =
    Ok (mk (zlen (z2b Version :: wires fs)) (wires fs)).
Proof.
  intros H. unfold newDecoder.
  destruct (Z.ltb_spec MaxEncodedValueBytes (zlen (z2b Version :: wires fs))); [lia|done].
Qed.

Lemma be_wire_length n v : zlen (be n v) = Z.of_nat n.
Proof. unfold zlen. by rewrite be_length. Qed.

Lemma u8_wires t v fs :
  uint8 v -> u8 (mk t (wires (U8 v :: fs))) = Ok (v, mk t (wires fs)).
Proof.
  intros Hv. unfold u8. rewrite take_wires by done. cbn -[b2z z2b].
  rewrite b2z_z2b, Z.mod_small; [done | exact Hv].
Qed.

Lemma bool_wires t v fs :
  bool (mk t (wires (Bool v :: fs))) = Ok (v, mk t (wires fs)).
Proof. unfold bool, u8. rewrite take_wires by done. by destruct v. Qed.

Lemma u16_wires t v fs :
  uint16 v -> u16 (mk t (wires (U16 v :: fs))) = Ok (v, mk t (wires fs)).
Proof.
  intros Hv. unfold u16. rewrite take_wires by done. cbn -[unbe be].
  rewrite unbe_be, Z.mod_small; [done | exact Hv].
Qed.

Lemma u32_wires t v fs :
  uint32 v -> u32 (mk t (wires (U32 v :: fs))) = Ok (v, mk t (wires fs)).
Proof.
  intros Hv. unfold u32. rewrite take_wires by done. cbn -[unbe be].
  rewrite unbe_be, Z.mod_small; [done | exact Hv].
Qed.

Lemma u64_wires t v fs :
  uint64 v -> u64 (mk t (wires (U64 v :: fs))) = Ok (v, mk t (wires fs)).
Proof.
  intros Hv. unfold u64. rewrite take_wires by done. cbn -[unbe be].
  rewrite unbe_be, Z.mod_small; [done | exact Hv].
Qed.

Lemma i64_wires t v fs :
  int64 v -> i64 (mk t (wires (I64 v :: fs))) = Ok (v, mk t (wires fs)).
Proof.
  intros Hv. unfold i64, u64. rewrite take_wires by done. cbn -[unbe be].
  rewrite unbe_be, Z.mod_small by (apply (wrap_u_range 64); lia).
  by rewrite wrap_i_wrap_u by (done || lia).
Qed.

Lemma id_wires t v fs :
  id_ok v -> id (mk t (wires (IDf v :: fs))) = Ok (v, mk t (wires fs)).
Proof. intros Hv. unfold id. apply (take_wires t 32 (IDf v)). cbn. unfold zlen. by rewrite Hv. Qed.

Lemma bytes_wires t v fs :
  writable (Str v) = true -> bytes (mk t (wires (Str v :: fs))) = Ok (v, mk t (wires fs)).
Proof.
  cbn [writable]. intros Hv%Z.leb_le. unfold bytes, u32.
  unfold maxFieldBytes, MaxEncodedValueBytes in *. pose proof (zlen_nonneg v).
  replace (wires (Str v :: fs)) with (be 4 (zlen v) ++ v ++ wires fs)
    by (rewrite wires_cons; cbn [wire]; by rewrite <- app_assoc).
  change 4 with (Z.of_nat 4). rewrite <- (be_wire_length 4 (zlen v)), take_app. cbn [rbind].
  rewrite unbe_be, Z.mod_small by (cbn; lia).
  destruct (Z.ltb_spec (15 * 1024 * 1024) (zlen v)); [lia|]. apply take_app.
Qed.

Lemma done_wires t : done (mk t (wires [])) = Ok tt.
Proof. done. Qed.

(** A loop reads back a list of items each of which is read back. *)
Lemma many_wires {A} (item : decoder -> result (A * decoder)) (w : A -> list field) t xs fs :
  Forall (fun x => forall gs, item (mk t (wires (w x ++ gs))) = Ok (x, mk t (wires gs))) xs ->
  many (length xs) item (mk t (wires (concat (map w xs) ++ fs))) = Ok (xs, mk t (wires fs)).
Proof.
  induction 1 as [|x xs Hx _ IH]; [done|].
  cbn [length many map concat]. rewrite <- app_assoc, Hx. cbn [rbind]. by rewrite IH.
Qed.

End Forward.

(** ** Encoding what was decoded

    [reads d f d']: reading the field [f] moves the decoder from [d] to [d']. *)
Definition reads (d : Decoder.decoder) (fs : list field) (d' : Decoder.decoder) : Prop :=
  Decoder.d_len d' = Decoder.d_len d /\
  Decoder.d_rest d = wires fs ++ Decoder.d_rest d' /\
  forallb writable fs = true /\ Forall typed fs.

Lemma reads_nil d : reads d [] d.
Proof. by repeat split; try constructor. Qed.

Lemma reads_app d fs d' gs d'' : reads d fs d' -> reads d' gs d'' -> reads d (fs ++ gs) d''.
Proof.
  intros (E1 & R1 & A1 & T1) (E2 & R2 & A2 & T2). repeat split.
  - congruence.
  - rewrite R1, R2, wires_app. by rewrite app_assoc.
  - rewrite forallb_app, A1. done.
  - by apply Forall_app_2.
Qed.

Section Backward.
Import Decoder.

Lemma take_inv n d x d' :
  take n d = Ok (x, d') ->
  d_len d' = d_len d /\ d_rest d = x ++ d_rest d' /\ zlen x = n.
Proof.
  unfold take. intros H.
  destruct (Z.ltb_spec n 0), (Z.ltb_spec (zlen (d_rest d)) n); try discriminate H.
  cbn in H. injection H as <- <-. cbn. rewrite take_drop.
  repeat split. unfold zlen in *. rewrite length_take. lia.
Qed.

Ltac take_inv E := apply take_inv in E as (? & ? & ?).

Lemma be_inv (n : nat) x : zlen x = Z.of_nat n -> be n (unbe x) = x.
Proof. unfold zlen. intros H. assert (length x = n) as <- by lia. apply be_unbe. Qed.

Lemma unbe_bound (n : nat) x : zlen x = Z.of_nat n -> 0 <= unbe x < 256 ^ Z.of_nat n.
Proof. intros <-. apply unbe_range. Qed.

Lemma reads_one d f d' :
  d_len d' = d_len d -> d_rest d = wire f ++ d_rest d' ->
  writable f = true -> typed f -> reads d [f] d'.
Proof.
  intros E R A T. split; [done|]. split.
  - rewrite wires_cons, <- app_assoc. done.
  - cbn. rewrite A. auto.
Qed.

Lemma u8_inv d v d' : u8 d = Ok (v, d') -> reads d [U8 v] d'.
Proof.
  unfold u8. intros H. inv_results. destruct a as [x d1]. take_inv E. inv_results.
  destruct x as [|b [|b' x]]; try (unfold zlen in *; cbn in *; lia).
  apply reads_one; cbn; rewrite ?z2b_b2z; [done..|apply b2z_range].
Qed.

Lemma bool_inv d v d' : bool d = Ok (v, d') -> reads d [Bool v] d'.
Proof.
  unfold bool. intros H. inv_results. destruct a as [x d1].
  apply u8_inv in E as (El & Er & _ & Ht). apply Forall_inv in Ht. cbn in Ht.
  destruct (Z.ltb_spec 1 x); [done|]. inv_results.
  assert (x = 0 \/ x = 1) as Hx by (unfold u_range in Ht; lia).
  apply reads_one; [done | | done..]. destruct Hx; subst; exact Er.
Qed.

Lemma u16_inv d v d' : u16 d = Ok (v, d') -> reads d [U16 v] d'.
Proof.
  unfold u16. intros H. inv_results. destruct a as [x d1]. take_inv E. inv_results.
  apply reads_one; cbn -[be unbe]; rewrite ?(be_inv 2) by done; [done..|].
  by apply (unbe_bound 2).
Qed.

Lemma u32_inv d v d' : u32 d = Ok (v, d') -> reads d [U32 v] d'.
Proof.
  unfold u32. intros H. inv_results. destruct a as [x d1]. take_inv E. inv_results.
  apply reads_one; cbn -[be unbe]; rewrite ?(be_inv 4) by done; [done..|].
  by apply (unbe_bound 4).
Qed.

Lemma u64_inv d v d' : u64 d = Ok (v, d') -> reads d [U64 v] d'.
Proof.
  unfold u64. intros H. inv_results. destruct a as [x d1]. take_inv E. inv_results.
  apply reads_one; cbn -[be unbe]; rewrite ?(be_inv 8) by done; [done..|].
  by apply (unbe_bound 8).
Qed.

Lemma i64_inv d v d' : i64 d = Ok (v, d') -> reads d [I64 v] d'.
Proof.
  unfold i64. intros H. inv_results. destruct a as [x d1].
  apply u64_inv in E as (El & Er & _ & Ht). apply Forall_inv in Ht. inv_results.
  apply reads_one; cbn -[be]; [done| |done|].
  - rewrite wrap_u_wrap_i; [exact Er | lia | exact Ht].
  - apply wrap_i_range. lia.
Qed.

Lemma id_inv d v d' : id d = Ok (v, d') -> reads d [IDf v] d'.
Proof.
  unfold id. intros H. take_inv H. apply reads_one; cbn; [done..|].
  unfold id_ok, zlen in *. lia.
Qed.

Lemma bytes_inv d v d' : bytes d = Ok (v, d') -> reads d [Str v] d'.
Proof.
  unfold bytes. intros H. inv_results. destruct a as [n d1].
  apply u32_inv in E as (El & Er & _ & Ht).
  destruct (Z.ltb_spec maxFieldBytes n); [done|]. take_inv H. subst n.
  apply reads_one; cbn -[be]; [congruence | | by apply Z.leb_le | done].
  rewrite Er. unfold wires. cbn -[be]. rewrite app_nil_r, <- app_assoc. by f_equal.
Qed.

Lemma done_inv d u : done d = Ok u -> d_rest d = [].
Proof. unfold done, more. destruct (d_rest d); [done|discriminate]. Qed.

Lemma newDecoder_inv data d :
  newDecoder data = Ok d ->
  data = z2b Version :: d_rest d /\ d_len d = zlen data /\ zlen data <= MaxEncodedValueBytes.
Proof.
  unfold newDecoder. destruct data as [|b rest]; [done|]. intros H.
  destruct (Z.ltb_spec MaxEncodedValueBytes (zlen (b :: rest))); [done|].
  destruct (Z.eqb_spec (b2z b) Version) as [E|]; [|done].
  cbn in H. injection H as <-. split; [|done].
  rewrite <- E, z2b_b2z. done.
Qed.

Lemma many_inv {A} (item : decoder -> result (A * decoder)) (w : A -> list field) (P : A -> Prop) n :
  (forall d x d', item d = Ok (x, d') -> reads d (w x) d' /\ P x) ->
  forall d xs d', many n item d = Ok (xs, d') ->
    reads d (concat (map w xs)) d' /\ length xs = n /\ Forall P xs.
Proof.
  intros Hitem. induction n as [|n IH]; intros d xs d' H; cbn in H; inv_results.
  - split; [apply reads_nil | by split].
  - destruct a as [x d1]. inv_results. destruct a as [ys d2]. inv_results.
    apply Hitem in E as [Hr Hp]. apply IH in E0 as (Hr' & Hl & Hf).
    split; [by eapply reads_app | split; [cbn; congruence | by constructor]].
Qed.

End Backward.

(** A value that was read in full is the encoding of the fields read. *)
Lemma encode_reads data d fs d' u :
  Decoder.newDecoder data = Ok d -> reads d fs d' -> Decoder.done d' = Ok u ->
  encode fs = Ok data.
Proof.
  intros (Hd & Hl & Hm)%newDecoder_inv (_ & Hr & Ha & _) He%done_inv.
  apply encode_spec. split; [done|]. split; [|done].
  rewrite Hd, Hr, He, app_nil_r. done.
Qed.

(** ** Automation for the records *)

Lemma reads_cons d f fs d' d'' : reads d [f] d' -> reads d' fs d'' -> reads d (f :: fs) d''.
Proof. apply (reads_app d [f]). Qed.

Lemma more_wires t f fs : wire f <> [] -> Decoder.more (Decoder.mk t (wires (f :: fs))) = true.
Proof. intros H. unfold Decoder.more. cbn. by destruct (wire f). Qed.

Lemma more_nil t : Decoder.more (Decoder.mk t (wires [])) = false.
Proof. done. Qed.

(** The length of a field on the wire. *)
Definition size (f : field) : Z :=
  match f with
  | U8 _ | Bool _ => 1
  | U16 _ => 2
  | U32 _ => 4
  | U64 _ | I64 _ => 8
  | IDf v => zlen v
  | Str v => 4 + zlen v
  | Refuse _ _ => 0
  end.

Lemma zlen_wire f : zlen (wire f) = size f.
Proof. destruct f; cbn -[be]; rewrite ?zlen_app, ?be_wire_length; done. Qed.

Lemma zlen_wires_cons f fs : zlen (wires (f :: fs)) = size f + zlen (wires fs).
Proof. by rewrite wires_cons, zlen_app, zlen_wire. Qed.

Lemma zlen_wires_nil : zlen (wires []) = 0.
Proof. done. Qed.

Lemma zlen_wires_app fs gs : zlen (wires (fs ++ gs)) = zlen (wires fs) + zlen (wires gs).
Proof. by rewrite wires_app, zlen_app. Qed.

Lemma zlen_cons {A} (x : A) l : zlen (x :: l) = 1 + zlen l.
Proof. unfold zlen. cbn [length]. lia. Qed.

Lemma zlen_id id : id_ok id -> zlen id = 32.
Proof. unfold id_ok, zlen. intros ->. done. Qed.

(** The items of a list take at least [n] bytes each. *)
Lemma wires_concat_length {A} (w : A -> list field) (ok : A -> Prop) n xs :
  (forall x, ok x -> n <= zlen (wires (w x))) -> Forall ok xs ->
  n * zlen xs <= zlen (wires (concat (map w xs))).
Proof.
  intros H. induction 1 as [|x xs Hx _ IH]; [unfold zlen; cbn; lia|]. cbn [map concat].
  rewrite zlen_wires_app, zlen_cons. specialize (H x Hx). lia.
Qed.

(** A loop reads back the list whose items were written. *)
Lemma many_round_trip {A} (item : Decoder.decoder -> result (A * Decoder.decoder))
    (w : A -> list field) (ok : A -> Prop) t xs fs :
  (forall x gs, ok x -> forallb writable (w x) = true ->
     item (Decoder.mk t (wires (w x ++ gs))) = Ok (x, Decoder.mk t (wires gs))) ->
  Forall ok xs -> forallb writable (concat (map w xs)) = true ->
  Decoder.many (Z.to_nat (zlen xs)) item (Decoder.mk t (wires (concat (map w xs) ++ fs))) =
    Ok (xs, Decoder.mk t (wires fs)).
Proof.
  intros Hitem Hok Hw. unfold zlen. rewrite Nat2Z.id. apply many_wires.
  induction Hok as [|x xs Hx _ IH]; [constructor|]. cbn [map concat] in Hw.
  rewrite forallb_app in Hw. apply andb_true_iff in Hw as [Hwx Hw].
  constructor; [|by apply IH]. intros gs. by apply Hitem.
Qed.

Lemma many_round_trip_end {A} (item : Decoder.decoder -> result (A * Decoder.decoder))
    (w : A -> list field) (ok : A -> Prop) t xs :
  (forall x gs, ok x -> forallb writable (w x) = true ->
     item (Decoder.mk t (wires (w x ++ gs))) = Ok (x, Decoder.mk t (wires gs))) ->
  Forall ok xs -> forallb writable (concat (map w xs)) = true ->
  Decoder.many (Z.to_nat (zlen xs)) item (Decoder.mk t (wires (concat (map w xs)))) =
    Ok (xs, Decoder.mk t (wires [])).
Proof.
  intros Hitem Hok Hw. rewrite <- (app_nil_r (concat (map w xs))). by apply (many_round_trip item w ok).
Qed.

(** A property of every item and its predecessor. *)
Fixpoint chained {A} (P : option A -> A -> Prop) (previous : option A) (xs : list A) : Prop :=
  match xs with
  | [] => True
  | x :: xs' => P previous x /\ chained P (Some x) xs'
  end.

Lemma chained_and {A} (P Q : option A -> A -> Prop) xs p :
  chained P p xs -> chained Q p xs -> chained (fun p x => P p x /\ Q p x) p xs.
Proof.
  revert p; induction xs as [|x xs IH]; intros p HP HQ; [done|]. cbn in *.
  destruct HP, HQ. auto.
Qed.

Lemma chained_impl {A} (P Q : option A -> A -> Prop) xs p :
  (forall p x, P p x -> Q p x) -> chained P p xs -> chained Q p xs.
Proof. intros H. revert p; induction xs as [|x xs IH]; intros p HP; [done|]. cbn in *. destruct HP. auto. Qed.

Lemma chained_Forall {A} (P : A -> Prop) xs p : chained (fun _ => P) p xs <-> Forall P xs.
Proof.
  revert p; induction xs as [|x xs IH]; intros p; cbn; [done|]. by rewrite Forall_cons, IH.
Qed.

Lemma many_after_round_trip {A} (item : option A -> Decoder.decoder -> result (A * Decoder.decoder))
    (w : option A -> A -> list field) (ok : option A -> A -> Prop) t xs fs :
  (forall p x gs, ok p x -> forallb writable (w p x) = true ->
     item p (Decoder.mk t (wires (w p x ++ gs))) = Ok (x, Decoder.mk t (wires gs))) ->
  forall p, chained ok p xs -> forallb writable (fields_after w p xs) = true ->
  Decoder.many_after (Z.to_nat (zlen xs)) item p (Decoder.mk t (wires (fields_after w p xs ++ fs))) =
    Ok (xs, Decoder.mk t (wires fs)).
Proof.
  intros Hitem. unfold zlen. rewrite Nat2Z.id.
  induction xs as [|x xs IH]; intros p Hok Hw; [done|].
  cbn [length Decoder.many_after fields_after chained] in *. destruct Hok as [Hx Hok].
  rewrite forallb_app in Hw. apply andb_true_iff in Hw as [Hwx Hw].
  rewrite <- app_assoc, Hitem by done. cbn [rbind]. by rewrite IH.
Qed.

Lemma many_after_inv {A} (item : option A -> Decoder.decoder -> result (A * Decoder.decoder))
    (w : option A -> A -> list field) (P : option A -> A -> Prop) n :
  (forall p d x d', item p d = Ok (x, d') -> reads d (w p x) d' /\ P p x) ->
  forall p d xs d', Decoder.many_after n item p d = Ok (xs, d') ->
    reads d (fields_after w p xs) d' /\ length xs = n /\ chained P p xs.
Proof.
  intros Hitem. induction n as [|n IH]; intros p d xs d' H; cbn in H; inv_results.
  - split; [apply reads_nil | by split].
  - destruct a as [x d1]. inv_results. destruct a as [ys d2]. inv_results.
    apply Hitem in E as [Hr Hp]. apply IH in E0 as (Hr' & Hl & Hc).
    split; [by eapply reads_app | split; [cbn; congruence | done]].
Qed.

Lemma many_after_inv_count {A} (item : option A -> Decoder.decoder -> result (A * Decoder.decoder))
    (w : option A -> A -> list field) (P : option A -> A -> Prop) count p d xs d' :
  (forall p d x d', item p d = Ok (x, d') -> reads d (w p x) d' /\ P p x) ->
  0 <= count -> Decoder.many_after (Z.to_nat count) item p d = Ok (xs, d') ->
  reads d (fields_after w p xs) d' /\ count = zlen xs /\ chained P p xs.
Proof.
  intros Hitem Hc (Hr & Hl & HP)%(many_after_inv item w P _ Hitem).
  split; [done|]. split; [|done]. unfold zlen in *. lia.
Qed.

Lemma fields_after_length {A} (w : option A -> A -> list field) (ok : option A -> A -> Prop) n xs :
  (forall p x, ok p x -> n <= zlen (wires (w p x))) -> forall p, chained ok p xs ->
  n * zlen xs <= zlen (wires (fields_after w p xs)).
Proof.
  intros H. induction xs as [|x xs IH]; intros p Hc; [unfold zlen; cbn; lia|].
  cbn [chained fields_after] in *. destruct Hc as [Hx Hc].
  rewrite zlen_wires_app, zlen_cons. specialize (H p x Hx). specialize (IH _ Hc). lia.
Qed.

Lemma reads_refuse d b m : b = false -> reads d [Refuse b m] d.
Proof. intros ->. repeat split; repeat constructor. Qed.

Lemma reads_typed d f d' : reads d [f] d' -> typed f.
Proof. intros (_ & _ & _ & H). by apply Forall_inv in H. Qed.

Lemma reads_writable d f d' : reads d [f] d' -> writable f = true.
Proof. intros (_ & _ & H & _). cbn in H. by apply andb_true_iff in H as [H _]. Qed.

(** Data read in full, and data that ends before the fields [gs]. *)
Lemma reads_prefix data d fs gs d' u :
  Decoder.newDecoder data = Ok d -> reads d fs d' -> Decoder.done d' = Ok u ->
  z2b Version :: wires (fs ++ gs) = data ++ wires gs.
Proof.
  intros (-> & _)%newDecoder_inv (_ & -> & _) ->%done_inv. by rewrite app_nil_r, wires_app.
Qed.

Lemma reads_full data d fs d' u :
  Decoder.newDecoder data = Ok d -> reads d fs d' -> Decoder.done d' = Ok u ->
  z2b Version :: wires fs = data ++ wires [].
Proof. rewrite <- (app_nil_r fs) at 2. apply reads_prefix. Qed.

(** A 32-bit word read as a signed number. *)
Lemma signed_read d v d' : reads d [U32 v] d' -> wrap_u 32 (wrap_i 32 v) = v.
Proof. intros T%reads_typed. apply wrap_u_wrap_i; (lia || exact T). Qed.

(** A loop over a count that was read before it. *)
Lemma many_inv_count {A} (item : Decoder.decoder -> result (A * Decoder.decoder))
    (w : A -> list field) (P : A -> Prop) d count xs d' :
  (forall d x d', item d = Ok (x, d') -> reads d (w x) d' /\ P x) ->
  0 <= count -> Decoder.many (Z.to_nat count) item d = Ok (xs, d') ->
  reads d (concat (map w xs)) d' /\ count = zlen xs /\ Forall P xs.
Proof.
  intros Hitem Hc (Hr & Hl & HP)%(many_inv item w P _ Hitem).
  split; [done|]. split; [|done]. unfold zlen in *. lia.
Qed.

Create HintDb codec.
#[export] Hint Extern 1 (u_range _ _) => assumption : codec.
#[export] Hint Extern 1 (i_range _ _) => assumption : codec.
#[export] Hint Extern 1 (id_ok _) => assumption : codec.
#[export] Hint Extern 1 (writable (Str _) = true) => assumption : codec.

(** Evaluate a decoder on the wire form of known fields. *)
Ltac read_field :=
  first
    [ rewrite wires_refuse
    | rewrite u8_wires by auto with codec
    | rewrite bool_wires
    | rewrite u16_wires by auto with codec
    | rewrite u32_wires by auto with codec
    | rewrite u64_wires by auto with codec
    | rewrite i64_wires by auto with codec
    | rewrite id_wires by auto with codec
    | rewrite bytes_wires by auto with codec
    | rewrite done_wires
    | rewrite more_nil
    | rewrite more_wires by discriminate ].

Ltac read_fields := repeat (read_field; cbn [rbind]).

(** Split what a successful encoding says of its fields. *)
Ltac written H :=
  repeat match goal with
  | E : forallb writable (_ ++ _) = true |- _ => rewrite forallb_app in E
  | E : forallb writable (_ :: _) = true |- _ => cbn [forallb] in E
  | E : _ && _ = true |- _ => apply andb_true_iff in E; destruct E
  | E : writable (Refuse _ _) = true |- _ => apply negb_true_iff in E
  end.
Ltac encoded H :=
  apply encode_spec in H; destruct H as (H & -> & ?); written H.

(** Sizes of wire forms. *)
Ltac wire_sizes :=
  repeat first [rewrite zlen_cons in * | rewrite zlen_wires_cons in * | rewrite zlen_wires_app in *
               | rewrite zlen_wires_nil in *];
  cbn [size] in *;
  repeat match goal with
  | H : id_ok ?i |- context [zlen ?i] => rewrite (zlen_id i H)
  end.
Ltac nonnegs :=
  repeat match goal with
  | |- context [zlen ?l] =>
      lazymatch goal with
      | _ : 0 <= zlen l |- _ => fail
      | _ => pose proof (zlen_nonneg l)
      end
  | _ : context [zlen ?l] |- _ =>
      lazymatch goal with
      | _ : 0 <= zlen l |- _ => fail
      | _ => pose proof (zlen_nonneg l)
      end
  end.

(** Use the guards known to hold. *)
Ltac pass_guards :=
  repeat match goal with
  | H : ?b = false |- context [guard ?b _] => rewrite H
  | H : ?b = false |- context [if ?b then _ else _] => rewrite H
  | H : ?m = Ok _ |- context [rbind ?m _] => rewrite H
  end; cbn [rbind guard].

(** Turn every successful read of the context into a [reads] fact. *)
Ltac invert_reads :=
  inv_results;
  repeat match goal with
  | p : (_ * Decoder.decoder)%type |- _ => destruct p; cbn beta iota in *; inv_results
  end;
  repeat match goal with
  | H : Decoder.u8 _ = Ok (_, _) |- _ => apply u8_inv in H
  | H : Decoder.bool _ = Ok (_, _) |- _ => apply bool_inv in H
  | H : Decoder.u16 _ = Ok (_, _) |- _ => apply u16_inv in H
  | H : Decoder.u32 _ = Ok (_, _) |- _ => apply u32_inv in H
  | H : Decoder.u64 _ = Ok (_, _) |- _ => apply u64_inv in H
  | H : Decoder.i64 _ = Ok (_, _) |- _ => apply i64_inv in H
  | H : Decoder.id _ = Ok (_, _) |- _ => apply id_inv in H
  | H : Decoder.bytes _ = Ok (_, _) |- _ => apply bytes_inv in H
  end.

(** Assemble the fields read one by one. *)
Ltac chain_reads :=
  repeat first
    [ eassumption
    | apply reads_nil
    | eapply reads_cons; [first [eassumption | apply reads_refuse; eassumption]|]
    | eapply reads_app; [eassumption|] ].

(** The Go type of a value that was read. *)
Ltac typed_read :=
  match goal with
  | H : reads _ [U8 ?v] _ |- uint8 ?v => exact (reads_typed _ _ _ H)
  | H : reads _ [U16 ?v] _ |- uint16 ?v => exact (reads_typed _ _ _ H)
  | H : reads _ [U32 ?v] _ |- uint32 ?v => exact (reads_typed _ _ _ H)
  | H : reads _ [U64 ?v] _ |- uint64 ?v => exact (reads_typed _ _ _ H)
  | H : reads _ [I64 ?v] _ |- int64 ?v => exact (reads_typed _ _ _ H)
  | H : reads _ [IDf ?v] _ |- id_ok ?v => exact (reads_typed _ _ _ H)
  | |- i_range _ (wrap_i _ _) => apply wrap_i_range; lia
  | |- u_range _ (wrap_u _ _) => apply wrap_u_range; lia
  end.

Ltac assemble :=
  autounfold with codec; cbn -[wires u_range i_range id_ok zlen wrap_i wrap_u];
  repeat (rewrite <- app_assoc; cbn [app]);
  repeat match goal with
  | R : reads _ [U32 ?v] _ |- context [wrap_u 32 (wrap_i 32 ?v)] => rewrite (signed_read _ _ _ R)
  end;
  chain_reads.
Ltac read_in_full := eapply reads_full; [eassumption | assemble | eassumption].
Ltac read_prefix := eapply reads_prefix; [eassumption | assemble | eassumption].
Ltac typed_fields :=
  autounfold with codec; cbn -[u_range i_range id_ok wrap_i wrap_u]; split_and?; repeat typed_read; try assumption; try apply Forall_nil_2; try exact I;
  try (split; [discriminate | reflexivity]).

(** ** Record codecs

    The [MarshalBinary] method and the [Unmarshal] function of a record type.
    [record_ok] says that the fields are values of their Go types, and, for the
    few records whose decoder is stricter than their encoder, that they pass the
    decoder's limits. [stored] is the form a record has once it was written: with
    its defaults filled in and its lists sorted. *)
Class RecordCodec (R : Type) := {
  record_ok : R -> Prop;
  stored : R -> R;
  marshal : R -> result bytes;
  unmarshal : bytes -> result R;
}.

(** What is written can be read back. *)
Class RoundTrip (R : Type) `{RecordCodec R} : Prop :=
  round_trip : forall r b, record_ok r -> marshal r = Ok b -> unmarshal b = Ok (stored r).

(** What is read is well typed and is the only encoding of the record. *)
Class Canonical (R : Type) `{RecordCodec R} : Prop :=
  canonical : forall b r, unmarshal b = Ok r -> record_ok r /\ marshal r = Ok b.

Arguments round_trip {R _ _}.
Arguments canonical {R _ _}.

Ltac sizes :=
  wire_sizes; nonnegs; unfold u_range, maxFieldBytes, MaxEncodedValueBytes in *; lia.

(** Decide a guard from the sizes and from the checks known to have passed. *)
Ltac decide_guard :=
  match goal with
  | |- context [guard ?b _] =>
      let E := fresh "E" in
      assert (b = false) as E
        by (repeat match goal with |- _ || _ = false => apply orb_false_iff; split end;
            first [assumption | apply negb_false_iff; assumption | apply Z.eqb_neq; assumption
                  | apply bytes_eqb_neq; assumption | apply Z.ltb_ge; sizes | apply Z.eqb_neq; sizes]);
      rewrite E; clear E; cbn [guard rbind]
  end.
Ltac start_decoder := rewrite newDecoder_wires by done; cbn [rbind].

(** A record rebuilt from its own fields is that record. *)
Ltac eta_record r :=
  let T := type of r in
  repeat match goal with
  | |- context [?rec] =>
      lazymatch type of rec with T => idtac end;
      tryif constr_eq rec r then fail else replace rec with r by (by destruct r)
  end.

(** Read back a record written by [m]; [u] is its decoder. *)
Ltac round_trip_record m u :=
  intros r b Hok H;
  match type of Hok with @record_ok _ ?inst _ => cbn [marshal unmarshal stored record_ok inst] in * end;
  autounfold with codec in Hok; destruct_and?;
  unfold m in H; inv_results; encoded H;
  unfold u; start_decoder; read_fields; eta_record r; pass_guards; done.

(** Write again a record read by [u]; [m] is its encoder. *)
Ltac canonical_record m u :=
  intros b r H;
  match type of H with @unmarshal _ ?inst _ = _ => cbn [marshal unmarshal stored record_ok inst] in * end;
  unfold u in H; invert_reads;
  split; [typed_fields|]; unfold m; cbn -[u_range i_range id_ok zlen encode guard rbind];
  pass_guards; eapply encode_reads; [eassumption | assemble | eassumption].

(** The items read by a counted loop; [inv] inverts one item. *)
Ltac read_list inv :=
  match goal with
  | R : reads _ [?f ?count] ?d, H : Decoder.many (Z.to_nat ?count) _ ?d = Ok _ |- _ =>
      eapply (many_inv_count _ _ _ _ _ _ _ inv) in H;
      [|exact (proj1 (reads_typed _ _ _ R))]; destruct H as (? & -> & ?)
  end.
Ltac read_after inv :=
  match goal with
  | R : reads _ [?f ?count] ?d, H : Decoder.many_after (Z.to_nat ?count) _ _ ?d = Ok _ |- _ =>
      eapply (many_after_inv_count _ _ _ _ _ _ _ _ inv) in H;
      [|exact (proj1 (reads_typed _ _ _ R))]; destruct H as (? & -> & ?)
  end.
