(* ===== verification/Sha256.v ===== *)
(** * SHA-256, as [crypto/sha256] computes it

    The content addresses of the schema are SHA-256 digests. The function is
    modelled as FIPS 180-4 defines it, over 32-bit words held in [Z]. *)
From stdpp Require Import base list numbers strings.
From Stdlib Require Import ZArith Lia.
From S2P Require Import Prelude Codec.

(** The low 32 bits. *)
Definition mask32 (x : Z) : Z := Z.land x 0xffffffff.
Definition add32 (x y : Z) : Z := mask32 (x + y).
Definition rotr (n x : Z) : Z :=
  Z.lor (Z.shiftr x n) (mask32 (Z.shiftl x (32 - n))).
Definition not32 (x : Z) : Z := Z.lxor x 0xffffffff.

Definition ch (x y z : Z) : Z := Z.lxor (Z.land x y) (Z.land (not32 x) z).
Definition maj (x y z : Z) : Z := Z.lxor (Z.lxor (Z.land x y) (Z.land x z)) (Z.land y z).
Definition Sigma0 (x : Z) : Z := Z.lxor (Z.lxor (rotr 2 x) (rotr 13 x)) (rotr 22 x).
Definition Sigma1 (x : Z) : Z := Z.lxor (Z.lxor (rotr 6 x) (rotr 11 x)) (rotr 25 x).
Definition sigma0 (x : Z) : Z := Z.lxor (Z.lxor (rotr 7 x) (rotr 18 x)) (Z.shiftr x 3).
Definition sigma1 (x : Z) : Z := Z.lxor (Z.lxor (rotr 17 x) (rotr 19 x)) (Z.shiftr x 10).

Lemma mask32_mod x : mask32 x = x mod 2 ^ 32.
Proof. exact (Z.land_ones x 32 ltac:(lia)). Qed.

(** The constants are, by definition, the first 32 bits of the fractional parts
    of the cube roots of the first 64 primes and of the square roots of the first
    eight. [cube_root_from bits n 0] is the integer cube root of [n], bit by bit from
    bit [bits - 1]. *)
Fixpoint cube_root_from (bits : nat) (n root : Z) : Z :=
  match bits with
  | O => root
  | S m =>
      let next := root + 2 ^ Z.of_nat m in
      cube_root_from m n (if next * next * next <=? n then next else root)
  end.

Definition is_prime (n : Z) : bool :=
  (2 <=? n) && forallb (fun d => negb (n mod Z.of_nat d =? 0)) (seq 2 (Z.to_nat n - 2)).

Definition primes : list Z :=
  Eval vm_compute in filter (fun n => is_prime n = true) (map Z.of_nat (seq 0 312)).

Definition round_constants : list Z :=
  Eval vm_compute in map (fun p => cube_root_from 36 (p * 2 ^ 96) 0 mod 2 ^ 32) primes.

Definition square_root_bits (p : Z) : Z := Z.sqrt (p * 2 ^ 64) mod 2 ^ 32.

(** The chaining value, and the working variables a to h. *)
Record words := mkWords { wa : Z; wb : Z; wc : Z; wd : Z; we : Z; wf : Z; wg : Z; wh : Z }.

Definition initial : words :=
  Eval vm_compute in
    let at_ i := square_root_bits (nth i primes 0) in
    mkWords (at_ 0%nat) (at_ 1%nat) (at_ 2%nat) (at_ 3%nat) (at_ 4%nat) (at_ 5%nat) (at_ 6%nat) (at_ 7%nat).

Definition round (s : words) (kw : Z * Z) : words :=
  let t1 := add32 (add32 (add32 (add32 (wh s) (Sigma1 (we s))) (ch (we s) (wf s) (wg s))) (fst kw)) (snd kw) in
  let t2 := add32 (Sigma0 (wa s)) (maj (wa s) (wb s) (wc s)) in
  mkWords (add32 t1 t2) (wa s) (wb s) (wc s) (add32 (wd s) t1) (we s) (wf s) (wg s).

(** The message schedule, extended backwards: the newest word comes first. *)
Fixpoint schedule (n : nat) (rev_words : list Z) : list Z :=
  match n with
  | O => rev_words
  | S m =>
      let at_ i := nth i rev_words 0 in
      schedule m (add32 (add32 (add32 (sigma1 (at_ 1%nat)) (at_ 6%nat)) (sigma0 (at_ 14%nat))) (at_ 15%nat)
                    :: rev_words)
  end.

Fixpoint chunks {A} (n k : nat) (l : list A) : list (list A) :=
  match n with
  | O => []
  | S m => take k l :: chunks m k (drop k l)
  end.

Definition compress (s : words) (block : bytes) : words :=
  let w := rev (schedule 48 (rev (map unbe (chunks 16 4 block)))) in
  let t := foldl round s (combine round_constants w) in
  mkWords (add32 (wa s) (wa t)) (add32 (wb s) (wb t)) (add32 (wc s) (wc t)) (add32 (wd s) (wd t))
    (add32 (we s) (we t)) (add32 (wf s) (wf t)) (add32 (wg s) (wg t)) (add32 (wh s) (wh t)).

Definition pad (data : bytes) : bytes :=
  let zeros := (55 - zlen data) mod 64 in
  data ++ [x80] ++ repeat x00 (Z.to_nat zeros) ++ be 8 (8 * zlen data).

Definition Sum256 (data : bytes) : ID :=
  let padded := pad data in
  let s := foldl compress initial (chunks (length padded / 64) 64 padded) in
  be 4 (wa s) ++ be 4 (wb s) ++ be 4 (wc s) ++ be 4 (wd s) ++ be 4 (we s) ++ be 4 (wf s)
  ++ be 4 (wg s) ++ be 4 (wh s).

Arguments Sum256 : simpl never.

Lemma Sum256_ok data : id_ok (Sum256 data).
Proof. unfold id_ok, Sum256. by rewrite !length_app, !be_length. Qed.

(** The standard's test vectors for the empty message, one block and two blocks. *)
Example Sum256_empty :
  unbe (Sum256 []) = 0xe3b0c44298fc1c149afbf4c8996fb92427ae41e4649b934ca495991b7852b855.
Proof. vm_compute. reflexivity. Qed.
Example Sum256_abc :
  unbe (Sum256 (str "abc")) = 0xba7816bf8f01cfea414140de5dae2223b00361a396177a9cb410ff61f20015ad.
Proof. vm_compute. reflexivity. Qed.
Example Sum256_two_blocks :
  unbe (Sum256 (str "abcdbcdecdefdefgefghfghighijhijkijkljklmklmnlmnomnopnopq")) =
    0x248d6a61d20638b8e5c026930c3e6039a33ce45964ff2167f6ecedd419db06c1.
Proof. vm_compute. reflexivity. Qed.
