(* ===== verification/Keys.v ===== *)
(** * The key space of the index store ([internal/index/schema/keys.go],
    [keys_parse.go])

    The key kinds, the parsed form of a key, the enumerations that occur inside
    keys, and one constructor per key kind or scan prefix. A constructor that
    the code lets return [nil] returns the empty byte string here. Enumerations
    are Go bytes: a [Z] with named constants and a validity test. *)
From stdpp Require Import base list numbers strings.
From Stdlib Require Import ZArith Lia.
From coqutil Require Import Datatypes.RecordSetters.
From S2P Require Import Prelude Codec.
Import TriangleBracketNotations.

Definition MaxPathIndexPathBytes : Z := 4096.

Inductive KeyKind : Set :=
| KeyBlob | KeyPack | KeyPackAggregate | KeyCurrentInode | KeyInodeRevision
| KeyCurrentDirectory | KeyDirectoryRevision | KeySnapshot | KeyContentManifest
| KeyReverseManifest | KeyReverseInode | KeyReferenceCount | KeyGarbageCollection
| KeyCrawlDebt | KeyImportCheckpoint | KeySnapshotImportCheckpoint | KeyNextRevision
| KeyHardlinkRefs | KeyExportCheckpoint | KeyExportIndexCheckpoint
| KeyNextExportSequence | KeyTierAggregate | KeyPackHistory | KeyPackHistoryBucket
| KeyNextEventSequence | KeyHistoryRawFloor | KeyHistoryEnabledAt | KeyPackPlacement
| KeyBackendPack | KeyPlacementDeleteQueue | KeySnapshotCommit | KeyPathVersion
| KeyPlacementRequest | KeyRepackLineage | KeyPromotionEligibility | KeyAnalyticsFact
| KeyAnalyticsCache | KeyAnalyticsMetadata | KeyAnalyticsBuildCheckpoint
| KeyAnalyticsDictionary | KeyAnalyticsFactSegment | KeyAnalyticsSegmentMetadata
| KeyAnalyticsDimensionIndex | KeyAnalyticsResidency | KeyAnalyticsDelta
| KeyAnalyticsWatermark | KeyAnalyticsManifest | KeyAnalyticsQueryResult
| KeyAnalyticsQueryHeat | KeyAnalyticsQueryView | KeyAnalyticsQueryJob | KeyGrowthTime
| KeyGrowthPath | KeyUserSummary | KeyGroupSummary | KeyUserChurn | KeyUserInode
| KeyUserBlob | KeyAuthoritativeCrawlProof | KeyAuthoritativeSourceBinding
| KeyAnalyticsDerivedMarker | KeyUserBlobContribution | KeyUserStats | KeyGroupStats
| KeyUIDExclusionPolicy | KeyDeletionCertificate | KeyVerificationState
| KeyVerificationEvent | KeyLegacyImportReceipt.

#[export] Instance KeyKind_eq_dec : EqDecision KeyKind.
Proof. solve_decision. Defined.

Definition kind_eqb (a b : KeyKind) : bool := bool_decide (a = b).

(** ** Enumerations inside keys *)

Definition AnalyticsDictionarySVM : Z := 1.
Definition AnalyticsDictionaryVolume : Z := 2.
Definition AnalyticsDictionaryPathGroup : Z := 3.

Definition AnalyticsDimensionUID : Z := 1.
Definition AnalyticsDimensionResidency : Z := 13.

Definition AnalyticsGranularityWeek : Z := 1.
Definition AnalyticsGranularityMonth : Z := 2.
Definition AnalyticsGranularityYear : Z := 3.

Definition GranularityHourly : Z := 1.
Definition GranularityDaily : Z := 2.
Definition GranularityMonthly : Z := 3.

Definition AggregateData : Z := 1.
Definition AggregateTree : Z := 2.
Definition AggregateMixed : Z := 3.
Definition AggregateUnknown : Z := 4.
Definition AggregateAll : Z := 5.

Definition GCBlob : Z := 1.
Definition GCPack : Z := 2.

Definition PackData : Z := 1.
Definition PackTree : Z := 2.
Definition PackMixed : Z := 3.
Definition PackUnknown : Z := 4.

Definition TierUnknown : Z := 1.
Definition TierHot : Z := 2.
Definition TierCold : Z := 3.
Definition TierMirrored : Z := 4.
Definition TierSingle : Z := 5.

Definition AnalyticsLive : Z := 1.
Definition AnalyticsArchiveOnly : Z := 2.
Definition AnalyticsUnknown : Z := 3.
Definition AnalyticsDeleted : Z := 4.
Definition AnalyticsExpired : Z := 5.

Definition between (lo hi v : Z) : bool := (lo <=? v) && (v <=? hi).

Definition validHistoryGranularity (value : Z) : bool :=
  between GranularityHourly GranularityMonthly value.
Definition validAnalyticsDictionaryKind (kind : Z) : bool :=
  between AnalyticsDictionarySVM AnalyticsDictionaryPathGroup kind.
Definition validAnalyticsDimension (dimension : Z) : bool :=
  between AnalyticsDimensionUID AnalyticsDimensionResidency dimension.
Definition validAnalyticsGranularity (granularity : Z) : bool :=
  between AnalyticsGranularityWeek AnalyticsGranularityYear granularity.
Definition validPackType (value : Z) : bool := between PackData PackUnknown value.
Definition validPackTier (value : Z) : bool := between TierUnknown TierSingle value.

(** [residency < AnalyticsLive || residency > AnalyticsExpired] *)
Definition residency_out_of_range (residency : Z) : bool :=
  (residency <? AnalyticsLive) || (AnalyticsExpired <? residency).

(** The name of an aggregate; a kind outside the map has the empty name. *)
Definition aggregateName (kind : Z) : bytes :=
  if kind =? AggregateData then str "data"
  else if kind =? AggregateTree then str "tree"
  else if kind =? AggregateMixed then str "mixed"
  else if kind =? AggregateUnknown then str "unknown"
  else if kind =? AggregateAll then str "all"
  else [].

Definition tierAggregateNames (tier : Z) : option bytes :=
  if tier =? TierUnknown then Some (str "unknown")
  else if tier =? TierHot then Some (str "hot")
  else if tier =? TierCold then Some (str "cold")
  else if tier =? TierMirrored then Some (str "mirrored")
  else if tier =? TierSingle then Some (str "single")
  else None.

(** ** Parsed keys *)
Module PK.

Record ParsedKey : Type := mkParsedKey {
  Kind : KeyKind;
  Id : ID;
  SecondID : ID;
  FSID : Z;
  Inode : Z;
  Revision : Z;
  Segment : Z;
  Aggregate : Z;
  Tier : Z;
  GCTarget : Z;
  EventTime : Z;
  Granularity : Z;
  Backend : Z;
  PackType : Z;
  DeleteAfter : Z;
  Path : bytes;
  Generation : Z;
  ViewGeneration : Z;
  Commit : Z;
  Ordinal : Z;
  Dictionary : Z;
  Dimension : Z;
  Value : Z;
  Epoch : Z;
  UID : Z;
  GID : Z;
  Timestamp : Z;
  Residency : Z
}.

(** [ParsedKey{Kind: kind}] *)
Definition of_kind (kind : KeyKind) : ParsedKey :=
  mkParsedKey kind zero_id zero_id 0 0 0 0 0 0 0 0 0 0 0 0 [] 0 0 0 0 0 0 0 0 0 0 0 0.

End PK.
Abbreviation ParsedKey := PK.ParsedKey.

(** ** Shared shapes *)

Definition idKey (prefix : bytes) (id : ID) : bytes := prefix ++ id.

Definition inodeKey (prefix : bytes) (fsid inode : Z) : bytes :=
  prefix ++ be 4 fsid ++ be 8 inode.

Definition revisionKey (prefix : bytes) (fsid inode revision : Z) : bytes :=
  prefix ++ be 4 fsid ++ be 8 inode ++ be 8 revision.

Definition analyticsUint64Key (prefix : bytes) (value : Z) : bytes :=
  if value =? 0 then [] else prefix ++ be 8 value.

Definition analyticsUint32Key (prefix : bytes) (value : Z) : bytes :=
  prefix ++ be 4 value.

Definition analyticsStatsKey (prefix : bytes) (id residency : Z) : bytes :=
  if residency_out_of_range residency then []
  else prefix ++ be 4 id ++ [z2b residency].

(** [uint64(timestamp) ^ (uint64(1) << 63)]: order-preserving signed time. *)
Definition flip_sign (timestamp : Z) : Z :=
  Z.lxor (wrap_u 64 timestamp) (Z.shiftl 1 63).

(** [strings.TrimPrefix(path, "/")] *)
Definition trim_slash (path : bytes) : bytes :=
  match path with
  | b :: rest => if Byte.eqb b x2f then rest else path
  | [] => []
  end.

(** [strings.IndexByte(path, 0) >= 0] *)
Definition has_nul (path : bytes) : bool := existsb (Byte.eqb x00) path.

(** ** [strings.TrimSpace] and [normalizeAnalyticsPath] *)

(** The UTF-8 encodings of the characters [unicode.IsSpace] accepts. *)
Definition spaces : list bytes :=
  [ [x09]; [x0a]; [x0b]; [x0c]; [x0d]; [x20]; [xc2; x85]; [xc2; xa0]; [xe1; x9a; x80];
    [xe2; x80; x80]; [xe2; x80; x81]; [xe2; x80; x82]; [xe2; x80; x83]; [xe2; x80; x84];
    [xe2; x80; x85]; [xe2; x80; x86]; [xe2; x80; x87]; [xe2; x80; x88]; [xe2; x80; x89];
    [xe2; x80; x8a]; [xe2; x80; xa8]; [xe2; x80; xa9]; [xe2; x80; xaf]; [xe2; x81; x9f];
    [xe3; x80; x80] ].

(** Remove encodings of [ws] from the front; [length s] rounds are enough. *)
Fixpoint trim_front (fuel : nat) (ws : list bytes) (s : bytes) : bytes :=
  match fuel with
  | O => s
  | S n =>
      match List.find (fun w => has_prefix w s) ws with
      | Some w => trim_front n ws (drop (length w) s)
      | None => s
      end
  end.

Definition TrimSpace (s : bytes) : bytes :=
  let s := trim_front (length s) spaces s in
  rev (trim_front (length s) (map (@rev byte) spaces) (rev s)).

(** [strings.Trim(s, "/")] *)
Definition Trim_slashes (s : bytes) : bytes :=
  let s := trim_front (length s) [[x2f]] s in
  rev (trim_front (length s) [[x2f]] (rev s)).

(** [strings.Contains(s, "//")] *)
Fixpoint has_double_slash (s : bytes) : bool :=
  match s with
  | [] => false
  | _ :: rest => has_prefix [x2f; x2f] s || has_double_slash rest
  end.

Definition normalizeAnalyticsPath (path : bytes) : bytes :=
  let path := TrimSpace path in
  if bytes_eqb path [] || has_nul path then []
  else
    let path := x2f :: Trim_slashes path in
    if bytes_eqb path [x2f] || has_double_slash path then [] else path.

(** ** Repository keys *)

Definition BlobKey (id : ID) : bytes := idKey (str "b:") id.
Definition PackKey (id : ID) : bytes := idKey (str "p:") id.
Definition SnapshotKey (id : ID) : bytes := idKey (str "s:") id.
Definition ReferenceCountKey (id : ID) : bytes := idKey (str "rc:") id.

Definition SnapshotCommitKey (commitSequence : Z) (snapshot : ID) : bytes :=
  str "sc:" ++ be 8 commitSequence ++ str ":" ++ snapshot.
Definition SnapshotCommitPrefix : bytes := str "sc:".

(** [path == "" || len(path) > MaxPathIndexPathBytes || contains NUL] *)
Definition bad_path (path : bytes) : bool :=
  bytes_eqb path [] || (MaxPathIndexPathBytes <? zlen path) || has_nul path.

Definition PathVersionKey (fsid : Z) (path : bytes) (revision : Z) : bytes :=
  let path := trim_slash path in
  if bad_path path then []
  else str "pv:" ++ be 4 fsid ++ path ++ [x00] ++ be 8 revision.

Definition PathVersionPrefix (fsid : Z) (path : bytes) : bytes :=
  let path := trim_slash path in
  if bad_path path then [] else str "pv:" ++ be 4 fsid ++ path ++ [x00].

Definition PathVersionSubtreePrefix (fsid : Z) (path : bytes) : bytes :=
  let path := trim_slash path in
  if bytes_eqb path [] || (MaxPathIndexPathBytes <=? zlen path) || has_nul path then []
  else str "pv:" ++ be 4 fsid ++ path ++ [x2f].

Definition CurrentInodeKey (fsid inode : Z) : bytes := inodeKey (str "i:") fsid inode.
Definition CurrentDirectoryKey (fsid inode : Z) : bytes := inodeKey (str "d:") fsid inode.
Definition InodeRevisionKey (fsid inode revision : Z) : bytes :=
  revisionKey (str "iv:") fsid inode revision.
Definition InodeRevisionPrefix (fsid inode : Z) : bytes :=
  str "iv:" ++ be 4 fsid ++ be 8 inode.
Definition DirectoryRevisionKey (fsid inode revision : Z) : bytes :=
  revisionKey (str "dv:") fsid inode revision.
Definition HardlinkRefsKey (fsid inode revision : Z) : bytes :=
  revisionKey (str "hr:") fsid inode revision.

Definition ContentManifestKey (id : ID) (segment : Z) : bytes :=
  str "cm:" ++ id ++ be 4 segment.
Definition ReverseManifestKey (blob manifest : ID) : bytes := str "rm:" ++ blob ++ manifest.
Definition ReverseInodeKey (blob : ID) (fsid inode : Z) : bytes :=
  str "ri:" ++ blob ++ be 4 fsid ++ be 8 inode.

Definition GarbageCollectionKey (target : Z) (id : ID) : bytes :=
  if target =? GCBlob then idKey (str "gc:b:") id
  else if target =? GCPack then idKey (str "gc:p:") id
  else [].

Definition CrawlDebtKey (snapshot work : ID) : bytes := str "q:" ++ snapshot ++ work.

Definition ImportCheckpointKey (index : ID) : bytes := idKey (str "meta:import-index:") index.
Definition SnapshotImportCheckpointKey (snapshot : ID) : bytes :=
  idKey (str "meta:import-snapshot:") snapshot.
Definition LegacyImportReceiptKey (session : ID) (batch : Z) : bytes :=
  str "meta:import-receipt:" ++ session ++ be 8 batch.
Definition LegacyImportReceiptPrefix (session : ID) : bytes :=
  str "meta:import-receipt:" ++ session.
Definition ExportCheckpointKey (snapshot : ID) : bytes :=
  idKey (str "meta:export-snapshot:") snapshot.
Definition ExportIndexCheckpointKey (index : ID) : bytes :=
  idKey (str "meta:export-index:") index.

Definition NextEventSequenceKey : bytes := str "meta:next-event-seq".
Definition HistoryRawFloorKey : bytes := str "meta:history-raw-floor".
Definition HistoryEnabledAtKey : bytes := str "meta:history-enabled-at".
Definition NextRevisionKey : bytes := str "meta:next-revision-seq".
Definition NextExportSequenceKey : bytes := str "meta:next-export-seq".

Definition PackAggregateKey (kind : Z) : bytes := str "a:pack:" ++ aggregateName kind.
Definition TierAggregateKey (tier : Z) : bytes :=
  match tierAggregateNames tier with
  | Some name => str "a:tier:" ++ name
  | None => []
  end.
Definition TierAggregateKinds : list Z :=
  [TierUnknown; TierHot; TierCold; TierMirrored; TierSingle].

Definition PackHistoryKey (unixSeconds sequence : Z) (pack : ID) : bytes :=
  str "ph:" ++ be 8 unixSeconds ++ be 8 sequence ++ pack.
Definition PackHistoryTimePrefix (unixSeconds : Z) : bytes := str "ph:" ++ be 8 unixSeconds.

Definition PackHistoryBucketKey (granularity bucketStart backend packType : Z) : bytes :=
  if negb (validHistoryGranularity granularity) then []
  else str "pb:" ++ [z2b granularity] ++ be 8 bucketStart ++ be 8 backend ++ [z2b packType].
Definition PackHistoryBucketPrefix (granularity : Z) : bytes := str "pb:" ++ [z2b granularity].

Definition PackPlacementKey (pack : ID) (backend : Z) : bytes :=
  str "pl:" ++ pack ++ str ":" ++ be 8 backend.
Definition PackPlacementPrefix (pack : ID) : bytes := str "pl:" ++ pack ++ str ":".

Definition VerificationStateKey (pack : ID) (backend : Z) : bytes :=
  str "vr:" ++ pack ++ be 8 backend.
Definition VerificationEventKey (unixSeconds sequence : Z) (pack : ID) (backend : Z) : bytes :=
  str "ve:" ++ be 8 unixSeconds ++ be 8 sequence ++ pack ++ be 8 backend.

Definition UIDExclusionPolicyKey (uid : Z) : bytes := str "u:policy:blocklist:" ++ be 4 uid.
Definition DeletionCertificateKey (uid unixSeconds : Z) (runID : ID) : bytes :=
  str "dc:" ++ be 4 uid ++ be 8 unixSeconds ++ runID.
Definition DeletionCertificatePrefix (uid : Z) : bytes := str "dc:" ++ be 4 uid.

Definition BackendPackKey (backend : Z) (pack : ID) : bytes :=
  str "bp:" ++ be 8 backend ++ str ":" ++ pack.
Definition BackendPackPrefix (backend : Z) : bytes := str "bp:" ++ be 8 backend ++ str ":".

Definition PlacementDeleteQueueKey (deleteAfter : Z) (pack : ID) (backend : Z) : bytes :=
  str "dq:" ++ be 8 (wrap_u 64 deleteAfter) ++ str ":" ++ pack ++ str ":" ++ be 8 backend.
Definition PlacementDeleteQueuePrefix (before : Z) : bytes :=
  str "dq:" ++ be 8 (wrap_u 64 before).

Definition PlacementRequestKey (deadlineUnixSeconds : Z) (pack : ID) : bytes :=
  str "rq:" ++ be 8 deadlineUnixSeconds ++ str ":" ++ pack.
Definition RepackLineageKey (source successor : ID) : bytes :=
  str "rl:" ++ source ++ str ":" ++ successor.
Definition RepackLineagePrefix (source : ID) : bytes := str "rl:" ++ source ++ str ":".
Definition PromotionEligibilityKey (pack : ID) : bytes := idKey (str "pe:") pack.

(** ** Analytics keys *)

Definition AnalyticsFactKey (fsid inode : Z) : bytes := inodeKey (str "an:") fsid inode.
Definition AnalyticsCacheKey (hash : ID) : bytes := idKey (str "aq:") hash.
Definition AnalyticsMetadataKey : bytes := str "meta:analytics".
Definition AnalyticsBuildCheckpointKey : bytes := str "meta:analytics-build".

Definition AnalyticsDictionaryKey (kind id : Z) : bytes :=
  if negb (validAnalyticsDictionaryKind kind) || (id =? 0) then []
  else str "ad:" ++ [z2b kind] ++ be 4 id.

Definition AnalyticsFactSegmentKey (segment : Z) : bytes :=
  analyticsUint64Key (str "af:") segment.
Definition AnalyticsSegmentMetadataKey (segment : Z) : bytes :=
  analyticsUint64Key (str "am:") segment.
Definition AnalyticsManifestKey (classificationEpoch : Z) : bytes :=
  analyticsUint64Key (str "ap:") classificationEpoch.
Definition AnalyticsWatermarkKey (classificationEpoch : Z) : bytes :=
  analyticsUint64Key (str "aw:applied:") classificationEpoch.

Definition AnalyticsDimensionIndexKey (dimension value segment : Z) : bytes :=
  if negb (validAnalyticsDimension dimension) || (segment =? 0) then []
  else str "ai:" ++ [z2b dimension] ++ be 8 value ++ be 8 segment.

Definition AnalyticsResidencyKey (fsid inode generation : Z) : bytes :=
  if generation =? 0 then [] else revisionKey (str "ar:") fsid inode generation.

Definition AnalyticsDeltaKey (commit ordinal : Z) : bytes :=
  if commit =? 0 then [] else str "ae:" ++ be 8 commit ++ be 4 ordinal.

Definition AnalyticsDerivedPrefix (generation : Z) (prefix : bytes) : bytes :=
  if generation =? 0 then [] else str "av1:" ++ be 8 generation ++ str ":" ++ prefix.
Definition AnalyticsDerivedGenerationPrefix (generation : Z) : bytes :=
  AnalyticsDerivedPrefix generation [].
Definition AnalyticsDerivedGenerationMarkerKey (generation : Z) : bytes :=
  if generation =? 0 then [] else AnalyticsDerivedPrefix generation (str "complete").

Definition AuthoritativeCrawlProofKey (scope : ID) (endCommit : Z) : bytes :=
  if is_zero_id scope || (endCommit =? 0) then []
  else str "acp:" ++ scope ++ be 8 endCommit.

Definition AuthoritativeSourceBindingKey (scope : ID) (fsid inode generation : Z) : bytes :=
  if is_zero_id scope || (fsid =? 0) || (inode =? 0) || (generation =? 0) then []
  else str "asb:" ++ scope ++ be 4 fsid ++ be 8 inode ++ be 8 generation.

Definition AnalyticsQueryResultKey
  (hash : ID) (repositoryGeneration classificationEpoch appliedCommit : Z) : bytes :=
  if (repositoryGeneration =? 0) || (classificationEpoch =? 0) then []
  else str "aq:result:" ++ hash ++ be 8 repositoryGeneration ++ be 8 classificationEpoch
       ++ be 8 appliedCommit.
Definition AnalyticsQueryHeatKey (hash : ID) : bytes := idKey (str "aq:heat:") hash.
Definition AnalyticsQueryViewKey (view : ID) (bucket : Z) : bytes :=
  str "aq:view:" ++ view ++ be 8 bucket.
Definition AnalyticsQueryJobKey (query : ID) : bytes := idKey (str "aq:job:") query.

Definition GrowthTimeKey (granularity timestamp tier : Z) : bytes :=
  if negb (validAnalyticsGranularity granularity) || negb (validPackTier tier) then []
  else str "g:time:" ++ [z2b granularity] ++ be 8 (flip_sign timestamp) ++ [z2b tier].

Definition GrowthPathKey (path : bytes) (granularity timestamp : Z) : bytes :=
  let path := normalizeAnalyticsPath path in
  if bytes_eqb path [] || (MaxPathIndexPathBytes <? zlen path)
     || negb (validAnalyticsGranularity granularity) then []
  else str "g:path:" ++ be 2 (zlen path) ++ path ++ [z2b granularity]
       ++ be 8 (flip_sign timestamp).

Definition GrowthPathPrefix (path : bytes) : bytes :=
  let path := normalizeAnalyticsPath path in
  if bytes_eqb path [] || (MaxPathIndexPathBytes <? zlen path) then []
  else str "g:path:" ++ be 2 (zlen path) ++ path.

Definition UserSummaryKey (uid : Z) : bytes := analyticsUint32Key (str "u:summary:") uid.
Definition GroupSummaryKey (gid : Z) : bytes := analyticsUint32Key (str "g:summary:") gid.
Definition UserStatsKey (uid residency : Z) : bytes :=
  analyticsStatsKey (str "u:statsv1:") uid residency.
Definition GroupStatsKey (gid residency : Z) : bytes :=
  analyticsStatsKey (str "g:statsv1:") gid residency.

Definition UserChurnKey (uid granularity timestamp : Z) : bytes :=
  if negb (validAnalyticsGranularity granularity) then []
  else str "u:churn:" ++ be 4 uid ++ [z2b granularity] ++ be 8 (flip_sign timestamp).
Definition UserInodeKey (uid fsid inode : Z) : bytes :=
  str "u:inodes:" ++ be 4 uid ++ be 4 fsid ++ be 8 inode.
Definition UserInodePrefix (uid : Z) : bytes := analyticsUint32Key (str "u:inodes:") uid.
Definition UserBlobKey (uid : Z) (blob : ID) : bytes := str "u:blobs:" ++ be 4 uid ++ blob.
Definition UserBlobPrefix (uid : Z) : bytes := analyticsUint32Key (str "u:blobs:") uid.
Definition UserBlobContributionKey
  (uid : Z) (blob : ID) (fsid inode generation ordinal : Z) : bytes :=
  if generation =? 0 then []
  else str "u:blobv1:" ++ be 4 uid ++ blob ++ be 4 fsid ++ be 8 inode ++ be 8 generation
       ++ be 4 ordinal.
Definition UserBlobContributionPrefix (uid : Z) : bytes :=
  analyticsUint32Key (str "u:blobv1:") uid.

(** [autounfold with keys] exposes the bytes a key is made of. *)
Create HintDb keys.
#[export] Hint Unfold
  idKey inodeKey revisionKey analyticsUint64Key analyticsUint32Key analyticsStatsKey BlobKey
  PackKey SnapshotKey ReferenceCountKey SnapshotCommitKey SnapshotCommitPrefix PathVersionKey
  PathVersionPrefix PathVersionSubtreePrefix CurrentInodeKey CurrentDirectoryKey
  InodeRevisionKey InodeRevisionPrefix DirectoryRevisionKey HardlinkRefsKey ContentManifestKey
  ReverseManifestKey ReverseInodeKey GarbageCollectionKey CrawlDebtKey ImportCheckpointKey
  SnapshotImportCheckpointKey LegacyImportReceiptKey LegacyImportReceiptPrefix
  ExportCheckpointKey ExportIndexCheckpointKey NextEventSequenceKey HistoryRawFloorKey
  HistoryEnabledAtKey NextRevisionKey NextExportSequenceKey PackAggregateKey TierAggregateKey
  PackHistoryKey PackHistoryTimePrefix PackHistoryBucketKey PackHistoryBucketPrefix
  PackPlacementKey PackPlacementPrefix VerificationStateKey VerificationEventKey
  UIDExclusionPolicyKey DeletionCertificateKey DeletionCertificatePrefix BackendPackKey
  BackendPackPrefix PlacementDeleteQueueKey PlacementDeleteQueuePrefix PlacementRequestKey
  RepackLineageKey RepackLineagePrefix PromotionEligibilityKey AnalyticsFactKey
  AnalyticsCacheKey AnalyticsMetadataKey AnalyticsBuildCheckpointKey AnalyticsDictionaryKey
  AnalyticsFactSegmentKey AnalyticsSegmentMetadataKey AnalyticsManifestKey
  AnalyticsWatermarkKey AnalyticsDimensionIndexKey AnalyticsResidencyKey AnalyticsDeltaKey
  AnalyticsDerivedPrefix AnalyticsDerivedGenerationPrefix AnalyticsDerivedGenerationMarkerKey
  AuthoritativeCrawlProofKey AuthoritativeSourceBindingKey AnalyticsQueryResultKey
  AnalyticsQueryHeatKey AnalyticsQueryViewKey AnalyticsQueryJobKey GrowthTimeKey GrowthPathKey
  GrowthPathPrefix UserSummaryKey GroupSummaryKey UserStatsKey GroupStatsKey UserChurnKey
  UserInodeKey UserInodePrefix UserBlobKey UserBlobPrefix UserBlobContributionKey
  UserBlobContributionPrefix : keys.
