(* ===== verification/KeyParse.v ===== *)
(** * Parsing keys ([internal/index/schema/key_codecs.go], [keys_parse.go])

    One codec per leading byte, each a sequence of length and prefix tests in
    the order of the code. [ParseKey] recurses only through keys of a derived
    analytics generation, whose inner key is 13 bytes shorter; its fuel is the
    length of the key and [ParseKey_unfold] shows that it is never exhausted. *)
From stdpp Require Import base list numbers strings.
From Stdlib Require Import ZArith Lia.
From coqutil Require Import Datatypes.RecordSetters.
From S2P Require Import Prelude Codec Keys.
Import TriangleBracketNotations.

(** [len(key) == n && string(key[:len(p)]) == p] *)
Definition is_key (n : nat) (p : string) (key : bytes) : bool :=
  Nat.eqb (length key) n && bytes_eqb (take (String.length p) key) (str p).

(** [key[i] == ':'] *)
Definition colon_at (i : nat) (key : bytes) : bool := Byte.eqb (byte_at i key) x3a.

(** [binary.BigEndian.UintN(key[i:j])] *)
Definition uint_at (i j : nat) (key : bytes) : Z := unbe (sub i j key).

(** [byte(key[i])] as an enumeration value *)
Definition enum_at (i : nat) (key : bytes) : Z := b2z (byte_at i key).

(** [int64(x ^ (uint64(1) << 63))] *)
Definition unflip_sign (x : Z) : Z := wrap_i 64 (Z.lxor x (Z.shiftl 1 63)).

(** [copy(id[:], s)] into a zeroed array *)
Definition copy_id (s : bytes) : ID := take 32 (s ++ zero_id).
Definition id_at (i : nat) (key : bytes) : ID := copy_id (sub i (i + 32) key).

Definition malformedKey : result ParsedKey := Err "unknown or incorrectly sized key".
Definition namedMalformedKey (msg : string) : result ParsedKey := Err msg.

Definition isAnalyticsDerivedKind (kind : KeyKind) : bool :=
  match kind with
  | KeyAnalyticsResidency | KeyGrowthTime | KeyGrowthPath | KeyUserSummary
  | KeyGroupSummary | KeyUserStats | KeyGroupStats | KeyUserChurn | KeyUserInode
  | KeyUserBlob | KeyUserBlobContribution => true
  | _ => false
  end.

Definition reservedAnalyticsQueryPrefix (key : bytes) : bool :=
  existsb (fun p => has_prefix (str p) key) ["aq:result:"; "aq:heat:"; "aq:view:"; "aq:job:"]%string.

Definition parseAggregate (key : bytes) : option Z :=
  List.find (fun kind => bytes_eqb key (str "a:pack:" ++ aggregateName kind))
    [AggregateData; AggregateTree; AggregateMixed; AggregateUnknown; AggregateAll].

Definition parseTierAggregate (key : bytes) : option Z :=
  List.find
    (fun tier =>
       match tierAggregateNames tier with
       | Some name => bytes_eqb key (str "a:tier:" ++ name)
       | None => false
       end)
    TierAggregateKinds.

(** ** Analytics keys *)

(** The results [(_, false, nil)] and [(parsed, true, err)] are [None] and
    [Some]. *)
Definition parseAnalyticsCoreKey (key : bytes) : option (result ParsedKey) :=
  if is_key 15 "an:" key then
    Some (Ok ((PK.of_kind KeyAnalyticsFact)
      <| PK.FSID := uint_at 3 7 key |> <| PK.Inode := uint_at 7 15 key |>))
  else if is_key 8 "ad:" key then
    let kind := enum_at 3 key in
    let ordinal := uint_at 4 8 key in
    if negb (validAnalyticsDictionaryKind kind) || (ordinal =? 0)
    then Some (Err "invalid analytics dictionary key")
    else Some (Ok ((PK.of_kind KeyAnalyticsDictionary)
      <| PK.Dictionary := kind |> <| PK.Ordinal := ordinal |>))
  else if is_key 11 "af:" key then
    let generation := uint_at 3 11 key in
    if generation =? 0 then Some (Err "invalid analytics fact segment key")
    else Some (Ok ((PK.of_kind KeyAnalyticsFactSegment) <| PK.Generation := generation |>))
  else if is_key 11 "am:" key then
    let generation := uint_at 3 11 key in
    if generation =? 0 then Some (Err "invalid analytics segment metadata key")
    else Some (Ok ((PK.of_kind KeyAnalyticsSegmentMetadata) <| PK.Generation := generation |>))
  else if is_key 20 "ai:" key then
    let dimension := enum_at 3 key in
    let generation := uint_at 12 20 key in
    if negb (validAnalyticsDimension dimension) || (generation =? 0)
    then Some (Err "invalid analytics dimension index key")
    else Some (Ok ((PK.of_kind KeyAnalyticsDimensionIndex)
      <| PK.Dimension := dimension |> <| PK.Value := uint_at 4 12 key |>
      <| PK.Generation := generation |>))
  else if is_key 23 "ar:" key then
    let generation := uint_at 15 23 key in
    if generation =? 0 then Some (Err "invalid analytics residency key")
    else Some (Ok ((PK.of_kind KeyAnalyticsResidency)
      <| PK.FSID := uint_at 3 7 key |> <| PK.Inode := uint_at 7 15 key |>
      <| PK.Generation := generation |>))
  else if is_key 15 "ae:" key then
    let commit := uint_at 3 11 key in
    if commit =? 0 then Some (Err "invalid analytics delta key")
    else Some (Ok ((PK.of_kind KeyAnalyticsDelta)
      <| PK.Commit := commit |> <| PK.Ordinal := uint_at 11 15 key |>))
  else None.

Definition parseAnalyticsQueryResultKey (key : bytes) : option (result ParsedKey) :=
  if is_key 66 "aq:result:" key then
    let generation := uint_at 42 50 key in
    let epoch := uint_at 50 58 key in
    if (generation =? 0) || (epoch =? 0) then Some (Err "invalid analytics query result key")
    else Some (Ok ((PK.of_kind KeyAnalyticsQueryResult)
      <| PK.Id := id_at 10 key |> <| PK.Generation := generation |> <| PK.Epoch := epoch |>
      <| PK.Commit := uint_at 58 66 key |>))
  else if is_key 40 "aq:heat:" key then
    Some (Ok ((PK.of_kind KeyAnalyticsQueryHeat) <| PK.Id := id_at 8 key |>))
  else if is_key 48 "aq:view:" key then
    Some (Ok ((PK.of_kind KeyAnalyticsQueryView)
      <| PK.Id := id_at 8 key |> <| PK.Value := uint_at 40 48 key |>))
  else if is_key 39 "aq:job:" key then
    Some (Ok ((PK.of_kind KeyAnalyticsQueryJob) <| PK.Id := id_at 7 key |>))
  else if is_key 35 "aq:" key && negb (reservedAnalyticsQueryPrefix key) then
    Some (Ok ((PK.of_kind KeyAnalyticsCache) <| PK.Id := id_at 3 key |>))
  else None.

Definition parseAnalyticsQueryKey (key : bytes) : option (result ParsedKey) :=
  if is_key 44 "acp:" key then
    let id := id_at 4 key in
    let commit := uint_at 36 44 key in
    if is_zero_id id || (commit =? 0)
    then Some (Err "invalid authoritative crawl proof key")
    else Some (Ok ((PK.of_kind KeyAuthoritativeCrawlProof)
      <| PK.Id := id |> <| PK.Commit := commit |>))
  else if is_key 56 "asb:" key then
    let id := id_at 4 key in
    let fsid := uint_at 36 40 key in
    let inode := uint_at 40 48 key in
    let generation := uint_at 48 56 key in
    if is_zero_id id || (fsid =? 0) || (inode =? 0) || (generation =? 0)
    then Some (Err "invalid authoritative source binding key")
    else Some (Ok ((PK.of_kind KeyAuthoritativeSourceBinding)
      <| PK.Id := id |> <| PK.FSID := fsid |> <| PK.Inode := inode |>
      <| PK.Generation := generation |>))
  else if is_key 19 "aw:applied:" key then
    let epoch := uint_at 11 19 key in
    if epoch =? 0 then Some (Err "invalid analytics watermark key")
    else Some (Ok ((PK.of_kind KeyAnalyticsWatermark) <| PK.Epoch := epoch |>))
  else if is_key 11 "ap:" key then
    let epoch := uint_at 3 11 key in
    if epoch =? 0 then Some (Err "invalid analytics manifest key")
    else Some (Ok ((PK.of_kind KeyAnalyticsManifest) <| PK.Epoch := epoch |>))
  else parseAnalyticsQueryResultKey key.

(** [rec] is the recursive call of [ParseKey] on the inner key. *)
Definition parseAnalyticsDerivedKey (rec : bytes -> result ParsedKey) (key : bytes)
  : result ParsedKey :=
  let generation := uint_at 4 12 key in
  if generation =? 0 then namedMalformedKey "invalid analytics derived key generation"
  else if bytes_eqb (from 13 key) (str "complete") then
    Ok ((PK.of_kind KeyAnalyticsDerivedMarker) <| PK.ViewGeneration := generation |>)
  else
    match rec (from 13 key) with
    | Err _ => namedMalformedKey "invalid analytics derived key"
    | Ok inner =>
        if negb (PK.ViewGeneration inner =? 0) || negb (isAnalyticsDerivedKind (PK.Kind inner))
        then namedMalformedKey "invalid analytics derived key"
        else Ok (inner <| PK.ViewGeneration := generation |>)
    end.

Definition parse_analytics (rec : bytes -> result ParsedKey) (key : bytes) : result ParsedKey :=
  if (13 <=? length key)%nat && bytes_eqb (take 4 key) (str "av1:") && colon_at 12 key
  then parseAnalyticsDerivedKey rec key
  else
    match parseAnalyticsCoreKey key with
    | Some r => r
    | None =>
        match parseAnalyticsQueryKey key with
        | Some r => r
        | None =>
            match parseAggregate key with
            | Some kind => Ok ((PK.of_kind KeyPackAggregate) <| PK.Aggregate := kind |>)
            | None =>
                match parseTierAggregate key with
                | Some tier => Ok ((PK.of_kind KeyTierAggregate) <| PK.Tier := tier |>)
                | None => malformedKey
                end
            end
        end
    end.

(** ** The other codecs *)

Definition parse_blob (key : bytes) : result ParsedKey :=
  if is_key 34 "b:" key then Ok ((PK.of_kind KeyBlob) <| PK.Id := id_at 2 key |>)
  else if is_key 44 "bp:" key && colon_at 11 key then
    Ok ((PK.of_kind KeyBackendPack)
      <| PK.Backend := uint_at 3 11 key |> <| PK.Id := id_at 12 key |>)
  else malformedKey.

Definition parse_content (key : bytes) : result ParsedKey :=
  if is_key 39 "cm:" key then
    Ok ((PK.of_kind KeyContentManifest)
      <| PK.Segment := uint_at 35 39 key |> <| PK.Id := id_at 3 key |>)
  else malformedKey.

Definition parse_directory (key : bytes) : result ParsedKey :=
  if is_key 14 "d:" key then
    Ok ((PK.of_kind KeyCurrentDirectory)
      <| PK.FSID := uint_at 2 6 key |> <| PK.Inode := uint_at 6 14 key |>)
  else if is_key 23 "dv:" key then
    Ok ((PK.of_kind KeyDirectoryRevision)
      <| PK.FSID := uint_at 3 7 key |> <| PK.Inode := uint_at 7 15 key |>
      <| PK.Revision := uint_at 15 23 key |>)
  else if is_key 47 "dc:" key then
    Ok ((PK.of_kind KeyDeletionCertificate)
      <| PK.UID := uint_at 3 7 key |> <| PK.EventTime := uint_at 7 15 key |>
      <| PK.Id := id_at 15 key |>)
  else if is_key 53 "dq:" key && colon_at 11 key && colon_at 44 key then
    Ok ((PK.of_kind KeyPlacementDeleteQueue)
      <| PK.DeleteAfter := wrap_i 64 (uint_at 3 11 key) |> <| PK.Id := id_at 12 key |>
      <| PK.Backend := uint_at 45 53 key |>)
  else malformedKey.

Definition parseGrowthTimeKey (key : bytes) : result ParsedKey :=
  let granularity := enum_at 7 key in
  let tier := enum_at 16 key in
  if negb (validAnalyticsGranularity granularity) || negb (validPackTier tier)
  then namedMalformedKey "invalid growth time key"
  else Ok ((PK.of_kind KeyGrowthTime)
    <| PK.Granularity := granularity |> <| PK.Tier := tier |>
    <| PK.Timestamp := unflip_sign (uint_at 8 16 key) |>).

Definition parseGrowthPathKey (key : bytes) : result ParsedKey :=
  let pathLength := uint_at 7 9 key in
  if (pathLength =? 0) || (MaxPathIndexPathBytes <? pathLength)
     || negb (zlen key =? 7 + 2 + pathLength + 1 + 8)
  then namedMalformedKey "invalid growth path key"
  else
    let n := Z.to_nat pathLength in
    let path := sub 9 (9 + n) key in
    let granularity := enum_at (9 + n) key in
    if negb (bytes_eqb path (normalizeAnalyticsPath path))
       || negb (validAnalyticsGranularity granularity)
    then namedMalformedKey "invalid growth path key"
    else Ok ((PK.of_kind KeyGrowthPath)
      <| PK.Path := path |> <| PK.Granularity := granularity |>
      <| PK.Timestamp := unflip_sign (uint_at (10 + n) (18 + n) key) |>).

Definition parse_growth (key : bytes) : result ParsedKey :=
  if is_key 37 "gc:b:" key || is_key 37 "gc:p:" key then
    Ok ((PK.of_kind KeyGarbageCollection)
      <| PK.GCTarget := if Byte.eqb (byte_at 3 key) x70 then GCPack else GCBlob |>
      <| PK.Id := id_at 5 key |>)
  else if is_key 17 "g:time:" key then parseGrowthTimeKey key
  else if (18 <=? length key)%nat && bytes_eqb (take 7 key) (str "g:path:")
  then parseGrowthPathKey key
  else if is_key 14 "g:summary:" key then
    Ok ((PK.of_kind KeyGroupSummary) <| PK.GID := uint_at 10 14 key |>)
  else if is_key 15 "g:statsv1:" key then
    let residency := enum_at 14 key in
    if residency_out_of_range residency
    then namedMalformedKey "invalid analytics group stats key"
    else Ok ((PK.of_kind KeyGroupStats)
      <| PK.GID := uint_at 10 14 key |> <| PK.Residency := residency |>)
  else malformedKey.

Definition parse_hardlink (key : bytes) : result ParsedKey :=
  if is_key 23 "hr:" key then
    Ok ((PK.of_kind KeyHardlinkRefs)
      <| PK.FSID := uint_at 3 7 key |> <| PK.Inode := uint_at 7 15 key |>
      <| PK.Revision := uint_at 15 23 key |>)
  else malformedKey.

Definition parse_inode (key : bytes) : result ParsedKey :=
  if is_key 14 "i:" key then
    Ok ((PK.of_kind KeyCurrentInode)
      <| PK.FSID := uint_at 2 6 key |> <| PK.Inode := uint_at 6 14 key |>)
  else if is_key 23 "iv:" key then
    Ok ((PK.of_kind KeyInodeRevision)
      <| PK.FSID := uint_at 3 7 key |> <| PK.Inode := uint_at 7 15 key |>
      <| PK.Revision := uint_at 15 23 key |>)
  else malformedKey.

Definition parse_metadata (key : bytes) : result ParsedKey :=
  if is_key 50 "meta:import-index:" key then
    Ok ((PK.of_kind KeyImportCheckpoint) <| PK.Id := id_at 18 key |>)
  else if is_key 53 "meta:import-snapshot:" key then
    Ok ((PK.of_kind KeySnapshotImportCheckpoint) <| PK.Id := id_at 21 key |>)
  else if is_key 60 "meta:import-receipt:" key then
    Ok ((PK.of_kind KeyLegacyImportReceipt)
      <| PK.Id := id_at 20 key |> <| PK.Revision := uint_at 52 60 key |>)
  else if is_key 53 "meta:export-snapshot:" key then
    Ok ((PK.of_kind KeyExportCheckpoint) <| PK.Id := id_at 21 key |>)
  else if is_key 50 "meta:export-index:" key then
    Ok ((PK.of_kind KeyExportIndexCheckpoint) <| PK.Id := id_at 18 key |>)
  else if bytes_eqb key (str "meta:next-revision-seq") then Ok (PK.of_kind KeyNextRevision)
  else if bytes_eqb key (str "meta:next-export-seq") then Ok (PK.of_kind KeyNextExportSequence)
  else if bytes_eqb key (str "meta:next-event-seq") then Ok (PK.of_kind KeyNextEventSequence)
  else if bytes_eqb key (str "meta:history-raw-floor") then Ok (PK.of_kind KeyHistoryRawFloor)
  else if bytes_eqb key (str "meta:history-enabled-at") then Ok (PK.of_kind KeyHistoryEnabledAt)
  else if bytes_eqb key (str "meta:analytics") then Ok (PK.of_kind KeyAnalyticsMetadata)
  else if bytes_eqb key (str "meta:analytics-build") then
    Ok (PK.of_kind KeyAnalyticsBuildCheckpoint)
  else malformedKey.

Definition parsePackHistoryBucketKey (key : bytes) : result ParsedKey :=
  let granularity := enum_at 3 key in
  let packType := enum_at 20 key in
  if negb (validHistoryGranularity granularity) || negb (validPackType packType)
  then namedMalformedKey "invalid history bucket key"
  else Ok ((PK.of_kind KeyPackHistoryBucket)
    <| PK.Granularity := granularity |> <| PK.EventTime := uint_at 4 12 key |>
    <| PK.Backend := uint_at 12 20 key |> <| PK.PackType := packType |>).

(** The first offset, counted from [offset], of a zero byte; [-1] if none. *)
Fixpoint index_nul (offset : Z) (l : bytes) : Z :=
  match l with
  | [] => -1
  | b :: l' => if Byte.eqb b x00 then offset else index_nul (offset + 1) l'
  end.

Definition parsePathVersionKey (key : bytes) : result ParsedKey :=
  let terminator := index_nul 7 (sub 7 (length key - 8) key) in
  if (terminator <=? 7) || negb (terminator =? zlen key - 9)
  then namedMalformedKey "invalid path-version key"
  else
    let t := Z.to_nat terminator in
    let path := sub 7 t key in
    let revision := uint_at (t + 1) (t + 9) key in
    if (revision =? 0) || (MaxPathIndexPathBytes <? zlen path)
    then namedMalformedKey "invalid path-version key"
    else Ok ((PK.of_kind KeyPathVersion)
      <| PK.FSID := uint_at 3 7 key |> <| PK.Path := path |> <| PK.Revision := revision |>).

Definition parse_pack (key : bytes) : result ParsedKey :=
  if is_key 34 "p:" key then Ok ((PK.of_kind KeyPack) <| PK.Id := id_at 2 key |>)
  else if is_key 51 "ph:" key then
    Ok ((PK.of_kind KeyPackHistory)
      <| PK.EventTime := uint_at 3 11 key |> <| PK.Revision := uint_at 11 19 key |>
      <| PK.Id := id_at 19 key |>)
  else if is_key 21 "pb:" key then parsePackHistoryBucketKey key
  else if is_key 44 "pl:" key && colon_at 35 key then
    Ok ((PK.of_kind KeyPackPlacement)
      <| PK.Backend := uint_at 36 44 key |> <| PK.Id := id_at 3 key |>)
  else if (15 <? length key)%nat && bytes_eqb (take 3 key) (str "pv:")
  then parsePathVersionKey key
  else if is_key 35 "pe:" key then
    Ok ((PK.of_kind KeyPromotionEligibility) <| PK.Id := id_at 3 key |>)
  else malformedKey.

Definition parse_crawl (key : bytes) : result ParsedKey :=
  if is_key 66 "q:" key then
    Ok ((PK.of_kind KeyCrawlDebt)
      <| PK.Id := id_at 2 key |> <| PK.SecondID := id_at 34 key |>)
  else malformedKey.

Definition parse_reverse (key : bytes) : result ParsedKey :=
  if is_key 35 "rc:" key then Ok ((PK.of_kind KeyReferenceCount) <| PK.Id := id_at 3 key |>)
  else if is_key 67 "rm:" key then
    Ok ((PK.of_kind KeyReverseManifest)
      <| PK.Id := id_at 3 key |> <| PK.SecondID := id_at 35 key |>)
  else if is_key 47 "ri:" key then
    Ok ((PK.of_kind KeyReverseInode)
      <| PK.FSID := uint_at 35 39 key |> <| PK.Inode := uint_at 39 47 key |>
      <| PK.Id := id_at 3 key |>)
  else if is_key 44 "rq:" key && colon_at 11 key then
    Ok ((PK.of_kind KeyPlacementRequest)
      <| PK.EventTime := uint_at 3 11 key |> <| PK.Id := id_at 12 key |>)
  else if is_key 68 "rl:" key && colon_at 35 key then
    Ok ((PK.of_kind KeyRepackLineage)
      <| PK.Id := id_at 3 key |> <| PK.SecondID := id_at 36 key |>)
  else malformedKey.

Definition parse_snapshot (key : bytes) : result ParsedKey :=
  if is_key 34 "s:" key then Ok ((PK.of_kind KeySnapshot) <| PK.Id := id_at 2 key |>)
  else if is_key 44 "sc:" key && colon_at 11 key then
    Ok ((PK.of_kind KeySnapshotCommit)
      <| PK.Revision := uint_at 3 11 key |> <| PK.Id := id_at 12 key |>)
  else malformedKey.

Definition parseUserBlobContributionKey (key : bytes) : result ParsedKey :=
  let generation := uint_at 57 65 key in
  if generation =? 0 then namedMalformedKey "invalid analytics user blob contribution key"
  else Ok ((PK.of_kind KeyUserBlobContribution)
    <| PK.UID := uint_at 9 13 key |> <| PK.Id := id_at 13 key |>
    <| PK.FSID := uint_at 45 49 key |> <| PK.Inode := uint_at 49 57 key |>
    <| PK.Generation := generation |> <| PK.Ordinal := uint_at 65 69 key |>).

Definition parse_user (key : bytes) : result ParsedKey :=
  if is_key 23 "u:policy:blocklist:" key then
    Ok ((PK.of_kind KeyUIDExclusionPolicy) <| PK.UID := uint_at 19 23 key |>)
  else if is_key 14 "u:summary:" key then
    Ok ((PK.of_kind KeyUserSummary) <| PK.UID := uint_at 10 14 key |>)
  else if is_key 15 "u:statsv1:" key then
    let residency := enum_at 14 key in
    if residency_out_of_range residency
    then namedMalformedKey "invalid analytics user stats key"
    else Ok ((PK.of_kind KeyUserStats)
      <| PK.UID := uint_at 10 14 key |> <| PK.Residency := residency |>)
  else if is_key 21 "u:churn:" key then
    let granularity := enum_at 12 key in
    if negb (validAnalyticsGranularity granularity)
    then namedMalformedKey "invalid user churn key"
    else Ok ((PK.of_kind KeyUserChurn)
      <| PK.UID := uint_at 8 12 key |> <| PK.Granularity := granularity |>
      <| PK.Timestamp := unflip_sign (uint_at 13 21 key) |>)
  else if is_key 25 "u:inodes:" key then
    Ok ((PK.of_kind KeyUserInode)
      <| PK.UID := uint_at 9 13 key |> <| PK.FSID := uint_at 13 17 key |>
      <| PK.Inode := uint_at 17 25 key |>)
  else if is_key 44 "u:blobs:" key then
    Ok ((PK.of_kind KeyUserBlob)
      <| PK.UID := uint_at 8 12 key |> <| PK.Id := id_at 12 key |>)
  else if is_key 69 "u:blobv1:" key then parseUserBlobContributionKey key
  else malformedKey.

Definition parse_verification (key : bytes) : result ParsedKey :=
  if is_key 43 "vr:" key then
    Ok ((PK.of_kind KeyVerificationState)
      <| PK.Id := id_at 3 key |> <| PK.Backend := uint_at 35 43 key |>)
  else if is_key 59 "ve:" key then
    Ok ((PK.of_kind KeyVerificationEvent)
      <| PK.EventTime := uint_at 3 11 key |> <| PK.Revision := uint_at 11 19 key |>
      <| PK.Id := id_at 19 key |> <| PK.Backend := uint_at 51 59 key |>)
  else malformedKey.

(** ** Dispatch *)

Inductive keyCodec : Set :=
| analyticsKeyCodec | blobKeyCodec | contentKeyCodec | directoryKeyCodec | growthKeyCodec
| hardlinkKeyCodec | inodeKeyCodec | metadataKeyCodec | packKeyCodec | crawlKeyCodec
| reverseKeyCodec | snapshotKeyCodec | userKeyCodec | verificationKeyCodec.

Definition keyCodecs (b : byte) : option keyCodec :=
  match b with
  | x61 => Some analyticsKeyCodec
  | x62 => Some blobKeyCodec
  | x63 => Some contentKeyCodec
  | x64 => Some directoryKeyCodec
  | x67 => Some growthKeyCodec
  | x68 => Some hardlinkKeyCodec
  | x69 => Some inodeKeyCodec
  | x6d => Some metadataKeyCodec
  | x70 => Some packKeyCodec
  | x71 => Some crawlKeyCodec
  | x72 => Some reverseKeyCodec
  | x73 => Some snapshotKeyCodec
  | x75 => Some userKeyCodec
  | x76 => Some verificationKeyCodec
  | _ => None
  end.

Definition codecForKey (key : bytes) : result keyCodec :=
  match key with
  | [] => Err "unknown or incorrectly sized key"
  | b :: _ =>
      match keyCodecs b with
      | Some codec => Ok codec
      | None => Err "unknown or incorrectly sized key"
      end
  end.

Definition codec_parse (rec : bytes -> result ParsedKey) (codec : keyCodec) (key : bytes)
  : result ParsedKey :=
  match codec with
  | analyticsKeyCodec => parse_analytics rec key
  | blobKeyCodec => parse_blob key
  | contentKeyCodec => parse_content key
  | directoryKeyCodec => parse_directory key
  | growthKeyCodec => parse_growth key
  | hardlinkKeyCodec => parse_hardlink key
  | inodeKeyCodec => parse_inode key
  | metadataKeyCodec => parse_metadata key
  | packKeyCodec => parse_pack key
  | crawlKeyCodec => parse_crawl key
  | reverseKeyCodec => parse_reverse key
  | snapshotKeyCodec => parse_snapshot key
  | userKeyCodec => parse_user key
  | verificationKeyCodec => parse_verification key
  end.

Fixpoint parse_fuel (fuel : nat) (key : bytes) : result ParsedKey :=
  match fuel with
  | O => malformedKey
  | S n => let! codec := codecForKey key in codec_parse (parse_fuel n) codec key
  end.

Definition ParseKey (key : bytes) : result ParsedKey := parse_fuel (S (length key)) key.

(** The fuel never runs out: [ParseKey] satisfies the equation of the code. *)
Lemma parse_fuel_enough n m key :
  (length key < n)%nat -> (length key < m)%nat -> parse_fuel n key = parse_fuel m key.
Proof.
  revert m key; induction n as [|n IH]; intros m key Hn Hm; [lia|].
  destruct m as [|m]; [lia|]. cbn [parse_fuel].
  destruct (codecForKey key) as [c|]; [|done]. cbn [rbind].
  destruct c; try done. unfold codec_parse, parse_analytics.
  destruct (Nat.leb_spec 13 (length key)) as [Hl|_]; [|done]. cbn [andb].
  unfold parseAnalyticsDerivedKey.
  rewrite (IH m (from 13 key)) by (unfold from; rewrite length_drop; lia). done.
Qed.

Lemma ParseKey_unfold key :
  ParseKey key = (let! codec := codecForKey key in codec_parse ParseKey codec key).
Proof.
  unfold ParseKey at 1. cbn [parse_fuel]. destruct (codecForKey key) as [c|]; [|done].
  cbn [rbind]. destruct c; try done. unfold codec_parse, parse_analytics.
  destruct (Nat.leb_spec 13 (length key)) as [Hl|_]; [|done]. cbn [andb].
  unfold parseAnalyticsDerivedKey. unfold ParseKey.
  rewrite (parse_fuel_enough (length key) (S (length (from 13 key))));
    [done | unfold from; rewrite length_drop; lia | lia].
Qed.

Definition isAnalyticsDerivedKey (key : bytes) : bool :=
  match ParseKey key with
  | Ok parsed => (PK.ViewGeneration parsed =? 0) && isAnalyticsDerivedKind (PK.Kind parsed)
  | Err _ => false
  end.

Definition AnalyticsDerivedKey (generation : Z) (key : bytes) : bytes :=
  if (generation =? 0) || negb (isAnalyticsDerivedKey key) then []
  else str "av1:" ++ be 8 generation ++ str ":" ++ key.
