(* ===== verification/KeySpec.v ===== *)
(** * The logical key space

    [BaseKey] is the specification of the key space: one constructor per kind of
    key with its logical components, free of any byte layout. [base_key] gives
    the Go constructor of each, [base_view] the parsed form [ParseKey] must
    return, and [base_wf] the components for which the key exists. [SchemaKey]
    adds the keys of a derived analytics generation, which wrap a base key. The
    file [KeyTheory] proves that the byte-level code implements this
    specification. *)
From stdpp Require Import base list numbers strings.
From Stdlib Require Import ZArith Lia.
From coqutil Require Import Datatypes.RecordSetters.
From S2P Require Import Prelude Codec Keys KeyParse.
Import TriangleBracketNotations.

Module Spec.

Inductive BaseKey : Type :=
| Blob (id : ID)
| Pack (id : ID)
| PackAggregate (kind : Z)
| CurrentInode (fsid inode : Z)
| InodeRevision (fsid inode revision : Z)
| CurrentDirectory (fsid inode : Z)
| DirectoryRevision (fsid inode revision : Z)
| Snapshot (id : ID)
| ContentManifest (id : ID) (segment : Z)
| ReverseManifest (blob manifest : ID)
| ReverseInode (blob : ID) (fsid inode : Z)
| ReferenceCount (id : ID)
| GarbageCollection (target : Z) (id : ID)
| CrawlDebt (snapshot work : ID)
| ImportCheckpoint (index : ID)
| SnapshotImportCheckpoint (snapshot : ID)
| NextRevision
| HardlinkRefs (fsid inode revision : Z)
| ExportCheckpoint (snapshot : ID)
| ExportIndexCheckpoint (index : ID)
| NextExportSequence
| TierAggregate (tier : Z)
| PackHistory (unixSeconds sequence : Z) (pack : ID)
| PackHistoryBucket (granularity bucketStart backend packType : Z)
| NextEventSequence
| HistoryRawFloor
| HistoryEnabledAt
| PackPlacement (pack : ID) (backend : Z)
| BackendPack (backend : Z) (pack : ID)
| PlacementDeleteQueue (deleteAfter : Z) (pack : ID) (backend : Z)
| SnapshotCommit (commitSequence : Z) (snapshot : ID)
| PathVersion (fsid : Z) (path : bytes) (revision : Z)
| PlacementRequest (deadline : Z) (pack : ID)
| RepackLineage (source successor : ID)
| PromotionEligibility (pack : ID)
| AnalyticsFact (fsid inode : Z)
| AnalyticsCache (hash : ID)
| AnalyticsMetadata
| AnalyticsBuildCheckpoint
| AnalyticsDictionary (kind id : Z)
| AnalyticsFactSegment (segment : Z)
| AnalyticsSegmentMetadata (segment : Z)
| AnalyticsDimensionIndex (dimension value segment : Z)
| AnalyticsResidency (fsid inode generation : Z)
| AnalyticsDelta (commit ordinal : Z)
| AnalyticsWatermark (epoch : Z)
| AnalyticsManifest (epoch : Z)
| AnalyticsQueryResult (hash : ID) (generation epoch commit : Z)
| AnalyticsQueryHeat (hash : ID)
| AnalyticsQueryView (view : ID) (bucket : Z)
| AnalyticsQueryJob (query : ID)
| GrowthTime (granularity timestamp tier : Z)
| GrowthPath (path : bytes) (granularity timestamp : Z)
| UserSummary (uid : Z)
| GroupSummary (gid : Z)
| UserChurn (uid granularity timestamp : Z)
| UserInode (uid fsid inode : Z)
| UserBlob (uid : Z) (blob : ID)
| AuthoritativeCrawlProof (scope : ID) (endCommit : Z)
| AuthoritativeSourceBinding (scope : ID) (fsid inode generation : Z)
| UserBlobContribution (uid : Z) (blob : ID) (fsid inode generation ordinal : Z)
| UserStats (uid residency : Z)
| GroupStats (gid residency : Z)
| UIDExclusionPolicy (uid : Z)
| DeletionCertificate (uid unixSeconds : Z) (runID : ID)
| VerificationState (pack : ID) (backend : Z)
| VerificationEvent (unixSeconds sequence : Z) (pack : ID) (backend : Z)
| LegacyImportReceipt (session : ID) (batch : Z).

(** The bytes of a key: the Go constructor applied to its components. *)
Definition base_key (k : BaseKey) : bytes :=
  match k with
  | Blob id => BlobKey id
  | Pack id => PackKey id
  | PackAggregate kind => PackAggregateKey kind
  | CurrentInode fsid inode => CurrentInodeKey fsid inode
  | InodeRevision fsid inode revision => InodeRevisionKey fsid inode revision
  | CurrentDirectory fsid inode => CurrentDirectoryKey fsid inode
  | DirectoryRevision fsid inode revision => DirectoryRevisionKey fsid inode revision
  | Snapshot id => SnapshotKey id
  | ContentManifest id segment => ContentManifestKey id segment
  | ReverseManifest blob manifest => ReverseManifestKey blob manifest
  | ReverseInode blob fsid inode => ReverseInodeKey blob fsid inode
  | ReferenceCount id => ReferenceCountKey id
  | GarbageCollection target id => GarbageCollectionKey target id
  | CrawlDebt snapshot work => CrawlDebtKey snapshot work
  | ImportCheckpoint index => ImportCheckpointKey index
  | SnapshotImportCheckpoint snapshot => SnapshotImportCheckpointKey snapshot
  | NextRevision => NextRevisionKey
  | HardlinkRefs fsid inode revision => HardlinkRefsKey fsid inode revision
  | ExportCheckpoint snapshot => ExportCheckpointKey snapshot
  | ExportIndexCheckpoint index => ExportIndexCheckpointKey index
  | NextExportSequence => NextExportSequenceKey
  | TierAggregate tier => TierAggregateKey tier
  | PackHistory unixSeconds sequence pack => PackHistoryKey unixSeconds sequence pack
  | PackHistoryBucket granularity bucketStart backend packType => PackHistoryBucketKey
      granularity bucketStart backend packType
  | NextEventSequence => NextEventSequenceKey
  | HistoryRawFloor => HistoryRawFloorKey
  | HistoryEnabledAt => HistoryEnabledAtKey
  | PackPlacement pack backend => PackPlacementKey pack backend
  | BackendPack backend pack => BackendPackKey backend pack
  | PlacementDeleteQueue deleteAfter pack backend => PlacementDeleteQueueKey deleteAfter pack
      backend
  | SnapshotCommit commitSequence snapshot => SnapshotCommitKey commitSequence snapshot
  | PathVersion fsid path revision => PathVersionKey fsid (x2f :: path) revision
  | PlacementRequest deadline pack => PlacementRequestKey deadline pack
  | RepackLineage source successor => RepackLineageKey source successor
  | PromotionEligibility pack => PromotionEligibilityKey pack
  | AnalyticsFact fsid inode => AnalyticsFactKey fsid inode
  | AnalyticsCache hash => AnalyticsCacheKey hash
  | AnalyticsMetadata => AnalyticsMetadataKey
  | AnalyticsBuildCheckpoint => AnalyticsBuildCheckpointKey
  | AnalyticsDictionary kind id => AnalyticsDictionaryKey kind id
  | AnalyticsFactSegment segment => AnalyticsFactSegmentKey segment
  | AnalyticsSegmentMetadata segment => AnalyticsSegmentMetadataKey segment
  | AnalyticsDimensionIndex dimension value segment => AnalyticsDimensionIndexKey dimension
      value segment
  | AnalyticsResidency fsid inode generation => AnalyticsResidencyKey fsid inode generation
  | AnalyticsDelta commit ordinal => AnalyticsDeltaKey commit ordinal
  | AnalyticsWatermark epoch => AnalyticsWatermarkKey epoch
  | AnalyticsManifest epoch => AnalyticsManifestKey epoch
  | AnalyticsQueryResult hash generation epoch commit => AnalyticsQueryResultKey hash generation
      epoch commit
  | AnalyticsQueryHeat hash => AnalyticsQueryHeatKey hash
  | AnalyticsQueryView view bucket => AnalyticsQueryViewKey view bucket
  | AnalyticsQueryJob query => AnalyticsQueryJobKey query
  | GrowthTime granularity timestamp tier => GrowthTimeKey granularity timestamp tier
  | GrowthPath path granularity timestamp => GrowthPathKey path granularity timestamp
  | UserSummary uid => UserSummaryKey uid
  | GroupSummary gid => GroupSummaryKey gid
  | UserChurn uid granularity timestamp => UserChurnKey uid granularity timestamp
  | UserInode uid fsid inode => UserInodeKey uid fsid inode
  | UserBlob uid blob => UserBlobKey uid blob
  | AuthoritativeCrawlProof scope endCommit => AuthoritativeCrawlProofKey scope endCommit
  | AuthoritativeSourceBinding scope fsid inode generation => AuthoritativeSourceBindingKey
      scope fsid inode generation
  | UserBlobContribution uid blob fsid inode generation ordinal => UserBlobContributionKey uid
      blob fsid inode generation ordinal
  | UserStats uid residency => UserStatsKey uid residency
  | GroupStats gid residency => GroupStatsKey gid residency
  | UIDExclusionPolicy uid => UIDExclusionPolicyKey uid
  | DeletionCertificate uid unixSeconds runID => DeletionCertificateKey uid unixSeconds runID
  | VerificationState pack backend => VerificationStateKey pack backend
  | VerificationEvent unixSeconds sequence pack backend => VerificationEventKey unixSeconds
      sequence pack backend
  | LegacyImportReceipt session batch => LegacyImportReceiptKey session batch
  end.

Definition base_view (k : BaseKey) : ParsedKey :=
  match k with
  | Blob id => (PK.of_kind KeyBlob) <| PK.Id := id |>
  | Pack id => (PK.of_kind KeyPack) <| PK.Id := id |>
  | PackAggregate kind => (PK.of_kind KeyPackAggregate) <| PK.Aggregate := kind |>
  | CurrentInode fsid inode => (PK.of_kind KeyCurrentInode) <| PK.FSID := fsid |> <| PK.Inode :=
      inode |>
  | InodeRevision fsid inode revision => (PK.of_kind KeyInodeRevision) <| PK.FSID := fsid |> <|
      PK.Inode := inode |> <| PK.Revision := revision |>
  | CurrentDirectory fsid inode => (PK.of_kind KeyCurrentDirectory) <| PK.FSID := fsid |> <|
      PK.Inode := inode |>
  | DirectoryRevision fsid inode revision => (PK.of_kind KeyDirectoryRevision) <| PK.FSID :=
      fsid |> <| PK.Inode := inode |> <| PK.Revision := revision |>
  | Snapshot id => (PK.of_kind KeySnapshot) <| PK.Id := id |>
  | ContentManifest id segment => (PK.of_kind KeyContentManifest) <| PK.Segment := segment |> <|
      PK.Id := id |>
  | ReverseManifest blob manifest => (PK.of_kind KeyReverseManifest) <| PK.Id := blob |> <|
      PK.SecondID := manifest |>
  | ReverseInode blob fsid inode => (PK.of_kind KeyReverseInode) <| PK.FSID := fsid |> <|
      PK.Inode := inode |> <| PK.Id := blob |>
  | ReferenceCount id => (PK.of_kind KeyReferenceCount) <| PK.Id := id |>
  | GarbageCollection target id => (PK.of_kind KeyGarbageCollection) <| PK.GCTarget := target |>
      <| PK.Id := id |>
  | CrawlDebt snapshot work => (PK.of_kind KeyCrawlDebt) <| PK.Id := snapshot |> <| PK.SecondID
      := work |>
  | ImportCheckpoint index => (PK.of_kind KeyImportCheckpoint) <| PK.Id := index |>
  | SnapshotImportCheckpoint snapshot => (PK.of_kind KeySnapshotImportCheckpoint) <| PK.Id :=
      snapshot |>
  | NextRevision => PK.of_kind KeyNextRevision
  | HardlinkRefs fsid inode revision => (PK.of_kind KeyHardlinkRefs) <| PK.FSID := fsid |> <|
      PK.Inode := inode |> <| PK.Revision := revision |>
  | ExportCheckpoint snapshot => (PK.of_kind KeyExportCheckpoint) <| PK.Id := snapshot |>
  | ExportIndexCheckpoint index => (PK.of_kind KeyExportIndexCheckpoint) <| PK.Id := index |>
  | NextExportSequence => PK.of_kind KeyNextExportSequence
  | TierAggregate tier => (PK.of_kind KeyTierAggregate) <| PK.Tier := tier |>
  | PackHistory unixSeconds sequence pack => (PK.of_kind KeyPackHistory) <| PK.EventTime :=
      unixSeconds |> <| PK.Revision := sequence |> <| PK.Id := pack |>
  | PackHistoryBucket granularity bucketStart backend packType => (PK.of_kind
      KeyPackHistoryBucket) <| PK.Granularity := granularity |> <| PK.EventTime := bucketStart
      |> <| PK.Backend := backend |> <| PK.PackType := packType |>
  | NextEventSequence => PK.of_kind KeyNextEventSequence
  | HistoryRawFloor => PK.of_kind KeyHistoryRawFloor
  | HistoryEnabledAt => PK.of_kind KeyHistoryEnabledAt
  | PackPlacement pack backend => (PK.of_kind KeyPackPlacement) <| PK.Backend := backend |> <|
      PK.Id := pack |>
  | BackendPack backend pack => (PK.of_kind KeyBackendPack) <| PK.Backend := backend |> <| PK.Id
      := pack |>
  | PlacementDeleteQueue deleteAfter pack backend => (PK.of_kind KeyPlacementDeleteQueue) <|
      PK.DeleteAfter := deleteAfter |> <| PK.Id := pack |> <| PK.Backend := backend |>
  | SnapshotCommit commitSequence snapshot => (PK.of_kind KeySnapshotCommit) <| PK.Revision :=
      commitSequence |> <| PK.Id := snapshot |>
  | PathVersion fsid path revision => (PK.of_kind KeyPathVersion) <| PK.FSID := fsid |> <|
      PK.Path := path |> <| PK.Revision := revision |>
  | PlacementRequest deadline pack => (PK.of_kind KeyPlacementRequest) <| PK.EventTime :=
      deadline |> <| PK.Id := pack |>
  | RepackLineage source successor => (PK.of_kind KeyRepackLineage) <| PK.Id := source |> <|
      PK.SecondID := successor |>
  | PromotionEligibility pack => (PK.of_kind KeyPromotionEligibility) <| PK.Id := pack |>
  | AnalyticsFact fsid inode => (PK.of_kind KeyAnalyticsFact) <| PK.FSID := fsid |> <| PK.Inode
      := inode |>
  | AnalyticsCache hash => (PK.of_kind KeyAnalyticsCache) <| PK.Id := hash |>
  | AnalyticsMetadata => PK.of_kind KeyAnalyticsMetadata
  | AnalyticsBuildCheckpoint => PK.of_kind KeyAnalyticsBuildCheckpoint
  | AnalyticsDictionary kind id => (PK.of_kind KeyAnalyticsDictionary) <| PK.Dictionary := kind
      |> <| PK.Ordinal := id |>
  | AnalyticsFactSegment segment => (PK.of_kind KeyAnalyticsFactSegment) <| PK.Generation :=
      segment |>
  | AnalyticsSegmentMetadata segment => (PK.of_kind KeyAnalyticsSegmentMetadata) <|
      PK.Generation := segment |>
  | AnalyticsDimensionIndex dimension value segment => (PK.of_kind KeyAnalyticsDimensionIndex)
      <| PK.Dimension := dimension |> <| PK.Value := value |> <| PK.Generation := segment |>
  | AnalyticsResidency fsid inode generation => (PK.of_kind KeyAnalyticsResidency) <| PK.FSID :=
      fsid |> <| PK.Inode := inode |> <| PK.Generation := generation |>
  | AnalyticsDelta commit ordinal => (PK.of_kind KeyAnalyticsDelta) <| PK.Commit := commit |> <|
      PK.Ordinal := ordinal |>
  | AnalyticsWatermark epoch => (PK.of_kind KeyAnalyticsWatermark) <| PK.Epoch := epoch |>
  | AnalyticsManifest epoch => (PK.of_kind KeyAnalyticsManifest) <| PK.Epoch := epoch |>
  | AnalyticsQueryResult hash generation epoch commit => (PK.of_kind KeyAnalyticsQueryResult) <|
      PK.Id := hash |> <| PK.Generation := generation |> <| PK.Epoch := epoch |> <| PK.Commit :=
      commit |>
  | AnalyticsQueryHeat hash => (PK.of_kind KeyAnalyticsQueryHeat) <| PK.Id := hash |>
  | AnalyticsQueryView view bucket => (PK.of_kind KeyAnalyticsQueryView) <| PK.Id := view |> <|
      PK.Value := bucket |>
  | AnalyticsQueryJob query => (PK.of_kind KeyAnalyticsQueryJob) <| PK.Id := query |>
  | GrowthTime granularity timestamp tier => (PK.of_kind KeyGrowthTime) <| PK.Granularity :=
      granularity |> <| PK.Tier := tier |> <| PK.Timestamp := timestamp |>
  | GrowthPath path granularity timestamp => (PK.of_kind KeyGrowthPath) <| PK.Path := path |> <|
      PK.Granularity := granularity |> <| PK.Timestamp := timestamp |>
  | UserSummary uid => (PK.of_kind KeyUserSummary) <| PK.UID := uid |>
  | GroupSummary gid => (PK.of_kind KeyGroupSummary) <| PK.GID := gid |>
  | UserChurn uid granularity timestamp => (PK.of_kind KeyUserChurn) <| PK.UID := uid |> <|
      PK.Granularity := granularity |> <| PK.Timestamp := timestamp |>
  | UserInode uid fsid inode => (PK.of_kind KeyUserInode) <| PK.UID := uid |> <| PK.FSID := fsid
      |> <| PK.Inode := inode |>
  | UserBlob uid blob => (PK.of_kind KeyUserBlob) <| PK.UID := uid |> <| PK.Id := blob |>
  | AuthoritativeCrawlProof scope endCommit => (PK.of_kind KeyAuthoritativeCrawlProof) <| PK.Id
      := scope |> <| PK.Commit := endCommit |>
  | AuthoritativeSourceBinding scope fsid inode generation => (PK.of_kind
      KeyAuthoritativeSourceBinding) <| PK.Id := scope |> <| PK.FSID := fsid |> <| PK.Inode :=
      inode |> <| PK.Generation := generation |>
  | UserBlobContribution uid blob fsid inode generation ordinal => (PK.of_kind
      KeyUserBlobContribution) <| PK.UID := uid |> <| PK.Id := blob |> <| PK.FSID := fsid |> <|
      PK.Inode := inode |> <| PK.Generation := generation |> <| PK.Ordinal := ordinal |>
  | UserStats uid residency => (PK.of_kind KeyUserStats) <| PK.UID := uid |> <| PK.Residency :=
      residency |>
  | GroupStats gid residency => (PK.of_kind KeyGroupStats) <| PK.GID := gid |> <| PK.Residency
      := residency |>
  | UIDExclusionPolicy uid => (PK.of_kind KeyUIDExclusionPolicy) <| PK.UID := uid |>
  | DeletionCertificate uid unixSeconds runID => (PK.of_kind KeyDeletionCertificate) <| PK.UID
      := uid |> <| PK.EventTime := unixSeconds |> <| PK.Id := runID |>
  | VerificationState pack backend => (PK.of_kind KeyVerificationState) <| PK.Id := pack |> <|
      PK.Backend := backend |>
  | VerificationEvent unixSeconds sequence pack backend => (PK.of_kind KeyVerificationEvent) <|
      PK.EventTime := unixSeconds |> <| PK.Revision := sequence |> <| PK.Id := pack |> <|
      PK.Backend := backend |>
  | LegacyImportReceipt session batch => (PK.of_kind KeyLegacyImportReceipt) <| PK.Id := session
      |> <| PK.Revision := batch |>
  end.

Definition base_wf (k : BaseKey) : Prop :=
  match k with
  | Blob id => id_ok id
  | Pack id => id_ok id
  | PackAggregate kind => between AggregateData AggregateAll kind = true
  | CurrentInode fsid inode => uint32 fsid /\ uint64 inode
  | InodeRevision fsid inode revision => uint32 fsid /\ uint64 inode /\ uint64 revision
  | CurrentDirectory fsid inode => uint32 fsid /\ uint64 inode
  | DirectoryRevision fsid inode revision => uint32 fsid /\ uint64 inode /\ uint64 revision
  | Snapshot id => id_ok id
  | ContentManifest id segment => id_ok id /\ uint32 segment
  | ReverseManifest blob manifest => id_ok blob /\ id_ok manifest
  | ReverseInode blob fsid inode => id_ok blob /\ uint32 fsid /\ uint64 inode
  | ReferenceCount id => id_ok id
  | GarbageCollection target id => between GCBlob GCPack target = true /\ id_ok id
  | CrawlDebt snapshot work => id_ok snapshot /\ id_ok work
  | ImportCheckpoint index => id_ok index
  | SnapshotImportCheckpoint snapshot => id_ok snapshot
  | NextRevision => True
  | HardlinkRefs fsid inode revision => uint32 fsid /\ uint64 inode /\ uint64 revision
  | ExportCheckpoint snapshot => id_ok snapshot
  | ExportIndexCheckpoint index => id_ok index
  | NextExportSequence => True
  | TierAggregate tier => validPackTier tier = true
  | PackHistory unixSeconds sequence pack => uint64 unixSeconds /\ uint64 sequence /\ id_ok pack
  | PackHistoryBucket granularity bucketStart backend packType => validHistoryGranularity
      granularity = true /\ uint64 bucketStart /\ uint64 backend /\ validPackType packType =
      true
  | NextEventSequence => True
  | HistoryRawFloor => True
  | HistoryEnabledAt => True
  | PackPlacement pack backend => id_ok pack /\ uint64 backend
  | BackendPack backend pack => uint64 backend /\ id_ok pack
  | PlacementDeleteQueue deleteAfter pack backend => int64 deleteAfter /\ id_ok pack /\ uint64
      backend
  | SnapshotCommit commitSequence snapshot => uint64 commitSequence /\ id_ok snapshot
  | PathVersion fsid path revision => uint32 fsid /\ bad_path path = false /\ uint64 revision /\
      revision <> 0
  | PlacementRequest deadline pack => uint64 deadline /\ id_ok pack
  | RepackLineage source successor => id_ok source /\ id_ok successor
  | PromotionEligibility pack => id_ok pack
  | AnalyticsFact fsid inode => uint32 fsid /\ uint64 inode
  | AnalyticsCache hash => id_ok hash /\ reservedAnalyticsQueryPrefix (AnalyticsCacheKey hash) =
      false
  | AnalyticsMetadata => True
  | AnalyticsBuildCheckpoint => True
  | AnalyticsDictionary kind id => validAnalyticsDictionaryKind kind = true /\ uint32 id /\ id
      <> 0
  | AnalyticsFactSegment segment => uint64 segment /\ segment <> 0
  | AnalyticsSegmentMetadata segment => uint64 segment /\ segment <> 0
  | AnalyticsDimensionIndex dimension value segment => validAnalyticsDimension dimension = true
      /\ uint64 value /\ uint64 segment /\ segment <> 0
  | AnalyticsResidency fsid inode generation => uint32 fsid /\ uint64 inode /\ uint64 generation
      /\ generation <> 0
  | AnalyticsDelta commit ordinal => uint64 commit /\ commit <> 0 /\ uint32 ordinal
  | AnalyticsWatermark epoch => uint64 epoch /\ epoch <> 0
  | AnalyticsManifest epoch => uint64 epoch /\ epoch <> 0
  | AnalyticsQueryResult hash generation epoch commit => id_ok hash /\ uint64 generation /\
      generation <> 0 /\ uint64 epoch /\ epoch <> 0 /\ uint64 commit
  | AnalyticsQueryHeat hash => id_ok hash
  | AnalyticsQueryView view bucket => id_ok view /\ uint64 bucket
  | AnalyticsQueryJob query => id_ok query
  | GrowthTime granularity timestamp tier => validAnalyticsGranularity granularity = true /\
      int64 timestamp /\ validPackTier tier = true
  | GrowthPath path granularity timestamp => normalizeAnalyticsPath path = path /\ path <> [] /\
      zlen path <= MaxPathIndexPathBytes /\ validAnalyticsGranularity granularity = true /\
      int64 timestamp
  | UserSummary uid => uint32 uid
  | GroupSummary gid => uint32 gid
  | UserChurn uid granularity timestamp => uint32 uid /\ validAnalyticsGranularity granularity =
      true /\ int64 timestamp
  | UserInode uid fsid inode => uint32 uid /\ uint32 fsid /\ uint64 inode
  | UserBlob uid blob => uint32 uid /\ id_ok blob
  | AuthoritativeCrawlProof scope endCommit => id_ok scope /\ is_zero_id scope = false /\ uint64
      endCommit /\ endCommit <> 0
  | AuthoritativeSourceBinding scope fsid inode generation => id_ok scope /\ is_zero_id scope =
      false /\ uint32 fsid /\ fsid <> 0 /\ uint64 inode /\ inode <> 0 /\ uint64 generation /\
      generation <> 0
  | UserBlobContribution uid blob fsid inode generation ordinal => uint32 uid /\ id_ok blob /\
      uint32 fsid /\ uint64 inode /\ uint64 generation /\ generation <> 0 /\ uint32 ordinal
  | UserStats uid residency => uint32 uid /\ residency_out_of_range residency = false
  | GroupStats gid residency => uint32 gid /\ residency_out_of_range residency = false
  | UIDExclusionPolicy uid => uint32 uid
  | DeletionCertificate uid unixSeconds runID => uint32 uid /\ uint64 unixSeconds /\ id_ok runID
  | VerificationState pack backend => id_ok pack /\ uint64 backend
  | VerificationEvent unixSeconds sequence pack backend => uint64 unixSeconds /\ uint64 sequence
      /\ id_ok pack /\ uint64 backend
  | LegacyImportReceipt session batch => id_ok session /\ uint64 batch
  end.

(** The logical key a parsed key stands for. *)
Definition base_of (p : ParsedKey) : BaseKey :=
  match PK.Kind p with
  | KeyBlob => Blob (PK.Id p)
  | KeyPack => Pack (PK.Id p)
  | KeyPackAggregate => PackAggregate (PK.Aggregate p)
  | KeyCurrentInode => CurrentInode (PK.FSID p) (PK.Inode p)
  | KeyInodeRevision => InodeRevision (PK.FSID p) (PK.Inode p) (PK.Revision p)
  | KeyCurrentDirectory => CurrentDirectory (PK.FSID p) (PK.Inode p)
  | KeyDirectoryRevision => DirectoryRevision (PK.FSID p) (PK.Inode p) (PK.Revision p)
  | KeySnapshot => Snapshot (PK.Id p)
  | KeyContentManifest => ContentManifest (PK.Id p) (PK.Segment p)
  | KeyReverseManifest => ReverseManifest (PK.Id p) (PK.SecondID p)
  | KeyReverseInode => ReverseInode (PK.Id p) (PK.FSID p) (PK.Inode p)
  | KeyReferenceCount => ReferenceCount (PK.Id p)
  | KeyGarbageCollection => GarbageCollection (PK.GCTarget p) (PK.Id p)
  | KeyCrawlDebt => CrawlDebt (PK.Id p) (PK.SecondID p)
  | KeyImportCheckpoint => ImportCheckpoint (PK.Id p)
  | KeySnapshotImportCheckpoint => SnapshotImportCheckpoint (PK.Id p)
  | KeyNextRevision => NextRevision
  | KeyHardlinkRefs => HardlinkRefs (PK.FSID p) (PK.Inode p) (PK.Revision p)
  | KeyExportCheckpoint => ExportCheckpoint (PK.Id p)
  | KeyExportIndexCheckpoint => ExportIndexCheckpoint (PK.Id p)
  | KeyNextExportSequence => NextExportSequence
  | KeyTierAggregate => TierAggregate (PK.Tier p)
  | KeyPackHistory => PackHistory (PK.EventTime p) (PK.Revision p) (PK.Id p)
  | KeyPackHistoryBucket => PackHistoryBucket (PK.Granularity p) (PK.EventTime p) (PK.Backend p)
      (PK.PackType p)
  | KeyNextEventSequence => NextEventSequence
  | KeyHistoryRawFloor => HistoryRawFloor
  | KeyHistoryEnabledAt => HistoryEnabledAt
  | KeyPackPlacement => PackPlacement (PK.Id p) (PK.Backend p)
  | KeyBackendPack => BackendPack (PK.Backend p) (PK.Id p)
  | KeyPlacementDeleteQueue => PlacementDeleteQueue (PK.DeleteAfter p) (PK.Id p) (PK.Backend p)
  | KeySnapshotCommit => SnapshotCommit (PK.Revision p) (PK.Id p)
  | KeyPathVersion => PathVersion (PK.FSID p) (PK.Path p) (PK.Revision p)
  | KeyPlacementRequest => PlacementRequest (PK.EventTime p) (PK.Id p)
  | KeyRepackLineage => RepackLineage (PK.Id p) (PK.SecondID p)
  | KeyPromotionEligibility => PromotionEligibility (PK.Id p)
  | KeyAnalyticsFact => AnalyticsFact (PK.FSID p) (PK.Inode p)
  | KeyAnalyticsCache => AnalyticsCache (PK.Id p)
  | KeyAnalyticsMetadata => AnalyticsMetadata
  | KeyAnalyticsBuildCheckpoint => AnalyticsBuildCheckpoint
  | KeyAnalyticsDictionary => AnalyticsDictionary (PK.Dictionary p) (PK.Ordinal p)
  | KeyAnalyticsFactSegment => AnalyticsFactSegment (PK.Generation p)
  | KeyAnalyticsSegmentMetadata => AnalyticsSegmentMetadata (PK.Generation p)
  | KeyAnalyticsDimensionIndex => AnalyticsDimensionIndex (PK.Dimension p) (PK.Value p)
      (PK.Generation p)
  | KeyAnalyticsResidency => AnalyticsResidency (PK.FSID p) (PK.Inode p) (PK.Generation p)
  | KeyAnalyticsDelta => AnalyticsDelta (PK.Commit p) (PK.Ordinal p)
  | KeyAnalyticsWatermark => AnalyticsWatermark (PK.Epoch p)
  | KeyAnalyticsManifest => AnalyticsManifest (PK.Epoch p)
  | KeyAnalyticsQueryResult => AnalyticsQueryResult (PK.Id p) (PK.Generation p) (PK.Epoch p)
      (PK.Commit p)
  | KeyAnalyticsQueryHeat => AnalyticsQueryHeat (PK.Id p)
  | KeyAnalyticsQueryView => AnalyticsQueryView (PK.Id p) (PK.Value p)
  | KeyAnalyticsQueryJob => AnalyticsQueryJob (PK.Id p)
  | KeyGrowthTime => GrowthTime (PK.Granularity p) (PK.Timestamp p) (PK.Tier p)
  | KeyGrowthPath => GrowthPath (PK.Path p) (PK.Granularity p) (PK.Timestamp p)
  | KeyUserSummary => UserSummary (PK.UID p)
  | KeyGroupSummary => GroupSummary (PK.GID p)
  | KeyUserChurn => UserChurn (PK.UID p) (PK.Granularity p) (PK.Timestamp p)
  | KeyUserInode => UserInode (PK.UID p) (PK.FSID p) (PK.Inode p)
  | KeyUserBlob => UserBlob (PK.UID p) (PK.Id p)
  | KeyAuthoritativeCrawlProof => AuthoritativeCrawlProof (PK.Id p) (PK.Commit p)
  | KeyAuthoritativeSourceBinding => AuthoritativeSourceBinding (PK.Id p) (PK.FSID p) (PK.Inode
      p) (PK.Generation p)
  | KeyUserBlobContribution => UserBlobContribution (PK.UID p) (PK.Id p) (PK.FSID p) (PK.Inode
      p) (PK.Generation p) (PK.Ordinal p)
  | KeyUserStats => UserStats (PK.UID p) (PK.Residency p)
  | KeyGroupStats => GroupStats (PK.GID p) (PK.Residency p)
  | KeyUIDExclusionPolicy => UIDExclusionPolicy (PK.UID p)
  | KeyDeletionCertificate => DeletionCertificate (PK.UID p) (PK.EventTime p) (PK.Id p)
  | KeyVerificationState => VerificationState (PK.Id p) (PK.Backend p)
  | KeyVerificationEvent => VerificationEvent (PK.EventTime p) (PK.Revision p) (PK.Id p)
      (PK.Backend p)
  | KeyLegacyImportReceipt => LegacyImportReceipt (PK.Id p) (PK.Revision p)
  | KeyAnalyticsDerivedMarker => NextRevision
  end.

Inductive SchemaKey : Type :=
| Base (k : BaseKey)
| Derived (generation : Z) (k : BaseKey)
| DerivedMarker (generation : Z).

Definition schema_key (k : SchemaKey) : bytes :=
  match k with
  | Base k => base_key k
  | Derived generation k => AnalyticsDerivedKey generation (base_key k)
  | DerivedMarker generation => AnalyticsDerivedGenerationMarkerKey generation
  end.

Definition schema_view (k : SchemaKey) : ParsedKey :=
  match k with
  | Base k => base_view k
  | Derived generation k => (base_view k) <| PK.ViewGeneration := generation |>
  | DerivedMarker generation =>
      (PK.of_kind KeyAnalyticsDerivedMarker) <| PK.ViewGeneration := generation |>
  end.

Definition schema_wf (k : SchemaKey) : Prop :=
  match k with
  | Base k => base_wf k
  | Derived generation k =>
      uint64 generation /\ generation <> 0 /\ base_wf k /\
      isAnalyticsDerivedKind (PK.Kind (base_view k)) = true
  | DerivedMarker generation => uint64 generation /\ generation <> 0
  end.

Definition schema_of (p : ParsedKey) : SchemaKey :=
  match PK.Kind p with
  | KeyAnalyticsDerivedMarker => DerivedMarker (PK.ViewGeneration p)
  | _ =>
      if PK.ViewGeneration p =? 0 then Base (base_of p)
      else Derived (PK.ViewGeneration p) (base_of p)
  end.

End Spec.
