(* ===== verification/KeyTheory.v ===== *)
(** * The key codecs implement the logical key space *)
From stdpp Require Import base list numbers strings.
From Stdlib Require Import ZArith Lia.
From coqutil Require Import Datatypes.RecordSetters.
From S2P Require Import Prelude Codec Keys KeyParse KeySpec.
Import TriangleBracketNotations.
Import Spec.

(** ** Integer blocks inside keys *)

Lemma be_block n v : 0 <= v < 256 ^ Z.of_nat n -> unbe (be n v) = v.
Proof. intros H. by rewrite unbe_be, Z.mod_small. Qed.

Lemma be_unbe_n n l : length l = n -> be n (unbe l) = l.
Proof. intros <-. apply be_unbe. Qed.

Lemma unbe_uint32 l : length l = 4%nat -> uint32 (unbe l).
Proof. intros H. pose proof (unbe_range l) as R. unfold zlen in R. by rewrite H in R. Qed.

Lemma unbe_uint64 l : length l = 8%nat -> uint64 (unbe l).
Proof. intros H. pose proof (unbe_range l) as R. unfold zlen in R. by rewrite H in R. Qed.

Lemma lxor_flip x : uint64 x -> uint64 (Z.lxor x (Z.shiftl 1 63)).
Proof.
  unfold u_range. intros Hx.
  assert (0 <= Z.lxor x (Z.shiftl 1 63)) as Hnn 
    by (apply Z.lxor_nonneg; split; intros _; [done | lia]).
  split; [done|]. destruct (Z.eq_dec (Z.lxor x (Z.shiftl 1 63)) 0) as [->|Hne]; [lia|].
  apply Z.log2_lt_pow2; [lia|].
  eapply Z.le_lt_trans; [apply Z.log2_lxor; [lia | done]|].
  apply Z.max_lub_lt; [|done].
  destruct (Z.eq_dec x 0) as [->|]; [cbn; lia|]. apply Z.log2_lt_pow2; lia.
Qed.

Lemma flip_sign_range t : uint64 (flip_sign t).
Proof. unfold flip_sign. apply lxor_flip, wrap_u_range. lia. Qed.

Lemma unflip_flip t : int64 t -> unflip_sign (flip_sign t) = t.
Proof.
  intros Ht. unfold unflip_sign, flip_sign.
  rewrite Z.lxor_assoc, Z.lxor_nilpotent, Z.lxor_0_r. apply wrap_i_wrap_u; [lia|done].
Qed.

Lemma flip_unflip x : uint64 x -> flip_sign (unflip_sign x) = x.
Proof.
  intros Hx. unfold unflip_sign, flip_sign.
  rewrite wrap_u_wrap_i by (done || lia || by apply lxor_flip).
  by rewrite Z.lxor_assoc, Z.lxor_nilpotent, Z.lxor_0_r.
Qed.

Lemma b2z_z2b_small v : 0 <= v < 256 -> b2z (z2b v) = v.
Proof. intros H. by rewrite b2z_z2b, Z.mod_small. Qed.

Lemma between_spec lo hi v : between lo hi v = true <-> lo <= v <= hi.
Proof. unfold between. rewrite andb_true_iff, !Z.leb_le. done. Qed.

Lemma residency_spec r : residency_out_of_range r = false <-> 1 <= r <= 5.
Proof.
  unfold residency_out_of_range. rewrite orb_false_iff, !Z.ltb_ge.
  unfold AnalyticsLive, AnalyticsExpired. lia.
Qed.

(** ** Building then parsing *)

(** Replace the integer block [be n v] of the goal by [n] explicit bytes,
    remembering that they decode to [v]. *)
Ltac open_block :=
  match goal with
  | |- context [be ?n ?v] =>
      let l := fresh "l" in let H := fresh "Hblock" in let L := fresh "Hlen" in
      pose proof (be_length n v) as L;
      assert (unbe (be n v) = v) as H
        by (apply be_block; first [assumption | apply flip_sign_range | apply (wrap_u_range 64); lia]);
      generalize dependent (be n v); intros l L H; explode l
  end.

(** Likewise for an enumeration byte. *)
Ltac open_enum :=
  match goal with
  | H : between _ _ ?v = true |- context [z2b ?v] =>
      let b := fresh "b" in let E := fresh "Henum" in
      assert (b2z (z2b v) = v) as E
        by (apply b2z_z2b_small; apply between_spec in H; lia);
      generalize dependent (z2b v); intros b E
  | H : residency_out_of_range ?v = false |- context [z2b ?v] =>
      let b := fresh "b" in let E := fresh "Henum" in
      assert (b2z (z2b v) = v) as E
        by (apply b2z_z2b_small; apply residency_spec in H; lia);
      generalize dependent (z2b v); intros b E
  end.

Ltac open_ids :=
  repeat match goal with
  | H : length ?i = 32%nat |- _ => is_var i; explode i
  end.

(** Unfold constructors and validity tests, keeping blocks and tests folded. *)
Ltac norm :=
  cbv -[be unbe z2b b2z str app flip_sign unflip_sign wrap_u wrap_i between Z.eqb
        is_zero_id ParseKey residency_out_of_range u_range i_range zlen normalizeAnalyticsPath
        reservedAnalyticsQueryPrefix length not bad_path has_nul] in *.

(** Use the well-formedness hypotheses to decide the guards of the code. *)
Ltac decide_guards :=
  repeat match goal with
  | H : between ?a ?b ?v = true |- context [between ?a ?b ?v] => rewrite H
  | H : ?x <> 0 |- context [?x =? 0] => rewrite (proj2 (Z.eqb_neq x 0) H)
  | H : is_zero_id ?x = false |- context [is_zero_id ?x] => rewrite H
  | H : residency_out_of_range ?x = false |- context [residency_out_of_range ?x] => rewrite H
  | H : reservedAnalyticsQueryPrefix ?x = false |- context [reservedAnalyticsQueryPrefix ?x] => rewrite H
  end.

Ltac decode_blocks :=
  repeat match goal with
  | H : unbe ?l = _ |- context [unbe ?l] => rewrite H
  | H : b2z ?l = _ |- context [b2z ?l] => rewrite H
  | H : int64 ?t |- context [unflip_sign (flip_sign ?t)] => rewrite (unflip_flip t H)
  | H : int64 ?t |- context [wrap_i 64 (wrap_u 64 ?t)] =>
      rewrite (wrap_i_wrap_u 64 t) by (lia || exact H)
  end.

Ltac eval_parse :=
  rewrite ParseKey_unfold;
  lazy -[unbe b2z wrap_i wrap_u unflip_sign flip_sign Z.eqb between
         normalizeAnalyticsPath reservedAnalyticsQueryPrefix is_zero_id residency_out_of_range ParseKey].

Ltac build_then_parse :=
  norm; destruct_and?; decide_guards; cbn [negb orb];
  repeat open_block; repeat open_enum; open_ids;
  eval_parse; decode_blocks; decide_guards; cbn [negb orb]; reflexivity.

Lemma PackAggregate_roundtrip kind :
  base_wf (PackAggregate kind) ->
  ParseKey (base_key (PackAggregate kind)) = Ok (base_view (PackAggregate kind)).
Proof.
  cbn [base_wf]. rewrite between_spec. unfold AggregateData, AggregateAll. intros H.
  assert (kind = 1 \/ kind = 2 \/ kind = 3 \/ kind = 4 \/ kind = 5) as Hk by lia.
  destruct_or! Hk; subst; vm_compute; reflexivity.
Qed.

Lemma TierAggregate_roundtrip tier :
  base_wf (TierAggregate tier) ->
  ParseKey (base_key (TierAggregate tier)) = Ok (base_view (TierAggregate tier)).
Proof.
  cbn [base_wf]. unfold validPackTier, TierUnknown, TierSingle. rewrite between_spec. intros H.
  assert (tier = 1 \/ tier = 2 \/ tier = 3 \/ tier = 4 \/ tier = 5) as Hk by lia.
  destruct_or! Hk; subst; vm_compute; reflexivity.
Qed.

Lemma GarbageCollection_roundtrip target id :
  base_wf (GarbageCollection target id) ->
  ParseKey (base_key (GarbageCollection target id)) = Ok (base_view (GarbageCollection target id)).
Proof.
  cbn [base_wf]. rewrite between_spec. unfold GCBlob, GCPack, id_ok. intros [H Hid].
  assert (target = 1 \/ target = 2) as Hk by lia.
  destruct_or! Hk; subst; explode id; vm_compute; reflexivity.
Qed.

Lemma AnalyticsCache_roundtrip hash :
  base_wf (AnalyticsCache hash) ->
  ParseKey (base_key (AnalyticsCache hash)) = Ok (base_view (AnalyticsCache hash)).
Proof.
  cbn [base_wf base_key]. unfold AnalyticsCacheKey, idKey, id_ok. intros [Hid Hr].
  explode hash.
  lazy -[reservedAnalyticsQueryPrefix] in Hr.
  rewrite ParseKey_unfold. lazy -[reservedAnalyticsQueryPrefix]. by rewrite Hr.
Qed.

(** *** Keys that carry a path *)

Lemma index_nul_app offset path rest :
  has_nul path = false -> index_nul offset (path ++ x00 :: rest) = offset + zlen path.
Proof.
  unfold zlen. revert offset; induction path as [|b path IH]; intros offset H; cbn in *.
  - lia.
  - apply orb_false_iff in H as [Hb H].
    assert (Byte.eqb b x00 = false) as ->.
    { destruct (Byte.eqb b x00) eqn:E; [|done]. apply byte_eqb_eq in E as ->. discriminate. }
    rewrite IH by done. lia.
Qed.

Lemma is_key_prefix n p key : bytes_eqb (take (String.length p) key) (str p) = false -> is_key n p key = false.
Proof. intros H. unfold is_key. by rewrite H, andb_false_r. Qed.

Lemma sub_app {A} (a b c : list A) i j :
  length a = i -> length b = (j - i)%nat -> sub i j (a ++ b ++ c) = b.
Proof.
  intros <- Hb. unfold sub. rewrite drop_app_length, <- Hb. apply take_app_length.
Qed.

Lemma sub_app_end {A} (a b : list A) i j :
  length a = i -> length b = (j - i)%nat -> sub i j (a ++ b) = b.
Proof. intros Ha Hb. rewrite <- (app_nil_r b) at 1. by apply sub_app. Qed.

Lemma parsePathVersionKey_app h path tail :
  length h = 7%nat -> length tail = 8%nat -> bad_path path = false -> unbe tail <> 0 ->
  parsePathVersionKey (h ++ path ++ [x00] ++ tail) =
    Ok ((PK.of_kind KeyPathVersion)
      <| PK.FSID := uint_at 3 7 h |> <| PK.Path := path |> <| PK.Revision := unbe tail |>).
Proof.
  intros Hh Ht Hp Hr. unfold bad_path in Hp. split_bools.
  assert (path <> []) as Hne by done.
  assert (0 < length path)%nat as Hpos by (destruct path; [done|cbn; lia]).
  set (key := h ++ path ++ [x00] ++ tail).
  assert (length key = 16 + length path)%nat as Hlen
    by (unfold key; rewrite !length_app, Hh, Ht; cbn; lia).
  unfold parsePathVersionKey.
  assert (sub 7 (length key - 8) key = path ++ [x00]) as ->.
  { rewrite Hlen. unfold key. rewrite (app_assoc path [x00] tail). apply sub_app; [done|].
    rewrite length_app. cbn. lia. }
  rewrite index_nul_app by done.
  assert (Z.to_nat (7 + zlen path) = 7 + length path)%nat as -> by (unfold zlen; lia).
  assert (sub 7 (7 + length path) key = path) as -> by (apply sub_app; [done|lia]).
  assert (uint_at (7 + length path + 1) (7 + length path + 9) key = unbe tail) as ->.
  { unfold uint_at. f_equal. unfold key. rewrite !app_assoc.
    apply sub_app_end; rewrite ?length_app; cbn; lia. }
  assert (uint_at 3 7 key = uint_at 3 7 h) as ->.
  { unfold uint_at, sub, key. do 7 (destruct h as [|? h]; [discriminate Hh|]).
    destruct h; [done|discriminate Hh]. }
  assert (zlen key = 16 + zlen path) as -> by (unfold zlen; lia).
  destruct (Z.leb_spec (7 + zlen path) 7); [unfold zlen in *; lia|].
  destruct (Z.eqb_spec (7 + zlen path) (16 + zlen path - 9)); [|lia]. cbn [negb orb].
  destruct (Z.eqb_spec (unbe tail) 0); [done|].
  destruct (Z.ltb_spec MaxPathIndexPathBytes (zlen path)); [lia|done].
Qed.

Lemma PathVersion_roundtrip fsid path revision :
  base_wf (PathVersion fsid path revision) ->
  ParseKey (base_key (PathVersion fsid path revision)) =
    Ok (base_view (PathVersion fsid path revision)).
Proof.
  cbn [base_wf base_key]. intros (Hf & Hp & Hr & Hnz).
  unfold PathVersionKey. cbn [trim_slash]. change (Byte.eqb x2f x2f) with true. cbn iota.
  rewrite Hp. open_block. pose proof (be_block 8 revision Hr) as Hblock0.
  pose proof (be_length 8 revision) as Hlen. generalize dependent (be 8 revision).
  intros tail Ht Hlen.
  set (key := str "pv:" ++ [b; b0; b1; b2] ++ path ++ [x00] ++ tail).
  rewrite ParseKey_unfold. change (codecForKey key) with (@Ok keyCodec packKeyCodec).
  cbn [rbind codec_parse]. unfold parse_pack.
  rewrite !is_key_prefix by reflexivity. cbn [andb].
  destruct (Nat.ltb_spec 15 (length key)) as [_|Hl].
  2: { unfold key in Hl. rewrite !length_app, Hlen in Hl. cbn in Hl. unfold bad_path in Hp. split_bools.
       destruct path; [done|cbn in Hl; lia]. }
  change (bytes_eqb (take 3 key) (str "pv:")) with true. cbn [andb].
  subst key. rewrite (app_assoc (str "pv:")). rewrite parsePathVersionKey_app; [|done|done|done|congruence].
  rewrite Ht. unfold uint_at, sub. cbn [drop take str String.list_byte_of_string]. 
  change (take (7 - 3) (drop 3 (str "pv:" ++ [b; b0; b1; b2]))) with [b; b0; b1; b2].
  by rewrite Hblock.
Qed.

Lemma byte_at_app a b rest : byte_at (length a) (a ++ b :: rest) = b.
Proof. unfold byte_at. by rewrite list_lookup_middle. Qed.

Lemma parseGrowthPathKey_app h path g tail :
  length h = 9%nat -> length tail = 8%nat ->
  unbe (sub 7 9 h) = zlen path -> path <> [] -> zlen path <= MaxPathIndexPathBytes ->
  normalizeAnalyticsPath path = path -> validAnalyticsGranularity (b2z g) = true ->
  parseGrowthPathKey (h ++ path ++ [g] ++ tail) =
    Ok ((PK.of_kind KeyGrowthPath)
      <| PK.Path := path |> <| PK.Granularity := b2z g |>
      <| PK.Timestamp := unflip_sign (unbe tail) |>).
Proof.
  intros Hh Ht Hu Hne Hmax Hnorm Hg.
  assert (0 < length path)%nat as Hpos by (destruct path; [done|cbn; lia]).
  set (key := h ++ path ++ [g] ++ tail).
  assert (length key = 18 + length path)%nat as Hlen
    by (unfold key; rewrite !length_app, Hh, Ht; cbn; lia).
  unfold parseGrowthPathKey.
  assert (uint_at 7 9 key = zlen path) as ->.
  { rewrite <- Hu. unfold uint_at, sub, key. f_equal.
    do 9 (destruct h as [|? h]; [discriminate Hh|]). done. }
  assert (zlen key = 18 + zlen path) as -> by (unfold zlen; lia).
  destruct (Z.eqb_spec (zlen path) 0); [unfold zlen in *; lia|].
  destruct (Z.ltb_spec MaxPathIndexPathBytes (zlen path)); [lia|].
  destruct (Z.eqb_spec (18 + zlen path) (7 + 2 + zlen path + 1 + 8)); [|lia]. cbn [negb orb].
  assert (Z.to_nat (zlen path) = length path) as -> by (unfold zlen; lia).
  assert (sub 9 (9 + length path) key = path) as -> by (apply sub_app; [done|lia]).
  assert (enum_at (9 + length path) key = b2z g) as ->.
  { unfold enum_at. f_equal. unfold key. rewrite app_assoc.
    replace (9 + length path)%nat with (length (h ++ path)) by (rewrite length_app; lia).
    apply byte_at_app. }
  assert (uint_at (10 + length path) (18 + length path) key = unbe tail) as ->.
  { unfold uint_at. f_equal. unfold key. rewrite !app_assoc.
    apply sub_app_end; rewrite ?length_app; cbn; lia. }
  by rewrite Hnorm, bytes_eqb_refl, Hg.
Qed.

Lemma GrowthPath_roundtrip path granularity timestamp :
  base_wf (GrowthPath path granularity timestamp) ->
  ParseKey (base_key (GrowthPath path granularity timestamp)) =
    Ok (base_view (GrowthPath path granularity timestamp)).
Proof.
  cbn [base_wf base_key]. intros (Hnorm & Hne & Hmax & Hg & Ht).
  unfold GrowthPathKey. rewrite Hnorm, Hg.
  rewrite (proj2 (bytes_eqb_neq path [])) by done.
  destruct (Z.ltb_spec MaxPathIndexPathBytes (zlen path)); [lia|]. cbn [negb orb].
  pose proof (zlen_nonneg path) as Hnn. unfold MaxPathIndexPathBytes in Hmax.
  pose proof (be_length 2 (zlen path)) as Hl2.
  assert (unbe (be 2 (zlen path)) = zlen path) as Hu2 by (apply be_block; cbn; lia).
  generalize dependent (be 2 (zlen path)). intros l2 Hl2 Hu2. explode l2.
  pose proof (be_block 8 _ (flip_sign_range timestamp)) as Hu8.
  pose proof (be_length 8 (flip_sign timestamp)) as Hl8.
  generalize dependent (be 8 (flip_sign timestamp)). intros tail Hu8 Hl8.
  assert (b2z (z2b granularity) = granularity) as He.
  { apply b2z_z2b_small. unfold validAnalyticsGranularity in Hg. apply between_spec in Hg.
    unfold AnalyticsGranularityWeek, AnalyticsGranularityYear in Hg. lia. }
  generalize dependent (z2b granularity). intros g He.
  set (key := str "g:path:" ++ [b; b0] ++ path ++ [g] ++ tail).
  rewrite ParseKey_unfold. change (codecForKey key) with (@Ok keyCodec growthKeyCodec).
  cbn [rbind codec_parse]. unfold parse_growth.
  rewrite !is_key_prefix by reflexivity. cbn [orb].
  destruct (Nat.leb_spec 18 (length key)) as [_|Hl].
  2: { unfold key in Hl. rewrite !length_app, Hl8 in Hl. cbn in Hl. destruct path; [done|cbn in Hl; lia]. }
  change (bytes_eqb (take 7 key) (str "g:path:")) with true. cbn [andb].
  subst key. rewrite (app_assoc (str "g:path:")).
  rewrite parseGrowthPathKey_app; [|done..|by rewrite He].
  by rewrite He, Hu8, unflip_flip.
Qed.

(** Every base key parses to its view. *)
Lemma base_roundtrip k : base_wf k -> ParseKey (base_key k) = Ok (base_view k).
Proof.
  intros H. destruct k.
  all: first [ exact (PackAggregate_roundtrip _ H) | exact (TierAggregate_roundtrip _ H)
             | exact (GarbageCollection_roundtrip _ _ H) | exact (AnalyticsCache_roundtrip _ H)
             | exact (PathVersion_roundtrip _ _ _ H) | exact (GrowthPath_roundtrip _ _ _ H)
             | build_then_parse ].
Qed.

Lemma base_view_generation k : PK.ViewGeneration (base_view k) = 0.
Proof. by destruct k. Qed.

Lemma isAnalyticsDerivedKey_base k :
  base_wf k -> isAnalyticsDerivedKind (PK.Kind (base_view k)) = true ->
  isAnalyticsDerivedKey (base_key k) = true.
Proof.
  intros Hw Hk. unfold isAnalyticsDerivedKey.
  by rewrite (base_roundtrip k Hw), base_view_generation, Hk.
Qed.

(** A derived key is parsed by parsing the key it wraps. *)
Lemma ParseKey_derived generation inner :
  uint64 generation -> generation <> 0 ->
  ParseKey (str "av1:" ++ be 8 generation ++ str ":" ++ inner) =
    if bytes_eqb inner (str "complete") then
      Ok ((PK.of_kind KeyAnalyticsDerivedMarker) <| PK.ViewGeneration := generation |>)
    else
      match ParseKey inner with
      | Err _ => Err "invalid analytics derived key"
      | Ok p =>
          if negb (PK.ViewGeneration p =? 0) || negb (isAnalyticsDerivedKind (PK.Kind p))
          then Err "invalid analytics derived key"
          else Ok (p <| PK.ViewGeneration := generation |>)
      end.
Proof.
  intros Hg Hnz. open_block.
  set (key := str "av1:" ++ [b; b0; b1; b2; b3; b4; b5; b6] ++ str ":" ++ inner).
  rewrite ParseKey_unfold. change (codecForKey key) with (@Ok keyCodec analyticsKeyCodec).
  cbn [rbind codec_parse]. unfold parse_analytics.
  assert ((13 <=? length key)%nat = true) as -> by (apply Nat.leb_le; unfold key; rewrite !length_app; cbn; lia).
  change (bytes_eqb (take 4 key) (str "av1:")) with true.
  change (colon_at 12 key) with true. cbn [andb].
  unfold parseAnalyticsDerivedKey, namedMalformedKey.
  change (uint_at 4 12 key) with (unbe [b; b0; b1; b2; b3; b4; b5; b6]).
  change (from 13 key) with inner. rewrite Hblock.
  by rewrite (proj2 (Z.eqb_neq generation 0)).
Qed.

Lemma schema_roundtrip k : schema_wf k -> ParseKey (schema_key k) = Ok (schema_view k).
Proof.
  destruct k as [k|g k|g]; cbn [schema_wf schema_key schema_view].
  - apply base_roundtrip.
  - intros (Hg & Hnz & Hw & Hk). unfold AnalyticsDerivedKey.
    rewrite isAnalyticsDerivedKey_base, (proj2 (Z.eqb_neq g 0)) by done. cbn [negb orb].
    rewrite ParseKey_derived by done. rewrite (base_roundtrip k Hw), base_view_generation, Hk.
    destruct (bytes_eqb (base_key k) (str "complete")) eqn:E; [|done].
    apply bytes_eqb_eq in E. pose proof (base_roundtrip k Hw) as R. rewrite E in R.
    discriminate R.
  - intros (Hg & Hnz). unfold AnalyticsDerivedGenerationMarkerKey, AnalyticsDerivedPrefix.
    rewrite !(proj2 (Z.eqb_neq g 0)) by done. by rewrite ParseKey_derived.
Qed.
