(* ===== verification/KeySound.v ===== *)
(** * Every key that parses is a key the constructors build *)
From stdpp Require Import base list numbers strings.
From Stdlib Require Import ZArith Lia.
From coqutil Require Import Datatypes.RecordSetters.
From S2P Require Import Prelude Codec Keys KeyParse KeySpec KeyTheory.
Import TriangleBracketNotations.
Import Spec.

(** ** Parsing then building *)

(** [p] is the view of a well-formed base key whose bytes are [key]. *)
Definition represents (key : bytes) (p : ParsedKey) : Prop :=
  PK.ViewGeneration p = 0 /\ PK.Kind p <> KeyAnalyticsDerivedMarker /\
  base_wf (base_of p) /\ base_key (base_of p) = key /\ base_view (base_of p) = p.

(** Make the bytes of [key] explicit from a successful [is_key] test. *)
Ltac open_key :=
  match goal with
  | E : is_key _ _ ?key = true |- _ =>
      let L := fresh "L" in
      unfold is_key in E; apply andb_true_iff in E; destruct E as [L E];
      apply Nat.eqb_eq in L; explode key;
      apply bytes_eqb_eq in E; cbv in E; injection E as ->; subst
  end.

Ltac open_colons :=
  repeat match goal with
  | E : colon_at _ _ = true |- _ => apply byte_eqb_eq in E; cbv in E; subst
  end.

Ltac fold_blocks :=
  repeat match goal with
  | |- context [be ?n (unbe ?l)] => rewrite (be_unbe_n n l) by reflexivity
  | |- context [z2b (b2z ?b)] => rewrite (z2b_b2z b)
  | |- context [flip_sign (unflip_sign (unbe ?l))] =>
      rewrite (flip_unflip (unbe l)) by (apply unbe_uint64; reflexivity)
  | |- context [wrap_u 64 (wrap_i 64 (unbe ?l))] =>
      rewrite (wrap_u_wrap_i 64 (unbe l)) by (lia || (apply unbe_uint64; reflexivity))
  end.

Ltac norm_guards :=
  repeat match goal with
  | H : _ || _ = false |- _ => apply orb_false_iff in H; destruct H
  | H : _ && _ = true |- _ => apply andb_true_iff in H; destruct H
  | H : negb _ = false |- _ => apply negb_false_iff in H
  | H : negb _ = true |- _ => apply negb_true_iff in H
  | H : (_ =? 0) = false |- _ => apply Z.eqb_neq in H
  end.

Ltac solve_wf :=
  repeat match goal with
  | |- _ /\ _ => split
  | |- uint32 (unbe _) => apply unbe_uint32; reflexivity
  | |- uint64 (unbe _) => apply unbe_uint64; reflexivity
  | |- int64 (unflip_sign _) => apply wrap_i_range; lia
  | |- int64 (wrap_i 64 _) => apply wrap_i_range; lia
  | |- True => exact I
  | |- id_ok _ => reflexivity
  | H : ?P |- ?P => exact H
  end.

Ltac lazy_key := lazy -[unbe b2z be z2b wrap_i wrap_u unflip_sign flip_sign Z.eqb between
  normalizeAnalyticsPath reservedAnalyticsQueryPrefix is_zero_id residency_out_of_range
  u_range i_range id_ok not].

Ltac lazy_key_in H := lazy -[unbe b2z be z2b wrap_i wrap_u unflip_sign flip_sign Z.eqb between
  normalizeAnalyticsPath reservedAnalyticsQueryPrefix is_zero_id residency_out_of_range
  u_range i_range id_ok not] in H.

(** Close a branch that returned [Ok p] for an explicit key. *)
Ltac represent :=
  norm_guards; open_key; open_colons;
  repeat match goal with H : ?P |- _ => progress lazy_key_in H end;
  unfold represents; lazy_key;
  decide_guards; cbn [negb orb]; fold_blocks;
  (split; [reflexivity|]); (split; [discriminate|]);
  (split; [solve_wf|]); split; reflexivity.

(** Split a parser's result into its branches. *)
Ltac branches H :=
  repeat match type of H with
  | (if ?c then _ else _) = _ => let E := fresh "E" in destruct c eqn:E
  end; inv_results.

Lemma parse_blob_sound key p : parse_blob key = Ok p -> represents key p.
Proof. unfold parse_blob, malformedKey. intros H. branches H; represent. Qed.

Lemma parse_content_sound key p : parse_content key = Ok p -> represents key p.
Proof. unfold parse_content, malformedKey. intros H. branches H; represent. Qed.

Lemma parse_directory_sound key p : parse_directory key = Ok p -> represents key p.
Proof. unfold parse_directory, malformedKey. intros H. branches H; represent. Qed.

Lemma parse_hardlink_sound key p : parse_hardlink key = Ok p -> represents key p.
Proof. unfold parse_hardlink, malformedKey. intros H. branches H; represent. Qed.

Lemma parse_inode_sound key p : parse_inode key = Ok p -> represents key p.
Proof. unfold parse_inode, malformedKey. intros H. branches H; represent. Qed.

Lemma parse_crawl_sound key p : parse_crawl key = Ok p -> represents key p.
Proof. unfold parse_crawl, malformedKey. intros H. branches H; represent. Qed.

Lemma parse_reverse_sound key p : parse_reverse key = Ok p -> represents key p.
Proof. unfold parse_reverse, malformedKey. intros H. branches H; represent. Qed.

Lemma parse_snapshot_sound key p : parse_snapshot key = Ok p -> represents key p.
Proof. unfold parse_snapshot, malformedKey. intros H. branches H; represent. Qed.

Lemma parse_verification_sound key p : parse_verification key = Ok p -> represents key p.
Proof. unfold parse_verification, malformedKey. intros H. branches H; represent. Qed.

Lemma parse_user_sound key p : parse_user key = Ok p -> represents key p.
Proof.
  unfold parse_user, parseUserBlobContributionKey, malformedKey, namedMalformedKey.
  cbv zeta. intros H. branches H; represent.
Qed.

(** The fixed keys of the metadata namespace. *)
Ltac represent_fixed :=
  match goal with
  | E : bytes_eqb ?key _ = true |- _ => apply bytes_eqb_eq in E; subst key
  end;
  unfold represents; (split; [reflexivity|]); (split; [discriminate|]);
  (split; [exact I|]); split; reflexivity.

Lemma parse_metadata_sound key p : parse_metadata key = Ok p -> represents key p.
Proof.
  unfold parse_metadata, malformedKey. intros H.
  branches H; first [represent_fixed | represent].
Qed.

(** *** Keys that carry a path *)

Lemma index_nul_inv offset l :
  0 <= offset -> 0 <= index_nul offset l ->
  exists path rest, l = path ++ x00 :: rest /\ has_nul path = false /\
    index_nul offset l = offset + zlen path.
Proof.
  revert offset; induction l as [|b l IH]; intros offset Ho Hi; cbn in *; [lia|].
  destruct (Byte.eqb b x00) eqn:E.
  - apply byte_eqb_eq in E as ->. exists [], l. unfold zlen. cbn. split; [done|]. split; [done|lia].
  - destruct (IH (offset + 1)) as (path & rest & -> & Hn & Ht); [lia..|].
    exists (b :: path), rest. split; [done|]. split.
    + change (Byte.eqb x00 b || has_nul path = false). rewrite Hn, orb_false_r. destruct (Byte.eqb x00 b) eqn:F; [|done].
      apply byte_eqb_eq in F as <-. discriminate.
    + rewrite Ht. unfold zlen. cbn. lia.
Qed.

(** A list cut into a head of [n], a middle and a tail of [m] elements. *)
Lemma cut3 {A} (l : list A) n m :
  (n + m <= length l)%nat ->
  exists h t, length h = n /\ length t = m /\ l = h ++ sub n (length l - m) l ++ t.
Proof.
  intros H. exists (take n l), (drop (length l - m) l).
  rewrite length_take, length_drop. split; [lia|]. split; [lia|].
  rewrite <- (take_drop n l) at 1. f_equal. unfold sub.
  rewrite <- (take_drop (length l - m - n) (drop n l)) at 1. f_equal.
  rewrite drop_drop. f_equal. lia.
Qed.

Lemma parsePathVersionKey_sound key p :
  (15 < length key)%nat -> take 3 key = str "pv:" ->
  parsePathVersionKey key = Ok p -> represents key p.
Proof.
  intros Hlen Hpre H. unfold parsePathVersionKey, namedMalformedKey in H.
  destruct (cut3 key 7 8) as (h & tail & Hh & Ht & Hkey); [lia|].
  set (m := sub 7 (length key - 8) key) in *.
  destruct (_ || _) eqn:Ec in H; [discriminate|]. norm_guards. split_bools.
  destruct (index_nul_inv 7 m) as (path & rest & Hm & Hn & Hi); [lia..|].
  assert (rest = []) as ->.
  { apply nil_length_inv.
    assert (length key = 7 + length m + 8)%nat as Hl by (rewrite Hkey at 1; rewrite !length_app; lia).
    rewrite Hm, length_app in Hl. cbn in Hl. unfold zlen in *. lia. }
  rewrite Hm, <- app_assoc in Hkey. clearbody m. clear Hm.
  assert (zlen key = 16 + zlen path) as Hz.
  { rewrite Hkey. unfold zlen. rewrite !length_app. cbn. lia. }
  rewrite Hi in H.
  assert (Z.to_nat (7 + zlen path) = 7 + length path)%nat as Hn7 by (unfold zlen; lia).
  rewrite Hn7 in H.
  assert (sub 7 (7 + length path) key = path) as Hsub by (rewrite Hkey; apply sub_app; [done|lia]).
  assert (uint_at (7 + length path + 1) (7 + length path + 9) key = unbe tail) as Hrev.
  { unfold uint_at. f_equal. rewrite Hkey, !app_assoc.
    apply sub_app_end; rewrite ?length_app; cbn; lia. }
  rewrite Hsub, Hrev in H.
  destruct (_ || _) eqn:Ec in H; [discriminate|]. norm_guards. split_bools.
  assert (bad_path path = false) as Hbad.
  { unfold bad_path. rewrite Hn, orb_false_r. apply orb_false_iff. split; [|by apply Z.ltb_ge].
    apply bytes_eqb_neq. intros ->. unfold zlen in Hz, H3. cbn in *. lia. }
  injection H as <-. explode h.
  rewrite Hkey in Hpre. cbv in Hpre. injection Hpre as -> -> ->.
  assert (uint_at 3 7 key = unbe [b2; b3; b4; b5]) as Hf by (by rewrite Hkey).
  rewrite Hf. unfold represents. cbn [PK.Kind PK.ViewGeneration PK.FSID PK.Path PK.Revision].
  split; [done|]. split; [done|]. split.
  { lazy_key. split; [by apply unbe_uint32|]. split; [exact Hbad|].
    split; [by apply unbe_uint64|done]. }
  split; [|done].
  change (base_of _) with (PathVersion (unbe [b2; b3; b4; b5]) path (unbe tail)).
  cbn [base_key]. unfold PathVersionKey. cbn [trim_slash].
  change (Byte.eqb x2f x2f) with true. cbn iota. rewrite Hbad.
  rewrite (be_unbe_n 4) by done. rewrite (be_unbe_n 8) by done. rewrite Hkey. done.
Qed.

Lemma parse_pack_sound key p : parse_pack key = Ok p -> represents key p.
Proof.
  unfold parse_pack, parsePackHistoryBucketKey, malformedKey, namedMalformedKey.
  cbv zeta. intros H. branches H.
  all: first [represent | idtac].
  match goal with E : (15 <? _)%nat && _ = true |- _ => apply andb_true_iff in E as [Hl Hp] end. apply Nat.ltb_lt in Hl. apply bytes_eqb_eq in Hp.
  by apply parsePathVersionKey_sound.
Qed.

Lemma parseGrowthPathKey_sound key p :
  (18 <= length key)%nat -> take 7 key = str "g:path:" ->
  parseGrowthPathKey key = Ok p -> represents key p.
Proof.
  intros Hlen Hpre H. unfold parseGrowthPathKey, namedMalformedKey in H. cbv zeta in H.
  destruct (cut3 key 9 9) as (h & tail & Hh & Ht & Hkey); [lia|].
  set (path := sub 9 (length key - 9) key) in *. clearbody path.
  destruct tail as [|g tail]; [discriminate Ht|]. cbn in Ht. apply eq_add_S in Ht.
  assert (zlen key = 18 + zlen path) as Hz.
  { rewrite Hkey. unfold zlen. rewrite !length_app. cbn. lia. }
  destruct (_ || _) eqn:Ec in H; [discriminate|]. norm_guards. split_bools.
  assert (uint_at 7 9 key = zlen path) as Hu by lia. rewrite Hu in *.
  assert (Z.to_nat (zlen path) = length path) as Hn by (unfold zlen; lia). rewrite Hn in H.
  assert (sub 9 (9 + length path) key = path) as Hsub by (rewrite Hkey; apply sub_app; [done|lia]).
  assert (enum_at (9 + length path) key = b2z g) as He.
  { unfold enum_at. f_equal. rewrite Hkey, app_assoc.
    replace (9 + length path)%nat with (length (h ++ path)) by (rewrite length_app; lia).
    apply byte_at_app. }
  assert (uint_at (10 + length path) (18 + length path) key = unbe tail) as Hts.
  { unfold uint_at. f_equal. rewrite Hkey.
    change (g :: tail) with ([g] ++ tail). rewrite !app_assoc.
    apply sub_app_end; rewrite ?length_app; cbn; lia. }
  rewrite Hsub, He, Hts in H.
  destruct (_ || _) eqn:Ec in H; [discriminate|]. norm_guards. split_bools.
  injection H as <-.
  assert (path <> []) as Hne by (intros ->; unfold zlen in *; cbn in *; lia).
  explode h. rewrite Hkey in Hpre. cbv in Hpre. injection Hpre as -> -> -> -> -> -> ->.
  assert (unbe [b6; b7] = zlen path) as Hu2 by (rewrite <- Hu, Hkey; done).
  unfold represents. split; [done|]. split; [done|]. split.
  { change (base_of _) with (GrowthPath path (b2z g) (unflip_sign (unbe tail))). cbn [base_wf].
    split; [done|]. split; [done|]. split; [lia|]. split; [done|]. apply wrap_i_range. lia. }
  split; [|done].
  change (base_of _) with (GrowthPath path (b2z g) (unflip_sign (unbe tail))).
  cbn [base_key]. unfold GrowthPathKey.
  match goal with Hq : path = normalizeAnalyticsPath path |- _ => rewrite <- Hq end.
  rewrite (proj2 (bytes_eqb_neq path [])) by done.
  destruct (Z.ltb_spec MaxPathIndexPathBytes (zlen path)); [lia|].
  match goal with Hq : validAnalyticsGranularity _ = true |- _ => rewrite Hq end. cbn [negb orb].
  rewrite <- Hu2, (be_unbe_n 2) by done. rewrite z2b_b2z.
  rewrite flip_unflip, (be_unbe_n 8) by (done || by apply unbe_uint64). rewrite Hkey. done.
Qed.

Lemma parse_growth_sound key p : parse_growth key = Ok p -> represents key p.
Proof.
  unfold parse_growth, parseGrowthTimeKey, malformedKey, namedMalformedKey.
  cbv zeta. intros H. branches H.
  all: first [represent | idtac].
  - apply orb_true_iff in E as [E|E]; open_key;
      unfold represents; (split; [reflexivity|]); (split; [discriminate|]);
      (split; [lazy_key; solve_wf|]); split; reflexivity.
  - match goal with E : (18 <=? _)%nat && _ = true |- _ => apply andb_true_iff in E as [Hl Hp] end. apply Nat.leb_le in Hl. apply bytes_eqb_eq in Hp.
    by apply parseGrowthPathKey_sound.
Qed.

Lemma parseAnalyticsCoreKey_sound key p :
  parseAnalyticsCoreKey key = Some (Ok p) -> represents key p.
Proof.
  unfold parseAnalyticsCoreKey. cbv zeta. intros H. branches H; try discriminate H.
  all: injection H as <-; represent.
Qed.

Lemma parseAnalyticsQueryResultKey_sound key p :
  parseAnalyticsQueryResultKey key = Some (Ok p) -> represents key p.
Proof.
  unfold parseAnalyticsQueryResultKey. cbv zeta. intros H. branches H; try discriminate H.
  all: injection H as <-; represent.
Qed.

Lemma parseAnalyticsQueryKey_sound key p :
  parseAnalyticsQueryKey key = Some (Ok p) -> represents key p.
Proof.
  unfold parseAnalyticsQueryKey. cbv zeta. intros H. branches H; try discriminate H.
  all: first [by apply parseAnalyticsQueryResultKey_sound | injection H as <-; represent].
Qed.

(** *** Aggregates and derived keys *)

Lemma parseAggregate_sound key kind :
  parseAggregate key = Some kind ->
  represents key ((PK.of_kind KeyPackAggregate) <| PK.Aggregate := kind |>).
Proof.
  intros H. unfold parseAggregate in H. apply find_some in H as [Hin Hk].
  apply bytes_eqb_eq in Hk as ->.
  cbn [In] in Hin. destruct_or! Hin; subst; try done; vm_compute; repeat split; congruence.
Qed.

Lemma parseTierAggregate_sound key tier :
  parseTierAggregate key = Some tier ->
  represents key ((PK.of_kind KeyTierAggregate) <| PK.Tier := tier |>).
Proof.
  intros H. unfold parseTierAggregate in H. apply find_some in H as [Hin Hk].
  cbn [In TierAggregateKinds] in Hin.
  destruct_or! Hin; subst; try done; apply bytes_eqb_eq in Hk as ->;
    vm_compute; repeat split; congruence.
Qed.

(** [p] is the view of a well-formed logical key whose bytes are [key]. *)
Definition schema_represents (key : bytes) (p : ParsedKey) : Prop :=
  schema_wf (schema_of p) /\ schema_key (schema_of p) = key /\ schema_view (schema_of p) = p.

Lemma schema_of_base p :
  PK.ViewGeneration p = 0 -> PK.Kind p <> KeyAnalyticsDerivedMarker ->
  schema_of p = Base (base_of p).
Proof. intros Hg Hk. unfold schema_of. rewrite Hg. by destruct (PK.Kind p). Qed.

Lemma represents_schema key p : represents key p -> schema_represents key p.
Proof.
  intros (Hg & Hk & Hw & Hb & Hv). unfold schema_represents. by rewrite schema_of_base.
Qed.

Lemma base_of_generation p g : base_of (p <| PK.ViewGeneration := g |>) = base_of p.
Proof. by destruct p. Qed.

Lemma wrap_sound inner p g :
  uint64 g -> g <> 0 -> schema_represents inner p ->
  PK.ViewGeneration p = 0 -> isAnalyticsDerivedKind (PK.Kind p) = true ->
  schema_represents (str "av1:" ++ be 8 g ++ str ":" ++ inner) (p <| PK.ViewGeneration := g |>).
Proof.
  intros Hg Hnz (Hw & Hb & Hv) Hz Hk.
  assert (PK.Kind p <> KeyAnalyticsDerivedMarker) as Hm by (intros E; by rewrite E in Hk).
  rewrite schema_of_base in Hw, Hb, Hv by done. cbn in Hw, Hb, Hv.
  assert (schema_of (p <| PK.ViewGeneration := g |>) = Derived g (base_of p)) as E.
  { unfold schema_of. rewrite base_of_generation. destruct p. cbn -[Z.eqb] in *. unfold constant.
    rewrite (proj2 (Z.eqb_neq g 0)) by done. by destruct Kind. }
  unfold schema_represents. rewrite E. cbn [schema_wf schema_key schema_view]. rewrite Hv.
  split; [done|]. split; [|done]. unfold AnalyticsDerivedKey.
  rewrite isAnalyticsDerivedKey_base, (proj2 (Z.eqb_neq g 0)) by (done || by rewrite Hv).
  cbn [negb orb]. by rewrite Hb.
Qed.

(** The bytes of a key that takes the derived branch of the analytics codec. *)
Lemma derived_shape key :
  (13 <=? length key)%nat && bytes_eqb (take 4 key) (str "av1:") && colon_at 12 key = true ->
  exists g, length g = 8%nat /\ key = str "av1:" ++ g ++ str ":" ++ from 13 key.
Proof.
  intros H. norm_guards. apply Nat.leb_le in H.
  match goal with E : bytes_eqb _ _ = true |- _ => apply bytes_eqb_eq in E; rename E into Hp end.
  match goal with E : colon_at _ _ = true |- _ => apply byte_eqb_eq in E; rename E into Hc end.
  do 13 (destruct key as [|? key]; [cbn in H; lia|]). cbv in Hp, Hc.
  injection Hp as -> -> -> ->. subst.
  exists [b3; b4; b5; b6; b7; b8; b9; b10]. done.
Qed.

Lemma parse_analytics_sound key p :
  (forall inner q, (length inner < length key)%nat ->
     ParseKey inner = Ok q -> schema_represents inner q) ->
  parse_analytics ParseKey key = Ok p -> schema_represents key p.
Proof.
  intros IH H. unfold parse_analytics, malformedKey in H.
  destruct (_ && _) eqn:E in H.
  - apply derived_shape in E as (g & Hl & Hkey).
    pose proof (unbe_uint64 g Hl) as Hg.
    unfold parseAnalyticsDerivedKey, namedMalformedKey in H.
    assert (uint_at 4 12 key = unbe g) as Hu.
    { unfold uint_at. f_equal. rewrite Hkey. by apply (sub_app (str "av1:")). }
    rewrite Hu in H. destruct (Z.eqb_spec (unbe g) 0) as [|Hnz]; [discriminate|].
    rewrite <- (be_unbe_n 8 g Hl) in Hkey.
    destruct (bytes_eqb (from 13 key) (str "complete")) eqn:Ec.
    + apply bytes_eqb_eq in Ec. injection H as <-.
      unfold schema_represents.
      change (schema_of _) with (DerivedMarker (unbe g)). cbn [schema_wf schema_key schema_view].
      split; [done|]. split; [|done].
      unfold AnalyticsDerivedGenerationMarkerKey, AnalyticsDerivedPrefix.
      destruct (Z.eqb_spec (unbe g) 0); [done|]. rewrite Ec in Hkey. by rewrite Hkey.
    + destruct (ParseKey (from 13 key)) as [q|] eqn:Eq; [|discriminate].
      destruct (_ || _) eqn:Eg in H; [discriminate|]. injection H as <-.
      apply orb_false_iff in Eg as [Eg Ek]. apply negb_false_iff in Eg, Ek.
      apply Z.eqb_eq in Eg. rewrite Hkey. apply wrap_sound; try done.
      apply IH; [|done]. rewrite Hkey at 2. rewrite !length_app, be_length. cbn. lia.
  - destruct (parseAnalyticsCoreKey key) as [r|] eqn:E1.
    { subst r. by apply represents_schema, parseAnalyticsCoreKey_sound. }
    destruct (parseAnalyticsQueryKey key) as [r|] eqn:E2.
    { subst r. by apply represents_schema, parseAnalyticsQueryKey_sound. }
    destruct (parseAggregate key) as [kind|] eqn:E3.
    { injection H as <-. by apply represents_schema, parseAggregate_sound. }
    destruct (parseTierAggregate key) as [tier|] eqn:E4; [|discriminate].
    injection H as <-. by apply represents_schema, parseTierAggregate_sound.
Qed.

Lemma schema_sound key p : ParseKey key = Ok p -> schema_represents key p.
Proof.
  remember (length key) as n eqn:Hn. revert key p Hn.
  induction n as [n IH] using lt_wf_ind. intros key p -> H.
  rewrite ParseKey_unfold in H. destruct (codecForKey key) as [c|]; [|discriminate].
  cbn [rbind] in H. destruct c; cbn [codec_parse] in H.
  all: first
    [ apply represents_schema;
      first [ by apply parse_blob_sound | by apply parse_content_sound
            | by apply parse_directory_sound | by apply parse_growth_sound
            | by apply parse_hardlink_sound | by apply parse_inode_sound
            | by apply parse_metadata_sound | by apply parse_pack_sound
            | by apply parse_crawl_sound | by apply parse_reverse_sound
            | by apply parse_snapshot_sound | by apply parse_user_sound
            | by apply parse_verification_sound ]
    | apply parse_analytics_sound; [|done]; intros inner q Hl; by eapply IH ].
Qed.

Lemma schema_of_view k : schema_wf k -> schema_of (schema_view k) = k.
Proof.
  destruct k as [k|g k|g]; cbn [schema_wf schema_view].
  - intros _. destruct k; reflexivity.
  - intros (_ & Hg & _ & Hk). unfold schema_of. rewrite base_of_generation.
    destruct k; try discriminate Hk; cbn -[Z.eqb]; unfold constant; by rewrite (proj2 (Z.eqb_neq g 0)).
  - done.
Qed.
