(* ===== verification/KeyProps.v ===== *)
(** * Properties of the key space

    Round trip, soundness and injectivity of the key codecs, the scan prefixes,
    and the order in which a scan of the store meets the keys. *)
From stdpp Require Import base list numbers strings.
From Stdlib Require Import ZArith Lia.
From coqutil Require Import Datatypes.RecordSetters.
From S2P Require Import Prelude Codec Keys KeyParse KeySpec KeyTheory KeySound.
Import TriangleBracketNotations.
Import Spec.

(** ** Concrete identifiers for the witnesses *)
Definition id_of (b : byte) : ID := repeat b 32.

(** ** The codecs and the logical keys *)

(** C22. Every key the constructors build is parsed back: for every well-formed
    logical key, [ParseKey] of the bytes its Go constructor builds succeeds and
    returns exactly the key's kind and components, derived keys included. *)
Theorem ParseKey_schema_key k : schema_wf k -> ParseKey (schema_key k) = Ok (schema_view k).
Proof. apply schema_roundtrip. Qed.

Lemma ParseKey_schema_key_witness :
  ParseKey (schema_key (Derived 7 (UserBlob 1000 (id_of x41)))) =
    Ok (schema_view (Derived 7 (UserBlob 1000 (id_of x41)))).
Proof. apply (ParseKey_schema_key (Derived 7 (UserBlob 1000 (id_of x41)))). cbn. repeat split; range. Defined.

(** Every byte string [ParseKey] accepts is the key some constructor builds:
    the parsed form determines a well-formed logical key whose bytes are exactly
    the input, so no other byte string parses to the same form. *)
Theorem ParseKey_sound key p :
  ParseKey key = Ok p ->
  schema_wf (schema_of p) /\ schema_key (schema_of p) = key /\ schema_view (schema_of p) = p.
Proof. apply schema_sound. Qed.

Lemma ParseKey_sound_witness :
  schema_key (schema_of ((PK.of_kind KeyPackPlacement) <| PK.Backend := 3 |> <| PK.Id := id_of x07 |>))
    = PackPlacementKey (id_of x07) 3.
Proof. apply (ParseKey_sound (PackPlacementKey (id_of x07) 3)). reflexivity. Defined.

(** Distinct logical keys never collide in the store: two well-formed keys,
    of the same or of different kinds, that have the same bytes are equal. *)
Theorem schema_key_injective k1 k2 :
  schema_wf k1 -> schema_wf k2 -> schema_key k1 = schema_key k2 -> k1 = k2.
Proof.
  intros H1 H2 E. rewrite <- (schema_of_view k1 H1), <- (schema_of_view k2 H2). f_equal.
  pose proof (schema_roundtrip k1 H1) as R1. rewrite E, (schema_roundtrip k2 H2) in R1.
  by injection R1.
Qed.

Lemma schema_key_injective_witness : Base (Blob (id_of x01)) = Base (Blob (id_of x01)).
Proof. apply schema_key_injective; [reflexivity..|done]. Defined.

(** ** Scans *)
Module Scan.

(** The prefix scans the store's readers make over one owner's keys. *)
Inductive Scan : Type :=
| PlacementsOf (pack : ID)
| PacksOn (backend : Z)
| SuccessorsOf (source : ID)
| RevisionsOf (fsid inode : Z)
| HistoryAt (unixSeconds : Z)
| CertificatesOf (uid : Z)
| ReceiptsOf (session : ID)
| InodesOwnedBy (uid : Z)
| BlobsOwnedBy (uid : Z)
| ContributionsOf (uid : Z).

Definition prefix (s : Scan) : bytes :=
  match s with
  | PlacementsOf pack => PackPlacementPrefix pack
  | PacksOn backend => BackendPackPrefix backend
  | SuccessorsOf source => RepackLineagePrefix source
  | RevisionsOf fsid inode => InodeRevisionPrefix fsid inode
  | HistoryAt unixSeconds => PackHistoryTimePrefix unixSeconds
  | CertificatesOf uid => DeletionCertificatePrefix uid
  | ReceiptsOf session => LegacyImportReceiptPrefix session
  | InodesOwnedBy uid => UserInodePrefix uid
  | BlobsOwnedBy uid => UserBlobPrefix uid
  | ContributionsOf uid => UserBlobContributionPrefix uid
  end.

Definition wf (s : Scan) : Prop :=
  match s with
  | PlacementsOf id | SuccessorsOf id | ReceiptsOf id => id_ok id
  | PacksOn v | HistoryAt v => uint64 v
  | RevisionsOf fsid inode => uint32 fsid /\ uint64 inode
  | CertificatesOf uid | InodesOwnedBy uid | BlobsOwnedBy uid | ContributionsOf uid => uint32 uid
  end.

(** The logical keys the scan is meant to return. *)
Definition selects (s : Scan) (k : SchemaKey) : Prop :=
  match s, k with
  | PlacementsOf pack, Base (PackPlacement pack' _) => pack' = pack
  | PacksOn backend, Base (BackendPack backend' _) => backend' = backend
  | SuccessorsOf source, Base (RepackLineage source' _) => source' = source
  | RevisionsOf fsid inode, Base (InodeRevision fsid' inode' _) => fsid' = fsid /\ inode' = inode
  | HistoryAt t, Base (PackHistory t' _ _) => t' = t
  | CertificatesOf uid, Base (DeletionCertificate uid' _ _) => uid' = uid
  | ReceiptsOf session, Base (LegacyImportReceipt session' _) => session' = session
  | InodesOwnedBy uid, Base (UserInode uid' _ _) => uid' = uid
  | BlobsOwnedBy uid, Base (UserBlob uid' _) => uid' = uid
  | ContributionsOf uid, Base (UserBlobContribution uid' _ _ _ _ _) => uid' = uid
  | _, _ => False
  end.

(** The key in [E] begins differently from the prefix, or is the empty key a
    constructor returns for refused arguments. *)
Ltac other_kind E :=
  exfalso; repeat case_match;
  cbn [str String.list_byte_of_string app] in E; discriminate E.

(** Cancel the equal leading blocks of two byte strings. *)
Ltac cut_blocks E :=
  rewrite <- ?app_assoc in E; apply app_inv_head in E;
  repeat first
    [ apply be_app_inj in E as [? E]; [|assumption..]
    | apply app_inj_1 in E as [? E]; [|congruence] ].

Lemma scan_forward s k rest :
  wf s -> schema_wf k -> schema_key k = prefix s ++ rest -> selects s k.
Proof.
  intros Hs Hk E.
  destruct k as [[]| |]; destruct s; cbn [schema_key base_key prefix] in E;
    unfold AnalyticsDerivedKey in E; autounfold with keys in E; try (by other_kind E).
  all: cbn [selects wf schema_wf base_wf] in *; unfold id_ok in *; destruct_and?.
  all: repeat case_match; try discriminate E; cut_blocks E; auto.
Qed.

Lemma scan_backward s k : schema_wf k -> selects s k -> exists rest, schema_key k = prefix s ++ rest.
Proof.
  intros Hk H. destruct s; destruct k as [[]| |]; cbn [selects] in H; try done;
    destruct_and?; subst; cbn [schema_key base_key prefix schema_wf base_wf] in *; destruct_and?;
    autounfold with keys; decide_guards.
  all: eexists; rewrite <- ?app_assoc; repeat apply (f_equal2 app eq_refl); reflexivity.
Qed.

(** A prefix scan returns exactly its owner's keys: among all well-formed keys
    of the store, of every kind, those that start with the scan's prefix are the
    keys of the scanned kind whose owning component is the scanned one. *)
Theorem scan_prefix_exact s k :
  wf s -> schema_wf k -> (has_prefix (prefix s) (schema_key k) = true <-> selects s k).
Proof.
  intros Hs Hk. rewrite has_prefix_spec. split.
  - intros [rest E]. by apply (scan_forward s k rest).
  - by apply scan_backward.
Qed.

Lemma scan_prefix_exact_witness :
  has_prefix (prefix (BlobsOwnedBy 7)) (schema_key (Base (UserBlob 7 (id_of x01)))) = true <-> 7 = 7.
Proof. apply (scan_prefix_exact (BlobsOwnedBy 7)); cbn; repeat split; range. Defined.

(** A path without NUL that is cut off by a prefix of a stored key is a prefix
    of the stored path. *)
Lemma prefix_before_nul q rest path tail :
  has_nul q = false -> path ++ x00 :: tail = q ++ rest -> exists child, path = q ++ child.
Proof.
  revert path; induction q as [|b q IH]; intros path Hq E; [by exists path|].
  cbn [has_nul existsb] in Hq. apply orb_false_iff in Hq as [Hb Hq].
  destruct path as [|c path]; cbn [app] in E; injection E as <- E; [discriminate Hb|].
  destruct (IH path Hq E) as [child ->]. by exists child.
Qed.

Lemma path_scan_forward q rest k :
  schema_wf k -> schema_key k = str "pv:" ++ q ++ rest ->
  exists fsid path revision,
    k = Base (PathVersion fsid path revision) /\
    be 4 fsid ++ path ++ [x00] ++ be 8 revision = q ++ rest.
Proof.
  intros Hk E. destruct k as [[]| |]; cbn [schema_key base_key] in E;
    unfold AnalyticsDerivedKey in E; autounfold with keys in E; try (by other_kind E).
  case_match; [discriminate E|]. apply app_inv_head in E. by eauto 10.
Qed.

Lemma base_path_key fsid path revision :
  base_wf (PathVersion fsid path revision) ->
  schema_key (Base (PathVersion fsid path revision)) =
    str "pv:" ++ be 4 fsid ++ path ++ [x00] ++ be 8 revision.
Proof. intros (_ & Hp & _). cbn [schema_key base_key]. unfold PathVersionKey. cbn [trim_slash]. 
  change (Byte.eqb x2f x2f) with true. cbn iota. by rewrite Hp. Qed.

(** The versions of one path: [PathVersionPrefix] selects, among all
    well-formed keys, exactly the revisions of that path in that file system,
    and no revision of a path that merely extends it. *)
Theorem path_prefix_exact fsid path k :
  uint32 fsid -> bad_path (trim_slash path) = false -> schema_wf k ->
  (has_prefix (PathVersionPrefix fsid path) (schema_key k) = true <->
   exists revision, k = Base (PathVersion fsid (trim_slash path) revision)).
Proof.
  intros Hf Hp Hk. unfold PathVersionPrefix. rewrite Hp, has_prefix_spec. set (q := trim_slash path) in *.
  assert (has_nul q = false) as Hq by (unfold bad_path in Hp; split_bools; done).
  split.
  - intros [rest E]. rewrite <- !app_assoc in E.
    apply path_scan_forward in E as (f & path' & r & -> & E); [|done].
    destruct Hk as (Hf' & Hp' & _). apply be_app_inj in E as [-> E]; [|done..].
    assert (has_nul path' = false) as Hq' by (unfold bad_path in Hp'; split_bools; done).
    destruct (prefix_before_nul q _ path' _ Hq E) as [c ->].
    symmetry in E. destruct (prefix_before_nul (q ++ c) _ q _ Hq' E) as [c' E'].
    rewrite <- app_assoc in E'. rewrite <- (app_nil_r q) in E' at 1. apply app_inv_head in E'.
    symmetry in E'. apply app_eq_nil in E' as [-> _]. rewrite app_nil_r. by exists r.
  - intros [r ->]. rewrite base_path_key by done. exists (be 8 r). by rewrite <- !app_assoc.
Qed.

Lemma path_prefix_exact_witness :
  has_prefix (PathVersionPrefix 1 (str "/a")) (schema_key (Base (PathVersion 1 (str "ab") 5))) = true <->
  exists revision, Base (PathVersion 1 (str "ab") 5) = Base (PathVersion 1 (str "a") revision).
Proof.
  apply (path_prefix_exact 1 (str "/a") (Base (PathVersion 1 (str "ab") 5)));
    [range | reflexivity | cbn; repeat split; first [reflexivity | range]].
Defined.

(** The versions below one directory: [PathVersionSubtreePrefix] selects,
    among all well-formed keys, exactly the revisions of paths that continue the
    directory's path with a slash. *)
Theorem path_subtree_exact fsid path k :
  uint32 fsid -> trim_slash path <> [] -> zlen (trim_slash path) < MaxPathIndexPathBytes ->
  has_nul (trim_slash path) = false -> schema_wf k ->
  (has_prefix (PathVersionSubtreePrefix fsid path) (schema_key k) = true <->
   exists child revision, k = Base (PathVersion fsid (trim_slash path ++ [x2f] ++ child) revision)).
Proof.
  intros Hf Hne Hlen Hq Hk. unfold PathVersionSubtreePrefix.
  rewrite (proj2 (bytes_eqb_neq _ _) Hne), Hq. set (q := trim_slash path) in *.
  destruct (Z.leb_spec MaxPathIndexPathBytes (zlen q)); [lia|]. cbn [orb]. rewrite has_prefix_spec.
  split.
  - intros [rest E]. rewrite <- !app_assoc in E.
    apply path_scan_forward in E as (f & path' & r & -> & E); [|done].
    destruct Hk as (Hf' & _). apply be_app_inj in E as [-> E]; [|done..].
    rewrite (app_assoc q) in E. apply prefix_before_nul in E as [child ->].
    + exists child, r. by rewrite <- app_assoc.
    + unfold has_nul in *. rewrite existsb_app, Hq. done.
  - intros (child & r & ->). rewrite base_path_key by done.
    exists (child ++ [x00] ++ be 8 r). by rewrite <- !app_assoc.
Qed.

Lemma path_subtree_exact_witness :
  has_prefix (PathVersionSubtreePrefix 1 (str "/a")) (schema_key (Base (PathVersion 1 (str "a/b") 5))) = true <->
  exists child revision,
    Base (PathVersion 1 (str "a/b") 5) = Base (PathVersion 1 (str "a" ++ [x2f] ++ child) revision).
Proof.
  apply (path_subtree_exact 1 (str "/a") (Base (PathVersion 1 (str "a/b") 5)));
    [range | discriminate | reflexivity | reflexivity | cbn; repeat split; first [reflexivity | range]].
Defined.

End Scan.

(** ** Scan order *)
Module Order.

(** Lexicographic combination of two comparisons. *)
Definition then_compare (c d : comparison) : comparison := match c with Eq => d | _ => c end.

Lemma be_compare n x y (a b : bytes) :
  0 <= x < 256 ^ Z.of_nat n -> 0 <= y < 256 ^ Z.of_nat n ->
  bytes_compare (be n x ++ a) (be n y ++ b) = then_compare (x ?= y) (bytes_compare a b).
Proof.
  intros Hx Hy. rewrite bytes_compare_app by by rewrite !be_length. rewrite bytes_compare_be by done. by destruct (x ?= y).
Qed.

(** A forward scan of the pack history meets the events in the order of
    their time, and of their sequence number within one second. *)
Theorem PackHistoryKey_order t1 n1 pack1 t2 n2 pack2 :
  uint64 t1 -> uint64 n1 -> uint64 t2 -> uint64 n2 ->
  bytes_compare (PackHistoryKey t1 n1 pack1) (PackHistoryKey t2 n2 pack2) =
    then_compare (t1 ?= t2) (then_compare (n1 ?= n2) (bytes_compare pack1 pack2)).
Proof.
  intros. unfold PackHistoryKey. rewrite bytes_compare_app_l. by rewrite !be_compare.
Qed.

Lemma PackHistoryKey_order_witness :
  bytes_compare (PackHistoryKey 255 9 (id_of x00)) (PackHistoryKey 256 1 (id_of x00)) = Lt.
Proof. apply (PackHistoryKey_order 255 9 (id_of x00) 256 1 (id_of x00)); range. Defined.

Lemma lxor_high x : 0 <= x < 2 ^ 63 -> Z.lxor x (2 ^ 63) = x + 2 ^ 63.
Proof.
  intros Hx. symmetry. apply Z.add_nocarry_lxor, Z.bits_inj'. intros i Hi.
  rewrite Z.land_spec, Z.bits_0, Z.pow2_bits_eqb by lia.
  destruct (Z.eqb_spec 63 i) as [<-|]; [|by rewrite andb_false_r].
  rewrite Z.bits_above_log2; [done|lia|].
  destruct (Z.eq_dec x 0) as [->|]; [cbn; lia|]. apply Z.log2_lt_pow2; lia.
Qed.

(** Flipping the sign bit shifts the signed range onto the unsigned one. *)
Lemma flip_sign_add t : int64 t -> flip_sign t = t + 2 ^ 63.
Proof.
  unfold i_range, flip_sign, wrap_u. change (Z.shiftl 1 63) with (2 ^ 63). intros Ht.
  destruct (Z_lt_le_dec t 0).
  - assert (t mod 2 ^ 64 = Z.lxor (t + 2 ^ 63) (2 ^ 63)) as ->.
    { rewrite lxor_high by lia. symmetry. apply (Z.mod_unique _ _ (-1)); lia. }
    by rewrite Z.lxor_assoc, Z.lxor_nilpotent, Z.lxor_0_r.
  - rewrite Z.mod_small by lia. apply lxor_high. lia.
Qed.

(** A forward scan of one granularity of the growth series meets the buckets
    in the order of their signed time, times before 1970 first. *)
Theorem GrowthTimeKey_order granularity t1 tier1 t2 tier2 :
  validAnalyticsGranularity granularity = true -> validPackTier tier1 = true ->
  validPackTier tier2 = true -> int64 t1 -> int64 t2 ->
  bytes_compare (GrowthTimeKey granularity t1 tier1) (GrowthTimeKey granularity t2 tier2) =
    then_compare (t1 ?= t2) (tier1 ?= tier2).
Proof.
  intros Hg H1 H2 Ht1 Ht2. unfold GrowthTimeKey. rewrite Hg, H1, H2. cbn [negb orb].
  rewrite !bytes_compare_app_l, be_compare, !flip_sign_add by (done || apply flip_sign_range).
  rewrite (Z.add_comm t1), (Z.add_comm t2), Z.add_compare_mono_l. f_equal.
  cbn [bytes_compare]. unfold validPackTier, TierUnknown, TierSingle in *. apply between_spec in H1, H2.
  rewrite !b2z_z2b_small by lia. by destruct (tier1 ?= tier2).
Qed.

Lemma GrowthTimeKey_order_witness :
  bytes_compare (GrowthTimeKey AnalyticsGranularityWeek (-1) TierHot)
    (GrowthTimeKey AnalyticsGranularityWeek 0 TierHot) = Lt.
Proof.
  apply (GrowthTimeKey_order AnalyticsGranularityWeek (-1) TierHot 0 TierHot); first [reflexivity | range].
Defined.

(** The order of the deletion queue for deadlines from 1970 on. *)
(** For non-negative times a queued deletion sorts before
    [PlacementDeleteQueuePrefix before] exactly when its deadline is earlier than
    [before]: the keys below that prefix are the deletions due before it. *)
Theorem PlacementDeleteQueue_sweep before deadline pack backend :
  int64 before -> int64 deadline -> 0 <= before -> 0 <= deadline ->
  (bytes_compare (PlacementDeleteQueueKey deadline pack backend) (PlacementDeleteQueuePrefix before) = Lt
   <-> deadline < before).
Proof.
  unfold i_range. intros. unfold PlacementDeleteQueueKey, PlacementDeleteQueuePrefix, wrap_u.
  rewrite bytes_compare_app_l, !Z.mod_small by lia.
  rewrite <- (app_nil_r (be 8 before)), be_compare by (cbn; lia).
  unfold then_compare. destruct (Z.compare_spec deadline before); cbn; split; (done || lia).
Qed.

Lemma PlacementDeleteQueue_sweep_witness :
  bytes_compare (PlacementDeleteQueueKey 99 (id_of x05) 2) (PlacementDeleteQueuePrefix 100) = Lt <-> 99 < 100.
Proof. apply (PlacementDeleteQueue_sweep 100 99 (id_of x05) 2); range. Defined.

End Order.

(** ** Keys the parser refuses *)
Module Refused.

(** [GrowthPathKey] and [ParseKey] disagree on paths whose last component
    ends in white space hidden by a trailing slash: the normal form of such a path
    is not its own normal form, so the key is built and then refused. *)
Theorem GrowthPathKey_refused :
  let path := str "/logs /" in
  GrowthPathKey path AnalyticsGranularityWeek 0 <> [] /\
  normalizeAnalyticsPath (normalizeAnalyticsPath path) <> normalizeAnalyticsPath path /\
  is_ok (ParseKey (GrowthPathKey path AnalyticsGranularityWeek 0)) = false.
Proof. vm_compute. repeat split; discriminate. Qed.

(** A query hash whose first bytes spell a reserved word yields a cache key
    that is built and then refused; every other hash yields a key that parses. *)
Theorem AnalyticsCacheKey_parse hash :
  id_ok hash ->
  is_ok (ParseKey (AnalyticsCacheKey hash)) =
    negb (existsb (fun w => has_prefix (str w) hash) ["result:"; "heat:"; "view:"; "job:"]%string).
Proof.
  unfold AnalyticsCacheKey, idKey, id_ok. intros Hid.
  assert (reservedAnalyticsQueryPrefix (str "aq:" ++ hash) =
    existsb (fun w => has_prefix (str w) hash) ["result:"; "heat:"; "view:"; "job:"]%string) as <-.
  { unfold reservedAnalyticsQueryPrefix, existsb. by rewrite <- !(has_prefix_app (str "aq:") _ hash). }
  explode hash. rewrite ParseKey_unfold. lazy -[reservedAnalyticsQueryPrefix].
  by destruct (reservedAnalyticsQueryPrefix _).
Qed.

Lemma AnalyticsCacheKey_parse_witness :
  is_ok (ParseKey (AnalyticsCacheKey (str "job:" ++ repeat x00 28))) = false.
Proof. apply (AnalyticsCacheKey_parse (str "job:" ++ repeat x00 28)). reflexivity. Defined.

End Refused.
