(* ===== verification/Records.v ===== *)
(** * Repository records ([internal/index/schema/records.go])

    Blob locations, pack placements, deletions and placement requests, repack
    lineage, promotion eligibility, packs, pack aggregates and the pointers to
    current revisions. A record's [_fields] are the encoder calls of its
    [MarshalBinary] method in order, with the checks made between them. *)
From stdpp Require Import base list numbers strings.
From Stdlib Require Import ZArith Lia.
From coqutil Require Import Datatypes.RecordSetters.
From S2P Require Import Prelude Codec Keys KeyParse.
Import TriangleBracketNotations.
Import Decoder (newDecoder, more, many).

(** [total, ok := add(left, right)] on [uint64] *)
Definition add (left right : Z) : option Z :=
  if MaxUint64 - left <? right then None else Some (left + right).

(** ** Blob locations *)

Definition BlobData : Z := 1.
Definition BlobTree : Z := 2.

Record BlobLocation := mkBlobLocation {
  loc_PackID : ID;
  loc_Offset : Z;
  loc_Length : Z;
  loc_UncompressedSize : Z;
  loc_Type : Z;
}.

Record BlobRecord := mkBlobRecord { Locations : list BlobLocation }.

Definition invalid_blob_type (t : Z) : bool := negb (t =? BlobData) && negb (t =? BlobTree).

Definition BlobLocation_fields (l : BlobLocation) : list field :=
  [Refuse (invalid_blob_type (loc_Type l)) "invalid blob type";
   IDf (loc_PackID l); U64 (loc_Offset l); U32 (loc_Length l); U32 (loc_UncompressedSize l);
   U8 (loc_Type l)].

Definition BlobRecord_MarshalBinary (r : BlobRecord) : result bytes :=
  do! guard (zlen (Locations r) =? 0) "blob has no locations";
  encode (U32 (zlen (Locations r)) :: concat (map BlobLocation_fields (Locations r))).

Definition read_BlobLocation (d : Decoder.decoder) : result (BlobLocation * Decoder.decoder) :=
  let! (packID, d) := Decoder.id d in
  let! (offset, d) := Decoder.u64 d in
  let! (length, d) := Decoder.u32 d in
  let! (uncompressedSize, d) := Decoder.u32 d in
  let! (value, d) := Decoder.u8 d in
  do! guard (invalid_blob_type value) "invalid blob type";
  Ok (mkBlobLocation packID offset length uncompressedSize value, d).

Definition UnmarshalBlobRecord (data : bytes) : result BlobRecord :=
  let! d := newDecoder data in
  let! (count, d) := Decoder.u32 d in
  do! guard ((count =? 0) || (zlen data <? count * 49)) "invalid blob location count";
  let! (locations, d) := many (Z.to_nat count) read_BlobLocation d in
  do! Decoder.done d;
  Ok (mkBlobRecord locations).

Definition BlobLocation_ok (l : BlobLocation) : Prop :=
  id_ok (loc_PackID l) /\ uint64 (loc_Offset l) /\ uint32 (loc_Length l) /\
  uint32 (loc_UncompressedSize l) /\ uint8 (loc_Type l).

#[export] Hint Unfold BlobLocation_fields BlobLocation_ok : codec.

#[export] Instance BlobRecord_codec : RecordCodec BlobRecord := {
  record_ok r := Forall BlobLocation_ok (Locations r);
  stored r := r;
  marshal := BlobRecord_MarshalBinary;
  unmarshal := UnmarshalBlobRecord;
}.

Lemma read_BlobLocation_wires t l gs :
  BlobLocation_ok l -> forallb writable (BlobLocation_fields l) = true ->
  read_BlobLocation (Decoder.mk t (wires (BlobLocation_fields l ++ gs))) = Ok (l, Decoder.mk t (wires gs)).
Proof.
  intros (? & ? & ? & ? & ?) Hw. unfold BlobLocation_fields in *. written Hw. cbn [app].
  unfold read_BlobLocation. read_fields. pass_guards. by destruct l.
Qed.

Lemma read_BlobLocation_inv d l d' :
  read_BlobLocation d = Ok (l, d') -> reads d (BlobLocation_fields l) d' /\ BlobLocation_ok l.
Proof.
  unfold read_BlobLocation. intros H. invert_reads.
  split; [assemble | typed_fields].
Qed.


Lemma BlobLocation_size l : BlobLocation_ok l -> 49 <= zlen (wires (BlobLocation_fields l)).
Proof. intros (Hid & _). unfold BlobLocation_fields. sizes. Qed.

#[export] Instance BlobRecord_RoundTrip : RoundTrip BlobRecord.
Proof.
  intros r b Hok H. cbn [marshal unmarshal stored record_ok BlobRecord_codec] in *.
  unfold BlobRecord_MarshalBinary in H. inv_results. encoded H.
  pose proof (wires_concat_length _ _ 49 _ BlobLocation_size Hok) as Hsize.
  assert (uint32 (zlen (Locations r))) by sizes.
  unfold UnmarshalBlobRecord. start_decoder. read_fields. decide_guard.
  rewrite (many_round_trip_end _ BlobLocation_fields BlobLocation_ok)
    by auto using read_BlobLocation_wires.
  read_fields. by destruct r.
Qed.

#[export] Instance BlobRecord_Canonical : Canonical BlobRecord.
Proof.
  intros b r H. cbn [marshal unmarshal record_ok BlobRecord_codec] in *.
  unfold UnmarshalBlobRecord in H. invert_reads. split_bools.
  read_list read_BlobLocation_inv.
  split; [done|]. unfold BlobRecord_MarshalBinary. cbn [Locations].
  rewrite (proj2 (Z.eqb_neq _ _)) by done. cbn [guard rbind].
  eapply encode_reads; [eassumption | assemble | eassumption].
Qed.

(** ** Placements *)

Definition PlacementPending : Z := 1.
Definition PlacementLive : Z := 2.
Definition PlacementEvicting : Z := 3.
Definition PlacementEvicted : Z := 4.
Definition PlacementFailed : Z := 5.
Definition validPlacementState (value : Z) : bool := between PlacementPending PlacementFailed value.

Definition RetentionUnknown : Z := 1.
Definition RetentionConfig : Z := 2.
Definition RetentionBackend : Z := 3.
Definition validRetentionSource (value : Z) : bool := between RetentionUnknown RetentionBackend value.

Record PlacementRecord := mkPlacementRecord {
  pl_State : Z;
  pl_StorageClass : bytes;
  pl_PlacedAt : Z;
  pl_PlacementTimeKnown : bool;
  pl_Bytes : Z;
  pl_MinRetentionUntil : Z;
  pl_RetentionSource : Z;
  pl_DeleteAfter : Z;
  pl_LastVerifiedAt : Z;
}.

Definition PlacementRecord_normalized (r : PlacementRecord) : PlacementRecord :=
  if pl_RetentionSource r =? 0 then r <| pl_RetentionSource := RetentionUnknown |> else r.

Definition PlacementRecord_validate (r : PlacementRecord) : result unit :=
  let r := PlacementRecord_normalized r in
  do! guard (negb (validPlacementState (pl_State r)) || negb (validRetentionSource (pl_RetentionSource r)))
        "invalid placement state";
  do! guard (negb (pl_PlacementTimeKnown r) && negb (pl_PlacedAt r =? 0))
        "placement time without a known flag";
  do! guard ((pl_RetentionSource r =? RetentionUnknown) && negb (pl_MinRetentionUntil r =? 0))
        "placement retention deadline without a source";
  guard (negb (pl_DeleteAfter r =? 0) && negb (pl_State r =? PlacementEvicting)
         && negb (pl_State r =? PlacementEvicted))
    "placement delete deadline without evicting state".

Definition PlacementRecord_fields (r : PlacementRecord) : list field :=
  [U8 (pl_State r); Str (pl_StorageClass r); I64 (pl_PlacedAt r); Bool (pl_PlacementTimeKnown r);
   U64 (pl_Bytes r); I64 (pl_MinRetentionUntil r); U8 (pl_RetentionSource r); I64 (pl_DeleteAfter r);
   I64 (pl_LastVerifiedAt r)].

Definition PlacementRecord_MarshalBinary (r : PlacementRecord) : result bytes :=
  let r := PlacementRecord_normalized r in
  do! PlacementRecord_validate r;
  encode (PlacementRecord_fields r).

Definition UnmarshalPlacementRecord (data : bytes) : result PlacementRecord :=
  let! d := newDecoder data in
  let! (state, d) := Decoder.u8 d in
  let! (storageClass, d) := Decoder.bytes d in
  let! (placedAt, d) := Decoder.i64 d in
  let! (placementTimeKnown, d) := Decoder.bool d in
  let! (size, d) := Decoder.u64 d in
  let! (minRetentionUntil, d) := Decoder.i64 d in
  let! (retentionSource, d) := Decoder.u8 d in
  let! (deleteAfter, d) := Decoder.i64 d in
  let! (lastVerifiedAt, d) := Decoder.i64 d in
  let record := mkPlacementRecord state storageClass placedAt placementTimeKnown size
                  minRetentionUntil retentionSource deleteAfter lastVerifiedAt in
  do! PlacementRecord_validate record;
  do! Decoder.done d;
  Ok record.

Definition PlacementRecord_ok (r : PlacementRecord) : Prop :=
  uint8 (pl_State r) /\ int64 (pl_PlacedAt r) /\ uint64 (pl_Bytes r) /\
  int64 (pl_MinRetentionUntil r) /\ uint8 (pl_RetentionSource r) /\ int64 (pl_DeleteAfter r) /\
  int64 (pl_LastVerifiedAt r).

#[export] Hint Unfold PlacementRecord_fields PlacementRecord_ok : codec.
Arguments PlacementRecord_validate : simpl never.

#[export] Instance PlacementRecord_codec : RecordCodec PlacementRecord := {
  record_ok := PlacementRecord_ok;
  stored := PlacementRecord_normalized;
  marshal := PlacementRecord_MarshalBinary;
  unmarshal := UnmarshalPlacementRecord;
}.

Lemma PlacementRecord_normalized_ok r : PlacementRecord_ok r -> PlacementRecord_ok (PlacementRecord_normalized r).
Proof.
  unfold PlacementRecord_normalized. case_match; [|done]. unfold PlacementRecord_ok, RetentionUnknown.
  cbn -[u_range i_range]. intros; destruct_and?; split_and!; try done; range.
Qed.

#[export] Instance PlacementRecord_RoundTrip : RoundTrip PlacementRecord.
Proof.
  intros r b Hok%PlacementRecord_normalized_ok H. cbn [marshal unmarshal stored PlacementRecord_codec] in *.
  unfold PlacementRecord_MarshalBinary in H. set (r' := PlacementRecord_normalized r) in *. clearbody r'.
  unfold PlacementRecord_ok, PlacementRecord_fields in *. destruct_and?. inv_results. encoded H.
  unfold UnmarshalPlacementRecord. start_decoder. read_fields. destruct r'; cbn in *. pass_guards. done.
Qed.

(** A placement whose retention source is the byte 0 is read as it is and
    written with the explicit unknown source; every other placement is canonical. *)
Lemma PlacementRecord_canonical b r :
  UnmarshalPlacementRecord b = Ok r ->
  PlacementRecord_ok r /\ (pl_RetentionSource r <> 0 -> PlacementRecord_MarshalBinary r = Ok b).
Proof.
  unfold UnmarshalPlacementRecord. intros H. invert_reads.
  split; [typed_fields|].
  cbn [pl_RetentionSource]. intros Hs%Z.eqb_neq. unfold PlacementRecord_MarshalBinary, PlacementRecord_normalized.
  cbn [pl_RetentionSource]. rewrite Hs. pass_guards.
  eapply encode_reads; [eassumption | assemble | eassumption].
Qed.

(** ** Packs of a backend *)

Record BackendPackRecord := mkBackendPackRecord { bp_State : Z; bp_Bytes : Z; bp_PlacedAt : Z }.

Definition BackendPackRecord_MarshalBinary (r : BackendPackRecord) : result bytes :=
  do! guard (negb (validPlacementState (bp_State r))) "invalid backend-pack state";
  encode [U8 (bp_State r); U64 (bp_Bytes r); I64 (bp_PlacedAt r)].

Definition UnmarshalBackendPackRecord (data : bytes) : result BackendPackRecord :=
  let! d := newDecoder data in
  let! (state, d) := Decoder.u8 d in
  let! (size, d) := Decoder.u64 d in
  let! (placedAt, d) := Decoder.i64 d in
  do! guard (negb (validPlacementState state)) "invalid backend-pack state";
  do! Decoder.done d;
  Ok (mkBackendPackRecord state size placedAt).

#[export] Instance BackendPackRecord_codec : RecordCodec BackendPackRecord := {
  record_ok r := uint8 (bp_State r) /\ uint64 (bp_Bytes r) /\ int64 (bp_PlacedAt r);
  stored r := r;
  marshal := BackendPackRecord_MarshalBinary;
  unmarshal := UnmarshalBackendPackRecord;
}.
#[export] Instance BackendPackRecord_RoundTrip : RoundTrip BackendPackRecord.
Proof. round_trip_record BackendPackRecord_MarshalBinary UnmarshalBackendPackRecord. Qed.
#[export] Instance BackendPackRecord_Canonical : Canonical BackendPackRecord.
Proof. canonical_record BackendPackRecord_MarshalBinary UnmarshalBackendPackRecord. Qed.

(** ** Queued deletions *)

Record PlacementDeleteRecord := mkPlacementDeleteRecord {
  pd_Backend : Z; pd_PhysicalSize : Z; pd_Reason : bytes; pd_RunID : ID }.

Definition PlacementDeleteRecord_MarshalBinary (r : PlacementDeleteRecord) : result bytes :=
  do! guard (pd_Backend r =? 0) "placement delete queue without backend";
  encode [U64 (pd_Backend r); U64 (pd_PhysicalSize r); Str (pd_Reason r); IDf (pd_RunID r)].

Definition UnmarshalPlacementDeleteRecord (data : bytes) : result PlacementDeleteRecord :=
  let! d := newDecoder data in
  let! (backend, d) := Decoder.u64 d in
  let! (physicalSize, d) := Decoder.u64 d in
  let! (reason, d) := Decoder.bytes d in
  let! (runID, d) := Decoder.id d in
  do! guard (backend =? 0) "placement delete queue without backend";
  do! Decoder.done d;
  Ok (mkPlacementDeleteRecord backend physicalSize reason runID).

#[export] Instance PlacementDeleteRecord_codec : RecordCodec PlacementDeleteRecord := {
  record_ok r := uint64 (pd_Backend r) /\ uint64 (pd_PhysicalSize r) /\ id_ok (pd_RunID r);
  stored r := r;
  marshal := PlacementDeleteRecord_MarshalBinary;
  unmarshal := UnmarshalPlacementDeleteRecord;
}.
#[export] Instance PlacementDeleteRecord_RoundTrip : RoundTrip PlacementDeleteRecord.
Proof. round_trip_record PlacementDeleteRecord_MarshalBinary UnmarshalPlacementDeleteRecord. Qed.
#[export] Instance PlacementDeleteRecord_Canonical : Canonical PlacementDeleteRecord.
Proof. canonical_record PlacementDeleteRecord_MarshalBinary UnmarshalPlacementDeleteRecord. Qed.

(** ** Promotion eligibility and repack lineage *)

Record PromotionEligibilityRecord := mkPromotionEligibilityRecord {
  pe_SurvivalUntil : Z; pe_EvaluatedAt : Z; pe_Indefinite : bool }.

Definition invalid_eligibility (survivalUntil evaluatedAt : Z) (indefinite : bool) : bool :=
  (evaluatedAt <=? 0) || (negb indefinite && (survivalUntil <=? 0)).

Definition PromotionEligibilityRecord_MarshalBinary (r : PromotionEligibilityRecord) : result bytes :=
  do! guard (invalid_eligibility (pe_SurvivalUntil r) (pe_EvaluatedAt r) (pe_Indefinite r))
        "invalid promotion eligibility";
  encode [I64 (pe_SurvivalUntil r); I64 (pe_EvaluatedAt r); Bool (pe_Indefinite r)].

Definition UnmarshalPromotionEligibilityRecord (data : bytes) : result PromotionEligibilityRecord :=
  let! d := newDecoder data in
  let! (survivalUntil, d) := Decoder.i64 d in
  let! (evaluatedAt, d) := Decoder.i64 d in
  let! (indefinite, d) := Decoder.bool d in
  do! guard (invalid_eligibility survivalUntil evaluatedAt indefinite) "invalid promotion eligibility";
  do! Decoder.done d;
  Ok (mkPromotionEligibilityRecord survivalUntil evaluatedAt indefinite).

#[export] Instance PromotionEligibilityRecord_codec : RecordCodec PromotionEligibilityRecord := {
  record_ok r := int64 (pe_SurvivalUntil r) /\ int64 (pe_EvaluatedAt r);
  stored r := r;
  marshal := PromotionEligibilityRecord_MarshalBinary;
  unmarshal := UnmarshalPromotionEligibilityRecord;
}.
#[export] Instance PromotionEligibilityRecord_RoundTrip : RoundTrip PromotionEligibilityRecord.
Proof. round_trip_record PromotionEligibilityRecord_MarshalBinary UnmarshalPromotionEligibilityRecord. Qed.
#[export] Instance PromotionEligibilityRecord_Canonical : Canonical PromotionEligibilityRecord.
Proof. canonical_record PromotionEligibilityRecord_MarshalBinary UnmarshalPromotionEligibilityRecord. Qed.

Definition LineageRepack : Z := 1.
Definition LineagePromotion : Z := 2.

Record RepackLineageRecord := mkRepackLineageRecord { rl_RunID : ID; rl_Kind : Z }.

Definition invalid_lineage_kind (kind : Z) : bool :=
  negb (kind =? LineageRepack) && negb (kind =? LineagePromotion).

Definition RepackLineageRecord_MarshalBinary (r : RepackLineageRecord) : result bytes :=
  encode [IDf (rl_RunID r);
          Refuse (invalid_lineage_kind (rl_Kind r)) "invalid repack lineage kind";
          U8 (rl_Kind r)].

Definition UnmarshalRepackLineageRecord (data : bytes) : result RepackLineageRecord :=
  let! d := newDecoder data in
  let! (runID, d) := Decoder.id d in
  let! (kind, d) := Decoder.u8 d in
  do! guard (invalid_lineage_kind kind) "invalid repack lineage kind";
  do! Decoder.done d;
  Ok (mkRepackLineageRecord runID kind).

#[export] Instance RepackLineageRecord_codec : RecordCodec RepackLineageRecord := {
  record_ok r := id_ok (rl_RunID r) /\ uint8 (rl_Kind r);
  stored r := r;
  marshal := RepackLineageRecord_MarshalBinary;
  unmarshal := UnmarshalRepackLineageRecord;
}.
#[export] Instance RepackLineageRecord_RoundTrip : RoundTrip RepackLineageRecord.
Proof. round_trip_record RepackLineageRecord_MarshalBinary UnmarshalRepackLineageRecord. Qed.
#[export] Instance RepackLineageRecord_Canonical : Canonical RepackLineageRecord.
Proof. canonical_record RepackLineageRecord_MarshalBinary UnmarshalRepackLineageRecord. Qed.

(** ** Placement requests *)

Definition PlacementRequestPlace : Z := 1.
Definition PlacementRequestPromote : Z := 2.
Definition PlacementRequestEvict : Z := 3.
Definition validPlacementRequestOperation (operation : Z) : bool :=
  between PlacementRequestPlace PlacementRequestEvict operation.

Record PlacementRequestRecord := mkPlacementRequestRecord {
  rq_Classes : list bytes;
  rq_Operation : Z;
  rq_TargetBackend : Z;
  rq_Attempts : Z;
  rq_LastAttempt : Z;
  rq_NotBefore : Z;
  rq_LastError : bytes;
}.

Definition class_fields (class : bytes) : list field :=
  [Refuse (bytes_eqb class []) "empty placement request class"; Str class].

Definition PlacementRequestRecord_MarshalBinary (r : PlacementRequestRecord) : result bytes :=
  do! guard (zlen (rq_Classes r) =? 0) "placement request requires at least one class";
  do! guard (negb (validPlacementRequestOperation (rq_Operation r)) || (rq_TargetBackend r =? 0))
        "placement request requires an operation and target backend";
  encode (U32 (zlen (rq_Classes r)) :: concat (map class_fields (rq_Classes r)) ++
    [U8 (rq_Operation r); U64 (rq_TargetBackend r); U32 (rq_Attempts r); I64 (rq_LastAttempt r);
     I64 (rq_NotBefore r); Str (rq_LastError r)]).

Definition read_class (d : Decoder.decoder) : result (bytes * Decoder.decoder) :=
  let! (class, d) := Decoder.bytes d in
  do! guard (bytes_eqb class []) "empty placement request class";
  Ok (class, d).

Definition UnmarshalPlacementRequestRecord (data : bytes) : result PlacementRequestRecord :=
  let! d := newDecoder data in
  let! (count, d) := Decoder.u32 d in
  do! guard ((count =? 0) || (1024 <? count)) "invalid placement request class count";
  let! (classes, d) := many (Z.to_nat count) read_class d in
  let! (operation, d) := Decoder.u8 d in
  let! (targetBackend, d) := Decoder.u64 d in
  let! (attempts, d) := Decoder.u32 d in
  let! (lastAttempt, d) := Decoder.i64 d in
  let! (notBefore, d) := Decoder.i64 d in
  let! (lastError, d) := Decoder.bytes d in
  do! guard (negb (validPlacementRequestOperation operation) || (targetBackend =? 0))
        "invalid placement request operation or backend";
  do! Decoder.done d;
  Ok (mkPlacementRequestRecord classes operation targetBackend attempts lastAttempt notBefore lastError).

Definition PlacementRequestRecord_ok (r : PlacementRequestRecord) : Prop :=
  zlen (rq_Classes r) <= 1024 /\ uint8 (rq_Operation r) /\ uint64 (rq_TargetBackend r) /\
  uint32 (rq_Attempts r) /\ int64 (rq_LastAttempt r) /\ int64 (rq_NotBefore r).

#[export] Hint Unfold PlacementRequestRecord_ok class_fields : codec.

(** The decoder refuses more than 1024 classes, which the encoder does not; the
    limit is part of [record_ok]. *)
#[export] Instance PlacementRequestRecord_codec : RecordCodec PlacementRequestRecord := {
  record_ok := PlacementRequestRecord_ok;
  stored r := r;
  marshal := PlacementRequestRecord_MarshalBinary;
  unmarshal := UnmarshalPlacementRequestRecord;
}.

Lemma read_class_wires t class gs :
  forallb writable (class_fields class) = true ->
  read_class (Decoder.mk t (wires (class_fields class ++ gs))) = Ok (class, Decoder.mk t (wires gs)).
Proof.
  intros Hw. unfold class_fields in *. written Hw. cbn [app]. unfold read_class. read_fields.
  by pass_guards.
Qed.

Lemma read_class_inv d class d' :
  read_class d = Ok (class, d') -> reads d (class_fields class) d' /\ True.
Proof. unfold read_class. intros H. invert_reads. split; [assemble | done]. Qed.

#[export] Instance PlacementRequestRecord_RoundTrip : RoundTrip PlacementRequestRecord.
Proof.
  intros r b Hok H. cbn [marshal unmarshal stored record_ok PlacementRequestRecord_codec] in *.
  unfold PlacementRequestRecord_ok in Hok. destruct_and?.
  unfold PlacementRequestRecord_MarshalBinary in H. inv_results. encoded H. split_bools.
  assert (uint32 (zlen (rq_Classes r))) by (nonnegs; range).
  unfold UnmarshalPlacementRequestRecord. start_decoder. read_fields. decide_guard.
  rewrite (many_round_trip _ class_fields (fun _ => True))
    by (auto using read_class_wires, Forall_true). cbn [rbind].
  read_fields. decide_guard. by destruct r.
Qed.

#[export] Instance PlacementRequestRecord_Canonical : Canonical PlacementRequestRecord.
Proof.
  intros b r H. cbn [marshal unmarshal record_ok PlacementRequestRecord_codec] in *.
  unfold UnmarshalPlacementRequestRecord in H. invert_reads. read_list read_class_inv.
  split_bools. split; [typed_fields|]. unfold PlacementRequestRecord_MarshalBinary.
  cbn -[u_range i_range id_ok zlen encode guard rbind Z.eqb]. decide_guard. decide_guard.
  eapply encode_reads; [eassumption | assemble | eassumption].
Qed.

(** ** Packs *)

Definition PackImported : Z := 1.
Definition PackPublished : Z := 2.
Definition PackExportPending : Z := 3.
Definition PackDeletePending : Z := 4.
Definition PackDeleted : Z := 5.
Definition PackOrphaned : Z := 6.
Definition PackStateUnknown : Z := 7.
Definition validPackLifecycle (value : Z) : bool := between PackImported PackStateUnknown value.

Record PackRecord := mkPackRecord {
  pk_Type : Z;
  pk_PhysicalSize : Z;
  pk_PayloadSize : Z;
  pk_HeaderSize : Z;
  pk_BlobCount : Z;
  pk_PhysicalSizeKnown : bool;
  pk_CreationTime : Z;
  pk_CreationTimeKnown : bool;
  pk_Lifecycle : Z;
  pk_SourceIndexIDs : list ID;
  pk_Tier : Z;
  pk_StorageClass : bytes;
  pk_MinRetentionUntil : Z;
  pk_RetentionSource : Z;
  pk_UsedPayloadBytes : Z;
  pk_UnusedPayloadBytes : Z;
  pk_UsageKnown : bool;
  pk_DeleteAfter : Z;
}.

Definition PackRecord_normalized (r : PackRecord) : PackRecord :=
  let r := if pk_Tier r =? 0 then r <| pk_Tier := TierUnknown |> else r in
  if pk_RetentionSource r =? 0 then r <| pk_RetentionSource := RetentionUnknown |> else r.

Definition PackRecord_validatePackLifetime (r : PackRecord) : result unit :=
  do! guard (negb (validPackTier (pk_Tier r)) || negb (validRetentionSource (pk_RetentionSource r)))
        "invalid pack tier state";
  do! guard ((pk_RetentionSource r =? RetentionUnknown) && negb (pk_MinRetentionUntil r =? 0))
        "retention deadline without a source";
  do! guard (negb (pk_RetentionSource r =? RetentionUnknown) && negb (pk_CreationTimeKnown r))
        "retention deadline without a known creation time";
  do! guard (negb (pk_CreationTimeKnown r) && negb (pk_CreationTime r =? 0))
        "creation time without a known flag";
  do! guard (negb (pk_UsageKnown r)
             && (negb (pk_UsedPayloadBytes r =? 0) || negb (pk_UnusedPayloadBytes r =? 0)))
        "usage accounting without a known flag";
  if pk_UsageKnown r then
    guard (match add (pk_UsedPayloadBytes r) (pk_UnusedPayloadBytes r) with
           | Some total => negb (total =? pk_PayloadSize r)
           | None => true
           end) "usage accounting does not sum to the payload size"
  else Ok tt.

Definition invalid_size_state (r : PackRecord) : bool :=
  let known := pk_PhysicalSizeKnown r in
  (negb known && (negb (pk_PhysicalSize r =? 0) || negb (pk_HeaderSize r =? 0)))
  || (known && (pk_PayloadSize r <=? pk_PhysicalSize r)
      && negb (pk_HeaderSize r =? pk_PhysicalSize r - pk_PayloadSize r))
  || (known && (pk_PhysicalSize r <? pk_PayloadSize r) && negb (pk_HeaderSize r =? 0)).

(** The checks both halves of the codec make. *)
Definition PackRecord_validate (r : PackRecord) : result unit :=
  do! guard (negb (validPackType (pk_Type r)) || negb (validPackLifecycle (pk_Lifecycle r)))
        "invalid pack classification";
  do! guard (invalid_size_state r) "invalid pack size state";
  PackRecord_validatePackLifetime r.

(** The fields of the first format, and those appended since. *)
Definition PackRecord_base_fields (r : PackRecord) : list field :=
  [U8 (pk_Type r); U64 (pk_PhysicalSize r); U64 (pk_PayloadSize r); U64 (pk_HeaderSize r);
   U64 (pk_BlobCount r); I64 (pk_CreationTime r); Bool (pk_CreationTimeKnown r);
   U8 (pk_Lifecycle r); U32 (zlen (pk_SourceIndexIDs r))] ++ concat (map (fun id => [IDf id]) (pk_SourceIndexIDs r)).
Definition PackRecord_tier_fields (r : PackRecord) : list field :=
  [U8 (pk_Tier r); Str (pk_StorageClass r); I64 (pk_MinRetentionUntil r); U8 (pk_RetentionSource r);
   Bool (pk_UsageKnown r); U64 (pk_UsedPayloadBytes r); U64 (pk_UnusedPayloadBytes r);
   I64 (pk_DeleteAfter r)].

Definition PackRecord_MarshalBinary (r : PackRecord) : result bytes :=
  let r := PackRecord_normalized r in
  do! PackRecord_validate r;
  encode (PackRecord_base_fields r ++ Bool (pk_PhysicalSizeKnown r) :: PackRecord_tier_fields r).

Definition UnmarshalPackRecord (data : bytes) : result PackRecord :=
  let! d := newDecoder data in
  let! (type, d) := Decoder.u8 d in
  let! (physicalSize, d) := Decoder.u64 d in
  let! (payloadSize, d) := Decoder.u64 d in
  let! (headerSize, d) := Decoder.u64 d in
  let! (blobCount, d) := Decoder.u64 d in
  let! (creationTime, d) := Decoder.i64 d in
  let! (creationTimeKnown, d) := Decoder.bool d in
  let! (lifecycle, d) := Decoder.u8 d in
  let! (count, d) := Decoder.u32 d in
  do! guard (zlen data <? count * 32) "invalid provenance count";
  let! (sourceIndexIDs, d) := many (Z.to_nat count) Decoder.id d in
  let! (physicalSizeKnown, d) :=
    if more d then Decoder.bool d else Ok (negb (physicalSize =? 0), d) in
  let base := mkPackRecord type physicalSize payloadSize headerSize blobCount physicalSizeKnown
                creationTime creationTimeKnown lifecycle sourceIndexIDs
                TierUnknown [] 0 RetentionUnknown 0 0 false 0 in
  let! (record, d) :=
    if more d then
      let! (tier, d) := Decoder.u8 d in
      let! (storageClass, d) := Decoder.bytes d in
      let! (minRetentionUntil, d) := Decoder.i64 d in
      let! (retentionSource, d) := Decoder.u8 d in
      let! (usageKnown, d) := Decoder.bool d in
      let! (usedPayloadBytes, d) := Decoder.u64 d in
      let! (unusedPayloadBytes, d) := Decoder.u64 d in
      let! (deleteAfter, d) := Decoder.i64 d in
      Ok (mkPackRecord type physicalSize payloadSize headerSize blobCount physicalSizeKnown
            creationTime creationTimeKnown lifecycle sourceIndexIDs tier storageClass
            minRetentionUntil retentionSource usedPayloadBytes unusedPayloadBytes usageKnown
            deleteAfter, d)
    else Ok (base, d) in
  do! PackRecord_validate record;
  do! Decoder.done d;
  Ok record.

Definition PackRecord_ok (r : PackRecord) : Prop :=
  uint8 (pk_Type r) /\ uint64 (pk_PhysicalSize r) /\ uint64 (pk_PayloadSize r) /\
  uint64 (pk_HeaderSize r) /\ uint64 (pk_BlobCount r) /\ int64 (pk_CreationTime r) /\
  uint8 (pk_Lifecycle r) /\ Forall id_ok (pk_SourceIndexIDs r) /\ uint8 (pk_Tier r) /\
  int64 (pk_MinRetentionUntil r) /\ uint8 (pk_RetentionSource r) /\
  uint64 (pk_UsedPayloadBytes r) /\ uint64 (pk_UnusedPayloadBytes r) /\ int64 (pk_DeleteAfter r).

#[export] Hint Unfold PackRecord_ok PackRecord_base_fields PackRecord_tier_fields : codec.
Arguments PackRecord_validate : simpl never.

#[export] Instance PackRecord_codec : RecordCodec PackRecord := {
  record_ok := PackRecord_ok;
  stored := PackRecord_normalized;
  marshal := PackRecord_MarshalBinary;
  unmarshal := UnmarshalPackRecord;
}.

Lemma PackRecord_normalized_ok r : PackRecord_ok r -> PackRecord_ok (PackRecord_normalized r).
Proof.
  intros H. unfold PackRecord_ok in *. destruct_and?. unfold PackRecord_normalized.
  repeat case_match; cbn -[u_range i_range]; split_and!; try done; unfold TierUnknown, RetentionUnknown; range.
Qed.

Lemma read_id_wires t id gs :
  id_ok id -> forallb writable [IDf id] = true ->
  Decoder.id (Decoder.mk t (wires ([IDf id] ++ gs))) = Ok (id, Decoder.mk t (wires gs)).
Proof. intros Hid _. cbn [app]. by rewrite id_wires. Qed.

Lemma read_id_inv d id d' : Decoder.id d = Ok (id, d') -> reads d [IDf id] d' /\ id_ok id.
Proof. intros H%id_inv. split; [done|]. apply (reads_typed _ _ _ H). Qed.

Lemma id_size id : id_ok id -> 32 <= zlen (wires [IDf id]).
Proof. intros Hid. sizes. Qed.

#[export] Instance PackRecord_RoundTrip : RoundTrip PackRecord.
Proof.
  intros r b Hok%PackRecord_normalized_ok H. cbn [marshal unmarshal stored PackRecord_codec] in *.
  unfold PackRecord_MarshalBinary in H. set (r' := PackRecord_normalized r) in *. clearbody r'.
  unfold PackRecord_ok, PackRecord_base_fields, PackRecord_tier_fields in *. destruct_and?.
  inv_results. rewrite <- app_assoc in H. encoded H.
  match goal with Hids : Forall id_ok _ |- _ =>
    pose proof (wires_concat_length _ _ 32 _ id_size Hids) as Hsize end.
  assert (uint32 (zlen (pk_SourceIndexIDs r'))) by sizes.
  unfold UnmarshalPackRecord. start_decoder. cbn [app]. read_fields. decide_guard.
  rewrite (many_round_trip _ (fun id => [IDf id]) id_ok) by auto using read_id_wires. cbn [rbind].
  read_fields. destruct r'; cbn in *. pass_guards. done.
Qed.

Definition PackRecord_fields (r : PackRecord) : list field :=
  PackRecord_base_fields r ++ Bool (pk_PhysicalSizeKnown r) :: PackRecord_tier_fields r.

(** The fields an older writer left out, with the values the decoder supplies. *)
Definition no_tier_fields : list field :=
  [U8 TierUnknown; Str []; I64 0; U8 RetentionUnknown; Bool false; U64 0; U64 0; I64 0].
Definition PackRecord_missing (r : PackRecord) : list (list field) :=
  [[]; no_tier_fields; Bool (negb (pk_PhysicalSize r =? 0)) :: no_tier_fields].

Lemma validate_normal r u : PackRecord_validate r = Ok u -> PackRecord_normalized r = r.
Proof.
  unfold PackRecord_validate, PackRecord_validatePackLifetime. intros H. inv_results.
  unfold validPackTier, validRetentionSource, TierUnknown, RetentionUnknown in *. split_bools.
  repeat match goal with H : between _ _ _ = true |- _ => apply andb_true_iff in H; destruct H end.
  split_bools. unfold PackRecord_normalized.
  destruct (Z.eqb_spec (pk_Tier r) 0), (Z.eqb_spec (pk_RetentionSource r) 0); lia || done.
Qed.

(** What the decoder accepts is the current encoding of the record it returns,
    or that encoding without the fields added since the value was written. *)
Lemma PackRecord_prefix b r :
  UnmarshalPackRecord b = Ok r ->
  PackRecord_ok r /\ PackRecord_normalized r = r /\ is_ok (PackRecord_validate r) = true /\
  exists missing, In missing (PackRecord_missing r) /\
    z2b Version :: wires (PackRecord_fields r) = b ++ wires missing.
Proof.
  unfold UnmarshalPackRecord. intros H. invert_reads. read_list read_id_inv.
  match goal with V : PackRecord_validate ?r = Ok _ |- _ => pose proof (validate_normal _ _ V); rewrite V end.
  destruct (more d8) eqn:M8; [|injection E11 as <- <-; rewrite M8 in E12].
  1: destruct (more d9) eqn:M9.
  all: invert_reads; split; [typed_fields|]; split; [done|]; split; [done|].
  all: unfold PackRecord_missing, PackRecord_fields; cbn [pk_PhysicalSize pk_PhysicalSizeKnown].
  - exists []. split; [by left|]. by read_in_full.
  - exists no_tier_fields. split; [by right; left|]. rewrite cons_middle, app_assoc.
    by read_prefix.
  - eexists. split; [right; right; left; reflexivity|]. by read_prefix.
Qed.

(** ** Pack aggregates *)

Record PackAggregate := mkPackAggregate {
  pa_PackCount : Z;
  pa_PhysicalSize : Z;
  pa_PayloadSize : Z;
  pa_HeaderSize : Z;
  pa_BlobCount : Z;
  pa_UpdateSequence : Z;
  pa_UsedPayloadBytes : Z;
  pa_UnusedPayloadBytes : Z;
  pa_AccountedPackCount : Z;
}.

Definition PackAggregate_base_fields (r : PackAggregate) : list field :=
  [U64 (pa_PackCount r); U64 (pa_PhysicalSize r); U64 (pa_PayloadSize r); U64 (pa_HeaderSize r);
   U64 (pa_BlobCount r); U64 (pa_UpdateSequence r)].
Definition PackAggregate_usage_fields (r : PackAggregate) : list field :=
  [U64 (pa_UsedPayloadBytes r); U64 (pa_UnusedPayloadBytes r); U64 (pa_AccountedPackCount r)].

Definition PackAggregate_MarshalBinary (r : PackAggregate) : result bytes :=
  encode (PackAggregate_base_fields r ++ PackAggregate_usage_fields r).

Definition UnmarshalPackAggregate (data : bytes) : result PackAggregate :=
  let! d := newDecoder data in
  let! (packCount, d) := Decoder.u64 d in
  let! (physicalSize, d) := Decoder.u64 d in
  let! (payloadSize, d) := Decoder.u64 d in
  let! (headerSize, d) := Decoder.u64 d in
  let! (blobCount, d) := Decoder.u64 d in
  let! (updateSequence, d) := Decoder.u64 d in
  let! (record, d) :=
    if more d then
      let! (used, d) := Decoder.u64 d in
      let! (unused, d) := Decoder.u64 d in
      let! (accounted, d) := Decoder.u64 d in
      Ok (mkPackAggregate packCount physicalSize payloadSize headerSize blobCount updateSequence
            used unused accounted, d)
    else Ok (mkPackAggregate packCount physicalSize payloadSize headerSize blobCount updateSequence
               0 0 0, d) in
  do! Decoder.done d;
  Ok record.

Definition PackAggregate_ok (r : PackAggregate) : Prop :=
  uint64 (pa_PackCount r) /\ uint64 (pa_PhysicalSize r) /\ uint64 (pa_PayloadSize r) /\
  uint64 (pa_HeaderSize r) /\ uint64 (pa_BlobCount r) /\ uint64 (pa_UpdateSequence r) /\
  uint64 (pa_UsedPayloadBytes r) /\ uint64 (pa_UnusedPayloadBytes r) /\
  uint64 (pa_AccountedPackCount r).

#[export] Hint Unfold PackAggregate_ok PackAggregate_base_fields PackAggregate_usage_fields : codec.

#[export] Instance PackAggregate_codec : RecordCodec PackAggregate := {
  record_ok := PackAggregate_ok;
  stored r := r;
  marshal := PackAggregate_MarshalBinary;
  unmarshal := UnmarshalPackAggregate;
}.

#[export] Instance PackAggregate_RoundTrip : RoundTrip PackAggregate.
Proof.
  intros r b Hok H. cbn [marshal unmarshal stored record_ok PackAggregate_codec] in *.
  unfold PackAggregate_ok, PackAggregate_MarshalBinary, PackAggregate_base_fields,
    PackAggregate_usage_fields in *.
  destruct_and?. encoded H. unfold UnmarshalPackAggregate. start_decoder. cbn [app]. read_fields.
  by destruct r.
Qed.

Lemma PackAggregate_prefix b r :
  UnmarshalPackAggregate b = Ok r ->
  PackAggregate_ok r /\
  exists missing, In missing [[]; [U64 0; U64 0; U64 0]] /\
    z2b Version :: wires (PackAggregate_base_fields r ++ PackAggregate_usage_fields r) = b ++ wires missing.
Proof.
  unfold UnmarshalPackAggregate. intros H. invert_reads.
  match goal with E : (if more ?d then _ else _) = _ |- _ => destruct (more d) eqn:M end; invert_reads.
  all: split; [typed_fields|].
  - exists []. split; [by left|]. by read_in_full.
  - eexists. split; [right; left; reflexivity|]. by read_prefix.
Qed.

(** ** Current pointers *)

Record CurrentPointer := mkCurrentPointer { cp_Revision : Z; cp_RecordKey : bytes }.

Definition pointer_mismatch (revision : Z) (key : bytes) : bool :=
  match ParseKey key with
  | Err _ => true
  | Ok parsed =>
      match PK.Kind parsed with
      | KeyInodeRevision | KeyDirectoryRevision => negb (PK.Revision parsed =? revision)
      | _ => true
      end
  end.
Arguments pointer_mismatch : simpl never.

Definition CurrentPointer_MarshalBinary (r : CurrentPointer) : result bytes :=
  do! guard (cp_Revision r =? 0) "zero revision";
  do! guard (pointer_mismatch (cp_Revision r) (cp_RecordKey r)) "current pointer target mismatch";
  encode [U64 (cp_Revision r); Str (cp_RecordKey r)].

Definition UnmarshalCurrentPointer (data : bytes) : result CurrentPointer :=
  let! d := newDecoder data in
  let! (revision, d) := Decoder.u64 d in
  do! guard (revision =? 0) "invalid current revision";
  let! (key, d) := Decoder.bytes d in
  do! guard (pointer_mismatch revision key) "current pointer target mismatch";
  do! Decoder.done d;
  Ok (mkCurrentPointer revision key).

#[export] Instance CurrentPointer_codec : RecordCodec CurrentPointer := {
  record_ok r := uint64 (cp_Revision r);
  stored r := r;
  marshal := CurrentPointer_MarshalBinary;
  unmarshal := UnmarshalCurrentPointer;
}.
#[export] Instance CurrentPointer_RoundTrip : RoundTrip CurrentPointer.
Proof.
  intros r b Hok H. cbn [marshal unmarshal stored record_ok CurrentPointer_codec] in *.
  unfold CurrentPointer_MarshalBinary in H. inv_results. encoded H.
  unfold UnmarshalCurrentPointer. start_decoder. read_fields. pass_guards. read_fields. pass_guards.
  by destruct r.
Qed.
#[export] Instance CurrentPointer_Canonical : Canonical CurrentPointer.
Proof. canonical_record CurrentPointer_MarshalBinary UnmarshalCurrentPointer. Qed.
