(* ===== verification/InodeRecords.v ===== *)
(** * Inode and analytics-fact records ([internal/index/schema/records_inode.go]) *)
From stdpp Require Import base list numbers strings.
From Stdlib Require Import ZArith Lia.
From S2P Require Import Prelude Codec Keys KeyParse Records.
Import Decoder (newDecoder, more, many).

Definition ContentNone : Z := 0.
Definition ContentInline : Z := 1.
Definition ContentManifestRef : Z := 2.
Definition MaxInlineContentIDs : Z := 128.
Definition MaxContentIDs : Z := 1000000.

Definition FreshnessUnknown : Z := 0.
Definition FreshnessImported : Z := 1.
Definition FreshnessVerified : Z := 2.

Definition KnownMTime : Z := 1.
Definition KnownCTime : Z := 2.
Definition KnownSize : Z := 4.
Definition KnownMode : Z := 8.
Definition KnownUID : Z := 16.
Definition KnownGID : Z := 32.
Definition KnownParent : Z := 64.
Definition KnownPath : Z := 128.
Definition knownFieldMask : Z := 255.

(** [known &^ knownFieldMask != 0] *)
Definition unknown_bits (known : Z) : bool := negb (Z.ldiff known knownFieldMask =? 0).

Lemma unknown_bits_range known : 0 <= known -> unknown_bits known = false -> known < 256.
Proof.
  unfold unknown_bits, knownFieldMask. intros Hk H%negb_false_iff%Z.eqb_eq.
  change 255 with (Z.ones 8) in H. rewrite Z.ldiff_ones_r in H by lia.
  assert (Z.shiftr known 8 = 0) as E by (apply Z.shiftl_eq_0_iff in H; lia).
  rewrite Z.shiftr_div_pow2 in E by lia. change (2 ^ 8) with 256 in E.
  pose proof (Z.div_mod known 256). pose proof (Z.mod_pos_bound known 256). lia.
Qed.

Lemma known_read d known d' :
  reads d [U32 known] d' -> unknown_bits known = false -> wrap_u 16 known = known /\ uint16 known.
Proof.
  intros T%reads_typed H%unknown_bits_range; cbn in T; [|range].
  split; [apply wrap_u_small|]; range.
Qed.

(** A mask of known fields that was read is unchanged by the conversion to 16 bits. *)
Ltac read_known :=
  match goal with
  | R : reads _ [U32 ?k] _, U : unknown_bits ?k = false |- _ =>
      let E := fresh "E" in destruct (known_read _ _ _ R U) as [E ?]; rewrite ?E in *
  end.

(** ** Inode revisions *)

Record InodeRevision := mkInodeRevision {
  in_ParentInode : Z;
  in_HasMultipleParents : bool;
  in_MTime : Z;
  in_CTime : Z;
  in_Size : Z;
  in_Mode : Z;
  in_UID : Z;
  in_GID : Z;
  in_Known : Z;
  in_ContentMode : Z;
  in_ContentIDs : list ID;
  in_ContentManifestID : ID;
  in_ContentCount : Z;
  in_FileContentHash : ID;
  in_HashKnown : bool;
  in_SourcePath : bytes;
  in_Freshness : Z;
}.

Definition validContentState (mode count : Z) (ids : list ID) (manifestID : ID) : bool :=
  if mode =? ContentNone then (count =? 0) && (zlen ids =? 0) && is_zero_id manifestID
  else if mode =? ContentInline then
    (0 <? count) && (count <=? MaxInlineContentIDs) && (count =? zlen ids) && is_zero_id manifestID
  else if mode =? ContentManifestRef then
    (MaxInlineContentIDs <? count) && (count <=? MaxContentIDs) && (zlen ids =? 0)
    && negb (is_zero_id manifestID)
  else false.

(** The content identifiers written for each content mode. *)
Definition content_fields (mode : Z) (ids : list ID) (manifestID : ID) : list field :=
  if mode =? ContentInline then concat (map (fun id => [IDf id]) ids)
  else if mode =? ContentManifestRef then [IDf manifestID]
  else [].

Definition InodeRevision_MarshalBinary (r : InodeRevision) : result bytes :=
  do! guard ((FreshnessVerified <? in_Freshness r) || (ContentManifestRef <? in_ContentMode r)
             || unknown_bits (in_Known r)) "invalid inode state";
  do! guard (negb (validContentState (in_ContentMode r) (in_ContentCount r) (in_ContentIDs r)
                     (in_ContentManifestID r))) "invalid inode content state";
  encode
    ([U64 (in_ParentInode r); Bool (in_HasMultipleParents r); I64 (in_MTime r); I64 (in_CTime r);
      U64 (in_Size r); U32 (in_Mode r); U32 (in_UID r); U32 (in_GID r); U32 (in_Known r);
      U8 (in_ContentMode r); U32 (in_ContentCount r)] ++
     content_fields (in_ContentMode r) (in_ContentIDs r) (in_ContentManifestID r) ++
     [IDf (in_FileContentHash r); Bool (in_HashKnown r); Str (in_SourcePath r); U8 (in_Freshness r)]).

(** The content identifiers read for each content mode. *)
Definition read_content (size mode count : Z) (d : Decoder.decoder)
  : result ((list ID * ID) * Decoder.decoder) :=
  if mode =? ContentInline then
    do! guard ((count =? 0) || (MaxInlineContentIDs <? count) || (size <? count * 32))
          "invalid inline content count";
    let! (ids, d) := many (Z.to_nat count) Decoder.id d in
    Ok ((ids, zero_id), d)
  else if mode =? ContentManifestRef then
    let! (manifestID, d) := Decoder.id d in
    Ok (([], manifestID), d)
  else
    do! guard (negb (mode =? ContentNone)) "invalid content mode";
    Ok (([], zero_id), d).

Definition UnmarshalInodeRevision (data : bytes) : result InodeRevision :=
  let! d := newDecoder data in
  let! (parentInode, d) := Decoder.u64 d in
  let! (hasMultipleParents, d) := Decoder.bool d in
  let! (mtime, d) := Decoder.i64 d in
  let! (ctime, d) := Decoder.i64 d in
  let! (size, d) := Decoder.u64 d in
  let! (mode, d) := Decoder.u32 d in
  let! (uid, d) := Decoder.u32 d in
  let! (gid, d) := Decoder.u32 d in
  let! (known, d) := Decoder.u32 d in
  do! guard (unknown_bits known) "invalid known-field mask";
  let! (contentMode, d) := Decoder.u8 d in
  let! (contentCount, d) := Decoder.u32 d in
  let! ((contentIDs, contentManifestID), d) := read_content (zlen data) contentMode contentCount d in
  do! guard (negb (validContentState contentMode contentCount contentIDs contentManifestID))
        "invalid inode content state";
  let! (fileContentHash, d) := Decoder.id d in
  let! (hashKnown, d) := Decoder.bool d in
  let! (sourcePath, d) := Decoder.bytes d in
  let! (freshness, d) := Decoder.u8 d in
  do! guard (FreshnessVerified <? freshness) "invalid freshness";
  do! Decoder.done d;
  Ok (mkInodeRevision parentInode hasMultipleParents mtime ctime size mode uid gid
        (wrap_u 16 known) contentMode contentIDs contentManifestID contentCount fileContentHash
        hashKnown sourcePath freshness).

Definition InodeRevision_ok (r : InodeRevision) : Prop :=
  uint64 (in_ParentInode r) /\ int64 (in_MTime r) /\ int64 (in_CTime r) /\ uint64 (in_Size r) /\
  uint32 (in_Mode r) /\ uint32 (in_UID r) /\ uint32 (in_GID r) /\ uint16 (in_Known r) /\
  uint8 (in_ContentMode r) /\ Forall id_ok (in_ContentIDs r) /\ id_ok (in_ContentManifestID r) /\
  uint32 (in_ContentCount r) /\ id_ok (in_FileContentHash r) /\ uint8 (in_Freshness r).
#[export] Hint Unfold InodeRevision_ok : codec.

#[export] Instance InodeRevision_codec : RecordCodec InodeRevision := {
  record_ok := InodeRevision_ok;
  stored r := r;
  marshal := InodeRevision_MarshalBinary;
  unmarshal := UnmarshalInodeRevision;
}.

Lemma ids_writable ids : forallb writable (concat (map (fun id => [IDf id]) ids)) = true.
Proof. by induction ids. Qed.

Lemma read_content_wires t size mode count ids manifestID gs :
  Forall id_ok ids -> id_ok manifestID -> validContentState mode count ids manifestID = true ->
  zlen ids * 32 <= size ->
  read_content size mode count (Decoder.mk t (wires (content_fields mode ids manifestID ++ gs))) =
    Ok ((ids, manifestID), Decoder.mk t (wires gs)).
Proof.
  intros Hids Hm Hv Hsize. unfold validContentState, read_content, content_fields in *.
  destruct (Z.eqb_spec mode ContentNone) as [->|]; [|destruct (Z.eqb_spec mode ContentInline) as [->|]];
    [| |destruct (Z.eqb_spec mode ContentManifestRef) as [->|]; [|done]].
  - cbn. split_bools. apply is_zero_id_spec in H0 as ->. by rewrite (zlen_zero ids).
  - split_bools. subst count. decide_guard.
    apply is_zero_id_spec in H0 as ->.
    rewrite (many_round_trip _ (fun id => [IDf id]) id_ok); [done | auto using read_id_wires | done |].
    apply ids_writable.
  - split_bools. cbn [app]. rewrite id_wires by done. by rewrite (zlen_zero ids).
Qed.

Lemma read_content_inv size mode count d ids manifestID d' d0 :
  reads d0 [U32 count] d -> read_content size mode count d = Ok ((ids, manifestID), d') ->
  reads d (content_fields mode ids manifestID) d' /\ Forall id_ok ids /\ id_ok manifestID /\
  mode <= ContentManifestRef.
Proof.
  intros Hc H. unfold read_content, content_fields in *.
  destruct (Z.eqb_spec mode ContentInline) as [->|]; [|destruct (Z.eqb_spec mode ContentManifestRef) as [->|]].
  - invert_reads. read_list read_id_inv. done.
  - invert_reads. split; [done|]. split; [constructor|]. split; [typed_read | done].
  - invert_reads. split_bools. subst mode. split; [apply reads_nil|]. done.
Qed.

Lemma content_size mode count ids manifestID :
  Forall id_ok ids -> validContentState mode count ids manifestID = true ->
  32 * zlen ids <= zlen (wires (content_fields mode ids manifestID)).
Proof.
  intros Hids Hv. unfold validContentState, content_fields in *.
  destruct (Z.eqb_spec mode ContentInline) as [->|].
  - apply (wires_concat_length _ id_ok); [apply id_size | done].
  - assert (ids = []) as ->; [|nonnegs; unfold zlen; cbn; lia].
    apply zlen_zero. repeat case_match; split_bools; done.
Qed.

#[export] Instance InodeRevision_RoundTrip : RoundTrip InodeRevision.
Proof.
  intros r b Hok H. cbn [marshal unmarshal stored record_ok InodeRevision_codec] in *.
  unfold InodeRevision_ok in Hok. destruct_and?. unfold InodeRevision_MarshalBinary in H. inv_results.
  encoded H. split_bools.
  match goal with V : validContentState _ _ _ _ = true, F : Forall id_ok _ |- _ =>
    pose proof (content_size _ _ _ _ F V) end.
  assert (uint32 (in_Known r)) by range.
  unfold UnmarshalInodeRevision. start_decoder. cbn [app]. read_fields. pass_guards. read_fields.
  rewrite read_content_wires by (done || sizes). cbn [rbind]. decide_guard. read_fields. decide_guard.
  rewrite wrap_u_small by done. read_fields. by destruct r.
Qed.

#[export] Instance InodeRevision_Canonical : Canonical InodeRevision.
Proof.
  intros b r H. cbn [marshal unmarshal record_ok InodeRevision_codec] in *.
  unfold UnmarshalInodeRevision in H. invert_reads.
  match goal with p : (list ID * ID)%type |- _ => destruct p end. invert_reads.
  match goal with H : read_content _ _ _ _ = _ |- _ =>
    eapply read_content_inv in H as (? & ? & ? & ?); [|eassumption] end.
  read_known. split; [typed_fields|].
  unfold InodeRevision_MarshalBinary. cbn -[u_range i_range id_ok zlen encode guard rbind Z.ltb validContentState unknown_bits].
  split_bools. decide_guard. decide_guard.
  eapply encode_reads; [eassumption | assemble | eassumption].
Qed.

(** ** Analytics facts *)

Definition AnalyticsCTime : Z := 1.
Definition AnalyticsMTime : Z := 2.
Definition AnalyticsTimeUnknown : Z := 3.
Definition AnalyticsBirthTime : Z := 4.
Definition AnalyticsFirstSeen : Z := 5.
Definition AnalyticsContinuityUnknown : Z := 0.
Definition AnalyticsContinuityProven : Z := 1.
Definition AnalyticsContinuitySourceGeneration : Z := 2.

Record AnalyticsFactRecord := mkAnalyticsFactRecord {
  af_Revision : Z;
  af_UID : Z;
  af_GID : Z;
  af_Known : Z;
  af_CreatedAt : Z;
  af_LogicalSize : Z;
  af_CalendarYear : Z;
  af_CalendarMonth : Z;
  af_ISOYear : Z;
  af_Workweek : Z;
  af_SizeLog10 : Z;
  af_SourcePath : bytes;
  af_SVM : bytes;
  af_Volume : bytes;
  af_PathGroup : bytes;
  af_Residency : Z;
  af_CreationBasis : Z;
  af_IdentityGeneration : Z;
  af_IdentityContinuity : Z;
}.

Definition validAnalyticsFact (r : AnalyticsFactRecord) : bool :=
  if (af_Revision r =? 0) || unknown_bits (af_Known r) || residency_out_of_range (af_Residency r)
     || (af_CreationBasis r <? AnalyticsCTime) || (AnalyticsFirstSeen <? af_CreationBasis r)
     || (AnalyticsContinuitySourceGeneration <? af_IdentityContinuity r)
     || (12 <? af_CalendarMonth r) || (53 <? af_Workweek r) || (19 <? af_SizeLog10 r)
  then false
  else if (af_IdentityContinuity r =? AnalyticsContinuitySourceGeneration)
          && (af_IdentityGeneration r =? 0)
  then false
  else if af_CreationBasis r =? AnalyticsTimeUnknown then
    (af_CreatedAt r =? 0) && (af_CalendarYear r =? 0) && (af_CalendarMonth r =? 0)
    && (af_ISOYear r =? 0) && (af_Workweek r =? 0)
  else if ((af_CreationBasis r =? AnalyticsCTime) && (Z.land (af_Known r) KnownCTime =? 0))
          || ((af_CreationBasis r =? AnalyticsMTime) && (Z.land (af_Known r) KnownMTime =? 0))
  then false
  else negb (af_CreatedAt r =? 0) && negb (af_CalendarYear r =? 0) && (1 <=? af_CalendarMonth r)
       && negb (af_ISOYear r =? 0) && (1 <=? af_Workweek r).
Arguments validAnalyticsFact : simpl never.

Definition AnalyticsFactRecord_base_fields (r : AnalyticsFactRecord) : list field :=
  [U64 (af_Revision r); U32 (af_UID r); U32 (af_GID r); U32 (af_Known r); I64 (af_CreatedAt r);
   U64 (af_LogicalSize r); U32 (wrap_u 32 (af_CalendarYear r)); U8 (af_CalendarMonth r);
   U32 (wrap_u 32 (af_ISOYear r)); U8 (af_Workweek r); U8 (af_SizeLog10 r);
   Str (af_SourcePath r); Str (af_SVM r); Str (af_Volume r); Str (af_PathGroup r);
   U8 (af_Residency r); U8 (af_CreationBasis r)].
Definition AnalyticsFactRecord_identity_fields (r : AnalyticsFactRecord) : list field :=
  [U64 (af_IdentityGeneration r); U8 (af_IdentityContinuity r)].

Definition AnalyticsFactRecord_MarshalBinary (r : AnalyticsFactRecord) : result bytes :=
  do! guard (negb (validAnalyticsFact r)) "invalid analytics fact";
  encode (AnalyticsFactRecord_base_fields r ++ AnalyticsFactRecord_identity_fields r).

Definition UnmarshalAnalyticsFactRecord (data : bytes) : result AnalyticsFactRecord :=
  let! d := newDecoder data in
  let! (revision, d) := Decoder.u64 d in
  let! (uid, d) := Decoder.u32 d in
  let! (gid, d) := Decoder.u32 d in
  let! (known, d) := Decoder.u32 d in
  do! guard (unknown_bits known) "invalid analytics known-field mask";
  let! (createdAt, d) := Decoder.i64 d in
  let! (logicalSize, d) := Decoder.u64 d in
  let! (calendarYear, d) := Decoder.u32 d in
  let! (calendarMonth, d) := Decoder.u8 d in
  let! (isoYear, d) := Decoder.u32 d in
  let! (workweek, d) := Decoder.u8 d in
  let! (sizeLog10, d) := Decoder.u8 d in
  let! (sourcePath, d) := Decoder.bytes d in
  let! (svm, d) := Decoder.bytes d in
  let! (volume, d) := Decoder.bytes d in
  let! (pathGroup, d) := Decoder.bytes d in
  let! (residency, d) := Decoder.u8 d in
  let! (basis, d) := Decoder.u8 d in
  let! ((identityGeneration, identityContinuity), d) :=
    if more d then
      let! (generation, d) := Decoder.u64 d in
      let! (continuity, d) := Decoder.u8 d in
      Ok ((generation, continuity), d)
    else Ok ((0, AnalyticsContinuityUnknown), d) in
  let record := mkAnalyticsFactRecord revision uid gid (wrap_u 16 known) createdAt logicalSize
                  (wrap_i 32 calendarYear) calendarMonth (wrap_i 32 isoYear) workweek sizeLog10
                  sourcePath svm volume pathGroup residency basis identityGeneration
                  identityContinuity in
  do! guard (negb (validAnalyticsFact record)) "invalid analytics fact";
  do! Decoder.done d;
  Ok record.

Definition AnalyticsFactRecord_ok (r : AnalyticsFactRecord) : Prop :=
  uint64 (af_Revision r) /\ uint32 (af_UID r) /\ uint32 (af_GID r) /\ uint16 (af_Known r) /\
  int64 (af_CreatedAt r) /\ uint64 (af_LogicalSize r) /\ int32 (af_CalendarYear r) /\
  uint8 (af_CalendarMonth r) /\ int32 (af_ISOYear r) /\ uint8 (af_Workweek r) /\
  uint8 (af_SizeLog10 r) /\ uint8 (af_Residency r) /\ uint8 (af_CreationBasis r) /\
  uint64 (af_IdentityGeneration r) /\ uint8 (af_IdentityContinuity r).
#[export] Hint Unfold AnalyticsFactRecord_ok AnalyticsFactRecord_base_fields
  AnalyticsFactRecord_identity_fields : codec.

#[export] Instance AnalyticsFactRecord_codec : RecordCodec AnalyticsFactRecord := {
  record_ok := AnalyticsFactRecord_ok;
  stored r := r;
  marshal := AnalyticsFactRecord_MarshalBinary;
  unmarshal := UnmarshalAnalyticsFactRecord;
}.

Lemma validAnalyticsFact_known r : validAnalyticsFact r = true -> unknown_bits (af_Known r) = false.
Proof. unfold validAnalyticsFact. by destruct (unknown_bits (af_Known r)), (af_Revision r =? 0). Qed.

#[export] Instance AnalyticsFactRecord_RoundTrip : RoundTrip AnalyticsFactRecord.
Proof.
  intros r b Hok H. cbn [marshal unmarshal stored record_ok AnalyticsFactRecord_codec] in *.
  unfold AnalyticsFactRecord_ok in Hok. destruct_and?.
  unfold AnalyticsFactRecord_MarshalBinary, AnalyticsFactRecord_base_fields,
    AnalyticsFactRecord_identity_fields in H.
  inv_results. encoded H. apply negb_false_iff in E. pose proof (validAnalyticsFact_known r E).
  assert (uint32 (af_Known r)) by range.
  assert (uint32 (wrap_u 32 (af_CalendarYear r))) by (apply wrap_u_range; lia).
  assert (uint32 (wrap_u 32 (af_ISOYear r))) by (apply wrap_u_range; lia).
  unfold UnmarshalAnalyticsFactRecord. start_decoder. cbn [app]. read_fields. pass_guards. read_fields.
  rewrite wrap_u_small, !wrap_i_wrap_u by (done || lia).
  destruct r; cbn in *. rewrite E. by read_fields.
Qed.

(** What the decoder accepts is the current encoding of the fact it returns, or
    that encoding without the identity fields. *)
Lemma AnalyticsFactRecord_prefix b r :
  UnmarshalAnalyticsFactRecord b = Ok r ->
  AnalyticsFactRecord_ok r /\
  exists missing, In missing [[]; [U64 0; U8 AnalyticsContinuityUnknown]] /\
    z2b Version :: wires (AnalyticsFactRecord_base_fields r ++ AnalyticsFactRecord_identity_fields r)
    = b ++ wires missing.
Proof.
  unfold UnmarshalAnalyticsFactRecord. intros H. invert_reads.
  match goal with p : (Z * Z)%type |- _ => destruct p end. invert_reads. read_known.
  match goal with E : (if more ?d then _ else _) = _ |- _ => destruct (more d) end; invert_reads.
  all: split; [typed_fields|].
  - exists []. split; [by left|]. by read_in_full.
  - eexists. split; [right; left; reflexivity|]. by read_prefix.
Qed.

(** ** Analytics metadata *)

Record AnalyticsMetadataRecord := mkAnalyticsMetadataRecord {
  am_Enabled : bool;
  am_Generation : Z;
  am_Facts : Z;
  am_BuiltAt : Z;
  am_CacheEntries : Z;
  am_ConfigJSON : bytes;
}.

Definition AnalyticsMetadataRecord_MarshalBinary (r : AnalyticsMetadataRecord) : result bytes :=
  do! guard (am_Enabled r && ((am_Generation r =? 0) || (am_BuiltAt r =? 0)))
        "invalid analytics metadata";
  encode [Bool (am_Enabled r); U64 (am_Generation r); U64 (am_Facts r); I64 (am_BuiltAt r);
          U64 (am_CacheEntries r); Str (am_ConfigJSON r)].

Definition UnmarshalAnalyticsMetadataRecord (data : bytes) : result AnalyticsMetadataRecord :=
  let! d := newDecoder data in
  let! (enabled, d) := Decoder.bool d in
  let! (generation, d) := Decoder.u64 d in
  let! (facts, d) := Decoder.u64 d in
  let! (builtAt, d) := Decoder.i64 d in
  let! (cacheEntries, d) := Decoder.u64 d in
  let! (configJSON, d) := Decoder.bytes d in
  do! guard (enabled && ((generation =? 0) || (builtAt =? 0))) "invalid analytics metadata";
  do! Decoder.done d;
  Ok (mkAnalyticsMetadataRecord enabled generation facts builtAt cacheEntries configJSON).

#[export] Instance AnalyticsMetadataRecord_codec : RecordCodec AnalyticsMetadataRecord := {
  record_ok r := uint64 (am_Generation r) /\ uint64 (am_Facts r) /\ int64 (am_BuiltAt r) /\
    uint64 (am_CacheEntries r);
  stored r := r;
  marshal := AnalyticsMetadataRecord_MarshalBinary;
  unmarshal := UnmarshalAnalyticsMetadataRecord;
}.
#[export] Instance AnalyticsMetadataRecord_RoundTrip : RoundTrip AnalyticsMetadataRecord.
Proof. round_trip_record AnalyticsMetadataRecord_MarshalBinary UnmarshalAnalyticsMetadataRecord. Qed.
#[export] Instance AnalyticsMetadataRecord_Canonical : Canonical AnalyticsMetadataRecord.
Proof. canonical_record AnalyticsMetadataRecord_MarshalBinary UnmarshalAnalyticsMetadataRecord. Qed.
