(* ===== verification/MetaRecords.v ===== *)
(** * History, reference and checkpoint records
    ([internal/index/schema/history.go], [internal/index/schema/metadata.go]) *)
From stdpp Require Import base list numbers strings.
From Stdlib Require Import ZArith Lia.
From coqutil Require Import Datatypes.RecordSetters.
From S2P Require Import Prelude Codec Keys KeyParse Records.
Import TriangleBracketNotations.
Import Decoder (newDecoder, more, many).

(** ** Pack history *)

Definition EventCreated : Z := 1.
Definition EventTierChanged : Z := 15.
Definition validPackEventType (value : Z) : bool := between EventCreated EventTierChanged value.
Definition MaxHistoryPredecessors : Z := 1024.

Record PackHistoryEvent := mkPackHistoryEvent {
  ev_Type : Z;
  ev_PackType : Z;
  ev_Backend : Z;
  ev_PhysicalSize : Z;
  ev_PayloadSize : Z;
  ev_UsedDelta : Z;
  ev_UnusedDelta : Z;
  ev_PredecessorPackIDs : list ID;
  ev_RunID : ID;
  ev_ReasonCode : bytes;
}.

(** The unset pack type is stored as [PackUnknown]. *)
Definition event_stored (r : PackHistoryEvent) : PackHistoryEvent :=
  if ev_PackType r =? 0 then r <| ev_PackType := PackUnknown |> else r.

Definition PackHistoryEvent_MarshalBinary (r : PackHistoryEvent) : result bytes :=
  do! guard (negb (validPackEventType (ev_Type r))) "invalid pack event type";
  let packType := if ev_PackType r =? 0 then PackUnknown else ev_PackType r in
  do! guard (negb (validPackType packType)) "invalid pack event classification";
  do! guard (MaxHistoryPredecessors <? zlen (ev_PredecessorPackIDs r)) "too many repack predecessors";
  encode
    ([U8 (ev_Type r); U8 packType; U64 (ev_Backend r); U64 (ev_PhysicalSize r);
      U64 (ev_PayloadSize r); I64 (ev_UsedDelta r); I64 (ev_UnusedDelta r);
      U32 (zlen (ev_PredecessorPackIDs r))] ++
     concat (map (fun id => [IDf id]) (ev_PredecessorPackIDs r)) ++
     [IDf (ev_RunID r); Str (ev_ReasonCode r)]).

Definition UnmarshalPackHistoryEvent (data : bytes) : result PackHistoryEvent :=
  let! d := newDecoder data in
  let! (type, d) := Decoder.u8 d in
  let! (packType, d) := Decoder.u8 d in
  let! (backend, d) := Decoder.u64 d in
  let! (physicalSize, d) := Decoder.u64 d in
  let! (payloadSize, d) := Decoder.u64 d in
  let! (usedDelta, d) := Decoder.i64 d in
  let! (unusedDelta, d) := Decoder.i64 d in
  let! (count, d) := Decoder.u32 d in
  do! guard ((zlen data <? count * 32) || (MaxHistoryPredecessors <? count))
        "invalid repack lineage count";
  let! (predecessors, d) := many (Z.to_nat count) Decoder.id d in
  let! (runID, d) := Decoder.id d in
  let! (reasonCode, d) := Decoder.bytes d in
  do! guard (negb (validPackEventType type) || negb (validPackType packType))
        "invalid pack event classification";
  do! Decoder.done d;
  Ok (mkPackHistoryEvent type packType backend physicalSize payloadSize usedDelta unusedDelta
        predecessors runID reasonCode).

Definition PackHistoryEvent_ok (r : PackHistoryEvent) : Prop :=
  uint8 (ev_Type r) /\ uint8 (ev_PackType r) /\ uint64 (ev_Backend r) /\
  uint64 (ev_PhysicalSize r) /\ uint64 (ev_PayloadSize r) /\ int64 (ev_UsedDelta r) /\
  int64 (ev_UnusedDelta r) /\ Forall id_ok (ev_PredecessorPackIDs r) /\ id_ok (ev_RunID r).
#[export] Hint Unfold PackHistoryEvent_ok : codec.

#[export] Instance PackHistoryEvent_codec : RecordCodec PackHistoryEvent := {
  record_ok := PackHistoryEvent_ok;
  stored := event_stored;
  marshal := PackHistoryEvent_MarshalBinary;
  unmarshal := UnmarshalPackHistoryEvent;
}.

#[export] Instance PackHistoryEvent_RoundTrip : RoundTrip PackHistoryEvent.
Proof.
  intros r b Hok H. cbn [marshal unmarshal stored record_ok PackHistoryEvent_codec] in *.
  unfold PackHistoryEvent_ok in Hok. destruct_and?. unfold PackHistoryEvent_MarshalBinary in H.
  inv_results. encoded H. split_bools.
  match goal with Hids : Forall id_ok _ |- _ =>
    pose proof (wires_concat_length _ _ 32 _ id_size Hids) as Hsize end.
  assert (uint32 (zlen (ev_PredecessorPackIDs r))) by sizes.
  assert (uint8 (if ev_PackType r =? 0 then PackUnknown else ev_PackType r))
    by (case_match; [unfold PackUnknown; range | done]).
  unfold UnmarshalPackHistoryEvent. start_decoder. cbn [app]. read_fields. decide_guard.
  rewrite (many_round_trip _ (fun id => [IDf id]) id_ok) by auto using read_id_wires. cbn [rbind].
  read_fields. decide_guard. unfold event_stored. destruct (ev_PackType r =? 0); by destruct r.
Qed.

#[export] Instance PackHistoryEvent_Canonical : Canonical PackHistoryEvent.
Proof.
  intros b r H. cbn [marshal unmarshal record_ok PackHistoryEvent_codec] in *.
  unfold UnmarshalPackHistoryEvent in H. invert_reads. read_list read_id_inv.
  split; [typed_fields|]. split_bools. unfold PackHistoryEvent_MarshalBinary.
  cbn -[u_range i_range id_ok zlen encode guard rbind Z.eqb Z.ltb MaxHistoryPredecessors].
  match goal with V : validPackType ?t = true |- _ =>
    destruct (Z.eqb_spec t 0) as [->|]; [done|] end.
  repeat decide_guard. eapply encode_reads; [eassumption | assemble | eassumption].
Qed.

Definition CoverageComplete : Z := 1.
Definition CoveragePartial : Z := 2.
Definition CoverageReconstructed : Z := 3.
Definition validHistoryCoverage (value : Z) : bool := between CoverageComplete CoverageReconstructed value.

Record PackHistoryBucket := mkPackHistoryBucket {
  pb_PacksCreated : Z; pb_PacksDeleted : Z; pb_PacksRepacked : Z; pb_PacksPromoted : Z;
  pb_BytesAdded : Z; pb_BytesDeleted : Z; pb_BytesRepacked : Z; pb_BytesPromoted : Z;
  pb_EndPackCount : Z; pb_EndPhysicalSize : Z; pb_EndPayloadSize : Z;
  pb_Coverage : Z;
  pb_EventsObserved : Z;
}.

Definition bucket_stored (r : PackHistoryBucket) : PackHistoryBucket :=
  if pb_Coverage r =? 0 then r <| pb_Coverage := CoverageComplete |> else r.

Definition PackHistoryBucket_MarshalBinary (r : PackHistoryBucket) : result bytes :=
  let coverage := if pb_Coverage r =? 0 then CoverageComplete else pb_Coverage r in
  do! guard (negb (validHistoryCoverage coverage)) "invalid history coverage";
  encode
    [U64 (pb_PacksCreated r); U64 (pb_PacksDeleted r); U64 (pb_PacksRepacked r); U64 (pb_PacksPromoted r);
     U64 (pb_BytesAdded r); U64 (pb_BytesDeleted r); U64 (pb_BytesRepacked r); U64 (pb_BytesPromoted r);
     U64 (pb_EndPackCount r); U64 (pb_EndPhysicalSize r); U64 (pb_EndPayloadSize r);
     U64 (pb_EventsObserved r); U8 coverage].

Definition UnmarshalPackHistoryBucket (data : bytes) : result PackHistoryBucket :=
  let! d := newDecoder data in
  let! (packsCreated, d) := Decoder.u64 d in
  let! (packsDeleted, d) := Decoder.u64 d in
  let! (packsRepacked, d) := Decoder.u64 d in
  let! (packsPromoted, d) := Decoder.u64 d in
  let! (bytesAdded, d) := Decoder.u64 d in
  let! (bytesDeleted, d) := Decoder.u64 d in
  let! (bytesRepacked, d) := Decoder.u64 d in
  let! (bytesPromoted, d) := Decoder.u64 d in
  let! (endPackCount, d) := Decoder.u64 d in
  let! (endPhysicalSize, d) := Decoder.u64 d in
  let! (endPayloadSize, d) := Decoder.u64 d in
  let! (eventsObserved, d) := Decoder.u64 d in
  let! (coverage, d) := Decoder.u8 d in
  do! guard (negb (validHistoryCoverage coverage)) "invalid history coverage";
  do! Decoder.done d;
  Ok (mkPackHistoryBucket packsCreated packsDeleted packsRepacked packsPromoted bytesAdded
        bytesDeleted bytesRepacked bytesPromoted endPackCount endPhysicalSize endPayloadSize
        coverage eventsObserved).

Definition PackHistoryBucket_ok (r : PackHistoryBucket) : Prop :=
  uint64 (pb_PacksCreated r) /\ uint64 (pb_PacksDeleted r) /\ uint64 (pb_PacksRepacked r) /\
  uint64 (pb_PacksPromoted r) /\ uint64 (pb_BytesAdded r) /\ uint64 (pb_BytesDeleted r) /\
  uint64 (pb_BytesRepacked r) /\ uint64 (pb_BytesPromoted r) /\ uint64 (pb_EndPackCount r) /\
  uint64 (pb_EndPhysicalSize r) /\ uint64 (pb_EndPayloadSize r) /\ uint8 (pb_Coverage r) /\
  uint64 (pb_EventsObserved r).
#[export] Hint Unfold PackHistoryBucket_ok : codec.

#[export] Instance PackHistoryBucket_codec : RecordCodec PackHistoryBucket := {
  record_ok := PackHistoryBucket_ok;
  stored := bucket_stored;
  marshal := PackHistoryBucket_MarshalBinary;
  unmarshal := UnmarshalPackHistoryBucket;
}.

#[export] Instance PackHistoryBucket_RoundTrip : RoundTrip PackHistoryBucket.
Proof.
  intros r b Hok H. cbn [marshal unmarshal stored record_ok PackHistoryBucket_codec] in *.
  unfold PackHistoryBucket_ok in Hok. destruct_and?. unfold PackHistoryBucket_MarshalBinary in H.
  inv_results. encoded H.
  assert (uint8 (if pb_Coverage r =? 0 then CoverageComplete else pb_Coverage r))
    by (case_match; [unfold CoverageComplete; range | done]).
  unfold UnmarshalPackHistoryBucket. start_decoder. read_fields. pass_guards.
  unfold bucket_stored. destruct (pb_Coverage r =? 0); by destruct r.
Qed.

#[export] Instance PackHistoryBucket_Canonical : Canonical PackHistoryBucket.
Proof.
  intros b r H. cbn [marshal unmarshal record_ok PackHistoryBucket_codec] in *.
  unfold UnmarshalPackHistoryBucket in H. invert_reads. split; [typed_fields|].
  split_bools. unfold PackHistoryBucket_MarshalBinary.
  cbn -[u_range i_range id_ok zlen encode guard rbind Z.eqb].
  match goal with V : validHistoryCoverage ?t = true |- _ =>
    destruct (Z.eqb_spec t 0) as [->|]; [done|] end.
  decide_guard. eapply encode_reads; [eassumption | assemble | eassumption].
Qed.

Record HistoryMarker := mkHistoryMarker { UnixSeconds : Z }.
Definition HistoryMarker_MarshalBinary (r : HistoryMarker) : result bytes := encode [U64 (UnixSeconds r)].
Definition UnmarshalHistoryMarker (data : bytes) : result HistoryMarker :=
  let! d := newDecoder data in
  let! (unixSeconds, d) := Decoder.u64 d in
  do! Decoder.done d;
  Ok (mkHistoryMarker unixSeconds).

#[export] Instance HistoryMarker_codec : RecordCodec HistoryMarker := {
  record_ok r := uint64 (UnixSeconds r);
  stored r := r;
  marshal := HistoryMarker_MarshalBinary;
  unmarshal := UnmarshalHistoryMarker;
}.
#[export] Instance HistoryMarker_RoundTrip : RoundTrip HistoryMarker.
Proof. round_trip_record HistoryMarker_MarshalBinary UnmarshalHistoryMarker. Qed.
#[export] Instance HistoryMarker_Canonical : Canonical HistoryMarker.
Proof. canonical_record HistoryMarker_MarshalBinary UnmarshalHistoryMarker. Qed.

(** ** Reverse references and reference counts *)

Definition ReferenceCurrent : Z := 1.
Definition ReferenceHistorical : Z := 2.
Definition ReferenceUnresolved : Z := 3.
Definition validReferenceState (state : Z) : bool := between ReferenceCurrent ReferenceUnresolved state.

Record ReverseManifestRecord := mkReverseManifestRecord { rm_Segment : Z; rm_State : Z }.
Definition ReverseManifestRecord_MarshalBinary (r : ReverseManifestRecord) : result bytes :=
  do! guard (negb (validReferenceState (rm_State r))) "invalid reference state";
  encode [U32 (rm_Segment r); U8 (rm_State r)].
Definition UnmarshalReverseManifestRecord (data : bytes) : result ReverseManifestRecord :=
  let! d := newDecoder data in
  let! (segment, d) := Decoder.u32 d in
  let! (state, d) := Decoder.u8 d in
  do! guard (negb (validReferenceState state)) "invalid reference state";
  do! Decoder.done d;
  Ok (mkReverseManifestRecord segment state).

#[export] Instance ReverseManifestRecord_codec : RecordCodec ReverseManifestRecord := {
  record_ok r := uint32 (rm_Segment r) /\ uint8 (rm_State r);
  stored r := r;
  marshal := ReverseManifestRecord_MarshalBinary;
  unmarshal := UnmarshalReverseManifestRecord;
}.
#[export] Instance ReverseManifestRecord_RoundTrip : RoundTrip ReverseManifestRecord.
Proof. round_trip_record ReverseManifestRecord_MarshalBinary UnmarshalReverseManifestRecord. Qed.
#[export] Instance ReverseManifestRecord_Canonical : Canonical ReverseManifestRecord.
Proof. canonical_record ReverseManifestRecord_MarshalBinary UnmarshalReverseManifestRecord. Qed.

Record ReverseInodeRecord := mkReverseInodeRecord { ri_LatestRevision : Z; ri_State : Z }.
Definition ReverseInodeRecord_MarshalBinary (r : ReverseInodeRecord) : result bytes :=
  do! guard ((ri_LatestRevision r =? 0) || negb (validReferenceState (ri_State r)))
        "invalid reverse inode record";
  encode [U64 (ri_LatestRevision r); U8 (ri_State r)].
Definition UnmarshalReverseInodeRecord (data : bytes) : result ReverseInodeRecord :=
  let! d := newDecoder data in
  let! (revision, d) := Decoder.u64 d in
  let! (state, d) := Decoder.u8 d in
  do! guard ((revision =? 0) || negb (validReferenceState state)) "invalid reverse inode record";
  do! Decoder.done d;
  Ok (mkReverseInodeRecord revision state).

#[export] Instance ReverseInodeRecord_codec : RecordCodec ReverseInodeRecord := {
  record_ok r := uint64 (ri_LatestRevision r) /\ uint8 (ri_State r);
  stored r := r;
  marshal := ReverseInodeRecord_MarshalBinary;
  unmarshal := UnmarshalReverseInodeRecord;
}.
#[export] Instance ReverseInodeRecord_RoundTrip : RoundTrip ReverseInodeRecord.
Proof. round_trip_record ReverseInodeRecord_MarshalBinary UnmarshalReverseInodeRecord. Qed.
#[export] Instance ReverseInodeRecord_Canonical : Canonical ReverseInodeRecord.
Proof. canonical_record ReverseInodeRecord_MarshalBinary UnmarshalReverseInodeRecord. Qed.

Record ReferenceCountRecord := mkReferenceCountRecord {
  rc_TotalReferences : Z; rc_DistinctInodes : Z; rc_DistinctRevisions : Z;
  rc_DistinctManifests : Z; rc_ReachableSnapshots : Z; rc_UpdateSequence : Z;
}.
Definition ReferenceCountRecord_MarshalBinary (r : ReferenceCountRecord) : result bytes :=
  encode [U64 (rc_TotalReferences r); U64 (rc_DistinctInodes r); U64 (rc_DistinctRevisions r);
          U64 (rc_DistinctManifests r); U64 (rc_ReachableSnapshots r); U64 (rc_UpdateSequence r)].
Definition UnmarshalReferenceCountRecord (data : bytes) : result ReferenceCountRecord :=
  let! d := newDecoder data in
  let! (totalReferences, d) := Decoder.u64 d in
  let! (distinctInodes, d) := Decoder.u64 d in
  let! (distinctRevisions, d) := Decoder.u64 d in
  let! (distinctManifests, d) := Decoder.u64 d in
  let! (reachableSnapshots, d) := Decoder.u64 d in
  let! (updateSequence, d) := Decoder.u64 d in
  do! Decoder.done d;
  Ok (mkReferenceCountRecord totalReferences distinctInodes distinctRevisions distinctManifests
        reachableSnapshots updateSequence).

#[export] Instance ReferenceCountRecord_codec : RecordCodec ReferenceCountRecord := {
  record_ok r := uint64 (rc_TotalReferences r) /\ uint64 (rc_DistinctInodes r) /\
    uint64 (rc_DistinctRevisions r) /\ uint64 (rc_DistinctManifests r) /\
    uint64 (rc_ReachableSnapshots r) /\ uint64 (rc_UpdateSequence r);
  stored r := r;
  marshal := ReferenceCountRecord_MarshalBinary;
  unmarshal := UnmarshalReferenceCountRecord;
}.
#[export] Instance ReferenceCountRecord_RoundTrip : RoundTrip ReferenceCountRecord.
Proof. round_trip_record ReferenceCountRecord_MarshalBinary UnmarshalReferenceCountRecord. Qed.
#[export] Instance ReferenceCountRecord_Canonical : Canonical ReferenceCountRecord.
Proof. canonical_record ReferenceCountRecord_MarshalBinary UnmarshalReferenceCountRecord. Qed.

(** ** Garbage collection and crawl debt *)

Definition GCCandidate : Z := 1.
Definition GCPendingRevalidation : Z := 2.
Definition GCRevalidated : Z := 3.
Definition GCRejected : Z := 4.

Record GarbageCollectionRecord := mkGarbageCollectionRecord {
  gc_State : Z; gc_ObservedCommit : Z; gc_DiscoveredUnixNano : Z; gc_RevalidatedCommit : Z }.

Definition invalid_gc_state (state : Z) : bool := (state <? GCCandidate) || (GCRejected <? state).

Definition GarbageCollectionRecord_MarshalBinary (r : GarbageCollectionRecord) : result bytes :=
  do! guard (invalid_gc_state (gc_State r)) "invalid garbage-collection state";
  encode [U8 (gc_State r); U64 (gc_ObservedCommit r); I64 (gc_DiscoveredUnixNano r);
          U64 (gc_RevalidatedCommit r)].
Definition UnmarshalGarbageCollectionRecord (data : bytes) : result GarbageCollectionRecord :=
  let! d := newDecoder data in
  let! (state, d) := Decoder.u8 d in
  let! (observed, d) := Decoder.u64 d in
  let! (discovered, d) := Decoder.i64 d in
  let! (revalidated, d) := Decoder.u64 d in
  do! guard (invalid_gc_state state) "invalid garbage-collection state";
  do! Decoder.done d;
  Ok (mkGarbageCollectionRecord state observed discovered revalidated).

#[export] Instance GarbageCollectionRecord_codec : RecordCodec GarbageCollectionRecord := {
  record_ok r := uint8 (gc_State r) /\ uint64 (gc_ObservedCommit r) /\
    int64 (gc_DiscoveredUnixNano r) /\ uint64 (gc_RevalidatedCommit r);
  stored r := r;
  marshal := GarbageCollectionRecord_MarshalBinary;
  unmarshal := UnmarshalGarbageCollectionRecord;
}.
#[export] Instance GarbageCollectionRecord_RoundTrip : RoundTrip GarbageCollectionRecord.
Proof. round_trip_record GarbageCollectionRecord_MarshalBinary UnmarshalGarbageCollectionRecord. Qed.
#[export] Instance GarbageCollectionRecord_Canonical : Canonical GarbageCollectionRecord.
Proof. canonical_record GarbageCollectionRecord_MarshalBinary UnmarshalGarbageCollectionRecord. Qed.

Definition DebtMissingInode : Z := 1.
Definition DebtMissingDirectory : Z := 2.
Definition DebtUnknownFreshness : Z := 3.
Definition DebtMissingContent : Z := 4.
Definition DebtUnavailablePack : Z := 5.
Definition DebtPending : Z := 1.
Definition DebtResolved : Z := 2.
Definition DebtFailed : Z := 3.

Record CrawlDebtRecord := mkCrawlDebtRecord {
  cd_SourceIndexOrPack : ID;
  cd_SourceKnown : bool;
  cd_PathOrTree : bytes;
  cd_Reason : Z;
  cd_RetryCount : Z;
  cd_LastAttemptUnixNano : Z;
  cd_Status : Z;
  cd_ErrorClass : bytes;
}.

Definition invalid_debt_state (reason status : Z) : bool :=
  (reason <? DebtMissingInode) || (DebtUnavailablePack <? reason) || (status <? DebtPending)
  || (DebtFailed <? status).

Definition CrawlDebtRecord_MarshalBinary (r : CrawlDebtRecord) : result bytes :=
  do! guard (invalid_debt_state (cd_Reason r) (cd_Status r)) "invalid crawl-debt state";
  encode [IDf (cd_SourceIndexOrPack r); Bool (cd_SourceKnown r); Str (cd_PathOrTree r);
          U8 (cd_Reason r); U32 (cd_RetryCount r); I64 (cd_LastAttemptUnixNano r);
          U8 (cd_Status r); Str (cd_ErrorClass r)].
Definition UnmarshalCrawlDebtRecord (data : bytes) : result CrawlDebtRecord :=
  let! d := newDecoder data in
  let! (source, d) := Decoder.id d in
  let! (sourceKnown, d) := Decoder.bool d in
  let! (pathOrTree, d) := Decoder.bytes d in
  let! (reason, d) := Decoder.u8 d in
  let! (retryCount, d) := Decoder.u32 d in
  let! (lastAttempt, d) := Decoder.i64 d in
  let! (status, d) := Decoder.u8 d in
  let! (errorClass, d) := Decoder.bytes d in
  do! guard (invalid_debt_state reason status) "invalid crawl-debt state";
  do! Decoder.done d;
  Ok (mkCrawlDebtRecord source sourceKnown pathOrTree reason retryCount lastAttempt status errorClass).

#[export] Instance CrawlDebtRecord_codec : RecordCodec CrawlDebtRecord := {
  record_ok r := id_ok (cd_SourceIndexOrPack r) /\ uint8 (cd_Reason r) /\ uint32 (cd_RetryCount r) /\
    int64 (cd_LastAttemptUnixNano r) /\ uint8 (cd_Status r);
  stored r := r;
  marshal := CrawlDebtRecord_MarshalBinary;
  unmarshal := UnmarshalCrawlDebtRecord;
}.
#[export] Instance CrawlDebtRecord_RoundTrip : RoundTrip CrawlDebtRecord.
Proof. round_trip_record CrawlDebtRecord_MarshalBinary UnmarshalCrawlDebtRecord. Qed.
#[export] Instance CrawlDebtRecord_Canonical : Canonical CrawlDebtRecord.
Proof. canonical_record CrawlDebtRecord_MarshalBinary UnmarshalCrawlDebtRecord. Qed.

(** ** Import and export checkpoints *)

Record ImportCheckpointRecord := mkImportCheckpointRecord {
  ic_PacksImported : Z; ic_BlobsImported : Z; ic_ErrorsSeen : Z }.
Definition ImportCheckpointRecord_MarshalBinary (r : ImportCheckpointRecord) : result bytes :=
  encode [U64 (ic_PacksImported r); U64 (ic_BlobsImported r); U64 (ic_ErrorsSeen r)].
Definition UnmarshalImportCheckpointRecord (data : bytes) : result ImportCheckpointRecord :=
  let! d := newDecoder data in
  let! (packsImported, d) := Decoder.u64 d in
  let! (blobsImported, d) := Decoder.u64 d in
  let! (errorsSeen, d) := Decoder.u64 d in
  do! Decoder.done d;
  Ok (mkImportCheckpointRecord packsImported blobsImported errorsSeen).

#[export] Instance ImportCheckpointRecord_codec : RecordCodec ImportCheckpointRecord := {
  record_ok r := uint64 (ic_PacksImported r) /\ uint64 (ic_BlobsImported r) /\ uint64 (ic_ErrorsSeen r);
  stored r := r;
  marshal := ImportCheckpointRecord_MarshalBinary;
  unmarshal := UnmarshalImportCheckpointRecord;
}.
#[export] Instance ImportCheckpointRecord_RoundTrip : RoundTrip ImportCheckpointRecord.
Proof. round_trip_record ImportCheckpointRecord_MarshalBinary UnmarshalImportCheckpointRecord. Qed.
#[export] Instance ImportCheckpointRecord_Canonical : Canonical ImportCheckpointRecord.
Proof. canonical_record ImportCheckpointRecord_MarshalBinary UnmarshalImportCheckpointRecord. Qed.

Record SnapshotImportCheckpointRecord := mkSnapshotImportCheckpointRecord {
  si_TreesVisited : Z; si_NodesImported : Z; si_DebtsCreated : Z }.
Definition SnapshotImportCheckpointRecord_MarshalBinary (r : SnapshotImportCheckpointRecord)
  : result bytes :=
  encode [U64 (si_TreesVisited r); U64 (si_NodesImported r); U64 (si_DebtsCreated r)].
Definition UnmarshalSnapshotImportCheckpointRecord (data : bytes)
  : result SnapshotImportCheckpointRecord :=
  let! d := newDecoder data in
  let! (treesVisited, d) := Decoder.u64 d in
  let! (nodesImported, d) := Decoder.u64 d in
  let! (debtsCreated, d) := Decoder.u64 d in
  do! Decoder.done d;
  Ok (mkSnapshotImportCheckpointRecord treesVisited nodesImported debtsCreated).

#[export] Instance SnapshotImportCheckpointRecord_codec
  : RecordCodec SnapshotImportCheckpointRecord := {
  record_ok r := uint64 (si_TreesVisited r) /\ uint64 (si_NodesImported r) /\ uint64 (si_DebtsCreated r);
  stored r := r;
  marshal := SnapshotImportCheckpointRecord_MarshalBinary;
  unmarshal := UnmarshalSnapshotImportCheckpointRecord;
}.
#[export] Instance SnapshotImportCheckpointRecord_RoundTrip : RoundTrip SnapshotImportCheckpointRecord.
Proof.
  round_trip_record SnapshotImportCheckpointRecord_MarshalBinary UnmarshalSnapshotImportCheckpointRecord.
Qed.
#[export] Instance SnapshotImportCheckpointRecord_Canonical : Canonical SnapshotImportCheckpointRecord.
Proof.
  canonical_record SnapshotImportCheckpointRecord_MarshalBinary UnmarshalSnapshotImportCheckpointRecord.
Qed.

Definition validExportRoot (key : bytes) : bool :=
  match ParseKey key with
  | Ok parsed =>
      match PK.Kind parsed with
      | KeyDirectoryRevision => negb (PK.Revision parsed =? 0)
      | _ => false
      end
  | Err _ => false
  end.
Arguments validExportRoot : simpl never.

Record SnapshotCommitRecord := mkSnapshotCommitRecord { sc_SnapshotTimeUnixNano : Z; sc_RootKey : bytes }.
Definition SnapshotCommitRecord_MarshalBinary (r : SnapshotCommitRecord) : result bytes :=
  do! guard (negb (validExportRoot (sc_RootKey r))) "invalid snapshot commit root";
  encode [I64 (sc_SnapshotTimeUnixNano r); Str (sc_RootKey r)].
Definition UnmarshalSnapshotCommitRecord (data : bytes) : result SnapshotCommitRecord :=
  let! d := newDecoder data in
  let! (snapshotTime, d) := Decoder.i64 d in
  let! (rootKey, d) := Decoder.bytes d in
  do! guard (negb (validExportRoot rootKey)) "invalid snapshot commit root";
  do! Decoder.done d;
  Ok (mkSnapshotCommitRecord snapshotTime rootKey).

#[export] Instance SnapshotCommitRecord_codec : RecordCodec SnapshotCommitRecord := {
  record_ok r := int64 (sc_SnapshotTimeUnixNano r);
  stored r := r;
  marshal := SnapshotCommitRecord_MarshalBinary;
  unmarshal := UnmarshalSnapshotCommitRecord;
}.
#[export] Instance SnapshotCommitRecord_RoundTrip : RoundTrip SnapshotCommitRecord.
Proof. round_trip_record SnapshotCommitRecord_MarshalBinary UnmarshalSnapshotCommitRecord. Qed.
#[export] Instance SnapshotCommitRecord_Canonical : Canonical SnapshotCommitRecord.
Proof. canonical_record SnapshotCommitRecord_MarshalBinary UnmarshalSnapshotCommitRecord. Qed.

Definition ExportPending : Z := 1.
Definition ExportComplete : Z := 2.
Definition ExportFailed : Z := 3.

Record ExportCheckpointRecord := mkExportCheckpointRecord {
  ec_State : Z; ec_CommitSequence : Z; ec_Attempts : Z; ec_RootKey : bytes; ec_LastError : bytes }.

Definition invalid_export_checkpoint (r : ExportCheckpointRecord) : bool :=
  (ec_State r <? ExportPending) || (ExportFailed <? ec_State r)
  || ((ec_State r =? ExportPending) && negb (ec_CommitSequence r =? 0))
  || ((ec_State r =? ExportComplete)
      && ((ec_CommitSequence r =? 0) || negb (bytes_eqb (ec_LastError r) [])))
  || ((ec_State r =? ExportFailed)
      && (negb (ec_CommitSequence r =? 0) || bytes_eqb (ec_LastError r) []))
  || negb (validExportRoot (ec_RootKey r)).
Arguments invalid_export_checkpoint : simpl never.

Definition ExportCheckpointRecord_MarshalBinary (r : ExportCheckpointRecord) : result bytes :=
  do! guard (invalid_export_checkpoint r) "invalid export checkpoint";
  encode [U8 (ec_State r); U64 (ec_CommitSequence r); U32 (ec_Attempts r); Str (ec_RootKey r);
          Str (ec_LastError r)].
Definition UnmarshalExportCheckpointRecord (data : bytes) : result ExportCheckpointRecord :=
  let! d := newDecoder data in
  let! (state, d) := Decoder.u8 d in
  let! (commitSequence, d) := Decoder.u64 d in
  let! (attempts, d) := Decoder.u32 d in
  let! (rootKey, d) := Decoder.bytes d in
  let! (lastError, d) := Decoder.bytes d in
  let record := mkExportCheckpointRecord state commitSequence attempts rootKey lastError in
  do! guard (invalid_export_checkpoint record) "invalid export checkpoint";
  do! Decoder.done d;
  Ok record.

#[export] Instance ExportCheckpointRecord_codec : RecordCodec ExportCheckpointRecord := {
  record_ok r := uint8 (ec_State r) /\ uint64 (ec_CommitSequence r) /\ uint32 (ec_Attempts r);
  stored r := r;
  marshal := ExportCheckpointRecord_MarshalBinary;
  unmarshal := UnmarshalExportCheckpointRecord;
}.
#[export] Instance ExportCheckpointRecord_RoundTrip : RoundTrip ExportCheckpointRecord.
Proof.
  intros r b Hok H. cbn [marshal unmarshal stored record_ok ExportCheckpointRecord_codec] in *.
  destruct_and?. unfold ExportCheckpointRecord_MarshalBinary in H. inv_results. encoded H.
  unfold UnmarshalExportCheckpointRecord. start_decoder. read_fields. destruct r; cbn in *. by pass_guards.
Qed.
#[export] Instance ExportCheckpointRecord_Canonical : Canonical ExportCheckpointRecord.
Proof. canonical_record ExportCheckpointRecord_MarshalBinary UnmarshalExportCheckpointRecord. Qed.

Record ExportIndexCheckpointRecord := mkExportIndexCheckpointRecord { ei_Sequence : Z; ei_PackIDs : list ID }.

(** [id == (ID{}) || (index > 0 && bytes.Compare(previous, id) >= 0)] *)
Definition unsorted_id (previous : option ID) (id : ID) : bool :=
  is_zero_id id ||
  match previous with
  | Some p => match bytes_compare p id with Lt => false | _ => true end
  | None => false
  end.

Definition sorted_id_fields (previous : option ID) (id : ID) : list field :=
  [Refuse (unsorted_id previous id) "export pack IDs are not uniquely sorted"; IDf id].

Definition ExportIndexCheckpointRecord_MarshalBinary (r : ExportIndexCheckpointRecord) : result bytes :=
  do! guard ((ei_Sequence r =? 0) || (zlen (ei_PackIDs r) =? 0)) "invalid export index checkpoint";
  encode ([U64 (ei_Sequence r); U32 (zlen (ei_PackIDs r))] ++ fields_after sorted_id_fields None (ei_PackIDs r)).

Definition read_sorted_id (previous : option ID) (d : Decoder.decoder) : result (ID * Decoder.decoder) :=
  let! (id, d) := Decoder.id d in
  do! guard (unsorted_id previous id) "export pack IDs are not uniquely sorted";
  Ok (id, d).

Definition UnmarshalExportIndexCheckpointRecord (data : bytes) : result ExportIndexCheckpointRecord :=
  let! d := newDecoder data in
  let! (sequence, d) := Decoder.u64 d in
  do! guard (sequence =? 0) "invalid export sequence";
  let! (count, d) := Decoder.u32 d in
  do! guard (count =? 0) "invalid export pack count";
  let! (packIDs, d) := Decoder.many_after (Z.to_nat count) read_sorted_id None d in
  do! Decoder.done d;
  Ok (mkExportIndexCheckpointRecord sequence packIDs).

#[export] Hint Unfold sorted_id_fields : codec.
#[export] Instance ExportIndexCheckpointRecord_codec : RecordCodec ExportIndexCheckpointRecord := {
  record_ok r := uint64 (ei_Sequence r) /\ chained (fun _ => id_ok) None (ei_PackIDs r);
  stored r := r;
  marshal := ExportIndexCheckpointRecord_MarshalBinary;
  unmarshal := UnmarshalExportIndexCheckpointRecord;
}.

Lemma read_sorted_id_wires t p id gs :
  id_ok id -> forallb writable (sorted_id_fields p id) = true ->
  read_sorted_id p (Decoder.mk t (wires (sorted_id_fields p id ++ gs))) = Ok (id, Decoder.mk t (wires gs)).
Proof.
  intros Hid Hw. unfold sorted_id_fields in *. written Hw. cbn [app]. unfold read_sorted_id.
  read_fields. by pass_guards.
Qed.

Lemma read_sorted_id_inv p d id d' :
  read_sorted_id p d = Ok (id, d') -> reads d (sorted_id_fields p id) d' /\ id_ok id.
Proof. unfold read_sorted_id. intros H. invert_reads. split; [assemble | typed_read]. Qed.

#[export] Instance ExportIndexCheckpointRecord_RoundTrip : RoundTrip ExportIndexCheckpointRecord.
Proof.
  intros r b [Hs Hc] H. cbn [marshal unmarshal stored record_ok ExportIndexCheckpointRecord_codec] in *.
  unfold ExportIndexCheckpointRecord_MarshalBinary in H. inv_results. encoded H. split_bools.
  assert (32 * zlen (ei_PackIDs r) <= zlen (wires (fields_after sorted_id_fields None (ei_PackIDs r)))).
  { apply (fields_after_length _ (fun _ => id_ok)); [|done]. intros p x Hx. unfold sorted_id_fields. sizes. }
  assert (uint32 (zlen (ei_PackIDs r))) by sizes.
  unfold UnmarshalExportIndexCheckpointRecord. start_decoder. cbn [app]. read_fields. decide_guard.
  read_fields. decide_guard. rewrite <- (app_nil_r (fields_after _ _ _)).
  rewrite (many_after_round_trip _ _ (fun _ => id_ok)) by auto using read_sorted_id_wires.
  read_fields. by destruct r.
Qed.

#[export] Instance ExportIndexCheckpointRecord_Canonical : Canonical ExportIndexCheckpointRecord.
Proof.
  intros b r H. cbn [marshal unmarshal record_ok ExportIndexCheckpointRecord_codec] in *.
  unfold UnmarshalExportIndexCheckpointRecord in H. invert_reads. read_after read_sorted_id_inv.
  split; [typed_fields|]. split_bools. unfold ExportIndexCheckpointRecord_MarshalBinary.
  cbn -[u_range i_range id_ok zlen encode guard rbind Z.eqb].
  decide_guard. eapply encode_reads; [eassumption | assemble | eassumption].
Qed.

(** ** Import receipts *)

Record LegacyImportPackChange := mkLegacyImportPackChange {
  ch_PackID : ID; ch_Old : bytes; ch_Current : bytes }.
Record LegacyImportEvent := mkLegacyImportEvent { le_PackID : ID; le_Value : bytes }.
Record LegacyImportIndexTally := mkLegacyImportIndexTally {
  it_SourceIndex : ID; it_PacksImported : Z; it_BlobsImported : Z; it_ErrorsSeen : Z }.

Record LegacyImportReceiptRecord := mkLegacyImportReceiptRecord {
  lr_ContentHash : ID;
  lr_SourceIndex : ID;
  lr_PacksImported : Z;
  lr_BlobsImported : Z;
  lr_ErrorsSeen : Z;
  lr_Reduced : bool;
  lr_Changes : list LegacyImportPackChange;
  lr_Events : list LegacyImportEvent;
  lr_IndexTallies : list LegacyImportIndexTally;
}.

Definition not_pack_record (data : bytes) : bool := negb (is_ok (UnmarshalPackRecord data)).
Definition not_history_event (data : bytes) : bool := negb (is_ok (UnmarshalPackHistoryEvent data)).
Arguments not_pack_record : simpl never.
Arguments not_history_event : simpl never.

Definition change_fields (c : LegacyImportPackChange) : list field :=
  [Refuse (is_zero_id (ch_PackID c) || (zlen (ch_Current c) =? 0)) "invalid legacy import receipt change";
   Refuse ((0 <? zlen (ch_Old c)) && not_pack_record (ch_Old c)) "invalid old pack record";
   Refuse (not_pack_record (ch_Current c)) "invalid current pack record";
   IDf (ch_PackID c); Str (ch_Old c); Str (ch_Current c)].

Definition event_fields (e : LegacyImportEvent) : list field :=
  [Refuse (is_zero_id (le_PackID e)) "invalid legacy import receipt event";
   Refuse (not_history_event (le_Value e)) "invalid pack history event";
   IDf (le_PackID e); Str (le_Value e)].

Definition tally_fields (y : LegacyImportIndexTally) : list field :=
  [Refuse (is_zero_id (it_SourceIndex y)) "invalid legacy import receipt index tally";
   IDf (it_SourceIndex y); U64 (it_PacksImported y); U64 (it_BlobsImported y); U64 (it_ErrorsSeen y)].

Definition receipt_base_fields (r : LegacyImportReceiptRecord) : list field :=
  [IDf (lr_ContentHash r); IDf (lr_SourceIndex r); U64 (lr_PacksImported r); U64 (lr_BlobsImported r);
   U64 (lr_ErrorsSeen r); Bool (lr_Reduced r); U32 (zlen (lr_Changes r))] ++
  concat (map change_fields (lr_Changes r)) ++
  U32 (zlen (lr_Events r)) :: concat (map event_fields (lr_Events r)).

Definition receipt_tally_fields (r : LegacyImportReceiptRecord) : list field :=
  [Refuse (256 <? zlen (lr_IndexTallies r)) "too many legacy import receipt index tallies";
   U32 (zlen (lr_IndexTallies r))] ++ concat (map tally_fields (lr_IndexTallies r)).

Definition LegacyImportReceiptRecord_MarshalBinary (r : LegacyImportReceiptRecord) : result bytes :=
  do! guard (is_zero_id (lr_ContentHash r) || is_zero_id (lr_SourceIndex r)
             || (256 <? zlen (lr_Changes r)) || (1024 <? zlen (lr_Events r)))
        "invalid legacy import receipt";
  encode (receipt_base_fields r ++ receipt_tally_fields r).

Definition read_change (d : Decoder.decoder) : result (LegacyImportPackChange * Decoder.decoder) :=
  let! (packID, d) := Decoder.id d in
  let! (old, d) := Decoder.bytes d in
  let! (current, d) := Decoder.bytes d in
  do! guard (is_zero_id packID || (zlen current =? 0)) "invalid legacy import receipt change";
  do! guard ((0 <? zlen old) && not_pack_record old) "invalid old pack record";
  do! guard (not_pack_record current) "invalid current pack record";
  Ok (mkLegacyImportPackChange packID old current, d).

Definition read_event (d : Decoder.decoder) : result (LegacyImportEvent * Decoder.decoder) :=
  let! (packID, d) := Decoder.id d in
  let! (value, d) := Decoder.bytes d in
  do! guard (is_zero_id packID) "invalid legacy import receipt event";
  do! guard (not_history_event value) "invalid pack history event";
  Ok (mkLegacyImportEvent packID value, d).

Definition read_tally (d : Decoder.decoder) : result (LegacyImportIndexTally * Decoder.decoder) :=
  let! (sourceIndex, d) := Decoder.id d in
  let! (packsImported, d) := Decoder.u64 d in
  let! (blobsImported, d) := Decoder.u64 d in
  let! (errorsSeen, d) := Decoder.u64 d in
  do! guard (is_zero_id sourceIndex) "invalid legacy import receipt index tally";
  Ok (mkLegacyImportIndexTally sourceIndex packsImported blobsImported errorsSeen, d).

Definition UnmarshalLegacyImportReceiptRecord (data : bytes) : result LegacyImportReceiptRecord :=
  let! d := newDecoder data in
  let! (contentHash, d) := Decoder.id d in
  let! (sourceIndex, d) := Decoder.id d in
  let! (packsImported, d) := Decoder.u64 d in
  let! (blobsImported, d) := Decoder.u64 d in
  let! (errorsSeen, d) := Decoder.u64 d in
  let! (reduced, d) := Decoder.bool d in
  let! (changeCount, d) := Decoder.u32 d in
  do! guard (256 <? changeCount) "invalid legacy import receipt changes";
  let! (changes, d) := many (Z.to_nat changeCount) read_change d in
  let! (eventCount, d) := Decoder.u32 d in
  do! guard (1024 <? eventCount) "invalid legacy import receipt events";
  let! (events, d) := many (Z.to_nat eventCount) read_event d in
  let! (tallies, d) :=
    if more d then
      let! (tallyCount, d) := Decoder.u32 d in
      do! guard (256 <? tallyCount) "invalid legacy import receipt index tallies";
      many (Z.to_nat tallyCount) read_tally d
    else Ok ([], d) in
  do! guard (is_zero_id contentHash || is_zero_id sourceIndex) "invalid legacy import receipt";
  do! Decoder.done d;
  Ok (mkLegacyImportReceiptRecord contentHash sourceIndex packsImported blobsImported errorsSeen
        reduced changes events tallies).

Definition tally_ok (y : LegacyImportIndexTally) : Prop :=
  id_ok (it_SourceIndex y) /\ uint64 (it_PacksImported y) /\ uint64 (it_BlobsImported y) /\
  uint64 (it_ErrorsSeen y).

Definition LegacyImportReceiptRecord_ok (r : LegacyImportReceiptRecord) : Prop :=
  id_ok (lr_ContentHash r) /\ id_ok (lr_SourceIndex r) /\ uint64 (lr_PacksImported r) /\
  uint64 (lr_BlobsImported r) /\ uint64 (lr_ErrorsSeen r) /\
  Forall (fun c => id_ok (ch_PackID c)) (lr_Changes r) /\
  Forall (fun e => id_ok (le_PackID e)) (lr_Events r) /\ Forall tally_ok (lr_IndexTallies r).
#[export] Hint Unfold LegacyImportReceiptRecord_ok tally_ok change_fields event_fields tally_fields
  receipt_base_fields receipt_tally_fields : codec.

#[export] Instance LegacyImportReceiptRecord_codec : RecordCodec LegacyImportReceiptRecord := {
  record_ok := LegacyImportReceiptRecord_ok;
  stored r := r;
  marshal := LegacyImportReceiptRecord_MarshalBinary;
  unmarshal := UnmarshalLegacyImportReceiptRecord;
}.

Lemma read_change_wires t c gs :
  id_ok (ch_PackID c) -> forallb writable (change_fields c) = true ->
  read_change (Decoder.mk t (wires (change_fields c ++ gs))) = Ok (c, Decoder.mk t (wires gs)).
Proof.
  intros Hid Hw. unfold change_fields in *. written Hw. cbn [app]. unfold read_change.
  read_fields. pass_guards. by destruct c.
Qed.
Lemma read_change_inv d c d' :
  read_change d = Ok (c, d') -> reads d (change_fields c) d' /\ id_ok (ch_PackID c).
Proof. unfold read_change. intros H. invert_reads. split; [assemble | typed_fields]. Qed.

Lemma read_event_wires t e gs :
  id_ok (le_PackID e) -> forallb writable (event_fields e) = true ->
  read_event (Decoder.mk t (wires (event_fields e ++ gs))) = Ok (e, Decoder.mk t (wires gs)).
Proof.
  intros Hid Hw. unfold event_fields in *. written Hw. cbn [app]. unfold read_event.
  read_fields. pass_guards. by destruct e.
Qed.
Lemma read_event_inv d e d' :
  read_event d = Ok (e, d') -> reads d (event_fields e) d' /\ id_ok (le_PackID e).
Proof. unfold read_event. intros H. invert_reads. split; [assemble | typed_fields]. Qed.

Lemma read_tally_wires t y gs :
  tally_ok y -> forallb writable (tally_fields y) = true ->
  read_tally (Decoder.mk t (wires (tally_fields y ++ gs))) = Ok (y, Decoder.mk t (wires gs)).
Proof.
  intros (? & ? & ? & ?) Hw. unfold tally_fields in *. written Hw. cbn [app]. unfold read_tally.
  read_fields. pass_guards. by destruct y.
Qed.
Lemma read_tally_inv d y d' : read_tally d = Ok (y, d') -> reads d (tally_fields y) d' /\ tally_ok y.
Proof. unfold read_tally. intros H. invert_reads. split; [assemble | typed_fields]. Qed.

#[export] Instance LegacyImportReceiptRecord_RoundTrip : RoundTrip LegacyImportReceiptRecord.
Proof.
  intros r b Hok H. cbn [marshal unmarshal stored record_ok LegacyImportReceiptRecord_codec] in *.
  unfold LegacyImportReceiptRecord_ok in Hok. destruct_and?.
  unfold LegacyImportReceiptRecord_MarshalBinary, receipt_base_fields, receipt_tally_fields in H.
  inv_results. repeat (rewrite <- app_assoc in H; cbn [app] in H). encoded H. split_bools.
  assert (uint32 (zlen (lr_Changes r))) by (nonnegs; range).
  assert (uint32 (zlen (lr_Events r))) by (nonnegs; range).
  assert (uint32 (zlen (lr_IndexTallies r))) by (nonnegs; range).
  unfold UnmarshalLegacyImportReceiptRecord. start_decoder. read_fields. decide_guard.
  rewrite (many_round_trip _ change_fields (fun c => id_ok (ch_PackID c))) by auto using read_change_wires.
  cbn [rbind]. read_fields. decide_guard.
  rewrite (many_round_trip _ event_fields (fun e => id_ok (le_PackID e))) by auto using read_event_wires.
  cbn [rbind]. read_fields. decide_guard.
  rewrite (many_round_trip_end _ tally_fields tally_ok) by auto using read_tally_wires.
  cbn [rbind]. decide_guard. read_fields. by destruct r.
Qed.

(** Receipts written before index tallies existed end after the events. *)
Lemma LegacyImportReceiptRecord_prefix b r :
  UnmarshalLegacyImportReceiptRecord b = Ok r ->
  LegacyImportReceiptRecord_ok r /\
  exists missing, In missing [[]; [U32 0]] /\
    z2b Version :: wires (receipt_base_fields r ++ receipt_tally_fields r) = b ++ wires missing.
Proof.
  unfold UnmarshalLegacyImportReceiptRecord. intros H. invert_reads.
  read_list read_change_inv. read_list read_event_inv.
  match goal with E : (if more ?d then _ else _) = _ |- _ => destruct (more d) end; invert_reads.
  1: read_list read_tally_inv.
  all: split; [typed_fields|].
  - exists []. split; [by left|]. by read_in_full.
  - exists [U32 0]. split; [right; left; reflexivity|].
    match goal with |- context [receipt_tally_fields ?r] =>
      change (wires [U32 0]) with (wires (receipt_tally_fields r)) end.
    by read_prefix.
Qed.
