(* ===== verification/SnapshotRecords.v ===== *)
(** * Directories, hard links, paths, snapshots and content manifests
    ([internal/index/schema/records_snapshot.go]) *)
From stdpp Require Import base list numbers strings.
From Stdlib Require Import ZArith Lia.
From coqutil Require Import Datatypes.RecordSetters.
From S2P Require Import Prelude Codec Keys KeyParse Records InodeRecords Sha256.
Import TriangleBracketNotations.
Import Decoder (newDecoder, more, many, many_after).

Definition NodeFile : Z := 1.
Definition NodeDirectory : Z := 2.
Definition NodeSymlink : Z := 3.
Definition NodeOther : Z := 4.

(** ** Directory revisions *)

Record DirectoryChild := mkDirectoryChild {
  dc_Name : bytes; dc_Inode : Z; dc_Type : Z; dc_MetadataKey : bytes }.

Record DirectoryRevision := mkDirectoryRevision {
  dr_ParentInode : Z;
  dr_Children : list DirectoryChild;
  dr_MTime : Z;
  dr_CTime : Z;
  dr_Size : Z;
  dr_Mode : Z;
  dr_UID : Z;
  dr_GID : Z;
  dr_Known : Z;
  dr_SourcePath : bytes;
  dr_Freshness : Z;
}.

Definition validChildMetadataKind (nodeType : Z) (keyKind : KeyKind) : bool :=
  if nodeType =? NodeDirectory then
    match keyKind with KeyDirectoryRevision => true | _ => false end
  else
    (NodeFile <=? nodeType) && (nodeType <=? NodeOther)
    && match keyKind with KeyInodeRevision => true | _ => false end.

(** [err != nil || !validChildMetadataKind(child.Type, parsed.Kind) || parsed.Inode != child.Inode] *)
Definition child_mismatch (nodeType inode : Z) (key : bytes) : bool :=
  match ParseKey key with
  | Err _ => true
  | Ok parsed => negb (validChildMetadataKind nodeType (PK.Kind parsed)) || negb (PK.Inode parsed =? inode)
  end.
Arguments child_mismatch : simpl never.

Definition invalid_node_type (nodeType : Z) : bool := (nodeType <? NodeFile) || (NodeOther <? nodeType).

(** [sort.Slice] by name. The sort is not stable, but children with equal names
    are refused, and children with distinct names have one sorted order. *)
Fixpoint insert_child (c : DirectoryChild) (l : list DirectoryChild) : list DirectoryChild :=
  match l with
  | [] => [c]
  | x :: l' =>
      match bytes_compare (dc_Name c) (dc_Name x) with
      | Gt => x :: insert_child c l'
      | _ => c :: l
      end
  end.
Definition sort_children (l : list DirectoryChild) : list DirectoryChild := foldr insert_child [] l.

(** [index > 0 && child.Name == previous] *)
Definition same_name (previous : option DirectoryChild) (name : bytes) : bool :=
  match previous with Some p => bytes_eqb name (dc_Name p) | None => false end.

Definition child_fields (previous : option DirectoryChild) (c : DirectoryChild) : list field :=
  [Refuse (bytes_eqb (dc_Name c) [] || same_name previous (dc_Name c) || invalid_node_type (dc_Type c))
     "invalid directory child";
   Str (dc_Name c); U64 (dc_Inode c); U8 (dc_Type c); Str (dc_MetadataKey c);
   Refuse (child_mismatch (dc_Type c) (dc_Inode c) (dc_MetadataKey c)) "child metadata reference mismatch"].

Definition directory_base_fields (r : DirectoryRevision) : list field :=
  [U64 (dr_ParentInode r); U32 (zlen (dr_Children r))] ++ fields_after child_fields None (dr_Children r).
Definition directory_metadata_fields (r : DirectoryRevision) : list field :=
  [I64 (dr_MTime r); I64 (dr_CTime r); U64 (dr_Size r); U32 (dr_Mode r); U32 (dr_UID r);
   U32 (dr_GID r); U32 (dr_Known r); Str (dr_SourcePath r); U8 (dr_Freshness r)].

Definition directory_sorted (r : DirectoryRevision) : DirectoryRevision :=
  r <| dr_Children := sort_children (dr_Children r) |>.

Definition DirectoryRevision_MarshalBinary (r : DirectoryRevision) : result bytes :=
  do! guard ((FreshnessVerified <? dr_Freshness r) || unknown_bits (dr_Known r)) "invalid directory state";
  let r := directory_sorted r in
  encode (directory_base_fields r ++ directory_metadata_fields r).

(** [index > 0 && child.Name <= previous] *)
Definition not_after (previous : option DirectoryChild) (name : bytes) : bool :=
  match previous with
  | Some p => match bytes_compare name (dc_Name p) with Gt => false | _ => true end
  | None => false
  end.

Definition read_child (previous : option DirectoryChild) (d : Decoder.decoder)
  : result (DirectoryChild * Decoder.decoder) :=
  let! (name, d) := Decoder.bytes d in
  do! guard (bytes_eqb name [] || not_after previous name) "children are not uniquely sorted";
  let! (inode, d) := Decoder.u64 d in
  let! (type, d) := Decoder.u8 d in
  do! guard (invalid_node_type type) "invalid child type";
  let! (key, d) := Decoder.bytes d in
  do! guard (child_mismatch type inode key) "child metadata reference mismatch";
  Ok (mkDirectoryChild name inode type key, d).

Definition UnmarshalDirectoryRevision (data : bytes) : result DirectoryRevision :=
  let! d := newDecoder data in
  let! (parentInode, d) := Decoder.u64 d in
  let! (count, d) := Decoder.u32 d in
  do! guard (zlen data <? count * 13) "invalid child count";
  let! (children, d) := many_after (Z.to_nat count) read_child None d in
  if more d then
    let! (mtime, d) := Decoder.i64 d in
    let! (ctime, d) := Decoder.i64 d in
    let! (size, d) := Decoder.u64 d in
    let! (mode, d) := Decoder.u32 d in
    let! (uid, d) := Decoder.u32 d in
    let! (gid, d) := Decoder.u32 d in
    let! (known, d) := Decoder.u32 d in
    do! guard (unknown_bits known) "invalid directory known-field mask";
    let! (sourcePath, d) := Decoder.bytes d in
    let! (freshness, d) := Decoder.u8 d in
    do! guard (FreshnessVerified <? freshness) "invalid directory freshness";
    do! Decoder.done d;
    Ok (mkDirectoryRevision parentInode children mtime ctime size mode uid gid (wrap_u 16 known)
          sourcePath freshness)
  else
    Ok (mkDirectoryRevision parentInode children 0 0 0 0 0 0 0 [] FreshnessUnknown).

Definition child_ok (c : DirectoryChild) : Prop := uint64 (dc_Inode c) /\ uint8 (dc_Type c).
Definition DirectoryRevision_ok (r : DirectoryRevision) : Prop :=
  uint64 (dr_ParentInode r) /\ Forall child_ok (dr_Children r) /\ int64 (dr_MTime r) /\
  int64 (dr_CTime r) /\ uint64 (dr_Size r) /\ uint32 (dr_Mode r) /\ uint32 (dr_UID r) /\
  uint32 (dr_GID r) /\ uint16 (dr_Known r) /\ uint8 (dr_Freshness r).
#[export] Hint Unfold child_ok DirectoryRevision_ok child_fields directory_base_fields
  directory_metadata_fields : codec.

#[export] Instance DirectoryRevision_codec : RecordCodec DirectoryRevision := {
  record_ok := DirectoryRevision_ok;
  stored := directory_sorted;
  marshal := DirectoryRevision_MarshalBinary;
  unmarshal := UnmarshalDirectoryRevision;
}.

(** *** Sorting the children *)

Definition name_le (p : option DirectoryChild) (c : DirectoryChild) : Prop :=
  match p with Some q => bytes_compare (dc_Name q) (dc_Name c) <> Gt | None => True end.

Lemma insert_child_sorted c l p :
  name_le p c -> chained name_le p l -> chained name_le p (insert_child c l).
Proof.
  revert p; induction l as [|x l IH]; intros p Hc Hl; cbn; [done|]. destruct Hl as [Hx Hl].
  destruct (bytes_compare (dc_Name c) (dc_Name x)) eqn:E; cbn.
  1-2: split; [done|]; split; [by rewrite E | done].
  split; [done|]. apply IH; [|done]. cbn. rewrite bytes_compare_antisym, E. done.
Qed.

Lemma sort_children_sorted l : chained name_le None (sort_children l).
Proof. induction l as [|x l IH]; [done|]. by apply insert_child_sorted. Qed.

Lemma insert_child_perm c l : Permutation (insert_child c l) (c :: l).
Proof.
  induction l as [|x l IH]; [done|]. cbn. case_match; [done..|].
  rewrite IH. apply Permutation_swap.
Qed.

Lemma sort_children_perm l : Permutation (sort_children l) l.
Proof. induction l as [|x l IH]; [done|]. cbn. by rewrite insert_child_perm, IH. Qed.

(** A sorted list of children is its own sorted form. *)
Lemma insert_child_min c l : chained name_le (Some c) l -> insert_child c l = c :: l.
Proof.
  destruct l as [|x l]; [done|]. cbn. intros [Hc _].
  by destruct (bytes_compare (dc_Name c) (dc_Name x)).
Qed.

Lemma sort_children_id l p : chained name_le p l -> sort_children l = l.
Proof.
  revert p; induction l as [|x l IH]; intros p Hl; [done|]. destruct Hl as [_ Hl].
  change (sort_children (x :: l)) with (insert_child x (sort_children l)).
  rewrite (IH _ Hl). by apply insert_child_min.
Qed.

(** *** The directory codec *)

Lemma read_child_wires t p c gs :
  child_ok c /\ name_le p c -> forallb writable (child_fields p c) = true ->
  read_child p (Decoder.mk t (wires (child_fields p c ++ gs))) = Ok (c, Decoder.mk t (wires gs)).
Proof.
  intros [[? ?] Hle] Hw. unfold child_fields in *. written Hw. split_bools. cbn [app].
  assert (not_after p (dc_Name c) = false).
  { unfold not_after, name_le, same_name in *. destruct p as [q|]; [|done]. split_bools.
    rewrite bytes_compare_antisym. destruct (bytes_compare (dc_Name q) (dc_Name c)) eqn:E; try done.
    apply bytes_compare_eq in E. congruence. }
  unfold read_child. read_fields. decide_guard. read_fields. decide_guard. read_fields. pass_guards.
  by destruct c.
Qed.

Lemma not_after_same p name : not_after p name = false -> same_name p name = false.
Proof.
  unfold not_after, same_name. destruct p as [q|]; [|done]. destruct (bytes_eqb name (dc_Name q)) eqn:E; [|done].
  apply bytes_eqb_eq in E as ->. by rewrite bytes_compare_refl.
Qed.

Lemma not_after_le p c : not_after p (dc_Name c) = false -> name_le p c.
Proof.
  unfold not_after, name_le. destruct p as [q|]; [|done]. rewrite (bytes_compare_antisym (dc_Name q)).
  by destruct (bytes_compare (dc_Name q) (dc_Name c)).
Qed.

Lemma read_child_inv p d c d' :
  read_child p d = Ok (c, d') -> reads d (child_fields p c) d' /\ child_ok c /\ name_le p c.
Proof.
  unfold read_child. intros H. invert_reads. split; [|split; [typed_fields|]].
  - unfold child_fields. cbn [dc_Name dc_Inode dc_Type dc_MetadataKey]. split_bools.
    eapply reads_cons; [apply reads_refuse|assemble].
    rewrite (proj2 (bytes_eqb_neq _ _)) by done. by rewrite not_after_same.
  - split_bools. by apply not_after_le.
Qed.

#[export] Instance DirectoryRevision_RoundTrip : RoundTrip DirectoryRevision.
Proof.
  intros r b Hok H. cbn [marshal unmarshal stored record_ok DirectoryRevision_codec] in *.
  assert (DirectoryRevision_ok (directory_sorted r) /\ chained name_le None (dr_Children (directory_sorted r))) as [Hok' Hs].
  { split; [|apply sort_children_sorted]. unfold DirectoryRevision_ok in *. destruct_and?.
    cbn -[u_range i_range sort_children]. unfold constant. split_and!; try done. by rewrite sort_children_perm. }
  unfold DirectoryRevision_MarshalBinary, directory_base_fields, directory_metadata_fields in H.
  inv_results. rewrite <- app_assoc in H.
  change (dr_Freshness r) with (dr_Freshness (directory_sorted r)) in E.
  change (dr_Known r) with (dr_Known (directory_sorted r)) in E.
  set (r' := directory_sorted r) in *. clearbody r'. encoded H. split_bools.
  unfold DirectoryRevision_ok in Hok'. destruct_and?.
  assert (chained (fun p c => child_ok c /\ name_le p c) None (dr_Children r')) as Hc
    by (apply chained_and; [by apply chained_Forall | done]).
  assert (13 * zlen (dr_Children r') <= zlen (wires (fields_after child_fields None (dr_Children r')))).
  { apply (fields_after_length _ _ 13 _) with (2 := Hc). intros p x _. unfold child_fields. sizes. }
  assert (uint32 (zlen (dr_Children r'))) by sizes. assert (uint32 (dr_Known r')) by range.
  unfold UnmarshalDirectoryRevision. start_decoder. cbn [app]. read_fields. decide_guard.
  rewrite (many_after_round_trip _ _ _ _ _ _ (read_child_wires _) None Hc) by done. cbn [rbind].
  read_fields. pass_guards. read_fields. decide_guard. read_fields. rewrite wrap_u_small by done. by destruct r'.
Qed.

(** A directory without metadata fields was written before they existed; every
    other directory is the encoding of the record read. *)
Lemma DirectoryRevision_prefix b r :
  UnmarshalDirectoryRevision b = Ok r ->
  DirectoryRevision_ok r /\ directory_sorted r = r /\
  exists missing,
    In missing [[]; [I64 0; I64 0; U64 0; U32 0; U32 0; U32 0; U32 0; Str []; U8 FreshnessUnknown]] /\
    z2b Version :: wires (directory_base_fields r ++ directory_metadata_fields r) = b ++ wires missing.
Proof.
  unfold UnmarshalDirectoryRevision. intros H. invert_reads. read_after read_child_inv.
  match goal with Hc : chained _ None ?l |- _ =>
    assert (Forall child_ok l) by (eapply chained_Forall, chained_impl; [|exact Hc]; intros ? ? []; eauto);
    assert (sort_children l = l) as Hsort by (eapply sort_children_id, chained_impl; [|exact Hc]; intros ? ? []; eauto)
  end.
  match type of H with (if more ?d then _ else _) = _ =>
    assert (more d = false -> Decoder.done d = Ok tt) by (unfold Decoder.done; by intros ->);
    destruct (more d) end; invert_reads; try read_known.
  all: split; [typed_fields|]; split;
    [unfold directory_sorted; cbn -[sort_children]; unfold constant; by rewrite Hsort|].
  - exists []. split; [by left|]. by read_in_full.
  - eexists. split; [right; left; reflexivity|]. eapply reads_prefix; [eassumption | assemble | by eauto].
Qed.

(** ** Hard links *)

Record HardlinkParentRef := mkHardlinkParentRef { hp_ParentInode : Z; hp_Name : bytes }.
Record HardlinkRefsRecord := mkHardlinkRefsRecord {
  hr_FSID : Z; hr_Inode : Z; hr_Revision : Z; hr_Parents : list HardlinkParentRef; hr_Freshness : Z }.

Definition parent_fields (previous : option HardlinkParentRef) (p : HardlinkParentRef) : list field :=
  [U64 (hp_ParentInode p); Str (hp_Name p)].

Definition HardlinkRefsRecord_MarshalBinary (r : HardlinkRefsRecord) : result bytes :=
  do! guard ((FreshnessVerified <? hr_Freshness r) || (zlen (hr_Parents r) <? 2)
             || (65535 <? zlen (hr_Parents r))) "invalid hardlink state";
  encode ([U32 (hr_FSID r); U64 (hr_Inode r); U64 (hr_Revision r); U16 (zlen (hr_Parents r))] ++
          fields_after parent_fields None (hr_Parents r) ++ [U8 (hr_Freshness r)]).

(** [parent.Name == "" || (index > 0 && parent.Name <= previous)] *)
Definition unsorted_parent (previous : option HardlinkParentRef) (name : bytes) : bool :=
  bytes_eqb name [] ||
  match previous with
  | Some p => match bytes_compare name (hp_Name p) with Gt => false | _ => true end
  | None => false
  end.

Definition read_parent (previous : option HardlinkParentRef) (d : Decoder.decoder)
  : result (HardlinkParentRef * Decoder.decoder) :=
  let! (parentInode, d) := Decoder.u64 d in
  let! (name, d) := Decoder.bytes d in
  do! guard (unsorted_parent previous name) "hardlink parents are not uniquely sorted";
  Ok (mkHardlinkParentRef parentInode name, d).

Definition UnmarshalHardlinkRefsRecord (data : bytes) : result HardlinkRefsRecord :=
  let! d := newDecoder data in
  let! (fsid, d) := Decoder.u32 d in
  let! (inode, d) := Decoder.u64 d in
  let! (revision, d) := Decoder.u64 d in
  let! (count, d) := Decoder.u16 d in
  do! guard ((count <? 2) || (zlen data <? count * 20)) "invalid hardlink parent count";
  let! (parents, d) := many_after (Z.to_nat count) read_parent None d in
  let! (freshness, d) := Decoder.u8 d in
  do! guard (FreshnessVerified <? freshness) "invalid hardlink freshness";
  do! Decoder.done d;
  Ok (mkHardlinkRefsRecord fsid inode revision parents freshness).

Definition parent_ok (previous : option HardlinkParentRef) (p : HardlinkParentRef) : Prop :=
  uint64 (hp_ParentInode p) /\ unsorted_parent previous (hp_Name p) = false.

(** The decoder wants the parents sorted by name, and 20 bytes of the value for
    each of them; the encoder checks neither. *)
Definition HardlinkRefsRecord_ok (r : HardlinkRefsRecord) : Prop :=
  uint32 (hr_FSID r) /\ uint64 (hr_Inode r) /\ uint64 (hr_Revision r) /\ uint8 (hr_Freshness r) /\
  chained parent_ok None (hr_Parents r) /\
  20 * zlen (hr_Parents r) <= 24 + zlen (wires (fields_after parent_fields None (hr_Parents r))).
#[export] Hint Unfold parent_ok HardlinkRefsRecord_ok parent_fields : codec.

#[export] Instance HardlinkRefsRecord_codec : RecordCodec HardlinkRefsRecord := {
  record_ok := HardlinkRefsRecord_ok;
  stored r := r;
  marshal := HardlinkRefsRecord_MarshalBinary;
  unmarshal := UnmarshalHardlinkRefsRecord;
}.

Lemma read_parent_wires t p x gs :
  parent_ok p x -> forallb writable (parent_fields p x) = true ->
  read_parent p (Decoder.mk t (wires (parent_fields p x ++ gs))) = Ok (x, Decoder.mk t (wires gs)).
Proof.
  intros [? ?] Hw. unfold parent_fields in *. written Hw. cbn [app]. unfold read_parent.
  read_fields. pass_guards. by destruct x.
Qed.

Lemma read_parent_inv p d x d' : read_parent p d = Ok (x, d') -> reads d (parent_fields p x) d' /\ parent_ok p x.
Proof. unfold read_parent. intros H. invert_reads. split; [assemble | typed_fields]. Qed.

#[export] Instance HardlinkRefsRecord_RoundTrip : RoundTrip HardlinkRefsRecord.
Proof.
  intros r b Hok H. cbn [marshal unmarshal stored record_ok HardlinkRefsRecord_codec] in *.
  unfold HardlinkRefsRecord_ok in Hok. destruct_and?. unfold HardlinkRefsRecord_MarshalBinary in H.
  inv_results. encoded H. split_bools. assert (uint16 (zlen (hr_Parents r))) by (nonnegs; range).
  unfold UnmarshalHardlinkRefsRecord. start_decoder. cbn [app]. read_fields. decide_guard.
  rewrite (many_after_round_trip _ _ parent_ok) by (done || apply read_parent_wires). cbn [rbind].
  read_fields. decide_guard. read_fields. by destruct r.
Qed.

#[export] Instance HardlinkRefsRecord_Canonical : Canonical HardlinkRefsRecord.
Proof.
  intros b r H. cbn [marshal unmarshal record_ok HardlinkRefsRecord_codec] in *.
  unfold UnmarshalHardlinkRefsRecord in H. invert_reads. read_after read_parent_inv. split_bools.
  match goal with R : reads _ [U16 (zlen ?l)] _ |- _ => pose proof (reads_typed _ _ _ R) as Hn; cbn in Hn end.
  match goal with |- _ /\ ?M = Ok b => assert (M = Ok b) as Hm end.
  { unfold HardlinkRefsRecord_MarshalBinary. cbn -[encode guard rbind Z.ltb zlen]. decide_guard.
    eapply encode_reads; [eassumption | assemble | eassumption]. }
  split; [|exact Hm]. unfold HardlinkRefsRecord_MarshalBinary in Hm. inv_results. encoded Hm.
  cbn [hr_Parents hr_FSID hr_Inode hr_Revision hr_Freshness app] in *.
  match goal with l : list HardlinkParentRef |- _ =>
    assert (20 * zlen l <= 24 + zlen (wires (fields_after parent_fields None l))) by sizes end.
  typed_fields.
Qed.

(** ** Path versions *)

Definition PathBound : Z := 1.
Definition PathTombstone : Z := 2.
Definition PathOverflow : Z := 3.
Definition validPathBindingState (value : Z) : bool := between PathBound PathOverflow value.

Record PathVersionRecord := mkPathVersionRecord {
  pv_State : Z; pv_NodeType : Z; pv_Inode : Z; pv_Revision : Z; pv_Path : bytes }.

Definition PathVersionRecord_MarshalBinary (r : PathVersionRecord) : result bytes :=
  do! guard (negb (validPathBindingState (pv_State r))) "invalid path binding state";
  do! (if pv_State r =? PathBound then
         guard (invalid_node_type (pv_NodeType r) || (pv_Inode r =? 0) || (pv_Revision r =? 0))
           "invalid bound path record"
       else
         guard (negb (pv_NodeType r =? 0) || negb (pv_Inode r =? 0) || negb (pv_Revision r =? 0))
           "non-bound path record carries binding");
  do! guard (negb (pv_State r =? PathOverflow) && negb (bytes_eqb (pv_Path r) []))
        "non-overflow path record carries overflow path";
  encode [U8 (pv_State r); U8 (pv_NodeType r); U64 (pv_Inode r); U64 (pv_Revision r); Str (pv_Path r)].

Definition UnmarshalPathVersionRecord (data : bytes) : result PathVersionRecord :=
  let! d := newDecoder data in
  let! (state, d) := Decoder.u8 d in
  let! (nodeType, d) := Decoder.u8 d in
  let! (inode, d) := Decoder.u64 d in
  let! (revision, d) := Decoder.u64 d in
  let! (path, d) := Decoder.bytes d in
  do! Decoder.done d;
  let record := mkPathVersionRecord state nodeType inode revision path in
  do! PathVersionRecord_MarshalBinary record;
  Ok record.

#[export] Instance PathVersionRecord_codec : RecordCodec PathVersionRecord := {
  record_ok r := uint8 (pv_State r) /\ uint8 (pv_NodeType r) /\ uint64 (pv_Inode r) /\ uint64 (pv_Revision r);
  stored r := r;
  marshal := PathVersionRecord_MarshalBinary;
  unmarshal := UnmarshalPathVersionRecord;
}.

#[export] Instance PathVersionRecord_RoundTrip : RoundTrip PathVersionRecord.
Proof.
  intros r b Hok H. cbn [marshal unmarshal stored record_ok PathVersionRecord_codec] in *. destruct_and?.
  pose proof H as Hm. unfold PathVersionRecord_MarshalBinary in H. inv_results. encoded H.
  unfold UnmarshalPathVersionRecord. start_decoder. read_fields. destruct r; cbn [pv_State pv_NodeType pv_Inode pv_Revision pv_Path] in *.
  by rewrite Hm.
Qed.

#[export] Instance PathVersionRecord_Canonical : Canonical PathVersionRecord.
Proof.
  intros b r H. cbn [marshal unmarshal record_ok PathVersionRecord_codec] in *.
  unfold UnmarshalPathVersionRecord in H. invert_reads. split; [typed_fields|].
  match goal with E : PathVersionRecord_MarshalBinary _ = Ok _ |- _ =>
    rewrite E; unfold PathVersionRecord_MarshalBinary in E; inv_results end.
  match goal with E : encode ?fs = Ok _ |- _ =>
    assert (encode fs = Ok b) by (eapply encode_reads; [eassumption | assemble | eassumption]) end.
  congruence.
Qed.

(** ** Snapshots *)
Section Snapshot.

(** [json.Unmarshal] of a snapshot document into a structure with the single
    field [tree]: the field's string, empty where it is absent, or [None] when
    the document does not decode. *)
Variable json_tree : bytes -> option bytes.

Record SnapshotRecord := mkSnapshotRecord {
  sn_CommitSequence : Z;
  sn_RootFSID : Z;
  sn_RootInode : Z;
  sn_RootRevision : Z;
  sn_OriginalJSON : bytes;
  sn_JSONHash : ID;
  sn_LegacyTree : ID;
}.

(** [hex.DecodeString] *)
Definition hex_digit (b : byte) : option Z :=
  let v := b2z b in
  if between 48 57 v then Some (v - 48)
  else if between 97 102 v then Some (v - 87)
  else if between 65 70 v then Some (v - 55)
  else None.

Fixpoint hex_decode (s : bytes) : option bytes :=
  match s with
  | [] => Some []
  | a :: b :: rest =>
      match hex_digit a, hex_digit b, hex_decode rest with
      | Some h, Some l, Some out => Some (z2b (16 * h + l) :: out)
      | _, _, _ => None
      end
  | [_] => None
  end.

Definition SnapshotRecord_validateScope (r : SnapshotRecord) : result unit :=
  if is_zero_id (sn_LegacyTree r) then
    guard ((sn_CommitSequence r =? 0) || (sn_RootRevision r =? 0)) "invalid snapshot scope"
  else
    do! guard (negb (sn_CommitSequence r =? 0) || negb (sn_RootFSID r =? 0)
               || negb (sn_RootInode r =? 0) || negb (sn_RootRevision r =? 0))
          "legacy snapshot has normalized identity";
    match json_tree (sn_OriginalJSON r) with
    | None => Err "invalid legacy snapshot JSON"
    | Some tree =>
        guard (match hex_decode tree with
               | Some id => negb (bytes_eqb id (sn_LegacyTree r))
               | None => true
               end) "legacy snapshot tree mismatch"
    end.

Arguments SnapshotRecord_validateScope : simpl never.

Definition SnapshotRecord_MarshalBinary (r : SnapshotRecord) : result bytes :=
  do! SnapshotRecord_validateScope r;
  let hash := Sum256 (sn_OriginalJSON r) in
  encode
    ([U64 (sn_CommitSequence r); U32 (sn_RootFSID r); U64 (sn_RootInode r); U64 (sn_RootRevision r);
      Str (sn_OriginalJSON r);
      Refuse (negb (is_zero_id (sn_JSONHash r)) && negb (bytes_eqb (sn_JSONHash r) hash))
        "snapshot JSON hash mismatch";
      IDf hash] ++
     if is_zero_id (sn_LegacyTree r) then [] else [IDf (sn_LegacyTree r)]).

Definition UnmarshalSnapshotRecord (data : bytes) : result SnapshotRecord :=
  let! d := newDecoder data in
  let! (commitSequence, d) := Decoder.u64 d in
  let! (rootFSID, d) := Decoder.u32 d in
  let! (rootInode, d) := Decoder.u64 d in
  let! (rootRevision, d) := Decoder.u64 d in
  let! (originalJSON, d) := Decoder.bytes d in
  let! (jsonHash, d) := Decoder.id d in
  let! (legacyTree, d) := if rootRevision =? 0 then Decoder.id d else Ok (zero_id, d) in
  let record := mkSnapshotRecord commitSequence rootFSID rootInode rootRevision originalJSON
                  jsonHash legacyTree in
  do! SnapshotRecord_validateScope record;
  do! guard (negb (bytes_eqb (Sum256 originalJSON) jsonHash)) "invalid snapshot scope or hash";
  do! Decoder.done d;
  Ok record.

Definition SnapshotRecord_ok (r : SnapshotRecord) : Prop :=
  uint64 (sn_CommitSequence r) /\ uint32 (sn_RootFSID r) /\ uint64 (sn_RootInode r) /\
  uint64 (sn_RootRevision r) /\ id_ok (sn_JSONHash r) /\ id_ok (sn_LegacyTree r).

(** The hash is computed when the caller leaves it out. *)
Definition snapshot_stored (r : SnapshotRecord) : SnapshotRecord :=
  r <| sn_JSONHash := Sum256 (sn_OriginalJSON r) |>.

Lemma snapshot_scope_root r :
  SnapshotRecord_validateScope r = Ok tt ->
  is_zero_id (sn_LegacyTree r) = negb (sn_RootRevision r =? 0).
Proof.
  unfold SnapshotRecord_validateScope. destruct (is_zero_id (sn_LegacyTree r)); intros H; inv_results.
  - apply orb_false_iff in H as [_ ->]. done.
  - apply orb_false_iff in E as [_ E]. by destruct (sn_RootRevision r =? 0).
Qed.

Lemma SnapshotRecord_round_trip r b :
  SnapshotRecord_ok r -> SnapshotRecord_MarshalBinary r = Ok b ->
  UnmarshalSnapshotRecord b = Ok (snapshot_stored r).
Proof.
  intros Hok H. unfold SnapshotRecord_ok in Hok. destruct_and?.
  unfold SnapshotRecord_MarshalBinary in H. inv_results. destruct a. pose proof (snapshot_scope_root r E) as Hroot.
  pose proof (Sum256_ok (sn_OriginalJSON r)).
  assert (SnapshotRecord_validateScope (snapshot_stored r) = Ok tt) as Hv by exact E.
  unfold UnmarshalSnapshotRecord. encoded H. start_decoder. cbn [app]. read_fields.
  destruct (is_zero_id (sn_LegacyTree r)) eqn:Ez; symmetry in Hroot.
  - apply negb_true_iff in Hroot as ->. cbn [rbind]. apply is_zero_id_spec in Ez.
    unfold snapshot_stored in *. destruct r; cbn in *. subst. unfold constant in *. rewrite Hv. cbn [rbind].
    by rewrite bytes_eqb_refl.
  - apply negb_false_iff in Hroot as ->. read_fields. unfold snapshot_stored in *. destruct r; cbn in *.
    unfold constant in *. rewrite Hv. cbn [rbind]. by rewrite bytes_eqb_refl.
Qed.

Lemma SnapshotRecord_canonical b r :
  UnmarshalSnapshotRecord b = Ok r -> SnapshotRecord_ok r /\ SnapshotRecord_MarshalBinary r = Ok b.
Proof.
  unfold UnmarshalSnapshotRecord. intros H. invert_reads. destruct a0.
  match goal with V : SnapshotRecord_validateScope ?r = Ok tt |- _ => pose proof (snapshot_scope_root r V) as Hroot end.
  cbn [sn_LegacyTree sn_RootRevision] in Hroot. split_bools. subst.
  unfold SnapshotRecord_MarshalBinary.
  cbn [sn_CommitSequence sn_RootFSID sn_RootInode sn_RootRevision sn_OriginalJSON sn_JSONHash sn_LegacyTree].
  pass_guards. rewrite bytes_eqb_refl, andb_false_r, Hroot.
  destruct (Z.eqb_spec z2 0); cbn [negb]; invert_reads.
  all: split; [unfold SnapshotRecord_ok; typed_fields; apply zero_id_ok|].
  all: eapply encode_reads; [eassumption | | eassumption]; cbn [app];
    do 5 (eapply reads_cons; [eassumption|]); eapply reads_cons; [by apply reads_refuse|]; chain_reads.
Qed.

End Snapshot.

(** ** Content manifests *)

Record ContentManifest := mkContentManifest {
  cm_TotalCount : Z; cm_Segment : Z; cm_SegmentCount : Z; cm_ContentIDs : list ID }.

Definition MaxContentSegmentIDs : Z := (MaxEncodedValueBytes - 17) / 32.
Definition DefaultContentSegmentIDs : Z := 4096.

Definition invalid_content_segment (total segment segments count : Z) : bool :=
  (MaxContentIDs <? total) || (segments =? 0) || (segments <=? segment) || (count =? 0)
  || (MaxContentSegmentIDs <? count) || (total <? count).
Arguments invalid_content_segment : simpl never.

Definition ContentManifest_MarshalBinary (r : ContentManifest) : result bytes :=
  do! guard (invalid_content_segment (cm_TotalCount r) (cm_Segment r) (cm_SegmentCount r)
               (zlen (cm_ContentIDs r))) "invalid content segment";
  encode ([U32 (cm_TotalCount r); U32 (cm_Segment r); U32 (cm_SegmentCount r);
           U32 (zlen (cm_ContentIDs r))] ++ concat (map (fun id => [IDf id]) (cm_ContentIDs r))).

Definition UnmarshalContentManifest (data : bytes) : result ContentManifest :=
  let! d := newDecoder data in
  let! (total, d) := Decoder.u32 d in
  let! (segment, d) := Decoder.u32 d in
  let! (segmentCount, d) := Decoder.u32 d in
  let! (count, d) := Decoder.u32 d in
  do! guard (zlen data <? count * 32) "invalid content count";
  let! (ids, d) := many (Z.to_nat count) Decoder.id d in
  do! guard (invalid_content_segment total segment segmentCount count) "invalid content segment";
  do! Decoder.done d;
  Ok (mkContentManifest total segment segmentCount ids).

Definition ContentManifest_ok (r : ContentManifest) : Prop :=
  uint32 (cm_TotalCount r) /\ uint32 (cm_Segment r) /\ uint32 (cm_SegmentCount r) /\
  Forall id_ok (cm_ContentIDs r).
#[export] Hint Unfold ContentManifest_ok : codec.

#[export] Instance ContentManifest_codec : RecordCodec ContentManifest := {
  record_ok := ContentManifest_ok;
  stored r := r;
  marshal := ContentManifest_MarshalBinary;
  unmarshal := UnmarshalContentManifest;
}.

#[export] Instance ContentManifest_RoundTrip : RoundTrip ContentManifest.
Proof.
  intros r b Hok H. cbn [marshal unmarshal stored record_ok ContentManifest_codec] in *.
  unfold ContentManifest_ok in Hok. destruct_and?. unfold ContentManifest_MarshalBinary in H.
  inv_results. encoded H.
  match goal with Hids : Forall id_ok _ |- _ =>
    pose proof (wires_concat_length _ _ 32 _ id_size Hids) as Hsize end.
  assert (uint32 (zlen (cm_ContentIDs r))) by sizes.
  unfold UnmarshalContentManifest. start_decoder. cbn [app]. read_fields. decide_guard.
  rewrite (many_round_trip_end _ (fun id => [IDf id]) id_ok) by auto using read_id_wires. cbn [rbind].
  pass_guards. by destruct r.
Qed.

#[export] Instance ContentManifest_Canonical : Canonical ContentManifest.
Proof.
  intros b r H. cbn [marshal unmarshal record_ok ContentManifest_codec] in *.
  unfold UnmarshalContentManifest in H. invert_reads. read_list read_id_inv. split; [typed_fields|].
  unfold ContentManifest_MarshalBinary. cbn -[u_range i_range id_ok zlen encode guard rbind].
  pass_guards. eapply encode_reads; [eassumption | assemble | eassumption].
Qed.
