(* ===== verification/AnalyticsRecords.v ===== *)
(** * Analytics records ([internal/index/schema/analytics.go])

    Fact segments, dictionaries, dimension indexes, residency and deltas,
    crawl proofs and source bindings, watermarks and manifests, derived
    summaries and query jobs. *)
From stdpp Require Import base list numbers strings.
From Stdlib Require Import ZArith Lia.
From S2P Require Import Prelude Codec Keys KeyParse Records InodeRecords.
Import Decoder (newDecoder, more, many).

Definition AnalyticsColumnSizeLog10 : Z := 15.
Definition AnalyticsCodecRaw : Z := 1.
Definition AnalyticsCodecDelta : Z := 2.
Definition AnalyticsCodecRLE : Z := 3.
Definition AnalyticsCodecZstd : Z := 4.
Definition AnalyticsCodecRoaring : Z := 5.

(** ** Dictionary values *)

Record AnalyticsDictionaryRecord := mkAnalyticsDictionaryRecord {
  ad_Value : bytes;
}.

Definition nonempty_dictionary (r : AnalyticsDictionaryRecord) : bool :=
  negb (bytes_eqb (ad_Value r) []).
Arguments nonempty_dictionary : simpl never.

Definition AnalyticsDictionaryRecord_MarshalBinary (r : AnalyticsDictionaryRecord) : result bytes :=
  do! guard (negb (nonempty_dictionary r)) "empty analytics dictionary value";
  encode [Str (ad_Value r)].

Definition UnmarshalAnalyticsDictionaryRecord (data : bytes) : result AnalyticsDictionaryRecord :=
  let! d := newDecoder data in
  let! (value, d) := Decoder.bytes d in
  let record := mkAnalyticsDictionaryRecord value in
  do! guard (negb (nonempty_dictionary record)) "empty analytics dictionary value";
  do! Decoder.done d;
  Ok record.

Definition AnalyticsDictionaryRecord_ok (r : AnalyticsDictionaryRecord) : Prop :=
  True.
#[export] Hint Unfold AnalyticsDictionaryRecord_ok : codec.

#[export] Instance AnalyticsDictionaryRecord_codec : RecordCodec AnalyticsDictionaryRecord := {
  record_ok := AnalyticsDictionaryRecord_ok;
  stored r := r;
  marshal := AnalyticsDictionaryRecord_MarshalBinary;
  unmarshal := UnmarshalAnalyticsDictionaryRecord;
}.
#[export] Instance AnalyticsDictionaryRecord_RoundTrip : RoundTrip AnalyticsDictionaryRecord.
Proof. round_trip_record AnalyticsDictionaryRecord_MarshalBinary UnmarshalAnalyticsDictionaryRecord. Qed.
#[export] Instance AnalyticsDictionaryRecord_Canonical : Canonical AnalyticsDictionaryRecord.
Proof. canonical_record AnalyticsDictionaryRecord_MarshalBinary UnmarshalAnalyticsDictionaryRecord. Qed.

(** ** Segment metadata and dimension indexes *)

Record AnalyticsSegmentMetadataRecord := mkAnalyticsSegmentMetadataRecord {
  sm_RowCount : Z;
  sm_MinCreatedAt : Z;
  sm_MaxCreatedAt : Z;
  sm_MinLogicalSize : Z;
  sm_MaxLogicalSize : Z;
  sm_MinRevision : Z;
  sm_MaxRevision : Z;
  sm_FirstCommit : Z;
  sm_LastCommit : Z;
  sm_ClassificationEpoch : Z;
  sm_Bloom : bytes;
  sm_CodecParameters : bytes;
}.

Definition validAnalyticsSegmentMetadata (r : AnalyticsSegmentMetadataRecord) : bool :=
  (0 <? sm_RowCount r) && (sm_MinCreatedAt r <=? sm_MaxCreatedAt r)
  && (sm_MinLogicalSize r <=? sm_MaxLogicalSize r) && (0 <? sm_MinRevision r)
  && (sm_MinRevision r <=? sm_MaxRevision r) && (0 <? sm_FirstCommit r)
  && (sm_FirstCommit r <=? sm_LastCommit r) && (0 <? sm_ClassificationEpoch r).
Arguments validAnalyticsSegmentMetadata : simpl never.

Definition AnalyticsSegmentMetadataRecord_MarshalBinary (r : AnalyticsSegmentMetadataRecord) : result bytes :=
  do! guard (negb (validAnalyticsSegmentMetadata r)) "invalid analytics segment metadata";
  encode [U32 (sm_RowCount r); I64 (sm_MinCreatedAt r); I64 (sm_MaxCreatedAt r);
          U64 (sm_MinLogicalSize r); U64 (sm_MaxLogicalSize r); U64 (sm_MinRevision r);
          U64 (sm_MaxRevision r); U64 (sm_FirstCommit r); U64 (sm_LastCommit r);
          U64 (sm_ClassificationEpoch r); Str (sm_Bloom r); Str (sm_CodecParameters r)].

Definition UnmarshalAnalyticsSegmentMetadataRecord (data : bytes) : result AnalyticsSegmentMetadataRecord :=
  let! d := newDecoder data in
  let! (rowCount, d) := Decoder.u32 d in
  let! (minCreatedAt, d) := Decoder.i64 d in
  let! (maxCreatedAt, d) := Decoder.i64 d in
  let! (minLogicalSize, d) := Decoder.u64 d in
  let! (maxLogicalSize, d) := Decoder.u64 d in
  let! (minRevision, d) := Decoder.u64 d in
  let! (maxRevision, d) := Decoder.u64 d in
  let! (firstCommit, d) := Decoder.u64 d in
  let! (lastCommit, d) := Decoder.u64 d in
  let! (classificationEpoch, d) := Decoder.u64 d in
  let! (bloom, d) := Decoder.bytes d in
  let! (codecParameters, d) := Decoder.bytes d in
  let record := mkAnalyticsSegmentMetadataRecord rowCount minCreatedAt maxCreatedAt
      minLogicalSize maxLogicalSize minRevision maxRevision firstCommit lastCommit
      classificationEpoch bloom codecParameters in
  do! guard (negb (validAnalyticsSegmentMetadata record)) "invalid analytics segment metadata";
  do! Decoder.done d;
  Ok record.

Definition AnalyticsSegmentMetadataRecord_ok (r : AnalyticsSegmentMetadataRecord) : Prop :=
  uint32 (sm_RowCount r) /\ int64 (sm_MinCreatedAt r) /\ int64 (sm_MaxCreatedAt r) /\
  uint64 (sm_MinLogicalSize r) /\ uint64 (sm_MaxLogicalSize r) /\ uint64 (sm_MinRevision r) /\
  uint64 (sm_MaxRevision r) /\ uint64 (sm_FirstCommit r) /\ uint64 (sm_LastCommit r) /\
  uint64 (sm_ClassificationEpoch r).
#[export] Hint Unfold AnalyticsSegmentMetadataRecord_ok : codec.

#[export] Instance AnalyticsSegmentMetadataRecord_codec : RecordCodec AnalyticsSegmentMetadataRecord := {
  record_ok := AnalyticsSegmentMetadataRecord_ok;
  stored r := r;
  marshal := AnalyticsSegmentMetadataRecord_MarshalBinary;
  unmarshal := UnmarshalAnalyticsSegmentMetadataRecord;
}.
#[export] Instance AnalyticsSegmentMetadataRecord_RoundTrip : RoundTrip AnalyticsSegmentMetadataRecord.
Proof. round_trip_record AnalyticsSegmentMetadataRecord_MarshalBinary UnmarshalAnalyticsSegmentMetadataRecord. Qed.
#[export] Instance AnalyticsSegmentMetadataRecord_Canonical : Canonical AnalyticsSegmentMetadataRecord.
Proof. canonical_record AnalyticsSegmentMetadataRecord_MarshalBinary UnmarshalAnalyticsSegmentMetadataRecord. Qed.

Record AnalyticsDimensionIndexRecord := mkAnalyticsDimensionIndexRecord {
  di_Codec : Z;
  di_RowCount : Z;
  di_MatchCount : Z;
  di_LogicalBytes : Z;
  di_Bitmap : bytes;
}.

Definition valid_dimension_index (r : AnalyticsDimensionIndexRecord) : bool :=
  negb ((negb (di_Codec r =? AnalyticsCodecRaw) && negb (di_Codec r =? AnalyticsCodecRoaring)
         && negb (di_Codec r =? AnalyticsCodecZstd))
        || (di_RowCount r =? 0) || (di_MatchCount r =? 0) || (di_RowCount r <? di_MatchCount r)
        || (zlen (di_Bitmap r) =? 0)).
Arguments valid_dimension_index : simpl never.

Definition AnalyticsDimensionIndexRecord_MarshalBinary (r : AnalyticsDimensionIndexRecord) : result bytes :=
  do! guard (negb (valid_dimension_index r)) "invalid analytics dimension index";
  encode [U8 (di_Codec r); U32 (di_RowCount r); U32 (di_MatchCount r); U64 (di_LogicalBytes r);
          Str (di_Bitmap r)].

Definition UnmarshalAnalyticsDimensionIndexRecord (data : bytes) : result AnalyticsDimensionIndexRecord :=
  let! d := newDecoder data in
  let! (codec, d) := Decoder.u8 d in
  let! (rowCount, d) := Decoder.u32 d in
  let! (matchCount, d) := Decoder.u32 d in
  let! (logicalBytes, d) := Decoder.u64 d in
  let! (bitmap, d) := Decoder.bytes d in
  let record := mkAnalyticsDimensionIndexRecord codec rowCount matchCount logicalBytes bitmap in
  do! guard (negb (valid_dimension_index record)) "invalid analytics dimension index";
  do! Decoder.done d;
  Ok record.

Definition AnalyticsDimensionIndexRecord_ok (r : AnalyticsDimensionIndexRecord) : Prop :=
  uint8 (di_Codec r) /\ uint32 (di_RowCount r) /\ uint32 (di_MatchCount r) /\
  uint64 (di_LogicalBytes r).
#[export] Hint Unfold AnalyticsDimensionIndexRecord_ok : codec.

#[export] Instance AnalyticsDimensionIndexRecord_codec : RecordCodec AnalyticsDimensionIndexRecord := {
  record_ok := AnalyticsDimensionIndexRecord_ok;
  stored r := r;
  marshal := AnalyticsDimensionIndexRecord_MarshalBinary;
  unmarshal := UnmarshalAnalyticsDimensionIndexRecord;
}.
#[export] Instance AnalyticsDimensionIndexRecord_RoundTrip : RoundTrip AnalyticsDimensionIndexRecord.
Proof. round_trip_record AnalyticsDimensionIndexRecord_MarshalBinary UnmarshalAnalyticsDimensionIndexRecord. Qed.
#[export] Instance AnalyticsDimensionIndexRecord_Canonical : Canonical AnalyticsDimensionIndexRecord.
Proof. canonical_record AnalyticsDimensionIndexRecord_MarshalBinary UnmarshalAnalyticsDimensionIndexRecord. Qed.

(** ** Residency, deltas and crawl evidence *)


Record AnalyticsResidencyRecord := mkAnalyticsResidencyRecord {
  ar_State : Z;
  ar_LastCompleteCrawl : Z;
  ar_RetainedSnapshotRefs : Z;
  ar_ClassificationEpoch : Z;
  ar_FactSegment : Z;
  ar_Row : Z;
}.

Definition validAnalyticsResidency (r : AnalyticsResidencyRecord) : bool :=
  if residency_out_of_range (ar_State r) || (ar_ClassificationEpoch r =? 0) || (ar_FactSegment r =? 0)
  then false
  else if (ar_State r =? AnalyticsArchiveOnly)
          && ((ar_LastCompleteCrawl r =? 0) || (ar_RetainedSnapshotRefs r =? 0))
  then false
  else if (ar_State r =? AnalyticsExpired) && negb (ar_RetainedSnapshotRefs r =? 0) then false
  else true.
Arguments validAnalyticsResidency : simpl never.

Definition AnalyticsResidencyRecord_MarshalBinary (r : AnalyticsResidencyRecord) : result bytes :=
  do! guard (negb (validAnalyticsResidency r)) "invalid analytics residency";
  encode [U8 (ar_State r); I64 (ar_LastCompleteCrawl r); U64 (ar_RetainedSnapshotRefs r);
          U64 (ar_ClassificationEpoch r); U64 (ar_FactSegment r); U32 (ar_Row r)].

Definition UnmarshalAnalyticsResidencyRecord (data : bytes) : result AnalyticsResidencyRecord :=
  let! d := newDecoder data in
  let! (state, d) := Decoder.u8 d in
  let! (lastCompleteCrawl, d) := Decoder.i64 d in
  let! (retainedSnapshotRefs, d) := Decoder.u64 d in
  let! (classificationEpoch, d) := Decoder.u64 d in
  let! (factSegment, d) := Decoder.u64 d in
  let! (row, d) := Decoder.u32 d in
  let record := mkAnalyticsResidencyRecord state lastCompleteCrawl retainedSnapshotRefs
      classificationEpoch factSegment row in
  do! guard (negb (validAnalyticsResidency record)) "invalid analytics residency";
  do! Decoder.done d;
  Ok record.

Definition AnalyticsResidencyRecord_ok (r : AnalyticsResidencyRecord) : Prop :=
  uint8 (ar_State r) /\ int64 (ar_LastCompleteCrawl r) /\ uint64 (ar_RetainedSnapshotRefs r) /\
  uint64 (ar_ClassificationEpoch r) /\ uint64 (ar_FactSegment r) /\ uint32 (ar_Row r).
#[export] Hint Unfold AnalyticsResidencyRecord_ok : codec.

#[export] Instance AnalyticsResidencyRecord_codec : RecordCodec AnalyticsResidencyRecord := {
  record_ok := AnalyticsResidencyRecord_ok;
  stored r := r;
  marshal := AnalyticsResidencyRecord_MarshalBinary;
  unmarshal := UnmarshalAnalyticsResidencyRecord;
}.
#[export] Instance AnalyticsResidencyRecord_RoundTrip : RoundTrip AnalyticsResidencyRecord.
Proof. round_trip_record AnalyticsResidencyRecord_MarshalBinary UnmarshalAnalyticsResidencyRecord. Qed.
#[export] Instance AnalyticsResidencyRecord_Canonical : Canonical AnalyticsResidencyRecord.
Proof. canonical_record AnalyticsResidencyRecord_MarshalBinary UnmarshalAnalyticsResidencyRecord. Qed.

Record AuthoritativeCrawlProofRecord := mkAuthoritativeCrawlProofRecord {
  ap_ScopeID : ID;
  ap_RootFSID : Z;
  ap_RootInode : Z;
  ap_StartFence : Z;
  ap_EndCommit : Z;
  ap_CompletedAt : Z;
  ap_Complete : bool;
  ap_DebtFree : bool;
}.

Definition validAuthoritativeCrawlProof (r : AuthoritativeCrawlProofRecord) : bool :=
  negb (is_zero_id (ap_ScopeID r)) && negb (ap_RootFSID r =? 0) && negb (ap_RootInode r =? 0)
  && negb (ap_StartFence r =? 0) && (ap_StartFence r <=? ap_EndCommit r)
  && negb (ap_CompletedAt r =? 0).
Arguments validAuthoritativeCrawlProof : simpl never.

Definition AuthoritativeCrawlProofRecord_MarshalBinary (r : AuthoritativeCrawlProofRecord) : result bytes :=
  do! guard (negb (validAuthoritativeCrawlProof r)) "invalid authoritative crawl proof";
  encode [IDf (ap_ScopeID r); U32 (ap_RootFSID r); U64 (ap_RootInode r); U64 (ap_StartFence r);
          U64 (ap_EndCommit r); I64 (ap_CompletedAt r); Bool (ap_Complete r);
          Bool (ap_DebtFree r)].

Definition UnmarshalAuthoritativeCrawlProofRecord (data : bytes) : result AuthoritativeCrawlProofRecord :=
  let! d := newDecoder data in
  let! (scopeID, d) := Decoder.id d in
  let! (rootFSID, d) := Decoder.u32 d in
  let! (rootInode, d) := Decoder.u64 d in
  let! (startFence, d) := Decoder.u64 d in
  let! (endCommit, d) := Decoder.u64 d in
  let! (completedAt, d) := Decoder.i64 d in
  let! (complete, d) := Decoder.bool d in
  let! (debtFree, d) := Decoder.bool d in
  let record := mkAuthoritativeCrawlProofRecord scopeID rootFSID rootInode startFence endCommit
      completedAt complete debtFree in
  do! guard (negb (validAuthoritativeCrawlProof record)) "invalid authoritative crawl proof";
  do! Decoder.done d;
  Ok record.

Definition AuthoritativeCrawlProofRecord_ok (r : AuthoritativeCrawlProofRecord) : Prop :=
  id_ok (ap_ScopeID r) /\ uint32 (ap_RootFSID r) /\ uint64 (ap_RootInode r) /\
  uint64 (ap_StartFence r) /\ uint64 (ap_EndCommit r) /\ int64 (ap_CompletedAt r).
#[export] Hint Unfold AuthoritativeCrawlProofRecord_ok : codec.

#[export] Instance AuthoritativeCrawlProofRecord_codec : RecordCodec AuthoritativeCrawlProofRecord := {
  record_ok := AuthoritativeCrawlProofRecord_ok;
  stored r := r;
  marshal := AuthoritativeCrawlProofRecord_MarshalBinary;
  unmarshal := UnmarshalAuthoritativeCrawlProofRecord;
}.
#[export] Instance AuthoritativeCrawlProofRecord_RoundTrip : RoundTrip AuthoritativeCrawlProofRecord.
Proof. round_trip_record AuthoritativeCrawlProofRecord_MarshalBinary UnmarshalAuthoritativeCrawlProofRecord. Qed.
#[export] Instance AuthoritativeCrawlProofRecord_Canonical : Canonical AuthoritativeCrawlProofRecord.
Proof. canonical_record AuthoritativeCrawlProofRecord_MarshalBinary UnmarshalAuthoritativeCrawlProofRecord. Qed.

Definition AuthoritativeSourceLive : Z := 1.
Definition AuthoritativeSourceDeleted : Z := 2.
Definition AuthoritativeSourceUnknown : Z := 3.

Record AuthoritativeSourceBindingRecord := mkAuthoritativeSourceBindingRecord {
  sb_Generation : Z;
  sb_Revision : Z;
  sb_State : Z;
  sb_Continuity : Z;
  sb_LastObservedCommit : Z;
}.

Definition validAuthoritativeSourceBinding (r : AuthoritativeSourceBindingRecord) : bool :=
  negb (sb_Generation r =? 0) && negb (sb_Revision r =? 0)
  && (AuthoritativeSourceLive <=? sb_State r) && (sb_State r <=? AuthoritativeSourceUnknown)
  && (sb_Continuity r <=? AnalyticsContinuitySourceGeneration) && negb (sb_LastObservedCommit r =? 0).
Arguments validAuthoritativeSourceBinding : simpl never.

Definition AuthoritativeSourceBindingRecord_MarshalBinary (r : AuthoritativeSourceBindingRecord) : result bytes :=
  do! guard (negb (validAuthoritativeSourceBinding r)) "invalid authoritative source binding";
  encode [U64 (sb_Generation r); U64 (sb_Revision r); U8 (sb_State r); U8 (sb_Continuity r);
          U64 (sb_LastObservedCommit r)].

Definition UnmarshalAuthoritativeSourceBindingRecord (data : bytes) : result AuthoritativeSourceBindingRecord :=
  let! d := newDecoder data in
  let! (generation, d) := Decoder.u64 d in
  let! (revision, d) := Decoder.u64 d in
  let! (state, d) := Decoder.u8 d in
  let! (continuity, d) := Decoder.u8 d in
  let! (lastObservedCommit, d) := Decoder.u64 d in
  let record := mkAuthoritativeSourceBindingRecord generation revision state continuity
      lastObservedCommit in
  do! guard (negb (validAuthoritativeSourceBinding record)) "invalid authoritative source binding";
  do! Decoder.done d;
  Ok record.

Definition AuthoritativeSourceBindingRecord_ok (r : AuthoritativeSourceBindingRecord) : Prop :=
  uint64 (sb_Generation r) /\ uint64 (sb_Revision r) /\ uint8 (sb_State r) /\
  uint8 (sb_Continuity r) /\ uint64 (sb_LastObservedCommit r).
#[export] Hint Unfold AuthoritativeSourceBindingRecord_ok : codec.

#[export] Instance AuthoritativeSourceBindingRecord_codec : RecordCodec AuthoritativeSourceBindingRecord := {
  record_ok := AuthoritativeSourceBindingRecord_ok;
  stored r := r;
  marshal := AuthoritativeSourceBindingRecord_MarshalBinary;
  unmarshal := UnmarshalAuthoritativeSourceBindingRecord;
}.
#[export] Instance AuthoritativeSourceBindingRecord_RoundTrip : RoundTrip AuthoritativeSourceBindingRecord.
Proof. round_trip_record AuthoritativeSourceBindingRecord_MarshalBinary UnmarshalAuthoritativeSourceBindingRecord. Qed.
#[export] Instance AuthoritativeSourceBindingRecord_Canonical : Canonical AuthoritativeSourceBindingRecord.
Proof. canonical_record AuthoritativeSourceBindingRecord_MarshalBinary UnmarshalAuthoritativeSourceBindingRecord. Qed.

(** ** Watermarks and derived summaries *)

Record AnalyticsWatermarkRecord := mkAnalyticsWatermarkRecord {
  aw_RepositoryGeneration : Z;
  aw_AppliedCommit : Z;
  aw_ManifestGeneration : Z;
  aw_AppliedAt : Z;
}.

Definition valid_watermark (r : AnalyticsWatermarkRecord) : bool :=
  negb ((aw_RepositoryGeneration r =? 0) || (aw_ManifestGeneration r =? 0) || (aw_AppliedAt r =? 0)).
Arguments valid_watermark : simpl never.

Definition AnalyticsWatermarkRecord_MarshalBinary (r : AnalyticsWatermarkRecord) : result bytes :=
  do! guard (negb (valid_watermark r)) "invalid analytics watermark";
  encode [U64 (aw_RepositoryGeneration r); U64 (aw_AppliedCommit r);
          U64 (aw_ManifestGeneration r); I64 (aw_AppliedAt r)].

Definition UnmarshalAnalyticsWatermarkRecord (data : bytes) : result AnalyticsWatermarkRecord :=
  let! d := newDecoder data in
  let! (repositoryGeneration, d) := Decoder.u64 d in
  let! (appliedCommit, d) := Decoder.u64 d in
  let! (manifestGeneration, d) := Decoder.u64 d in
  let! (appliedAt, d) := Decoder.i64 d in
  let record := mkAnalyticsWatermarkRecord repositoryGeneration appliedCommit manifestGeneration
      appliedAt in
  do! guard (negb (valid_watermark record)) "invalid analytics watermark";
  do! Decoder.done d;
  Ok record.

Definition AnalyticsWatermarkRecord_ok (r : AnalyticsWatermarkRecord) : Prop :=
  uint64 (aw_RepositoryGeneration r) /\ uint64 (aw_AppliedCommit r) /\
  uint64 (aw_ManifestGeneration r) /\ int64 (aw_AppliedAt r).
#[export] Hint Unfold AnalyticsWatermarkRecord_ok : codec.

#[export] Instance AnalyticsWatermarkRecord_codec : RecordCodec AnalyticsWatermarkRecord := {
  record_ok := AnalyticsWatermarkRecord_ok;
  stored r := r;
  marshal := AnalyticsWatermarkRecord_MarshalBinary;
  unmarshal := UnmarshalAnalyticsWatermarkRecord;
}.
#[export] Instance AnalyticsWatermarkRecord_RoundTrip : RoundTrip AnalyticsWatermarkRecord.
Proof. round_trip_record AnalyticsWatermarkRecord_MarshalBinary UnmarshalAnalyticsWatermarkRecord. Qed.
#[export] Instance AnalyticsWatermarkRecord_Canonical : Canonical AnalyticsWatermarkRecord.
Proof. canonical_record AnalyticsWatermarkRecord_MarshalBinary UnmarshalAnalyticsWatermarkRecord. Qed.

Record AnalyticsAggregateRecord := mkAnalyticsAggregateRecord {
  aa_BytesAdded : Z;
  aa_BytesDeleted : Z;
  aa_FilesAdded : Z;
  aa_FilesDeleted : Z;
}.

Definition AnalyticsAggregateRecord_MarshalBinary (r : AnalyticsAggregateRecord) : result bytes :=
  encode [U64 (aa_BytesAdded r); U64 (aa_BytesDeleted r); U64 (aa_FilesAdded r);
          U64 (aa_FilesDeleted r)].

Definition UnmarshalAnalyticsAggregateRecord (data : bytes) : result AnalyticsAggregateRecord :=
  let! d := newDecoder data in
  let! (bytesAdded, d) := Decoder.u64 d in
  let! (bytesDeleted, d) := Decoder.u64 d in
  let! (filesAdded, d) := Decoder.u64 d in
  let! (filesDeleted, d) := Decoder.u64 d in
  do! Decoder.done d;
  Ok (mkAnalyticsAggregateRecord bytesAdded bytesDeleted filesAdded filesDeleted).

Definition AnalyticsAggregateRecord_ok (r : AnalyticsAggregateRecord) : Prop :=
  uint64 (aa_BytesAdded r) /\ uint64 (aa_BytesDeleted r) /\ uint64 (aa_FilesAdded r) /\
  uint64 (aa_FilesDeleted r).
#[export] Hint Unfold AnalyticsAggregateRecord_ok : codec.

#[export] Instance AnalyticsAggregateRecord_codec : RecordCodec AnalyticsAggregateRecord := {
  record_ok := AnalyticsAggregateRecord_ok;
  stored r := r;
  marshal := AnalyticsAggregateRecord_MarshalBinary;
  unmarshal := UnmarshalAnalyticsAggregateRecord;
}.
#[export] Instance AnalyticsAggregateRecord_RoundTrip : RoundTrip AnalyticsAggregateRecord.
Proof. round_trip_record AnalyticsAggregateRecord_MarshalBinary UnmarshalAnalyticsAggregateRecord. Qed.
#[export] Instance AnalyticsAggregateRecord_Canonical : Canonical AnalyticsAggregateRecord.
Proof. canonical_record AnalyticsAggregateRecord_MarshalBinary UnmarshalAnalyticsAggregateRecord. Qed.

Record AnalyticsSummaryRecord := mkAnalyticsSummaryRecord {
  as_ActiveBytes : Z;
  as_ActiveFiles : Z;
  as_UniqueBlobCount : Z;
  as_UniqueBlobBytes : Z;
}.

Definition AnalyticsSummaryRecord_MarshalBinary (r : AnalyticsSummaryRecord) : result bytes :=
  encode [U64 (as_ActiveBytes r); U64 (as_ActiveFiles r); U64 (as_UniqueBlobCount r);
          U64 (as_UniqueBlobBytes r)].

Definition UnmarshalAnalyticsSummaryRecord (data : bytes) : result AnalyticsSummaryRecord :=
  let! d := newDecoder data in
  let! (activeBytes, d) := Decoder.u64 d in
  let! (activeFiles, d) := Decoder.u64 d in
  let! (uniqueBlobCount, d) := Decoder.u64 d in
  let! (uniqueBlobBytes, d) := Decoder.u64 d in
  do! Decoder.done d;
  Ok (mkAnalyticsSummaryRecord activeBytes activeFiles uniqueBlobCount uniqueBlobBytes).

Definition AnalyticsSummaryRecord_ok (r : AnalyticsSummaryRecord) : Prop :=
  uint64 (as_ActiveBytes r) /\ uint64 (as_ActiveFiles r) /\ uint64 (as_UniqueBlobCount r) /\
  uint64 (as_UniqueBlobBytes r).
#[export] Hint Unfold AnalyticsSummaryRecord_ok : codec.

#[export] Instance AnalyticsSummaryRecord_codec : RecordCodec AnalyticsSummaryRecord := {
  record_ok := AnalyticsSummaryRecord_ok;
  stored r := r;
  marshal := AnalyticsSummaryRecord_MarshalBinary;
  unmarshal := UnmarshalAnalyticsSummaryRecord;
}.
#[export] Instance AnalyticsSummaryRecord_RoundTrip : RoundTrip AnalyticsSummaryRecord.
Proof. round_trip_record AnalyticsSummaryRecord_MarshalBinary UnmarshalAnalyticsSummaryRecord. Qed.
#[export] Instance AnalyticsSummaryRecord_Canonical : Canonical AnalyticsSummaryRecord.
Proof. canonical_record AnalyticsSummaryRecord_MarshalBinary UnmarshalAnalyticsSummaryRecord. Qed.

Record AnalyticsUserInodeRecord := mkAnalyticsUserInodeRecord {
  ui_LatestRevision : Z;
  ui_PathSample : bytes;
}.

Definition valid_user_inode (r : AnalyticsUserInodeRecord) : bool :=
  negb (ui_LatestRevision r =? 0).
Arguments valid_user_inode : simpl never.

Definition AnalyticsUserInodeRecord_MarshalBinary (r : AnalyticsUserInodeRecord) : result bytes :=
  do! guard (negb (valid_user_inode r)) "invalid analytics user inode";
  encode [U64 (ui_LatestRevision r); Str (ui_PathSample r)].

Definition UnmarshalAnalyticsUserInodeRecord (data : bytes) : result AnalyticsUserInodeRecord :=
  let! d := newDecoder data in
  let! (latestRevision, d) := Decoder.u64 d in
  let! (pathSample, d) := Decoder.bytes d in
  let record := mkAnalyticsUserInodeRecord latestRevision pathSample in
  do! guard (negb (valid_user_inode record)) "invalid analytics user inode";
  do! Decoder.done d;
  Ok record.

Definition AnalyticsUserInodeRecord_ok (r : AnalyticsUserInodeRecord) : Prop :=
  uint64 (ui_LatestRevision r).
#[export] Hint Unfold AnalyticsUserInodeRecord_ok : codec.

#[export] Instance AnalyticsUserInodeRecord_codec : RecordCodec AnalyticsUserInodeRecord := {
  record_ok := AnalyticsUserInodeRecord_ok;
  stored r := r;
  marshal := AnalyticsUserInodeRecord_MarshalBinary;
  unmarshal := UnmarshalAnalyticsUserInodeRecord;
}.
#[export] Instance AnalyticsUserInodeRecord_RoundTrip : RoundTrip AnalyticsUserInodeRecord.
Proof. round_trip_record AnalyticsUserInodeRecord_MarshalBinary UnmarshalAnalyticsUserInodeRecord. Qed.
#[export] Instance AnalyticsUserInodeRecord_Canonical : Canonical AnalyticsUserInodeRecord.
Proof. canonical_record AnalyticsUserInodeRecord_MarshalBinary UnmarshalAnalyticsUserInodeRecord. Qed.

Record AnalyticsUserBlobRecord := mkAnalyticsUserBlobRecord {
  ub_ReferenceCount : Z;
  ub_FirstSeen : Z;
}.

Definition valid_user_blob (r : AnalyticsUserBlobRecord) : bool :=
  negb ((ub_ReferenceCount r =? 0) || (ub_FirstSeen r =? 0)).
Arguments valid_user_blob : simpl never.

Definition AnalyticsUserBlobRecord_MarshalBinary (r : AnalyticsUserBlobRecord) : result bytes :=
  do! guard (negb (valid_user_blob r)) "invalid analytics user blob";
  encode [U64 (ub_ReferenceCount r); I64 (ub_FirstSeen r)].

Definition UnmarshalAnalyticsUserBlobRecord (data : bytes) : result AnalyticsUserBlobRecord :=
  let! d := newDecoder data in
  let! (referenceCount, d) := Decoder.u64 d in
  let! (firstSeen, d) := Decoder.i64 d in
  let record := mkAnalyticsUserBlobRecord referenceCount firstSeen in
  do! guard (negb (valid_user_blob record)) "invalid analytics user blob";
  do! Decoder.done d;
  Ok record.

Definition AnalyticsUserBlobRecord_ok (r : AnalyticsUserBlobRecord) : Prop :=
  uint64 (ub_ReferenceCount r) /\ int64 (ub_FirstSeen r).
#[export] Hint Unfold AnalyticsUserBlobRecord_ok : codec.

#[export] Instance AnalyticsUserBlobRecord_codec : RecordCodec AnalyticsUserBlobRecord := {
  record_ok := AnalyticsUserBlobRecord_ok;
  stored r := r;
  marshal := AnalyticsUserBlobRecord_MarshalBinary;
  unmarshal := UnmarshalAnalyticsUserBlobRecord;
}.
#[export] Instance AnalyticsUserBlobRecord_RoundTrip : RoundTrip AnalyticsUserBlobRecord.
Proof. round_trip_record AnalyticsUserBlobRecord_MarshalBinary UnmarshalAnalyticsUserBlobRecord. Qed.
#[export] Instance AnalyticsUserBlobRecord_Canonical : Canonical AnalyticsUserBlobRecord.
Proof. canonical_record AnalyticsUserBlobRecord_MarshalBinary UnmarshalAnalyticsUserBlobRecord. Qed.

Record AnalyticsQueryRecord := mkAnalyticsQueryRecord {
  aq_Payload : bytes;
}.

Definition nonempty_payload (r : AnalyticsQueryRecord) : bool :=
  negb (zlen (aq_Payload r) =? 0).
Arguments nonempty_payload : simpl never.

Definition AnalyticsQueryRecord_MarshalBinary (r : AnalyticsQueryRecord) : result bytes :=
  do! guard (negb (nonempty_payload r)) "empty analytics query payload";
  encode [Str (aq_Payload r)].

Definition UnmarshalAnalyticsQueryRecord (data : bytes) : result AnalyticsQueryRecord :=
  let! d := newDecoder data in
  let! (payload, d) := Decoder.bytes d in
  let record := mkAnalyticsQueryRecord payload in
  do! guard (negb (nonempty_payload record)) "empty analytics query payload";
  do! Decoder.done d;
  Ok record.

Definition AnalyticsQueryRecord_ok (r : AnalyticsQueryRecord) : Prop :=
  True.
#[export] Hint Unfold AnalyticsQueryRecord_ok : codec.

#[export] Instance AnalyticsQueryRecord_codec : RecordCodec AnalyticsQueryRecord := {
  record_ok := AnalyticsQueryRecord_ok;
  stored r := r;
  marshal := AnalyticsQueryRecord_MarshalBinary;
  unmarshal := UnmarshalAnalyticsQueryRecord;
}.
#[export] Instance AnalyticsQueryRecord_RoundTrip : RoundTrip AnalyticsQueryRecord.
Proof. round_trip_record AnalyticsQueryRecord_MarshalBinary UnmarshalAnalyticsQueryRecord. Qed.
#[export] Instance AnalyticsQueryRecord_Canonical : Canonical AnalyticsQueryRecord.
Proof. canonical_record AnalyticsQueryRecord_MarshalBinary UnmarshalAnalyticsQueryRecord. Qed.

(** ** Fact segments *)

Record AnalyticsColumn := mkAnalyticsColumn { ac_Kind : Z; ac_Codec : Z; ac_Data : bytes }.
Record AnalyticsFactSegmentRecord := mkAnalyticsFactSegmentRecord {
  fs_RowCount : Z; fs_Columns : list AnalyticsColumn }.

(** The columns follow one another in increasing kind, after [previous]. *)
Fixpoint valid_columns (previous : Z) (columns : list AnalyticsColumn) : bool :=
  match columns with
  | [] => true
  | c :: rest =>
      if (ac_Kind c <=? previous) || (AnalyticsColumnSizeLog10 <? ac_Kind c)
         || (ac_Codec c <? AnalyticsCodecRaw) || (AnalyticsCodecZstd <? ac_Codec c)
         || (zlen (ac_Data c) =? 0)
      then false
      else valid_columns (ac_Kind c) rest
  end.

Definition validAnalyticsFactSegment (r : AnalyticsFactSegmentRecord) : bool :=
  if (fs_RowCount r =? 0) || (zlen (fs_Columns r) =? 0)
     || (AnalyticsColumnSizeLog10 <? zlen (fs_Columns r))
  then false
  else valid_columns 0 (fs_Columns r).
Arguments validAnalyticsFactSegment : simpl never.

Definition column_fields (c : AnalyticsColumn) : list field :=
  [U8 (ac_Kind c); U8 (ac_Codec c); Str (ac_Data c)].

Definition AnalyticsFactSegmentRecord_MarshalBinary (r : AnalyticsFactSegmentRecord) : result bytes :=
  do! guard (negb (validAnalyticsFactSegment r)) "invalid analytics fact segment";
  encode ([U32 (fs_RowCount r); U16 (zlen (fs_Columns r))] ++ concat (map column_fields (fs_Columns r))).

Definition read_column (d : Decoder.decoder) : result (AnalyticsColumn * Decoder.decoder) :=
  let! (kind, d) := Decoder.u8 d in
  let! (codec, d) := Decoder.u8 d in
  let! (data, d) := Decoder.bytes d in
  Ok (mkAnalyticsColumn kind codec data, d).

Definition UnmarshalAnalyticsFactSegmentRecord (data : bytes) : result AnalyticsFactSegmentRecord :=
  let! d := newDecoder data in
  let! (rowCount, d) := Decoder.u32 d in
  let! (count, d) := Decoder.u16 d in
  let! (columns, d) := many (Z.to_nat count) read_column d in
  let record := mkAnalyticsFactSegmentRecord rowCount columns in
  do! guard (negb (validAnalyticsFactSegment record)) "invalid analytics fact segment";
  do! Decoder.done d;
  Ok record.

Definition column_ok (c : AnalyticsColumn) : Prop := uint8 (ac_Kind c) /\ uint8 (ac_Codec c).
Definition AnalyticsFactSegmentRecord_ok (r : AnalyticsFactSegmentRecord) : Prop :=
  uint32 (fs_RowCount r) /\ Forall column_ok (fs_Columns r).
#[export] Hint Unfold column_fields column_ok AnalyticsFactSegmentRecord_ok : codec.

#[export] Instance AnalyticsFactSegmentRecord_codec : RecordCodec AnalyticsFactSegmentRecord := {
  record_ok := AnalyticsFactSegmentRecord_ok;
  stored r := r;
  marshal := AnalyticsFactSegmentRecord_MarshalBinary;
  unmarshal := UnmarshalAnalyticsFactSegmentRecord;
}.

Lemma read_column_wires t c gs :
  column_ok c -> forallb writable (column_fields c) = true ->
  read_column (Decoder.mk t (wires (column_fields c ++ gs))) = Ok (c, Decoder.mk t (wires gs)).
Proof.
  intros [? ?] Hw. unfold column_fields in *. written Hw. cbn [app]. unfold read_column.
  read_fields. by destruct c.
Qed.
Lemma read_column_inv d c d' : read_column d = Ok (c, d') -> reads d (column_fields c) d' /\ column_ok c.
Proof. unfold read_column. intros H. invert_reads. split; [assemble | typed_fields]. Qed.

Lemma validAnalyticsFactSegment_count r :
  validAnalyticsFactSegment r = true -> zlen (fs_Columns r) <= AnalyticsColumnSizeLog10.
Proof. unfold validAnalyticsFactSegment. intros H. case_match; [done|]. by split_bools. Qed.

#[export] Instance AnalyticsFactSegmentRecord_RoundTrip : RoundTrip AnalyticsFactSegmentRecord.
Proof.
  intros r b [Hr Hc] H. cbn [marshal unmarshal stored AnalyticsFactSegmentRecord_codec] in *.
  unfold AnalyticsFactSegmentRecord_MarshalBinary in H. inv_results. encoded H.
  assert (uint16 (zlen (fs_Columns r))).
  { pose proof (validAnalyticsFactSegment_count r (proj1 (negb_false_iff _) E)) as Hmax.
    unfold AnalyticsColumnSizeLog10 in Hmax. nonnegs. range. }
  unfold UnmarshalAnalyticsFactSegmentRecord. start_decoder. cbn [app]. read_fields.
  rewrite (many_round_trip_end _ column_fields column_ok) by auto using read_column_wires. cbn [rbind].
  eta_record r. pass_guards. done.
Qed.
#[export] Instance AnalyticsFactSegmentRecord_Canonical : Canonical AnalyticsFactSegmentRecord.
Proof.
  intros b r H. cbn [marshal unmarshal record_ok AnalyticsFactSegmentRecord_codec] in *.
  unfold UnmarshalAnalyticsFactSegmentRecord in H. invert_reads. read_list read_column_inv.
  split; [typed_fields|]. unfold AnalyticsFactSegmentRecord_MarshalBinary.
  pass_guards. eapply encode_reads; [eassumption | assemble | eassumption].
Qed.

(** ** Deltas *)

Definition AnalyticsDeltaCreation : Z := 1.
Definition AnalyticsDeltaSourceState : Z := 2.
Definition AnalyticsDeltaRetainedReferences : Z := 3.
Definition AnalyticsDeltaClassification : Z := 4.
Definition AnalyticsReferencesLegacy : Z := 0.
Definition AnalyticsReferencesSet : Z := 1.
Definition AnalyticsReferencesIncrement : Z := 2.
Definition AnalyticsReferencesDecrement : Z := 3.

Record AnalyticsDeltaRecord := mkAnalyticsDeltaRecord {
  de_Kind : Z;
  de_FSID : Z;
  de_Inode : Z;
  de_IdentityGeneration : Z;
  de_Revision : Z;
  de_UID : Z;
  de_GID : Z;
  de_Known : Z;
  de_CreatedAt : Z;
  de_LogicalSize : Z;
  de_CreationBasis : Z;
  de_IdentityContinuity : Z;
  de_State : Z;
  de_RetainedSnapshotRefs : Z;
  de_ClassificationEpoch : Z;
  de_SVM : Z;
  de_Volume : Z;
  de_PathGroup : Z;
  de_ReferenceOperation : Z;
}.

Definition validAnalyticsDelta (r : AnalyticsDeltaRecord) : bool :=
  if (de_Kind r <? AnalyticsDeltaCreation) || (AnalyticsDeltaClassification <? de_Kind r)
     || (de_IdentityGeneration r =? 0) || (de_Revision r =? 0) || unknown_bits (de_Known r)
     || (de_ClassificationEpoch r =? 0)
     || (AnalyticsContinuitySourceGeneration <? de_IdentityContinuity r)
     || (AnalyticsExpired <? de_State r)
     || (AnalyticsReferencesDecrement <? de_ReferenceOperation r)
  then false
  else if negb (de_Kind r =? AnalyticsDeltaRetainedReferences)
          && negb (de_ReferenceOperation r =? AnalyticsReferencesLegacy)
  then false
  else if de_Kind r =? AnalyticsDeltaCreation then
    (AnalyticsCTime <=? de_CreationBasis r) && (de_CreationBasis r <=? AnalyticsFirstSeen)
  else AnalyticsLive <=? de_State r.
Arguments validAnalyticsDelta : simpl never.

Definition AnalyticsDeltaRecord_base_fields (r : AnalyticsDeltaRecord) : list field :=
  [U8 (de_Kind r); U32 (de_FSID r); U64 (de_Inode r); U64 (de_IdentityGeneration r);
   U64 (de_Revision r); U32 (de_UID r); U32 (de_GID r); U16 (de_Known r); I64 (de_CreatedAt r);
   U64 (de_LogicalSize r); U8 (de_CreationBasis r); U8 (de_IdentityContinuity r); U8 (de_State r);
   U64 (de_RetainedSnapshotRefs r); U64 (de_ClassificationEpoch r); U32 (de_SVM r);
   U32 (de_Volume r); U32 (de_PathGroup r)].

Definition AnalyticsDeltaRecord_MarshalBinary (r : AnalyticsDeltaRecord) : result bytes :=
  do! guard (negb (validAnalyticsDelta r)) "invalid analytics delta";
  encode (AnalyticsDeltaRecord_base_fields r ++ [U8 (de_ReferenceOperation r)]).

Definition UnmarshalAnalyticsDeltaRecord (data : bytes) : result AnalyticsDeltaRecord :=
  let! d := newDecoder data in
  let! (kind, d) := Decoder.u8 d in
  let! (fsid, d) := Decoder.u32 d in
  let! (inode, d) := Decoder.u64 d in
  let! (identityGeneration, d) := Decoder.u64 d in
  let! (revision, d) := Decoder.u64 d in
  let! (uid, d) := Decoder.u32 d in
  let! (gid, d) := Decoder.u32 d in
  let! (known, d) := Decoder.u16 d in
  let! (createdAt, d) := Decoder.i64 d in
  let! (logicalSize, d) := Decoder.u64 d in
  let! (basis, d) := Decoder.u8 d in
  let! (continuity, d) := Decoder.u8 d in
  let! (state, d) := Decoder.u8 d in
  let! (retainedSnapshotRefs, d) := Decoder.u64 d in
  let! (classificationEpoch, d) := Decoder.u64 d in
  let! (svm, d) := Decoder.u32 d in
  let! (volume, d) := Decoder.u32 d in
  let! (pathGroup, d) := Decoder.u32 d in
  let! (operation, d) := if more d then Decoder.u8 d else Ok (AnalyticsReferencesLegacy, d) in
  let record := mkAnalyticsDeltaRecord kind fsid inode identityGeneration revision uid gid known
                  createdAt logicalSize basis continuity state retainedSnapshotRefs
                  classificationEpoch svm volume pathGroup operation in
  do! guard (negb (validAnalyticsDelta record)) "invalid analytics delta";
  do! Decoder.done d;
  Ok record.

Definition AnalyticsDeltaRecord_ok (r : AnalyticsDeltaRecord) : Prop :=
  uint8 (de_Kind r) /\ uint32 (de_FSID r) /\ uint64 (de_Inode r) /\
  uint64 (de_IdentityGeneration r) /\ uint64 (de_Revision r) /\ uint32 (de_UID r) /\
  uint32 (de_GID r) /\ uint16 (de_Known r) /\ int64 (de_CreatedAt r) /\
  uint64 (de_LogicalSize r) /\ uint8 (de_CreationBasis r) /\ uint8 (de_IdentityContinuity r) /\
  uint8 (de_State r) /\ uint64 (de_RetainedSnapshotRefs r) /\ uint64 (de_ClassificationEpoch r) /\
  uint32 (de_SVM r) /\ uint32 (de_Volume r) /\ uint32 (de_PathGroup r) /\
  uint8 (de_ReferenceOperation r).
#[export] Hint Unfold AnalyticsDeltaRecord_ok AnalyticsDeltaRecord_base_fields : codec.

#[export] Instance AnalyticsDeltaRecord_codec : RecordCodec AnalyticsDeltaRecord := {
  record_ok := AnalyticsDeltaRecord_ok;
  stored r := r;
  marshal := AnalyticsDeltaRecord_MarshalBinary;
  unmarshal := UnmarshalAnalyticsDeltaRecord;
}.
#[export] Instance AnalyticsDeltaRecord_RoundTrip : RoundTrip AnalyticsDeltaRecord.
Proof.
  intros r b Hok H. cbn [marshal unmarshal stored record_ok AnalyticsDeltaRecord_codec] in *.
  unfold AnalyticsDeltaRecord_ok in Hok. destruct_and?.
  unfold AnalyticsDeltaRecord_MarshalBinary, AnalyticsDeltaRecord_base_fields in H. inv_results. encoded H.
  unfold UnmarshalAnalyticsDeltaRecord. start_decoder. cbn [app]. read_fields.
  eta_record r. pass_guards. done.
Qed.

(** Deltas written before reference operations existed end after the path group. *)
Lemma AnalyticsDeltaRecord_prefix b r :
  UnmarshalAnalyticsDeltaRecord b = Ok r ->
  AnalyticsDeltaRecord_ok r /\
  exists missing, In missing [[]; [U8 AnalyticsReferencesLegacy]] /\
    z2b Version :: wires (AnalyticsDeltaRecord_base_fields r ++ [U8 (de_ReferenceOperation r)])
    = b ++ wires missing.
Proof.
  unfold UnmarshalAnalyticsDeltaRecord. intros H. invert_reads.
  match goal with E : (if more ?d then _ else _) = _ |- _ => destruct (more d) end; invert_reads.
  all: split; [typed_fields|].
  - exists []. split; [by left|]. by read_in_full.
  - eexists. split; [right; left; reflexivity|]. by read_prefix.
Qed.

(** ** Manifests, build checkpoints and query jobs *)

(** [strictlyIncreasing], after a previous value *)
Fixpoint increasing_after (previous : option Z) (values : list Z) : bool :=
  match values with
  | [] => true
  | v :: rest =>
      if (v =? 0) || match previous with Some p => v <=? p | None => false end then false
      else increasing_after (Some v) rest
  end.
Definition strictlyIncreasing (values : list Z) : bool := increasing_after None values.
Definition strictlyIncreasingOrEmpty (values : list Z) : bool :=
  (zlen values =? 0) || strictlyIncreasing values.

Definition u64_fields (v : Z) : list field := [U64 v].

Lemma read_u64_wires t v gs :
  uint64 v -> forallb writable (u64_fields v) = true ->
  Decoder.u64 (Decoder.mk t (wires (u64_fields v ++ gs))) = Ok (v, Decoder.mk t (wires gs)).
Proof. intros Hv _. unfold u64_fields. cbn [app]. by rewrite u64_wires. Qed.
Lemma read_u64_inv d v d' : Decoder.u64 d = Ok (v, d') -> reads d (u64_fields v) d' /\ uint64 v.
Proof. intros H%u64_inv. split; [done|]. apply (reads_typed _ _ _ H). Qed.
Lemma u64_size v : uint64 v -> 8 <= zlen (wires (u64_fields v)).
Proof. intros _. unfold u64_fields. sizes. Qed.

Record AnalyticsManifestRecord := mkAnalyticsManifestRecord {
  mf_Generation : Z; mf_ParentGeneration : Z; mf_LayerDepth : Z; mf_Segments : list Z }.

Definition valid_manifest (r : AnalyticsManifestRecord) : bool :=
  negb ((mf_Generation r =? 0) || (mf_Generation r <=? mf_ParentGeneration r)
        || ((mf_ParentGeneration r =? 0) && negb (mf_LayerDepth r =? 0))
        || (negb (mf_ParentGeneration r =? 0) && (mf_LayerDepth r =? 0))
        || negb (strictlyIncreasingOrEmpty (mf_Segments r))).
Arguments valid_manifest : simpl never.

Definition AnalyticsManifestRecord_MarshalBinary (r : AnalyticsManifestRecord) : result bytes :=
  do! guard (negb (valid_manifest r)) "invalid analytics manifest";
  encode ([U64 (mf_Generation r); U64 (mf_ParentGeneration r); U8 (mf_LayerDepth r);
           U32 (zlen (mf_Segments r))] ++ concat (map u64_fields (mf_Segments r))).

Definition UnmarshalAnalyticsManifestRecord (data : bytes) : result AnalyticsManifestRecord :=
  let! d := newDecoder data in
  let! (generation, d) := Decoder.u64 d in
  let! (parentGeneration, d) := Decoder.u64 d in
  let! (layerDepth, d) := Decoder.u8 d in
  let! (count, d) := Decoder.u32 d in
  do! guard (MaxEncodedValueBytes / 8 <? count) "invalid analytics manifest";
  let! (segments, d) := many (Z.to_nat count) Decoder.u64 d in
  let record := mkAnalyticsManifestRecord generation parentGeneration layerDepth segments in
  do! guard (negb (valid_manifest record)) "invalid analytics manifest";
  do! Decoder.done d;
  Ok record.

Definition AnalyticsManifestRecord_ok (r : AnalyticsManifestRecord) : Prop :=
  uint64 (mf_Generation r) /\ uint64 (mf_ParentGeneration r) /\ uint8 (mf_LayerDepth r) /\
  Forall (u_range 64) (mf_Segments r).
#[export] Hint Unfold AnalyticsManifestRecord_ok u64_fields : codec.

#[export] Instance AnalyticsManifestRecord_codec : RecordCodec AnalyticsManifestRecord := {
  record_ok := AnalyticsManifestRecord_ok;
  stored r := r;
  marshal := AnalyticsManifestRecord_MarshalBinary;
  unmarshal := UnmarshalAnalyticsManifestRecord;
}.

(** The segment list of an encoded value fits the decoder's bound. *)
Ltac segment_bound :=
  match goal with F : Forall (u_range 64) ?l |- _ =>
    pose proof (wires_concat_length _ _ 8 _ u64_size F);
    assert (zlen l <= MaxEncodedValueBytes / 8) by (apply Z.div_le_lower_bound; sizes);
    assert (uint32 (zlen l)) by sizes
  end.

#[export] Instance AnalyticsManifestRecord_RoundTrip : RoundTrip AnalyticsManifestRecord.
Proof.
  intros r b Hok H. cbn [marshal unmarshal stored record_ok AnalyticsManifestRecord_codec] in *.
  unfold AnalyticsManifestRecord_ok in Hok. destruct_and?.
  unfold AnalyticsManifestRecord_MarshalBinary in H. inv_results. encoded H. segment_bound.
  unfold UnmarshalAnalyticsManifestRecord. start_decoder. cbn [app]. read_fields.
  rewrite (proj2 (Z.ltb_ge _ _)) by done. cbn [guard rbind].
  rewrite (many_round_trip_end _ u64_fields (u_range 64)) by auto using read_u64_wires. cbn [rbind].
  eta_record r. pass_guards. done.
Qed.
#[export] Instance AnalyticsManifestRecord_Canonical : Canonical AnalyticsManifestRecord.
Proof.
  intros b r H. cbn [marshal unmarshal record_ok AnalyticsManifestRecord_codec] in *.
  unfold UnmarshalAnalyticsManifestRecord in H. invert_reads. read_list read_u64_inv.
  split; [typed_fields|]. unfold AnalyticsManifestRecord_MarshalBinary.
  pass_guards. eapply encode_reads; [eassumption | assemble | eassumption].
Qed.

Record AnalyticsBuildCheckpointRecord := mkAnalyticsBuildCheckpointRecord {
  bc_BuildID : ID;
  bc_FormatVersion : Z;
  bc_Generation : Z;
  bc_ConfigJSON : bytes;
  bc_SourceKeyCursor : bytes;
  bc_Facts : Z;
  bc_AppliedCommit : Z;
  bc_CandidateSegments : list Z;
  bc_StartedAt : Z;
  bc_UpdatedAt : Z;
}.

Definition validAnalyticsBuildCheckpoint (r : AnalyticsBuildCheckpointRecord) : bool :=
  negb (is_zero_id (bc_BuildID r)) && (bc_FormatVersion r =? 1) && negb (bc_Generation r =? 0)
  && negb (bytes_eqb (bc_ConfigJSON r) []) && strictlyIncreasingOrEmpty (bc_CandidateSegments r)
  && negb (bc_StartedAt r =? 0) && (bc_StartedAt r <=? bc_UpdatedAt r).
Arguments validAnalyticsBuildCheckpoint : simpl never.

Definition AnalyticsBuildCheckpointRecord_MarshalBinary (r : AnalyticsBuildCheckpointRecord)
  : result bytes :=
  do! guard (negb (validAnalyticsBuildCheckpoint r)) "invalid analytics build checkpoint";
  encode ([IDf (bc_BuildID r); U8 (bc_FormatVersion r); U64 (bc_Generation r); Str (bc_ConfigJSON r);
           Str (bc_SourceKeyCursor r); U64 (bc_Facts r); U64 (bc_AppliedCommit r);
           U32 (zlen (bc_CandidateSegments r))] ++
          concat (map u64_fields (bc_CandidateSegments r)) ++
          [I64 (bc_StartedAt r); I64 (bc_UpdatedAt r)]).

Definition UnmarshalAnalyticsBuildCheckpointRecord (data : bytes)
  : result AnalyticsBuildCheckpointRecord :=
  let! d := newDecoder data in
  let! (buildID, d) := Decoder.id d in
  let! (formatVersion, d) := Decoder.u8 d in
  let! (generation, d) := Decoder.u64 d in
  let! (configJSON, d) := Decoder.bytes d in
  let! (sourceKeyCursor, d) := Decoder.bytes d in
  let! (facts, d) := Decoder.u64 d in
  let! (appliedCommit, d) := Decoder.u64 d in
  let! (count, d) := Decoder.u32 d in
  do! guard (MaxEncodedValueBytes / 8 <? count) "invalid analytics build checkpoint";
  let! (segments, d) := many (Z.to_nat count) Decoder.u64 d in
  let! (startedAt, d) := Decoder.i64 d in
  let! (updatedAt, d) := Decoder.i64 d in
  let record := mkAnalyticsBuildCheckpointRecord buildID formatVersion generation configJSON
                  sourceKeyCursor facts appliedCommit segments startedAt updatedAt in
  do! guard (negb (validAnalyticsBuildCheckpoint record)) "invalid analytics build checkpoint";
  do! Decoder.done d;
  Ok record.

Definition AnalyticsBuildCheckpointRecord_ok (r : AnalyticsBuildCheckpointRecord) : Prop :=
  id_ok (bc_BuildID r) /\ uint8 (bc_FormatVersion r) /\ uint64 (bc_Generation r) /\
  uint64 (bc_Facts r) /\ uint64 (bc_AppliedCommit r) /\ Forall (u_range 64) (bc_CandidateSegments r) /\
  int64 (bc_StartedAt r) /\ int64 (bc_UpdatedAt r).
#[export] Hint Unfold AnalyticsBuildCheckpointRecord_ok : codec.

#[export] Instance AnalyticsBuildCheckpointRecord_codec
  : RecordCodec AnalyticsBuildCheckpointRecord := {
  record_ok := AnalyticsBuildCheckpointRecord_ok;
  stored r := r;
  marshal := AnalyticsBuildCheckpointRecord_MarshalBinary;
  unmarshal := UnmarshalAnalyticsBuildCheckpointRecord;
}.
#[export] Instance AnalyticsBuildCheckpointRecord_RoundTrip : RoundTrip AnalyticsBuildCheckpointRecord.
Proof.
  intros r b Hok H. cbn [marshal unmarshal stored record_ok AnalyticsBuildCheckpointRecord_codec] in *.
  unfold AnalyticsBuildCheckpointRecord_ok in Hok. destruct_and?.
  unfold AnalyticsBuildCheckpointRecord_MarshalBinary in H. inv_results. encoded H. segment_bound.
  unfold UnmarshalAnalyticsBuildCheckpointRecord. start_decoder. cbn [app]. read_fields.
  rewrite (proj2 (Z.ltb_ge _ _)) by done. cbn [guard rbind].
  rewrite (many_round_trip _ u64_fields (u_range 64)) by auto using read_u64_wires. cbn [rbind].
  read_fields. eta_record r. pass_guards. done.
Qed.
#[export] Instance AnalyticsBuildCheckpointRecord_Canonical : Canonical AnalyticsBuildCheckpointRecord.
Proof.
  intros b r H. cbn [marshal unmarshal record_ok AnalyticsBuildCheckpointRecord_codec] in *.
  unfold UnmarshalAnalyticsBuildCheckpointRecord in H. invert_reads. read_list read_u64_inv.
  split; [typed_fields|]. unfold AnalyticsBuildCheckpointRecord_MarshalBinary.
  pass_guards. eapply encode_reads; [eassumption | assemble | eassumption].
Qed.

Definition AnalyticsQueryPending : Z := 1.
Definition AnalyticsQueryRunning : Z := 2.
Definition AnalyticsQueryComplete : Z := 3.
Definition AnalyticsQueryFailed : Z := 4.
Definition AnalyticsQueryCancelled : Z := 5.

Record AnalyticsQueryJobRecord := mkAnalyticsQueryJobRecord {
  qj_State : Z;
  qj_CanonicalQuery : bytes;
  qj_RepositoryGeneration : Z;
  qj_ClassificationEpoch : Z;
  qj_AppliedCommit : Z;
  qj_CompletedSegments : list Z;
  qj_RowsScanned : Z;
  qj_UpdatedAt : Z;
  qj_Result : bytes;
  qj_Error : bytes;
}.

Definition validAnalyticsQueryJob (r : AnalyticsQueryJobRecord) : bool :=
  if (qj_State r <? AnalyticsQueryPending) || (AnalyticsQueryCancelled <? qj_State r)
     || (zlen (qj_CanonicalQuery r) =? 0) || (qj_RepositoryGeneration r =? 0)
     || (qj_ClassificationEpoch r =? 0) || (qj_UpdatedAt r =? 0)
     || negb (strictlyIncreasingOrEmpty (qj_CompletedSegments r))
  then false
  else if (qj_State r =? AnalyticsQueryComplete) && (zlen (qj_Result r) =? 0) then false
  else if (qj_State r =? AnalyticsQueryFailed) && bytes_eqb (qj_Error r) [] then false
  else true.
Arguments validAnalyticsQueryJob : simpl never.

Definition AnalyticsQueryJobRecord_MarshalBinary (r : AnalyticsQueryJobRecord) : result bytes :=
  do! guard (negb (validAnalyticsQueryJob r)) "invalid analytics query job";
  encode ([U8 (qj_State r); Str (qj_CanonicalQuery r); U64 (qj_RepositoryGeneration r);
           U64 (qj_ClassificationEpoch r); U64 (qj_AppliedCommit r);
           U32 (zlen (qj_CompletedSegments r))] ++
          concat (map u64_fields (qj_CompletedSegments r)) ++
          [U64 (qj_RowsScanned r); I64 (qj_UpdatedAt r); Str (qj_Result r); Str (qj_Error r)]).

Definition UnmarshalAnalyticsQueryJobRecord (data : bytes) : result AnalyticsQueryJobRecord :=
  let! d := newDecoder data in
  let! (state, d) := Decoder.u8 d in
  let! (canonicalQuery, d) := Decoder.bytes d in
  let! (repositoryGeneration, d) := Decoder.u64 d in
  let! (classificationEpoch, d) := Decoder.u64 d in
  let! (appliedCommit, d) := Decoder.u64 d in
  let! (count, d) := Decoder.u32 d in
  do! guard (MaxEncodedValueBytes / 8 <? count) "invalid analytics query job";
  let! (segments, d) := many (Z.to_nat count) Decoder.u64 d in
  let! (rowsScanned, d) := Decoder.u64 d in
  let! (updatedAt, d) := Decoder.i64 d in
  let! (result_, d) := Decoder.bytes d in
  let! (error, d) := Decoder.bytes d in
  let record := mkAnalyticsQueryJobRecord state canonicalQuery repositoryGeneration
                  classificationEpoch appliedCommit segments rowsScanned updatedAt result_ error in
  do! guard (negb (validAnalyticsQueryJob record)) "invalid analytics query job";
  do! Decoder.done d;
  Ok record.

Definition AnalyticsQueryJobRecord_ok (r : AnalyticsQueryJobRecord) : Prop :=
  uint8 (qj_State r) /\ uint64 (qj_RepositoryGeneration r) /\ uint64 (qj_ClassificationEpoch r) /\
  uint64 (qj_AppliedCommit r) /\ Forall (u_range 64) (qj_CompletedSegments r) /\
  uint64 (qj_RowsScanned r) /\ int64 (qj_UpdatedAt r).
#[export] Hint Unfold AnalyticsQueryJobRecord_ok : codec.

#[export] Instance AnalyticsQueryJobRecord_codec : RecordCodec AnalyticsQueryJobRecord := {
  record_ok := AnalyticsQueryJobRecord_ok;
  stored r := r;
  marshal := AnalyticsQueryJobRecord_MarshalBinary;
  unmarshal := UnmarshalAnalyticsQueryJobRecord;
}.
#[export] Instance AnalyticsQueryJobRecord_RoundTrip : RoundTrip AnalyticsQueryJobRecord.
Proof.
  intros r b Hok H. cbn [marshal unmarshal stored record_ok AnalyticsQueryJobRecord_codec] in *.
  unfold AnalyticsQueryJobRecord_ok in Hok. destruct_and?.
  unfold AnalyticsQueryJobRecord_MarshalBinary in H. inv_results. encoded H. segment_bound.
  unfold UnmarshalAnalyticsQueryJobRecord. start_decoder. cbn [app]. read_fields.
  rewrite (proj2 (Z.ltb_ge _ _)) by done. cbn [guard rbind].
  rewrite (many_round_trip _ u64_fields (u_range 64)) by auto using read_u64_wires. cbn [rbind].
  read_fields. eta_record r. pass_guards. done.
Qed.
#[export] Instance AnalyticsQueryJobRecord_Canonical : Canonical AnalyticsQueryJobRecord.
Proof.
  intros b r H. cbn [marshal unmarshal record_ok AnalyticsQueryJobRecord_codec] in *.
  unfold UnmarshalAnalyticsQueryJobRecord in H. invert_reads. read_list read_u64_inv.
  split; [typed_fields|]. unfold AnalyticsQueryJobRecord_MarshalBinary.
  pass_guards. eapply encode_reads; [eassumption | assemble | eassumption].
Qed.
