(* ===== verification/VerificationRecords.v ===== *)
(** * Verification, exclusion and deletion records ([internal/index/schema/phase17.go]) *)
From stdpp Require Import base list numbers strings.
From Stdlib Require Import ZArith Lia.
From S2P Require Import Prelude Codec Keys KeyParse Records MetaRecords.
Import Decoder (newDecoder, more, many, many_after).

Definition VerificationHeader : Z := 1.
Definition VerificationChecksum : Z := 2.
Definition VerificationFull : Z := 3.
Definition validVerificationLevel (value : Z) : bool := between VerificationHeader VerificationFull value.

Definition VerificationUnknown : Z := 0.
Definition VerificationHealthy : Z := 1.
Definition VerificationOperationalError : Z := 2.
Definition VerificationIntegrityError : Z := 3.
Definition validVerificationResult (value : Z) : bool := value <=? VerificationIntegrityError.

Definition VerificationNoError : Z := 0.
Definition VerificationMissing : Z := 1.
Definition VerificationDecompression : Z := 6.
Definition VerificationCancelled : Z := 9.
Definition validVerificationClassification (value : Z) : bool := value <=? VerificationCancelled.
Definition IsIntegrity (value : Z) : bool := between VerificationMissing VerificationDecompression value.

Definition VerificationDetected : Z := 1.
Definition VerificationChanged : Z := 2.
Definition VerificationResolved : Z := 3.
Definition validVerificationEventType (value : Z) : bool :=
  between VerificationDetected VerificationResolved value.

(** ** Verification state of a placement *)

Record VerificationStateRecord := mkVerificationStateRecord {
  vs_LastAttemptAt : Z;
  vs_LastAttemptLevel : Z;
  vs_HeaderVerifiedAt : Z;
  vs_ChecksumVerifiedAt : Z;
  vs_FullVerifiedAt : Z;
  vs_Result : Z;
  vs_OpenFindingID : ID;
  vs_FindingLevel : Z;
  vs_Classification : Z;
  vs_FirstErrorAt : Z;
  vs_LastErrorAt : Z;
  vs_ConsecutiveFailures : Z;
  vs_LastRunID : ID;
}.

Definition VerificationStateRecord_validateAttempt (r : VerificationStateRecord) : result unit :=
  if vs_LastAttemptAt r =? 0 then
    guard (negb (vs_LastAttemptLevel r =? 0) || negb (is_zero_id (vs_LastRunID r)))
      "verification attempt metadata without attempt"
  else
    guard (negb (validVerificationLevel (vs_LastAttemptLevel r)) || is_zero_id (vs_LastRunID r))
      "incomplete verification attempt".

Definition VerificationStateRecord_validateFinding (r : VerificationStateRecord) : result unit :=
  let hasFinding := negb (is_zero_id (vs_OpenFindingID r)) in
  do! guard (negb (Bool.eqb hasFinding
                     ((vs_Result r =? VerificationOperationalError)
                      || (vs_Result r =? VerificationIntegrityError))))
        "finding and result disagree";
  if negb hasFinding then
    guard (negb (vs_FindingLevel r =? 0) || negb (vs_Classification r =? VerificationNoError)
           || negb (vs_FirstErrorAt r =? 0) || negb (vs_LastErrorAt r =? 0)
           || negb (vs_ConsecutiveFailures r =? 0)) "stale verification finding metadata"
  else
    do! guard (negb (validVerificationLevel (vs_FindingLevel r))
               || (vs_Classification r =? VerificationNoError)
               || negb (validVerificationClassification (vs_Classification r))
               || (vs_FirstErrorAt r =? 0) || (vs_LastErrorAt r <? vs_FirstErrorAt r)
               || (vs_ConsecutiveFailures r =? 0)) "incomplete verification finding";
    guard (negb (Bool.eqb (vs_Result r =? VerificationIntegrityError) (IsIntegrity (vs_Classification r))))
      "verification finding class and result disagree".

Definition VerificationStateRecord_validate (r : VerificationStateRecord) : result unit :=
  do! guard ((vs_LastAttemptAt r <? 0) || (vs_HeaderVerifiedAt r <? 0) || (vs_ChecksumVerifiedAt r <? 0)
             || (vs_FullVerifiedAt r <? 0) || (vs_FirstErrorAt r <? 0) || (vs_LastErrorAt r <? 0)
             || negb (validVerificationResult (vs_Result r))) "invalid verification state";
  do! VerificationStateRecord_validateAttempt r;
  do! guard ((0 <? vs_FullVerifiedAt r)
             && ((vs_ChecksumVerifiedAt r <? vs_FullVerifiedAt r)
                 || (vs_HeaderVerifiedAt r <? vs_FullVerifiedAt r)))
        "full verification does not imply weaker levels";
  do! guard ((0 <? vs_ChecksumVerifiedAt r) && (vs_HeaderVerifiedAt r <? vs_ChecksumVerifiedAt r))
        "checksum verification does not imply header";
  VerificationStateRecord_validateFinding r.
Arguments VerificationStateRecord_validate : simpl never.

Definition VerificationStateRecord_MarshalBinary (r : VerificationStateRecord) : result bytes :=
  do! VerificationStateRecord_validate r;
  encode [I64 (vs_LastAttemptAt r); U8 (vs_LastAttemptLevel r); I64 (vs_HeaderVerifiedAt r);
          I64 (vs_ChecksumVerifiedAt r); I64 (vs_FullVerifiedAt r); U8 (vs_Result r);
          IDf (vs_OpenFindingID r); U8 (vs_FindingLevel r); U8 (vs_Classification r);
          I64 (vs_FirstErrorAt r); I64 (vs_LastErrorAt r); U64 (vs_ConsecutiveFailures r);
          IDf (vs_LastRunID r)].

Definition UnmarshalVerificationStateRecord (data : bytes) : result VerificationStateRecord :=
  let! d := newDecoder data in
  let! (lastAttemptAt, d) := Decoder.i64 d in
  let! (lastAttemptLevel, d) := Decoder.u8 d in
  let! (headerVerifiedAt, d) := Decoder.i64 d in
  let! (checksumVerifiedAt, d) := Decoder.i64 d in
  let! (fullVerifiedAt, d) := Decoder.i64 d in
  let! (result, d) := Decoder.u8 d in
  let! (openFindingID, d) := Decoder.id d in
  let! (findingLevel, d) := Decoder.u8 d in
  let! (classification, d) := Decoder.u8 d in
  let! (firstErrorAt, d) := Decoder.i64 d in
  let! (lastErrorAt, d) := Decoder.i64 d in
  let! (consecutiveFailures, d) := Decoder.u64 d in
  let! (lastRunID, d) := Decoder.id d in
  do! Decoder.done d;
  let record := mkVerificationStateRecord lastAttemptAt lastAttemptLevel headerVerifiedAt
      checksumVerifiedAt fullVerifiedAt result openFindingID findingLevel classification
      firstErrorAt lastErrorAt consecutiveFailures lastRunID in
  do! VerificationStateRecord_validate record;
  Ok record.

Definition VerificationStateRecord_ok (r : VerificationStateRecord) : Prop :=
  int64 (vs_LastAttemptAt r) /\ uint8 (vs_LastAttemptLevel r) /\ int64 (vs_HeaderVerifiedAt r) /\
  int64 (vs_ChecksumVerifiedAt r) /\ int64 (vs_FullVerifiedAt r) /\ uint8 (vs_Result r) /\
  id_ok (vs_OpenFindingID r) /\ uint8 (vs_FindingLevel r) /\ uint8 (vs_Classification r) /\
  int64 (vs_FirstErrorAt r) /\ int64 (vs_LastErrorAt r) /\ uint64 (vs_ConsecutiveFailures r) /\
  id_ok (vs_LastRunID r).
#[export] Hint Unfold VerificationStateRecord_ok : codec.

#[export] Instance VerificationStateRecord_codec : RecordCodec VerificationStateRecord := {
  record_ok := VerificationStateRecord_ok;
  stored r := r;
  marshal := VerificationStateRecord_MarshalBinary;
  unmarshal := UnmarshalVerificationStateRecord;
}.
#[export] Instance VerificationStateRecord_RoundTrip : RoundTrip VerificationStateRecord.
Proof. round_trip_record VerificationStateRecord_MarshalBinary UnmarshalVerificationStateRecord. Qed.
#[export] Instance VerificationStateRecord_Canonical : Canonical VerificationStateRecord.
Proof. canonical_record VerificationStateRecord_MarshalBinary UnmarshalVerificationStateRecord. Qed.

(** ** Verification events *)

Record VerificationEventRecord := mkVerificationEventRecord {
  ve_Type : Z;
  ve_FindingID : ID;
  ve_RunID : ID;
  ve_Level : Z;
  ve_Classification : Z;
  ve_FirstDetected : Z;
  ve_LastDetected : Z;
  ve_Occurrences : Z;
  ve_Expected : bytes;
  ve_Observed : bytes;
  ve_Resolution : bytes;
}.

Definition VerificationEventRecord_validate (r : VerificationEventRecord) : result unit :=
  do! guard (negb (validVerificationEventType (ve_Type r)) || is_zero_id (ve_FindingID r)
             || is_zero_id (ve_RunID r) || negb (validVerificationLevel (ve_Level r))
             || negb (validVerificationClassification (ve_Classification r))
             || (ve_FirstDetected r <=? 0) || (ve_LastDetected r <? ve_FirstDetected r)
             || (ve_Occurrences r =? 0)) "invalid verification event";
  if ve_Type r =? VerificationResolved then
    guard (bytes_eqb (ve_Resolution r) []) "resolution event without reason"
  else
    guard ((ve_Classification r =? VerificationNoError) || negb (bytes_eqb (ve_Resolution r) []))
      "invalid unresolved verification event".
Arguments VerificationEventRecord_validate : simpl never.

Definition VerificationEventRecord_MarshalBinary (r : VerificationEventRecord) : result bytes :=
  do! VerificationEventRecord_validate r;
  encode [U8 (ve_Type r); IDf (ve_FindingID r); IDf (ve_RunID r); U8 (ve_Level r);
          U8 (ve_Classification r); I64 (ve_FirstDetected r); I64 (ve_LastDetected r);
          U64 (ve_Occurrences r); Str (ve_Expected r); Str (ve_Observed r);
          Str (ve_Resolution r)].

Definition UnmarshalVerificationEventRecord (data : bytes) : result VerificationEventRecord :=
  let! d := newDecoder data in
  let! (type_, d) := Decoder.u8 d in
  let! (findingID, d) := Decoder.id d in
  let! (runID, d) := Decoder.id d in
  let! (level, d) := Decoder.u8 d in
  let! (classification, d) := Decoder.u8 d in
  let! (firstDetected, d) := Decoder.i64 d in
  let! (lastDetected, d) := Decoder.i64 d in
  let! (occurrences, d) := Decoder.u64 d in
  let! (expected, d) := Decoder.bytes d in
  let! (observed, d) := Decoder.bytes d in
  let! (resolution, d) := Decoder.bytes d in
  do! Decoder.done d;
  let record := mkVerificationEventRecord type_ findingID runID level classification
      firstDetected lastDetected occurrences expected observed resolution in
  do! VerificationEventRecord_validate record;
  Ok record.

Definition VerificationEventRecord_ok (r : VerificationEventRecord) : Prop :=
  uint8 (ve_Type r) /\ id_ok (ve_FindingID r) /\ id_ok (ve_RunID r) /\ uint8 (ve_Level r) /\
  uint8 (ve_Classification r) /\ int64 (ve_FirstDetected r) /\ int64 (ve_LastDetected r) /\
  uint64 (ve_Occurrences r).
#[export] Hint Unfold VerificationEventRecord_ok : codec.

#[export] Instance VerificationEventRecord_codec : RecordCodec VerificationEventRecord := {
  record_ok := VerificationEventRecord_ok;
  stored r := r;
  marshal := VerificationEventRecord_MarshalBinary;
  unmarshal := UnmarshalVerificationEventRecord;
}.
#[export] Instance VerificationEventRecord_RoundTrip : RoundTrip VerificationEventRecord.
Proof. round_trip_record VerificationEventRecord_MarshalBinary UnmarshalVerificationEventRecord. Qed.
#[export] Instance VerificationEventRecord_Canonical : Canonical VerificationEventRecord.
Proof. canonical_record VerificationEventRecord_MarshalBinary UnmarshalVerificationEventRecord. Qed.

(** ** Excluded users *)

Record UIDExclusionPolicyRecord := mkUIDExclusionPolicyRecord {
  ux_Excluded : bool;
  ux_UpdatedAt : Z;
  ux_RunID : ID;
  ux_Reason : bytes;
}.

Definition valid_exclusion_policy (r : UIDExclusionPolicyRecord) : bool :=
  negb ((ux_UpdatedAt r <=? 0) || is_zero_id (ux_RunID r)).
Arguments valid_exclusion_policy : simpl never.

Definition UIDExclusionPolicyRecord_MarshalBinary (r : UIDExclusionPolicyRecord) : result bytes :=
  do! guard (negb (valid_exclusion_policy r)) "invalid UID exclusion policy";
  encode [Bool (ux_Excluded r); I64 (ux_UpdatedAt r); IDf (ux_RunID r); Str (ux_Reason r)].

Definition UnmarshalUIDExclusionPolicyRecord (data : bytes) : result UIDExclusionPolicyRecord :=
  let! d := newDecoder data in
  let! (excluded, d) := Decoder.bool d in
  let! (updatedAt, d) := Decoder.i64 d in
  let! (runID, d) := Decoder.id d in
  let! (reason, d) := Decoder.bytes d in
  do! Decoder.done d;
  let record := mkUIDExclusionPolicyRecord excluded updatedAt runID reason in
  do! guard (negb (valid_exclusion_policy record)) "invalid UID exclusion policy";
  Ok record.

Definition UIDExclusionPolicyRecord_ok (r : UIDExclusionPolicyRecord) : Prop :=
  int64 (ux_UpdatedAt r) /\ id_ok (ux_RunID r).
#[export] Hint Unfold UIDExclusionPolicyRecord_ok : codec.

#[export] Instance UIDExclusionPolicyRecord_codec : RecordCodec UIDExclusionPolicyRecord := {
  record_ok := UIDExclusionPolicyRecord_ok;
  stored r := r;
  marshal := UIDExclusionPolicyRecord_MarshalBinary;
  unmarshal := UnmarshalUIDExclusionPolicyRecord;
}.
#[export] Instance UIDExclusionPolicyRecord_RoundTrip : RoundTrip UIDExclusionPolicyRecord.
Proof. round_trip_record UIDExclusionPolicyRecord_MarshalBinary UnmarshalUIDExclusionPolicyRecord. Qed.
#[export] Instance UIDExclusionPolicyRecord_Canonical : Canonical UIDExclusionPolicyRecord.
Proof. canonical_record UIDExclusionPolicyRecord_MarshalBinary UnmarshalUIDExclusionPolicyRecord. Qed.

(** ** Deletion certificates *)

Record DeletionSchedule := mkDeletionSchedule { ds_PackID : ID; ds_Backend : Z; ds_DeleteAfter : Z }.

Record DeletionCertificateRecord := mkDeletionCertificateRecord {
  ct_UID : Z;
  ct_ExecutedAt : Z;
  ct_RunID : ID;
  ct_PurgedReferenceHashes : list ID;
  ct_PendingDeletion : list DeletionSchedule;
  ct_SigningAlgorithm : bytes;
  ct_PublicKey : bytes;
  ct_Signature : bytes;
}.

Definition compareDeletionSchedule (left right : DeletionSchedule) : comparison :=
  match bytes_compare (ds_PackID left) (ds_PackID right) with
  | Eq =>
      if ds_Backend left <? ds_Backend right then Lt
      else if ds_Backend right <? ds_Backend left then Gt
      else if ds_DeleteAfter left <? ds_DeleteAfter right then Lt
      else if ds_DeleteAfter right <? ds_DeleteAfter left then Gt
      else Eq
  | c => c
  end.

Definition hash_fields (previous : option ID) (id : ID) : list field :=
  [Refuse (unsorted_id previous id) "deletion hashes are not uniquely sorted"; IDf id].

Definition unsorted_schedule (previous : option DeletionSchedule) (s : DeletionSchedule) : bool :=
  is_zero_id (ds_PackID s) || (ds_Backend s =? 0) || (ds_DeleteAfter s <? 0)
  || match previous with
     | Some p => match compareDeletionSchedule p s with Lt => false | _ => true end
     | None => false
     end.

Definition schedule_fields (previous : option DeletionSchedule) (s : DeletionSchedule) : list field :=
  [Refuse (unsorted_schedule previous s) "deletion schedules are not uniquely sorted";
   IDf (ds_PackID s); U64 (ds_Backend s); I64 (ds_DeleteAfter s)].

Definition DeletionCertificateRecord_marshal (includeSignature : bool) (r : DeletionCertificateRecord)
  : result bytes :=
  do! guard ((ct_ExecutedAt r <=? 0) || is_zero_id (ct_RunID r) || bytes_eqb (ct_SigningAlgorithm r) []
             || (zlen (ct_PublicKey r) =? 0) || (includeSignature && (zlen (ct_Signature r) =? 0)))
        "invalid deletion certificate";
  do! guard ((2 ^ 24 <? zlen (ct_PurgedReferenceHashes r)) || (2 ^ 24 <? zlen (ct_PendingDeletion r)))
        "deletion certificate is too large";
  encode ([U32 (ct_UID r); I64 (ct_ExecutedAt r); IDf (ct_RunID r);
           U32 (zlen (ct_PurgedReferenceHashes r))] ++
          fields_after hash_fields None (ct_PurgedReferenceHashes r) ++
          U32 (zlen (ct_PendingDeletion r)) ::
          fields_after schedule_fields None (ct_PendingDeletion r) ++
          [Str (ct_SigningAlgorithm r); Str (ct_PublicKey r)] ++
          if includeSignature then [Str (ct_Signature r)] else []).

Definition SigningBytes : DeletionCertificateRecord -> result bytes := DeletionCertificateRecord_marshal false.
Definition DeletionCertificateRecord_MarshalBinary : DeletionCertificateRecord -> result bytes :=
  DeletionCertificateRecord_marshal true.

Definition read_schedule (d : Decoder.decoder) : result (DeletionSchedule * Decoder.decoder) :=
  let! (packID, d) := Decoder.id d in
  let! (backend, d) := Decoder.u64 d in
  let! (deleteAfter, d) := Decoder.i64 d in
  Ok (mkDeletionSchedule packID backend deleteAfter, d).

Definition UnmarshalDeletionCertificateRecord (data : bytes) : result DeletionCertificateRecord :=
  let! d := newDecoder data in
  let! (uid, d) := Decoder.u32 d in
  let! (executedAt, d) := Decoder.i64 d in
  let! (runID, d) := Decoder.id d in
  let! (count, d) := Decoder.u32 d in
  let! (hashes, d) := many (Z.to_nat count) Decoder.id d in
  let! (count, d) := Decoder.u32 d in
  let! (pending, d) := many (Z.to_nat count) read_schedule d in
  let! (signingAlgorithm, d) := Decoder.bytes d in
  let! (publicKey, d) := Decoder.bytes d in
  let! (signature, d) := Decoder.bytes d in
  do! Decoder.done d;
  let record := mkDeletionCertificateRecord uid executedAt runID hashes pending signingAlgorithm
                  publicKey signature in
  let! encoded := DeletionCertificateRecord_MarshalBinary record in
  do! guard (negb (bytes_eqb encoded data)) "non-canonical deletion certificate";
  Ok record.

Definition schedule_ok (s : DeletionSchedule) : Prop :=
  id_ok (ds_PackID s) /\ uint64 (ds_Backend s) /\ int64 (ds_DeleteAfter s).
Definition DeletionCertificateRecord_ok (r : DeletionCertificateRecord) : Prop :=
  uint32 (ct_UID r) /\ int64 (ct_ExecutedAt r) /\ id_ok (ct_RunID r) /\
  Forall id_ok (ct_PurgedReferenceHashes r) /\ Forall schedule_ok (ct_PendingDeletion r).
#[export] Hint Unfold hash_fields schedule_fields schedule_ok DeletionCertificateRecord_ok : codec.

#[export] Instance DeletionCertificateRecord_codec : RecordCodec DeletionCertificateRecord := {
  record_ok := DeletionCertificateRecord_ok;
  stored r := r;
  marshal := DeletionCertificateRecord_MarshalBinary;
  unmarshal := UnmarshalDeletionCertificateRecord;
}.

Lemma many_ignores {A} n (item : Decoder.decoder -> result (A * Decoder.decoder)) p d :
  many n item d = many_after n (fun _ => item) p d.
Proof.
  revert p d; induction n as [|n IH]; intros p d; [done|]. cbn.
  destruct (item d) as [[x d']|]; [|done]. cbn. by rewrite (IH (Some x)).
Qed.

Lemma read_hash_wires t (p : option ID) id gs :
  id_ok id -> forallb writable (hash_fields p id) = true ->
  Decoder.id (Decoder.mk t (wires (hash_fields p id ++ gs))) = Ok (id, Decoder.mk t (wires gs)).
Proof. intros Hid _. unfold hash_fields. cbn [app]. by read_fields. Qed.

Lemma read_schedule_wires t (p : option DeletionSchedule) s gs :
  schedule_ok s -> forallb writable (schedule_fields p s) = true ->
  read_schedule (Decoder.mk t (wires (schedule_fields p s ++ gs))) = Ok (s, Decoder.mk t (wires gs)).
Proof.
  intros (? & ? & ?) _. unfold schedule_fields. cbn [app]. unfold read_schedule. read_fields. by destruct s.
Qed.

Lemma read_schedule_inv d s d' :
  read_schedule d = Ok (s, d') ->
  reads d [IDf (ds_PackID s); U64 (ds_Backend s); I64 (ds_DeleteAfter s)] d' /\ schedule_ok s.
Proof. unfold read_schedule. intros H. invert_reads. split; [assemble | typed_fields]. Qed.

#[export] Instance DeletionCertificateRecord_RoundTrip : RoundTrip DeletionCertificateRecord.
Proof.
  intros r b Hok H. cbn [marshal unmarshal stored record_ok DeletionCertificateRecord_codec] in *.
  unfold DeletionCertificateRecord_ok in Hok. destruct_and?. pose proof H as Hm.
  unfold DeletionCertificateRecord_MarshalBinary, DeletionCertificateRecord_marshal in H.
  inv_results. encoded H. split_bools.
  assert (uint32 (zlen (ct_PurgedReferenceHashes r))) by (nonnegs; range).
  assert (uint32 (zlen (ct_PendingDeletion r))) by (nonnegs; range).
  unfold UnmarshalDeletionCertificateRecord. start_decoder. cbn [app] in *. read_fields.
  rewrite (many_ignores _ Decoder.id None), (many_after_round_trip _ hash_fields (fun _ => id_ok))
    by first [by apply read_hash_wires | by apply chained_Forall | done].
  cbn [rbind]. read_fields.
  rewrite (many_ignores _ read_schedule None), (many_after_round_trip _ schedule_fields (fun _ => schedule_ok))
    by first [by apply read_schedule_wires | by apply chained_Forall | done].
  cbn [rbind]. read_fields. eta_record r. rewrite Hm. cbn [rbind]. by rewrite bytes_eqb_refl.
Qed.

#[export] Instance DeletionCertificateRecord_Canonical : Canonical DeletionCertificateRecord.
Proof.
  intros b r H. cbn [marshal unmarshal record_ok DeletionCertificateRecord_codec] in *.
  unfold UnmarshalDeletionCertificateRecord in H. invert_reads. read_list read_id_inv. read_list read_schedule_inv.
  split; [typed_fields|]. split_bools. congruence.
Qed.
