(* ===== verification/Validate.v ===== *)
(** * Validating values against their keys
    ([ValidateValue] in [internal/index/schema/metadata.go], the validate halves
    of the codecs in [key_codecs.go])

    A value is accepted under a key when it decodes as the record the key's kind
    stores and agrees with the key. [StoredValue] collects the records of the
    schema; [decode_value] says which record each kind stores, and the theorems
    show that the dispatch of the code implements it for every key. *)
From stdpp Require Import base list numbers strings.
From Stdlib Require Import ZArith Lia.
From coqutil Require Import Datatypes.RecordSetters.
From S2P Require Import Prelude Codec Keys KeyParse KeySpec KeyTheory KeySound.
Import Spec.
From S2P Require Import Records InodeRecords MetaRecords SnapshotRecords AnalyticsRecords VerificationRecords.
Import TriangleBracketNotations.

Section Validation.

(** [json.Valid], and the [tree] field of a snapshot document. *)
Variable json_valid : bytes -> bool.
Variable json_tree : bytes -> option bytes.

(** [_, err := Unmarshal(value); return err] *)
Definition check {A} (m : result A) : result unit := do! m; Ok tt.

Definition unsupportedSchemaKey : result unit := Err "unsupported schema key".

Definition validateAuthoritativeCrawlProof (parsed : ParsedKey) (value : bytes) : result unit :=
  let! record := UnmarshalAuthoritativeCrawlProofRecord value in
  guard (negb (bytes_eqb (ap_ScopeID record) (PK.Id parsed))
         || negb (ap_EndCommit record =? PK.Commit parsed)) "authoritative crawl proof key mismatch".

Definition validateAuthoritativeSourceBinding (parsed : ParsedKey) (value : bytes) : result unit :=
  let! record := UnmarshalAuthoritativeSourceBindingRecord value in
  guard (negb (sb_Generation record =? PK.Generation parsed)) "authoritative source binding key mismatch".

(** [parseErr != nil || target.Kind != expected || target.FSID != parsed.FSID || target.Inode != parsed.Inode] *)
Definition pointer_key_mismatch (parsed : ParsedKey) (record_key : bytes) : bool :=
  match ParseKey record_key with
  | Err _ => true
  | Ok target =>
      negb (match PK.Kind parsed, PK.Kind target with
            | KeyCurrentDirectory, KeyDirectoryRevision => true
            | KeyCurrentDirectory, _ => false
            | _, KeyInodeRevision => true
            | _, _ => false
            end)
      || negb (PK.FSID target =? PK.FSID parsed) || negb (PK.Inode target =? PK.Inode parsed)
  end.

Definition validateCurrentPointer (parsed : ParsedKey) (value : bytes) : result unit :=
  let! pointer := UnmarshalCurrentPointer value in
  guard (pointer_key_mismatch parsed (cp_RecordKey pointer)) "current pointer key mismatch".

(** [parseErr != nil || (parsed.FSID != 0 && childKey.FSID != parsed.FSID)] *)
Definition child_crosses (parsed : ParsedKey) (child : DirectoryChild) : bool :=
  match ParseKey (dc_MetadataKey child) with
  | Err _ => true
  | Ok childKey => negb (PK.FSID parsed =? 0) && negb (PK.FSID childKey =? PK.FSID parsed)
  end.

Definition validateDirectoryRevision (parsed : ParsedKey) (value : bytes) : result unit :=
  let! directory := UnmarshalDirectoryRevision value in
  guard (existsb (child_crosses parsed) (dr_Children directory))
    "directory child crosses filesystem boundary".

Definition validateContentManifest (parsed : ParsedKey) (value : bytes) : result unit :=
  let! manifest := UnmarshalContentManifest value in
  guard (negb (cm_Segment manifest =? PK.Segment parsed)) "content manifest segment mismatch".

(** The root was already checked by the decoder, with the same test. *)
Definition validateSnapshotCommit (value : bytes) : result unit :=
  let! record := UnmarshalSnapshotCommitRecord value in
  guard (negb (validExportRoot (sc_RootKey record))) "snapshot commit root mismatch".

Definition validateAnalyticsDerivedValue (parsed : ParsedKey) (value : bytes) : result unit :=
  match PK.Kind parsed with
  | KeyGrowthTime | KeyGrowthPath | KeyUserChurn => check (UnmarshalAnalyticsAggregateRecord value)
  | KeyUserSummary | KeyGroupSummary | KeyUserStats | KeyGroupStats =>
      check (UnmarshalAnalyticsSummaryRecord value)
  | KeyUserInode => check (UnmarshalAnalyticsUserInodeRecord value)
  | KeyUserBlob | KeyUserBlobContribution => check (UnmarshalAnalyticsUserBlobRecord value)
  | _ => unsupportedSchemaKey
  end.

Definition validateAnalyticsProjectionValue (parsed : ParsedKey) (value : bytes) : result unit :=
  match PK.Kind parsed with
  | KeyAuthoritativeCrawlProof => validateAuthoritativeCrawlProof parsed value
  | KeyAuthoritativeSourceBinding => validateAuthoritativeSourceBinding parsed value
  | KeyAnalyticsWatermark => check (UnmarshalAnalyticsWatermarkRecord value)
  | KeyAnalyticsManifest => check (UnmarshalAnalyticsManifestRecord value)
  | KeyAnalyticsQueryResult | KeyAnalyticsQueryHeat | KeyAnalyticsQueryView =>
      check (UnmarshalAnalyticsQueryRecord value)
  | KeyAnalyticsQueryJob => check (UnmarshalAnalyticsQueryJobRecord value)
  | KeyAnalyticsDerivedMarker =>
      guard (negb (bytes_eqb value [z2b Version])) "invalid analytics derived generation marker"
  | _ => validateAnalyticsDerivedValue parsed value
  end.

Definition validateAnalyticsValue (parsed : ParsedKey) (value : bytes) : result unit :=
  match PK.Kind parsed with
  | KeyPackAggregate | KeyTierAggregate => check (UnmarshalPackAggregate value)
  | KeyAnalyticsFact => check (UnmarshalAnalyticsFactRecord value)
  | KeyAnalyticsCache => guard (negb (json_valid value)) "invalid analytics cache JSON"
  | KeyAnalyticsDictionary => check (UnmarshalAnalyticsDictionaryRecord value)
  | KeyAnalyticsFactSegment => check (UnmarshalAnalyticsFactSegmentRecord value)
  | KeyAnalyticsSegmentMetadata => check (UnmarshalAnalyticsSegmentMetadataRecord value)
  | KeyAnalyticsDimensionIndex => check (UnmarshalAnalyticsDimensionIndexRecord value)
  | KeyAnalyticsResidency => check (UnmarshalAnalyticsResidencyRecord value)
  | KeyAnalyticsDelta => check (UnmarshalAnalyticsDeltaRecord value)
  | _ => validateAnalyticsProjectionValue parsed value
  end.

(** ** The validate halves of the codecs *)

Definition validate_blob (parsed : ParsedKey) (value : bytes) : result unit :=
  match PK.Kind parsed with
  | KeyBlob => check (UnmarshalBlobRecord value)
  | KeyBackendPack => check (UnmarshalBackendPackRecord value)
  | _ => unsupportedSchemaKey
  end.

Definition validate_content (parsed : ParsedKey) (value : bytes) : result unit :=
  match PK.Kind parsed with
  | KeyContentManifest => validateContentManifest parsed value
  | _ => unsupportedSchemaKey
  end.

Definition validate_directory (parsed : ParsedKey) (value : bytes) : result unit :=
  match PK.Kind parsed with
  | KeyCurrentDirectory => validateCurrentPointer parsed value
  | KeyDirectoryRevision => validateDirectoryRevision parsed value
  | KeyDeletionCertificate => check (UnmarshalDeletionCertificateRecord value)
  | KeyPlacementDeleteQueue => check (UnmarshalPlacementDeleteRecord value)
  | _ => unsupportedSchemaKey
  end.

Definition validate_growth (parsed : ParsedKey) (value : bytes) : result unit :=
  match PK.Kind parsed with
  | KeyGarbageCollection => check (UnmarshalGarbageCollectionRecord value)
  | KeyGrowthTime | KeyGrowthPath => check (UnmarshalAnalyticsAggregateRecord value)
  | KeyGroupSummary | KeyGroupStats => check (UnmarshalAnalyticsSummaryRecord value)
  | _ => unsupportedSchemaKey
  end.

Definition validate_hardlink (parsed : ParsedKey) (value : bytes) : result unit :=
  match PK.Kind parsed with
  | KeyHardlinkRefs => check (UnmarshalHardlinkRefsRecord value)
  | _ => unsupportedSchemaKey
  end.

Definition validate_inode (parsed : ParsedKey) (value : bytes) : result unit :=
  match PK.Kind parsed with
  | KeyCurrentInode => validateCurrentPointer parsed value
  | KeyInodeRevision => check (UnmarshalInodeRevision value)
  | _ => unsupportedSchemaKey
  end.

Definition validate_metadata (parsed : ParsedKey) (value : bytes) : result unit :=
  match PK.Kind parsed with
  | KeyImportCheckpoint => check (UnmarshalImportCheckpointRecord value)
  | KeyLegacyImportReceipt => check (UnmarshalLegacyImportReceiptRecord value)
  | KeySnapshotImportCheckpoint => check (UnmarshalSnapshotImportCheckpointRecord value)
  | KeyExportCheckpoint => check (UnmarshalExportCheckpointRecord value)
  | KeyExportIndexCheckpoint => check (UnmarshalExportIndexCheckpointRecord value)
  | KeyNextRevision | KeyNextExportSequence | KeyNextEventSequence =>
      check (UnmarshalNextRevision value)
  | KeyHistoryRawFloor | KeyHistoryEnabledAt => check (UnmarshalHistoryMarker value)
  | KeyAnalyticsMetadata => check (UnmarshalAnalyticsMetadataRecord value)
  | KeyAnalyticsBuildCheckpoint => check (UnmarshalAnalyticsBuildCheckpointRecord value)
  | _ => unsupportedSchemaKey
  end.

Definition validate_pack (parsed : ParsedKey) (value : bytes) : result unit :=
  match PK.Kind parsed with
  | KeyPack => check (UnmarshalPackRecord value)
  | KeyPackHistory => check (UnmarshalPackHistoryEvent value)
  | KeyPackHistoryBucket => check (UnmarshalPackHistoryBucket value)
  | KeyPackPlacement => check (UnmarshalPlacementRecord value)
  | KeyPathVersion => check (UnmarshalPathVersionRecord value)
  | KeyPromotionEligibility => check (UnmarshalPromotionEligibilityRecord value)
  | _ => unsupportedSchemaKey
  end.

Definition validate_crawl (parsed : ParsedKey) (value : bytes) : result unit :=
  match PK.Kind parsed with
  | KeyCrawlDebt => check (UnmarshalCrawlDebtRecord value)
  | _ => unsupportedSchemaKey
  end.

Definition validate_reverse (parsed : ParsedKey) (value : bytes) : result unit :=
  match PK.Kind parsed with
  | KeyReferenceCount => check (UnmarshalReferenceCountRecord value)
  | KeyReverseManifest => check (UnmarshalReverseManifestRecord value)
  | KeyReverseInode => check (UnmarshalReverseInodeRecord value)
  | KeyPlacementRequest => check (UnmarshalPlacementRequestRecord value)
  | KeyRepackLineage => check (UnmarshalRepackLineageRecord value)
  | _ => unsupportedSchemaKey
  end.

Definition validate_snapshot (parsed : ParsedKey) (value : bytes) : result unit :=
  match PK.Kind parsed with
  | KeySnapshot => check (UnmarshalSnapshotRecord json_tree value)
  | KeySnapshotCommit => validateSnapshotCommit value
  | _ => unsupportedSchemaKey
  end.

Definition validate_user (parsed : ParsedKey) (value : bytes) : result unit :=
  match PK.Kind parsed with
  | KeyUIDExclusionPolicy => check (UnmarshalUIDExclusionPolicyRecord value)
  | KeyUserChurn => check (UnmarshalAnalyticsAggregateRecord value)
  | KeyUserSummary | KeyUserStats => check (UnmarshalAnalyticsSummaryRecord value)
  | KeyUserInode => check (UnmarshalAnalyticsUserInodeRecord value)
  | KeyUserBlob | KeyUserBlobContribution => check (UnmarshalAnalyticsUserBlobRecord value)
  | _ => unsupportedSchemaKey
  end.

Definition validate_verification (parsed : ParsedKey) (value : bytes) : result unit :=
  match PK.Kind parsed with
  | KeyVerificationState => check (UnmarshalVerificationStateRecord value)
  | KeyVerificationEvent => check (UnmarshalVerificationEventRecord value)
  | _ => unsupportedSchemaKey
  end.

Definition codec_validate (codec : keyCodec) (parsed : ParsedKey) (value : bytes) : result unit :=
  match codec with
  | analyticsKeyCodec => validateAnalyticsValue parsed value
  | blobKeyCodec => validate_blob parsed value
  | contentKeyCodec => validate_content parsed value
  | directoryKeyCodec => validate_directory parsed value
  | growthKeyCodec => validate_growth parsed value
  | hardlinkKeyCodec => validate_hardlink parsed value
  | inodeKeyCodec => validate_inode parsed value
  | metadataKeyCodec => validate_metadata parsed value
  | packKeyCodec => validate_pack parsed value
  | crawlKeyCodec => validate_crawl parsed value
  | reverseKeyCodec => validate_reverse parsed value
  | snapshotKeyCodec => validate_snapshot parsed value
  | userKeyCodec => validate_user parsed value
  | verificationKeyCodec => validate_verification parsed value
  end.

Definition ValidateValue (key value : bytes) : result unit :=
  let! parsed := ParseKey key in
  let! codec := codecForKey key in
  codec_validate codec parsed value.

(** ** The specification *)

(** The records of the schema. *)
Inductive StoredValue : Type :=
| VBlob (r : BlobRecord)
| VBackendPack (r : BackendPackRecord)
| VContentManifest (r : ContentManifest)
| VPointer (r : CurrentPointer)
| VDirectory (r : DirectoryRevision)
| VCertificate (r : DeletionCertificateRecord)
| VPlacementDelete (r : PlacementDeleteRecord)
| VGarbageCollection (r : GarbageCollectionRecord)
| VAggregate (r : AnalyticsAggregateRecord)
| VSummary (r : AnalyticsSummaryRecord)
| VHardlinkRefs (r : HardlinkRefsRecord)
| VInode (r : InodeRevision)
| VImportCheckpoint (r : ImportCheckpointRecord)
| VImportReceipt (r : LegacyImportReceiptRecord)
| VSnapshotImport (r : SnapshotImportCheckpointRecord)
| VExportCheckpoint (r : ExportCheckpointRecord)
| VExportIndex (r : ExportIndexCheckpointRecord)
| VHistoryMarker (r : HistoryMarker)
| VAnalyticsMetadata (r : AnalyticsMetadataRecord)
| VBuildCheckpoint (r : AnalyticsBuildCheckpointRecord)
| VPack (r : PackRecord)
| VHistoryEvent (r : PackHistoryEvent)
| VHistoryBucket (r : PackHistoryBucket)
| VPlacement (r : PlacementRecord)
| VPathVersion (r : PathVersionRecord)
| VPromotion (r : PromotionEligibilityRecord)
| VCrawlDebt (r : CrawlDebtRecord)
| VReferenceCount (r : ReferenceCountRecord)
| VReverseManifest (r : ReverseManifestRecord)
| VReverseInode (r : ReverseInodeRecord)
| VPlacementRequest (r : PlacementRequestRecord)
| VLineage (r : RepackLineageRecord)
| VSnapshotCommit (r : SnapshotCommitRecord)
| VExclusion (r : UIDExclusionPolicyRecord)
| VUserInode (r : AnalyticsUserInodeRecord)
| VUserBlob (r : AnalyticsUserBlobRecord)
| VVerificationState (r : VerificationStateRecord)
| VVerificationEvent (r : VerificationEventRecord)
| VPackAggregate (r : PackAggregate)
| VFact (r : AnalyticsFactRecord)
| VDictionary (r : AnalyticsDictionaryRecord)
| VFactSegment (r : AnalyticsFactSegmentRecord)
| VSegmentMetadata (r : AnalyticsSegmentMetadataRecord)
| VDimensionIndex (r : AnalyticsDimensionIndexRecord)
| VResidency (r : AnalyticsResidencyRecord)
| VDelta (r : AnalyticsDeltaRecord)
| VCrawlProof (r : AuthoritativeCrawlProofRecord)
| VSourceBinding (r : AuthoritativeSourceBindingRecord)
| VWatermark (r : AnalyticsWatermarkRecord)
| VManifest (r : AnalyticsManifestRecord)
| VQuery (r : AnalyticsQueryRecord)
| VQueryJob (r : AnalyticsQueryJobRecord)
| VSnapshot (r : SnapshotRecord)
| VSequence (next : Z)
| VDocument (text : bytes)
| VMarker.

(** The record a key's kind stores, decoded. *)
Definition decode_value (kind : KeyKind) (b : bytes) : result StoredValue :=
  match kind with
  | KeyBlob =>
      let! r := UnmarshalBlobRecord b in Ok (VBlob r)
  | KeyBackendPack =>
      let! r := UnmarshalBackendPackRecord b in Ok (VBackendPack r)
  | KeyContentManifest =>
      let! r := UnmarshalContentManifest b in Ok (VContentManifest r)
  | KeyCurrentInode | KeyCurrentDirectory =>
      let! r := UnmarshalCurrentPointer b in Ok (VPointer r)
  | KeyDirectoryRevision =>
      let! r := UnmarshalDirectoryRevision b in Ok (VDirectory r)
  | KeyDeletionCertificate =>
      let! r := UnmarshalDeletionCertificateRecord b in Ok (VCertificate r)
  | KeyPlacementDeleteQueue =>
      let! r := UnmarshalPlacementDeleteRecord b in Ok (VPlacementDelete r)
  | KeyGarbageCollection =>
      let! r := UnmarshalGarbageCollectionRecord b in Ok (VGarbageCollection r)
  | KeyGrowthTime | KeyGrowthPath | KeyUserChurn =>
      let! r := UnmarshalAnalyticsAggregateRecord b in Ok (VAggregate r)
  | KeyGroupSummary | KeyGroupStats | KeyUserSummary | KeyUserStats =>
      let! r := UnmarshalAnalyticsSummaryRecord b in Ok (VSummary r)
  | KeyHardlinkRefs =>
      let! r := UnmarshalHardlinkRefsRecord b in Ok (VHardlinkRefs r)
  | KeyInodeRevision =>
      let! r := UnmarshalInodeRevision b in Ok (VInode r)
  | KeyImportCheckpoint =>
      let! r := UnmarshalImportCheckpointRecord b in Ok (VImportCheckpoint r)
  | KeyLegacyImportReceipt =>
      let! r := UnmarshalLegacyImportReceiptRecord b in Ok (VImportReceipt r)
  | KeySnapshotImportCheckpoint =>
      let! r := UnmarshalSnapshotImportCheckpointRecord b in Ok (VSnapshotImport r)
  | KeyExportCheckpoint =>
      let! r := UnmarshalExportCheckpointRecord b in Ok (VExportCheckpoint r)
  | KeyExportIndexCheckpoint =>
      let! r := UnmarshalExportIndexCheckpointRecord b in Ok (VExportIndex r)
  | KeyHistoryRawFloor | KeyHistoryEnabledAt =>
      let! r := UnmarshalHistoryMarker b in Ok (VHistoryMarker r)
  | KeyAnalyticsMetadata =>
      let! r := UnmarshalAnalyticsMetadataRecord b in Ok (VAnalyticsMetadata r)
  | KeyAnalyticsBuildCheckpoint =>
      let! r := UnmarshalAnalyticsBuildCheckpointRecord b in Ok (VBuildCheckpoint r)
  | KeyPack =>
      let! r := UnmarshalPackRecord b in Ok (VPack r)
  | KeyPackHistory =>
      let! r := UnmarshalPackHistoryEvent b in Ok (VHistoryEvent r)
  | KeyPackHistoryBucket =>
      let! r := UnmarshalPackHistoryBucket b in Ok (VHistoryBucket r)
  | KeyPackPlacement =>
      let! r := UnmarshalPlacementRecord b in Ok (VPlacement r)
  | KeyPathVersion =>
      let! r := UnmarshalPathVersionRecord b in Ok (VPathVersion r)
  | KeyPromotionEligibility =>
      let! r := UnmarshalPromotionEligibilityRecord b in Ok (VPromotion r)
  | KeyCrawlDebt =>
      let! r := UnmarshalCrawlDebtRecord b in Ok (VCrawlDebt r)
  | KeyReferenceCount =>
      let! r := UnmarshalReferenceCountRecord b in Ok (VReferenceCount r)
  | KeyReverseManifest =>
      let! r := UnmarshalReverseManifestRecord b in Ok (VReverseManifest r)
  | KeyReverseInode =>
      let! r := UnmarshalReverseInodeRecord b in Ok (VReverseInode r)
  | KeyPlacementRequest =>
      let! r := UnmarshalPlacementRequestRecord b in Ok (VPlacementRequest r)
  | KeyRepackLineage =>
      let! r := UnmarshalRepackLineageRecord b in Ok (VLineage r)
  | KeySnapshotCommit =>
      let! r := UnmarshalSnapshotCommitRecord b in Ok (VSnapshotCommit r)
  | KeyUIDExclusionPolicy =>
      let! r := UnmarshalUIDExclusionPolicyRecord b in Ok (VExclusion r)
  | KeyUserInode =>
      let! r := UnmarshalAnalyticsUserInodeRecord b in Ok (VUserInode r)
  | KeyUserBlob | KeyUserBlobContribution =>
      let! r := UnmarshalAnalyticsUserBlobRecord b in Ok (VUserBlob r)
  | KeyVerificationState =>
      let! r := UnmarshalVerificationStateRecord b in Ok (VVerificationState r)
  | KeyVerificationEvent =>
      let! r := UnmarshalVerificationEventRecord b in Ok (VVerificationEvent r)
  | KeyPackAggregate | KeyTierAggregate =>
      let! r := UnmarshalPackAggregate b in Ok (VPackAggregate r)
  | KeyAnalyticsFact =>
      let! r := UnmarshalAnalyticsFactRecord b in Ok (VFact r)
  | KeyAnalyticsDictionary =>
      let! r := UnmarshalAnalyticsDictionaryRecord b in Ok (VDictionary r)
  | KeyAnalyticsFactSegment =>
      let! r := UnmarshalAnalyticsFactSegmentRecord b in Ok (VFactSegment r)
  | KeyAnalyticsSegmentMetadata =>
      let! r := UnmarshalAnalyticsSegmentMetadataRecord b in Ok (VSegmentMetadata r)
  | KeyAnalyticsDimensionIndex =>
      let! r := UnmarshalAnalyticsDimensionIndexRecord b in Ok (VDimensionIndex r)
  | KeyAnalyticsResidency =>
      let! r := UnmarshalAnalyticsResidencyRecord b in Ok (VResidency r)
  | KeyAnalyticsDelta =>
      let! r := UnmarshalAnalyticsDeltaRecord b in Ok (VDelta r)
  | KeyAuthoritativeCrawlProof =>
      let! r := UnmarshalAuthoritativeCrawlProofRecord b in Ok (VCrawlProof r)
  | KeyAuthoritativeSourceBinding =>
      let! r := UnmarshalAuthoritativeSourceBindingRecord b in Ok (VSourceBinding r)
  | KeyAnalyticsWatermark =>
      let! r := UnmarshalAnalyticsWatermarkRecord b in Ok (VWatermark r)
  | KeyAnalyticsManifest =>
      let! r := UnmarshalAnalyticsManifestRecord b in Ok (VManifest r)
  | KeyAnalyticsQueryResult | KeyAnalyticsQueryHeat | KeyAnalyticsQueryView =>
      let! r := UnmarshalAnalyticsQueryRecord b in Ok (VQuery r)
  | KeyAnalyticsQueryJob =>
      let! r := UnmarshalAnalyticsQueryJobRecord b in Ok (VQueryJob r)
  | KeySnapshot =>
      let! r := UnmarshalSnapshotRecord json_tree b in Ok (VSnapshot r)
  | KeyNextRevision | KeyNextExportSequence | KeyNextEventSequence =>
      let! next := UnmarshalNextRevision b in Ok (VSequence next)
  | KeyAnalyticsCache => if json_valid b then Ok (VDocument b) else Err "invalid JSON"
  | KeyAnalyticsDerivedMarker => if bytes_eqb b [z2b Version] then Ok VMarker else Err "invalid marker"
  end.

(** The record's references agree with the key it is stored under. A pointer to a current
    revision leads to a revision of the same inode: of a directory if the pointer is one of
    a directory. The children of a directory are stored under keys, which are of the file
    system of the directory unless that is 0. *)
Definition agrees (parsed : ParsedKey) (v : StoredValue) : Prop :=
  match v with
  | VContentManifest r => cm_Segment r = PK.Segment parsed
  | VPointer r => exists target, ParseKey (cp_RecordKey r) = Ok target
      /\ PK.Kind target = (match PK.Kind parsed with KeyCurrentDirectory => KeyDirectoryRevision | _ => KeyInodeRevision end)
      /\ PK.FSID target = PK.FSID parsed /\ PK.Inode target = PK.Inode parsed
  | VDirectory r => forall child, child ∈ dr_Children r -> exists key, ParseKey (dc_MetadataKey child) = Ok key
      /\ (PK.FSID parsed = 0 \/ PK.FSID key = PK.FSID parsed)
  | VCrawlProof r => ap_ScopeID r = PK.Id parsed /\ ap_EndCommit r = PK.Commit parsed
  | VSourceBinding r => sb_Generation r = PK.Generation parsed
  | VSnapshotCommit r => exists root, ParseKey (sc_RootKey r) = Ok root /\ PK.Kind root = KeyDirectoryRevision /\ PK.Revision root <> 0
  | _ => True
  end.

Definition marshal_value (v : StoredValue) : result bytes :=
  match v with
  | VBlob r => BlobRecord_MarshalBinary r
  | VBackendPack r => BackendPackRecord_MarshalBinary r
  | VContentManifest r => ContentManifest_MarshalBinary r
  | VPointer r => CurrentPointer_MarshalBinary r
  | VDirectory r => DirectoryRevision_MarshalBinary r
  | VCertificate r => DeletionCertificateRecord_MarshalBinary r
  | VPlacementDelete r => PlacementDeleteRecord_MarshalBinary r
  | VGarbageCollection r => GarbageCollectionRecord_MarshalBinary r
  | VAggregate r => AnalyticsAggregateRecord_MarshalBinary r
  | VSummary r => AnalyticsSummaryRecord_MarshalBinary r
  | VHardlinkRefs r => HardlinkRefsRecord_MarshalBinary r
  | VInode r => InodeRevision_MarshalBinary r
  | VImportCheckpoint r => ImportCheckpointRecord_MarshalBinary r
  | VImportReceipt r => LegacyImportReceiptRecord_MarshalBinary r
  | VSnapshotImport r => SnapshotImportCheckpointRecord_MarshalBinary r
  | VExportCheckpoint r => ExportCheckpointRecord_MarshalBinary r
  | VExportIndex r => ExportIndexCheckpointRecord_MarshalBinary r
  | VHistoryMarker r => HistoryMarker_MarshalBinary r
  | VAnalyticsMetadata r => AnalyticsMetadataRecord_MarshalBinary r
  | VBuildCheckpoint r => AnalyticsBuildCheckpointRecord_MarshalBinary r
  | VPack r => PackRecord_MarshalBinary r
  | VHistoryEvent r => PackHistoryEvent_MarshalBinary r
  | VHistoryBucket r => PackHistoryBucket_MarshalBinary r
  | VPlacement r => PlacementRecord_MarshalBinary r
  | VPathVersion r => PathVersionRecord_MarshalBinary r
  | VPromotion r => PromotionEligibilityRecord_MarshalBinary r
  | VCrawlDebt r => CrawlDebtRecord_MarshalBinary r
  | VReferenceCount r => ReferenceCountRecord_MarshalBinary r
  | VReverseManifest r => ReverseManifestRecord_MarshalBinary r
  | VReverseInode r => ReverseInodeRecord_MarshalBinary r
  | VPlacementRequest r => PlacementRequestRecord_MarshalBinary r
  | VLineage r => RepackLineageRecord_MarshalBinary r
  | VSnapshotCommit r => SnapshotCommitRecord_MarshalBinary r
  | VExclusion r => UIDExclusionPolicyRecord_MarshalBinary r
  | VUserInode r => AnalyticsUserInodeRecord_MarshalBinary r
  | VUserBlob r => AnalyticsUserBlobRecord_MarshalBinary r
  | VVerificationState r => VerificationStateRecord_MarshalBinary r
  | VVerificationEvent r => VerificationEventRecord_MarshalBinary r
  | VPackAggregate r => PackAggregate_MarshalBinary r
  | VFact r => AnalyticsFactRecord_MarshalBinary r
  | VDictionary r => AnalyticsDictionaryRecord_MarshalBinary r
  | VFactSegment r => AnalyticsFactSegmentRecord_MarshalBinary r
  | VSegmentMetadata r => AnalyticsSegmentMetadataRecord_MarshalBinary r
  | VDimensionIndex r => AnalyticsDimensionIndexRecord_MarshalBinary r
  | VResidency r => AnalyticsResidencyRecord_MarshalBinary r
  | VDelta r => AnalyticsDeltaRecord_MarshalBinary r
  | VCrawlProof r => AuthoritativeCrawlProofRecord_MarshalBinary r
  | VSourceBinding r => AuthoritativeSourceBindingRecord_MarshalBinary r
  | VWatermark r => AnalyticsWatermarkRecord_MarshalBinary r
  | VManifest r => AnalyticsManifestRecord_MarshalBinary r
  | VQuery r => AnalyticsQueryRecord_MarshalBinary r
  | VQueryJob r => AnalyticsQueryJobRecord_MarshalBinary r
  | VSnapshot r => SnapshotRecord_MarshalBinary json_tree r
  | VSequence next => MarshalNextRevision next
  | VDocument text => Ok text
  | VMarker => Ok [z2b Version]
  end.

Definition value_ok (v : StoredValue) : Prop :=
  match v with
  | VBlob r => record_ok r
  | VBackendPack r => record_ok r
  | VContentManifest r => record_ok r
  | VPointer r => record_ok r
  | VDirectory r => record_ok r
  | VCertificate r => record_ok r
  | VPlacementDelete r => record_ok r
  | VGarbageCollection r => record_ok r
  | VAggregate r => record_ok r
  | VSummary r => record_ok r
  | VHardlinkRefs r => record_ok r
  | VInode r => record_ok r
  | VImportCheckpoint r => record_ok r
  | VImportReceipt r => record_ok r
  | VSnapshotImport r => record_ok r
  | VExportCheckpoint r => record_ok r
  | VExportIndex r => record_ok r
  | VHistoryMarker r => record_ok r
  | VAnalyticsMetadata r => record_ok r
  | VBuildCheckpoint r => record_ok r
  | VPack r => record_ok r
  | VHistoryEvent r => record_ok r
  | VHistoryBucket r => record_ok r
  | VPlacement r => record_ok r
  | VPathVersion r => record_ok r
  | VPromotion r => record_ok r
  | VCrawlDebt r => record_ok r
  | VReferenceCount r => record_ok r
  | VReverseManifest r => record_ok r
  | VReverseInode r => record_ok r
  | VPlacementRequest r => record_ok r
  | VLineage r => record_ok r
  | VSnapshotCommit r => record_ok r
  | VExclusion r => record_ok r
  | VUserInode r => record_ok r
  | VUserBlob r => record_ok r
  | VVerificationState r => record_ok r
  | VVerificationEvent r => record_ok r
  | VPackAggregate r => record_ok r
  | VFact r => record_ok r
  | VDictionary r => record_ok r
  | VFactSegment r => record_ok r
  | VSegmentMetadata r => record_ok r
  | VDimensionIndex r => record_ok r
  | VResidency r => record_ok r
  | VDelta r => record_ok r
  | VCrawlProof r => record_ok r
  | VSourceBinding r => record_ok r
  | VWatermark r => record_ok r
  | VManifest r => record_ok r
  | VQuery r => record_ok r
  | VQueryJob r => record_ok r
  | VSnapshot r => SnapshotRecord_ok r
  | VSequence next => uint64 next
  | VDocument text => json_valid text = true
  | VMarker => True
  end.

(** The form in which a record comes back from the store. *)
Definition stored_value (v : StoredValue) : StoredValue :=
  match v with
  | VBlob r => VBlob (stored r)
  | VBackendPack r => VBackendPack (stored r)
  | VContentManifest r => VContentManifest (stored r)
  | VPointer r => VPointer (stored r)
  | VDirectory r => VDirectory (stored r)
  | VCertificate r => VCertificate (stored r)
  | VPlacementDelete r => VPlacementDelete (stored r)
  | VGarbageCollection r => VGarbageCollection (stored r)
  | VAggregate r => VAggregate (stored r)
  | VSummary r => VSummary (stored r)
  | VHardlinkRefs r => VHardlinkRefs (stored r)
  | VInode r => VInode (stored r)
  | VImportCheckpoint r => VImportCheckpoint (stored r)
  | VImportReceipt r => VImportReceipt (stored r)
  | VSnapshotImport r => VSnapshotImport (stored r)
  | VExportCheckpoint r => VExportCheckpoint (stored r)
  | VExportIndex r => VExportIndex (stored r)
  | VHistoryMarker r => VHistoryMarker (stored r)
  | VAnalyticsMetadata r => VAnalyticsMetadata (stored r)
  | VBuildCheckpoint r => VBuildCheckpoint (stored r)
  | VPack r => VPack (stored r)
  | VHistoryEvent r => VHistoryEvent (stored r)
  | VHistoryBucket r => VHistoryBucket (stored r)
  | VPlacement r => VPlacement (stored r)
  | VPathVersion r => VPathVersion (stored r)
  | VPromotion r => VPromotion (stored r)
  | VCrawlDebt r => VCrawlDebt (stored r)
  | VReferenceCount r => VReferenceCount (stored r)
  | VReverseManifest r => VReverseManifest (stored r)
  | VReverseInode r => VReverseInode (stored r)
  | VPlacementRequest r => VPlacementRequest (stored r)
  | VLineage r => VLineage (stored r)
  | VSnapshotCommit r => VSnapshotCommit (stored r)
  | VExclusion r => VExclusion (stored r)
  | VUserInode r => VUserInode (stored r)
  | VUserBlob r => VUserBlob (stored r)
  | VVerificationState r => VVerificationState (stored r)
  | VVerificationEvent r => VVerificationEvent (stored r)
  | VPackAggregate r => VPackAggregate (stored r)
  | VFact r => VFact (stored r)
  | VDictionary r => VDictionary (stored r)
  | VFactSegment r => VFactSegment (stored r)
  | VSegmentMetadata r => VSegmentMetadata (stored r)
  | VDimensionIndex r => VDimensionIndex (stored r)
  | VResidency r => VResidency (stored r)
  | VDelta r => VDelta (stored r)
  | VCrawlProof r => VCrawlProof (stored r)
  | VSourceBinding r => VSourceBinding (stored r)
  | VWatermark r => VWatermark (stored r)
  | VManifest r => VManifest (stored r)
  | VQuery r => VQuery (stored r)
  | VQueryJob r => VQueryJob (stored r)
  | VSnapshot r => VSnapshot (snapshot_stored r)
  | _ => v
  end.

(** The kinds a record is stored under. *)
Definition stores (kind : KeyKind) (v : StoredValue) : bool :=
  match kind, v with
  | KeyBlob, VBlob _
  | KeyBackendPack, VBackendPack _
  | KeyContentManifest, VContentManifest _
  | KeyCurrentInode, VPointer _
  | KeyCurrentDirectory, VPointer _
  | KeyDirectoryRevision, VDirectory _
  | KeyDeletionCertificate, VCertificate _
  | KeyPlacementDeleteQueue, VPlacementDelete _
  | KeyGarbageCollection, VGarbageCollection _
  | KeyGrowthTime, VAggregate _
  | KeyGrowthPath, VAggregate _
  | KeyUserChurn, VAggregate _
  | KeyGroupSummary, VSummary _
  | KeyGroupStats, VSummary _
  | KeyUserSummary, VSummary _
  | KeyUserStats, VSummary _
  | KeyHardlinkRefs, VHardlinkRefs _
  | KeyInodeRevision, VInode _
  | KeyImportCheckpoint, VImportCheckpoint _
  | KeyLegacyImportReceipt, VImportReceipt _
  | KeySnapshotImportCheckpoint, VSnapshotImport _
  | KeyExportCheckpoint, VExportCheckpoint _
  | KeyExportIndexCheckpoint, VExportIndex _
  | KeyHistoryRawFloor, VHistoryMarker _
  | KeyHistoryEnabledAt, VHistoryMarker _
  | KeyAnalyticsMetadata, VAnalyticsMetadata _
  | KeyAnalyticsBuildCheckpoint, VBuildCheckpoint _
  | KeyPack, VPack _
  | KeyPackHistory, VHistoryEvent _
  | KeyPackHistoryBucket, VHistoryBucket _
  | KeyPackPlacement, VPlacement _
  | KeyPathVersion, VPathVersion _
  | KeyPromotionEligibility, VPromotion _
  | KeyCrawlDebt, VCrawlDebt _
  | KeyReferenceCount, VReferenceCount _
  | KeyReverseManifest, VReverseManifest _
  | KeyReverseInode, VReverseInode _
  | KeyPlacementRequest, VPlacementRequest _
  | KeyRepackLineage, VLineage _
  | KeySnapshotCommit, VSnapshotCommit _
  | KeyUIDExclusionPolicy, VExclusion _
  | KeyUserInode, VUserInode _
  | KeyUserBlob, VUserBlob _
  | KeyUserBlobContribution, VUserBlob _
  | KeyVerificationState, VVerificationState _
  | KeyVerificationEvent, VVerificationEvent _
  | KeyPackAggregate, VPackAggregate _
  | KeyTierAggregate, VPackAggregate _
  | KeyAnalyticsFact, VFact _
  | KeyAnalyticsDictionary, VDictionary _
  | KeyAnalyticsFactSegment, VFactSegment _
  | KeyAnalyticsSegmentMetadata, VSegmentMetadata _
  | KeyAnalyticsDimensionIndex, VDimensionIndex _
  | KeyAnalyticsResidency, VResidency _
  | KeyAnalyticsDelta, VDelta _
  | KeyAuthoritativeCrawlProof, VCrawlProof _
  | KeyAuthoritativeSourceBinding, VSourceBinding _
  | KeyAnalyticsWatermark, VWatermark _
  | KeyAnalyticsManifest, VManifest _
  | KeyAnalyticsQueryResult, VQuery _
  | KeyAnalyticsQueryHeat, VQuery _
  | KeyAnalyticsQueryView, VQuery _
  | KeyAnalyticsQueryJob, VQueryJob _
  | KeySnapshot, VSnapshot _
  | KeyNextRevision, VSequence _
  | KeyNextExportSequence, VSequence _
  | KeyNextEventSequence, VSequence _
  | KeyAnalyticsCache, VDocument _
  | KeyAnalyticsDerivedMarker, VMarker => true
  | _, _ => false
  end.

(** Values some of whose accepted encodings differ from what is written today:
    older forms without the trailing fields, and placements whose retention
    source is left at zero. *)
Definition has_older_forms (v : StoredValue) : bool :=
  match v with
  | VDirectory _ | VImportReceipt _ | VPack _ | VPlacement _ | VPackAggregate _ | VFact _ | VDelta _ => true
  | _ => false
  end.

(** ** Records in general *)

Lemma sequence_round_trip next b :
  uint64 next -> MarshalNextRevision next = Ok b -> UnmarshalNextRevision b = Ok next.
Proof.
  unfold MarshalNextRevision. intros Hn H. destruct (next =? 0) eqn:E; [done|]. injection H as <-.
  assert (marshalNextRevision next = z2b Version :: wires [U64 next]) as ->
    by (unfold marshalNextRevision, wires; cbn -[be]; by rewrite app_nil_r).
  unfold UnmarshalNextRevision. start_decoder. read_fields. rewrite E. done.
Qed.

Lemma sequence_canonical b next :
  UnmarshalNextRevision b = Ok next -> uint64 next /\ MarshalNextRevision next = Ok b.
Proof.
  unfold UnmarshalNextRevision. intros H. invert_reads. split; [typed_read|].
  assert (z2b Version :: wires [U64 next] = b ++ wires []) as H by read_in_full.
  unfold wires in H. cbn -[be] in H. rewrite !app_nil_r in H.
  unfold MarshalNextRevision, marshalNextRevision. by rewrite E1, H.
Qed.

(** What is written under a kind is decoded under that kind. *)
Lemma decode_marshal kind v b :
  stores kind v = true -> value_ok v -> marshal_value v = Ok b ->
  decode_value kind b = Ok (stored_value v).
Proof.
  intros Hs Hok H. destruct v; destruct kind; try discriminate Hs;
    cbn [decode_value value_ok marshal_value stored_value] in *;
    try solve [match goal with |- rbind ?m _ = _ =>
                 assert (m = Ok (stored r)) as -> by exact (round_trip r b Hok H); reflexivity end].
  - by rewrite (SnapshotRecord_round_trip json_tree r b).
  - by rewrite (sequence_round_trip next b).
  - by rewrite (sequence_round_trip next b).
  - by rewrite (sequence_round_trip next b).
  - injection H as <-. by rewrite Hok.
  - injection H as <-. by rewrite bytes_eqb_refl.
Qed.

(** ** The dispatch *)

(** The codec of the keys of a kind, those of derived views apart. *)
Definition codec_of_kind (kind : KeyKind) : keyCodec :=
  match kind with
  | KeyBlob | KeyBackendPack => blobKeyCodec
  | KeyContentManifest => contentKeyCodec
  | KeyCurrentDirectory | KeyDirectoryRevision | KeyDeletionCertificate
  | KeyPlacementDeleteQueue => directoryKeyCodec
  | KeyGarbageCollection | KeyGrowthTime | KeyGrowthPath | KeyGroupSummary
  | KeyGroupStats => growthKeyCodec
  | KeyHardlinkRefs => hardlinkKeyCodec
  | KeyCurrentInode | KeyInodeRevision => inodeKeyCodec
  | KeyImportCheckpoint | KeyLegacyImportReceipt | KeySnapshotImportCheckpoint
  | KeyExportCheckpoint | KeyExportIndexCheckpoint | KeyNextRevision
  | KeyNextExportSequence | KeyNextEventSequence | KeyHistoryRawFloor
  | KeyHistoryEnabledAt | KeyAnalyticsMetadata | KeyAnalyticsBuildCheckpoint => metadataKeyCodec
  | KeyPack | KeyPackHistory | KeyPackHistoryBucket | KeyPackPlacement | KeyPathVersion
  | KeyPromotionEligibility => packKeyCodec
  | KeyCrawlDebt => crawlKeyCodec
  | KeyReferenceCount | KeyReverseManifest | KeyReverseInode | KeyPlacementRequest
  | KeyRepackLineage => reverseKeyCodec
  | KeySnapshot | KeySnapshotCommit => snapshotKeyCodec
  | KeyUIDExclusionPolicy | KeyUserChurn | KeyUserSummary | KeyUserStats | KeyUserInode
  | KeyUserBlob | KeyUserBlobContribution => userKeyCodec
  | KeyVerificationState | KeyVerificationEvent => verificationKeyCodec
  | _ => analyticsKeyCodec
  end.

Lemma codecForKey_base k :
  base_wf k -> codecForKey (base_key k) = Ok (codec_of_kind (PK.Kind (base_view k))).
Proof.
  intros Hk%base_roundtrip.
  destruct k; cbn [base_key] in *; autounfold with keys in *;
    repeat case_match; try discriminate Hk; reflexivity.
Qed.

(** What the checks of the code mean. *)
Lemma pointer_matches p key : pointer_key_mismatch p key = false <->
  exists target, ParseKey key = Ok target
    /\ PK.Kind target = (match PK.Kind p with KeyCurrentDirectory => KeyDirectoryRevision | _ => KeyInodeRevision end)
    /\ PK.FSID target = PK.FSID p /\ PK.Inode target = PK.Inode p.
Proof.
  unfold pointer_key_mismatch. destruct (ParseKey key) as [target|e]; [|by split; [|intros (? & ? & _)]].
  rewrite !orb_false_iff, !negb_false_iff, !Z.eqb_eq. split.
  - intros [[K F] I]. exists target. split; [done|]. split; [|done]. by destruct (PK.Kind p), (PK.Kind target).
  - intros (? & [= <-] & K & F & I). split; [|done]. split; [|done]. rewrite K. by destruct (PK.Kind p).
Qed.

Lemma children_stay p (children : list DirectoryChild) : existsb (child_crosses p) children = false <->
  forall child, child ∈ children -> exists key, ParseKey (dc_MetadataKey child) = Ok key /\ (PK.FSID p = 0 \/ PK.FSID key = PK.FSID p).
Proof.
  assert (C : forall child, child_crosses p child = false <->
    exists key, ParseKey (dc_MetadataKey child) = Ok key /\ (PK.FSID p = 0 \/ PK.FSID key = PK.FSID p)).
  { intros child. unfold child_crosses. destruct (ParseKey _) as [key|e]; [|by split; [|intros (? & ? & _)]].
    rewrite andb_false_iff, !negb_false_iff, !Z.eqb_eq. split; [intros H; by exists key|by intros (? & [= <-] & H)]. }
  induction children as [|child children IH]; [by split; [intros _ child ?%elem_of_nil|]|]. cbn [existsb]. rewrite orb_false_iff, C, IH. split.
  - intros [H1 H2] c [->|Hc]%elem_of_cons; [done|by apply H2].
  - intros H. split; [apply H, list_elem_of_here|]. intros c Hc. by apply H, list_elem_of_further.
Qed.

Lemma export_root key : validExportRoot key = true <->
  exists root, ParseKey key = Ok root /\ PK.Kind root = KeyDirectoryRevision /\ PK.Revision root <> 0.
Proof.
  unfold validExportRoot. destruct (ParseKey key) as [root|e]; [|by split; [|intros (? & ? & _)]]. split.
  - intros H. exists root. destruct (PK.Kind root); try discriminate H. split_and!; [done..|]. by apply Z.eqb_neq, negb_true_iff.
  - intros (? & [= <-] & -> & N). by apply negb_true_iff, Z.eqb_neq.
Qed.

Lemma accepted_iff {A} (m : result A) (C : A -> StoredValue) (bad : A -> bool) msg p :
  (forall r, agrees p (C r) <-> bad r = false) ->
  rbind m (fun r => guard (bad r) msg) = Ok tt <->
  exists v, rbind m (fun r => Ok (C r)) = Ok v /\ agrees p v.
Proof.
  intros Hb. destruct m as [r|e]; cbn [rbind]; [|by split; [|intros (? & ? & _)]].
  specialize (Hb r). split.
  - intros H%guard_ok. exists (C r). by rewrite Hb.
  - intros (v & [= <-] & Hv). apply Hb in Hv. by rewrite Hv.
Qed.

Lemma checked_iff {A} (m : result A) (C : A -> StoredValue) p :
  (forall r, agrees p (C r)) ->
  check m = Ok tt <-> exists v, rbind m (fun r => Ok (C r)) = Ok v /\ agrees p v.
Proof. intros H. by apply (accepted_iff m C (fun _ => false) ""). Qed.

Lemma accepted_if (c : bool) (v : StoredValue) msg msg' p :
  agrees p v ->
  guard (negb c) msg = Ok tt <->
  exists v', (if c then Ok v else Err msg') = Ok v' /\ agrees p v'.
Proof.
  intros Hv. destruct c; cbn [negb guard]; split; try done.
  - by exists v.
  - by intros (? & ? & _).
Qed.

Create HintDb validation.
#[local] Hint Unfold validate_blob validate_content validate_directory validate_growth
  validate_hardlink validate_inode validate_metadata validate_pack validate_crawl
  validate_reverse validate_snapshot validate_user validate_verification
  validateAnalyticsValue validateAnalyticsProjectionValue validateAnalyticsDerivedValue
  validateAuthoritativeCrawlProof validateAuthoritativeSourceBinding validateCurrentPointer
  validateDirectoryRevision validateContentManifest validateSnapshotCommit : validation.

(** The decoder of the kind followed by the cross-check, on either side. *)
Ltac same_check :=
  cbn [decode_value];
  first
    [ apply checked_iff; intros; exact I
    | apply accepted_iff; intros; cbn [agrees];
      first [ by rewrite pointer_matches | by rewrite children_stay | by rewrite negb_false_iff, export_root
            | by rewrite ?orb_false_iff, ?negb_false_iff, ?Z.eqb_eq, ?bytes_eqb_eq ]
    | apply accepted_if; exact I ].

(** Each codec runs the decoder of the kind followed by the cross-check. *)
Lemma codec_validate_iff p value :
  codec_validate (codec_of_kind (PK.Kind p)) p value = Ok tt <->
  exists v, decode_value (PK.Kind p) value = Ok v /\ agrees p v.
Proof.
  destruct (PK.Kind p) eqn:Ek; cbn [codec_of_kind codec_validate];
    autounfold with validation; rewrite ?Ek; same_check.
Qed.

(** The analytics codec does the same for the keys of derived views. *)
Lemma derived_validate_iff p value :
  isAnalyticsDerivedKind (PK.Kind p) = true ->
  validateAnalyticsValue p value = Ok tt <->
  exists v, decode_value (PK.Kind p) value = Ok v /\ agrees p v.
Proof.
  intros Hk. autounfold with validation.
  destruct (PK.Kind p); try discriminate Hk; same_check.
Qed.

Lemma codecForKey_derived g k :
  schema_wf (Derived g k) -> codecForKey (schema_key (Derived g k)) = Ok analyticsKeyCodec.
Proof.
  intros Hw%schema_roundtrip. cbn [schema_key] in *. unfold AnalyticsDerivedKey in *.
  case_match; [discriminate Hw | reflexivity].
Qed.

Lemma codecForKey_marker g :
  schema_wf (DerivedMarker g) -> codecForKey (schema_key (DerivedMarker g)) = Ok analyticsKeyCodec.
Proof.
  intros Hw%schema_roundtrip. cbn [schema_key] in *.
  unfold AnalyticsDerivedGenerationMarkerKey, AnalyticsDerivedPrefix in *.
  case_match; [discriminate Hw | reflexivity].
Qed.

(** [ValidateValue] accepts exactly the values that decode as the record of the
    key's kind and agree with the key. *)
Lemma accepts_spec key value :
  ValidateValue key value = Ok tt <->
  exists p v, ParseKey key = Ok p /\ decode_value (PK.Kind p) value = Ok v /\ agrees p v.
Proof.
  unfold ValidateValue. destruct (ParseKey key) as [p|e] eqn:E; cbn [rbind];
    [|by split; [|intros (? & ? & ? & _)]].
  trans (exists v, decode_value (PK.Kind p) value = Ok v /\ agrees p v);
    [|split; [intros (v & Hv); by exists p, v | intros (? & v & [= <-] & Hv); by exists v]].
  apply schema_sound in E as (Hw & <- & Hv).
  revert Hw Hv. generalize (schema_of p). intros k Hw <-.
  destruct k as [k|g k|g].
  - cbn [schema_view schema_key]. rewrite (codecForKey_base k Hw). apply codec_validate_iff.
  - rewrite (codecForKey_derived g k Hw). cbn [rbind codec_validate schema_view].
    destruct Hw as (_ & _ & _ & Hk).
    apply (derived_validate_iff ((base_view k) <| PK.ViewGeneration := g |>)), Hk.
  - rewrite (codecForKey_marker g Hw). apply (codec_validate_iff (schema_view (DerivedMarker g))).

Qed.

Lemma accepts_written key value v p :
  ParseKey key = Ok p -> stores (PK.Kind p) v = true -> agrees p (stored_value v) ->
  value_ok v -> marshal_value v = Ok value -> ValidateValue key value = Ok tt.
Proof.
  intros Hp Hs Ha Hok Hm. apply accepts_spec. exists p, (stored_value v). eauto using decode_marshal.
Qed.

(** What is decoded under a kind is a record of that kind, and re-encodes to the
    same bytes. *)
Lemma decode_canonical kind v b :
  decode_value kind b = Ok v -> has_older_forms v = false ->
  stores kind v = true /\ value_ok v /\ marshal_value v = Ok b.
Proof.
  intros H Hv. destruct kind; cbn [decode_value] in H;
    try (destruct (json_valid b) eqn:?; [|done]);
    try (destruct (bytes_eqb b _) eqn:?; [|done]);
    inv_results; try injection H as <-; try discriminate Hv;
    cbn [stores value_ok marshal_value]; (split; [reflexivity|]);
    try solve [match goal with E : _ = Ok ?r |- _ => exact (canonical b r E) end
              | by apply sequence_canonical | by apply SnapshotRecord_canonical].
  - done.
  - split; [done|]. f_equal. symmetry. by apply bytes_eqb_eq.
Qed.

(** ** The contract of [ValidateValue] *)

(** C23. A key and value are accepted exactly when the key parses, the value
    decodes as the record that keys of that kind store, and the record agrees with
    the key: a current pointer leads to a revision of the same inode and file
    system, of a directory exactly if it is the pointer of a directory; the children of
    a directory have keys of the directory's file system, or of any if that is
    number 0; a snapshot commit names the root directory at a revision that is not 0; and
    the segment, scope, commit and generation a record repeats are those of its key.
    In particular every kind of key that parses, those of derived analytics views
    included, reaches a validator for its record. *)
Theorem ValidateValue_spec key value :
  ValidateValue key value = Ok tt <->
  exists p v, ParseKey key = Ok p /\ decode_value (PK.Kind p) value = Ok v /\ agrees p v.
Proof. apply accepts_spec. Qed.

(** Whatever a record's [MarshalBinary] produces is accepted under every key
    of a kind that stores such records, provided the record agrees with the key. *)
Theorem ValidateValue_written key value v p :
  ParseKey key = Ok p -> stores (PK.Kind p) v = true -> agrees p (stored_value v) ->
  value_ok v -> marshal_value v = Ok value -> ValidateValue key value = Ok tt.
Proof. apply accepts_written. Qed.

(** An accepted value holds a record of its key's kind, and outside the
    record types with older forms it is the only encoding of that record:
    marshalling the record gives the very same bytes. *)
Theorem ValidateValue_canonical key value :
  ValidateValue key value = Ok tt ->
  exists p v, ParseKey key = Ok p /\ decode_value (PK.Kind p) value = Ok v /\
    (has_older_forms v = false ->
     stores (PK.Kind p) v = true /\ value_ok v /\ marshal_value v = Ok value).
Proof.
  intros (p & v & Hp & Hd & _)%accepts_spec. exists p, v. eauto using decode_canonical.
Qed.

End Validation.

(** The current pointer of inode 42 on file system 7, leading to revision 3. *)
Definition example_pointer : CurrentPointer := mkCurrentPointer 3 (InodeRevisionKey 7 42 3).
Definition example_value : bytes := z2b Version :: wires [U64 3; Str (InodeRevisionKey 7 42 3)].

Lemma ValidateValue_written_witness :
  ValidateValue (fun _ => true) (fun _ => None) (CurrentInodeKey 7 42) example_value = Ok tt.
Proof.
  apply (ValidateValue_written _ _ _ _ (VPointer example_pointer)
           ((PK.of_kind KeyCurrentInode) <| PK.FSID := 7 |> <| PK.Inode := 42 |>));
    try (vm_compute; repeat split; discriminate).
  eexists. split; [vm_compute; reflexivity|]. vm_compute. repeat split.
Defined.

Lemma ValidateValue_canonical_witness :
  exists p v, ParseKey (CurrentInodeKey 7 42) = Ok p /\
    decode_value (fun _ => true) (fun _ => None) (PK.Kind p) example_value = Ok v /\
    (has_older_forms v = false ->
     stores (PK.Kind p) v = true /\ value_ok (fun _ => true) v /\
     marshal_value (fun _ => None) v = Ok example_value).
Proof. apply ValidateValue_canonical. vm_compute. reflexivity. Defined.
