(* ===== verification/Content.v ===== *)
(** * Content manifests: cutting a file's blobs into segments and back
    ([ContentManifestID], [SegmentContent], [EqualIDs] in
    [internal/index/schema/records_snapshot.go]; [AssembleContent] in
    [validation.go])

    A large file lists its blobs in a manifest named by the hash of the list and
    stored in numbered segments. The theorems show that segments, read back in any
    order, give exactly the list that was cut, and that whatever is assembled has
    the content the manifest's name commits to. *)
From stdpp Require Import base list numbers strings sorting.
From Stdlib Require Import ZArith Lia.
From coqutil Require Import Datatypes.RecordSetters.
From S2P Require Import Prelude Codec Sha256 Keys KeyParse KeySpec KeyTheory KeySound.
Import Spec.
From S2P Require Import InodeRecords SnapshotRecords Validate.
Import TriangleBracketNotations.

Definition flattenIDs (ids : list ID) : bytes := concat ids.

Definition EqualIDs (left right : list ID) : bool := bytes_eqb (flattenIDs left) (flattenIDs right).

(** The hash of the version byte followed by the identifiers. *)
Definition ContentManifestID (ids : list ID) : ID := Sum256 (z2b Version :: flattenIDs ids).
Arguments ContentManifestID : simpl never.

Definition segment_record (ids : list ID) (maxPerSegment count : Z) (segment : nat) : ContentManifest :=
  let start := Z.of_nat segment * maxPerSegment in
  let stop := Z.min (start + maxPerSegment) (zlen ids) in
  mkContentManifest (wrap_u 32 (zlen ids)) (wrap_u 32 (Z.of_nat segment)) (wrap_u 32 count)
    (sub (Z.to_nat start) (Z.to_nat stop) ids).

Definition SegmentContent (ids : list ID) (maxPerSegment : Z) : result (ID * list ContentManifest) :=
  do! guard ((zlen ids =? 0) || (MaxContentIDs <? zlen ids) || (maxPerSegment <=? 0)
             || (MaxContentSegmentIDs <? maxPerSegment)) "invalid content segmentation";
  let id := ContentManifestID ids in
  let count := (zlen ids + maxPerSegment - 1) / maxPerSegment in
  Ok (id, map (segment_record ids maxPerSegment count) (seq 0 (Z.to_nat count))).

(** The order of [sort.Slice]; it leaves the order of equal segment numbers open,
    and lists with equal numbers are refused whatever their order. *)
Definition segment_le (a b : ContentManifest) : Prop := cm_Segment a <= cm_Segment b.
#[export] Instance segment_le_dec : RelDecision segment_le.
Proof. intros a b. unfold segment_le. apply _. Defined.

(** The loop that checks the segments and appends their identifiers. *)
Fixpoint append_segments (total count index : Z) (segments : list ContentManifest) : result (list ID) :=
  match segments with
  | [] => Ok []
  | segment :: rest =>
      do! guard (negb (cm_Segment segment =? wrap_u 32 index)
                 || negb (cm_SegmentCount segment =? count)
                 || negb (cm_TotalCount segment =? total)) "inconsistent content manifest segment";
      let! ids := append_segments total count (index + 1) rest in
      Ok (cm_ContentIDs segment ++ ids)
  end.

Definition actual_count (segments : list ContentManifest) : Z :=
  foldr (fun segment n => zlen (cm_ContentIDs segment) + n) 0 segments.

Definition AssembleContent (manifestID : ID) (segments : list ContentManifest) : result (list ID) :=
  match merge_sort segment_le segments with
  | [] => Err "content manifest has no segments"
  | (first :: _) as segments =>
      let total := cm_TotalCount first in
      let segmentCount := cm_SegmentCount first in
      do! guard ((MaxContentIDs <? total) || negb (segmentCount =? zlen segments))
            "missing content manifest segment";
      do! guard (negb (actual_count segments =? total)) "content manifest count mismatch";
      let! ids := append_segments total segmentCount 0 segments in
      do! guard (negb (wrap_u 32 (zlen ids) =? total)
                 || negb (bytes_eqb (ContentManifestID ids) manifestID))
            "content manifest identity mismatch";
      Ok ids
  end.

(** ** Specification *)

(** The segments of a manifest of [total] identifiers, in order. *)
Record manifest_of (ids : list ID) (segments : list ContentManifest) : Prop := {
  mo_segments : segments <> [];
  mo_numbered : forall i s, segments !! i = Some s ->
    cm_Segment s = Z.of_nat i /\ cm_SegmentCount s = zlen segments /\ cm_TotalCount s = zlen ids;
  mo_ids : concat (map cm_ContentIDs segments) = ids;
  mo_limit : zlen ids <= MaxContentIDs;
}.

(** ** Sorting *)

#[local] Instance segment_le_trans : Transitive segment_le.
Proof. intros a b c. unfold segment_le. lia. Qed.
#[local] Instance segment_le_total : Total segment_le.
Proof. intros a b. unfold segment_le. lia. Qed.

Lemma numbered_sorted base (segments : list ContentManifest) :
  (forall i s, segments !! i = Some s -> cm_Segment s = base + Z.of_nat i) ->
  StronglySorted segment_le segments.
Proof.
  revert base. induction segments as [|s l IH]; intros base H; [constructor|].
  constructor.
  - apply (IH (base + 1)). intros i t Ht. rewrite (H (S i) t Ht). lia.
  - apply Forall_lookup. intros i t Ht. unfold segment_le.
    rewrite (H 0%nat s eq_refl), (H (S i) t Ht). lia.
Qed.

Lemma numbered_distinct base (segments : list ContentManifest) x y :
  (forall i s, segments !! i = Some s -> cm_Segment s = base + Z.of_nat i) ->
  x ∈ segments -> y ∈ segments -> segment_le x y -> segment_le y x -> x = y.
Proof.
  intros H [i Hi]%list_elem_of_lookup [j Hj]%list_elem_of_lookup. unfold segment_le.
  rewrite (H _ _ Hi), (H _ _ Hj). intros ? ?. assert (i = j) as -> by lia. congruence.
Qed.

(** Sorting restores the order of numbered segments. *)
Lemma sort_numbered (segments shuffled : list ContentManifest) :
  (forall i s, segments !! i = Some s -> cm_Segment s = Z.of_nat i) ->
  Permutation shuffled segments -> merge_sort segment_le shuffled = segments.
Proof.
  intros Hn Hp. assert (merge_sort segment_le shuffled ≡ₚ segments) as Hm by (by rewrite merge_sort_Permutation).
  apply (StronglySorted_unique_strong segment_le); [|apply (StronglySorted_merge_sort _ _)| |done].
  - intros x y Hx Hy. rewrite Hm in Hx. by apply (numbered_distinct 0 segments).
  - by apply (numbered_sorted 0).
Qed.

(** ** Assembling *)

Lemma append_segments_spec total count index segments ids :
  0 <= index -> index + zlen segments <= 2 ^ 32 ->
  append_segments total count index segments = Ok ids <->
  (forall i s, segments !! i = Some s ->
     cm_Segment s = index + Z.of_nat i /\ cm_SegmentCount s = count /\ cm_TotalCount s = total) /\
  ids = concat (map cm_ContentIDs segments).
Proof.
  revert index ids. induction segments as [|s l IH]; intros index ids Hi Hl; cbn [append_segments map concat].
  { split; [intros [= <-]; split; [intros i s [=]|done] | by intros [_ ->]]. }
  unfold zlen in Hl. cbn [length] in Hl.
  assert (wrap_u 32 index = index) as -> by (apply wrap_u_small; range).
  specialize (fun ids => IH (index + 1) ids ltac:(lia) ltac:(unfold zlen; lia)).
  split.
  - intros H. inv_results. split_bools. destruct (proj1 (IH _) ltac:(eassumption)) as [Hn ->].
    split; [|done]. intros [|i] t Ht; cbn in Ht.
    + injection Ht as <-. lia.
    + destruct (Hn i t Ht). lia.
  - intros [Hn ->]. destruct (Hn 0%nat s eq_refl) as (H1 & H2 & H3).
    rewrite (proj2 (Z.eqb_eq _ _) H2), (proj2 (Z.eqb_eq _ _) H3).
    rewrite (proj2 (Z.eqb_eq (cm_Segment s) index)) by lia. cbn [negb orb guard rbind].
    rewrite (proj2 (IH (concat (map cm_ContentIDs l)))); [done|]. split; [|done].
    intros i t Ht. destruct (Hn (S i) t Ht). lia.
Qed.

Lemma actual_count_concat segments :
  actual_count segments = zlen (concat (map cm_ContentIDs segments)).
Proof.
  induction segments as [|s l IH]; [done|]. cbn [actual_count foldr map concat].
  unfold actual_count in IH. by rewrite IH, zlen_app.
Qed.

Lemma typed_count segments i (s : ContentManifest) :
  Forall ContentManifest_ok segments -> segments !! i = Some s ->
  cm_SegmentCount s = zlen segments -> zlen segments < 2 ^ 32.
Proof.
  intros Ht Hs <-. destruct (proj1 (Forall_lookup _ _) Ht i s Hs) as (_ & _ & Hc & _). range.
Qed.

Lemma assemble_sound manifestID segments ids :
  Forall ContentManifest_ok segments -> AssembleContent manifestID segments = Ok ids ->
  ContentManifestID ids = manifestID /\
  exists ordered, Permutation segments ordered /\ manifest_of ids ordered.
Proof.
  intros Ht H. unfold AssembleContent in H.
  pose proof (merge_sort_Permutation segment_le segments) as Hp.
  destruct (merge_sort segment_le segments) as [|s l] eqn:E; [done|].
  inv_results. split_bools.
  assert (zlen (s :: l) < 2 ^ 32) as Hl.
  { apply (typed_count _ 0%nat s); [by rewrite Hp | done | lia]. }
  match goal with A : append_segments _ _ _ _ = _ |- _ =>
    apply append_segments_spec in A as [Hn Hc]; [|lia..] end.
  match goal with A : actual_count _ = _ |- _ => rewrite actual_count_concat, <- Hc in A; rename A into Htotal end.
  split; [done|]. exists (s :: l). split; [by symmetry|].
  split; [done | | done | lia].
  intros i t Hi. destruct (Hn i t Hi). lia.
Qed.

Lemma assemble_complete segments ordered ids :
  Forall ContentManifest_ok segments -> Permutation segments ordered -> manifest_of ids ordered ->
  AssembleContent (ContentManifestID ids) segments = Ok ids.
Proof.
  intros Ht Hp [Hne Hn Hids Hl]. unfold AssembleContent.
  rewrite (sort_numbered ordered) by (done || (intros i s Hi; by destruct (Hn i s Hi))).
  destruct ordered as [|s l]; [done|].
  destruct (Hn 0%nat s eq_refl) as (_ & H2 & H3).
  assert (zlen (s :: l) < 2 ^ 32) by (apply (typed_count _ 0%nat s); [by rewrite <- Hp | done | done]).
  rewrite actual_count_concat, Hids, H2, H3, !Z.eqb_refl, (proj2 (Z.ltb_ge _ _) Hl).
  cbn [negb orb guard rbind].
  rewrite (proj2 (append_segments_spec (zlen ids) (zlen (s :: l)) 0 (s :: l) ids ltac:(lia) ltac:(lia)))
    by (split; [intros i t Hi; destruct (Hn i t Hi); lia | done]).
  cbn [rbind]. rewrite wrap_u_small by (pose proof (zlen_nonneg ids); unfold MaxContentIDs in Hl; range).
  by rewrite Z.eqb_refl, bytes_eqb_refl.
Qed.

(** ** Segmenting *)

Lemma concat_pieces {A} (m n start : nat) (l : list A) :
  concat (map (fun k => take m (drop (k * m) l)) (seq start n)) = take (n * m) (drop (start * m) l).
Proof.
  revert start. induction n as [|n IH]; intros start; [done|].
  cbn [seq map concat]. rewrite IH.
  replace (S start * m)%nat with (start * m + m)%nat by lia. rewrite <- drop_drop.
  replace (S n * m)%nat with (m + n * m)%nat by lia.
  generalize (drop (start * m) l). intros l'.
  rewrite <- (take_drop m l') at 3. destruct (Nat.le_gt_cases m (length l')).
  - by rewrite take_app_add' by (rewrite length_take; lia).
  - rewrite (drop_ge l') by lia. rewrite !take_nil, app_nil_r. rewrite !take_ge; [done|..];
      rewrite ?length_app, ?length_take; lia.
Qed.

Lemma segment_piece ids m count k :
  0 < m ->
  cm_ContentIDs (segment_record ids m count k) = take (Z.to_nat m) (drop (k * Z.to_nat m) ids).
Proof.
  intros Hm. cbn. unfold sub, zlen.
  replace (Z.to_nat (Z.of_nat k * m)) with (k * Z.to_nat m)%nat by lia.
  destruct (Z.min_spec (Z.of_nat k * m + m) (Z.of_nat (length ids))) as [[? ->]|[? ->]].
  - f_equal. lia.
  - rewrite !take_ge; [done|rewrite length_drop; lia..].
Qed.

(** The number of segments covers the list exactly. *)
Lemma segments_needed n m :
  0 < n -> 0 < m -> let count := (n + m - 1) / m in 0 < count <= n /\ (count - 1) * m < n <= count * m.
Proof.
  intros Hn Hm count. subst count.
  pose proof (Z.div_mod (n + m - 1) m ltac:(lia)). pose proof (Z.mod_pos_bound (n + m - 1) m Hm).
  set (q := (n + m - 1) / m) in *. nia.
Qed.

(** What [SegmentContent] returns. *)
Record segmentation (ids : list ID) (m : Z) (segments : list ContentManifest) : Prop := {
  sg_manifest : manifest_of ids segments;
  sg_sizes : Forall (fun s => 0 < zlen (cm_ContentIDs s) <= m) segments;
  sg_count : zlen segments < 2 ^ 32;
}.

Lemma SegmentContent_returns ids m id segments :
  SegmentContent ids m = Ok (id, segments) ->
  id = ContentManifestID ids /\ segmentation ids m segments /\ 0 < m <= MaxContentSegmentIDs.
Proof.
  unfold SegmentContent. intros H. inv_results. split_bools.
  assert (0 < zlen ids) by (pose proof (zlen_nonneg ids); lia).
  destruct (segments_needed (zlen ids) m) as (Hc & Hlo & Hhi); [lia..|].
  set (count := (zlen ids + m - 1) / m) in *.
  assert (zlen ids < 2 ^ 32) by (unfold MaxContentIDs in *; lia).
  assert (zlen (map (segment_record ids m count) (seq 0 (Z.to_nat count))) = count) as Hz
    by (unfold zlen; rewrite length_map, length_seq; lia).
  assert (concat (map cm_ContentIDs (map (segment_record ids m count) (seq 0 (Z.to_nat count)))) = ids) as Hi.
  { rewrite map_map, (map_ext _ _ (fun k => segment_piece ids m count k ltac:(lia))), concat_pieces.
    rewrite take_ge; [done|]. rewrite length_drop. unfold zlen in *. nia. }
  split; [done|]. split; [|lia]. split; [split; [|..|done|lia]| |lia].
  - intros E. rewrite E in Hz. unfold zlen in Hz. cbn in Hz. lia.
  - intros i s. rewrite list_lookup_fmap_Some. intros (k & -> & [-> Hk]%lookup_seq).
    cbn [cm_Segment cm_SegmentCount cm_TotalCount segment_record]. rewrite !wrap_u_small, Hz by range.
    lia.
  - apply Forall_map, Forall_seq. intros k Hk. rewrite segment_piece by lia.
    unfold zlen in *. rewrite length_take, length_drop. nia.
Qed.

(** The segments are values of their Go types. *)
Lemma segmentation_typed ids m segments :
  Forall id_ok ids -> segmentation ids m segments -> Forall ContentManifest_ok segments.
Proof.
  intros Hids [[Hne Hn Hi Hl] _ Hc]. apply Forall_lookup. intros i s Hs.
  pose proof (lookup_lt_Some _ _ _ Hs). pose proof (zlen_nonneg ids).
  destruct (Hn i s Hs) as (H1 & H2 & H3). unfold MaxContentIDs, zlen in *.
  split_and!; [range..|]. rewrite <- Hi in Hids. apply Forall_concat in Hids.
  rewrite Forall_map in Hids. exact (proj1 (Forall_lookup _ _) Hids i s Hs).
Qed.

Lemma piece_le {A} (pieces : list (list A)) p :
  p ∈ pieces -> zlen p <= zlen (concat pieces).
Proof.
  intros [i Hp]%list_elem_of_lookup. rewrite <- (take_drop_middle _ _ _ Hp), concat_app.
  cbn [concat]. unfold zlen. rewrite !length_app. lia.
Qed.

Lemma ids_encoding ids :
  Forall id_ok ids ->
  forallb writable (concat (map (fun id => [IDf id]) ids)) = true /\
  zlen (wires (concat (map (fun id => [IDf id]) ids))) = 32 * zlen ids.
Proof.
  induction 1 as [|id ids Hid _ [IHw IHz]]; [done|]. cbn [map concat app forallb].
  rewrite IHw, zlen_wires_cons, IHz. split; [done|]. unfold id_ok in Hid. unfold size, zlen. cbn. lia.
Qed.

(** Every segment fits a value and is written. *)
Lemma segment_marshals ids m segments s :
  Forall id_ok ids -> segmentation ids m segments -> m <= MaxContentSegmentIDs -> s ∈ segments ->
  exists b, ContentManifest_MarshalBinary s = Ok b.
Proof.
  intros Hids Hsg Hm Hin.
  pose proof (proj1 (Forall_forall _ _) (segmentation_typed _ _ _ Hids Hsg) s Hin) as (_ & _ & _ & Ht).
  destruct Hsg as [[Hne Hn Hi Hl] Hz Hc].
  pose proof (proj1 (Forall_forall _ _) Hz s Hin) as Hsize. cbn in Hsize.
  assert (zlen (cm_ContentIDs s) <= zlen ids) as Hle
    by (rewrite <- Hi; apply piece_le, (list_elem_of_fmap_2 cm_ContentIDs), Hin).
  apply list_elem_of_lookup in Hin as [i Hs]. pose proof (lookup_lt_Some _ _ _ Hs).
  destruct (Hn i s Hs) as (H1 & H2 & H3). destruct (ids_encoding _ Ht) as [Hw Hz'].
  assert (17 + 32 * MaxContentSegmentIDs <= MaxEncodedValueBytes) by (vm_compute; discriminate).
  assert (invalid_content_segment (cm_TotalCount s) (cm_Segment s) (cm_SegmentCount s)
            (zlen (cm_ContentIDs s)) = false) as Hg
    by (unfold invalid_content_segment; rewrite H1, H2, H3; unfold zlen in *; lia).
  unfold ContentManifest_MarshalBinary. rewrite Hg. cbn [guard rbind].
  eexists. apply encode_spec. split; [exact Hw|]. split; [reflexivity|].
  cbn [app]. wire_sizes. rewrite Hz'. lia.
Qed.

(** ** Properties *)

(** [EqualIDs] compares the lists themselves, although it compares bytes. *)
Lemma EqualIDs_spec left right :
  Forall id_ok left -> Forall id_ok right -> EqualIDs left right = true <-> left = right.
Proof.
  intros Hl Hr. unfold EqualIDs. rewrite bytes_eqb_eq. split; [|by intros ->].
  revert right Hr. induction Hl as [|x l Hx _ IH]; intros [|y r] Hr; cbn; try done; intros H.
  - inversion Hr as [|? ? Hy]; subst. unfold id_ok in Hy. apply (f_equal length) in H.
    rewrite length_app in H. cbn in H. lia.
  - unfold id_ok in Hx. apply (f_equal length) in H. rewrite length_app in H. cbn in H. lia.
  - inversion Hr as [|? ? Hy Hr']; subst. apply app_inj_1 in H as [-> H]; [|unfold id_ok in *; lia].
    f_equal. by apply IH.
Qed.

(** C25. Cutting a list of blobs into segments and assembling the segments gives
    the list back, in whatever order the segments are read. *)
Theorem SegmentContent_assemble ids maxPerSegment id segments shuffled :
  Forall id_ok ids -> SegmentContent ids maxPerSegment = Ok (id, segments) ->
  Permutation shuffled segments -> AssembleContent id shuffled = Ok ids.
Proof.
  intros Hids (-> & Hsg & _)%SegmentContent_returns Hp.
  pose proof (segmentation_typed _ _ _ Hids Hsg) as Ht. destruct Hsg as [Hm _ _].
  apply (assemble_complete _ segments); [by rewrite Hp | done | done].
Qed.

(** Every segment is written without error and is accepted under its key, the
    manifest's identifier with the segment's number. *)
Theorem SegmentContent_stored json_valid json_tree ids maxPerSegment id segments s :
  Forall id_ok ids -> SegmentContent ids maxPerSegment = Ok (id, segments) -> s ∈ segments ->
  exists b, ContentManifest_MarshalBinary s = Ok b /\
    ValidateValue json_valid json_tree (ContentManifestKey id (cm_Segment s)) b = Ok tt.
Proof.
  intros Hids (-> & Hsg & Hm)%SegmentContent_returns Hs.
  pose proof (proj1 (Forall_forall _ _) (segmentation_typed _ _ _ Hids Hsg) s Hs) as Ht.
  destruct (segment_marshals _ _ _ s Hids Hsg ltac:(lia) Hs) as [b Hb]. exists b. split; [done|].
  apply (accepts_written _ _ _ _ (VContentManifest s) (base_view (Spec.ContentManifest (ContentManifestID ids) (cm_Segment s)))).
  - apply (base_roundtrip (Spec.ContentManifest _ _)). split; [apply Sum256_ok | apply Ht].
  - reflexivity.
  - reflexivity.
  - exact Ht.
  - exact Hb.
Qed.

(** Segments assemble to a list exactly when, in some order, they are numbered
    from zero without gap or repetition, agree on their number and on the length
    of the list, hold together exactly that list, and the list hashes to the name
    asked for. In particular the order in which they are given does not matter. *)
Theorem AssembleContent_spec manifestID segments ids :
  Forall ContentManifest_ok segments ->
  AssembleContent manifestID segments = Ok ids <->
  ContentManifestID ids = manifestID /\
  exists ordered, Permutation segments ordered /\ manifest_of ids ordered.
Proof.
  intros Ht. split; [by apply assemble_sound|].
  intros (<- & ordered & Hp & Hm). by apply (assemble_complete _ ordered).
Qed.

(** Three blobs in segments of at most two, read back to front. *)
Definition example_ids : list ID := [repeat x01 32; repeat x02 32; repeat x03 32].
Definition example_segments : list ContentManifest :=
  [mkContentManifest 3 0 2 [repeat x01 32; repeat x02 32]; mkContentManifest 3 1 2 [repeat x03 32]].

Lemma SegmentContent_assemble_witness :
  AssembleContent (ContentManifestID example_ids) (rev example_segments) = Ok example_ids.
Proof.
  apply (SegmentContent_assemble example_ids 2 _ example_segments).
  - repeat constructor.
  - vm_compute. reflexivity.
  - symmetry. apply Permutation_rev.
Defined.

Lemma SegmentContent_stored_witness :
  exists b, ContentManifest_MarshalBinary (mkContentManifest 3 1 2 [repeat x03 32]) = Ok b /\
    ValidateValue (fun _ => true) (fun _ => None) (ContentManifestKey (ContentManifestID example_ids) 1) b = Ok tt.
Proof.
  apply (SegmentContent_stored _ _ example_ids 2 _ example_segments (mkContentManifest 3 1 2 [repeat x03 32])).
  - repeat constructor.
  - vm_compute. reflexivity.
  - right. left.
Defined.

Lemma AssembleContent_spec_witness :
  AssembleContent (ContentManifestID example_ids) example_segments = Ok example_ids <->
  ContentManifestID example_ids = ContentManifestID example_ids /\
  exists ordered, Permutation example_segments ordered /\ manifest_of example_ids ordered.
Proof. apply AssembleContent_spec. repeat constructor; vm_compute; discriminate. Defined.
