(* ===== verification/Aggregates.v ===== *)
(** * Pack aggregates ([internal/index/schema/validation.go])

    Totals of the repository's packs by content type and by storage tier. They can
    be rebuilt from a list of pack records, or accumulated one pack at a time; the
    theorems show that both compute the same exact sums, and that they fail
    exactly on an invalid record or when a sum leaves the 64-bit range. *)
From stdpp Require Import base list numbers strings gmap.
From Stdlib Require Import ZArith Lia.
From coqutil Require Import Datatypes.RecordSetters.
From S2P Require Import Prelude Codec Keys Records.
Import TriangleBracketNotations.

(** ** Pack classification *)

(** The loop of [ClassifyPack], with what was seen so far. *)
Fixpoint classify_from (hasData hasTree : bool) (types : list Z) : Z :=
  match types with
  | [] => if hasData && hasTree then PackMixed else if hasData then PackData else PackTree
  | blobType :: rest =>
      if blobType =? BlobData then classify_from true hasTree rest
      else if blobType =? BlobTree then classify_from hasData true rest
      else PackUnknown
  end.

Definition ClassifyPack (types : list Z) : Z :=
  match types with
  | [] => PackUnknown
  | _ => classify_from false false types
  end.

(** ** Accumulation *)

Definition zero_aggregate : PackAggregate := mkPackAggregate 0 0 0 0 0 0 0 0 0.

Definition checked_add (left right : Z) : result Z :=
  match add left right with
  | Some total => Ok total
  | None => Err "aggregate overflow"
  end.

Definition accumulatePackAggregate (a : PackAggregate) (r : PackRecord) : result PackAggregate :=
  let! packCount := checked_add (pa_PackCount a) 1 in
  let! physicalSize := checked_add (pa_PhysicalSize a) (pk_PhysicalSize r) in
  let! payloadSize := checked_add (pa_PayloadSize a) (pk_PayloadSize r) in
  let! headerSize := checked_add (pa_HeaderSize a) (pk_HeaderSize r) in
  let! blobCount := checked_add (pa_BlobCount a) (pk_BlobCount r) in
  let a := mkPackAggregate packCount physicalSize payloadSize headerSize blobCount
             (pa_UpdateSequence a) (pa_UsedPayloadBytes a) (pa_UnusedPayloadBytes a)
             (pa_AccountedPackCount a) in
  if negb (pk_UsageKnown r) then Ok a
  else
    let! used := checked_add (pa_UsedPayloadBytes a) (pk_UsedPayloadBytes r) in
    let! unused := checked_add (pa_UnusedPayloadBytes a) (pk_UnusedPayloadBytes r) in
    let! accounted := checked_add (pa_AccountedPackCount a) 1 in
    Ok (mkPackAggregate packCount physicalSize payloadSize headerSize blobCount
          (pa_UpdateSequence a) used unused accounted).

Abbreviation aggregates := (gmap Z PackAggregate).

(** [m[k]], the zero value when the key is absent. *)
Definition get (m : aggregates) (k : Z) : PackAggregate := default zero_aggregate (m !! k).

(** Read the aggregate of a key, add the pack, apply [finish], store it back. *)
Definition accumulate_with (finish : PackAggregate -> PackAggregate) (k : Z) (r : PackRecord)
    (m : aggregates) : result aggregates :=
  let! aggregate := accumulatePackAggregate (get m k) r in
  Ok (<[k := finish aggregate]> m).

Definition set_sequence (updateSequence : Z) (a : PackAggregate) : PackAggregate :=
  a <| pa_UpdateSequence := updateSequence |>.

(** The loops that give every key a record with the current sequence. *)
Definition set_sequences (updateSequence : Z) (keys : list Z) (m : aggregates) : aggregates :=
  foldl (fun m k => <[k := set_sequence updateSequence (get m k)]> m) m keys.

Definition kindByPackType (type : Z) : Z :=
  if type =? PackData then AggregateData
  else if type =? PackTree then AggregateTree
  else if type =? PackMixed then AggregateMixed
  else if type =? PackUnknown then AggregateUnknown
  else 0.

Definition AggregateKinds : list Z :=
  [AggregateData; AggregateTree; AggregateMixed; AggregateUnknown; AggregateAll].

Definition invalid_pack (r : PackRecord) : bool :=
  negb (validPackType (pk_Type r)) || negb (validPackLifecycle (pk_Lifecycle r)).

Fixpoint rebuild_types (updateSequence : Z) (records : list PackRecord) (m : aggregates)
  : result aggregates :=
  match records with
  | [] => Ok m
  | record :: rest =>
      let r := PackRecord_normalized record in
      do! guard (invalid_pack r) "invalid pack record";
      let! m := accumulate_with (set_sequence updateSequence) (kindByPackType (pk_Type r)) r m in
      let! m := accumulate_with (set_sequence updateSequence) AggregateAll r m in
      rebuild_types updateSequence rest m
  end.

Definition RebuildPackAggregates (records : list PackRecord) (updateSequence : Z) : result aggregates :=
  let! m := rebuild_types updateSequence records ∅ in
  Ok (set_sequences updateSequence AggregateKinds m).

Fixpoint rebuild_tiers (updateSequence : Z) (records : list PackRecord) (m : aggregates)
  : result aggregates :=
  match records with
  | [] => Ok m
  | record :: rest =>
      let r := PackRecord_normalized record in
      do! guard (invalid_pack r) "invalid pack record";
      do! guard (negb (validPackTier (pk_Tier r))) "invalid pack tier";
      let! m := accumulate_with (set_sequence updateSequence) (pk_Tier r) r m in
      rebuild_tiers updateSequence rest m
  end.

Definition RebuildTierAggregates (records : list PackRecord) (updateSequence : Z) : result aggregates :=
  let! m := rebuild_tiers updateSequence records ∅ in
  Ok (set_sequences updateSequence TierAggregateKinds m).

Record PackAggregateAccumulator := mkAccumulator { byType : aggregates; byTier : aggregates }.

Definition NewPackAggregateAccumulator : PackAggregateAccumulator := mkAccumulator ∅ ∅.

(** [Add] changes the accumulator in place, so a pack refused half way leaves the
    totals it had already reached: the state is returned with the error too. *)
Definition Add (acc : PackAggregateAccumulator) (record : PackRecord)
  : PackAggregateAccumulator * result unit :=
  let r := PackRecord_normalized record in
  if invalid_pack r || negb (validPackTier (pk_Tier r)) then (acc, Err "invalid pack record") else
  match accumulate_with id (kindByPackType (pk_Type r)) r (byType acc) with
  | Err e => (acc, Err e)
  | Ok byType1 =>
  match accumulate_with id AggregateAll r byType1 with
  | Err e => (mkAccumulator byType1 (byTier acc), Err e)
  | Ok byType2 =>
  match accumulate_with id (pk_Tier r) r (byTier acc) with
  | Err e => (mkAccumulator byType2 (byTier acc), Err e)
  | Ok byTier1 => (mkAccumulator byType2 byTier1, Ok tt)
  end end end.

Definition Results (acc : PackAggregateAccumulator) (updateSequence : Z) : aggregates * aggregates :=
  (set_sequences updateSequence AggregateKinds (byType acc),
   set_sequences updateSequence TierAggregateKinds (byTier acc)).

(** A caller's loop: add the packs one by one and stop at the first error. *)
Fixpoint add_all (records : list PackRecord) (acc : PackAggregateAccumulator)
  : result PackAggregateAccumulator :=
  match records with
  | [] => Ok acc
  | record :: rest =>
      let (acc, e) := Add acc record in
      do! e; add_all rest acc
  end.

(** ** Sums *)

(** Aggregates add up field by field. *)
Definition plus (a b : PackAggregate) : PackAggregate :=
  mkPackAggregate (pa_PackCount a + pa_PackCount b) (pa_PhysicalSize a + pa_PhysicalSize b)
    (pa_PayloadSize a + pa_PayloadSize b) (pa_HeaderSize a + pa_HeaderSize b)
    (pa_BlobCount a + pa_BlobCount b) (pa_UpdateSequence a + pa_UpdateSequence b)
    (pa_UsedPayloadBytes a + pa_UsedPayloadBytes b)
    (pa_UnusedPayloadBytes a + pa_UnusedPayloadBytes b)
    (pa_AccountedPackCount a + pa_AccountedPackCount b).

(** What one pack adds: usage only when it is known. *)
Definition contribution (r : PackRecord) : PackAggregate :=
  let usage n := if pk_UsageKnown r then n else 0 in
  mkPackAggregate 1 (pk_PhysicalSize r) (pk_PayloadSize r) (pk_HeaderSize r) (pk_BlobCount r) 0
    (usage (pk_UsedPayloadBytes r)) (usage (pk_UnusedPayloadBytes r)) (usage 1).

Definition tally (records : list PackRecord) : PackAggregate :=
  foldr (fun r => plus (contribution r)) zero_aggregate records.

(** Every total is a 64-bit number. *)
Definition fits (a : PackAggregate) : Prop :=
  uint64 (pa_PackCount a) /\ uint64 (pa_PhysicalSize a) /\ uint64 (pa_PayloadSize a) /\
  uint64 (pa_HeaderSize a) /\ uint64 (pa_BlobCount a) /\ uint64 (pa_UsedPayloadBytes a) /\
  uint64 (pa_UnusedPayloadBytes a) /\ uint64 (pa_AccountedPackCount a).

(** Sums of totals that are not negative only grow. *)
Definition nonneg (a : PackAggregate) : Prop :=
  0 <= pa_PackCount a /\ 0 <= pa_PhysicalSize a /\ 0 <= pa_PayloadSize a /\ 0 <= pa_HeaderSize a /\
  0 <= pa_BlobCount a /\ 0 <= pa_UsedPayloadBytes a /\ 0 <= pa_UnusedPayloadBytes a /\
  0 <= pa_AccountedPackCount a.

(** Arithmetic on aggregates, field by field. *)
Ltac aggregate := intros; repeat match goal with a : PackAggregate |- _ => destruct a end;
  unfold plus, fits, nonneg, zero_aggregate in *; cbn in *; range || (f_equal; lia).

Lemma plus_comm a b : plus a b = plus b a.
Proof. aggregate. Qed.
Lemma plus_assoc a b c : plus (plus a b) c = plus a (plus b c).
Proof. aggregate. Qed.
Lemma plus_zero_l a : plus zero_aggregate a = a.
Proof. aggregate. Qed.
Lemma plus_zero_r a : plus a zero_aggregate = a.
Proof. aggregate. Qed.

Lemma fits_zero : fits zero_aggregate.
Proof. aggregate. Qed.
Lemma fits_nonneg a : fits a -> nonneg a.
Proof. aggregate. Qed.
Lemma fits_plus_l a b : nonneg a -> nonneg b -> fits (plus a b) -> fits a.
Proof. aggregate. Qed.
Lemma nonneg_plus a b : nonneg a -> nonneg b -> nonneg (plus a b).
Proof. aggregate. Qed.

Lemma contribution_nonneg r : PackRecord_ok r -> nonneg (contribution r).
Proof.
  unfold PackRecord_ok, nonneg. intros Hok. destruct_and?. cbn. destruct (pk_UsageKnown r); range.
Qed.

Lemma tally_nonneg records : Forall PackRecord_ok records -> nonneg (tally records).
Proof.
  induction 1; [apply fits_nonneg, fits_zero|]. apply nonneg_plus; [by apply contribution_nonneg | done].
Qed.

Lemma tally_app l1 l2 : tally (l1 ++ l2) = plus (tally l1) (tally l2).
Proof.
  induction l1 as [|r l IH]; cbn [app tally foldr]; [by rewrite plus_zero_l|].
  unfold tally in IH at 1. by rewrite IH, plus_assoc.
Qed.

Lemma bind_checked_add {A} left right (k : Z -> result A) a :
  uint64 left -> 0 <= right ->
  (let! total := checked_add left right in k total) = Ok a <->
  uint64 (left + right) /\ k (left + right) = Ok a.
Proof.
  intros Hl Hr. unfold checked_add, add.
  destruct (Z.ltb_spec (MaxUint64 - left) right); unfold MaxUint64 in *; cbn [rbind].
  - split; [done|]. intros [? _]. range.
  - split; [|by intros [_ ?]]. intros ?. split; [range|done].
Qed.

(** One step adds the pack's contribution, and fails exactly when a total
    overflows. *)
Lemma accumulate_iff a r a' :
  fits a -> PackRecord_ok r ->
  accumulatePackAggregate a r = Ok a' <-> a' = plus a (contribution r) /\ fits a'.
Proof.
  unfold fits at 1, PackRecord_ok. intros Ha Hr. destruct_and?. unfold accumulatePackAggregate.
  rewrite !bind_checked_add by range. cbn zeta. cbn [pa_UpdateSequence pa_UsedPayloadBytes pa_UnusedPayloadBytes pa_AccountedPackCount].
  destruct (pk_UsageKnown r) eqn:Eu; cbn [negb]; rewrite ?bind_checked_add by range;
    unfold plus, contribution; rewrite Eu, !Z.add_0_r; unfold fits.
  all: split; intros; destruct_and?; simplify_eq/=; split_and!; done.
Qed.

(** ** Runs of accumulations *)

Fixpoint run (finish : PackAggregate -> PackAggregate) (steps : list (Z * PackRecord)) (m : aggregates)
  : result aggregates :=
  match steps with
  | [] => Ok m
  | (k, r) :: rest => let! m := accumulate_with finish k r m in run finish rest m
  end.

(** The packs a run adds to a key. *)
Definition added (k : Z) (steps : list (Z * PackRecord)) : list PackRecord :=
  map snd (filter (fun s => s.1 = k) steps).

(** An aggregate apart from its sequence number. *)
Definition totals (a : PackAggregate) : PackAggregate := set_sequence 0 a.

Definition total (m : aggregates) (k : Z) : PackAggregate := totals (get m k).

Lemma fits_totals a : fits (totals a) <-> fits a.
Proof. done. Qed.

Section Runs.

Variable finish : PackAggregate -> PackAggregate.
Hypothesis finish_totals : forall a, totals (finish a) = totals a.

Lemma totals_plus a r : totals (plus a (contribution r)) = plus (totals a) (contribution r).
Proof. by destruct a. Qed.

Lemma accumulate_with_iff k r m m' :
  fits (total m k) -> PackRecord_ok r ->
  accumulate_with finish k r m = Ok m' <->
  fits (plus (total m k) (contribution r)) /\ m' = <[k := finish (plus (get m k) (contribution r))]> m.
Proof.
  intros Hf Hr. unfold accumulate_with, total in *. rewrite <- totals_plus, fits_totals.
  rewrite rbind_ok. split.
  - intros (a & [-> Ha]%accumulate_iff & [= <-]); done.
  - intros [Ha ->]. eexists. split; [by apply accumulate_iff | done].
Qed.

Lemma total_insert m k a j :
  total (<[k := finish a]> m) j = if decide (j = k) then totals a else total m j.
Proof.
  unfold total, get. destruct (decide (j = k)) as [->|].
  - rewrite lookup_insert_eq. apply finish_totals.
  - by rewrite lookup_insert_ne.
Qed.

Lemma added_cons k j r steps :
  tally (added j ((k, r) :: steps)) =
  plus (if decide (j = k) then contribution r else zero_aggregate) (tally (added j steps)).
Proof.
  unfold added. rewrite filter_cons. cbn [fst]. repeat case_decide; subst; try done.
  cbn [map tally foldr]. by rewrite plus_zero_l.
Qed.

(** One step, in terms of the totals. *)
Lemma total_step m k r j :
  total (<[k := finish (plus (get m k) (contribution r))]> m) j =
  plus (total m j) (if decide (j = k) then contribution r else zero_aggregate).
Proof.
  rewrite total_insert, totals_plus. case_decide; subst; [done|by rewrite plus_zero_r].
Qed.

(** After a run every key has grown by the packs added to it. *)
Lemma run_sound steps m m' :
  Forall (fun s => PackRecord_ok s.2) steps -> (forall k, fits (total m k)) ->
  run finish steps m = Ok m' ->
  forall k, total m' k = plus (total m k) (tally (added k steps)) /\ fits (total m' k).
Proof.
  revert m. induction steps as [|[k r] steps IH]; intros m Hs Hm; cbn [run].
  { intros [= <-] j. split; [|auto]. symmetry. apply plus_zero_r. }
  inversion Hs as [|? ? Hr Hs']; subst. intros H.
  apply rbind_ok in H as (m1 & [Hfit ->]%accumulate_with_iff & H); [|done..].
  assert (forall j, fits (total (<[k := finish (plus (get m k) (contribution r))]> m) j)) as Hm1
    by (intros j; rewrite total_step; case_decide; subst; rewrite ?plus_zero_r; auto).
  intros j. destruct (IH _ Hs' Hm1 H j) as [Hj Hf]. split; [|done].
  by rewrite Hj, total_step, added_cons, plus_assoc.
Qed.

(** A run succeeds when no key's total overflows. *)
Lemma run_complete steps m :
  Forall (fun s => PackRecord_ok s.2) steps -> (forall k, fits (total m k)) ->
  (forall k, fits (plus (total m k) (tally (added k steps)))) ->
  exists m', run finish steps m = Ok m'.
Proof.
  revert m. induction steps as [|[k r] steps IH]; intros m Hs Hm Hsum; cbn [run]; [by eexists|].
  inversion Hs as [|? ? Hr Hs']; subst.
  assert (Forall PackRecord_ok (added k steps)) as Hadd
    by (apply Forall_map, Forall_forall; intros s [_ Hin]%list_elem_of_filter;
        exact (proj1 (Forall_forall _ _) Hs' s Hin)).
  assert (fits (plus (total m k) (contribution r))) as Hfit.
  { specialize (Hsum k). rewrite added_cons, decide_True, <- plus_assoc in Hsum by done.
    apply fits_plus_l in Hsum; [done| |by apply tally_nonneg].
    apply nonneg_plus; [by apply fits_nonneg | by apply contribution_nonneg]. }
  rewrite (proj2 (accumulate_with_iff k r m _ (Hm k) Hr) (conj Hfit eq_refl)). cbn [rbind].
  apply IH; [done|..]; intros j; rewrite total_step.
  - case_decide; subst; rewrite ?plus_zero_r; auto.
  - specialize (Hsum j). by rewrite added_cons, <- plus_assoc in Hsum.
Qed.

(** Only the keys of the steps appear. *)
Lemma run_lookup_None steps m m' k :
  run finish steps m = Ok m' -> (forall s, s ∈ steps -> s.1 <> k) -> m !! k = None -> m' !! k = None.
Proof.
  revert m. induction steps as [|[j r] steps IH]; intros m; cbn [run]; [by intros [= <-]|].
  unfold accumulate_with. intros H Hk Hm. inv_results. eapply IH; [eassumption|..].
  - intros s Hs. apply Hk. by right.
  - rewrite lookup_insert_ne; [done|]. apply (Hk (j, r)). left.
Qed.

End Runs.

Lemma set_sequences_lookup seq keys m k :
  set_sequences seq keys m !! k = if decide (k ∈ keys) then Some (set_sequence seq (total m k)) else m !! k.
Proof.
  unfold set_sequences. revert m. induction keys as [|j keys IH]; intros m; cbn [foldl].
  { by rewrite decide_False by apply not_elem_of_nil. }
  rewrite IH. destruct (decide (k = j)) as [->|Hne].
  - rewrite (decide_True (P := j ∈ j :: keys)) by left. unfold total, get.
    rewrite lookup_insert_eq. by case_decide.
  - rewrite lookup_insert_ne by done. unfold total, get. rewrite lookup_insert_ne by done.
    by rewrite (decide_ext (k ∈ keys) (k ∈ j :: keys)) by (rewrite elem_of_cons; tauto).
Qed.

(** The outcome of a run from nothing over given keys: it does not depend on what
    is done with the sequence number on the way. *)
Lemma run_results finish seq keys steps m :
  (forall a, totals (finish a) = totals a) ->
  Forall (fun s => PackRecord_ok s.2) steps -> (forall s, s ∈ steps -> s.1 ∈ keys) ->
  (exists m0, run finish steps ∅ = Ok m0 /\ m = set_sequences seq keys m0) <->
  (forall k, fits (tally (added k steps))) /\
  forall k, m !! k = if decide (k ∈ keys) then Some (set_sequence seq (tally (added k steps))) else None.
Proof.
  intros Hfin Hs Hkeys.
  assert (forall k, total ∅ k = zero_aggregate) as H0 by done.
  assert (forall k, fits (total ∅ k)) as Hzero by (intros k; rewrite H0; apply fits_zero).
  assert (forall m0, run finish steps ∅ = Ok m0 ->
    (forall k, fits (tally (added k steps))) /\ forall k, set_sequences seq keys m0 !! k =
      if decide (k ∈ keys) then Some (set_sequence seq (tally (added k steps))) else None) as Hrun.
  { intros m0 Hm0. pose proof (run_sound finish Hfin steps ∅ m0 Hs Hzero Hm0) as Ht.
    split; intros k; destruct (Ht k) as [Hk Hf]; rewrite H0, plus_zero_l in Hk.
    - by rewrite <- Hk.
    - rewrite set_sequences_lookup, Hk. case_decide as Hin; [done|].
      apply (run_lookup_None finish steps ∅); [done| |done].
      intros s Hs' <-. by apply Hin, Hkeys. }
  split.
  - intros (m0 & Hm0 & ->). by apply Hrun.
  - intros [Hfit Hm].
    destruct (run_complete finish Hfin steps ∅ Hs Hzero) as [m0 Hm0].
    { intros k. by rewrite H0, plus_zero_l. }
    exists m0. split; [done|]. apply map_eq. intros k. rewrite Hm. symmetry. by apply Hrun.
Qed.

(** ** The steps of the three computations *)

Definition type_steps (records : list PackRecord) : list (Z * PackRecord) :=
  concat (map (fun record => let r := PackRecord_normalized record in
    [(kindByPackType (pk_Type r), r); (AggregateAll, r)]) records).

Definition tier_steps (records : list PackRecord) : list (Z * PackRecord) :=
  map (fun record => let r := PackRecord_normalized record in (pk_Tier r, r)) records.

(** A pack record the aggregates accept, and one the tiers accept. *)
Definition valid_pack (record : PackRecord) : Prop := invalid_pack (PackRecord_normalized record) = false.
Definition valid_tier (record : PackRecord) : Prop :=
  validPackTier (pk_Tier (PackRecord_normalized record)) = true.

Lemma rebuild_types_iff seq records m m' :
  rebuild_types seq records m = Ok m' <->
  Forall valid_pack records /\ run (set_sequence seq) (type_steps records) m = Ok m'.
Proof.
  revert m. induction records as [|record rest IH]; intros m; cbn [rebuild_types].
  { split; [by intros [= <-] | by intros [_ [= <-]]]. }
  rewrite Forall_cons. cbn [type_steps map concat app run]. unfold valid_pack at 1.
  destruct (invalid_pack _); cbn [guard rbind]; [split; [done | by intros [[? _] _]]|].
  destruct (accumulate_with _ _ _ m) as [m1|]; cbn [rbind]; [|split; [done | by intros [_ ?]]].
  destruct (accumulate_with _ _ _ m1) as [m2|]; cbn [rbind]; [|split; [done | by intros [_ ?]]].
  rewrite IH. unfold type_steps. tauto.
Qed.

Lemma rebuild_tiers_iff seq records m m' :
  rebuild_tiers seq records m = Ok m' <->
  Forall (fun r => valid_pack r /\ valid_tier r) records /\
  run (set_sequence seq) (tier_steps records) m = Ok m'.
Proof.
  revert m. induction records as [|record rest IH]; intros m; cbn [rebuild_tiers].
  { split; [by intros [= <-] | by intros [_ [= <-]]]. }
  rewrite Forall_cons. cbn [tier_steps map run]. unfold valid_pack at 1, valid_tier at 1.
  destruct (invalid_pack _); cbn [guard rbind]; [split; [done | by intros [[[? _] _] _]]|].
  destruct (validPackTier _); cbn [guard rbind negb]; [|split; [done | by intros [[[_ ?] _] _]]].
  destruct (accumulate_with _ _ _ m) as [m1|]; cbn [rbind]; [|split; [done | by intros [_ ?]]].
  rewrite IH. unfold tier_steps. tauto.
Qed.

Lemma add_all_iff records acc acc' :
  add_all records acc = Ok acc' <->
  Forall (fun r => valid_pack r /\ valid_tier r) records /\
  run id (type_steps records) (byType acc) = Ok (byType acc') /\
  run id (tier_steps records) (byTier acc) = Ok (byTier acc').
Proof.
  revert acc. induction records as [|record rest IH]; intros acc; cbn [add_all].
  { destruct acc as [a b], acc' as [a' b']. cbn.
    split; [by intros [= <- <-] | by intros (_ & [= <-] & [= <-])]. }
  rewrite Forall_cons. unfold Add, valid_pack at 1, valid_tier at 1.
  cbn [type_steps tier_steps map concat app run].
  destruct (invalid_pack _); cbn [rbind orb]; [split; [done | by intros [[[? _] _] _]]|].
  destruct (validPackTier _); cbn [rbind negb]; [|split; [done | by intros [[[_ ?] _] _]]].
  destruct (accumulate_with _ _ _ (byType acc)) as [m1|]; cbn [rbind]; [|split; [done | by intros (_ & ? & _)]].
  destruct (accumulate_with _ _ _ m1) as [m2|]; cbn [rbind]; [|split; [done | by intros (_ & ? & _)]].
  destruct (accumulate_with _ _ _ (byTier acc)) as [m3|]; cbn [rbind]; [|split; [done | by intros (_ & _ & ?)]].
  rewrite IH. cbn [byType byTier]. unfold type_steps, tier_steps. tauto.
Qed.

(** ** The packs of a type and of a tier *)

Definition in_kind (k : Z) (record : PackRecord) : Prop :=
  k = AggregateAll \/ kindByPackType (pk_Type record) = k.
Definition in_tier (tier : Z) (record : PackRecord) : Prop := pk_Tier (PackRecord_normalized record) = tier.
#[export] Instance in_kind_dec k : forall r, Decision (in_kind k r).
Proof. intros r. unfold in_kind. apply _. Defined.
#[export] Instance in_tier_dec t : forall r, Decision (in_tier t r).
Proof. intros r. unfold in_tier. apply _. Defined.

Lemma normalized_Type r : pk_Type (PackRecord_normalized r) = pk_Type r.
Proof. unfold PackRecord_normalized. repeat case_match; by destruct r. Qed.
Lemma normalized_contribution r : contribution (PackRecord_normalized r) = contribution r.
Proof. unfold PackRecord_normalized. repeat case_match; by destruct r. Qed.
Lemma normalized_ok r : PackRecord_ok r -> PackRecord_ok (PackRecord_normalized r).
Proof.
  unfold PackRecord_ok, PackRecord_normalized. intros H.
  repeat case_match; destruct r; cbn in *; destruct_and?; unfold constant; split_and!; (done || range).
Qed.

Lemma kind_of_valid r :
  valid_pack r -> kindByPackType (pk_Type r) ∈ AggregateKinds /\ kindByPackType (pk_Type r) <> AggregateAll.
Proof.
  unfold valid_pack, invalid_pack, validPackType, between, kindByPackType, AggregateKinds.
  rewrite normalized_Type. intros [H _]%orb_false_iff. split_bools.
  unfold PackData, PackTree, PackMixed, PackUnknown in *.
  repeat case_match; split_bools; try lia; (split; [|done]);
    rewrite ?elem_of_cons; auto.
Qed.

Lemma tally_types k records :
  Forall valid_pack records -> tally (added k (type_steps records)) = tally (filter (in_kind k) records).
Proof.
  induction 1 as [|r l [_ Hr]%kind_of_valid _ IH]; [done|].
  unfold type_steps. cbn [map concat app]. fold (type_steps l). rewrite !added_cons, IH.
  rewrite filter_cons, normalized_Type, normalized_contribution.
  repeat case_decide; unfold in_kind in *; subst; rewrite ?plus_zero_l; try done; exfalso; intuition congruence.
Qed.

Lemma tally_tiers t records : tally (added t (tier_steps records)) = tally (filter (in_tier t) records).
Proof.
  induction records as [|r l IH]; [done|].
  unfold tier_steps. cbn [map]. fold (tier_steps l). rewrite added_cons, IH.
  rewrite filter_cons, normalized_contribution.
  repeat case_decide; unfold in_tier in *; subst; rewrite ?plus_zero_l; try done; exfalso; intuition congruence.
Qed.

Lemma type_steps_ok records :
  Forall PackRecord_ok records -> Forall valid_pack records ->
  Forall (fun s => PackRecord_ok s.2) (type_steps records) /\
  forall s, s ∈ type_steps records -> s.1 ∈ AggregateKinds.
Proof.
  intros Hok Hv. split.
  - apply Forall_concat, Forall_map. eapply Forall_impl; [exact Hok|]. intros r Hr%normalized_ok.
    by repeat (apply Forall_cons_2 || apply Forall_nil_2).
  - apply Forall_forall. apply Forall_concat, Forall_map. eapply Forall_impl; [exact Hv|].
    intros r [Hr _]%kind_of_valid. repeat (apply Forall_cons_2 || apply Forall_nil_2); cbn; rewrite ?normalized_Type; [done|].
    unfold AggregateKinds. rewrite !elem_of_cons. tauto.
Qed.

Lemma tier_steps_ok records :
  Forall PackRecord_ok records -> Forall valid_tier records ->
  Forall (fun s => PackRecord_ok s.2) (tier_steps records) /\
  forall s, s ∈ tier_steps records -> s.1 ∈ TierAggregateKinds.
Proof.
  intros Hok Hv. split.
  - apply Forall_map. eapply Forall_impl; [exact Hok|]. intros r. apply normalized_ok.
  - apply Forall_forall, Forall_map. eapply Forall_impl; [exact Hv|]. intros r Hr. cbn.
    unfold valid_tier, validPackTier, between in Hr. split_bools.
    unfold TierAggregateKinds, TierUnknown, TierHot, TierCold, TierMirrored, TierSingle in *.
    rewrite !elem_of_cons. lia.
Qed.

(** The packs of a kind weigh no more than all packs. *)
Lemma tally_split (P : PackRecord -> Prop) `{forall r, Decision (P r)} records :
  tally records = plus (tally (filter P records)) (tally (filter (fun r => ~ P r) records)).
Proof.
  induction records as [|r l IH]; [done|]. cbn [tally foldr]. fold (tally l). rewrite IH, !filter_cons.
  destruct (decide (P r)).
  - rewrite decide_False by tauto. cbn [tally foldr]. fold (tally (filter P l)). by rewrite plus_assoc.
  - rewrite decide_True by tauto. cbn [tally foldr]. fold (tally (filter (fun r => ~ P r) l)).
    by rewrite <- !plus_assoc, (plus_comm (contribution r)).
Qed.

Lemma fits_filter (P : PackRecord -> Prop) `{forall r, Decision (P r)} records :
  Forall PackRecord_ok records -> fits (tally records) -> fits (tally (filter P records)).
Proof.
  intros Hok. rewrite (tally_split P). apply fits_plus_l; apply tally_nonneg, Forall_forall;
    intros r [_ Hr]%list_elem_of_filter; exact (proj1 (Forall_forall _ _) Hok r Hr).
Qed.

(** ** Results *)

Lemma set_sequence_totals seq a : totals (set_sequence seq a) = totals a.
Proof. done. Qed.

Lemma filter_all (records : list PackRecord) : filter (in_kind AggregateAll) records = records.
Proof. induction records as [|r l IH]; [done|]. rewrite filter_cons, decide_True by (by left). by f_equal. Qed.

Lemma types_iff seq finish records m :
  Forall PackRecord_ok records -> Forall valid_pack records ->
  (forall a, totals (finish a) = totals a) ->
  (exists m0, run finish (type_steps records) ∅ = Ok m0 /\ m = set_sequences seq AggregateKinds m0) <->
  fits (tally records) /\
  forall k, m !! k = if decide (k ∈ AggregateKinds)
                     then Some (set_sequence seq (tally (filter (in_kind k) records))) else None.
Proof.
  intros Hok Hv Hfin. destruct (type_steps_ok records Hok Hv) as [Hs Hk].
  rewrite (run_results finish seq AggregateKinds (type_steps records) m Hfin Hs Hk).
  assert ((forall k, fits (tally (added k (type_steps records)))) <-> fits (tally records)) as ->.
  { split.
    - intros H. specialize (H AggregateAll). by rewrite tally_types, filter_all in H.
    - intros H k. rewrite tally_types by done. by apply fits_filter. }
  split; intros [Hf Hm]; (split; [exact Hf|]); intros k; by rewrite Hm, tally_types.
Qed.

Lemma tiers_iff seq finish records m :
  Forall PackRecord_ok records -> Forall valid_tier records ->
  (forall a, totals (finish a) = totals a) ->
  (exists m0, run finish (tier_steps records) ∅ = Ok m0 /\ m = set_sequences seq TierAggregateKinds m0) <->
  (forall tier, fits (tally (filter (in_tier tier) records))) /\
  forall k, m !! k = if decide (k ∈ TierAggregateKinds)
                     then Some (set_sequence seq (tally (filter (in_tier k) records))) else None.
Proof.
  intros Hok Hv Hfin. destruct (tier_steps_ok records Hok Hv) as [Hs Hk].
  rewrite (run_results finish seq TierAggregateKinds (tier_steps records) m Hfin Hs Hk).
  split; intros [Hf Hm]; (split; [intros t; specialize (Hf t); by rewrite tally_tiers in *|]);
    intros k; by rewrite Hm, tally_tiers.
Qed.

Lemma valid_both records :
  Forall (fun r => valid_pack r /\ valid_tier r) records <->
  Forall valid_pack records /\ Forall valid_tier records.
Proof. apply Forall_and. Qed.

Lemma rebuild_types_run records seq m :
  RebuildPackAggregates records seq = Ok m <->
  Forall valid_pack records /\
  exists m0, run (set_sequence seq) (type_steps records) ∅ = Ok m0 /\ m = set_sequences seq AggregateKinds m0.
Proof.
  unfold RebuildPackAggregates. rewrite rbind_ok. setoid_rewrite rebuild_types_iff.
  split; [intros (m0 & [Hv Hm] & [= <-]) | intros (Hv & m0 & Hm & ->)]; eauto.
Qed.

Lemma rebuild_tiers_run records seq m :
  RebuildTierAggregates records seq = Ok m <->
  (Forall valid_pack records /\ Forall valid_tier records) /\
  exists m0, run (set_sequence seq) (tier_steps records) ∅ = Ok m0 /\ m = set_sequences seq TierAggregateKinds m0.
Proof.
  unfold RebuildTierAggregates. rewrite rbind_ok. setoid_rewrite rebuild_tiers_iff.
  rewrite <- valid_both.
  split; [intros (m0 & [Hv Hm] & [= <-]) | intros (Hv & m0 & Hm & ->)]; eauto.
Qed.

Lemma accumulator_run records seq types tiers :
  (exists acc, add_all records NewPackAggregateAccumulator = Ok acc /\ Results acc seq = (types, tiers)) <->
  (Forall valid_pack records /\ Forall valid_tier records) /\
  (exists m0, run id (type_steps records) ∅ = Ok m0 /\ types = set_sequences seq AggregateKinds m0) /\
  (exists m0, run id (tier_steps records) ∅ = Ok m0 /\ tiers = set_sequences seq TierAggregateKinds m0).
Proof.
  setoid_rewrite add_all_iff. rewrite <- valid_both. unfold Results. split.
  - intros (acc & (Hv & Ht & Hr) & [= <- <-]). split; [done|]. split; eexists; eauto.
  - intros (Hv & (m1 & Ht & ->) & (m2 & Hr & ->)). by exists (mkAccumulator m1 m2).
Qed.

(** C26. [RebuildPackAggregates] succeeds exactly when every record is valid and no
    total over all packs overflows; it then holds one aggregate for each content
    type and one for all packs, with the exact sums over the packs of that type
    (usage only of packs whose usage is known) and the given update sequence, and
    nothing else. *)
Theorem RebuildPackAggregates_spec records updateSequence m :
  Forall PackRecord_ok records ->
  RebuildPackAggregates records updateSequence = Ok m <->
  Forall valid_pack records /\ fits (tally records) /\
  forall k, m !! k = if decide (k ∈ AggregateKinds)
    then Some (set_sequence updateSequence (tally (filter (in_kind k) records))) else None.
Proof.
  intros Hok. rewrite rebuild_types_run. split; intros [Hv H]; (split; [done|]);
    by apply (types_iff updateSequence (set_sequence updateSequence)) in H.
Qed.

(** [RebuildTierAggregates] likewise by storage tier; a record without a tier
    counts as one of unknown tier. Every tier has an entry, also one without packs. *)
Theorem RebuildTierAggregates_spec records updateSequence m :
  Forall PackRecord_ok records ->
  RebuildTierAggregates records updateSequence = Ok m <->
  (Forall valid_pack records /\ Forall valid_tier records) /\
  (forall tier, fits (tally (filter (in_tier tier) records))) /\
  forall k, m !! k = if decide (k ∈ TierAggregateKinds)
    then Some (set_sequence updateSequence (tally (filter (in_tier k) records))) else None.
Proof.
  intros Hok. rewrite rebuild_tiers_run. split; intros [[Hv Ht] H]; (split; [done|]);
    by apply (tiers_iff updateSequence (set_sequence updateSequence)) in H.
Qed.

(** The streaming accumulator agrees with the two rebuilds: adding the packs one
    by one succeeds exactly when both rebuilds do, and gives the same aggregates. *)
Theorem accumulator_rebuilds records updateSequence types tiers :
  Forall PackRecord_ok records ->
  (exists acc, add_all records NewPackAggregateAccumulator = Ok acc /\
     Results acc updateSequence = (types, tiers)) <->
  RebuildPackAggregates records updateSequence = Ok types /\
  RebuildTierAggregates records updateSequence = Ok tiers.
Proof.
  intros Hok. rewrite accumulator_run, rebuild_types_run, rebuild_tiers_run.
  split.
  - intros ([Hp Ht] & H1 & H2). split; (split; [done|]).
    + by apply (types_iff _ id), (types_iff _ (set_sequence updateSequence)) in H1.
    + by apply (tiers_iff _ id), (tiers_iff _ (set_sequence updateSequence)) in H2.
  - intros [[_ H1] [[Hp Ht] H2]]. split; [done|]. split.
    + by apply (types_iff _ (set_sequence updateSequence)), (types_iff _ id) in H1.
    + by apply (tiers_iff _ (set_sequence updateSequence)), (tiers_iff _ id) in H2.
Qed.

(** *** Classification *)

Definition has (blobType : Z) (types : list Z) : bool := existsb (Z.eqb blobType) types.

Lemma has_spec t types : has t types = true <-> t ∈ types.
Proof.
  unfold has. rewrite existsb_exists.
  split.
  - intros (x & Hx & ->%Z.eqb_eq). by apply list_elem_of_In.
  - intros Ht. exists t. split; [by apply list_elem_of_In | apply Z.eqb_refl].
Qed.

Lemma classify_from_spec d t types :
  classify_from d t types =
  if forallb (fun x => (x =? BlobData) || (x =? BlobTree)) types
  then (if (d || has BlobData types) && (t || has BlobTree types) then PackMixed
        else if d || has BlobData types then PackData else PackTree)
  else PackUnknown.
Proof.
  revert d t. induction types as [|x l IH]; intros d t; cbn [classify_from forallb].
  { cbn. by rewrite !orb_false_r. }
  unfold has. cbn [existsb]. fold (has BlobData l) (has BlobTree l).
  rewrite (Z.eqb_sym BlobData), (Z.eqb_sym BlobTree).
  destruct (Z.eqb_spec x BlobData) as [->|]; cbn [orb andb].
  - rewrite IH. by rewrite orb_true_r.
  - destruct (Z.eqb_spec x BlobTree) as [->|]; cbn [orb andb]; [|done].
    rewrite IH. by rewrite orb_true_r.
Qed.

(** A pack is of mixed type exactly when it holds data and tree blobs and
    nothing else, of data or tree type when it holds only such blobs, and of
    unknown type when it is empty or holds a blob of another type. *)
Theorem ClassifyPack_spec types :
  let known := Forall (fun t => t = BlobData \/ t = BlobTree) types in
  (ClassifyPack types = PackMixed <-> known /\ BlobData ∈ types /\ BlobTree ∈ types) /\
  (ClassifyPack types = PackData <-> known /\ BlobData ∈ types /\ BlobTree ∉ types) /\
  (ClassifyPack types = PackTree <-> known /\ BlobData ∉ types /\ BlobTree ∈ types) /\
  (ClassifyPack types = PackUnknown <-> ~ known \/ types = []).
Proof.
  intros known.
  assert (forallb (fun x => (x =? BlobData) || (x =? BlobTree)) types = true <-> known) as Hk.
  { unfold known. rewrite forallb_forall, Forall_forall. setoid_rewrite list_elem_of_In.
    by setoid_rewrite orb_true_iff; setoid_rewrite Z.eqb_eq. }
  assert (types <> [] -> known -> BlobData ∈ types \/ BlobTree ∈ types) as Hne.
  { unfold known. destruct 2 as [|x l [-> | ->]]; [done| left; left | right; left]. }
  rewrite <- !has_spec in *. unfold ClassifyPack.
  destruct types as [|x l]; [cbn in *; intuition discriminate|].
  rewrite classify_from_spec. cbn [orb].
  assert (x :: l <> []) as Hcons by done.
  destruct (forallb _ (x :: l)), (has BlobData (x :: l)), (has BlobTree (x :: l)); cbn [andb];
    unfold PackMixed, PackData, PackTree, PackUnknown; intuition (congruence || lia).
Qed.

(** Two packs of different type and tier, the second with known usage. *)
Definition example_packs : list PackRecord :=
  [mkPackRecord PackData 100 90 10 3 true 0 false PackPublished [] 0 [] 0 0 0 0 false 0;
   mkPackRecord PackTree 50 45 5 2 true 0 false PackPublished [] TierHot [] 0 0 40 5 true 0].

Lemma example_packs_ok : Forall PackRecord_ok example_packs.
Proof. repeat constructor; vm_compute; try discriminate; done. Qed.

Definition example_types : aggregates :=
  match RebuildPackAggregates example_packs 7 with Ok m => m | Err _ => ∅ end.
Definition example_tiers : aggregates :=
  match RebuildTierAggregates example_packs 7 with Ok m => m | Err _ => ∅ end.

Lemma RebuildPackAggregates_spec_witness :
  RebuildPackAggregates example_packs 7 = Ok example_types /\ fits (tally example_packs).
Proof.
  assert (RebuildPackAggregates example_packs 7 = Ok example_types) as H by (vm_compute; reflexivity).
  split; [exact H|]. apply (RebuildPackAggregates_spec example_packs 7 example_types example_packs_ok) in H.
  apply H.
Defined.

Lemma RebuildTierAggregates_spec_witness :
  RebuildTierAggregates example_packs 7 = Ok example_tiers /\
  forall tier, fits (tally (filter (in_tier tier) example_packs)).
Proof.
  assert (RebuildTierAggregates example_packs 7 = Ok example_tiers) as H by (vm_compute; reflexivity).
  split; [exact H|]. apply (RebuildTierAggregates_spec example_packs 7 example_tiers example_packs_ok) in H.
  apply H.
Defined.

Lemma accumulator_rebuilds_witness :
  exists acc, add_all example_packs NewPackAggregateAccumulator = Ok acc /\
    Results acc 7 = (example_types, example_tiers).
Proof.
  apply (accumulator_rebuilds example_packs 7 example_types example_tiers example_packs_ok).
  split; vm_compute; reflexivity.
Defined.
