(* ===== verification/References.v ===== *)
(** * Rebuilding blob reference counts ([internal/index/schema/validation.go])

    The number of references to each blob and of the distinct inodes, inode
    revisions and manifests they come from, recomputed from the list of edges. *)
From stdpp Require Import base list numbers strings gmap.
From Stdlib Require Import ZArith Lia.
From coqutil Require Import Datatypes.RecordSetters.
From S2P Require Import Prelude Codec Keys MetaRecords.
Import TriangleBracketNotations.

(** Bytes, and with them identifiers, as keys of maps and elements of sets. *)
#[export] Instance byte_eq_dec : EqDecision byte.
Proof. intros a b. apply Byte.byte_eq_dec. Defined.
#[export] Program Instance byte_countable : Countable byte := inj_countable Byte.to_N Byte.of_N _.
Next Obligation. intros b. apply Byte.of_to_N. Qed.

Record InodeRef := mkInodeRef { ir_FSID : Z; ir_Inode : Z }.
#[export] Instance InodeRef_eq_dec : EqDecision InodeRef.
Proof. solve_decision. Defined.
#[export] Program Instance InodeRef_countable : Countable InodeRef :=
  inj_countable' (fun r => (ir_FSID r, ir_Inode r)) (fun p => mkInodeRef p.1 p.2) _.
Next Obligation. by intros []. Qed.

Record ManifestEdge := mkManifestEdge { me_Blob : ID; me_Manifest : ID }.
Record InodeEdge := mkInodeEdge { ie_Blob : ID; ie_FSID : Z; ie_Inode : Z; ie_Revision : Z }.

(** The maps the two loops fill. *)
Record counting := mkCounting {
  manifestSets : gmap ID (gset ID);
  inodeSets : gmap ID (gset InodeRef);
  revisionSets : gmap ID (gset bytes);
  totals : gmap ID Z;
}.

(** [totals[blob]++] *)
Definition increment (blob : ID) (totals : gmap ID Z) : gmap ID Z :=
  <[blob := wrap_u 64 (default 0 (totals !! blob) + 1)]> totals.

Definition count_manifest_edge (c : counting) (edge : ManifestEdge) : counting :=
  let blob := me_Blob edge in
  c <| manifestSets := <[blob := default ∅ (manifestSets c !! blob) ∪ {[me_Manifest edge]}]> (manifestSets c) |>
    <| totals := increment blob (totals c) |>.

(** The 20 bytes of the revision's key after its prefix. *)
Definition revision_bytes (edge : InodeEdge) : bytes :=
  take 20 (from 3 (InodeRevisionKey (ie_FSID edge) (ie_Inode edge) (ie_Revision edge)) ++ repeat x00 20).

(** [if inodeSets[blob] == nil], create the sets of the blob. *)
Definition ensure_sets (blob : ID) (c : counting) : counting :=
  match inodeSets c !! blob with
  | None => c <| inodeSets := <[blob := ∅]> (inodeSets c) |>
              <| revisionSets := <[blob := ∅]> (revisionSets c) |>
  | Some _ => c
  end.

Definition count_inode_edge (c : counting) (edge : InodeEdge) : counting :=
  let blob := ie_Blob edge in
  let c := ensure_sets blob c in
  c <| inodeSets := <[blob := default ∅ (inodeSets c !! blob)
                              ∪ {[mkInodeRef (ie_FSID edge) (ie_Inode edge)]}]> (inodeSets c) |>
    <| revisionSets := <[blob := default ∅ (revisionSets c !! blob) ∪ {[revision_bytes edge]}]> (revisionSets c) |>
    <| totals := increment blob (totals c) |>.

Definition RebuildReferenceCounts (manifestEdges : list ManifestEdge) (inodeEdges : list InodeEdge)
    (updateSequence : Z) : gmap ID ReferenceCountRecord :=
  let c := foldl count_manifest_edge (mkCounting ∅ ∅ ∅ ∅) manifestEdges in
  let c := foldl count_inode_edge c inodeEdges in
  map_imap (fun blob total => Some {|
    rc_TotalReferences := total;
    rc_DistinctInodes := Z.of_nat (base.size (default ∅ (inodeSets c !! blob)));
    rc_DistinctRevisions := Z.of_nat (base.size (default ∅ (revisionSets c !! blob)));
    rc_DistinctManifests := Z.of_nat (base.size (default ∅ (manifestSets c !! blob)));
    rc_ReachableSnapshots := 0;
    rc_UpdateSequence := updateSequence |}) (totals c).

(** ** Contents of the maps *)

Definition manifests_of (c : counting) (blob : ID) : gset ID := default ∅ (manifestSets c !! blob).
Definition inodes_of (c : counting) (blob : ID) : gset InodeRef := default ∅ (inodeSets c !! blob).
Definition revisions_of (c : counting) (blob : ID) : gset bytes := default ∅ (revisionSets c !! blob).

(** The two maps of inode edges are created together. *)
Definition together (c : counting) : Prop := forall blob, inodeSets c !! blob = None -> revisions_of c blob = ∅.

(** A counter after [n] increments. *)
Definition bumped (count : option Z) (n : nat) : option Z :=
  match n with
  | O => count
  | S _ => Some (wrap_u 64 (default 0 count + Z.of_nat n))
  end.

Lemma bumped_S count n : bumped (bumped count 1) n = bumped count (S n).
Proof.
  destruct n as [|n]; [done|]. unfold bumped, wrap_u. cbv [default from_option id]. f_equal.
  rewrite Z.add_mod_idemp_l by lia. f_equal. lia.
Qed.

Lemma bumped_add count n m : bumped (bumped count n) m = bumped count (n + m).
Proof.
  revert count. induction n as [|n IH]; intros count; [done|].
  rewrite <- bumped_S, IH. apply bumped_S.
Qed.

Lemma increment_lookup blob b m :
  increment blob m !! b = bumped (m !! b) (if decide (blob = b) then 1 else 0).
Proof.
  unfold increment. case_decide; subst; [by rewrite lookup_insert_eq | by rewrite lookup_insert_ne].
Qed.

Lemma default_insert {A} `{Countable A} (m : gmap ID (gset A)) (blob b : ID) (s : gset A) :
  default ∅ (<[blob := s]> m !! b) = if decide (blob = b) then s else default ∅ (m !! b).
Proof. case_decide; subst; [by rewrite lookup_insert_eq | by rewrite lookup_insert_ne]. Qed.

Lemma count_manifest_edges edges c b :
  let c' := foldl count_manifest_edge c edges in
  let mine := filter (fun e => me_Blob e = b) edges in
  manifests_of c' b = manifests_of c b ∪ list_to_set (map me_Manifest mine) /\
  totals c' !! b = bumped (totals c !! b) (length mine) /\
  inodeSets c' = inodeSets c /\ revisionSets c' = revisionSets c.
Proof.
  revert c. induction edges as [|e edges IH]; intros c; cbn [foldl].
  { cbn. split_and!; try done. by rewrite (right_id_L ∅ (∪)). }
  destruct (IH (count_manifest_edge c e)) as (-> & -> & -> & ->). rewrite filter_cons.
  unfold manifests_of, count_manifest_edge. cbn. unfold constant.
  rewrite increment_lookup, default_insert. case_decide; subst; cbn [map list_to_set length].
  - rewrite bumped_S. split_and!; try done. by rewrite (assoc_L (∪)).
  - done.
Qed.

Lemma ensure_sets_spec blob c :
  together c ->
  together (ensure_sets blob c) /\ manifestSets (ensure_sets blob c) = manifestSets c /\
  totals (ensure_sets blob c) = totals c /\
  (forall b, inodes_of (ensure_sets blob c) b = inodes_of c b) /\
  (forall b, revisions_of (ensure_sets blob c) b = revisions_of c b).
Proof.
  intros Ht. unfold ensure_sets. destruct (inodeSets c !! blob) eqn:E; [done|].
  unfold together, inodes_of, revisions_of in *. cbn. unfold constant.
  split_and!; try done; intros b.
  - rewrite default_insert. case_decide; [done|]. rewrite lookup_insert_ne by done. apply Ht.
  - rewrite default_insert. case_decide; subst; [by rewrite E | done].
  - rewrite default_insert. case_decide; subst; [by rewrite Ht | done].
Qed.

Lemma count_inode_step c e b :
  together c ->
  let c' := count_inode_edge c e in
  together c' /\ manifestSets c' = manifestSets c /\
  totals c' !! b = bumped (totals c !! b) (if decide (ie_Blob e = b) then 1 else 0) /\
  inodes_of c' b = inodes_of c b ∪ (if decide (ie_Blob e = b) then {[mkInodeRef (ie_FSID e) (ie_Inode e)]} else ∅) /\
  revisions_of c' b = revisions_of c b ∪ (if decide (ie_Blob e = b) then {[revision_bytes e]} else ∅).
Proof.
  intros Ht. destruct (ensure_sets_spec (ie_Blob e) c Ht) as (Ht1 & <- & <- & Hi & Hr).
  rewrite <- Hi, <- Hr. unfold together, inodes_of, revisions_of, count_inode_edge in *.
  cbn. unfold constant.
  split_and!; [|done|apply increment_lookup|..].
  - intros b' Hb'. destruct (decide (ie_Blob e = b')) as [<-|Hne].
    + by rewrite lookup_insert_eq in Hb'.
    + rewrite lookup_insert_ne in Hb' by done. rewrite lookup_insert_ne by done. by apply Ht1.
  - rewrite default_insert. case_decide; subst; [done | by rewrite (right_id_L ∅ (∪))].
  - rewrite default_insert. case_decide; subst; [done | by rewrite (right_id_L ∅ (∪))].
Qed.

Lemma count_inode_edges edges c b :
  together c ->
  let c' := foldl count_inode_edge c edges in
  let mine := filter (fun e => ie_Blob e = b) edges in
  manifestSets c' = manifestSets c /\
  totals c' !! b = bumped (totals c !! b) (length mine) /\
  inodes_of c' b = inodes_of c b ∪ list_to_set (map (fun e => mkInodeRef (ie_FSID e) (ie_Inode e)) mine) /\
  revisions_of c' b = revisions_of c b ∪ list_to_set (map revision_bytes mine).
Proof.
  revert c. induction edges as [|e edges IH]; intros c Ht; cbn [foldl].
  { cbn. split_and!; try done; by rewrite (right_id_L ∅ (∪)). }
  destruct (count_inode_step c e b Ht) as (Ht1 & Hm & Htot & Hi & Hr).
  destruct (IH _ Ht1) as (-> & -> & -> & ->). rewrite Hm, Htot, Hi, Hr, filter_cons.
  case_decide; cbn [map list_to_set length].
  - rewrite bumped_S. split_and!; try done; by rewrite (assoc_L (∪)).
  - cbn [bumped]. by rewrite !(right_id_L ∅ (∪)).
Qed.

(** ** Distinct elements *)

Definition distinct {A} `{EqDecision A} (l : list A) : Z := Z.of_nat (length (remove_dups l)).

Lemma size_distinct {A} `{Countable A} (l : list A) :
  Z.of_nat (base.size (list_to_set l : gset A)) = distinct l.
Proof.
  unfold distinct. f_equal. rewrite <- (size_list_to_set (C := gset A)) by apply NoDup_remove_dups.
  f_equal. apply leibniz_equiv. intros x. rewrite !elem_of_list_to_set. by rewrite elem_of_remove_dups.
Qed.

(** Counting the images of two maps that identify the same elements. *)
Lemma distinct_map_same {A B C} `{EqDecision B, EqDecision C} (f : A -> B) (g : A -> C) l :
  (forall x y, x ∈ l -> y ∈ l -> f x = f y <-> g x = g y) -> distinct (map f l) = distinct (map g l).
Proof.
  induction l as [|x l IH]; intros H; [done|]. unfold distinct in *. cbn [map remove_dups].
  assert (length (remove_dups (map f l)) = length (remove_dups (map g l))) as E.
  { apply Nat2Z.inj, IH. intros y z Hy Hz. apply H; by right. }
  assert (f x ∈ map f l <-> g x ∈ map g l) as Hin.
  { setoid_rewrite list_elem_of_fmap. split; intros (y & Hxy & Hy); exists y; (split; [|done]);
      (apply (H x y); [left | by right | done]). }
  repeat case_decide; cbn [length]; rewrite E; tauto.
Qed.

Definition InodeEdge_ok (e : InodeEdge) : Prop :=
  uint32 (ie_FSID e) /\ uint64 (ie_Inode e) /\ uint64 (ie_Revision e).

Lemma revision_bytes_eq e :
  revision_bytes e = be 4 (ie_FSID e) ++ be 8 (ie_Inode e) ++ be 8 (ie_Revision e).
Proof.
  unfold revision_bytes, InodeRevisionKey, revisionKey, inodeKey, from.
  cbn -[be repeat]. rewrite !drop_0, ?app_assoc, take_app_le, take_ge; [done|..];
    rewrite !length_app, !be_length; lia.
Qed.

Lemma revision_bytes_inj e1 e2 :
  InodeEdge_ok e1 -> InodeEdge_ok e2 ->
  revision_bytes e1 = revision_bytes e2 <->
  (ie_FSID e1, ie_Inode e1, ie_Revision e1) = (ie_FSID e2, ie_Inode e2, ie_Revision e2).
Proof.
  intros (? & ? & ?) (? & ? & ?). rewrite !revision_bytes_eq. split; [|by intros [= -> -> ->]].
  intros [-> E]%be_app_inj; [|range..]. apply be_app_inj in E as [-> E]; [|range..].
  apply be_inj in E as ->; [done|range..].
Qed.

(** The rebuilt counts of a blob: there is a record exactly when some edge leads
    to the blob; it counts the edges, and the distinct inodes, revisions of
    inodes and manifests among their origins, although revisions are told apart
    only by 20 bytes of their key. *)
Theorem RebuildReferenceCounts_spec manifestEdges inodeEdges updateSequence blob :
  Forall InodeEdge_ok inodeEdges ->
  let manifests := filter (fun e => me_Blob e = blob) manifestEdges in
  let inodes := filter (fun e => ie_Blob e = blob) inodeEdges in
  let edges := (length manifests + length inodes)%nat in
  RebuildReferenceCounts manifestEdges inodeEdges updateSequence !! blob =
  if decide (edges = 0%nat) then None else Some {|
    rc_TotalReferences := wrap_u 64 (Z.of_nat edges);
    rc_DistinctInodes := distinct (map (fun e => (ie_FSID e, ie_Inode e)) inodes);
    rc_DistinctRevisions := distinct (map (fun e => (ie_FSID e, ie_Inode e, ie_Revision e)) inodes);
    rc_DistinctManifests := distinct (map me_Manifest manifests);
    rc_ReachableSnapshots := 0;
    rc_UpdateSequence := updateSequence |}.
Proof.
  intros Hok manifests inodes edges. unfold RebuildReferenceCounts.
  set (c0 := mkCounting ∅ ∅ ∅ ∅).
  destruct (count_manifest_edges manifestEdges c0 blob) as (Hm & Ht & Hi & Hr).
  set (c1 := foldl count_manifest_edge c0 manifestEdges) in *.
  assert (together c1) as Htog by (intros b _; unfold revisions_of; by rewrite Hr).
  destruct (count_inode_edges inodeEdges c1 blob Htog) as (Hm' & Ht' & Hi' & Hr').
  fold manifests in Hm, Ht. fold inodes in Ht', Hi', Hr'.
  rewrite map_lookup_imap. set (c2 := foldl count_inode_edge c1 inodeEdges) in *.
  fold (inodes_of c2 blob) (revisions_of c2 blob) (manifests_of c2 blob).
  assert (inodes_of c1 blob = ∅) as E1 by (unfold inodes_of; by rewrite Hi).
  assert (revisions_of c1 blob = ∅) as E2 by (unfold revisions_of; by rewrite Hr).
  assert (manifests_of c2 blob = list_to_set (map me_Manifest manifests)) as ->
    by (unfold manifests_of; rewrite Hm'; exact (eq_trans Hm (left_id_L ∅ (∪) _))).
  rewrite Hi', Hr', Ht', Ht, E1, E2, bumped_add, !(left_id_L ∅ (∪)), !size_distinct. fold edges.
  rewrite (distinct_map_same revision_bytes (fun e => (ie_FSID e, ie_Inode e, ie_Revision e))).
  2: { intros x y [_ Hx]%list_elem_of_filter [_ Hy]%list_elem_of_filter.
       rewrite Forall_forall in Hok. by apply revision_bytes_inj; apply Hok. }
  rewrite (distinct_map_same (fun e => mkInodeRef (ie_FSID e) (ie_Inode e)) (fun e => (ie_FSID e, ie_Inode e)))
    by (intros x y _ _; split; congruence).
  by destruct edges.
Qed.

(** Two revisions of one inode and one manifest referring to the same blob. *)
Definition example_blob : ID := repeat x01 32.

Lemma RebuildReferenceCounts_spec_witness :
  RebuildReferenceCounts [mkManifestEdge example_blob (repeat x02 32)]
    [mkInodeEdge example_blob 1 42 1; mkInodeEdge example_blob 1 42 2] 9 !! example_blob =
  Some (mkReferenceCountRecord 3 1 2 1 0 9).
Proof.
  etransitivity; [apply RebuildReferenceCounts_spec | vm_compute; reflexivity].
  repeat constructor; vm_compute; discriminate.
Defined.
