(* ===== verification/Graph.v ===== *)
(** * The directory graph ([ValidateDirectoryGraph], [ResolveSnapshotRoot] in
    [internal/index/schema/validation.go])

    A snapshot's directories refer to each other by revision keys. The validator
    checks each reference and then walks the graph depth first with the usual
    three colours; the theorems show that it accepts exactly the rooted trees. *)
From stdpp Require Import base list numbers strings gmap relations.
From Stdlib Require Import ZArith Lia.
From coqutil Require Import Datatypes.RecordSetters.
From S2P Require Import Prelude Codec Keys KeyParse KeySpec KeyTheory KeySound.
Import Spec.
From S2P Require Import InodeRecords SnapshotRecords References.
Import TriangleBracketNotations.

Record DirectoryNode := mkDirectoryNode { dn_Revision : Z; dn_Record : DirectoryRevision }.

Abbreviation directories_map := (gmap InodeRef DirectoryNode).

(** A loop over a list that stops at the first error. *)
Fixpoint fold_result {A S} (step : S -> A -> result S) (l : list A) (s : S) : result S :=
  match l with
  | [] => Ok s
  | x :: rest => let! s := step s x in fold_result step rest s
  end.

(** The maps the first loop builds: the parent of each directory seen as a child,
    and the directories below each directory. *)
Record links := mkLinks {
  parents : gmap InodeRef InodeRef;
  adjacency : gmap InodeRef (list InodeRef);
}.

Definition children_of (adj : gmap InodeRef (list InodeRef)) (node : InodeRef) : list InodeRef :=
  default [] (adj !! node).

Definition check_child (directories : directories_map) (parent : InodeRef) (l : links)
    (child : DirectoryChild) : result links :=
  if negb (dc_Type child =? NodeDirectory) then Ok l else
  match ParseKey (dc_MetadataKey child) with
  | Err _ => Err "invalid directory child reference"
  | Ok parsed =>
      do! guard (negb (kind_eqb (PK.Kind parsed) KeyDirectoryRevision) || (PK.Revision parsed =? 0))
            "invalid directory child reference";
      let childRef := mkInodeRef (PK.FSID parsed) (dc_Inode child) in
      do! guard (negb (ir_FSID childRef =? ir_FSID parent)) "directory child crosses filesystem boundary";
      match directories !! childRef with
      | None => Err "referenced directory revision is missing"
      | Some childNode =>
          do! guard (negb (dn_Revision childNode =? PK.Revision parsed))
                "referenced directory revision is missing";
          do! guard (negb (dr_ParentInode (dn_Record childNode) =? ir_Inode parent))
                "directory parent mismatch";
          do! guard (match parents l !! childRef with
                     | Some existing => negb (bool_decide (existing = parent))
                     | None => false
                     end) "conflicting directory parents";
          Ok (mkLinks (<[childRef := parent]> (parents l))
                (<[parent := children_of (adjacency l) parent ++ [childRef]]> (adjacency l)))
      end
  end.

Definition check_directory (directories : directories_map) (l : links) (entry : InodeRef * DirectoryNode)
  : result links :=
  let (parent, node) := entry in
  do! guard (dn_Revision node =? 0) "directory revision is zero";
  fold_result (check_child directories parent) (dr_Children (dn_Record node)) l.

(** The colours: 1 while a directory is being visited, 2 afterwards. *)
Fixpoint visit (fuel : nat) (adj : gmap InodeRef (list InodeRef)) (color : gmap InodeRef Z)
    (node : InodeRef) : result (gmap InodeRef Z) :=
  match fuel with
  | O => Err "out of fuel"
  | S fuel =>
      if bool_decide (color !! node = Some 1) then Err "directory cycle"
      else if bool_decide (color !! node = Some 2) then Ok color
      else
        let! color := fold_result (visit fuel adj) (children_of adj node) (<[node := 1]> color) in
        Ok (<[node := 2]> color)
  end.

(** [order] is the order in which the first loop meets the directories: the
    iteration order of a Go map is not specified. A visit never nests deeper than
    there are directories. *)
Definition ValidateDirectoryGraph (order : list (InodeRef * DirectoryNode)) (root : InodeRef)
    (directories : directories_map) : result unit :=
  match directories !! root with
  | None => Err "root directory is missing"
  | Some rootNode =>
      do! guard (negb (dr_ParentInode (dn_Record rootNode) =? 0)) "root parent must be zero";
      let! l := fold_result (check_directory directories) order (mkLinks ∅ ∅) in
      let! color := visit (S (base.size directories)) (adjacency l) ∅ root in
      guard (negb (Nat.eqb (base.size color) (base.size directories)))
        "directory graph contains unreachable nodes"
  end.

Definition ResolveSnapshotRoot (snapshot : SnapshotRecord) (revisions : gmap bytes bytes)
  : result DirectoryRevision :=
  if negb (is_zero_id (sn_LegacyTree snapshot))
  then Err "historical snapshot uses a legacy tree, not an inode revision"
  else
    let key := DirectoryRevisionKey (sn_RootFSID snapshot) (sn_RootInode snapshot) (sn_RootRevision snapshot) in
    match revisions !! key with
    | None => Err "snapshot root revision is missing"
    | Some encoded => UnmarshalDirectoryRevision encoded
    end.

(** ** Specification *)

(** The directory a child entry refers to. *)
Definition child_ref (child : DirectoryChild) : option InodeRef :=
  if dc_Type child =? NodeDirectory then
    match ParseKey (dc_MetadataKey child) with
    | Ok parsed => Some (mkInodeRef (PK.FSID parsed) (dc_Inode child))
    | Err _ => None
    end
  else None.

Definition subdirectories (directories : directories_map) (node : InodeRef) : list InodeRef :=
  match directories !! node with
  | Some n => omap child_ref (dr_Children (dn_Record n))
  | None => []
  end.

(** The child's key names the revision that the directory has in the snapshot, on
    the same file system, and that directory names the parent. *)
Definition child_ok (directories : directories_map) (parent : InodeRef) (child : DirectoryChild) : Prop :=
  dc_Type child = NodeDirectory ->
  exists parsed childNode,
    ParseKey (dc_MetadataKey child) = Ok parsed /\ PK.Kind parsed = KeyDirectoryRevision /\
    PK.Revision parsed <> 0 /\ PK.FSID parsed = ir_FSID parent /\
    directories !! mkInodeRef (PK.FSID parsed) (dc_Inode child) = Some childNode /\
    dn_Revision childNode = PK.Revision parsed /\
    dr_ParentInode (dn_Record childNode) = ir_Inode parent.

Definition directory_ok (directories : directories_map) (entry : InodeRef * DirectoryNode) : Prop :=
  dn_Revision entry.2 <> 0 /\ Forall (child_ok directories entry.1) (dr_Children (dn_Record entry.2)).

Definition edge (directories : directories_map) (parent child : InodeRef) : Prop :=
  child ∈ subdirectories directories parent.

(** The directories form a tree below the root. *)
Record directory_tree (root : InodeRef) (directories : directories_map) : Prop := {
  dt_root : exists n, directories !! root = Some n /\ dr_ParentInode (dn_Record n) = 0;
  dt_consistent : forall d n, directories !! d = Some n -> directory_ok directories (d, n);
  dt_reachable : forall d, is_Some (directories !! d) -> rtc (edge directories) root d;
  dt_acyclic : forall d, ~ tc (edge directories) d d;
}.

(** ** Depth-first search *)

Section Visit.

Variable adj : gmap InodeRef (list InodeRef).

Definition arc (n m : InodeRef) : Prop := m ∈ children_of adj n.

(** Finished directories: everything below them is finished and free of cycles. *)
Definition finished (color : gmap InodeRef Z) : Prop :=
  forall n, color !! n = Some 2 ->
    (forall m, arc n m -> color !! m = Some 2) /\ Acc (fun m n => arc n m) n.

(** How a walk from one of [from] changes the colours. *)
Record walked (from : list InodeRef) (color color' : gmap InodeRef Z) : Prop := {
  wk_finished : finished color';
  wk_open : forall m, color' !! m = Some 1 <-> color !! m = Some 1;
  wk_kept : forall m, color !! m = Some 2 -> color' !! m = Some 2;
  wk_new : forall m, is_Some (color' !! m) -> is_Some (color !! m) \/ exists n, n ∈ from /\ rtc arc n m;
  wk_done : forall n, n ∈ from -> color' !! n = Some 2;
}.

Lemma walked_nil color : finished color -> walked [] color color.
Proof. intros H. split; auto; intros n Hn; by apply not_elem_of_nil in Hn. Qed.

Lemma walked_cons n l c c1 c2 : walked [n] c c1 -> walked l c1 c2 -> walked (n :: l) c c2.
Proof.
  intros [_ Ho1 Hk1 Hn1 Hd1] [Hf2 Ho2 Hk2 Hn2 Hd2]. split; [done|..].
  - intros m. by rewrite Ho2, Ho1.
  - auto.
  - intros m [[Hm|(x & ->%list_elem_of_singleton & Hx)]%Hn1|(x & Hx & Hr)]%Hn2; [auto|..].
    + right. exists n. split; [left|done].
    + right. exists x. split; [by right|done].
  - intros x [->|Hx]%elem_of_cons; [|auto]. apply Hk2, Hd1, list_elem_of_singleton. done.
Qed.

Lemma walked_fold (step : gmap InodeRef Z -> InodeRef -> result (gmap InodeRef Z)) l c c' :
  (forall c n c', step c n = Ok c' -> finished c -> walked [n] c c') ->
  fold_result step l c = Ok c' -> finished c -> walked l c c'.
Proof.
  intros Hstep. revert c. induction l as [|n l IH]; intros c; cbn [fold_result].
  - intros [= <-]. apply walked_nil.
  - intros (c1 & H1 & H2)%rbind_ok Hf. apply Hstep in H1; [|done].
    eapply walked_cons; [exact H1|]. apply IH; [done | apply H1].
Qed.

(** Opening and finishing a directory around the walk over its children. *)
Lemma walked_node c n c' :
  c !! n <> Some 1 -> c !! n <> Some 2 -> finished c ->
  walked (children_of adj n) (<[n := 1]> c) c' -> walked [n] c (<[n := 2]> c').
Proof.
  intros Hn1 Hn2 Hf [Hf' Ho Hk Hnew Hd].
  assert (c' !! n = Some 1) as Hopen by (apply Ho, lookup_insert_eq).
  assert (forall m, c' !! m = Some 2 -> <[n := 2]> c' !! m = Some 2) as Hstill.
  { intros m Hm. destruct (decide (m = n)) as [->|]; [apply lookup_insert_eq | by rewrite lookup_insert_ne]. }
  split.
  - intros x. destruct (decide (x = n)) as [->|Hx].
    + intros _. split; [auto|]. constructor. intros m Hm. by apply Hf', Hd.
    + rewrite lookup_insert_ne by done. intros [Hs Ha]%Hf'. auto.
  - intros m. destruct (decide (m = n)) as [->|Hm]; [rewrite lookup_insert_eq; by split|].
    rewrite lookup_insert_ne, Ho by done. by rewrite lookup_insert_ne.
  - intros m Hm. apply Hstill, Hk. rewrite lookup_insert_ne; congruence.
  - intros m. destruct (decide (m = n)) as [->|Hm]; [right; exists n; split; [left|done]|].
    rewrite lookup_insert_ne by done. intros [H|(x & Hx & Hr)]%Hnew.
    + rewrite lookup_insert_ne in H by done. auto.
    + right. exists n. split; [left|]. by apply rtc_l with x.
  - intros x ->%list_elem_of_singleton. apply lookup_insert_eq.
Qed.

Lemma finished_open c n : finished c -> c !! n <> Some 2 -> finished (<[n := 1]> c).
Proof.
  intros Hf Hn m. destruct (decide (m = n)) as [->|Hm]; [by rewrite lookup_insert_eq|].
  rewrite lookup_insert_ne by done. intros [Hs Ha]%Hf. split; [|done].
  intros x Hx. destruct (decide (x = n)) as [->|]; [by apply Hs in Hx|].
  rewrite lookup_insert_ne by done. auto.
Qed.

Lemma visit_walked fuel c n c' : visit fuel adj c n = Ok c' -> finished c -> walked [n] c c'.
Proof.
  revert c n c'. induction fuel as [|fuel IH]; intros c n c'; cbn [visit]; [done|].
  case_bool_decide as H1; [done|]. case_bool_decide as H2.
  { intros [= <-] Hf. split; auto. by intros x ->%list_elem_of_singleton. }
  intros (c1 & Hc1 & [= <-])%rbind_ok Hf. apply walked_node; [done..|].
  apply (walked_fold (visit fuel adj)); [exact IH | done | by apply finished_open].
Qed.

(** Nodes to visit, and the nodes being visited, outermost last. *)
Variable nodes : gset InodeRef.
Hypothesis closed : forall n m, n ∈ nodes -> arc n m -> m ∈ nodes.
Hypothesis acyclic : forall n, ~ tc arc n n.

Record stack (color : gmap InodeRef Z) (open : list InodeRef) : Prop := {
  st_open : forall m, color !! m = Some 1 <-> m ∈ open;
  st_distinct : NoDup open;
  st_nodes : forall m, m ∈ open -> m ∈ nodes;
}.

Lemma stack_length color open : stack color open -> (length open <= base.size nodes)%nat.
Proof.
  intros [_ Hd Hn]. rewrite <- (size_list_to_set (C := gset InodeRef)) by done.
  apply subseteq_size. intros m. rewrite elem_of_list_to_set. apply Hn.
Qed.

Lemma stack_push color open n :
  stack color open -> n ∈ nodes -> color !! n <> Some 1 -> stack (<[n := 1]> color) (n :: open).
Proof.
  intros [Ho Hd Hn] Hin Hc. split.
  - intros m. rewrite elem_of_cons. destruct (decide (m = n)) as [->|].
    + rewrite lookup_insert_eq. tauto.
    + rewrite lookup_insert_ne, Ho by done. tauto.
  - constructor; [by rewrite <- Ho | done].
  - intros m [->|Hm]%elem_of_cons; auto.
Qed.

Lemma fold_visits (step : gmap InodeRef Z -> InodeRef -> result (gmap InodeRef Z)) l c open :
  (forall c n c', step c n = Ok c' -> finished c -> walked [n] c c') ->
  (forall c n, n ∈ l -> stack c open -> finished c -> exists c', step c n = Ok c') ->
  stack c open -> finished c -> exists c', fold_result step l c = Ok c'.
Proof.
  intros Hw. revert c. induction l as [|n l IH]; intros c Hex Hs Hf; cbn [fold_result]; [by eexists|].
  destruct (Hex c n ltac:(left) Hs Hf) as [c1 Hc1]. rewrite Hc1. cbn [rbind].
  destruct (Hw _ _ _ Hc1 Hf) as [Hf1 Ho1 _ _ _]. apply IH; [|..|done].
  - intros c2 m Hm. apply Hex. by right.
  - destruct Hs as [Ho Hd Hn]. split; [|done..]. intros m. by rewrite Ho1.
Qed.

Lemma visit_succeeds fuel c n open :
  stack c open -> finished c -> n ∈ nodes -> (forall m, m ∈ open -> tc arc m n) ->
  (base.size nodes < fuel + length open)%nat -> exists c', visit fuel adj c n = Ok c'.
Proof.
  revert c n open. induction fuel as [|fuel IH]; intros c n open Hs Hf Hn Hup Hfuel.
  { apply stack_length in Hs. lia. }
  cbn [visit]. case_bool_decide as H1.
  { apply (st_open _ _ Hs) in H1. by apply Hup, acyclic in H1. }
  case_bool_decide as H2; [by eexists|].
  destruct (fold_visits (visit fuel adj) (children_of adj n) (<[n := 1]> c) (n :: open)) as [c' Hc'].
  - intros ? ? ?. apply visit_walked.
  - intros c1 m Hm Hs1 Hf1. apply (IH c1 m (n :: open)); [done | done | | |].
    + by apply (closed n).
    + intros x [->|Hx%Hup]%elem_of_cons; [by apply tc_once | by apply tc_r with n].
    + cbn [length]. lia.
  - by apply stack_push.
  - by apply finished_open.
  - rewrite Hc'. by eexists.
Qed.

End Visit.

(** ** The references *)

Section Links.

Variable directories : directories_map.

(** A recorded parent is the one the child itself names. *)
Definition parents_agree (l : links) : Prop :=
  forall c p, parents l !! c = Some p -> ir_FSID p = ir_FSID c /\
    exists n, directories !! c = Some n /\ dr_ParentInode (dn_Record n) = ir_Inode p.

(** The effect of an accepted child. *)
Definition link_child (parent : InodeRef) (l : links) (child : DirectoryChild) : links :=
  match child_ref child with
  | Some c => mkLinks (<[c := parent]> (parents l))
                (<[parent := children_of (adjacency l) parent ++ [c]]> (adjacency l))
  | None => l
  end.

(** A child that passes the other checks never conflicts with a recorded parent:
    both are the parent that the child directory names. *)
Lemma no_conflict l parent c n :
  parents_agree l -> directories !! c = Some n -> ir_FSID c = ir_FSID parent ->
  dr_ParentInode (dn_Record n) = ir_Inode parent ->
  match parents l !! c with Some existing => negb (bool_decide (existing = parent)) | None => false end = false.
Proof.
  intros Ha Hc Hfs Hp. destruct (parents l !! c) as [e|] eqn:E; [|done].
  apply Ha in E as (Hfe & n' & Hn' & Hpe). assert (n' = n) as -> by congruence.
  rewrite bool_decide_true; [done|]. destruct e, parent. cbn in *. congruence.
Qed.

Lemma check_child_iff parent l child l' :
  parents_agree l ->
  check_child directories parent l child = Ok l' <->
  child_ok directories parent child /\ l' = link_child parent l child.
Proof.
  intros Ha. unfold check_child, child_ok, link_child, child_ref.
  destruct (Z.eqb_spec (dc_Type child) NodeDirectory) as [Et|Et]; cbn [negb].
  2: { split; [intros [= <-] | intros [_ ->]]; done. }
  split.
  - destruct (ParseKey _) as [parsed|] eqn:Ep; [|done]. intros H. inv_results.
    destruct (directories !! _) as [childNode|] eqn:Ec; [|done]. inv_results. split_bools. cbn in *.
    split; [|done]. intros _. exists parsed, childNode.
    match goal with K : kind_eqb _ _ = true |- _ => apply bool_decide_eq_true in K end.
    split_and!; done.
  - intros [Hok ->]. destruct (Hok Et) as (parsed & childNode & -> & Hk & Hr & Hfs & Hc & Hrev & Hpar).
    cbn [ir_FSID]. unfold kind_eqb. rewrite (bool_decide_true _ Hk), (proj2 (Z.eqb_neq _ _) Hr).
    rewrite (proj2 (Z.eqb_eq _ _) Hfs). cbn [negb orb guard rbind]. rewrite Hc.
    rewrite (proj2 (Z.eqb_eq _ _) Hrev), (proj2 (Z.eqb_eq _ _) Hpar). cbn [negb guard rbind].
    by rewrite (no_conflict l parent _ childNode Ha Hc).
Qed.

Lemma link_child_agree parent l child :
  parents_agree l -> child_ok directories parent child -> parents_agree (link_child parent l child).
Proof.
  intros Ha Hok. unfold link_child, child_ref.
  destruct (Z.eqb_spec (dc_Type child) NodeDirectory) as [Et|]; [|done].
  destruct (Hok Et) as (parsed & n & -> & _ & _ & Hfs & Hc & _ & Hpar).
  intros c p. cbn. destruct (decide (c = mkInodeRef (PK.FSID parsed) (dc_Inode child))) as [->|].
  - rewrite lookup_insert_eq. intros [= <-]. cbn. eauto.
  - rewrite lookup_insert_ne by done. apply Ha.
Qed.

(** Both loops check every child and record it. *)
Lemma check_children_iff parent children l l' :
  parents_agree l ->
  fold_result (check_child directories parent) children l = Ok l' <->
  Forall (child_ok directories parent) children /\ l' = foldl (link_child parent) l children.
Proof.
  revert l. induction children as [|child children IH]; intros l Ha; cbn [fold_result foldl].
  { split; [by intros [= <-] | by intros [_ ->]]. }
  rewrite rbind_ok, Forall_cons. split.
  - intros (l1 & [Hc ->]%check_child_iff & [Hf ->]%IH); [done|by apply link_child_agree|done].
  - intros [[Hc Hf] ->]. exists (link_child parent l child).
    rewrite check_child_iff, IH by auto using link_child_agree. done.
Qed.

Lemma link_children_agree parent children l :
  parents_agree l -> Forall (child_ok directories parent) children ->
  parents_agree (foldl (link_child parent) l children).
Proof. intros Ha Hc. revert l Ha. induction Hc as [|child rest]; intros l Ha; cbn [foldl]; auto using link_child_agree. Qed.

Definition link_directory (l : links) (entry : InodeRef * DirectoryNode) : links :=
  foldl (link_child entry.1) l (dr_Children (dn_Record entry.2)).

Lemma check_directories_iff order l l' :
  parents_agree l ->
  fold_result (check_directory directories) order l = Ok l' <->
  Forall (directory_ok directories) order /\ l' = foldl link_directory l order.
Proof.
  revert l. induction order as [|[p n] order IH]; intros l Ha; cbn [fold_result foldl].
  { split; [by intros [= <-] | by intros [_ ->]]. }
  unfold check_directory at 1. rewrite rbind_ok, Forall_cons. unfold directory_ok at 1. cbn [fst snd]. split.
  - intros (l1 & ([] & Hg%guard_ok & Hc)%rbind_ok & H2). apply check_children_iff in Hc as [Hc ->]; [|done].
    apply IH in H2 as [Hf ->]; [|by apply link_children_agree]. apply Z.eqb_neq in Hg. by split_and!.
  - intros [[[Hr Hc] Hf] ->]. exists (link_directory l (p, n)).
    rewrite (proj2 (Z.eqb_neq _ _) Hr). cbn [guard rbind].
    split; [by apply check_children_iff|]. apply IH; [by apply link_children_agree | done].
Qed.

End Links.

(** ** What the first loop builds *)

Lemma link_child_adjacency parent l child p :
  children_of (adjacency (link_child parent l child)) p =
  children_of (adjacency l) p ++ (if decide (p = parent) then option_list (child_ref child) else []).
Proof.
  unfold link_child, children_of. destruct (child_ref child) as [c|]; cbn.
  - destruct (decide (p = parent)) as [->|]; [by rewrite lookup_insert_eq|].
    by rewrite lookup_insert_ne, app_nil_r.
  - case_decide; by rewrite app_nil_r.
Qed.

Lemma link_children_adjacency parent children l p :
  children_of (adjacency (foldl (link_child parent) l children)) p =
  children_of (adjacency l) p ++ (if decide (p = parent) then omap child_ref children else []).
Proof.
  revert l. induction children as [|child children IH]; intros l; cbn [foldl].
  { case_decide; cbn; by rewrite app_nil_r. }
  rewrite IH, link_child_adjacency. case_decide; [|by rewrite !app_nil_r].
  rewrite <- app_assoc. f_equal. cbn. by destruct (child_ref child).
Qed.

Lemma link_directories_adjacency order l p :
  NoDup order.*1 ->
  children_of (adjacency (foldl link_directory l order)) p =
  children_of (adjacency l) p ++
    match (list_to_map order : directories_map) !! p with
    | Some n => omap child_ref (dr_Children (dn_Record n))
    | None => []
    end.
Proof.
  revert l. induction order as [|[q n] order IH]; intros l Hd; cbn [foldl].
  { cbn. by rewrite app_nil_r. }
  inversion Hd as [|? ? Hq Hd']; subst. rewrite IH by done. unfold link_directory at 1. cbn [fst snd].
  rewrite link_children_adjacency. cbn [list_to_map foldr fst snd].
  destruct (decide (p = q)) as [->|].
  - rewrite lookup_insert_eq, (not_elem_of_list_to_map_1 order q Hq). by rewrite app_nil_r.
  - rewrite lookup_insert_ne by done. by rewrite app_nil_r.
Qed.

(** After the first loop the adjacency lists are those of the directories. *)
Lemma adjacency_subdirectories directories order p :
  order ≡ₚ map_to_list directories ->
  children_of (adjacency (foldl link_directory (mkLinks ∅ ∅) order)) p = subdirectories directories p.
Proof.
  intros Ho. assert (NoDup order.*1) as Hd by (rewrite Ho; apply NoDup_fst_map_to_list).
  rewrite link_directories_adjacency by done. unfold subdirectories.
  rewrite (list_to_map_proper _ _ Hd Ho), list_to_map_to_list. done.
Qed.

(** ** The validator *)

Lemma acc_acyclic (R : InodeRef -> InodeRef -> Prop) n : Acc (fun m n => R n m) n -> ~ tc R n n.
Proof.
  induction 1 as [n _ IH]. intros Hc. inversion Hc as [? ? Hn|? y ? Hn Hy]; subst.
  - by apply (IH n Hn).
  - apply (IH y Hn). by apply tc_r with n.
Qed.

Lemma finished_reachable adj color n m :
  finished adj color -> color !! n = Some 2 -> rtc (arc adj) n m -> color !! m = Some 2.
Proof. intros Hf Hn Hr. induction Hr as [|x y z Hxy _ IH]; [done|]. apply IH. by apply (Hf x). Qed.

(** A reference names an existing directory, which names its parent. *)
Lemma edge_parent directories p c :
  (forall d n, directories !! d = Some n -> directory_ok directories (d, n)) ->
  edge directories p c ->
  is_Some (directories !! p) /\ ir_FSID p = ir_FSID c /\
  exists n, directories !! c = Some n /\ dr_ParentInode (dn_Record n) = ir_Inode p.
Proof.
  intros Hok. unfold edge, subdirectories. destruct (directories !! p) as [n|] eqn:Hp; [|by intros ?%not_elem_of_nil].
  intros (child & Hin & Href)%list_elem_of_omap. destruct (Hok p n Hp) as [_ Hch].
  apply (proj1 (Forall_forall _ _) Hch) in Hin. unfold child_ref in Href.
  destruct (Z.eqb_spec (dc_Type child) NodeDirectory) as [Et|]; [|done].
  destruct (Hin Et) as (parsed & cn & Hpk & _ & _ & Hfs & Hc & _ & Hpar). rewrite Hpk in Href.
  injection Href as <-. split_and!; eauto.
Qed.

Lemma edge_target directories p c :
  (forall d n, directories !! d = Some n -> directory_ok directories (d, n)) ->
  edge directories p c -> is_Some (directories !! p) /\ is_Some (directories !! c).
Proof. intros Hok (Hp & _ & n & Hc & _)%edge_parent; [split; eauto|done]. Qed.

Lemma reachable_target directories root d :
  (forall d n, directories !! d = Some n -> directory_ok directories (d, n)) ->
  is_Some (directories !! root) -> rtc (edge directories) root d -> is_Some (directories !! d).
Proof. intros Hok Hr H. induction H as [|x y z Hxy _ IH]; [done|]. by apply IH, (edge_target _ x y). Qed.

(** What a successful walk from the root says of the directories. *)
Lemma walk_from_root adj directories root color :
  (forall p c, arc adj p c <-> edge directories p c) ->
  (forall d n, directories !! d = Some n -> directory_ok directories (d, n)) ->
  is_Some (directories !! root) -> walked adj [root] ∅ color ->
  dom color ⊆ dom directories /\
  (forall d, rtc (edge directories) root d <-> d ∈ dom color) /\
  (forall d, d ∈ dom color -> ~ tc (edge directories) d d).
Proof.
  intros Harc Hok Hroot [Hf _ _ Hnew Hd].
  assert (forall x y, rtc (arc adj) x y <-> rtc (edge directories) x y) as Hrtc
    by (intros x y; split; intros H; eapply rtc_subrel; try exact H; intros ? ?; apply Harc).
  assert (forall d, d ∈ dom color -> rtc (edge directories) root d) as Hin.
  { intros d [[? [=]]|(x & ->%list_elem_of_singleton & Hx)]%elem_of_dom%Hnew. by apply Hrtc. }
  assert (forall d, rtc (edge directories) root d -> color !! d = Some 2) as Hout.
  { intros d Hr%Hrtc. apply (finished_reachable adj color root); [done| |done].
    apply Hd. by apply list_elem_of_singleton. }
  split_and!.
  - intros d Hc%Hin. apply elem_of_dom. by apply (reachable_target _ root).
  - intros d. split; [|apply Hin]. intros Hr%Hout. by apply elem_of_dom_2 in Hr.
  - intros d [_ Ha]%Hin%Hout%Hf. intros Hc. apply (acc_acyclic _ _ Ha).
    apply (tc_congruence (R := edge directories) (fun x => x) (arc adj) d d); [|done]. intros ? ?. apply Harc.
Qed.

Lemma all_directories directories order :
  order ≡ₚ map_to_list directories ->
  (forall d n, directories !! d = Some n -> directory_ok directories (d, n)) ->
  Forall (directory_ok directories) order.
Proof.
  intros Ho Hall. apply Forall_forall. intros [d n] Hd. rewrite Ho in Hd.
  apply Hall. by apply elem_of_map_to_list.
Qed.

(** The fuel is enough: the walk below the root of a tree succeeds. *)
Lemma visit_root adj directories root :
  (forall p c, arc adj p c <-> edge directories p c) ->
  (forall d n, directories !! d = Some n -> directory_ok directories (d, n)) ->
  is_Some (directories !! root) -> (forall d, ~ tc (edge directories) d d) ->
  exists color, visit (S (base.size directories)) adj ∅ root = Ok color.
Proof.
  intros Harc Hall Hroot Hacyc.
  apply (visit_succeeds adj (dom directories)) with (open := []).
  - intros n m _ Hm. apply elem_of_dom. by apply Harc, (edge_target _ _ _ Hall) in Hm as [_ ?].
  - intros n Hc. apply (Hacyc n).
    apply (tc_congruence (R := arc adj) (fun x => x) (edge directories) n n); [|done]. intros ? ?. apply Harc.
  - split; [|constructor|]; intros m; [|by intros ?%not_elem_of_nil].
    rewrite lookup_empty. split; [done | by intros ?%not_elem_of_nil].
  - by intros n [=].
  - by apply elem_of_dom.
  - by intros m ?%not_elem_of_nil.
  - rewrite size_dom. cbn. lia.
Qed.

Lemma validate_iff order root directories :
  order ≡ₚ map_to_list directories ->
  ValidateDirectoryGraph order root directories = Ok tt <-> directory_tree root directories.
Proof.
  intros Ho. unfold ValidateDirectoryGraph.
  destruct (directories !! root) as [rootNode|] eqn:Hr.
  2: { split; [done|]. intros [(n & Hn & _) _ _ _]. congruence. }
  assert (forall p c, arc (adjacency (foldl link_directory (mkLinks ∅ ∅) order)) p c <-> edge directories p c) as Harc
    by (intros p c; unfold arc, edge; by rewrite (adjacency_subdirectories directories)).
  assert (parents_agree directories (mkLinks ∅ ∅)) as Hagree by (intros c p [=]).
  assert (is_Some (directories !! root)) as Hroot by done.
  split.
  - intros ([] & Hpar%guard_ok & (l & Hl & (color & Hv & Hsize)%rbind_ok)%rbind_ok)%rbind_ok.
    apply check_directories_iff in Hl as [Hok ->]; [|done].
    assert (forall d n, directories !! d = Some n -> directory_ok directories (d, n)) as Hall.
    { intros d n Hd%elem_of_map_to_list. rewrite <- Ho in Hd. exact (proj1 (Forall_forall _ _) Hok _ Hd). }
    apply visit_walked in Hv; [|by intros n [=]].
    destruct (walk_from_root _ directories root color Harc Hall Hroot Hv) as (Hsub & Hreach & Hacyc).
    assert (dom color = dom directories) as Hdom.
    { apply set_subseteq_size_eq; [done|]. rewrite !size_dom.
      apply guard_ok, negb_false_iff, Nat.eqb_eq in Hsize. lia. }
    split; [|done|..].
    + exists rootNode. split; [done|]. by apply negb_false_iff, Z.eqb_eq in Hpar.
    + intros d Hd%elem_of_dom. apply Hreach. by rewrite Hdom.
    + intros d Hc. apply (Hacyc d); [|done]. rewrite Hdom. apply elem_of_dom.
      inversion Hc as [? ? He|? ? ? He]; subst; by apply (edge_target _ _ _ Hall He).
  - intros [(n & Hn & Hp) Hall Hreach Hacyc]. assert (n = rootNode) as -> by congruence.
    rewrite (proj2 (Z.eqb_eq _ _) Hp). cbn [negb guard rbind].
    rewrite (proj2 (check_directories_iff directories order _ _ Hagree)
               (conj (all_directories _ _ Ho Hall) eq_refl)). cbn [rbind].
    destruct (visit_root _ directories root Harc Hall Hroot Hacyc) as [color Hv].
    rewrite Hv. cbn [rbind]. apply visit_walked in Hv; [|by intros n' [=]].
    destruct (walk_from_root _ directories root color Harc Hall Hroot Hv) as (Hsub & Hin & _).
    apply guard_ok, negb_false_iff, Nat.eqb_eq. rewrite <- !size_dom. f_equal.
    apply leibniz_equiv, (anti_symm (⊆)); [done|].
    intros d Hd. apply Hin, Hreach. by apply elem_of_dom.
Qed.

Lemma tree_parents root directories :
  directory_tree root directories ->
  (forall p, ~ edge directories p root) /\
  forall d, is_Some (directories !! d) -> d <> root ->
    exists p, edge directories p d /\ forall q, edge directories q d -> q = p.
Proof.
  intros [_ Hall Hreach Hacyc]. split.
  - intros p He. destruct (edge_target _ _ _ Hall He) as [Hp%Hreach _].
    apply (Hacyc root). by apply tc_rtc_l with p; [|apply tc_once].
  - intros d Hd%Hreach Hne. apply rtc_inv_r in Hd as [<-|(p & _ & He)]; [done|].
    exists p. split; [done|]. intros q Hq.
    destruct (edge_parent _ _ _ Hall He) as (_ & Hf1 & n1 & Hn1 & Hp1).
    destruct (edge_parent _ _ _ Hall Hq) as (_ & Hf2 & n2 & Hn2 & Hp2).
    destruct p, q. cbn in *. assert (n1 = n2) by congruence. congruence.
Qed.

(** ** Snapshot roots *)

Lemma directory_key_inj fsid inode revision fsid' inode' revision' :
  uint32 fsid -> uint64 inode -> uint64 revision -> uint32 fsid' -> uint64 inode' -> uint64 revision' ->
  DirectoryRevisionKey fsid inode revision = DirectoryRevisionKey fsid' inode' revision' ->
  (fsid, inode, revision) = (fsid', inode', revision').
Proof.
  intros H1 H2 H3 H4 H5 H6 E. apply (app_inv_head (str "dv:")) in E.
  apply be_app_inj in E as [-> E]; [|range..]. apply be_app_inj in E as [-> E]; [|range..].
  apply be_inj in E as ->; [done|range..].
Qed.

(** A later write: of a current-directory pointer, or of another revision. *)
Inductive later_write (s : SnapshotRecord) : bytes -> Prop :=
| write_pointer fsid inode : later_write s (CurrentDirectoryKey fsid inode)
| write_revision fsid inode revision :
    uint32 fsid -> uint64 inode -> uint64 revision ->
    (fsid, inode, revision) <> (sn_RootFSID s, sn_RootInode s, sn_RootRevision s) ->
    later_write s (DirectoryRevisionKey fsid inode revision).

Lemma later_write_key s k :
  uint32 (sn_RootFSID s) -> uint64 (sn_RootInode s) -> uint64 (sn_RootRevision s) -> later_write s k ->
  k <> DirectoryRevisionKey (sn_RootFSID s) (sn_RootInode s) (sn_RootRevision s).
Proof.
  intros H1 H2 H3 [fsid inode|fsid inode revision Hf Hi Hr Hne].
  - autounfold with keys. cbn -[be]. discriminate.
  - intros E. by apply directory_key_inj in E.
Qed.

Lemma resolve_later s revisions writes :
  uint32 (sn_RootFSID s) -> uint64 (sn_RootInode s) -> uint64 (sn_RootRevision s) ->
  Forall (fun w => later_write s w.1) writes ->
  ResolveSnapshotRoot s (foldl (fun m w => <[w.1 := w.2]> m) revisions writes) =
  ResolveSnapshotRoot s revisions.
Proof.
  intros H1 H2 H3 Hw. revert revisions.
  induction Hw as [|w writes Hk _ IH]; intros revisions; cbn [foldl]; [done|].
  apply later_write_key in Hk; [|done..].
  rewrite IH. unfold ResolveSnapshotRoot. by rewrite lookup_insert_ne.
Qed.

(** C24. In whatever order the directories are met, the validator accepts exactly the
    graphs whose root has no parent inode, in which no revision is zero, whose every
    reference to a subdirectory names, on the same file system, the revision that
    directory has and is
    confirmed by that directory's parent inode, in which every directory can be
    reached from the root, and which have no cycle. *)
Theorem ValidateDirectoryGraph_spec order root directories :
  order ≡ₚ map_to_list directories ->
  ValidateDirectoryGraph order root directories = Ok tt <-> directory_tree root directories.
Proof. apply validate_iff. Qed.

(** An accepted graph is a tree: no directory contains the root, and every
    other directory is contained in exactly one directory. *)
Theorem ValidateDirectoryGraph_tree order root directories :
  order ≡ₚ map_to_list directories -> ValidateDirectoryGraph order root directories = Ok tt ->
  (forall p, ~ edge directories p root) /\
  forall d, is_Some (directories !! d) -> d <> root ->
    exists p, edge directories p d /\ forall q, edge directories q d -> q = p.
Proof. intros Ho H. by apply tree_parents, (validate_iff order). Qed.

(** A snapshot resolves to the root directory stored under its root revision,
    and keeps doing so whatever current-directory pointers and other directory
    revisions are written later. *)
Theorem ResolveSnapshotRoot_immutable s revisions writes r b :
  is_zero_id (sn_LegacyTree s) = true ->
  uint32 (sn_RootFSID s) -> uint64 (sn_RootInode s) -> uint64 (sn_RootRevision s) ->
  DirectoryRevision_ok r -> DirectoryRevision_MarshalBinary r = Ok b ->
  revisions !! DirectoryRevisionKey (sn_RootFSID s) (sn_RootInode s) (sn_RootRevision s) = Some b ->
  Forall (fun w => later_write s w.1) writes ->
  ResolveSnapshotRoot s (foldl (fun m w => <[w.1 := w.2]> m) revisions writes) = Ok (directory_sorted r).
Proof.
  intros Hz H1 H2 H3 Hok Hm Hb Hw. rewrite resolve_later by done.
  unfold ResolveSnapshotRoot. rewrite Hz. cbn [negb]. rewrite Hb. exact (round_trip r b Hok Hm).
Qed.

(** A root directory with one subdirectory. *)
Definition example_directories : directories_map :=
  let plain parent children := mkDirectoryRevision parent children 0 0 0 0 0 0 0 [] 1 in
  <[mkInodeRef 1 2 := mkDirectoryNode 5
      (plain 0 [mkDirectoryChild (str "etc") 9 NodeDirectory (DirectoryRevisionKey 1 9 6)])]>
  {[mkInodeRef 1 9 := mkDirectoryNode 6 (plain 2 [])]}.

Lemma ValidateDirectoryGraph_spec_witness : directory_tree (mkInodeRef 1 2) example_directories.
Proof.
  apply (ValidateDirectoryGraph_spec (map_to_list example_directories)); [done|].
  vm_compute. reflexivity.
Defined.

Lemma ValidateDirectoryGraph_tree_witness :
  (forall p, ~ edge example_directories p (mkInodeRef 1 2)) /\
  forall d, is_Some (example_directories !! d) -> d <> mkInodeRef 1 2 ->
    exists p, edge example_directories p d /\ forall q, edge example_directories q d -> q = p.
Proof.
  apply (ValidateDirectoryGraph_tree (map_to_list example_directories)); [done|].
  vm_compute. reflexivity.
Defined.

Definition example_snapshot : SnapshotRecord := mkSnapshotRecord 1 1 2 5 [] zero_id zero_id.
Definition example_root : DirectoryRevision := mkDirectoryRevision 0 [] 0 0 0 0 0 0 0 [] FreshnessVerified.

Lemma ResolveSnapshotRoot_immutable_witness :
  ResolveSnapshotRoot example_snapshot
    (foldl (fun m w => <[w.1 := w.2]> m)
       {[DirectoryRevisionKey 1 2 5 := z2b Version :: wires (directory_base_fields example_root ++ directory_metadata_fields example_root)]}
       [(CurrentDirectoryKey 1 2, str "x"); (DirectoryRevisionKey 1 2 6, str "y")]) = Ok example_root.
Proof.
  apply (ResolveSnapshotRoot_immutable example_snapshot _ _ example_root
           (z2b Version :: wires (directory_base_fields example_root ++ directory_metadata_fields example_root))).
  - vm_compute. reflexivity.
  - vm_compute; split; (discriminate || reflexivity).
  - vm_compute; split; (discriminate || reflexivity).
  - vm_compute; split; (discriminate || reflexivity).
  - repeat constructor; vm_compute; discriminate.
  - vm_compute. reflexivity.
  - reflexivity.
  - repeat constructor; cbn; (discriminate || range || idtac).
Defined.
