(* ===== verification/RecordProps.v ===== *)
(** * Properties of single records

    Formats that older writers left behind, and records that are written but
    cannot be read back. *)
From stdpp Require Import base list numbers strings.
From Stdlib Require Import ZArith Lia.
From coqutil Require Import Datatypes.RecordSetters.
From S2P Require Import Prelude Codec Keys KeyParse Records InodeRecords MetaRecords SnapshotRecords Validate.
Import TriangleBracketNotations.

(** ** Pack records of every format *)

(** A pack record as the first format stored it: the size is known when it is not
    zero, and there is no tier, retention or usage information. *)
Definition first_format (r : PackRecord) : Prop :=
  pk_PhysicalSizeKnown r = negb (pk_PhysicalSize r =? 0) /\
  pk_Tier r = TierUnknown /\ pk_StorageClass r = [] /\ pk_MinRetentionUntil r = 0 /\
  pk_RetentionSource r = RetentionUnknown /\ pk_UsedPayloadBytes r = 0 /\
  pk_UnusedPayloadBytes r = 0 /\ pk_UsageKnown r = false /\ pk_DeleteAfter r = 0.

Lemma read_first_format r b :
  PackRecord_ok r -> first_format r -> PackRecord_validate r = Ok tt ->
  encode (PackRecord_base_fields r) = Ok b -> UnmarshalPackRecord b = Ok r.
Proof.
  intros Hok Hff Hv H. unfold PackRecord_ok, PackRecord_base_fields in *. destruct_and?.
  encoded H.
  match goal with Hids : Forall id_ok _ |- _ =>
    pose proof (wires_concat_length _ _ 32 _ id_size Hids) as Hsize end.
  assert (uint32 (zlen (pk_SourceIndexIDs r))) by sizes.
  unfold UnmarshalPackRecord. start_decoder. cbn [app]. read_fields. decide_guard.
  rewrite (many_round_trip_end _ (fun id => [IDf id]) id_ok) by auto using read_id_wires. cbn [rbind].
  repeat (match goal with |- context [Decoder.more ?d] => change (Decoder.more d) with false end; cbn [rbind]).
  unfold first_format in Hff. destruct r; cbn in *. destruct_and?. subst. by rewrite Hv.
Qed.

(** What the pack decoder accepts is the current encoding of the record it
    returns, or that encoding cut off where an older writer stopped: before the
    tier fields, or before the size flag as well. The record is well typed, in
    normal form and valid, and the fields that are missing have their defaults. *)
Theorem PackRecord_formats b r :
  UnmarshalPackRecord b = Ok r ->
  PackRecord_ok r /\ PackRecord_normalized r = r /\ is_ok (PackRecord_validate r) = true /\
  exists missing, In missing (PackRecord_missing r) /\
    z2b Version :: wires (PackRecord_fields r) = b ++ wires missing.
Proof. apply PackRecord_prefix. Qed.

(** Records of the first format, which lack the size flag and all tier fields,
    are still read, with the defaults for what they lack. *)
Theorem PackRecord_first_format r b :
  PackRecord_ok r -> first_format r -> PackRecord_validate r = Ok tt ->
  encode (PackRecord_base_fields r) = Ok b -> UnmarshalPackRecord b = Ok r.
Proof. apply read_first_format. Qed.

(** A published data pack of 100 bytes. *)
Definition old_pack : PackRecord :=
  mkPackRecord PackData 100 90 10 3 true 0 false PackPublished [] TierUnknown [] 0 RetentionUnknown 0 0 false 0.
Definition old_pack_value : bytes := z2b Version :: wires (PackRecord_base_fields old_pack).

Lemma PackRecord_first_format_witness : UnmarshalPackRecord old_pack_value = Ok old_pack.
Proof.
  apply PackRecord_first_format.
  - repeat constructor; vm_compute; (discriminate || done).
  - repeat constructor.
  - vm_compute. reflexivity.
  - vm_compute. reflexivity.
Defined.

Lemma PackRecord_formats_witness :
  exists missing, In missing (PackRecord_missing old_pack) /\
    z2b Version :: wires (PackRecord_fields old_pack) = old_pack_value ++ wires missing.
Proof. apply (PackRecord_formats old_pack_value old_pack). vm_compute. reflexivity. Defined.

(** ** Records that cannot be read back *)

(** An inode with the same name in two directories. *)
Definition same_name_links : HardlinkRefsRecord :=
  mkHardlinkRefsRecord 1 42 7
    [mkHardlinkParentRef 10 (str "data.bin"); mkHardlinkParentRef 11 (str "data.bin")] FreshnessVerified.

(** An inode with four names of one letter each, in order. *)
Definition short_name_links : HardlinkRefsRecord :=
  mkHardlinkRefsRecord 1 42 7
    [mkHardlinkParentRef 10 (str "a"); mkHardlinkParentRef 10 (str "b");
     mkHardlinkParentRef 10 (str "c"); mkHardlinkParentRef 10 (str "d")] FreshnessVerified.

(** [HardlinkRefsRecord.MarshalBinary] writes records that
    [UnmarshalHardlinkRefsRecord] refuses: an inode linked under the same name in
    two directories, in whichever order the links are listed, since names must
    strictly increase; and four one-letter names, since the decoder expects at
    least twenty bytes for each link and such a link takes thirteen. *)
Theorem HardlinkRefs_unreadable :
  let written_and_read r := let! b := HardlinkRefsRecord_MarshalBinary r in Ok (UnmarshalHardlinkRefsRecord b) in
  let reversed := same_name_links <| hr_Parents := rev (hr_Parents same_name_links) |> in
  written_and_read same_name_links = Ok (Err "hardlink parents are not uniquely sorted") /\
  written_and_read reversed = Ok (Err "hardlink parents are not uniquely sorted") /\
  written_and_read short_name_links = Ok (Err "invalid hardlink parent count").
Proof. vm_compute. done. Qed.

(** A request with one class more than the decoder admits. *)
Definition large_request : PlacementRequestRecord :=
  mkPlacementRequestRecord (repeat (str "c") 1025) PlacementRequestPlace 1 0 0 0 [].

(** [PlacementRequestRecord.MarshalBinary] writes any number of classes, but
    [UnmarshalPlacementRequestRecord] refuses more than 1024. *)
Theorem PlacementRequest_unreadable :
  (let! b := PlacementRequestRecord_MarshalBinary large_request in
   Ok (UnmarshalPlacementRequestRecord b)) = Ok (Err "invalid placement request class count").
Proof. vm_compute. reflexivity. Qed.

(** [ValidateValue] accepts values that are not what is written today: a pack
    record of the first format passes, although marshalling the record it holds
    gives other bytes. *)
Theorem ValidateValue_older_forms json_valid json_tree :
  let key := PackKey (repeat x01 32) in
  ValidateValue json_valid json_tree key old_pack_value = Ok tt /\
  UnmarshalPackRecord old_pack_value = Ok old_pack /\
  PackRecord_MarshalBinary old_pack <> Ok old_pack_value.
Proof. split_and!; vm_compute; [reflexivity | reflexivity | discriminate]. Qed.
