(* ===== verification/IndexMap.v ===== *)
(** * The in-memory blob index ([internal/repository/index/indexmap.go])

    A chained hash table from blob identifiers to pack locations that admits
    several entries for one identifier. Its entries live in a hashed array tree,
    which grows by merging pairs of blocks; its buckets and links are 64-bit words
    that hold the index of an entry in the lower 36 bits and a Bloom filter of the
    chain behind it in the upper 28. The theorems show that the tree is a growing
    array, and that the table behaves like the plain list of the entries added to
    it, whatever the hash function. *)
From stdpp Require Import base list numbers strings.
From Stdlib Require Import ZArith Lia.
From coqutil Require Import Datatypes.RecordSetters.
From S2P Require Import Prelude Codec.
Import TriangleBracketNotations.

Record indexEntry := mkIndexEntry {
  en_id : ID; en_next : Z; en_packIndex : Z; en_offset : Z; en_length : Z; en_uncompressedLength : Z }.

Definition zero_entry : indexEntry := mkIndexEntry zero_id 0 0 0 0 0.

(** ** The hashed array tree *)

Module HAT.

(** A block that was not allocated yet is [None]. *)
Record hashedArrayTree := mk {
  mask : Z; maskShift : Z; blockSize : Z; size : Z; blockList : list (option (list indexEntry)) }.

Definition newHAT : hashedArrayTree :=
  let blockSizePower := 2 in
  let blockSize := Z.shiftl 1 blockSizePower in
  mk (blockSize - 1) blockSizePower blockSize 0 (repeat None (Z.to_nat blockSize)).

Definition index (h : hashedArrayTree) (pos : Z) : Z * Z :=
  (Z.shiftr pos (maskShift h), Z.land pos (mask h)).

(** [block[0:h.blockSize]] of a block made with that capacity *)
Definition extend (blockSize : Z) (block : list indexEntry) : list indexEntry :=
  block ++ repeat zero_entry (Z.to_nat blockSize - length block).

(** Pairwise merging of blocks, up to the first pair without data. *)
Fixpoint merge_blocks (blockSize : Z) (old : list (option (list indexEntry)))
  : list (option (list indexEntry)) :=
  match old with
  | a :: b :: rest =>
      match a, b with
      | None, None => []
      | _, _ => Some (extend blockSize (default [] a ++ default [] b)) :: merge_blocks blockSize rest
      end
  | _ => []
  end.

(** The list and block size are doubled until the list holds block [idx]. *)
Fixpoint double (fuel : nat) (h : hashedArrayTree) (idx : Z) : hashedArrayTree :=
  match fuel with
  | O => h
  | S fuel =>
      if zlen (blockList h) <=? idx then
        let blockSize' := blockSize h * 2 in
        let merged := merge_blocks blockSize' (blockList h) in
        let h := mk (mask h * 2 + 1) (maskShift h + 1) blockSize' (size h)
                   (merged ++ repeat None (Z.to_nat blockSize' - length merged)) in
        double fuel h (idx / 2)
      else h
  end.

Definition preallocate (h : hashedArrayTree) (numEntries : Z) : hashedArrayTree :=
  let (idx, _) := index h (numEntries - 1) in
  double (S (Z.to_nat idx)) h idx.

Definition grow (h : hashedArrayTree) : hashedArrayTree :=
  let h := preallocate h (size h + 1) in
  let (idx, subIdx) := index h (size h) in
  if subIdx =? 0
  then h <| blockList := <[Z.to_nat idx := Some (repeat zero_entry (Z.to_nat (blockSize h)))]> (blockList h) |>
  else h.

(** The new entry is named by its position. *)
Definition Alloc (h : hashedArrayTree) : hashedArrayTree * Z :=
  let h := grow h in
  (h <| size := size h + 1 |>, size h).

(** Out of range accesses panic. *)
Definition Ref (h : hashedArrayTree) (pos : Z) : result indexEntry :=
  do! guard (size h <=? pos) "array index out of bounds";
  let (idx, subIdx) := index h pos in
  match blockList h !! Z.to_nat idx with
  | Some (Some block) =>
      match block !! Z.to_nat subIdx with
      | Some e => Ok e
      | None => Err "index out of range"
      end
  | _ => Err "index out of range"
  end.

(** Assignment through the pointer [Ref] returns. *)
Definition assign (h : hashedArrayTree) (pos : Z) (e : indexEntry) : hashedArrayTree :=
  let (idx, subIdx) := index h pos in
  h <| blockList := alter (fmap (fun block => <[Z.to_nat subIdx := e]> block)) (Z.to_nat idx) (blockList h) |>.

End HAT.

(** ** The chained hash table *)

Definition maxLoad : Z := 4.
Definition initialBuckets : Z := 64.
Definition bloomShift : Z := 36.
Definition bloomMask : Z := 2 ^ bloomShift - 1.

Definition bloomCleanID (idx : Z) : Z := Z.land idx bloomMask.

Definition bloomForID (id : ID) : Z :=
  let k1 := b2z (byte_at 0 id) mod (64 - bloomShift) in
  Z.shiftl 1 k1.

Definition bloomHasID (idx : Z) (id : ID) : bool :=
  let bloom := Z.shiftr idx bloomShift in
  negb (Z.land bloom (bloomForID id) =? 0).

(** [^uint(bloomMask)] is the complement at 64 bits. *)
Definition bloomInsertID (idx nextIdx : Z) (id : ID) : Z :=
  let oldBloom := Z.land nextIdx (2 ^ 64 - 1 - bloomMask) in
  let newBloom := Z.shiftl (bloomForID id) bloomShift in
  Z.lor (Z.lor idx oldBloom) newBloom.

Module IndexMap.
Import HAT.

(** The seed of the hash belongs to the map; [sum64] is the hash under it. *)
Record indexMap := mk { buckets : list Z; numentries : Z; entries : hashedArrayTree }.

(** The zero value, before the lazy initialisation. *)
Definition zero : indexMap := mk [] 0 (HAT.mk 0 0 0 0 []).

Definition newEntry (m : indexMap) : result (indexMap * Z) :=
  let (t, idx) := Alloc (entries m) in
  do! guard (negb (idx =? bloomCleanID idx)) "repository index size overflow";
  Ok (m <| entries := t |>, idx).

Definition resolve (m : indexMap) (idx : Z) : result indexEntry :=
  Ref (entries m) (bloomCleanID idx).

Definition len (m : indexMap) : Z := numentries m.

Definition init (m : indexMap) : result indexMap :=
  let m := m <| buckets := repeat 0 (Z.to_nat initialBuckets) |> <| entries := newHAT |> in
  let! (m, _) := newEntry m in
  Ok m.

(** The loop over all the entries of the block list, from the one after the null entry. *)
Definition positions (m : indexMap) : list Z :=
  map Z.of_nat (seq 1 (Z.to_nat (HAT.size (entries m) - 1))).

Section Hash.
Context (sum64 : ID -> Z).

Definition hash (m : indexMap) (id : ID) : Z :=
  Z.land (sum64 id) (zlen (buckets m) - 1).

Definition bucket (m : indexMap) (h : Z) : Z := default 0 (buckets m !! Z.to_nat h).
Definition set_bucket (m : indexMap) (h w : Z) : indexMap :=
  m <| buckets := <[Z.to_nat h := w]> (buckets m) |>.

Fixpoint double_size (fuel : nat) (newSize numEntries : Z) : Z :=
  match fuel with
  | O => newSize
  | S fuel =>
      if newSize <? (numEntries + maxLoad - 1) / maxLoad
      then double_size fuel (newSize * 2) numEntries
      else newSize
  end.

(** One turn of the loop that rebuilds the chains. *)
Definition relink (m : indexMap) (i : Z) : result indexMap :=
  let! e := resolve m i in
  let h := hash m (en_id e) in
  let e := e <| en_next := bucket m h |> in
  let m := m <| entries := assign (entries m) i e |> in
  Ok (set_bucket m h (bloomInsertID i (en_next e) (en_id e))).

Fixpoint relink_all (m : indexMap) (ps : list Z) : result indexMap :=
  match ps with
  | [] => Ok m
  | i :: ps => let! m := relink m i in relink_all m ps
  end.

Definition preallocate (m : indexMap) (numEntries : Z) : result indexMap :=
  if numEntries =? 0 then Ok m else
  let! m := if zlen (buckets m) =? 0 then init m else Ok m in
  let newSize := double_size (Z.to_nat numEntries) (zlen (buckets m)) numEntries in
  if newSize =? zlen (buckets m) then Ok m else
  let m := m <| buckets := repeat 0 (Z.to_nat newSize) |> in
  let! m := relink_all m (positions m) in
  Ok (m <| entries := HAT.preallocate (entries m) numEntries |>).

Definition add (m : indexMap) (id : ID) (packIdx offset length uncompressedLength : Z)
  : result indexMap :=
  let! m := preallocate m (numentries m + 1) in
  let h := hash m id in
  let! (m, idx) := newEntry m in
  let e := mkIndexEntry id (bucket m h) packIdx offset length uncompressedLength in
  let m := m <| entries := assign (entries m) idx e |> in
  let m := set_bucket m h (bloomInsertID idx (en_next e) id) in
  Ok (m <| numentries := numentries m + 1 |>).

Fixpoint resolve_all (m : indexMap) (ps : list Z) : result (list indexEntry) :=
  match ps with
  | [] => Ok []
  | i :: ps => let! e := resolve m i in let! es := resolve_all m ps in Ok (e :: es)
  end.

(** All the values of the iterator, in its order. *)
Definition values (m : indexMap) : result (list indexEntry) := resolve_all m (positions m).

(** The iterator's values for one identifier. A walk follows a chain while the
    Bloom filter of the word at hand admits the identifier. *)
Fixpoint valuesWithID_loop (fuel : nat) (m : indexMap) (ei : Z) (id : ID) : result (list indexEntry) :=
  if bloomHasID ei id then
    match fuel with
    | O => Err "out of fuel"
    | S fuel =>
        let! e := resolve m ei in
        let! es := valuesWithID_loop fuel m (en_next e) id in
        Ok (if bool_decide (en_id e = id) then e :: es else es)
    end
  else Ok [].

Definition valuesWithID (m : indexMap) (id : ID) : result (list indexEntry) :=
  if zlen (buckets m) =? 0 then Ok []
  else valuesWithID_loop (Z.to_nat (numentries m)) m (bucket m (hash m id)) id.

Fixpoint get_loop (fuel : nat) (m : indexMap) (ei : Z) (id : ID) : result (option indexEntry) :=
  if bloomHasID ei id then
    match fuel with
    | O => Err "out of fuel"
    | S fuel =>
        let! e := resolve m ei in
        if bool_decide (en_id e = id) then Ok (Some e) else get_loop fuel m (en_next e) id
    end
  else Ok None.

Definition get (m : indexMap) (id : ID) : result (option indexEntry) :=
  if zlen (buckets m) =? 0 then Ok None
  else get_loop (Z.to_nat (numentries m)) m (bucket m (hash m id)) id.

Fixpoint firstIndex_loop (fuel : nat) (m : indexMap) (ei : Z) (id : ID) (idx : Z) : result Z :=
  if bloomHasID ei id then
    match fuel with
    | O => Err "out of fuel"
    | S fuel =>
        let! e := resolve m ei in
        let cur := bloomCleanID ei in
        let idx := if bool_decide (en_id e = id) && ((cur <? idx) || (idx =? -1)) then cur else idx in
        firstIndex_loop fuel m (en_next e) id idx
    end
  else Ok idx.

Definition firstIndex (m : indexMap) (id : ID) : result Z :=
  if zlen (buckets m) =? 0 then Ok (-1)
  else firstIndex_loop (Z.to_nat (numentries m)) m (bucket m (hash m id)) id (-1).

End Hash.
End IndexMap.

(** ** The tree is a growing array *)

Module HATTheory.
Import HAT.

(** A tree of block size [2 ^ s] whose allocated blocks are [bs]. *)
Record shape (h : hashedArrayTree) (s : nat) (bs : list (list indexEntry)) : Prop := {
  shape_shift : maskShift h = Z.of_nat s;
  shape_pos : (0 < s)%nat;
  shape_mask : mask h = 2 ^ Z.of_nat s - 1;
  shape_block : blockSize h = 2 ^ Z.of_nat s;
  shape_list : blockList h = (Some <$> bs) ++ repeat None (2 ^ s - length bs);
  shape_count : (length bs <= 2 ^ s)%nat;
  shape_blocks : Forall (fun b => length b = (2 ^ s)%nat) bs;
  shape_size : 0 <= size h;
  shape_low : size h <= Z.of_nat (length bs * 2 ^ s);
  shape_high : Z.of_nat (length bs * 2 ^ s) < size h + 2 ^ Z.of_nat s }.

(** The tree represents the array [l]. *)
Definition represents (h : hashedArrayTree) (l : list indexEntry) : Prop :=
  exists s bs, shape h s bs /\ l = take (Z.to_nat (size h)) (concat bs).

Lemma pow2_nat s : Z.of_nat (2 ^ s) = 2 ^ Z.of_nat s.
Proof. by rewrite Nat2Z.inj_pow. Qed.

Lemma pow2_pos s : (0 < 2 ^ s)%nat.
Proof. apply Nat.neq_0_lt_0, Nat.pow_nonzero. lia. Qed.

Lemma concat_length (k : nat) (bs : list (list indexEntry)) :
  Forall (fun b => length b = k) bs -> length (concat bs) = (length bs * k)%nat.
Proof. induction 1 as [|b bs E _ IH]; cbn; [done|]. rewrite length_app. lia. Qed.

Lemma concat_lookup (k : nat) (bs : list (list indexEntry)) i j :
  Forall (fun b => length b = k) bs -> (j < k)%nat ->
  concat bs !! (i * k + j)%nat = b ← bs !! i; b !! j.
Proof.
  intros F Hj. revert i. induction F as [|b bs E _ IH]; intros i; [done|]. destruct i as [|i]; cbn.
  - rewrite lookup_app_l by lia. done.
  - rewrite lookup_app_r by lia. replace (_ - _)%nat with (i * k + j)%nat by lia. apply IH.
Qed.

Lemma concat_insert (k : nat) (bs : list (list indexEntry)) i j e :
  Forall (fun b => length b = k) bs -> (j < k)%nat -> (i < length bs)%nat ->
  concat (alter (fun b => <[j := e]> b) i bs) = <[(i * k + j)%nat := e]> (concat bs).
Proof.
  intros F Hj. revert i. induction F as [|b bs E _ IH]; intros i Hi; [cbn in Hi; lia|].
  destruct i as [|i]; cbn in *.
  - rewrite insert_app_l by lia. done.
  - rewrite insert_app_r_alt by lia. rewrite IH by lia. do 2 f_equal. lia.
Qed.

Lemma index_shape h s bs pos :
  shape h s bs -> index h pos = (pos / 2 ^ Z.of_nat s, pos mod 2 ^ Z.of_nat s).
Proof.
  intros S. unfold index. rewrite (shape_shift _ _ _ S), (shape_mask _ _ _ S).
  rewrite Z.shiftr_div_pow2 by lia. f_equal.
  replace (2 ^ Z.of_nat s - 1) with (Z.ones (Z.of_nat s)) by (rewrite Z.ones_equiv; lia).
  apply Z.land_ones. lia.
Qed.

(** The position of an index as block and offset, in [nat]. *)
Lemma split_pos s pos :
  0 <= pos ->
  let i := Z.to_nat (pos / 2 ^ Z.of_nat s) in
  let j := Z.to_nat (pos mod 2 ^ Z.of_nat s) in
  Z.to_nat pos = (i * 2 ^ s + j)%nat /\ (j < 2 ^ s)%nat.
Proof.
  intros Hp i j. subst i j. pose proof (pow2_nat s) as E. pose proof (pow2_pos s).
  rewrite <- E. set (k := (2 ^ s)%nat) in *. clearbody k.
  pose proof (Z.div_mod pos (Z.of_nat k) ltac:(lia)).
  pose proof (Z.mod_pos_bound pos (Z.of_nat k) ltac:(lia)).
  pose proof (Z.div_pos pos (Z.of_nat k) Hp ltac:(lia)). nia.
Qed.

Lemma concat_shape h s bs : shape h s bs -> length (concat bs) = (length bs * 2 ^ s)%nat.
Proof. intros S. apply concat_length, S. Qed.

Lemma shape_lookup h s bs i :
  shape h s bs -> (i < length bs)%nat -> blockList h !! i = Some <$> bs !! i.
Proof.
  intros S Hi. rewrite (shape_list _ _ _ S), lookup_app_l by (by rewrite length_fmap).
  apply list_lookup_fmap.
Qed.

(** [Ref] reads the array. *)
Lemma Ref_represents h l pos :
  represents h l -> 0 <= pos < size h ->
  exists e, l !! Z.to_nat pos = Some e /\ Ref h pos = Ok e.
Proof.
  intros (s & bs & S & ->) Hp. pose proof (split_pos s pos ltac:(lia)) as [E Hj].
  set (i := Z.to_nat (pos / 2 ^ Z.of_nat s)) in *. set (j := Z.to_nat (pos mod 2 ^ Z.of_nat s)) in *.
  pose proof (shape_low _ _ _ S). pose proof (concat_shape _ _ _ S) as C.
  assert (Hi : (i < length bs)%nat) by nia.
  destruct (lookup_lt_is_Some_2 bs i Hi) as [b Hb].
  pose proof (proj1 (Forall_lookup _ _) (shape_blocks _ _ _ S) i b Hb) as Lb. cbn in Lb.
  destruct (lookup_lt_is_Some_2 b j ltac:(lia)) as [e He].
  exists e. split.
  - rewrite lookup_take_lt, E, (concat_lookup (2 ^ s)) by (apply S || lia). by rewrite Hb.
  - unfold Ref. rewrite (proj2 (Z.leb_gt _ _)) by lia. cbn [guard rbind].
    rewrite (index_shape h s bs) by done. fold i j.
    rewrite (shape_lookup h s bs) by done. rewrite Hb. cbn. by rewrite He.
Qed.

Lemma Ref_out_of_bounds h pos : size h <= pos -> Ref h pos = Err "array index out of bounds".
Proof. intros H. unfold Ref. by rewrite (proj2 (Z.leb_le _ _) H). Qed.

Lemma represents_length h l : represents h l -> length l = Z.to_nat (size h).
Proof.
  intros (s & bs & S & ->). rewrite length_take, (concat_shape _ _ _ S).
  pose proof (shape_low _ _ _ S). pose proof (shape_size _ _ _ S). lia.
Qed.

(** [assign] updates the array. *)
Lemma assign_represents h l pos e :
  represents h l -> 0 <= pos < size h ->
  represents (assign h pos e) (<[Z.to_nat pos := e]> l) /\ size (assign h pos e) = size h.
Proof.
  intros (s & bs & S & ->) Hp. pose proof (split_pos s pos ltac:(lia)) as [E Hj].
  unfold assign. rewrite (index_shape h s bs) by done.
  set (i := Z.to_nat (pos / 2 ^ Z.of_nat s)) in *. set (j := Z.to_nat (pos mod 2 ^ Z.of_nat s)) in *.
  pose proof (shape_low _ _ _ S). assert (Hi : (i < length bs)%nat) by nia.
  split; [|done]. exists s, (alter (fun b => <[j := e]> b) i bs).
  assert (L : length (alter (fun b => <[j := e]> b) i bs) = length bs) by apply length_alter.
  split.
  - destruct S. constructor; unfold constant; cbn; try rewrite L; try done.
    + rewrite shape_list0. rewrite alter_app_l by (by rewrite length_fmap). f_equal.
      symmetry. apply list_fmap_alter. by apply Forall_true.
    + apply Forall_alter; [done|]. intros b _ Hb. by rewrite length_insert.
  - cbn. rewrite (concat_insert (2 ^ s)), E by (apply S || done).
    by rewrite <- take_insert_lt by lia.
Qed.

(** Merging as it acts on the allocated blocks. *)
Fixpoint pairs (n : Z) (bs : list (list indexEntry)) : list (list indexEntry) :=
  match bs with
  | a :: b :: rest => extend n (a ++ b) :: pairs n rest
  | [a] => [extend n a]
  | [] => []
  end.

Lemma list_pair_ind {A} (P : list A -> Prop) :
  P [] -> (forall a, P [a]) -> (forall a b l, P l -> P (a :: b :: l)) -> forall l, P l.
Proof.
  intros H0 H1 H2 l. enough (P l /\ forall a, P (a :: l)) by tauto.
  induction l as [|b l [IH IH']]; split; auto.
Qed.

Lemma merge_blocks_pairs n bs k :
  (Nat.even (length bs + k) = true) ->
  merge_blocks n ((Some <$> bs) ++ repeat None k) = Some <$> pairs n bs.
Proof.
  induction bs as [|a|a b bs IH] using list_pair_ind; intros Ev.
  - by destruct k as [|[|k]].
  - destruct k as [|[|k]]; [done| |]; cbn; rewrite app_nil_r; [done|]. by destruct k as [|[|k]].
  - cbn. by rewrite IH.
Qed.

Lemma pairs_length n bs : length (pairs n bs) = Nat.div2 (S (length bs)).
Proof. induction bs as [|a|a b bs IH] using list_pair_ind; cbn; [done..|]. by rewrite IH. Qed.

Lemma extend_length n b : (length b <= Z.to_nat n)%nat -> length (extend n b) = Z.to_nat n.
Proof. intros H. unfold extend. rewrite length_app, repeat_length. lia. Qed.

Lemma pairs_blocks k n bs :
  Z.to_nat n = (k + k)%nat -> Forall (fun b => length b = k) bs ->
  Forall (fun b => length b = (k + k)%nat) (pairs n bs).
Proof.
  intros E. induction bs as [|a|a b bs IH] using list_pair_ind; intros F; rewrite ?Forall_cons in F; cbn.
  - constructor.
  - constructor; [|done]. rewrite extend_length; lia.
  - constructor; [|tauto]. rewrite extend_length; [lia|]. rewrite length_app. lia.
Qed.

Lemma pairs_concat k n bs :
  Z.to_nat n = (k + k)%nat -> Forall (fun b => length b = k) bs ->
  concat bs `prefix_of` concat (pairs n bs).
Proof.
  intros E. induction bs as [|a|a b bs IH] using list_pair_ind; intros F; rewrite ?Forall_cons in F; cbn.
  - done.
  - rewrite !app_nil_r. apply prefix_app_r. done.
  - unfold extend. rewrite length_app. replace (Z.to_nat n - _)%nat with 0%nat by lia. cbn. rewrite app_nil_r, app_assoc.
    apply prefix_app, IH. tauto.
Qed.

(** One doubling keeps the array. *)
Lemma double_shape h s bs :
  shape h s bs ->
  let merged := merge_blocks (blockSize h * 2) (blockList h) in
  shape (mk (mask h * 2 + 1) (maskShift h + 1) (blockSize h * 2) (size h)
           (merged ++ repeat None (Z.to_nat (blockSize h * 2) - length merged)))
        (S s) (pairs (blockSize h * 2) bs)
  /\ take (Z.to_nat (size h)) (concat (pairs (blockSize h * 2) bs))
     = take (Z.to_nat (size h)) (concat bs).
Proof.
  intros S merged. pose proof (pow2_nat s) as E. pose proof (pow2_pos s).
  assert (E2 : (2 ^ Datatypes.S s = 2 ^ s + 2 ^ s)%nat) by (cbn; lia).
  assert (N : Z.to_nat (blockSize h * 2) = (2 ^ s + 2 ^ s)%nat) by (rewrite (shape_block _ _ _ S); lia).
  assert (Em : merged = Some <$> pairs (blockSize h * 2) bs).
  { subst merged. rewrite (shape_list _ _ _ S). apply merge_blocks_pairs.
    pose proof (shape_count _ _ _ S). pose proof (shape_pos _ _ _ S).
    replace (length bs + (2 ^ s - length bs))%nat with (2 ^ s)%nat by lia.
    destruct s as [|s]; [lia|]. cbn. rewrite Nat.add_0_r, Nat.even_add. by destruct (Nat.even _). }
  pose proof (pairs_length (blockSize h * 2) bs) as PL. pose proof (Nat.div2_odd (Datatypes.S (length bs))) as D.
  rewrite <- PL in D.
  assert (R : (length bs <= 2 * length (pairs (blockSize h * 2) bs) <= Datatypes.S (length bs))%nat)
    by (destruct (Nat.odd _); cbn in D; lia).
  split.
  - constructor; cbn [mask maskShift blockSize size blockList].
    + rewrite (shape_shift _ _ _ S). lia.
    + lia.
    + rewrite (shape_mask _ _ _ S), Nat2Z.inj_succ, Z.pow_succ_r; lia.
    + rewrite (shape_block _ _ _ S), Nat2Z.inj_succ, Z.pow_succ_r; lia.
    + rewrite Em, length_fmap. do 2 f_equal. lia.
    + pose proof (shape_count _ _ _ S). lia.
    + rewrite E2. apply pairs_blocks; [done|apply S].
    + apply S.
    + pose proof (shape_low _ _ _ S). rewrite E2. nia.
    + pose proof (shape_high _ _ _ S). rewrite Nat2Z.inj_succ, Z.pow_succ_r, <- E, E2 in * by lia. nia.
  - destruct (pairs_concat (2 ^ s) _ bs N (shape_blocks _ _ _ S)) as [rest ->].
    pose proof (shape_low _ _ _ S). rewrite take_app_le; [done|]. rewrite (concat_shape _ _ _ S). lia.
Qed.

Lemma double_step fuel h idx :
  zlen (blockList h) <= idx ->
  double (S fuel) h idx =
    let merged := merge_blocks (blockSize h * 2) (blockList h) in
    double fuel (mk (mask h * 2 + 1) (maskShift h + 1) (blockSize h * 2) (size h)
      (merged ++ repeat None (Z.to_nat (blockSize h * 2) - length merged))) (idx / 2).
Proof. intros H. cbn [double]. by rewrite (proj2 (Z.leb_le _ _) H). Qed.

Lemma shape_length h s bs : shape h s bs -> zlen (blockList h) = 2 ^ Z.of_nat s.
Proof.
  intros S. unfold zlen. rewrite (shape_list _ _ _ S), length_app, length_fmap, repeat_length, <- pow2_nat.
  pose proof (shape_count _ _ _ S). lia.
Qed.

(** Doubling ends, with a tree of the same contents that has room for block
    [idx] of the old layout. *)
Lemma double_spec fuel h s bs idx :
  shape h s bs -> (Z.to_nat idx < fuel)%nat ->
  exists s' bs', shape (double fuel h idx) s' bs'
    /\ size (double fuel h idx) = size h
    /\ take (Z.to_nat (size h)) (concat bs') = take (Z.to_nat (size h)) (concat bs)
    /\ (s <= s')%nat /\ idx / 2 ^ (Z.of_nat s' - Z.of_nat s) < 2 ^ Z.of_nat s'.
Proof.
  revert h s bs idx. induction fuel as [|fuel IH]; intros h s bs idx S F; [lia|].
  pose proof (shape_length _ _ _ S) as L.
  destruct (decide (zlen (blockList h) <= idx)) as [G|G].
  - rewrite double_step by done. destruct (double_shape h s bs S) as [S' C]. cbn zeta.
    set (h' := mk _ _ _ _ _) in *.
    destruct (IH h' _ _ (idx / 2) S') as (s' & bs' & A1 & A2 & A3 & A4 & A5).
    { pose proof (pow2_pos s). rewrite <- pow2_nat in L.
      pose proof (Z.div_lt idx 2). lia. }
    exists s', bs'. split; [done|]. split; [done|]. split; [|split; [lia|]].
    + cbn in A3. by rewrite A3.
    + rewrite Z.div_div in A5 by lia. rewrite <- Z.pow_succ_r in A5 by lia.
      by replace (Z.of_nat s' - Z.of_nat s) with (Z.succ (Z.of_nat s' - Z.of_nat (Datatypes.S s))) by lia.
  - exists s, bs. cbn [double]. rewrite (proj2 (Z.leb_gt _ _)) by lia.
    do 4 (split; [done|]). rewrite Z.sub_diag, Z.div_1_r. lia.
Qed.

(** [preallocate] keeps the array and gives the layout room for [numEntries]. *)
Lemma preallocate_shape h s bs numEntries :
  shape h s bs ->
  exists s' bs', shape (preallocate h numEntries) s' bs'
    /\ size (preallocate h numEntries) = size h
    /\ take (Z.to_nat (size h)) (concat bs') = take (Z.to_nat (size h)) (concat bs)
    /\ (numEntries - 1) / 2 ^ Z.of_nat s' < 2 ^ Z.of_nat s'.
Proof.
  intros S. unfold preallocate. rewrite (index_shape h s bs) by done.
  destruct (double_spec (Datatypes.S (Z.to_nat ((numEntries - 1) / 2 ^ Z.of_nat s))) h s bs _ S
              (Nat.lt_succ_diag_r _)) as (s' & bs' & A1 & A2 & A3 & A4 & A5).
  exists s', bs'. do 3 (split; [done|]).
  rewrite Z.div_div, <- Z.pow_add_r in A5 by lia.
  by replace (Z.of_nat s + (Z.of_nat s' - Z.of_nat s)) with (Z.of_nat s') in A5 by lia.
Qed.

Lemma preallocate_represents h l numEntries :
  represents h l ->
  represents (preallocate h numEntries) l /\ size (preallocate h numEntries) = size h.
Proof.
  intros (s & bs & S & ->).
  destruct (preallocate_shape h s bs numEntries S) as (s' & bs' & A1 & A2 & A3 & _).
  split; [|done]. exists s', bs'. split; [done|]. by rewrite A2.
Qed.

Lemma newHAT_represents : represents newHAT [].
Proof.
  exists 2%nat, []. split; [|done]. constructor; first [done | apply Forall_nil; done | cbn; lia].
Qed.

(** The block that holds the next position exists after [grow]. *)
Lemma grow_new_block h s bs :
  shape h s bs -> size h / 2 ^ Z.of_nat s < 2 ^ Z.of_nat s -> size h mod 2 ^ Z.of_nat s = 0 ->
  shape (h <| blockList := <[Z.to_nat (size h / 2 ^ Z.of_nat s) :=
                               Some (repeat zero_entry (Z.to_nat (blockSize h)))]> (blockList h) |>
           <| size := size h + 1 |>) s (bs ++ [repeat zero_entry (2 ^ s)]).
Proof.
  intros S R M. pose proof (pow2_nat s) as E. pose proof (pow2_pos s).
  pose proof (shape_low _ _ _ S). pose proof (shape_high _ _ _ S). pose proof (shape_size _ _ _ S).
  pose proof (Z.div_mod (size h) (2 ^ Z.of_nat s) ltac:(lia)) as D. rewrite <- E in *.
  assert (Q : Z.to_nat (size h / Z.of_nat (2 ^ s)) = length bs) by nia.
  assert (Hlt : (length bs < 2 ^ s)%nat) by nia.
  rewrite Q. unfold constant.
  destruct S. constructor; cbn [maskShift mask blockSize size blockList]; try done; rewrite ?length_app; cbn [length].
  - cbn. rewrite shape_list0, insert_app_r_alt by (by rewrite length_fmap).
    rewrite length_fmap, Nat.sub_diag, fmap_app, <- app_assoc. f_equal.
    replace (2 ^ s - length bs)%nat with (Datatypes.S (2 ^ s - (length bs + 1))) by lia.
    cbn. do 3 f_equal. rewrite shape_block0. lia.
  - lia.
  - apply Forall_app. split; [done|]. constructor; [|done]. apply repeat_length.
  - cbn. lia.
  - cbn. nia.
  - cbn. nia.
Qed.

Lemma grow_same_block h s bs :
  shape h s bs -> size h mod 2 ^ Z.of_nat s <> 0 -> shape (h <| size := size h + 1 |>) s bs.
Proof.
  intros S M. pose proof (pow2_nat s) as E. pose proof (pow2_pos s).
  pose proof (shape_low _ _ _ S). pose proof (shape_high _ _ _ S).
  assert (size h <> Z.of_nat (length bs * 2 ^ s)).
  { intros Q. apply M. rewrite Q, Nat2Z.inj_mul, E. apply Z.mod_mul. lia. }
  destruct S. constructor; unfold constant; cbn; try done; lia.
Qed.

Lemma take_succ {A} (n : nat) (l : list A) :
  (n < length l)%nat -> exists x, take (S n) l = take n l ++ [x].
Proof.
  intros H. destruct (lookup_lt_is_Some_2 l n H) as [x E]. exists x. by apply take_S_r.
Qed.

(** [Alloc] appends an entry to the array and returns its position. *)
Lemma Alloc_represents h l :
  represents h l ->
  exists e, represents (fst (Alloc h)) (l ++ [e])
    /\ snd (Alloc h) = size h /\ size (fst (Alloc h)) = size h + 1.
Proof.
  intros (s & bs & S & ->). unfold Alloc, grow.
  destruct (preallocate_shape h s bs (size h + 1) S) as (s' & bs' & S' & Es & Ec & R).
  set (h1 := preallocate h (size h + 1)) in *. clearbody h1.
  rewrite (index_shape h1 s' bs') by done. rewrite Z.add_simpl_r, <- Es in R. rewrite <- Ec.
  pose proof (shape_size _ _ _ S').
  assert (C : forall h2 bs2, shape h2 s' bs2 -> size h2 = size h1 + 1 -> bs' `prefix_of` bs2 ->
    exists e, represents h2 (take (Z.to_nat (size h)) (concat bs') ++ [e])).
  { intros h2 bs2 S2 E2 [more ->]. pose proof (shape_low _ _ _ S2). pose proof (shape_low _ _ _ S').
    destruct (take_succ (Z.to_nat (size h)) (concat (bs' ++ more))) as [e Te].
    { rewrite (concat_shape _ _ _ S2). lia. }
    exists e. exists s', (bs' ++ more). split; [done|].
    replace (Z.to_nat (size h2)) with (Datatypes.S (Z.to_nat (size h))) by lia.
    rewrite Te, concat_app, take_app_le; [done|]. rewrite (concat_shape _ _ _ S'). lia. }
  destruct (Z.eqb_spec (size h1 mod 2 ^ Z.of_nat s') 0) as [M|M]; cbn [fst snd].
  - destruct (C _ _ (grow_new_block _ _ _ S' R M) eq_refl (prefix_app_r _ _ _ (reflexivity _))) as [e He].
    exists e. split; [exact He|]. split; [exact Es|]. change (size h1 + 1 = size h + 1). lia.
  - destruct (C _ _ (grow_same_block _ _ _ S' M) eq_refl (reflexivity _)) as [e He].
    exists e. split; [exact He|]. split; [exact Es|]. change (size h1 + 1 = size h + 1). lia.
Qed.
End HATTheory.

(** ** The Bloom filter in the words *)

Module Bloom.

(** The bit of the filter that stands for an identifier. *)
Definition bit (id : ID) : Z := b2z (byte_at 0 id) mod 28.

Lemma bit_range id : 0 <= bit id < 28.
Proof. apply Z.mod_pos_bound. lia. Qed.

Lemma bloomForID_bit id : bloomForID id = 2 ^ bit id.
Proof. unfold bloomForID. rewrite Z.shiftl_1_l. done. Qed.

Lemma land_pow2_testbit w k : 0 <= k -> negb (Z.land w (2 ^ k) =? 0) = Z.testbit w k.
Proof.
  intros Hk. destruct (Z.testbit w k) eqn:E.
  - apply negb_true_iff, Z.eqb_neq. intros H.
    assert (T : Z.testbit (Z.land w (2 ^ k)) k = true) by (rewrite Z.land_spec, E, Z.pow2_bits_true; auto with lia).
    by rewrite H, Z.bits_0 in T.
  - apply negb_false_iff, Z.eqb_eq, Z.bits_inj_0. intros n. rewrite Z.land_spec.
    destruct (decide (n = k)) as [->|N]; [by rewrite E|]. rewrite Z.pow2_bits_false by done. apply andb_false_r.
Qed.

Lemma bloomHasID_bit w id : bloomHasID w id = Z.testbit w (bit id + bloomShift).
Proof.
  pose proof (bit_range id). unfold bloomHasID.
  rewrite bloomForID_bit, land_pow2_testbit by lia. apply Z.shiftr_spec. lia.
Qed.

Lemma bloomCleanID_mod w : bloomCleanID w = w mod 2 ^ bloomShift.
Proof.
  unfold bloomCleanID, bloomMask.
  replace (2 ^ bloomShift - 1) with (Z.ones bloomShift) by done. by apply Z.land_ones.
Qed.

Lemma testbit_above w n k : 0 <= w < 2 ^ n -> n <= k -> Z.testbit w k = false.
Proof.
  intros H L. destruct (decide (w = 0)) as [->|N]; [apply Z.bits_0|].
  destruct (decide (0 <= n)) as [Hn|Hn]; [|rewrite Z.pow_neg_r in H; lia].
  apply Z.bits_above_log2; [lia|]. apply Z.lt_le_trans with n; [|done]. apply Z.log2_lt_pow2; lia.
Qed.

(** The bits of the complement of the mask. *)
Lemma complement_bits k :
  0 <= k -> Z.testbit (2 ^ 64 - 1 - bloomMask) k = (bloomShift <=? k) && (k <? 64).
Proof.
  intros Hk. replace (2 ^ 64 - 1 - bloomMask) with (Z.shiftl (Z.ones 28) bloomShift) by done.
  destruct (Z.leb_spec bloomShift k) as [G|G]; cbn [andb].
  - rewrite Z.shiftl_spec by lia. unfold bloomShift in *. destruct (Z.ltb_spec k 64).
    + apply Z.ones_spec_low. lia.
    + apply Z.ones_spec_high. lia.
  - by apply Z.shiftl_spec_low.
Qed.

Lemma insert_bits idx next id k :
  0 <= k ->
  Z.testbit (bloomInsertID idx next id) k
  = Z.testbit idx k || (Z.testbit next k && ((bloomShift <=? k) && (k <? 64))) || (k =? bit id + bloomShift).
Proof.
  intros Hk. unfold bloomInsertID. rewrite !Z.lor_spec, Z.land_spec, complement_bits by done. f_equal.
  pose proof (bit_range id). rewrite bloomForID_bit, Z.shiftl_mul_pow2, <- Z.pow_add_r by (unfold bloomShift; lia).
  rewrite Z.pow2_bits_eqb by (unfold bloomShift; lia). apply Z.eqb_sym.
Qed.

(** The word names the index it was made with. *)
Lemma clean_insert idx next id :
  0 <= idx < 2 ^ bloomShift -> bloomCleanID (bloomInsertID idx next id) = idx.
Proof.
  intros H. apply Z.bits_inj'. intros k Hk. unfold bloomCleanID, bloomMask.
  replace (2 ^ bloomShift - 1) with (Z.ones bloomShift) by done. rewrite Z.land_spec, insert_bits by done.
  pose proof (bit_range id). destruct (Z.ltb_spec k bloomShift) as [L|L].
  - rewrite Z.ones_spec_low, (proj2 (Z.leb_gt _ _)), (proj2 (Z.eqb_neq k _)) by lia.
    by rewrite andb_false_r, !orb_false_r, andb_true_r.
  - rewrite Z.ones_spec_high, andb_false_r by (unfold bloomShift in *; lia). by rewrite (testbit_above idx bloomShift) by done.
Qed.

(** Its filter admits the new identifier and whatever the old word admits, and
    nothing else but identifiers of the same bit. *)
Lemma has_insert idx next id id' :
  0 <= idx < 2 ^ bloomShift ->
  bloomHasID (bloomInsertID idx next id) id' = bloomHasID next id' || (bit id' =? bit id).
Proof.
  intros H. pose proof (bit_range id). pose proof (bit_range id').
  rewrite !bloomHasID_bit, insert_bits by (unfold bloomShift; lia).
  rewrite (testbit_above idx bloomShift) by (done || lia).
  rewrite (proj2 (Z.leb_le _ _)), (proj2 (Z.ltb_lt _ _)) by (unfold bloomShift; lia).
  rewrite andb_true_r. cbn [orb]. f_equal.
  destruct (Z.eqb_spec (bit id') (bit id)); [apply Z.eqb_eq | apply Z.eqb_neq]; lia.
Qed.

Lemma has_zero id : bloomHasID 0 id = false.
Proof. rewrite bloomHasID_bit. apply Z.bits_0. Qed.

Lemma clean_id idx : 0 <= idx < 2 ^ bloomShift -> bloomCleanID idx = idx.
Proof. intros. rewrite bloomCleanID_mod. by apply Z.mod_small. Qed.

Lemma clean_range w : 0 <= bloomCleanID w < 2 ^ bloomShift.
Proof. rewrite bloomCleanID_mod. by apply Z.mod_pos_bound. Qed.

End Bloom.

(** ** The table behaves like the list of its additions *)

Module IndexMapTheory.
Import HAT HATTheory IndexMap Bloom.

(** An entry without its link: what callers see of it. *)
Definition view (e : indexEntry) : indexEntry := e <| en_next := 0 |>.

(** An entry with a link. *)
Definition link (e : indexEntry) (next : Z) : indexEntry := e <| en_next := next |>.

Section Hash.
Context (sum64 : ID -> Z).
#[local] Abbreviation hash := (IndexMap.hash sum64).
#[local] Abbreviation preallocate := (IndexMap.preallocate sum64).

Definition slot (nb : Z) (id : ID) : Z := Z.land (sum64 id) (nb - 1).

(** The word of bucket [h] of [nb] buckets that hold the entries [added], the
    newest first, and the entries with their links. *)
Fixpoint word (nb : Z) (added : list indexEntry) (h : Z) : Z :=
  match added with
  | [] => 0
  | e :: older =>
      if slot nb (en_id e) =? h
      then bloomInsertID (zlen older + 1) (word nb older h) (en_id e)
      else word nb older h
  end.

Fixpoint linked (nb : Z) (added : list indexEntry) : list indexEntry :=
  match added with
  | [] => []
  | e :: older => link e (word nb older (slot nb (en_id e))) :: linked nb older
  end.

(** The state of the table after additions. *)
Record invariant (m : indexMap) (added : list indexEntry) : Prop := {
  inv_power : exists k, length (buckets m) = (2 ^ k)%nat;
  inv_buckets : forall h, 0 <= h < zlen (buckets m) -> bucket m h = word (zlen (buckets m)) added h;
  inv_entries : exists null, represents (entries m) (null :: rev (linked (zlen (buckets m)) added));
  inv_views : Forall (fun e => en_next e = 0) added;
  inv_count : numentries m = zlen added;
  inv_bound : zlen added < 2 ^ bloomShift;
  inv_load : zlen added <= maxLoad * zlen (buckets m) }.

(** The zero value holds nothing; the first addition initialises it. *)
Definition holds (m : indexMap) (added : list indexEntry) : Prop :=
  (m = zero /\ added = []) \/ invariant m added.

Lemma linked_length nb l : length (linked nb l) = length l.
Proof. induction l as [|e l IH]; cbn; congruence. Qed.

Lemma view_zero e : en_next e = 0 -> view e = e.
Proof. by destruct e; cbn; intros ->. Qed.

Lemma linked_views nb l : Forall (fun e => en_next e = 0) l -> map view (linked nb l) = l.
Proof.
  induction 1 as [|e l E _ IH]; cbn; [done|]. rewrite IH. f_equal. by destruct e; cbn in *; subst.
Qed.

Lemma linked_app nb newer older :
  exists front, linked nb (newer ++ older) = front ++ linked nb older /\ length front = length newer.
Proof.
  induction newer as [|e newer (front & E & L)]; [by exists []|]. cbn. rewrite E.
  eexists (_ :: front). split; [done|]. cbn. congruence.
Qed.

(** The array cell of an entry is one past the number of entries before it. *)
Lemma linked_cell nb newer e older null :
  (null :: rev (linked nb (newer ++ e :: older))) !! S (length older)
  = Some (link e (word nb older (slot nb (en_id e)))).
Proof.
  destruct (linked_app nb newer (e :: older)) as (front & -> & _).
  cbn [linked]. rewrite rev_app_distr. cbn [rev]. change ((null :: ?l) !! S ?n) with (l !! n). rewrite lookup_app_l by (rewrite length_app, length_rev, linked_length; cbn; lia).
  apply list_lookup_middle. by rewrite length_rev, linked_length.
Qed.

Lemma slot_range k id : 0 <= slot (Z.of_nat (2 ^ k)) id < Z.of_nat (2 ^ k).
Proof.
  unfold slot. rewrite pow2_nat. replace (2 ^ Z.of_nat k - 1) with (Z.ones (Z.of_nat k)) by (rewrite Z.ones_equiv; lia).
  rewrite Z.land_ones by lia. apply Z.mod_pos_bound. lia.
Qed.

Lemma zlen_succ {A} (x : A) l : zlen (x :: l) = zlen l + 1.
Proof. unfold zlen. cbn. lia. Qed.

(** The filter of a bucket's word admits every identifier in the bucket. *)
Lemma word_admits nb l e :
  zlen l < 2 ^ bloomShift -> e ∈ l -> bloomHasID (word nb l (slot nb (en_id e))) (en_id e) = true.
Proof.
  induction l as [|e' l IH]; intros B He; [by apply elem_of_nil in He|].
  pose proof (zlen_succ e' l). assert (0 <= zlen l) by (unfold zlen; lia).
  cbn. destruct (Z.eqb_spec (slot nb (en_id e')) (slot nb (en_id e))) as [S|S].
  - rewrite has_insert by lia. apply elem_of_cons in He as [->|He]; [by rewrite Z.eqb_refl, orb_true_r|].
    rewrite IH by (done || lia). done.
  - apply elem_of_cons in He as [->|He]; [done|]. apply IH; [lia|done].
Qed.

Lemma word_absent nb l id :
  zlen l < 2 ^ bloomShift -> bloomHasID (word nb l (slot nb id)) id = false ->
  Forall (fun e => en_id e <> id) l.
Proof.
  intros B H. apply Forall_forall. intros e He <-. by rewrite (word_admits nb l e) in H.
Qed.

(** A word that admits an identifier names an entry of the bucket; the entries
    passed over have other identifiers. *)
Lemma word_present nb l id :
  bloomHasID (word nb l (slot nb id)) id = true ->
  exists skipped e older, l = skipped ++ e :: older
    /\ Forall (fun e => en_id e <> id) skipped /\ slot nb (en_id e) = slot nb id
    /\ word nb l (slot nb id) = bloomInsertID (zlen older + 1) (word nb older (slot nb id)) (en_id e).
Proof.
  induction l as [|e l IH]; cbn; [by rewrite has_zero|]. intros H.
  destruct (Z.eqb_spec (slot nb (en_id e)) (slot nb id)) as [S|S].
  - by exists [], e, l.
  - destruct (IH H) as (skipped & e' & older & -> & F & S' & W). exists (e :: skipped), e', older.
    split; [done|]. split; [|done]. constructor; [by intros <-|done].
Qed.

Lemma inv_size m added : invariant m added -> size (entries m) = zlen added + 1.
Proof.
  intros I. destruct (inv_entries _ _ I) as [null R]. pose proof (represents_length _ _ R) as L.
  destruct R as (s & bs & S & _). pose proof (shape_size _ _ _ S).
  cbn in L. rewrite length_rev, linked_length in L. unfold zlen. lia.
Qed.

Lemma resolve_word m newer e older w id :
  invariant m (newer ++ e :: older) ->
  resolve m (bloomInsertID (zlen older + 1) w id)
  = Ok (link e (word (zlen (buckets m)) older (slot (zlen (buckets m)) (en_id e)))).
Proof.
  intros I. pose proof (inv_bound _ _ I) as B. pose proof (inv_size _ _ I) as Sz.
  destruct (inv_entries _ _ I) as [null R].
  unfold zlen in B, Sz. rewrite length_app in B, Sz. cbn [length] in B, Sz.
  unfold resolve. rewrite clean_insert by (unfold zlen; lia).
  destruct (Ref_represents _ _ (zlen older + 1) R) as (e' & He & ->); [unfold zlen; lia|].
  replace (Z.to_nat (zlen older + 1)) with (S (length older)) in He by (unfold zlen; lia).
  rewrite linked_cell in He. congruence.
Qed.

(** What a walk meets in the rest [l] of a bucket: nothing of the identifier, or
    an entry of the bucket with a shorter rest behind it. *)
Lemma walk_step m newer l id :
  invariant m (newer ++ l) ->
  let nb := zlen (buckets m) in
  let w := word nb l (slot nb id) in
  (bloomHasID w id = false /\ Forall (fun e => en_id e <> id) l)
  \/ bloomHasID w id = true /\ exists skipped e older,
       l = skipped ++ e :: older /\ Forall (fun e => en_id e <> id) skipped
       /\ bloomCleanID w = zlen older + 1
       /\ resolve m w = Ok (link e (word nb older (slot nb id))).
Proof.
  intros I nb w. pose proof (inv_bound _ _ I) as B. unfold zlen in B. rewrite length_app in B.
  destruct (bloomHasID w id) eqn:H; [right | left; split; [done|]].
  - split; [done|]. subst w. destruct (word_present _ _ _ H) as (skipped & e & older & -> & F & S & W).
    exists skipped, e, older. split; [done|]. split; [done|]. rewrite W. rewrite length_app in B. cbn in B. split.
    + apply clean_insert. unfold zlen. lia.
    + rewrite <- S. rewrite app_assoc in I. by apply (resolve_word m (newer ++ skipped)).
  - apply (word_absent nb); [unfold zlen; lia|done].
Qed.

(** The entries of an identifier, and the place of the oldest of them in the
    order of addition, counted from one. *)
Definition of_id (id : ID) (l : list indexEntry) : list indexEntry := filter (fun e => en_id e = id) l.

Definition oldest (id : ID) (l : list indexEntry) : option Z :=
  (fun '(i, _) => Z.of_nat i + 1) <$> list_find (fun e => en_id e = id) (rev l).

Lemma of_id_absent id l : Forall (fun e => en_id e <> id) l -> of_id id l = [].
Proof.
  unfold of_id. induction 1 as [|e l N _ IH]; [done|]. by rewrite filter_cons_False.
Qed.

Lemma of_id_skip id skipped e older :
  Forall (fun e => en_id e <> id) skipped ->
  of_id id (skipped ++ e :: older) = if bool_decide (en_id e = id) then e :: of_id id older else of_id id older.
Proof.
  intros F. unfold of_id at 1. rewrite filter_app. fold (of_id id skipped). rewrite of_id_absent by done.
  cbn [app]. case_bool_decide; [by rewrite filter_cons_True | by rewrite filter_cons_False].
Qed.

Lemma oldest_cons id e l :
  oldest id (e :: l) =
    match oldest id l with
    | Some i => Some i
    | None => if bool_decide (en_id e = id) then Some (zlen l + 1) else None
    end.
Proof.
  unfold oldest. cbn [rev]. destruct (list_find _ (rev l)) as [[i x]|] eqn:E.
  - by rewrite (list_find_app_l _ _ _ _ _ E).
  - rewrite (list_find_app_r _ _ _ E). cbn. rewrite length_rev.
    case_bool_decide; case_decide; done.
Qed.

Lemma oldest_absent id l : Forall (fun e => en_id e <> id) l -> oldest id l = None.
Proof.
  induction 1 as [|e l N _ IH]; [done|]. rewrite oldest_cons, IH. by rewrite bool_decide_eq_false_2.
Qed.

Lemma oldest_skip id skipped l :
  Forall (fun e => en_id e <> id) skipped -> oldest id (skipped ++ l) = oldest id l.
Proof.
  induction 1 as [|e skipped N _ IH]; [done|]. cbn [app]. rewrite oldest_cons, IH.
  rewrite bool_decide_eq_false_2 by done. by destruct (oldest id l).
Qed.

Lemma oldest_range id l i : oldest id l = Some i -> 1 <= i <= zlen l.
Proof.
  revert i. induction l as [|e l IH]; intros i; [done|]. rewrite oldest_cons, zlen_succ.
  assert (0 <= zlen l) by (unfold zlen; lia).
  destruct (oldest id l) as [j|]; [intros [= <-]; specialize (IH j eq_refl); lia|].
  case_bool_decide; [intros [= <-]; lia|done].
Qed.

Lemma view_link e w : en_next e = 0 -> view (link e w) = e.
Proof. by destruct e; cbn; intros ->. Qed.

Lemma view_of m newer e older : invariant m (newer ++ e :: older) -> en_next e = 0.
Proof.
  intros I. pose proof (inv_views _ _ I) as F. apply Forall_app in F as [_ F]. by inversion F.
Qed.

Lemma valuesWithID_loop_spec fuel m newer l id :
  invariant m (newer ++ l) -> (length l <= fuel)%nat ->
  exists es, valuesWithID_loop fuel m (word (zlen (buckets m)) l (slot (zlen (buckets m)) id)) id = Ok es
    /\ map view es = of_id id l.
Proof.
  revert newer l. induction fuel as [|fuel IH]; intros newer l I F;
    destruct (walk_step m newer l id I) as [[H A]|[H (skipped & e & older & -> & A & _ & R)]].
  1, 3: exists []; split; [cbn; by rewrite H | by rewrite of_id_absent].
  - rewrite length_app in F. cbn in F. lia.
  - cbn [valuesWithID_loop]. rewrite H, R. cbn [rbind].
    rewrite app_assoc, (app_assoc _ [e] older : _ ++ e :: older = _) in I. rewrite length_app in F. cbn in F.
    destruct (IH _ _ I ltac:(lia)) as (es & E & V). change (en_next (link e ?w)) with w. rewrite E. cbn [rbind].
    eexists. split; [done|]. rewrite of_id_skip by done. change (en_id (link e _)) with (en_id e).
    rewrite <- app_assoc in I. case_bool_decide; [|done]. cbn [map]. rewrite V, view_link; [done|].
    exact (view_of _ _ _ _ I).
Qed.

Lemma get_loop_spec fuel m newer l id :
  invariant m (newer ++ l) -> (length l <= fuel)%nat ->
  exists o, get_loop fuel m (word (zlen (buckets m)) l (slot (zlen (buckets m)) id)) id = Ok o
    /\ view <$> o = head (of_id id l).
Proof.
  revert newer l. induction fuel as [|fuel IH]; intros newer l I F;
    destruct (walk_step m newer l id I) as [[H A]|[H (skipped & e & older & -> & A & _ & R)]].
  1, 3: exists None; split; [cbn; by rewrite H | by rewrite of_id_absent].
  - rewrite length_app in F. cbn in F. lia.
  - cbn [get_loop]. rewrite H, R. cbn [rbind].
    rewrite app_assoc, (app_assoc _ [e] older : _ ++ e :: older = _) in I. rewrite length_app in F. cbn in F.
    destruct (IH _ _ I ltac:(lia)) as (o & E & V). rewrite of_id_skip by done.
    change (en_id (link e _)) with (en_id e). rewrite <- app_assoc in I. case_bool_decide; [|by exists o].
    eexists. split; [done|]. cbn. f_equal. by apply view_link, (view_of _ _ _ _ I).
Qed.

Lemma firstIndex_loop_spec fuel m newer l id idx :
  invariant m (newer ++ l) -> (length l <= fuel)%nat -> idx = -1 \/ zlen l < idx ->
  firstIndex_loop fuel m (word (zlen (buckets m)) l (slot (zlen (buckets m)) id)) id idx
  = Ok (default idx (oldest id l)).
Proof.
  revert newer l idx. induction fuel as [|fuel IH]; intros newer l idx I F X;
    destruct (walk_step m newer l id I) as [[H A]|[H (skipped & e & older & -> & A & C & R)]].
  1, 3: rewrite oldest_absent by done; cbn; by rewrite H.
  - rewrite length_app in F. cbn in F. lia.
  - cbn [firstIndex_loop]. rewrite H, R, C. cbn [rbind].
    rewrite app_assoc, (app_assoc _ [e] older : _ ++ e :: older = _) in I. rewrite length_app in F. cbn in F.
    unfold zlen in X. rewrite length_app in X. cbn in X.
    change (en_next (link e ?w)) with w. change (en_id (link e _)) with (en_id e).
    rewrite oldest_skip, oldest_cons by done.
    assert (G : (zlen older + 1 <? idx) || (idx =? -1) = true).
    { destruct X as [->|X]; [apply orb_true_r|]. unfold zlen. rewrite (proj2 (Z.ltb_lt _ _)) by lia. done. }
    rewrite G, andb_true_r. rewrite (IH _ _ _ I) by (lia || case_bool_decide; unfold zlen; lia).
    case_bool_decide; by destruct (oldest id older).
Qed.

Lemma zero_buckets n i : default 0 (repeat 0 n !! i) = 0.
Proof.
  destruct (repeat 0 n !! i) as [w|] eqn:E; [|done].
  by apply list_elem_of_lookup_2, list_elem_of_In, repeat_spec in E.
Qed.

Lemma init_spec : exists m, init zero = Ok m /\ invariant m [].
Proof.
  eexists. split; [reflexivity|]. constructor; try done.
  - by exists 6%nat.
  - intros h _. apply (zero_buckets (Z.to_nat initialBuckets)).
  - destruct (Alloc_represents newHAT [] newHAT_represents) as (null & R & _). by exists null.
Qed.

Lemma double_size_spec fuel n numEntries :
  1 <= n -> numEntries <= n + Z.of_nat fuel ->
  exists k, double_size fuel n numEntries = n * 2 ^ Z.of_nat k
    /\ (numEntries + maxLoad - 1) / maxLoad <= double_size fuel n numEntries.
Proof.
  unfold maxLoad. revert n. induction fuel as [|fuel IH]; intros n Hn F; cbn [double_size].
  - exists 0%nat. rewrite Z.mul_1_r. split; [done|]. apply Z.div_le_upper_bound; lia.
  - unfold maxLoad. destruct (Z.ltb_spec n ((numEntries + 4 - 1) / 4)) as [L|L].
    + destruct (IH (n * 2)) as (k & E & B); [lia..|]. exists (S k). split; [|done].
      rewrite E, Nat2Z.inj_succ, Z.pow_succ_r by lia. lia.
    + exists 0%nat. rewrite Z.mul_1_r. done.
Qed.

Lemma bucket_set m h w h' :
  0 <= h < zlen (buckets m) -> 0 <= h' ->
  bucket (set_bucket m h w) h' = if h =? h' then w else bucket m h'.
Proof.
  intros H H'. unfold bucket, zlen in *.
  change (buckets (set_bucket m h w)) with (<[Z.to_nat h := w]> (buckets m)).
  destruct (Z.eqb_spec h h') as [->|N].
  - rewrite list_lookup_insert_eq by lia. done.
  - rewrite list_lookup_insert_ne by lia. done.
Qed.

Lemma zlen_set m h w : zlen (buckets (set_bucket m h w)) = zlen (buckets m).
Proof. unfold zlen. change (buckets (set_bucket m h w)) with (<[Z.to_nat h := w]> (buckets m)). by rewrite length_insert. Qed.

(** The state of the loop that rebuilds the chains: [older] is done, the entries
    [raw] still have their former links. *)
Record relinking (m : indexMap) (older raw : list indexEntry) : Prop := {
  re_power : exists k, length (buckets m) = (2 ^ k)%nat;
  re_buckets : forall h, 0 <= h < zlen (buckets m) -> bucket m h = word (zlen (buckets m)) older h;
  re_entries : exists null, represents (entries m) (null :: rev (linked (zlen (buckets m)) older) ++ raw);
  re_bound : zlen older + zlen raw < 2 ^ bloomShift }.

Lemma relink_spec m older r raw :
  relinking m older (r :: raw) ->
  exists m', relink sum64 m (zlen older + 1) = Ok m' /\ relinking m' (view r :: older) raw
    /\ zlen (buckets m') = zlen (buckets m) /\ numentries m' = numentries m.
Proof.
  intros [[k K] B [null R] Bd]. pose proof (represents_length _ _ R) as L.
  assert (Sz : 0 <= size (entries m)) by (destruct R as (? & ? & S & _); apply S).
  cbn in L. rewrite length_app, length_rev, linked_length in L. rewrite zlen_succ in Bd. cbn in L.
  assert (0 <= zlen older) by (unfold zlen; lia). assert (0 <= zlen raw) by (unfold zlen; lia).
  unfold relink, resolve. rewrite clean_id by lia.
  destruct (Ref_represents _ _ (zlen older + 1) R) as (e & He & ->); [unfold zlen in *; lia|].
  replace (Z.to_nat (zlen older + 1)) with (S (length older)) in He by (unfold zlen; lia).
  change ((null :: ?l) !! S ?n) with (l !! n) in He.
  rewrite list_lookup_middle in He by (by rewrite length_rev, linked_length). injection He as <-.
  cbn [rbind]. set (nb := zlen (buckets m)) in *.
  pose proof (slot_range k (en_id r)) as Hs. replace (Z.of_nat (2 ^ k)) with nb in Hs by (unfold nb, zlen; lia).
  change (IndexMap.hash sum64 m (en_id r)) with (slot nb (en_id r)).
  eexists. split; [reflexivity|].
  change (en_id (_ <| en_next := _ |>)) with (en_id r). change (en_next (_ <| en_next := ?w |>)) with w.
  rewrite zlen_set. change (buckets (m <| entries := _ |>)) with (buckets m). fold nb.
  split; [|done]. rewrite B by done. constructor; rewrite ?zlen_set; change (buckets (m <| entries := _ |>)) with (buckets m); fold nb.
  - exists k. change (buckets (set_bucket ?m' ?h ?w)) with (<[Z.to_nat h := w]> (buckets m')).
    by rewrite length_insert.
  - intros h Hh. rewrite bucket_set by (exact Hs || lia). cbn [word].
    change (en_id (view r)) with (en_id r). destruct (Z.eqb_spec (slot nb (en_id r)) h) as [->|N]; [done|].
    by apply B.
  - exists null. destruct (assign_represents _ _ (zlen older + 1)
      (r <| en_next := word nb older (slot nb (en_id r)) |>) R) as [R' _]; [unfold zlen in *; lia|].
    replace (Z.to_nat (zlen older + 1)) with (S (length older)) in R' by (unfold zlen; lia).
    change (<[S ?n := ?x]> (null :: ?l)) with (null :: <[n := x]> l) in R'.
    rewrite insert_app_r_alt in R' by (by rewrite length_rev, linked_length).
    rewrite length_rev, linked_length, Nat.sub_diag in R'. cbn [linked rev]. rewrite <- app_assoc. exact R'.
  - rewrite zlen_succ. lia.
Qed.

Lemma relink_all_spec raw m older :
  relinking m older raw ->
  exists m', relink_all sum64 m (map Z.of_nat (seq (S (length older)) (length raw))) = Ok m'
    /\ relinking m' (rev (map view raw) ++ older) []
    /\ zlen (buckets m') = zlen (buckets m) /\ numentries m' = numentries m.
Proof.
  revert m older. induction raw as [|r raw IH]; intros m older I; [by exists m|].
  destruct (relink_spec m older r raw I) as (m1 & E1 & I1 & Z1 & N1). cbn [length seq map relink_all].
  replace (Z.of_nat (S (length older))) with (zlen older + 1) by (unfold zlen; lia). rewrite E1. cbn [rbind].
  destruct (IH m1 (view r :: older) I1) as (m2 & E2 & I2 & Z2 & N2). cbn [length] in E2.
  exists m2. split; [done|]. cbn [map rev]. rewrite <- app_assoc. split; [done|]. split; congruence.
Qed.

(** Growing the number of buckets rebuilds the same table. *)
Lemma rehash_spec m added newSize k :
  invariant m added -> newSize = Z.of_nat (2 ^ k) -> zlen added <= maxLoad * newSize ->
  exists m', relink_all sum64 (m <| buckets := repeat 0 (Z.to_nat newSize) |>)
               (positions (m <| buckets := repeat 0 (Z.to_nat newSize) |>)) = Ok m'
    /\ invariant m' added /\ zlen (buckets m') = newSize.
Proof.
  intros I E Ld. destruct (inv_entries _ _ I) as [null R]. set (m0 := m <| buckets := _ |>).
  assert (L0 : zlen (buckets m0) = newSize).
  { unfold zlen. change (buckets m0) with (repeat 0 (Z.to_nat newSize)). rewrite repeat_length. lia. }
  destruct (relink_all_spec (rev (linked (zlen (buckets m)) added)) m0 []) as (m' & E' & I' & Z' & N').
  - constructor.
    + exists k. change (buckets m0) with (repeat 0 (Z.to_nat newSize)). rewrite repeat_length. lia.
    + intros h _. apply zero_buckets.
    + by exists null.
    + pose proof (inv_bound _ _ I). unfold zlen in *. rewrite length_rev, linked_length. cbn. lia.
  - replace (positions m0) with (map Z.of_nat (seq 1 (length (rev (linked (zlen (buckets m)) added))))).
    2:{ unfold positions. change (entries m0) with (entries m). rewrite (inv_size _ _ I), length_rev, linked_length.
        do 2 f_equal. unfold zlen. lia. }
    exists m'. split; [done|]. rewrite app_nil_r, map_rev, rev_involutive, linked_views in I' by apply I.
    split; [|congruence]. destruct I' as [P B En _]. constructor; try done.
    + destruct En as [null' En]. exists null'. by rewrite app_nil_r in En.
    + apply I.
    + rewrite N'. apply I.
    + apply I.
    + by rewrite Z', L0.
Qed.

Lemma preallocate_spec m added numEntries :
  holds m added -> numEntries <> 0 ->
  exists m', preallocate m numEntries = Ok m' /\ invariant m' added
    /\ numEntries <= maxLoad * zlen (buckets m').
Proof.
  intros Hm Hn. unfold IndexMap.preallocate. rewrite (proj2 (Z.eqb_neq _ _)) by lia.
  assert (exists m1, (if zlen (buckets m) =? 0 then init m else Ok m) = Ok m1 /\ invariant m1 added) as (m1 & -> & I).
  { destruct Hm as [[-> ->]|I]; [apply init_spec|]. destruct (inv_power _ _ I) as [k K]. pose proof (pow2_pos k).
    exists m. rewrite (proj2 (Z.eqb_neq _ _)) by (unfold zlen; lia). done. }
  cbn [rbind]. destruct (inv_power _ _ I) as [k K]. pose proof (pow2_pos k).
  destruct (double_size_spec (Z.to_nat numEntries) (zlen (buckets m1)) numEntries) as (j & E & B);
    [unfold zlen; lia..|].
  assert (Ld : numEntries <= maxLoad * double_size (Z.to_nat numEntries) (zlen (buckets m1)) numEntries).
  { pose proof (Z.div_mod (numEntries + maxLoad - 1) maxLoad ltac:(done)).
    pose proof (Z.mod_pos_bound (numEntries + maxLoad - 1) maxLoad ltac:(done)). unfold maxLoad in *. lia. }
  set (n := double_size _ _ _) in *. destruct (Z.eqb_spec n (zlen (buckets m1))) as [En|En].
  - exists m1. rewrite <- En. done.
  - assert (P : 1 <= 2 ^ Z.of_nat j) by (rewrite <- pow2_nat; pose proof (pow2_pos j); lia).
    destruct (rehash_spec m1 added n (k + j) I) as (m2 & E2 & I2 & Z2).
    + rewrite E. unfold zlen. rewrite K, Nat.pow_add_r, Nat2Z.inj_mul, (pow2_nat j). done.
    + pose proof (inv_load _ _ I). assert (0 <= zlen (buckets m1)) by (unfold zlen; lia).
      assert (zlen (buckets m1) <= n) by (rewrite E; clear - P H1; nia). unfold maxLoad in *. lia.
    + rewrite E2. cbn [rbind]. eexists. split; [done|].
      change (buckets (m2 <| entries := _ |>)) with (buckets m2). split; [|by rewrite Z2].
      destruct I2. constructor; try done.
      change (entries (m2 <| entries := ?t |>)) with t. change (buckets (m2 <| entries := _ |>)) with (buckets m2).
      destruct inv_entries0 as [null R]. exists null. by apply preallocate_represents.
Qed.

Lemma invariant_positive m added : invariant m added -> zlen (buckets m) <> 0.
Proof. intros I. destruct (inv_power _ _ I) as [k K]. pose proof (pow2_pos k). unfold zlen. lia. Qed.

Lemma slot_invariant m added id :
  invariant m added -> 0 <= slot (zlen (buckets m)) id < zlen (buckets m).
Proof. intros I. destruct (inv_power _ _ I) as [k K]. unfold zlen. rewrite K. apply slot_range. Qed.

(** An addition to an initialised table with room for one more entry. *)
Lemma newEntry_spec m added :
  invariant m added ->
  if zlen added + 1 <? 2 ^ bloomShift
  then exists t e null, newEntry m = Ok (m <| entries := t |>, zlen added + 1)
         /\ represents t (null :: rev (linked (zlen (buckets m)) added) ++ [e])
         /\ size t = zlen added + 2
  else newEntry m = Err "repository index size overflow".
Proof.
  intros I. destruct (inv_entries _ _ I) as [null R].
  destruct (Alloc_represents _ _ R) as (e & R' & P & Sz). rewrite (inv_size _ _ I) in P, Sz.
  assert (0 <= zlen added) by (unfold zlen; lia).
  unfold newEntry. destruct (Alloc (entries m)) as [t idx]. cbn [fst snd] in *. subst idx.
  destruct (Z.ltb_spec (zlen added + 1) (2 ^ bloomShift)) as [L|L].
  - rewrite clean_id, Z.eqb_refl by lia. cbn. exists t, e, null. split; [done|]. split; [done|lia].
  - pose proof (clean_range (zlen added + 1)). rewrite (proj2 (Z.eqb_neq _ _)) by lia. done.
Qed.

Lemma add_spec m added id packIdx offset length uncompressedLength :
  holds m added ->
  if zlen added + 1 <? 2 ^ bloomShift
  then exists m', add sum64 m id packIdx offset length uncompressedLength = Ok m'
         /\ invariant m' (mkIndexEntry id 0 packIdx offset length uncompressedLength :: added)
  else add sum64 m id packIdx offset length uncompressedLength = Err "repository index size overflow".
Proof.
  intros Hm. assert (N : numentries m = zlen added) by (destruct Hm as [[-> ->]|I]; [done|apply I]).
  assert (0 <= zlen added) by (unfold zlen; lia).
  destruct (preallocate_spec m added (numentries m + 1) Hm) as (m1 & E1 & I1 & Ld); [lia|].
  unfold add. rewrite E1. cbn [rbind]. pose proof (newEntry_spec m1 added I1) as NE.
  destruct (Z.ltb_spec (zlen added + 1) (2 ^ bloomShift)) as [L|L]; [|by rewrite NE].
  destruct NE as (t & e & null & -> & R & Sz). cbn [rbind]. set (m2 := m1 <| entries := t |>).
  set (nb := zlen (buckets m1)) in *. pose proof (slot_invariant _ _ id I1) as Hs. fold nb in Hs.
  change (IndexMap.hash sum64 m1 id) with (slot nb id).
  change (bucket m2 (slot nb id)) with (bucket m1 (slot nb id)). rewrite (inv_buckets _ _ I1) by done. fold nb.
  set (e1 := mkIndexEntry id _ _ _ _ _). change (en_next e1) with (word nb added (slot nb id)).
  change (entries m2) with t. eexists. split; [reflexivity|].
  set (m3 := m2 <| entries := _ |>). set (m4 := set_bucket _ _ _).
  assert (L4 : zlen (buckets m4) = nb) by apply zlen_set.
  destruct (inv_power _ _ I1) as [k K].
  constructor; change (buckets (m4 <| numentries := _ |>)) with (buckets m4); rewrite ?L4.
  - exists k. rewrite <- K. change (buckets m4) with (<[Z.to_nat (slot nb id) := bloomInsertID (zlen added + 1) (word nb added (slot nb id)) id]> (buckets m1)).
    apply length_insert.
  - intros h Hh. change (bucket (m4 <| numentries := _ |>) h) with (bucket m4 h). unfold m4.
    rewrite bucket_set by (exact Hs || lia). cbn [word en_id].
    destruct (Z.eqb_spec (slot nb id) h) as [->|Ne]; [done|]. by apply (inv_buckets _ _ I1).
  - exists null. change (entries (m4 <| numentries := _ |>)) with (assign t (zlen added + 1) e1).
    destruct (assign_represents t _ (zlen added + 1) e1 R) as [R' _]; [lia|].
    replace (Z.to_nat (zlen added + 1)) with (S (List.length added)) in R' by (unfold zlen; lia).
    change (<[S ?n := ?x]> (null :: ?l)) with (null :: <[n := x]> l) in R'.
    rewrite insert_app_r_alt in R' by (by rewrite length_rev, linked_length).
    rewrite length_rev, linked_length, Nat.sub_diag in R'. exact R'.
  - constructor; [done|apply I1].
  - change (numentries (m4 <| numentries := _ |>)) with (numentries m1 + 1).
    rewrite (inv_count _ _ I1), zlen_succ. done.
  - by rewrite zlen_succ.
  - rewrite zlen_succ. lia.
Qed.

Lemma resolve_all_spec m added :
  invariant m added ->
  exists es, values m = Ok es /\ map view es = rev added.
Proof.
  intros I. destruct (inv_entries _ _ I) as [null R]. pose proof (inv_bound _ _ I). pose proof (inv_size _ _ I) as Sz.
  exists (rev (linked (zlen (buckets m)) added)). rewrite map_rev, linked_views by apply I. split; [|done].
  unfold values, positions.
  replace (Z.to_nat (size (entries m) - 1)) with (length (rev (linked (zlen (buckets m)) added)))
    by (rewrite length_rev, linked_length; unfold zlen in *; lia).
  assert (G : forall before rest, rev (linked (zlen (buckets m)) added) = before ++ rest ->
    resolve_all m (map Z.of_nat (seq (S (length before)) (length rest))) = Ok rest); [|by apply (G [])].
  intros before rest. revert before. induction rest as [|r rest IH]; intros before E; [done|].
  cbn [length seq map resolve_all].
  assert (Len : (length before + S (length rest) = length added)%nat).
  { apply (f_equal length) in E. rewrite length_rev, linked_length, length_app in E. by rewrite E. }
  unfold resolve. rewrite clean_id by (unfold zlen in *; lia).
  destruct (Ref_represents _ _ (Z.of_nat (S (length before))) R) as (e & He & ->); [unfold zlen in *; lia|].
  rewrite Nat2Z.id, E in He. change ((null :: ?l) !! S ?n) with (l !! n) in He.
  rewrite list_lookup_middle in He by done. injection He as <-. cbn [rbind].
  specialize (IH (before ++ [r])). rewrite length_app, Nat.add_1_r in IH. rewrite IH by (by rewrite <- app_assoc). done.
Qed.

(** What a table that holds [added] answers. *)
Record answers (m : indexMap) (added : list indexEntry) : Prop := {
  ans_len : len m = zlen added;
  ans_values : exists es, values m = Ok es /\ map view es = rev added;
  ans_valuesWithID : forall id, exists es, valuesWithID sum64 m id = Ok es /\ map view es = of_id id added;
  ans_get : forall id, exists o, get sum64 m id = Ok o /\ view <$> o = head (of_id id added);
  ans_firstIndex : forall id, firstIndex sum64 m id = Ok (default (-1) (oldest id added)) }.

Lemma holds_answers m added : holds m added -> answers m added.
Proof.
  intros [[-> ->]|I].
  - constructor; try done; [by exists []|..]; intros id; [by exists []|by exists None].
  - pose proof (invariant_positive _ _ I) as P. apply Z.eqb_neq in P. pose proof (inv_count _ _ I) as C.
    assert (F : (length added <= Z.to_nat (numentries m))%nat) by (rewrite C; unfold zlen; lia).
    constructor; [done|by apply resolve_all_spec|..]; intros id;
      unfold valuesWithID, get, firstIndex; rewrite P;
      change (IndexMap.hash sum64 m id) with (slot (zlen (buckets m)) id);
      rewrite (inv_buckets _ _ I) by (by apply slot_invariant with added).
    + by apply (valuesWithID_loop_spec _ m []).
    + by apply (get_loop_spec _ m []).
    + apply (firstIndex_loop_spec _ m []); [done..|by left].
Qed.
End Hash.
End IndexMapTheory.

(** ** Runs of operations *)

Module IndexMapProps.
Import HAT HATTheory IndexMap IndexMapTheory.

(** Operations on the tree: a new cell filled by its caller, a write through a
    reference, space reserved. *)
Inductive treeOp : Type :=
| Push (e : indexEntry)
| Store (pos : Z) (e : indexEntry)
| Reserve (numEntries : Z).

Definition tree_step (h : hashedArrayTree) (op : treeOp) : result hashedArrayTree :=
  match op with
  | Push e => let (h, idx) := Alloc h in Ok (assign h idx e)
  | Store pos e => do! Ref h pos; Ok (assign h pos e)
  | Reserve n => Ok (HAT.preallocate h n)
  end.

(** The same on an array. Positions are unsigned. *)
Definition array_ref (l : list indexEntry) (pos : Z) : result indexEntry :=
  match l !! Z.to_nat pos with Some e => Ok e | None => Err "array index out of bounds" end.

Definition array_step (l : list indexEntry) (op : treeOp) : result (list indexEntry) :=
  match op with
  | Push e => Ok (l ++ [e])
  | Store pos e => do! array_ref l pos; Ok (<[Z.to_nat pos := e]> l)
  | Reserve _ => Ok l
  end.

Definition op_ok (op : treeOp) : bool :=
  match op with Store pos _ => 0 <=? pos | _ => true end.

Fixpoint run {S O} (step : S -> O -> result S) (s : S) (ops : list O) : result S :=
  match ops with
  | [] => Ok s
  | op :: ops => let! s := step s op in run step s ops
  end.

Lemma Ref_array h l pos : represents h l -> 0 <= pos -> Ref h pos = array_ref l pos.
Proof.
  intros R Hp. pose proof (represents_length _ _ R) as L. unfold array_ref.
  destruct (Z.lt_ge_cases pos (size h)) as [G|G].
  - destruct (Ref_represents h l pos R ltac:(lia)) as (e & -> & ->). done.
  - rewrite Ref_out_of_bounds, lookup_ge_None_2 by lia. done.
Qed.

Lemma Push_array h l e :
  represents h l -> exists h', tree_step h (Push e) = Ok h' /\ represents h' (l ++ [e]).
Proof.
  intros R. destruct (Alloc_represents h l R) as (e0 & R1 & P & Sz). cbn [tree_step].
  destruct (Alloc h) as [h1 idx]. cbn [fst snd] in *. subst idx. eexists. split; [done|].
  pose proof (represents_length _ _ R) as L.
  assert (0 <= size h) by (destruct R as (? & ? & S & _); apply S).
  destruct (assign_represents h1 _ (size h) e R1) as [R2 _]; [lia|].
  rewrite <- L, insert_app_r_alt, Nat.sub_diag in R2 by lia. exact R2.
Qed.

Lemma tree_step_array h l op :
  represents h l -> op_ok op = true ->
  match tree_step h op, array_step l op with
  | Ok h, Ok l => represents h l
  | Err a, Err b => a = b
  | _, _ => False
  end.
Proof.
  intros R W. destruct op as [e|pos e|n].
  - destruct (Push_array h l e R) as (h' & -> & R'). done.
  - cbn in W. apply Z.leb_le in W. cbn [tree_step array_step].
    rewrite <- (Ref_array h l pos R W).
    destruct (Z.lt_ge_cases pos (size h)) as [G|G].
    + destruct (Ref_represents h l pos R ltac:(lia)) as (e' & _ & ->). cbn [rbind]. apply assign_represents; [done|lia].
    + by rewrite Ref_out_of_bounds.
  - apply (preallocate_represents _ _ n R).
Qed.

(** The hashed array tree is an array: after any sequence of allocations,
    writes and reservations it has the size and at every position the entry of the
    array the same operations build, it panics on a position exactly when the array
    has no such position, and merging blocks moves no entry. *)
Theorem hashedArrayTree_refines (ops : list treeOp) :
  forallb op_ok ops = true ->
  match run tree_step newHAT ops, run array_step [] ops with
  | Ok h, Ok l => HAT.size h = zlen l /\ forall pos, 0 <= pos -> Ref h pos = array_ref l pos
  | Err a, Err b => a = b
  | _, _ => False
  end.
Proof.
  enough (forall h l, represents h l -> forallb op_ok ops = true ->
    match run tree_step h ops, run array_step l ops with
    | Ok h, Ok l => represents h l | Err a, Err b => a = b | _, _ => False end) as H.
  { intros W. specialize (H newHAT [] newHAT_represents W).
    destruct (run tree_step _ _) as [h|], (run array_step _ _) as [l|]; try done.
    split; [|intros pos Hp; by apply Ref_array]. pose proof (represents_length _ _ H) as L.
    destruct H as (? & ? & S & _). pose proof (shape_size _ _ _ S). unfold zlen. lia. }
  induction ops as [|op ops IH]; intros h l R W; [done|]. cbn in W. apply andb_true_iff in W as [W1 W2].
  pose proof (tree_step_array h l op R W1) as S. cbn [run].
  destruct (tree_step h op), (array_step l op); cbn [rbind]; try done. by apply IH.
Qed.

(** Seventeen allocations double the blocks once, a reservation twice more; the
    last write is out of range. *)
Lemma hashedArrayTree_refines_witness :
  let e n := mkIndexEntry zero_id n 0 0 0 0 in
  let ops := map (fun n => Push (e (Z.of_nat n))) (seq 0 17) ++ [Reserve 300; Store 16 (e 99); Store 17 (e 1)] in
  forallb op_ok ops = true
  /\ run tree_step newHAT ops = Err "array index out of bounds"
  /\ match run tree_step newHAT ops, run array_step [] ops with
     | Ok h, Ok l => HAT.size h = zlen l /\ forall pos, 0 <= pos -> Ref h pos = array_ref l pos
     | Err a, Err b => a = b
     | _, _ => False
     end.
Proof.
  intros e ops. split; [reflexivity|]. split; [vm_compute; reflexivity|].
  apply (hashedArrayTree_refines ops). reflexivity.
Defined.

(** Operations on the table. *)
Inductive mapOp : Type :=
| Add (id : ID) (packIdx offset length uncompressedLength : Z)
| Preallocate (numEntries : Z).

Definition map_step (sum64 : ID -> Z) (m : indexMap) (op : mapOp) : result indexMap :=
  match op with
  | Add id packIdx offset length uncompressedLength =>
      add sum64 m id packIdx offset length uncompressedLength
  | Preallocate n => IndexMap.preallocate sum64 m n
  end.

(** The entries a sequence of operations adds, the newest first. *)
Definition addition (op : mapOp) : option indexEntry :=
  match op with
  | Add id packIdx offset length uncompressedLength =>
      Some (mkIndexEntry id 0 packIdx offset length uncompressedLength)
  | Preallocate _ => None
  end.

Definition additions (ops : list mapOp) : list indexEntry := rev (omap addition ops).

Lemma map_step_spec sum64 m added op :
  holds sum64 m added ->
  match addition op with
  | Some e => if zlen added + 1 <? 2 ^ bloomShift
              then exists m', map_step sum64 m op = Ok m' /\ holds sum64 m' (e :: added)
              else map_step sum64 m op = Err "repository index size overflow"
  | None => exists m', map_step sum64 m op = Ok m' /\ holds sum64 m' added
  end.
Proof.
  intros H. destruct op as [id p o l u|n]; cbn.
  - pose proof (add_spec sum64 m added id p o l u H) as A. destruct (_ <? _); [|done].
    destruct A as (m' & ? & ?). exists m'. split; [done|by right].
  - destruct (decide (n = 0)) as [->|N]; [by exists m|].
    destruct (preallocate_spec sum64 m added n H N) as (m' & ? & ? & _). exists m'. split; [done|by right].
Qed.

Lemma additions_cons op ops : additions (op :: ops) = additions ops ++ option_list (addition op).
Proof. unfold additions. cbn. destruct (addition op); cbn; [done|]. by rewrite app_nil_r. Qed.

Lemma run_spec sum64 m added ops :
  holds sum64 m added -> zlen added < 2 ^ bloomShift ->
  if zlen (additions ops ++ added) <? 2 ^ bloomShift
  then exists m', run (map_step sum64) m ops = Ok m' /\ holds sum64 m' (additions ops ++ added)
  else run (map_step sum64) m ops = Err "repository index size overflow".
Proof.
  revert m added. induction ops as [|op ops IH]; intros m added H B.
  - cbn [app additions omap list_omap rev run]. rewrite (proj2 (Z.ltb_lt _ _)) by done. by exists m.
  - pose proof (map_step_spec sum64 m added op H) as A. cbn [run]. rewrite additions_cons, <- app_assoc.
    destruct (addition op) as [e|]; cbn [option_list app].
    + destruct (Z.ltb_spec (zlen added + 1) (2 ^ bloomShift)) as [L|L].
      * destruct A as (m' & -> & H'). cbn [rbind]. apply (IH m' (e :: added)); [done|]. by rewrite zlen_succ.
      * rewrite A. cbn [rbind]. rewrite (proj2 (Z.ltb_ge _ _)); [done|]. unfold zlen in *. rewrite length_app. cbn. lia.
    + destruct A as (m' & -> & H'). by apply IH.
Qed.

(** C14. The table of the blob index refines the plain list of its additions, for
    every hash function: any sequence of additions and preallocations from the zero
    value succeeds while fewer than 2^36 entries were added, keeps the invariant of
    the buckets, links and Bloom filters, and afterwards every lookup ends with the
    answer of the list: the number of entries, all of them in the order of addition,
    those of an identifier from the newest to the oldest, the newest of them, and the
    place of the oldest. One addition more panics. *)
Theorem indexMap_refines (sum64 : ID -> Z) (ops : list mapOp) :
  if zlen (additions ops) <? 2 ^ bloomShift
  then exists m, run (map_step sum64) zero ops = Ok m
         /\ holds sum64 m (additions ops) /\ answers sum64 m (additions ops)
  else run (map_step sum64) zero ops = Err "repository index size overflow".
Proof.
  pose proof (run_spec sum64 zero [] ops (or_introl (conj eq_refl eq_refl)) eq_refl) as R.
  rewrite app_nil_r in R. destruct (_ <? _); [|done]. destruct R as (m & E & H).
  exists m. split; [done|]. split; [done|]. by apply holds_answers.
Qed.

Lemma run_holds sum64 m added ops m' :
  holds sum64 m added -> zlen added < 2 ^ bloomShift -> run (map_step sum64) m ops = Ok m' ->
  holds sum64 m' (additions ops ++ added) /\ zlen (additions ops ++ added) < 2 ^ bloomShift.
Proof.
  intros H B E. pose proof (run_spec sum64 m added ops H B) as R. rewrite E in R.
  destruct (Z.ltb_spec (zlen (additions ops ++ added)) (2 ^ bloomShift)) as [L|L]; [|done].
  destruct R as (? & [= <-] & ?). done.
Qed.

Lemma oldest_kept id newer l i : oldest id l = Some i -> oldest id (newer ++ l) = Some i.
Proof.
  intros E. induction newer as [|e newer IH]; [done|]. cbn [app]. by rewrite oldest_cons, IH.
Qed.

(** The index of an identifier never changes: once [firstIndex] found an entry,
    it returns the same index after any further additions and preallocations, those
    that rebuild all the chains included. *)
Theorem firstIndex_stable (sum64 : ID -> Z) (before after : list mapOp) (m m' : indexMap) (id : ID) (i : Z) :
  run (map_step sum64) zero before = Ok m -> run (map_step sum64) m after = Ok m' ->
  firstIndex sum64 m id = Ok i -> i <> -1 -> firstIndex sum64 m' id = Ok i.
Proof.
  intros R1 R2 F N. destruct (run_holds sum64 zero [] before m) as [H1 B1]; [by left|done..|].
  rewrite app_nil_r in H1, B1. destruct (run_holds sum64 m _ after m' H1 B1 R2) as [H2 _].
  rewrite (ans_firstIndex _ _ _ (holds_answers _ _ _ H1)) in F.
  rewrite (ans_firstIndex _ _ _ (holds_answers _ _ _ H2)).
  destruct (oldest id (additions before)) as [j|] eqn:E; cbn in F; [|congruence].
  by rewrite (oldest_kept _ _ _ _ E).
Qed.

(** A hash that sends everything to one bucket, and 300 entries, which double the
    buckets: the identifier of the last entry was first added as the third. *)
Definition sample_id (n : nat) : ID := z2b (Z.of_nat (n mod 7)) :: List.tl zero_id.
Definition sample_ops (first count : nat) : list mapOp :=
  map (fun n => Add (sample_id n) (Z.of_nat n) 0 1 0) (seq first count).

Lemma firstIndex_stable_witness :
  firstIndex (fun _ => 5)
    (match run (map_step (fun _ => 5)) zero (sample_ops 1 300) with Ok m => m | Err _ => zero end)
    (sample_id 3) = Ok 3.
Proof.
  apply (firstIndex_stable (fun _ => 5) (sample_ops 1 10) (sample_ops 11 290)
    (match run (map_step (fun _ => 5)) zero (sample_ops 1 10) with Ok m => m | Err _ => zero end)).
  - vm_compute. reflexivity.
  - vm_compute. reflexivity.
  - vm_compute. reflexivity.
  - discriminate.
Defined.

End IndexMapProps.
