(* ===== verification/Crypto.v ===== *)
(** * Encryption of stored data ([internal/repository/crypto])

    AES-256 in counter mode with a Poly1305-AES tag. The block cipher and the
    one-time authenticator are parameters of the model. The theorems show that what
    [Seal] writes [Open] reads back, and that [Open] accepts nothing but a tagged
    ciphertext of a valid key. *)
From stdpp Require Import base list numbers strings.
From Stdlib Require Import ZArith Lia.
From S2P Require Import Prelude Codec.

Definition aesKeySize : Z := 32.
Definition macKeySizeK : Z := 16.
Definition macKeySizeR : Z := 16.
Definition ivSize : Z := 16.
Definition macSize : Z := 16.
Definition Extension : Z := ivSize + macSize.

Definition PlaintextLength (ciphertextSize : Z) : Z := ciphertextSize - Extension.
Definition CiphertextLength (plaintextSize : Z) : Z := plaintextSize + Extension.

Record Key := mkKey { mac_K : bytes; mac_R : bytes; encryption : bytes }.

Definition nonzero (data : bytes) : bool := existsb (fun b => negb (b2z b =? 0)) data.

Definition MACKey_Valid (k : Key) : bool :=
  let nonzeroK := nonzero (mac_K k) in
  if negb nonzeroK then false else nonzero (mac_R k).

Definition EncryptionKey_Valid (k : Key) : bool := nonzero (encryption k).

Definition Key_Valid (k : Key) : bool := EncryptionKey_Valid k && MACKey_Valid k.

(** [sum |= b] over the bytes of the nonce *)
Definition validNonce (nonce : bytes) : bool :=
  0 <? foldl (fun sum b => Z.lor sum (b2z b)) 0 nonce.

Definition NonceSize : Z := ivSize.
Definition Overhead : Z := macSize.

Definition xor (a b : bytes) : bytes := zip_with (fun x y => z2b (Z.lxor (b2z x) (b2z y))) a b.

(** The primitives: one block of AES under a key, the Poly1305 tag of a message
    under a one-time key, and its verification. *)
Class Cipher : Type := {
  aes : bytes -> bytes -> bytes;
  poly1305_Sum : bytes -> bytes -> bytes;
  poly1305_Verify : bytes -> bytes -> bytes -> bool }.

(** Their documented behaviour: the sizes of blocks and tags, and that
    verification compares with the tag. *)
Class CipherLaws `{Cipher} : Prop := {
  aes_block : forall key block, length (aes key block) = 16%nat;
  poly1305_tag : forall msg key, length (poly1305_Sum msg key) = 16%nat;
  poly1305_verify : forall mac msg key,
    poly1305_Verify mac msg key = true <-> mac = poly1305_Sum msg key }.

Section Operations.
Context {cipher : Cipher}.

(** The counter of [cipher.NewCTR]: the nonce as a big-endian number, modulo 2^128. *)
Fixpoint keystream (blocks : nat) (key : bytes) (counter : Z) : bytes :=
  match blocks with
  | O => []
  | S blocks => aes key (be 16 counter) ++ keystream blocks key (counter + 1)
  end.

Definition XORKeyStream (key nonce src : bytes) : bytes :=
  xor src (keystream (Z.to_nat ((zlen src + 15) / 16)) key (unbe nonce)).

(** [r || AES(k, nonce)] *)
Definition poly1305PrepareKey (nonce : bytes) (k : Key) : bytes := mac_R k ++ aes (mac_K k) nonce.

Definition poly1305MAC (msg nonce : bytes) (k : Key) : bytes :=
  poly1305_Sum msg (poly1305PrepareKey nonce k).

Definition poly1305Verify (msg nonce : bytes) (k : Key) (mac : bytes) : bool :=
  poly1305_Verify mac msg (poly1305PrepareKey nonce k).

Definition Seal (k : Key) (dst nonce plaintext additionalData : bytes) : result bytes :=
  do! guard (negb (Key_Valid k)) "key is invalid";
  do! guard (0 <? zlen additionalData) "additional data is not supported";
  do! guard (negb (zlen nonce =? ivSize)) "incorrect nonce length";
  do! guard (negb (validNonce nonce)) "nonce is invalid";
  let out := XORKeyStream (encryption k) nonce plaintext in
  let mac := poly1305MAC out nonce k in
  Ok (dst ++ out ++ mac).

Definition Open (k : Key) (dst nonce ciphertext : bytes) : result bytes :=
  do! guard (negb (Key_Valid k)) "invalid key";
  do! guard (negb (zlen nonce =? ivSize)) "incorrect nonce length";
  do! guard (negb (validNonce nonce)) "nonce is invalid";
  do! guard (zlen ciphertext <? Overhead) "trying to decrypt invalid data: ciphertext too short";
  let l := Z.to_nat (zlen ciphertext - macSize) in
  let ct := take l ciphertext in
  let mac := drop l ciphertext in
  do! guard (negb (poly1305Verify ct nonce k mac)) "ciphertext verification failed";
  Ok (dst ++ XORKeyStream (encryption k) nonce ct).

End Operations.

(** ** Laws *)

Section Laws.
Context {cipher : Cipher} {laws : CipherLaws}.

Lemma keystream_length n key c : length (keystream n key c) = (n * 16)%nat.
Proof. revert c. induction n as [|n IH]; intros c; cbn; [done|]. rewrite length_app, aes_block, IH. lia. Qed.

Lemma lxor_byte a b : 0 <= Z.lxor (b2z a) (b2z b) < 256.
Proof.
  pose proof (b2z_range a). pose proof (b2z_range b).
  split; [apply Z.lxor_nonneg; lia|].
  destruct (decide (Z.lxor (b2z a) (b2z b) = 0)) as [->|N]; [done|].
  assert (0 <= Z.lxor (b2z a) (b2z b)) by (apply Z.lxor_nonneg; lia).
  change 256 with (2 ^ 8). apply Z.log2_lt_pow2; [lia|].
  eapply Z.le_lt_trans; [apply Z.log2_lxor; lia|].
  assert (L : forall x, 0 <= x < 256 -> Z.log2 x < 8).
  { intros x Hx. destruct (decide (x = 0)) as [->|]; [done|]. apply Z.log2_lt_pow2; lia. }
  apply Z.max_lub_lt; by apply L.
Qed.

Lemma xor_xor a s : (length a <= length s)%nat -> xor (xor a s) s = a.
Proof.
  revert s. induction a as [|x a IH]; intros [|y s] L; cbn in *; [done|done|lia|].
  f_equal; [|apply IH; lia]. rewrite b2z_z2b, Z.mod_small by apply lxor_byte.
  rewrite Z.lxor_assoc, Z.lxor_nilpotent, Z.lxor_0_r. apply z2b_b2z.
Qed.

Lemma xor_length a s : (length a <= length s)%nat -> length (xor a s) = length a.
Proof. intros L. unfold xor. rewrite length_zip_with. lia. Qed.

Lemma keystream_enough key nonce (src : bytes) :
  (length src <= length (keystream (Z.to_nat ((zlen src + 15) / 16)) key (unbe nonce)))%nat.
Proof.
  rewrite keystream_length. pose proof (zlen_nonneg src).
  pose proof (Z.div_mod (zlen src + 15) 16). pose proof (Z.mod_pos_bound (zlen src + 15) 16).
  unfold zlen in *. lia.
Qed.

Lemma XORKeyStream_length key nonce src : length (XORKeyStream key nonce src) = length src.
Proof. apply xor_length, keystream_enough. Qed.

(** Counter mode is its own inverse. *)
Lemma XORKeyStream_twice key nonce src : XORKeyStream key nonce (XORKeyStream key nonce src) = src.
Proof.
  unfold XORKeyStream at 1. unfold zlen. rewrite XORKeyStream_length. apply xor_xor, keystream_enough.
Qed.

Lemma Seal_length k dst nonce plaintext out :
  Seal k dst nonce plaintext [] = Ok out ->
  exists ct, out = dst ++ ct /\ zlen ct = zlen plaintext + Overhead.
Proof.
  intros H. unfold Seal in H. inv_results. eexists. split; [done|].
  unfold zlen. rewrite length_app, XORKeyStream_length. unfold poly1305MAC. rewrite poly1305_tag.
  unfold Overhead, macSize. lia.
Qed.

Lemma Open_Seal k dst nonce plaintext out :
  Seal k [] nonce plaintext [] = Ok out -> Open k dst nonce out = Ok (dst ++ plaintext).
Proof.
  intros H. unfold Seal in H. inv_results. unfold Open.
  repeat match goal with E : _ = false |- _ => rewrite E; clear E; cbn [guard rbind] end. cbn [app].
  set (ct := XORKeyStream (encryption k) nonce plaintext).
  assert (L : length (poly1305MAC ct nonce k) = 16%nat) by apply poly1305_tag.
  unfold zlen. rewrite length_app, L. unfold Overhead, macSize.
  rewrite (proj2 (Z.ltb_ge _ _)) by lia. cbn [guard rbind].
  replace (Z.to_nat _) with (length ct) by lia. rewrite take_app_length, drop_app_length.
  unfold poly1305Verify. rewrite (proj2 (poly1305_verify _ _ _)) by done. cbn [negb guard rbind]. unfold ct. by rewrite XORKeyStream_twice.
Qed.

Lemma Open_tagged k dst nonce data out :
  Open k dst nonce data = Ok out ->
  exists plaintext, Seal k [] nonce plaintext [] = Ok data /\ out = dst ++ plaintext.
Proof.
  intros H. unfold Open in H. inv_results. split_bools.
  set (l := Z.to_nat (zlen data - macSize)) in *.
  exists (XORKeyStream (encryption k) nonce (take l data)). split; [|done].
  match goal with V : poly1305Verify _ _ _ _ = true |- _ => apply poly1305_verify in V; rename V into Tag end.
  unfold Seal. rewrite XORKeyStream_twice. unfold poly1305MAC. rewrite <- Tag, take_drop.
  repeat match goal with E : Key_Valid _ = true |- _ => rewrite E; clear E
         | E : validNonce _ = true |- _ => rewrite E; clear E end.
  by rewrite (proj2 (Z.eqb_eq _ _)).
Qed.

(** Encryption and decryption are inverse: [Open] returns a plaintext for
    exactly those bytes that [Seal] makes of this plaintext under the same key and
    nonce; everything else, a changed byte of the ciphertext or tag included, is
    refused. *)
Theorem Open_exactly_Seal (k : Key) (nonce data plaintext : bytes) :
  Open k [] nonce data = Ok plaintext <-> Seal k [] nonce plaintext [] = Ok data.
Proof.
  split; intros E; [|by rewrite (Open_Seal _ _ _ _ _ E)].
  by apply Open_tagged in E as (p & E & ->).
Qed.
End Laws.

(** A cipher that satisfies the laws, for examples. *)
Definition fit (l : bytes) : bytes := take 16 (l ++ repeat x00 16).

#[local] Instance toy_cipher : Cipher := {
  aes key block := xor (fit key) (fit block);
  poly1305_Sum msg key := xor (fit msg) (fit key);
  poly1305_Verify mac msg key := bytes_eqb mac (xor (fit msg) (fit key)) }.

Lemma fit_length l : length (fit l) = 16%nat.
Proof. unfold fit. rewrite length_take, length_app, repeat_length. lia. Qed.

#[local] Instance toy_laws : CipherLaws.
Proof.
  split.
  - intros key block. cbn. rewrite xor_length; rewrite !fit_length; lia.
  - intros msg key. cbn. rewrite xor_length; rewrite !fit_length; lia.
  - intros mac msg key. apply bytes_eqb_eq.
Qed.

Definition toy_key : Key := mkKey (repeat x01 16) (repeat x02 16) (repeat x03 32).
Definition toy_nonce : bytes := repeat x07 16.

Lemma Open_exactly_Seal_witness :
  let data := match Seal toy_key [] toy_nonce (str "a message of more than one block") [] with Ok d => d | Err _ => [] end in
  zlen data = 48 /\ Open toy_key [] toy_nonce data = Ok (str "a message of more than one block").
Proof.
  intros data. split; [vm_compute; reflexivity|].
  apply (Open_exactly_Seal toy_key toy_nonce data). vm_compute. reflexivity.
Defined.
