(* ===== verification/Pack.v ===== *)
(** * Pack files ([internal/repository/pack])

    A pack file is the concatenation of encrypted blobs, followed by an encrypted
    header that lists them and the length of this header. The model has the packer
    that writes such a file to an [io.Writer] and the reader that lists the blobs of
    one, with its two-step download of the header. *)
From stdpp Require Import base list numbers strings.
From Stdlib Require Import ZArith Lia.
From coqutil Require Import Datatypes.RecordSetters.
From S2P Require Import Prelude Codec Crypto.
Import TriangleBracketNotations.

(** ** Blobs *)

Definition InvalidBlob : Z := 0.
Definition DataBlob : Z := 1.
Definition TreeBlob : Z := 2.
Definition NumBlobTypes : Z := 3.

Record BlobHandle := mkBlobHandle { bh_ID : ID; bh_Type : Z }.

Record Blob := mkBlob { b_handle : BlobHandle; b_Length : Z; b_Offset : Z; b_UncompressedLength : Z }.

Record PackedBlob := mkPackedBlob { pb_Pack : ID; pb_Blob : Blob }.

#[export] Instance BlobHandle_eq_dec : EqDecision BlobHandle.
Proof. solve_decision. Defined.
#[export] Instance Blob_eq_dec : EqDecision Blob.
Proof. solve_decision. Defined.
#[export] Instance PackedBlob_eq_dec : EqDecision PackedBlob.
Proof. solve_decision. Defined.

Definition IsCompressed (b : Blob) : bool := negb (b_UncompressedLength b =? 0).

Definition DataLength (b : Blob) : Z :=
  if negb (b_UncompressedLength b =? 0) then b_UncompressedLength b
  else wrap_u 64 (PlaintextLength (b_Length b)).

Definition UncompressedCiphertextLength (b : Blob) : Z := CiphertextLength (DataLength b).

(** ** Sizes *)

Definition headerLengthSize : Z := 4.
Definition entrySize : Z := 1 + 2 * headerLengthSize + 32.
Definition plainEntrySize : Z := 1 + headerLengthSize + 32.
Definition headerSize : Z := headerLengthSize + Extension.
Definition MaxHeaderSize : Z := 16 * 1024 * 1024 + headerLengthSize.
Definition MaxHeaderEntries : Z := (MaxHeaderSize - headerSize) / entrySize.
Definition minFileSize : Z := plainEntrySize + Extension + headerLengthSize.
Definition eagerEntries : Z := 15.

Definition CalculateEntrySize (compressed : bool) : Z :=
  if compressed then entrySize else plainEntrySize.

Definition CalculateHeaderSize (blobs : list Blob) : Z :=
  foldl (fun size blob => size + CalculateEntrySize (IsCompressed blob)) headerSize blobs.

(** Little-endian numbers. *)
Definition le (n : nat) (z : Z) : bytes := rev (be n z).
Definition unle (l : bytes) : Z := unbe (rev l).

(** ** The header *)

Definition header_type (b : Blob) : result Z :=
  if (bh_Type (b_handle b) =? DataBlob) && (b_UncompressedLength b =? 0) then Ok 0
  else if (bh_Type (b_handle b) =? TreeBlob) && (b_UncompressedLength b =? 0) then Ok 1
  else if (bh_Type (b_handle b) =? DataBlob) && negb (b_UncompressedLength b =? 0) then Ok 2
  else if (bh_Type (b_handle b) =? TreeBlob) && negb (b_UncompressedLength b =? 0) then Ok 3
  else Err "invalid blob type".

Definition header_entry (b : Blob) : result bytes :=
  let! tpe := header_type b in
  Ok ([z2b tpe] ++ le 4 (b_Length b)
      ++ (if negb (b_UncompressedLength b =? 0) then le 4 (b_UncompressedLength b) else [])
      ++ bh_ID (b_handle b)).

Fixpoint makeHeader (blobs : list Blob) : result bytes :=
  match blobs with
  | [] => Ok []
  | b :: blobs => let! e := header_entry b in let! rest := makeHeader blobs in Ok (e ++ rest)
  end.

(** The entry and the number of bytes it takes. *)
Definition parseHeaderEntry (p : bytes) : result (Blob * Z) :=
  let l := zlen p in
  do! guard (l <? plainEntrySize) "parseHeaderEntry: buffer too short";
  let tpe := b2z (byte_at 0 p) in
  let! type :=
    if (tpe =? 0) || (tpe =? 2) then Ok DataBlob
    else if (tpe =? 1) || (tpe =? 3) then Ok TreeBlob
    else Err "invalid type" in
  let length := unle (sub 1 5 p) in
  let p := from 5 p in
  if (tpe =? 2) || (tpe =? 3) then
    do! guard (l <? entrySize) "parseHeaderEntry: buffer too short";
    let uncompressed := unle (sub 0 4 p) in
    let p := from 4 p in
    Ok (mkBlob (mkBlobHandle (take 32 p) type) length 0 uncompressed, entrySize)
  else Ok (mkBlob (mkBlobHandle (take 32 p) type) length 0 0, plainEntrySize).

(** The entries of a decrypted header; offsets accumulate. *)
Fixpoint parseEntries (fuel : nat) (buf : bytes) (pos : Z) : result (list Blob) :=
  match buf with
  | [] => Ok []
  | _ :: _ =>
      match fuel with
      | O => Err "out of fuel"
      | S fuel =>
          let! (entry, size) := parseHeaderEntry buf in
          let! rest := parseEntries fuel (from (Z.to_nat size) buf) (pos + b_Length entry) in
          Ok (entry <| b_Offset := pos |> :: rest)
      end
  end.

(** ** Reading the header *)

(** [rd.ReadAt] of an in-memory file: [n] bytes at [off]. *)
Definition ReadAt (rd : bytes) (n off : Z) : result bytes :=
  do! guard (off <? 0) "negative offset";
  do! guard (zlen rd <? off + n) "EOF";
  Ok (sub (Z.to_nat off) (Z.to_nat (off + n)) rd).

Definition readRecords (rd : bytes) (size bufsize : Z) : result (bytes * Z) :=
  let bufsize := if size <? bufsize then size else bufsize in
  let! b := ReadAt rd bufsize (size - bufsize) in
  let hlen := unle (from (length b - 4) b) in
  let b := take (length b - 4) b in
  do! guard (hlen =? 0) "header length is zero";
  do! guard (hlen <? Extension) "header length is too short";
  do! guard (size - headerLengthSize <? hlen) "header is larger than file";
  do! guard (MaxHeaderSize - headerLengthSize <? hlen) "header is larger than maxHeaderSize";
  let total := hlen + headerLengthSize in
  let b := if total <? bufsize then from (length b - Z.to_nat hlen) b else b in
  Ok (b, total).

Definition eagerSize : Z := eagerEntries * entrySize + headerSize.

Definition readHeader (rd : bytes) (size : Z) : result bytes :=
  do! guard (size <? minFileSize) "file is too short";
  let! (b, c) := readRecords rd size eagerSize in
  if c <=? eagerSize then Ok b
  else let! (b, _) := readRecords rd size c in Ok b.

Section Keyed.
Context {cipher : Cipher}.

Definition List (k : Key) (rd : bytes) (size : Z) : result (list Blob * Z) :=
  let! buf := readHeader rd size in
  do! guard (zlen buf <? CiphertextLength 0) "invalid header, too short";
  let hdrSize := wrap_u 32 (headerLengthSize + zlen buf) in
  let nonce := take (Z.to_nat NonceSize) buf in
  let buf := from (Z.to_nat NonceSize) buf in
  let! buf := Open k [] nonce buf in
  let! entries := parseEntries (length buf) buf 0 in
  Ok (entries, hdrSize).

Definition verifyHeader (k : Key) (header : bytes) (expected : list Blob) : result unit :=
  let! (decoded, hdrSize) := List k header (zlen header) in
  do! guard (negb (hdrSize =? wrap_u 32 (zlen header))) "unexpected header size";
  do! guard (negb (zlen decoded =? zlen expected)) "pack header size mismatch";
  guard (negb (bool_decide (decoded = expected))) "pack header entry mismatch".

(** The encrypted header that [Finalize] writes, with its length behind it. *)
Definition encryptHeader (k : Key) (nonce : bytes) (blobs : list Blob) : result bytes :=
  let! header := makeHeader blobs in
  let! encryptedHeader := Seal k nonce nonce header [] in
  let encryptedHeader := encryptedHeader ++ le 4 (zlen encryptedHeader) in
  do! verifyHeader k encryptedHeader blobs;
  Ok encryptedHeader.

(** ** The packer *)

(** The writer is a parameter: how many of the given bytes it takes, after what
    was written before, and whether it reports an error. *)
Context (Write : bytes -> bytes -> Z * option string).

Record Packer := mkPacker { p_blobs : list Blob; p_bytes : Z; p_err : option string; p_written : bytes }.

Definition NewPacker : Packer := mkPacker [] 0 None [].

Definition ErrBroken : string := "packer cannot be used after a write error".

(** Returns the number of bytes with the error, as the code does. *)
Definition Packer_Add (p : Packer) (t : Z) (id : ID) (data : bytes) (uncompressedLength : Z)
  : Packer * (Z * option string) :=
  match p_err p with
  | Some _ => (p, (0, Some ErrBroken))
  | None =>
      let (n, err) := Write (p_written p) data in
      let p := p <| p_written := p_written p ++ take (Z.to_nat n) data |> in
      match err with
      | Some _ => (p <| p_err := Some "Write" |>, (n, Some "Write"))
      | None =>
          if negb (n =? zlen data) then (p <| p_err := Some "short write" |>, (n, Some "short write"))
          else
            let c := mkBlob (mkBlobHandle id t) n (p_bytes p) (wrap_u 64 uncompressedLength) in
            (p <| p_bytes := p_bytes p + n |> <| p_blobs := p_blobs p ++ [c] |>,
             (n + CalculateEntrySize (IsCompressed c), None))
      end
  end.

Definition Packer_Finalize (p : Packer) (k : Key) (nonce : bytes) : Packer * option string :=
  match p_err p with
  | Some _ => (p, Some ErrBroken)
  | None =>
      match encryptHeader k nonce (p_blobs p) with
      | Err e => (p, Some e)
      | Ok encryptedHeader =>
          let (n, err) := Write (p_written p) encryptedHeader in
          let p := p <| p_written := p_written p ++ take (Z.to_nat n) encryptedHeader |> in
          match err with
          | Some _ => (p <| p_err := Some "Write" |>, Some "Write")
          | None =>
              if negb (n =? zlen encryptedHeader)
              then (p <| p_err := Some "wrong number of bytes written" |>, Some "wrong number of bytes written")
              else (p <| p_bytes := p_bytes p + zlen encryptedHeader |>, None)
          end
      end
  end.

Definition PackSize (p : Packer) : Z := p_bytes p + CalculateHeaderSize (p_blobs p).
Definition HeaderFull (p : Packer) : bool :=
  MaxHeaderSize <? headerSize + (zlen (p_blobs p) + 1) * entrySize.

(** [Merge]: the blobs of the other packer, read one after the other. *)
Fixpoint Merge (p : Packer) (other : list Blob) (otherData : bytes) : Packer * option string :=
  match other with
  | [] => (p, None)
  | blob :: other =>
      if zlen otherData <? b_Length blob then (p, Some "unexpected EOF")
      else
        let data := take (Z.to_nat (b_Length blob)) otherData in
        match Packer_Add p (bh_Type (b_handle blob)) (bh_ID (b_handle blob)) data
                (wrap_i 64 (b_UncompressedLength blob)) with
        | (p, (_, Some e)) => (p, Some e)
        | (p, (_, None)) => Merge p other (from (Z.to_nat (b_Length blob)) otherData)
        end
  end.

End Keyed.

(** ** The header is read as it was written *)

Lemma le_length n z : length (le n z) = n.
Proof. unfold le. by rewrite length_rev, be_length. Qed.

Lemma unle_le n z : 0 <= z < 256 ^ Z.of_nat n -> unle (le n z) = z.
Proof. intros R. unfold unle, le. rewrite rev_involutive, unbe_be. by apply Z.mod_small. Qed.

(** A blob that a header entry can express. *)
Record expressible (b : Blob) : Prop := {
  ex_type : bh_Type (b_handle b) = DataBlob \/ bh_Type (b_handle b) = TreeBlob;
  ex_id : id_ok (bh_ID (b_handle b));
  ex_length : uint32 (b_Length b);
  ex_uncompressed : uint32 (b_UncompressedLength b) }.

Lemma header_entry_plain b :
  expressible b -> b_UncompressedLength b = 0 ->
  header_entry b = Ok ([z2b (bh_Type (b_handle b) - 1)] ++ le 4 (b_Length b) ++ bh_ID (b_handle b)).
Proof.
  intros [[T|T] _ _ _] U; unfold header_entry, header_type; rewrite T, U; done.
Qed.

Lemma header_entry_compressed b :
  expressible b -> b_UncompressedLength b <> 0 ->
  header_entry b = Ok ([z2b (bh_Type (b_handle b) + 1)] ++ le 4 (b_Length b)
                       ++ le 4 (b_UncompressedLength b) ++ bh_ID (b_handle b)).
Proof.
  intros [[T|T] _ _ _] U; unfold header_entry, header_type; apply Z.eqb_neq in U; rewrite T, U; done.
Qed.

Lemma type_byte z : 0 <= z < 256 -> b2z (z2b z) = z.
Proof. intros H. rewrite b2z_z2b. by apply Z.mod_small. Qed.

Lemma take_id (id rest : bytes) : id_ok id -> take 32 (id ++ rest) = id.
Proof. intros L. by rewrite take_app_length'. Qed.

(** An entry is parsed as it was written, wherever it ends. *)
Lemma parseHeaderEntry_written b rest :
  expressible b ->
  exists e, header_entry b = Ok e /\ zlen e = CalculateEntrySize (IsCompressed b)
    /\ parseHeaderEntry (e ++ rest) = Ok (b <| b_Offset := 0 |>, zlen e).
Proof.
  intros X. destruct X as [T I Rl Ru] eqn:EX. clear EX. unfold IsCompressed.
  assert (L4 : forall z, length (le 4 z) = 4%nat) by (intros; apply le_length).
  assert (U4 : forall z, uint32 z -> unle (le 4 z) = z) by (intros; by apply unle_le).
  assert (Li : length (bh_ID (b_handle b)) = 32%nat) by exact I.
  destruct (Z.eqb_spec (b_UncompressedLength b) 0) as [U|U].
  - eexists. split; [by apply header_entry_plain|]. cbn [negb CalculateEntrySize].
    assert (Z1 : zlen ([z2b (bh_Type (b_handle b) - 1)] ++ le 4 (b_Length b) ++ bh_ID (b_handle b)) = plainEntrySize).
    { unfold zlen. rewrite !length_app, L4, Li. done. }
    split; [done|]. rewrite Z1. unfold parseHeaderEntry. rewrite zlen_app, Z1.
    pose proof (zlen_nonneg rest). rewrite (proj2 (Z.ltb_ge _ _)) by lia. cbn [guard rbind].
    rewrite <- !app_assoc. cbn [app].
    change (byte_at 0 (?x :: ?l)) with x.
    change (sub 1 5 (?x :: ?l)) with (take 4 l). change (from 5 (?x :: ?l)) with (drop 4 l).
    rewrite take_app_length', drop_app_length' by done. rewrite U4, take_id by done.
    rewrite type_byte by (destruct T as [->| ->]; done). clear Z1.
    destruct b as [[id t] len off u]; cbn in *; destruct T as [->| ->]; subst; done.
  - eexists. split; [by apply header_entry_compressed|]. cbn [negb CalculateEntrySize].
    assert (Z1 : zlen ([z2b (bh_Type (b_handle b) + 1)] ++ le 4 (b_Length b) ++ le 4 (b_UncompressedLength b) ++ bh_ID (b_handle b)) = entrySize).
    { unfold zlen. rewrite !length_app, !L4, Li. done. }
    split; [done|]. rewrite Z1. unfold parseHeaderEntry. rewrite zlen_app, Z1.
    pose proof (zlen_nonneg rest). rewrite (proj2 (Z.ltb_ge _ plainEntrySize)) by (unfold entrySize, plainEntrySize, headerLengthSize; lia).
    rewrite (proj2 (Z.ltb_ge _ entrySize)) by lia. cbn [guard rbind].
    rewrite <- !app_assoc. cbn [app].
    change (byte_at 0 (?x :: ?l)) with x.
    change (sub 1 5 (?x :: ?l)) with (take 4 l). change (from 5 (?x :: ?l)) with (drop 4 l).
    rewrite take_app_length', drop_app_length' by done. change (sub 0 4 ?l) with (take 4 l). change (from 4 ?l) with (drop 4 l).
    rewrite take_app_length', drop_app_length' by done. rewrite !U4, take_id by done.
    rewrite type_byte by (destruct T as [->| ->]; done). clear Z1.
    destruct b as [[id t] len off u]; cbn in *; destruct T as [->| ->]; done.
Qed.

(** Blobs that follow one another from an offset. *)
Fixpoint laid_out (pos : Z) (blobs : list Blob) : Prop :=
  match blobs with
  | [] => True
  | b :: blobs => b_Offset b = pos /\ laid_out (pos + b_Length b) blobs
  end.

Lemma makeHeader_cons b blobs e rest :
  header_entry b = Ok e -> makeHeader blobs = Ok rest -> makeHeader (b :: blobs) = Ok (e ++ rest).
Proof. intros E1 E2. cbn. by rewrite E1, E2. Qed.

Lemma parseEntries_written blobs :
  Forall expressible blobs ->
  exists header, makeHeader blobs = Ok header
    /\ zlen header = CalculateHeaderSize blobs - headerSize
    /\ forall fuel pos, (length header <= fuel)%nat -> laid_out pos blobs ->
       parseEntries fuel header pos = Ok blobs.
Proof.
  induction 1 as [|b blobs X _ (rest & M & Zr & IH)].
  - exists []. split; [done|]. split; [done|]. intros fuel pos _ _. by destruct fuel.
  - destruct (parseHeaderEntry_written b rest X) as (e & E & Ze & P).
    exists (e ++ rest). split; [by apply makeHeader_cons|]. split.
    + rewrite zlen_app, Ze, Zr. unfold CalculateHeaderSize. cbn [foldl].
      assert (Sh : forall l a c, foldl (fun size blob => size + CalculateEntrySize (IsCompressed blob)) (a + c) l
        = foldl (fun size blob => size + CalculateEntrySize (IsCompressed blob)) a l + c).
      { induction l as [|x l IHl]; intros a c; cbn; [done|]. rewrite <- IHl. f_equal. lia. }
      rewrite Sh. lia.
    + intros fuel pos F [O Lo]. rewrite length_app in F.
      assert (Pe : (1 <= length e)%nat).
      { unfold zlen in Ze. destruct (IsCompressed b); cbn in Ze; unfold entrySize, plainEntrySize, headerLengthSize in Ze; lia. }
      destruct e as [|e0 e]; [cbn in Pe; lia|]. destruct fuel as [|fuel]; [cbn in F; lia|].
      change ((e0 :: e) ++ rest) with (e0 :: (e ++ rest)) in *. cbn [parseEntries]. rewrite P. cbn [rbind].
      change (e0 :: e ++ rest) with ((e0 :: e) ++ rest). unfold from.
      rewrite drop_app_length' by (unfold zlen; lia).
      change (b_Length (b <| b_Offset := 0 |>)) with (b_Length b).
      rewrite IH by (cbn in F; done || lia). cbn [rbind]. do 2 f_equal. by destruct b; cbn in *; subst.
Qed.

(** A file that ends in a header of admissible size and its length. *)
Record ends_in (f h : bytes) : Prop := {
  end_file : exists pre, f = (pre ++ h) ++ le 4 (zlen h);
  end_min : Extension <= zlen h;
  end_max : zlen h <= MaxHeaderSize - headerLengthSize }.

Lemma drop_tail (n : nat) (a b : bytes) : (n <= length b)%nat -> drop (length (a ++ b) - n) (a ++ b) = drop (length b - n) b.
Proof.
  intros L. rewrite length_app. replace (length a + length b - n)%nat with (length a + (length b - n))%nat by lia.
  apply drop_app_add.
Qed.

(** One download returns the length of the header, and the header when enough
    was downloaded. *)
Lemma readRecords_tail f h bufsize :
  ends_in f h -> headerLengthSize <= bufsize ->
  exists b, readRecords f (zlen f) bufsize = Ok (b, zlen h + headerLengthSize)
    /\ (zlen h + headerLengthSize <= bufsize -> b = h).
Proof.
  intros [[pre ->] Hmin Hmax] Hb. unfold headerLengthSize in *. set (f := (pre ++ h) ++ le 4 (zlen h)).
  assert (Lf : length f = (length pre + length h + 4)%nat) by (unfold f; rewrite !length_app, le_length; lia).
  unfold readRecords. set (n := if zlen f <? bufsize then zlen f else bufsize).
  assert (Hn : 4 <= n <= zlen f) by (unfold n; destruct (Z.ltb_spec (zlen f) bufsize); unfold zlen in *; lia).
  unfold ReadAt. rewrite (proj2 (Z.ltb_ge _ 0)), (proj2 (Z.ltb_ge _ _)) by lia. cbn [guard rbind].
  set (k := Z.to_nat (zlen f - n)).
  assert (Eb : sub k (Z.to_nat (zlen f - n + n)) f = drop k f).
  { unfold sub. apply take_ge. rewrite length_drop. unfold zlen in *. lia. }
  rewrite Eb. assert (Lb : length (drop k f) = Z.to_nat n) by (rewrite length_drop; unfold k, zlen in *; lia).
  assert (E4 : from (length (drop k f) - 4) (drop k f) = le 4 (zlen h)).
  { unfold from. rewrite drop_drop, Lb. replace (k + (Z.to_nat n - 4))%nat with (length (pre ++ h)).
    - unfold f. apply drop_app_length.
    - rewrite length_app. unfold k, zlen in *. lia. }
  rewrite E4, unle_le by (unfold MaxHeaderSize, headerLengthSize in *; pose proof (zlen_nonneg h); lia).
  assert (Et : take (length (drop k f) - 4) (drop k f) = drop k (pre ++ h)).
  { rewrite Lb, take_drop_commute. replace (k + (Z.to_nat n - 4))%nat with (length (pre ++ h)).
    - unfold f. by rewrite take_app_length.
    - rewrite length_app. unfold k, zlen in *. lia. }
  rewrite Et. unfold Extension, ivSize, macSize, MaxHeaderSize, headerLengthSize in *.
  rewrite (proj2 (Z.eqb_neq _ _)), (proj2 (Z.ltb_ge (zlen h) _)), (proj2 (Z.ltb_ge _ (zlen h))),
    (proj2 (Z.ltb_ge _ (zlen h))) by (unfold zlen in *; lia).
  cbn [guard rbind]. eexists. split; [done|]. intros Enough.
  assert (Ht : zlen h + 4 <= n) by (unfold n; destruct (Z.ltb_spec (zlen f) bufsize); unfold zlen in *; lia).
  destruct (Z.ltb_spec (zlen h + 4) n) as [G|G].
  - unfold from. rewrite drop_drop, length_drop, length_app.
    replace (k + _)%nat with (length pre) by (unfold k, zlen in *; lia). apply drop_app_length.
  - replace k with (length pre) by (unfold k, zlen in *; lia). apply drop_app_length.
Qed.

(** The header is found with one or two downloads. *)
Lemma readHeader_tail f h : ends_in f h -> minFileSize <= zlen f -> readHeader f (zlen f) = Ok h.
Proof.
  intros E M. unfold readHeader. rewrite (proj2 (Z.ltb_ge _ _)) by done. cbn [guard rbind].
  destruct (readRecords_tail f h eagerSize E ltac:(done)) as (b & -> & B). cbn [rbind].
  destruct (Z.leb_spec (zlen h + headerLengthSize) eagerSize) as [G|G]; [by rewrite B|].
  destruct (readRecords_tail f h (zlen h + headerLengthSize) E) as (b' & -> & B').
  { pose proof (zlen_nonneg h). lia. }
  cbn [rbind]. by rewrite B'.
Qed.

Section PackLaws.
Context {cipher : Cipher} {laws : CipherLaws}.

(** The header of a file alone decides the list. *)
Lemma List_tail k f g h :
  ends_in f h -> ends_in g h -> minFileSize <= zlen f -> minFileSize <= zlen g ->
  List k f (zlen f) = List k g (zlen g).
Proof. intros F G Mf Mg. unfold List. by rewrite (readHeader_tail f h F), (readHeader_tail g h G). Qed.

Lemma header_bound blobs :
  zlen blobs <= MaxHeaderEntries ->
  headerSize <= CalculateHeaderSize blobs <= MaxHeaderSize
  /\ (blobs <> [] -> minFileSize <= CalculateHeaderSize blobs).
Proof.
  assert (B : forall l a, a + plainEntrySize * zlen l
    <= foldl (fun size blob => size + CalculateEntrySize (IsCompressed blob)) a l <= a + entrySize * zlen l).
  { induction l as [|b l IH]; intros a; cbn [foldl]; [unfold zlen; cbn; lia|]. rewrite zlen_cons.
    specialize (IH (a + CalculateEntrySize (IsCompressed b))). unfold entrySize, plainEntrySize, headerLengthSize in *.
    destruct (IsCompressed b); cbn [CalculateEntrySize] in *; unfold entrySize, plainEntrySize, headerLengthSize in *; lia. }
  intros M. unfold CalculateHeaderSize. specialize (B blobs headerSize). pose proof (zlen_nonneg blobs).
  assert (Q : MaxHeaderEntries = 409199) by done. unfold entrySize, plainEntrySize, minFileSize, headerSize, MaxHeaderSize in *.
  unfold plainEntrySize, headerLengthSize, Extension, ivSize, macSize in *. split; [lia|].
  intros N. destruct blobs; [done|]. rewrite zlen_cons in *. pose proof (zlen_nonneg blobs). lia.
Qed.

Lemma header_entry_length b e :
  id_ok (bh_ID (b_handle b)) -> header_entry b = Ok e -> zlen e = CalculateEntrySize (IsCompressed b).
Proof.
  intros I H. unfold header_entry in H. inv_results. unfold IsCompressed, zlen.
  cbn [length app]. rewrite !length_app, (I : length _ = 32%nat).
  destruct (b_UncompressedLength b =? 0); cbn [negb CalculateEntrySize length]; rewrite ?le_length; done.
Qed.

Lemma calculate_shift l a :
  foldl (fun size blob => size + CalculateEntrySize (IsCompressed blob)) a l
  = CalculateHeaderSize l - headerSize + a.
Proof.
  unfold CalculateHeaderSize. generalize headerSize. revert a.
  induction l as [|b l IH]; intros a c; cbn; [lia|]. rewrite (IH (a + _) (c + CalculateEntrySize (IsCompressed b))). lia.
Qed.

Lemma makeHeader_length blobs header :
  Forall (fun b => id_ok (bh_ID (b_handle b))) blobs -> makeHeader blobs = Ok header ->
  zlen header = CalculateHeaderSize blobs - headerSize.
Proof.
  intros F. revert header. induction F as [|b blobs I _ IH]; intros header H; cbn in H; inv_results; [done|].
  rewrite zlen_app, (header_entry_length b a), (IH a0) by done.
  unfold CalculateHeaderSize at 2. cbn [foldl]. rewrite calculate_shift. lia.
Qed.

Lemma Seal_dst k dst nonce plaintext :
  Seal k dst nonce plaintext [] = (let! out := Seal k [] nonce plaintext [] in Ok (dst ++ out)).
Proof. unfold Seal. repeat (destruct (guard _ _); cbn [rbind]; [|done]). done. Qed.

(** What [encryptHeader] makes and has verified. *)
Lemma encryptHeader_sound k nonce blobs eh :
  Forall (fun b => id_ok (bh_ID (b_handle b))) blobs -> zlen blobs <= MaxHeaderEntries ->
  encryptHeader k nonce blobs = Ok eh ->
  exists h, eh = h ++ le 4 (zlen h) /\ zlen eh = CalculateHeaderSize blobs
    /\ ends_in eh h /\ minFileSize <= zlen eh /\ List k eh (zlen eh) = Ok (blobs, zlen eh).
Proof.
  intros F M H. unfold encryptHeader in H. inv_results. rename a into header, a0 into h.
  exists h. split; [done|].
  assert (Zn : zlen nonce = ivSize) by (unfold Seal in E0; inv_results; split_bools; lia).
  destruct (Seal_length _ _ _ _ _ E0) as (ct & Eh & Zc).
  assert (Zh : zlen h = CalculateHeaderSize blobs - headerLengthSize).
  { rewrite Eh, zlen_app, Zc, Zn, (makeHeader_length blobs header) by done.
    unfold headerSize, Overhead, Extension. lia. }
  assert (Ze : zlen (h ++ le 4 (zlen h)) = CalculateHeaderSize blobs).
  { rewrite zlen_app, Zh. unfold zlen at 1. rewrite le_length. unfold headerLengthSize. lia. }
  destruct (header_bound blobs M) as [B _]. split; [done|]. split.
  { split; [by exists []|..]; unfold headerSize, headerLengthSize in *; lia. }
  unfold verifyHeader in E1. inv_results. destruct a as [decoded hdrSize]. inv_results. split_bools.
  apply bool_decide_eq_true in E1. subst decoded.
  assert (U : wrap_u 32 (CalculateHeaderSize blobs) = CalculateHeaderSize blobs).
  { apply wrap_u_small. unfold headerSize, MaxHeaderSize, headerLengthSize, Extension, ivSize, macSize in *. range. }
  match goal with Q : List _ _ _ = _ |- _ => rename Q into EL end.
  rewrite Ze, U in *. split; [|rewrite EL; do 2 f_equal; lia].
  unfold List in EL. inv_results. unfold readHeader in *. inv_results. split_bools. lia.
Qed.

(** The header of expressible blobs is made and verified. *)
Lemma encryptHeader_written k nonce blobs :
  Forall expressible blobs -> laid_out 0 blobs -> blobs <> [] -> zlen blobs <= MaxHeaderEntries ->
  Key_Valid k = true -> zlen nonce = ivSize -> validNonce nonce = true ->
  exists eh, encryptHeader k nonce blobs = Ok eh.
Proof.
  intros X Lo N M K Zn V. destruct (parseEntries_written blobs X) as (header & Mk & Zh & P).
  destruct (header_bound blobs M) as [B Bm]. specialize (Bm N).
  assert (exists out, Seal k [] nonce header [] = Ok out) as [out S].
  { unfold Seal. rewrite K, V, Zn. cbn. eauto. }
  pose proof (Seal_length _ _ _ _ _ S) as (ct & Eo & Zc). cbn in Eo. subst out.
  unfold encryptHeader. rewrite Mk. cbn [rbind]. rewrite Seal_dst, S. cbn [rbind].
  set (h := nonce ++ ct).
  assert (Zhh : zlen h = CalculateHeaderSize blobs - headerLengthSize).
  { unfold h. rewrite zlen_app, Zc, Zn, Zh. unfold headerSize, Overhead, Extension. lia. }
  assert (Ze : zlen (h ++ le 4 (zlen h)) = CalculateHeaderSize blobs).
  { rewrite zlen_app, Zhh. unfold zlen at 1. rewrite le_length. unfold headerLengthSize. lia. }
  assert (En : ends_in (h ++ le 4 (zlen h)) h).
  { split; [by exists []|..]; unfold headerSize, headerLengthSize in *; lia. }
  unfold verifyHeader, List. rewrite (readHeader_tail _ h) by (done || lia). cbn [rbind].
  rewrite (proj2 (Z.ltb_ge _ _)) by (unfold CiphertextLength, headerSize, headerLengthSize in *; lia). cbn [guard rbind].
  unfold from, NonceSize, ivSize, h in *. rewrite take_app_length', drop_app_length' by (unfold zlen in Zn; lia).
  rewrite (Open_Seal k [] nonce header ct S). cbn [rbind]. rewrite P by done. cbn [rbind].
  rewrite Ze, Zhh. unfold headerLengthSize. replace (4 + _) with (CalculateHeaderSize blobs) by lia.
  rewrite !Z.eqb_refl. cbn [negb guard rbind]. rewrite bool_decide_eq_true_2 by done. by eexists.
Qed.
End PackLaws.

Lemma take_all (l : bytes) : take (Z.to_nat (zlen l)) l = l.
Proof. unfold zlen. rewrite Nat2Z.id. by apply take_ge. Qed.

(** ** Packs from writing to reading *)

Module PackProps.

(** The arguments of one call of [Add]. *)
Record addition := mkAddition { a_type : Z; a_id : ID; a_data : bytes; a_uncompressed : Z }.

Section Writer.
Context (Write : bytes -> bytes -> Z * option string).

Definition add_one (p : Packer) (a : addition) : Packer :=
  fst (Packer_Add Write p (a_type a) (a_id a) (a_data a) (a_uncompressed a)).

Definition add_all (p : Packer) (adds : list addition) : Packer := fold_left add_one adds p.

(** The blob an addition leaves in the header. *)
Definition recorded (a : addition) (b : Blob) : Prop :=
  b_handle b = mkBlobHandle (a_id a) (a_type a) /\ b_Length b = zlen (a_data a)
  /\ b_UncompressedLength b = wrap_u 64 (a_uncompressed a).

(** A packer without an error holds exactly the additions made. *)
Record packed (p : Packer) (adds : list addition) : Prop := {
  pk_written : p_written p = concat (map a_data adds);
  pk_bytes : p_bytes p = zlen (p_written p);
  pk_layout : laid_out 0 (p_blobs p);
  pk_blobs : Forall2 recorded adds (p_blobs p) }.

Lemma laid_out_app pos blobs b :
  laid_out pos (blobs ++ [b]) <->
  laid_out pos blobs /\ b_Offset b = pos + foldr (fun b n => b_Length b + n) 0 blobs.
Proof.
  revert pos. induction blobs as [|c blobs IH]; intros pos; cbn; [rewrite Z.add_0_r; tauto|].
  rewrite IH, Z.add_assoc. tauto.
Qed.

Lemma recorded_total adds blobs :
  Forall2 recorded adds blobs -> foldr (fun b n => b_Length b + n) 0 blobs = zlen (concat (map a_data adds)).
Proof.
  induction 1 as [|a b adds blobs (_ & L & _) _ IH]; [done|]. cbn. rewrite zlen_app, L, IH. done.
Qed.

Lemma add_one_packed p adds a :
  p_err p = None -> packed p adds -> p_err (add_one p a) = None -> packed (add_one p a) (adds ++ [a]).
Proof.
  intros E P. unfold add_one, Packer_Add. rewrite E. destruct (Write (p_written p) (a_data a)) as [n err].
  destruct err as [e|]; [done|]. destruct (Z.eqb_spec n (zlen (a_data a))) as [->|N]; [intros _|done].
  cbn [negb fst]. rewrite !take_all. set (b := mkBlob _ _ _ _).
  assert (R : recorded a b) by done. destruct P as [W B Lo F].
  assert (F' : Forall2 recorded (adds ++ [a]) (p_blobs p ++ [b])) by (apply Forall2_app; [done|by constructor]).
  split.
  - change (p_written p ++ a_data a = concat (map a_data (adds ++ [a]))). rewrite W, map_app, concat_app. cbn. by rewrite app_nil_r.
  - change (p_bytes p + zlen (a_data a) = zlen (p_written p ++ a_data a)). rewrite zlen_app. lia.
  - change (laid_out 0 (p_blobs p ++ [b])). apply laid_out_app. split; [done|].
    change (b_Offset b) with (p_bytes p). rewrite (recorded_total _ _ F), B, W. done.
  - exact F'.
Qed.

Lemma add_one_broken p a e : p_err p = Some e -> add_one p a = p.
Proof. intros E. unfold add_one, Packer_Add. by rewrite E. Qed.

Lemma add_all_broken p adds e : p_err p = Some e -> add_all p adds = p.
Proof. intros E. induction adds as [|a adds IH]; [done|]. cbn. by rewrite (add_one_broken p a e E). Qed.

Lemma add_all_packed p before adds :
  p_err p = None -> packed p before -> p_err (add_all p adds) = None -> packed (add_all p adds) (before ++ adds).
Proof.
  revert p before. induction adds as [|a adds IH]; intros p before E P Q; [by rewrite app_nil_r|].
  change (add_all p (a :: adds)) with (add_all (add_one p a) adds) in *.
  destruct (p_err (add_one p a)) as [e|] eqn:E1.
  - by rewrite (add_all_broken _ adds e E1), E1 in Q.
  - replace (before ++ a :: adds) with ((before ++ [a]) ++ adds) by (by rewrite <- app_assoc).
    apply IH; [done| |done]. by apply add_one_packed.
Qed.

Lemma new_packed : packed NewPacker [].
Proof. by split. Qed.

(** Where the data of the blobs is in the file. *)
Lemma data_at pre adds blobs post :
  laid_out (zlen pre) blobs -> Forall2 recorded adds blobs ->
  Forall2 (fun a b => ReadAt (pre ++ concat (map a_data adds) ++ post) (b_Length b) (b_Offset b) = Ok (a_data a))
    adds blobs.
Proof.
  intros Lo F. revert pre Lo. induction F as [|a b adds blobs R F IH]; intros pre Lo; [constructor|].
  cbn in Lo. destruct Lo as [Of Lo], R as (_ & Le & _). rewrite Le in Lo. constructor.
  - rewrite Of, Le. unfold ReadAt. cbn [map concat]. pose proof (zlen_nonneg pre).
    rewrite (proj2 (Z.ltb_ge _ _)) by lia. rewrite (proj2 (Z.ltb_ge _ _)).
    2:{ rewrite !zlen_app. pose proof (zlen_nonneg post). pose proof (zlen_nonneg (concat (map a_data adds))). lia. }
    cbn [guard rbind]. f_equal. unfold sub, zlen. rewrite Nat2Z.id, drop_app_length, <- app_assoc.
    by rewrite take_app_length' by lia.
  - specialize (IH (pre ++ a_data a)). rewrite zlen_app in IH. cbn [map concat].
    rewrite <- app_assoc, (app_assoc pre). by apply IH.
Qed.

Lemma wrap_through_int z : wrap_u 64 (wrap_i 64 (wrap_u 64 z)) = wrap_u 64 z.
Proof. rewrite wrap_u_wrap_i; [done|lia|]. by apply wrap_u_range. Qed.

Lemma Packer_Add_error p t id data u :
  p_err p = None ->
  snd (snd (Packer_Add Write p t id data u)) = p_err (fst (Packer_Add Write p t id data u)).
Proof.
  intros E. unfold Packer_Add. rewrite E. destruct (Write _ _) as [n [e|]]; [done|].
  destruct (n =? zlen data); cbn; [done|done].
Qed.

(** Merging is adding: reading the blobs of another packer from its data and
    adding them makes the packer that the other's additions make, for every writer;
    an error of the merge is the error the packer is left with. *)
Theorem Merge_adds (p : Packer) (adds : list addition) (blobs : list Blob) :
  p_err p = None -> Forall2 recorded adds blobs ->
  Merge Write p blobs (concat (map a_data adds)) = (add_all p adds, p_err (add_all p adds)).
Proof.
  intros E F. revert p E. induction F as [|a b adds blobs (Hh & Hl & Hu) _ IH]; intros p E; [cbn; by rewrite E|].
  cbn [Merge map concat]. rewrite (proj2 (Z.ltb_ge _ _)).
  2:{ rewrite zlen_app, Hl. pose proof (zlen_nonneg (concat (map a_data adds))). lia. }
  change (add_all p (a :: adds)) with (add_all (add_one p a) adds).
  rewrite Hh, Hl, Hu. cbn [bh_Type bh_ID]. unfold zlen, from. rewrite Nat2Z.id, take_app_length, drop_app_length.
  assert (Same : Packer_Add Write p (a_type a) (a_id a) (a_data a) (wrap_i 64 (wrap_u 64 (a_uncompressed a)))
    = Packer_Add Write p (a_type a) (a_id a) (a_data a) (a_uncompressed a)).
  { unfold Packer_Add. by rewrite wrap_through_int. }
  rewrite Same. pose proof (Packer_Add_error p (a_type a) (a_id a) (a_data a) (a_uncompressed a) E) as Er.
  clear Same. unfold add_one. destruct (Packer_Add _ _ _ _ _ _) as [q [n [e|]]]; cbn [fst snd] in *.
  - by rewrite (add_all_broken q adds e), <- Er.
  - by apply IH.
Qed.
End Writer.

Section Reading.
Context {cipher : Cipher} {laws : CipherLaws}.

(** C15. A pack that was finalized without an error is read back, whatever the
    writer did: if [Finalize] returns no error after a sequence of [Add] calls, then
    the bytes the writer took are a pack file whose listed blobs are exactly the
    additions in their order, [List] and the packer agree on them and on the size of
    the header, the file has the size [PackSize] announced, and the data of each
    blob is at its listed place. There are at most as many additions as a header can
    list, and the identifiers have 32 bytes. *)
Theorem pack_file_read_back (Write : bytes -> bytes -> Z * option string)
    (k : Key) (nonce : bytes) (adds : list addition) (p : Packer) :
  Forall (fun a => id_ok (a_id a)) adds -> zlen adds <= MaxHeaderEntries ->
  Packer_Finalize Write (add_all Write NewPacker adds) k nonce = (p, None) ->
  let file := p_written p in
  List k file (zlen file) = Ok (p_blobs p, CalculateHeaderSize (p_blobs p))
  /\ zlen file = PackSize (add_all Write NewPacker adds) /\ p_bytes p = zlen file
  /\ Forall2 recorded adds (p_blobs p)
  /\ Forall2 (fun a b => ReadAt file (b_Length b) (b_Offset b) = Ok (a_data a)) adds (p_blobs p).
Proof.
  intros I M H. set (q := add_all Write NewPacker adds) in *. unfold Packer_Finalize in H.
  destruct (p_err q) as [e|] eqn:E; [discriminate|].
  pose proof (add_all_packed Write NewPacker [] adds eq_refl new_packed E) as [W B Lo F]. fold q in W, B, Lo, F. cbn in W, F.
  destruct (encryptHeader k nonce (p_blobs q)) as [eh|] eqn:Eh; [|discriminate].
  destruct (Write (p_written q) eh) as [n [e|]]; [discriminate|].
  destruct (Z.eqb_spec n (zlen eh)) as [Q|N]; [|discriminate]. rewrite Q, !take_all in H. injection H as <-.
  destruct (encryptHeader_sound k nonce (p_blobs q) eh) as (h & Eeh & Ze & En & Mn & Ls); [| |done|].
  { apply Forall_forall. intros b Hb. apply list_elem_of_lookup in Hb as [i Hi].
    destruct (Forall2_lookup_r _ _ _ _ _ F Hi) as (a & Ha & (Hh & _)). rewrite Hh. cbn.
    exact (proj1 (Forall_lookup _ _) I i a Ha). }
  { unfold zlen in *. by rewrite <- (Forall2_length _ _ _ F). }
  change (p_blobs _) with (p_blobs q). intros file. change file with (p_written q ++ eh).
  assert (En' : ends_in (p_written q ++ eh) h).
  { destruct En as [_ M1 M2]. split; [|done|done]. exists (p_written q). by rewrite Eeh, <- app_assoc. }
  pose proof (zlen_nonneg (p_written q)).
  split; [|split; [|split; [|split; [done|]]]].
  - rewrite <- Ze, (List_tail k _ eh h En' En) by (rewrite ?zlen_app; lia). done.
  - unfold PackSize. rewrite zlen_app, Ze, B. done.
  - change (p_bytes q + zlen eh = zlen (p_written q ++ eh)). rewrite zlen_app. lia.
  - rewrite W. apply (data_at [] adds _ eh); [done|done].
Qed.

(** Finalizing succeeds: with a writer that takes every byte, a valid key and
    nonce, and at least one and at most [MaxHeaderEntries] data or tree blobs whose
    lengths fit 32 bits, [Finalize] returns no error. *)
Theorem pack_file_finalized (k : Key) (nonce : bytes) (adds : list addition) :
  adds <> [] -> zlen adds <= MaxHeaderEntries ->
  Forall (fun a => (a_type a = DataBlob \/ a_type a = TreeBlob) /\ id_ok (a_id a)
            /\ uint32 (zlen (a_data a)) /\ uint32 (a_uncompressed a)) adds ->
  Key_Valid k = true -> zlen nonce = ivSize -> validNonce nonce = true ->
  let Write := fun _ data => (zlen data, None) in
  snd (Packer_Finalize Write (add_all Write NewPacker adds) k nonce) = None.
Proof.
  intros N M X K Zn V Write. set (q := add_all Write NewPacker adds).
  assert (E : p_err q = None).
  { unfold q. generalize (eq_refl : p_err NewPacker = None). generalize NewPacker.
    clear. induction adds as [|a adds IH]; intros p E; [done|]. cbn. apply IH.
    unfold add_one, Packer_Add. rewrite E. cbn. by rewrite Z.eqb_refl. }
  pose proof (add_all_packed Write NewPacker [] adds eq_refl new_packed E) as [W B Lo F]. fold q in W, B, Lo, F. cbn in F.
  destruct (encryptHeader_written k nonce (p_blobs q)) as [eh Eh]; [|done| | |done..|].
  - apply Forall_forall. intros b Hb. apply list_elem_of_lookup in Hb as [i Hi].
    destruct (Forall2_lookup_r _ _ _ _ _ F Hi) as (a & Ha & (Hh & Hl & Hu)).
    destruct (proj1 (Forall_lookup _ _) X i a Ha) as (T & I & L & U).
    split; rewrite ?Hh, ?Hl, ?Hu; try done. rewrite wrap_u_small by range. done.
  - intros Q. rewrite Q in F. by apply Forall2_nil_inv_r in F.
  - unfold zlen in *. by rewrite <- (Forall2_length _ _ _ F).
  - unfold Packer_Finalize. rewrite E, Eh. cbn. by rewrite Z.eqb_refl.
Qed.
End Reading.

#[local] Existing Instances toy_cipher toy_laws.

(** A plain tree blob and a compressed data blob. *)
Definition sample_adds : list addition :=
  [mkAddition TreeBlob (repeat x05 32) (str "tree") 0; mkAddition DataBlob (repeat x06 32) (str "content") 4000].
Definition sample_writer (_ data : bytes) : Z * option string := (zlen data, None).

Lemma Merge_adds_witness :
  let p := add_all sample_writer NewPacker sample_adds in
  Merge sample_writer p (p_blobs p) (concat (map a_data sample_adds)) = (add_all sample_writer p sample_adds, None).
Proof.
  intros p. apply (Merge_adds sample_writer p sample_adds (p_blobs p)); [reflexivity|].
  constructor; [|constructor; [|constructor]]; repeat split.
Defined.

Lemma pack_file_read_back_witness :
  let p := fst (Packer_Finalize sample_writer (add_all sample_writer NewPacker sample_adds) toy_key toy_nonce) in
  zlen (p_written p) = 125
  /\ let file := p_written p in
     List toy_key file (zlen file) = Ok (p_blobs p, CalculateHeaderSize (p_blobs p))
     /\ zlen file = PackSize (add_all sample_writer NewPacker sample_adds) /\ p_bytes p = zlen file
     /\ Forall2 recorded sample_adds (p_blobs p)
     /\ Forall2 (fun a b => ReadAt file (b_Length b) (b_Offset b) = Ok (a_data a)) sample_adds (p_blobs p).
Proof.
  intros p. split; [vm_compute; reflexivity|].
  apply (pack_file_read_back sample_writer toy_key toy_nonce sample_adds p).
  - repeat constructor.
  - vm_compute. discriminate.
  - vm_compute. reflexivity.
Defined.

Lemma pack_file_finalized_witness :
  snd (Packer_Finalize sample_writer (add_all sample_writer NewPacker sample_adds) toy_key toy_nonce) = None.
Proof.
  apply (pack_file_finalized toy_key toy_nonce sample_adds).
  - discriminate.
  - vm_compute. discriminate.
  - constructor; [split; [by right|]; by vm_compute | constructor; [|constructor]]. split; [by left|]. by vm_compute.
  - reflexivity.
  - reflexivity.
  - reflexivity.
Defined.
End PackProps.
