(* ===== verification/RepoIndex.v ===== *)
(** * Indexes of pack files ([internal/repository/index/index.go])

    An [Index] maps blob handles to places in packs. It keeps one table of entries
    per blob type (IndexMap) and the list of packs the entries point into. The model
    has its operations, the structure of its stored form, and the merge of a loaded
    index into another one. Calls that wait on a lock run alone; panics are errors;
    the text of the stored JSON and the release callbacks of working memory are not
    modelled. *)
From stdpp Require Import base list numbers strings gmap sets.
From Stdlib Require Import ZArith Lia.
From coqutil Require Import Datatypes.RecordSetters.
From S2P Require Import Prelude Codec Crypto Pack IndexMap.
Import TriangleBracketNotations.

(** The seeds of the hashes of the three tables are drawn when they are made:
    [ix_hash] gives the hash of each. *)
Record Index := mkIndex {
  ix_byType : list IndexMap.indexMap; ix_packs : list ID; ix_final : bool; ix_ids : list ID;
  ix_created : Z; ix_hash : Z -> ID -> Z }.

Definition NewIndex (now : Z) (hash : Z -> ID -> Z) : Index :=
  mkIndex (repeat IndexMap.zero (Z.to_nat NumBlobTypes)) [] false [] now hash.

Definition blob_types : list Z := [0; 1; 2].

(** [idx.byType[t]] *)
Definition byType (idx : Index) (t : Z) : result IndexMap.indexMap :=
  do! guard (t <? 0) "index out of range";
  match ix_byType idx !! Z.to_nat t with
  | Some m => Ok m
  | None => Err "index out of range"
  end.

Definition set_byType (idx : Index) (t : Z) (m : IndexMap.indexMap) : Index :=
  idx <| ix_byType := <[Z.to_nat t := m]> (ix_byType idx) |>.

Definition addToPacks (idx : Index) (id : ID) : result (Index * Z) :=
  let packs := ix_packs idx ++ [id] in
  do! guard (MaxUint32 <? zlen packs) "repository index pack count overflow";
  Ok (idx <| ix_packs := packs |>, zlen packs - 1).

Definition too_large (blob : Blob) : bool :=
  (MaxUint32 <? b_Offset blob) || (MaxUint32 <? b_Length blob) || (MaxUint32 <? b_UncompressedLength blob).

Definition store (idx : Index) (packIndex : Z) (blob : Blob) : result Index :=
  do! guard (too_large blob) "offset or length does not fit in uint32. You have packs > 4GB!";
  let t := bh_Type (b_handle blob) in
  let! m := byType idx t in
  let! m := IndexMap.add (ix_hash idx t) m (bh_ID (b_handle blob)) packIndex
              (b_Offset blob) (b_Length blob) (b_UncompressedLength blob) in
  Ok (set_byType idx t m).

Fixpoint store_all (idx : Index) (packIndex : Z) (blobs : list Blob) : result Index :=
  match blobs with
  | [] => Ok idx
  | blob :: blobs => let! idx := store idx packIndex blob in store_all idx packIndex blobs
  end.

Definition StorePack (idx : Index) (id : ID) (blobs : list Blob) : result Index :=
  do! guard (ix_final idx) "store new item in finalized index";
  let! (idx, packIndex) := addToPacks idx id in
  store_all idx packIndex blobs.

Definition toPackedBlob (idx : Index) (e : indexEntry) (t : Z) : result PackedBlob :=
  match ix_packs idx !! Z.to_nat (en_packIndex e) with
  | Some pack =>
      Ok (mkPackedBlob pack
        (mkBlob (mkBlobHandle (en_id e) t) (en_length e) (en_offset e) (en_uncompressedLength e)))
  | None => Err "index out of range"
  end.

Fixpoint toPackedBlobs (idx : Index) (es : list indexEntry) (t : Z) : result (list PackedBlob) :=
  match es with
  | [] => Ok []
  | e :: es => let! pb := toPackedBlob idx e t in let! pbs := toPackedBlobs idx es t in Ok (pb :: pbs)
  end.

Definition Lookup (idx : Index) (bh : BlobHandle) (pbs : list PackedBlob) : result (list PackedBlob) :=
  let! m := byType idx (bh_Type bh) in
  let! es := IndexMap.valuesWithID (ix_hash idx (bh_Type bh)) m (bh_ID bh) in
  let! found := toPackedBlobs idx es (bh_Type bh) in
  Ok (pbs ++ found).

Definition Has (idx : Index) (bh : BlobHandle) : result bool :=
  let! m := byType idx (bh_Type bh) in
  let! o := IndexMap.get (ix_hash idx (bh_Type bh)) m (bh_ID bh) in
  Ok (match o with Some _ => true | None => false end).

(** [None] where the code returns [found = false]. *)
Definition LookupSize (idx : Index) (bh : BlobHandle) : result (option Z) :=
  let! m := byType idx (bh_Type bh) in
  let! o := IndexMap.get (ix_hash idx (bh_Type bh)) m (bh_ID bh) in
  Ok (match o with
      | None => None
      | Some e =>
          if negb (en_uncompressedLength e =? 0) then Some (en_uncompressedLength e)
          else Some (wrap_u 64 (PlaintextLength (en_length e)))
      end).

Definition values_of (idx : Index) (t : Z) : result (list PackedBlob) :=
  let! m := byType idx t in
  let! es := IndexMap.values m in
  toPackedBlobs idx es t.

Fixpoint collect {A} (ts : list Z) (f : Z -> result (list A)) : result (list A) :=
  match ts with
  | [] => Ok []
  | t :: ts => let! xs := f t in let! ys := collect ts f in Ok (xs ++ ys)
  end.

Definition Values (idx : Index) : result (list PackedBlob) := collect blob_types (values_of idx).

Definition BlobIndex (idx : Index) (bh : BlobHandle) : result Z :=
  let! m := byType idx (bh_Type bh) in
  IndexMap.firstIndex (ix_hash idx (bh_Type bh)) m (bh_ID bh).

Definition Len (idx : Index) (t : Z) : result Z :=
  let! m := byType idx t in Ok (IndexMap.len m).

Definition Preallocate (idx : Index) (t numEntries : Z) : result Index :=
  let! m := byType idx t in
  let! m := IndexMap.preallocate (ix_hash idx t) m numEntries in
  Ok (set_byType idx t m).

Definition indexMaxBlobs : Z := 50000.
Definition indexMaxAge : Z := 10 * 60 * 1000000000.

Definition count (idx : Index) : Z := foldr (fun m n => IndexMap.len m + n) 0 (ix_byType idx).

Definition Full (now : Z) (idx : Index) : bool :=
  (indexMaxAge <=? now - ix_created idx) || (indexMaxBlobs <=? count idx).

Definition Oversized (idx : Index) : bool := indexMaxBlobs + MaxHeaderEntries <=? count idx.

Definition Finalize (idx : Index) : Index := idx <| ix_final := true |>.

Definition IDs (idx : Index) : result (list ID) :=
  do! guard (negb (ix_final idx)) "index not finalized";
  Ok (ix_ids idx).

Definition SetID (idx : Index) (id : ID) : result Index :=
  do! guard (negb (ix_final idx)) "index is not final";
  do! guard (0 <? zlen (ix_ids idx)) "ID already set";
  Ok (idx <| ix_ids := ix_ids idx ++ [id] |>).

(** ** The stored form *)

Record blobJSON := mkBlobJSON {
  bj_ID : ID; bj_Type : Z; bj_Offset : Z; bj_Length : Z; bj_UncompressedLength : Z }.
Record packJSON := mkPackJSON { pj_ID : ID; pj_Blobs : list blobJSON }.

Definition to_json (pb : PackedBlob) : blobJSON :=
  mkBlobJSON (bh_ID (b_handle (pb_Blob pb))) (bh_Type (b_handle (pb_Blob pb))) (b_Offset (pb_Blob pb))
    (b_Length (pb_Blob pb)) (b_UncompressedLength (pb_Blob pb)).

(** The list of packs, and the position of each in it. *)
Definition add_to_packs (pb : PackedBlob) (st : list packJSON * gmap ID nat)
  : result (list packJSON * gmap ID nat) :=
  let (list, packs) := st in
  do! guard (is_zero_id (pb_Pack pb)) "null pack id";
  let '(list, packs, i) :=
    match packs !! pb_Pack pb with
    | Some i => (list, packs, i)
    | None => (list ++ [mkPackJSON (pb_Pack pb) []], <[pb_Pack pb := length list]> packs, length list)
    end in
  Ok (alter (fun p => mkPackJSON (pj_ID p) (pj_Blobs p ++ [to_json pb])) i list, packs).

Fixpoint add_all_to_packs (pbs : list PackedBlob) (st : list packJSON * gmap ID nat)
  : result (list packJSON * gmap ID nat) :=
  match pbs with
  | [] => Ok st
  | pb :: pbs => let! st := add_to_packs pb st in add_all_to_packs pbs st
  end.

Definition generatePackList (idx : Index) : result (list packJSON) :=
  let! pbs := Values idx in
  let! st := add_all_to_packs pbs ([], ∅) in
  Ok (fst st).

(** [MarshalJSON] of a blob type refuses all but data and tree blobs. *)
Definition json_type (t : Z) : bool := (t =? DataBlob) || (t =? TreeBlob).

Definition Encode (idx : Index) : result (list packJSON) :=
  let! list := generatePackList idx in
  do! guard (negb (forallb (fun p => forallb (fun b => json_type (bj_Type b)) (pj_Blobs p)) list)) "unknown blob type";
  Ok list.

Definition of_json (b : blobJSON) : Blob :=
  mkBlob (mkBlobHandle (bj_ID b) (bj_Type b)) (bj_Length b) (bj_Offset b) (bj_UncompressedLength b).

Fixpoint decode_packs (idx : Index) (packs : list packJSON) : result Index :=
  match packs with
  | [] => Ok idx
  | p :: packs =>
      let! (idx, packIndex) := addToPacks idx (pj_ID p) in
      let! idx := store_all idx packIndex (map of_json (pj_Blobs p)) in
      decode_packs idx packs
  end.

(** [DecodeIndex] of the parsed JSON. *)
Definition DecodeIndex (packs : list packJSON) (id : ID) (now : Z) (hash : Z -> ID -> Z) : result Index :=
  let! idx := decode_packs (NewIndex now hash) packs in
  Ok (idx <| ix_ids := ix_ids idx ++ [id] |> <| ix_final := true |>).

(** ** Merging *)

(** Whether an entry of the second index is among those of the first. *)
Definition hasIdenticalEntry (idx idx2 : Index) (t : Z) (m : IndexMap.indexMap) (e2 : indexEntry) : result bool :=
  let! es := IndexMap.valuesWithID (ix_hash idx t) m (en_id e2) in
  let! bs := toPackedBlobs idx es t in
  match bs with
  | [] => Ok false
  | _ :: _ => let! b2 := toPackedBlob idx2 e2 t in Ok (bool_decide (b2 ∈ bs))
  end.

Fixpoint merge_entries (idx idx2 : Index) (packlen t : Z) (m : IndexMap.indexMap) (es : list indexEntry)
  : result IndexMap.indexMap :=
  match es with
  | [] => Ok m
  | e2 :: es =>
      let! found := hasIdenticalEntry idx idx2 t m e2 in
      let! m :=
        if found then Ok m
        else IndexMap.add (ix_hash idx t) m (en_id e2) (wrap_u 32 (en_packIndex e2 + packlen))
               (en_offset e2) (en_length e2) (en_uncompressedLength e2) in
      merge_entries idx idx2 packlen t m es
  end.

Fixpoint merge_types (idx idx2 : Index) (packlen : Z) (ts : list Z) : result Index :=
  match ts with
  | [] => Ok idx
  | t :: ts =>
      let! m2 := byType idx2 t in
      let! m := byType idx t in
      let! es := IndexMap.values m2 in
      let! m := merge_entries idx idx2 packlen t m es in
      merge_types (set_byType idx t m) idx2 packlen ts
  end.

Definition merge (idx idx2 : Index) : result Index :=
  do! guard (negb (ix_final idx2)) "index to merge is not final";
  let packlen := zlen (ix_packs idx) in
  let idx := idx <| ix_packs := ix_packs idx ++ ix_packs idx2 |> in
  do! guard (MaxUint32 <? zlen (ix_packs idx)) "index merge: too many packs";
  let! idx := merge_types idx idx2 packlen blob_types in
  Ok (idx <| ix_ids := ix_ids idx ++ ix_ids idx2 |>).

(** ** What an index holds *)

Module IndexTheory.
Import IndexMap IndexMapTheory.

(** An entry stands for a packed blob of type [t]. *)
Definition entry_is (packs : list ID) (t : Z) (e : indexEntry) (pb : PackedBlob) : Prop :=
  0 <= en_packIndex e /\ packs !! Z.to_nat (en_packIndex e) = Some (pb_Pack pb)
  /\ pb_Blob pb = mkBlob (mkBlobHandle (en_id e) t) (en_length e) (en_offset e) (en_uncompressedLength e).

(** The index holds, for each type, the blobs [bs], the newest first. *)
Record indexes (idx : Index) (bs : Z -> list PackedBlob) : Prop := {
  ix_three : length (ix_byType idx) = 3%nat;
  ix_maps : forall t, 0 <= t < NumBlobTypes -> exists m added,
    byType idx t = Ok m /\ holds (ix_hash idx t) m added /\ zlen added < 2 ^ bloomShift
    /\ Forall2 (entry_is (ix_packs idx) t) added (bs t) }.

(** Adding a blob to the ones of its type. *)
Definition push (bs : Z -> list PackedBlob) (pb : PackedBlob) : Z -> list PackedBlob :=
  fun t => if t =? bh_Type (b_handle (pb_Blob pb)) then pb :: bs t else bs t.

Definition type_ok (t : Z) : Prop := 0 <= t < NumBlobTypes.

Lemma byType_some idx t m : byType idx t = Ok m <-> 0 <= t /\ ix_byType idx !! Z.to_nat t = Some m.
Proof.
  unfold byType. destruct (Z.ltb_spec t 0) as [L|L]; cbn; [split; [done|lia]|].
  destruct (_ !! _); split; [by intros [= <-] | by intros [_ [= ->]] | done | by intros [_ ?]].
Qed.

Lemma byType_set idx t m t' :
  length (ix_byType idx) = 3%nat -> type_ok t -> type_ok t' ->
  byType (set_byType idx t m) t' = if t' =? t then Ok m else byType idx t'.
Proof.
  intros L [T1 T2] [T3 T4]. unfold byType, NumBlobTypes in *.
  change (ix_byType (set_byType idx t m)) with (<[Z.to_nat t := m]> (ix_byType idx)).
  destruct (Z.eqb_spec t' t) as [->|N].
  - rewrite list_lookup_insert_eq by lia. by rewrite (proj2 (Z.ltb_ge _ _)).
  - rewrite list_lookup_insert_ne by lia. done.
Qed.

Lemma Forall2_filter_iff {A B} (R : A -> B -> Prop) (P : A -> Prop) (Q : B -> Prop)
    `{!forall x, Decision (P x)} `{!forall y, Decision (Q y)} l k :
  (forall x y, R x y -> P x <-> Q y) -> Forall2 R l k -> Forall2 R (filter P l) (filter Q k).
Proof.
  intros PQ. induction 1 as [|x y l k Rxy _ IH]; [constructor|].
  destruct (decide (P x)) as [Px|Px].
  - rewrite !filter_cons_True by (done || by apply (PQ x y Rxy)). by constructor.
  - rewrite !filter_cons_False; [done| |done]. by rewrite <- (PQ x y Rxy).
Qed.

Lemma Forall2_rev {A B} (R : A -> B -> Prop) l k : Forall2 R l k -> Forall2 R (rev l) (rev k).
Proof. induction 1; cbn; [constructor|]. apply Forall2_app; [done|by constructor]. Qed.

Lemma entry_is_view packs t e pb : entry_is packs t (view e) pb <-> entry_is packs t e pb.
Proof. done. Qed.

Lemma entry_is_more packs more t e pb : entry_is packs t e pb -> entry_is (packs ++ more) t e pb.
Proof. intros (? & L & ?). split; [done|]. split; [|done]. by apply lookup_app_l_Some. Qed.

Lemma entry_type packs t e pb : entry_is packs t e pb -> bh_Type (b_handle (pb_Blob pb)) = t.
Proof. by intros (_ & _ & ->). Qed.

Lemma entry_id packs t e pb : entry_is packs t e pb -> bh_ID (b_handle (pb_Blob pb)) = en_id e.
Proof. by intros (_ & _ & ->). Qed.

Lemma toPackedBlob_spec idx t e pb : entry_is (ix_packs idx) t e pb -> toPackedBlob idx e t = Ok pb.
Proof. intros (_ & L & E). unfold toPackedBlob. rewrite L. destruct pb; cbn in *. by subst. Qed.

Lemma toPackedBlobs_spec idx t es added pbs :
  map view es = added -> Forall2 (entry_is (ix_packs idx) t) added pbs -> toPackedBlobs idx es t = Ok pbs.
Proof.
  intros <-. revert pbs. induction es as [|e es IH]; intros pbs F; cbn in F.
  - by apply Forall2_nil_inv_l in F as ->.
  - apply Forall2_cons_inv_l in F as (pb & pbs' & E & F & ->). cbn.
    rewrite (toPackedBlob_spec idx t e pb) by done. cbn. by rewrite (IH _ F).
Qed.

(** The blobs of a handle. *)
Definition of_handle (bh : BlobHandle) (pbs : list PackedBlob) : list PackedBlob :=
  filter (fun pb => b_handle (pb_Blob pb) = bh) pbs.

Lemma of_id_handle packs bh added pbs :
  Forall2 (entry_is packs (bh_Type bh)) added pbs ->
  Forall2 (entry_is packs (bh_Type bh)) (of_id (bh_ID bh) added) (of_handle bh pbs).
Proof.
  apply Forall2_filter_iff. intros e pb (_ & _ & ->). cbn. destruct bh; cbn. split; [by intros ->|by intros [=]].
Qed.

(** The index answers queries from the blobs it holds. *)
Lemma Lookup_spec idx bs bh pbs :
  indexes idx bs -> type_ok (bh_Type bh) ->
  Lookup idx bh pbs = Ok (pbs ++ of_handle bh (bs (bh_Type bh))).
Proof.
  intros I T. destruct (ix_maps _ _ I _ T) as (m & added & E & H & _ & F). unfold Lookup. rewrite E. cbn [rbind].
  destruct (ans_valuesWithID _ _ _ (holds_answers _ _ _ H) (bh_ID bh)) as (es & -> & V). cbn [rbind].
  by rewrite (toPackedBlobs_spec idx _ es _ _ V (of_id_handle _ _ _ _ F)).
Qed.

Lemma get_spec idx bs bh :
  indexes idx bs -> type_ok (bh_Type bh) ->
  exists m o, byType idx (bh_Type bh) = Ok m /\ get (ix_hash idx (bh_Type bh)) m (bh_ID bh) = Ok o
    /\ match o, head (of_handle bh (bs (bh_Type bh))) with
       | Some e, Some pb => entry_is (ix_packs idx) (bh_Type bh) e pb
       | None, None => True
       | _, _ => False
       end.
Proof.
  intros I T. destruct (ix_maps _ _ I _ T) as (m & added & E & H & _ & F).
  destruct (ans_get _ _ _ (holds_answers _ _ _ H) (bh_ID bh)) as (o & G & V). exists m, o. split; [done|]. split; [done|].
  pose proof (of_id_handle _ _ _ _ F) as F'. revert F' V.
  destruct (of_handle bh _) as [|pb pbs], (of_id _ added) as [|e es]; intros F' V; cbn in *.
  - by destruct o.
  - by apply Forall2_nil_inv_r in F'.
  - by apply Forall2_nil_inv_l in F'.
  - destruct o as [e'|]; [|done]. injection V as V. apply Forall2_cons in F' as [F' _].
    by rewrite <- V, entry_is_view in F'.
Qed.

Lemma Has_spec idx bs bh :
  indexes idx bs -> type_ok (bh_Type bh) ->
  Has idx bh = Ok (match of_handle bh (bs (bh_Type bh)) with [] => false | _ :: _ => true end).
Proof.
  intros I T. destruct (get_spec idx bs bh I T) as (m & o & E & G & C). unfold Has. rewrite E. cbn [rbind].
  rewrite G. cbn [rbind]. by destruct o, (of_handle bh _); cbn in C.
Qed.

(** The size is the plaintext length of the newest entry. *)
Lemma LookupSize_spec idx bs bh :
  indexes idx bs -> type_ok (bh_Type bh) ->
  LookupSize idx bh = Ok (DataLength ∘ pb_Blob <$> head (of_handle bh (bs (bh_Type bh)))).
Proof.
  intros I T. destruct (get_spec idx bs bh I T) as (m & o & E & G & C). unfold LookupSize. rewrite E. cbn [rbind].
  rewrite G. cbn [rbind]. destruct o as [e|], (head (of_handle bh _)) as [pb|]; cbn in *; try done.
  destruct C as (_ & _ & ->). unfold DataLength. cbn. by destruct (negb _).
Qed.

Lemma values_of_spec idx bs t : indexes idx bs -> type_ok t -> values_of idx t = Ok (rev (bs t)).
Proof.
  intros I T. destruct (ix_maps _ _ I _ T) as (m & added & E & H & _ & F). unfold values_of. rewrite E. cbn [rbind].
  destruct (ans_values _ _ _ (holds_answers _ _ _ H)) as (es & -> & V). cbn [rbind].
  by apply (toPackedBlobs_spec idx t es _ _ V), Forall2_rev.
Qed.

Lemma Values_spec idx bs : indexes idx bs -> Values idx = Ok (rev (bs 0) ++ rev (bs 1) ++ rev (bs 2)).
Proof.
  intros I. unfold Values, blob_types, collect. rewrite !(values_of_spec idx bs) by done. cbn. by rewrite app_nil_r.
Qed.

Lemma NewIndex_indexes now hash : indexes (NewIndex now hash) (fun _ => []).
Proof.
  split; [done|]. intros t T. exists zero, [].
  split; [|split; [by left|split; [done|constructor]]].
  unfold byType. rewrite (proj2 (Z.ltb_ge _ _)) by apply T. cbn [guard rbind].
  unfold NumBlobTypes in T. assert (t = 0 \/ t = 1 \/ t = 2) as [->|[->| ->]] by lia; done.
Qed.

(** Everything but the tables. *)
Definition meta (idx : Index) := (ix_packs idx, ix_final idx, ix_ids idx, ix_created idx, ix_hash idx).

(** A table takes fewer than 2^36 entries. *)
Definition overflows (pbs : list PackedBlob) : bool := 2 ^ bloomShift <=? zlen pbs.

Definition full (bs : Z -> list PackedBlob) (t : Z) : bool := 2 ^ bloomShift <=? zlen (bs t) + 1.

(** Replacing the table of one type by one with another content. *)
Lemma set_byType_indexes idx bs t m added pbs :
  indexes idx bs -> type_ok t -> holds (ix_hash idx t) m added -> zlen added < 2 ^ bloomShift ->
  Forall2 (entry_is (ix_packs idx) t) added pbs ->
  indexes (set_byType idx t m) (fun t' => if t' =? t then pbs else bs t').
Proof.
  intros I T H B F. pose proof (ix_three _ _ I) as L3. split.
  - change (length (<[Z.to_nat t := m]> (ix_byType idx)) = 3%nat). by rewrite length_insert.
  - intros t' T'. rewrite byType_set by done.
    change (ix_hash (set_byType idx t m)) with (ix_hash idx). change (ix_packs (set_byType idx t m)) with (ix_packs idx).
    destruct (Z.eqb_spec t' t) as [->|N]; [by exists m, added|]. by apply I.
Qed.

Lemma indexes_ext idx bs bs' : (forall t, type_ok t -> bs t = bs' t) -> indexes idx bs -> indexes idx bs'.
Proof.
  intros E I. split; [apply I|]. intros t T. destruct (ix_maps _ _ I t T) as (m & added & ? & ? & ? & ?).
  exists m, added. by rewrite <- E.
Qed.

Lemma indexes_meta idx idx' bs :
  ix_byType idx' = ix_byType idx -> ix_hash idx' = ix_hash idx -> (exists more, ix_packs idx' = ix_packs idx ++ more) ->
  indexes idx bs -> indexes idx' bs.
Proof.
  intros E1 E2 [more E3] I. split; [rewrite E1; apply I|]. intros t T.
  destruct (ix_maps _ _ I t T) as (m & added & M & H & B & F). exists m, added.
  split; [unfold byType in *; by rewrite E1|]. split; [by rewrite E2|]. split; [done|].
  rewrite E3. eapply Forall2_impl; [exact F|]. intros e pb. apply entry_is_more.
Qed.

Lemma store_spec idx bs packIndex pid blob :
  indexes idx bs -> 0 <= packIndex -> ix_packs idx !! Z.to_nat packIndex = Some pid ->
  too_large blob = false -> type_ok (bh_Type (b_handle blob)) -> full bs (bh_Type (b_handle blob)) = false ->
  exists idx', store idx packIndex blob = Ok idx' /\ indexes idx' (push bs (mkPackedBlob pid blob))
    /\ meta idx' = meta idx.
Proof.
  intros I P0 P L T Fu. apply Z.leb_gt in Fu. unfold store. rewrite L. cbn [guard rbind].
  set (t := bh_Type (b_handle blob)) in *.
  destruct (ix_maps _ _ I t T) as (m & added & E & H & B & F). rewrite E. cbn [rbind].
  pose proof (Forall2_length _ _ _ F) as Len.
  pose proof (add_spec (ix_hash idx t) m added (bh_ID (b_handle blob)) packIndex (b_Offset blob) (b_Length blob)
    (b_UncompressedLength blob) H) as A.
  rewrite (proj2 (Z.ltb_lt _ _)) in A by (unfold zlen in *; lia). destruct A as (m' & -> & I').
  cbn [rbind]. eexists. split; [done|]. split; [|done].
  eapply indexes_ext; [|eapply (set_byType_indexes idx bs t m' (_ :: added) (mkPackedBlob pid blob :: bs t)); [done|done|by right| |]].
  - intros t' _. unfold push. cbn. fold t. destruct (Z.eqb_spec t' t) as [->|]; done.
  - unfold zlen in *. cbn. lia.
  - constructor; [|done]. split; [done|]. split; [done|]. cbn. unfold t. by destruct blob as [[? ?] ? ? ?].
Qed.

(** Blobs that an index can take. *)
Definition storable (blob : Blob) : bool :=
  negb (too_large blob) && (0 <=? bh_Type (b_handle blob)) && (bh_Type (b_handle blob) <? NumBlobTypes).

Definition push_all (bs : Z -> list PackedBlob) (pid : ID) (blobs : list Blob) : Z -> list PackedBlob :=
  fold_left (fun bs blob => push bs (mkPackedBlob pid blob)) blobs bs.

Definition of_type (t : Z) (blobs : list Blob) : list Blob := filter (fun b => bh_Type (b_handle b) = t) blobs.

Lemma push_all_spec bs pid blobs t :
  push_all bs pid blobs t = map (mkPackedBlob pid) (rev (of_type t blobs)) ++ bs t.
Proof.
  revert bs. induction blobs as [|b blobs IH]; intros bs; [done|].
  change (push_all bs pid (b :: blobs)) with (push_all (push bs (mkPackedBlob pid b)) pid blobs). rewrite IH.
  unfold of_type, push. cbn [pb_Blob].
  destruct (Z.eqb_spec t (bh_Type (b_handle b))) as [->|N].
  - rewrite filter_cons_True by done. cbn [rev]. rewrite map_app, <- app_assoc. done.
  - rewrite filter_cons_False by congruence. done.
Qed.

Lemma push_all_longer bs pid blobs t : zlen (bs t) <= zlen (push_all bs pid blobs t).
Proof. rewrite push_all_spec, zlen_app. unfold zlen. lia. Qed.

Lemma store_all_spec idx bs packIndex pid blobs :
  indexes idx bs -> 0 <= packIndex -> ix_packs idx !! Z.to_nat packIndex = Some pid ->
  forallb storable blobs = true -> (forall t, type_ok t -> overflows (push_all bs pid blobs t) = false) ->
  exists idx', store_all idx packIndex blobs = Ok idx' /\ indexes idx' (push_all bs pid blobs)
    /\ meta idx' = meta idx.
Proof.
  revert idx bs. induction blobs as [|b blobs IH]; intros idx bs I P0 P S R; [by exists idx|].
  cbn in S. unfold storable in S at 1. split_bools.
  destruct (store_spec idx bs packIndex pid b) as (idx1 & E1 & I1 & M1); try done.
  { specialize (R (bh_Type (b_handle b)) ltac:(done)). apply Z.leb_gt in R. apply Z.leb_gt.
    change (push_all bs pid (b :: blobs)) with (push_all (push bs (mkPackedBlob pid b)) pid blobs) in R.
    pose proof (push_all_longer (push bs (mkPackedBlob pid b)) pid blobs (bh_Type (b_handle b))) as L.
    unfold push in L at 1. cbn [pb_Blob] in L. rewrite Z.eqb_refl, zlen_cons in L. lia. }
  cbn [store_all]. rewrite E1. cbn [rbind].
  destruct (IH idx1 (push bs (mkPackedBlob pid b))) as (idx2 & E2 & I2 & M2); try done.
  - by injection M1 as -> _ _ _ _.
  - exists idx2. split; [done|]. split; [done|]. congruence.
Qed.

Lemma addToPacks_spec idx bs id :
  indexes idx bs -> zlen (ix_packs idx) < MaxUint32 ->
  exists idx', addToPacks idx id = Ok (idx', zlen (ix_packs idx)) /\ indexes idx' bs
    /\ ix_packs idx' = ix_packs idx ++ [id] /\ ix_final idx' = ix_final idx /\ ix_ids idx' = ix_ids idx
    /\ ix_hash idx' = ix_hash idx /\ ix_packs idx' !! Z.to_nat (zlen (ix_packs idx)) = Some id.
Proof.
  intros I B. unfold addToPacks. rewrite zlen_app. unfold zlen at 2. cbn [length].
  rewrite (proj2 (Z.ltb_ge _ _)) by lia. cbn [guard rbind]. eexists. split.
  { do 2 f_equal. unfold zlen. cbn. lia. }
  split; [eapply indexes_meta; [..|exact I]; [done|done|by exists [id]]|]. do 4 (split; [done|]).
  change ((ix_packs idx ++ [id]) !! Z.to_nat (zlen (ix_packs idx)) = Some id). unfold zlen. rewrite Nat2Z.id.
  by apply list_lookup_middle.
Qed.

(** ** Merging *)

(** Adding what is not there yet. *)
Definition add_new (acc : list PackedBlob) (pb : PackedBlob) : list PackedBlob :=
  if bool_decide (pb ∈ acc) then acc else pb :: acc.

Definition merged (acc news : list PackedBlob) : list PackedBlob := fold_left add_new news acc.

Lemma add_new_longer acc pb : zlen acc <= zlen (add_new acc pb).
Proof. unfold add_new. case_bool_decide; [done|]. rewrite zlen_cons. lia. Qed.

Lemma merged_longer news acc : zlen acc <= zlen (merged acc news).
Proof.
  revert acc. induction news as [|pb news IH]; intros acc; [done|].
  etrans; [apply add_new_longer|]. apply IH.
Qed.

Lemma hasIdenticalEntry_spec idx idx2 t m added pbs e2 pb2 :
  holds (ix_hash idx t) m added -> Forall2 (entry_is (ix_packs idx) t) added pbs ->
  entry_is (ix_packs idx2) t e2 pb2 ->
  hasIdenticalEntry idx idx2 t m e2 = Ok (bool_decide (pb2 ∈ pbs)).
Proof.
  intros H F E2. unfold hasIdenticalEntry.
  destruct (ans_valuesWithID _ _ _ (holds_answers _ _ _ H) (en_id e2)) as (es & -> & V). cbn [rbind].
  pose proof (of_id_handle _ (mkBlobHandle (en_id e2) t) _ _ F) as F'. cbn [bh_ID bh_Type] in F'.
  rewrite (toPackedBlobs_spec idx t es _ _ V F'). cbn [rbind].
  assert (Q : pb2 ∈ of_handle (mkBlobHandle (en_id e2) t) pbs <-> pb2 ∈ pbs).
  { unfold of_handle. rewrite list_elem_of_filter. destruct E2 as (_ & _ & ->). cbn. tauto. }
  destruct (of_handle _ pbs) as [|b bs].
  - f_equal. symmetry. apply bool_decide_eq_false_2. rewrite <- Q. apply not_elem_of_nil.
  - rewrite (toPackedBlob_spec idx2 t e2 pb2 E2). cbn [rbind]. f_equal. by apply bool_decide_ext.
Qed.

Lemma merge_entries_spec idx idx2 t es m added pbs pbs2 packlen :
  holds (ix_hash idx t) m added -> Forall2 (entry_is (ix_packs idx) t) added pbs ->
  Forall2 (entry_is (ix_packs idx2) t) (map view es) pbs2 -> overflows pbs = false ->
  (exists more, ix_packs idx = more ++ ix_packs idx2 /\ packlen = zlen more) -> zlen (ix_packs idx) <= MaxUint32 ->
  if overflows (merged pbs pbs2)
  then merge_entries idx idx2 packlen t m es = Err "repository index size overflow"
  else exists m' added', merge_entries idx idx2 packlen t m es = Ok m' /\ holds (ix_hash idx t) m' added'
    /\ zlen added' < 2 ^ bloomShift /\ Forall2 (entry_is (ix_packs idx) t) added' (merged pbs pbs2).
Proof.
  intros H F F2 O Pk Bp. revert m added pbs pbs2 H F F2 O. induction es as [|e es IH]; intros m added pbs pbs2 H F F2 O.
  - apply Forall2_nil_inv_l in F2 as ->. cbn [merged fold_left]. rewrite O. exists m, added.
    pose proof (Forall2_length _ _ _ F). apply Z.leb_gt in O. unfold zlen in *.
    do 2 (split; [done|]). split; [lia|done].
  - cbn [map] in F2. apply Forall2_cons_inv_l in F2 as (pb & pbs2' & E & F2 & ->). rewrite entry_is_view in E.
    cbn [merge_entries]. rewrite (hasIdenticalEntry_spec idx idx2 t m added pbs e pb H F E). cbn [rbind].
    change (merged pbs (pb :: pbs2')) with (merged (add_new pbs pb) pbs2').
    unfold add_new. case_bool_decide as D; cbn [rbind]; [by apply (IH m added)|].
    pose proof (Forall2_length _ _ _ F) as Len. destruct E as (P0 & Pl & Pb). destruct Pk as (more & Ep & ->).
    pose proof (lookup_lt_Some _ _ _ Pl) as Lt. pose proof (merged_longer pbs2' (pb :: pbs)) as Lo. rewrite zlen_cons in Lo.
    assert (W : wrap_u 32 (en_packIndex e + zlen more) = en_packIndex e + zlen more).
    { apply wrap_u_small. rewrite Ep, zlen_app in Bp. unfold MaxUint32, zlen in *. range. }
    rewrite W. pose proof (add_spec (ix_hash idx t) m added (en_id e) (en_packIndex e + zlen more) (en_offset e)
      (en_length e) (en_uncompressedLength e) H) as A.
    destruct (Z.ltb_spec (zlen added + 1) (2 ^ bloomShift)) as [G|G].
    + destruct A as (m' & -> & I'). cbn [rbind].
      apply (IH m' (mkIndexEntry (en_id e) 0 (en_packIndex e + zlen more) (en_offset e) (en_length e) (en_uncompressedLength e) :: added)); [by right| |done|].
      * constructor; [|done]. unfold entry_is. cbn. split; [unfold zlen; lia|]. split; [|done].
        rewrite Ep, lookup_app_r by (unfold zlen; lia). rewrite <- Pl. f_equal. unfold zlen. lia.
      * apply Z.leb_gt. rewrite zlen_cons. unfold zlen in *. lia.
    + rewrite A. cbn [rbind]. unfold overflows. rewrite (proj2 (Z.leb_le _ _)); [done|]. unfold zlen in *. lia.
Qed.

Lemma indexes_bound idx bs t : indexes idx bs -> type_ok t -> overflows (bs t) = false.
Proof.
  intros I T. destruct (ix_maps _ _ I t T) as (m & added & _ & _ & B & F). apply Z.leb_gt.
  unfold zlen in *. by rewrite <- (Forall2_length _ _ _ F).
Qed.

Lemma existsb_except t ts f g bs2 :
  t ∉ ts ->
  existsb (fun t' : Z => overflows (merged (if t' =? t then g else f t') (bs2 t'))) ts
  = existsb (fun t' => overflows (merged (f t') (bs2 t'))) ts.
Proof.
  intros N. induction ts as [|u ts IH]; [done|]. apply not_elem_of_cons in N as [N1 N2]. cbn.
  rewrite (proj2 (Z.eqb_neq u t)) by done. by rewrite IH.
Qed.

Lemma blob_types_ok t : t ∈ blob_types <-> type_ok t.
Proof. unfold blob_types, type_ok, NumBlobTypes. rewrite !elem_of_cons, elem_of_nil. lia. Qed.

Lemma merge_types_spec idx idx2 bs bs2 packlen ts :
  indexes idx bs -> indexes idx2 bs2 ->
  (exists more, ix_packs idx = more ++ ix_packs idx2 /\ packlen = zlen more) -> zlen (ix_packs idx) <= MaxUint32 ->
  Forall type_ok ts -> NoDup ts ->
  if existsb (fun t => overflows (merged (bs t) (rev (bs2 t)))) ts
  then merge_types idx idx2 packlen ts = Err "repository index size overflow"
  else exists idx', merge_types idx idx2 packlen ts = Ok idx' /\ meta idx' = meta idx
    /\ indexes idx' (fun t => if decide (t ∈ ts) then merged (bs t) (rev (bs2 t)) else bs t).
Proof.
  intros I I2 Pk Bp Ts Nd. revert idx bs I Pk Bp. induction ts as [|t ts IH]; intros idx bs I Pk Bp.
  - exists idx. split; [done|]. split; [done|]. eapply indexes_ext; [|exact I]. intros t _.
    rewrite decide_False; [done|apply not_elem_of_nil].
  - apply Forall_cons in Ts as [T Ts]. apply NoDup_cons in Nd as [Nt Nd].
    destruct (ix_maps _ _ I t T) as (m & added & E & H & _ & F).
    destruct (ix_maps _ _ I2 t T) as (m2 & added2 & E2 & H2 & _ & F2).
    cbn [merge_types]. rewrite E2, E. cbn [rbind].
    destruct (ans_values _ _ _ (holds_answers _ _ _ H2)) as (es & -> & V). cbn [rbind].
    pose proof (merge_entries_spec idx idx2 t es m added (bs t) (rev (bs2 t)) packlen H F) as ME.
    rewrite V in ME. specialize (ME (Forall2_rev _ _ _ F2)).
    cbn [existsb]. destruct (overflows (merged (bs t) (rev (bs2 t)))) eqn:Ov; cbn [orb].
    { rewrite ME; [done|by apply (indexes_bound idx)|done|done]. }
    destruct ME as (m' & added' & -> & H' & B' & F'); [by apply (indexes_bound idx)|done|done|].
    cbn [rbind]. pose proof (set_byType_indexes idx bs t m' added' _ I T H' B' F') as I'.
    specialize (IH Ts Nd (set_byType idx t m') _ I' Pk Bp). cbn beta in IH.
    rewrite (existsb_except t ts bs _ (fun t => rev (bs2 t))) in IH by done.
    destruct (existsb _ ts); [done|]. destruct IH as (idx' & -> & M & J).
    exists idx'. split; [done|]. split; [exact M|]. eapply indexes_ext; [|exact J]. intros t' _. cbn beta.
    destruct (Z.eqb_spec t' t) as [->|N].
    + rewrite decide_False, decide_True by (done || apply list_elem_of_here). done.
    + destruct (decide (t' ∈ ts)) as [D|D].
      * rewrite decide_True by (by apply list_elem_of_further). done.
      * rewrite decide_False; [done|]. by intros [?|?]%elem_of_cons.
Qed.

Lemma merge_spec idx idx2 bs bs2 :
  indexes idx bs -> indexes idx2 bs2 -> ix_final idx2 = true ->
  zlen (ix_packs idx) + zlen (ix_packs idx2) <= MaxUint32 ->
  if existsb (fun t => overflows (merged (bs t) (rev (bs2 t)))) blob_types
  then merge idx idx2 = Err "repository index size overflow"
  else exists idx', merge idx idx2 = Ok idx'
    /\ indexes idx' (fun t => merged (bs t) (rev (bs2 t)))
    /\ ix_packs idx' = ix_packs idx ++ ix_packs idx2 /\ ix_ids idx' = ix_ids idx ++ ix_ids idx2
    /\ ix_final idx' = ix_final idx /\ ix_hash idx' = ix_hash idx.
Proof.
  intros I I2 Fi Bp. unfold merge. rewrite Fi. cbn [negb guard rbind].
  set (idx1 := idx <| ix_packs := _ |>).
  assert (I1 : indexes idx1 bs) by (eapply indexes_meta; [..|exact I]; [done|done|by exists (ix_packs idx2)]).
  assert (Zp : zlen (ix_packs idx1) <= MaxUint32).
  { change (ix_packs idx1) with (ix_packs idx ++ ix_packs idx2). by rewrite zlen_app. }
  rewrite (proj2 (Z.ltb_ge _ _) Zp). cbn [guard rbind].
  pose proof (merge_types_spec idx1 idx2 bs bs2 (zlen (ix_packs idx)) blob_types I1 I2) as MT.
  destruct (existsb _ blob_types); [rewrite MT; [done|by exists (ix_packs idx)|done|by repeat constructor|by apply (bool_decide_unpack _)]|].
  destruct MT as (idx' & -> & M & J); [by exists (ix_packs idx)|done|by repeat constructor|by apply (bool_decide_unpack _)|].
  cbn [rbind]. eexists. split; [done|]. injection M as M1 M2 M3 _ M5. split.
  - eapply indexes_meta; [..|eapply indexes_ext; [|exact J]]; [done|done|exists []; by rewrite app_nil_r|].
    intros t T. cbn beta. rewrite decide_True; [done|]. by apply blob_types_ok.
  - split; [exact M1|]. split; [|split; [exact M2|exact M5]].
    change (ix_ids idx' ++ ix_ids idx2 = ix_ids idx ++ ix_ids idx2). by rewrite M3.
Qed.

(** ** Reachable indexes *)

Lemma store_cond idx bs packIndex blob idx' :
  indexes idx bs -> store idx packIndex blob = Ok idx' ->
  too_large blob = false /\ type_ok (bh_Type (b_handle blob)) /\ full bs (bh_Type (b_handle blob)) = false.
Proof.
  intros I H. unfold store in H. inv_results. split; [done|].
  assert (T : type_ok (bh_Type (b_handle blob))).
  { apply byType_some in E0 as [T0 E0]. apply lookup_lt_Some in E0. rewrite (ix_three _ _ I) in E0.
    unfold type_ok, NumBlobTypes. lia. }
  split; [done|]. destruct (ix_maps _ _ I _ T) as (m & added & Em & Hm & _ & F). rewrite Em in E0. injection E0 as <-.
  pose proof (add_spec _ _ _ (bh_ID (b_handle blob)) packIndex (b_Offset blob) (b_Length blob) (b_UncompressedLength blob) Hm) as A.
  rewrite E1 in A. apply Z.leb_gt. pose proof (Forall2_length _ _ _ F).
  destruct (Z.ltb_spec (zlen added + 1) (2 ^ bloomShift)); [unfold zlen in *; lia|done].
Qed.

Lemma store_all_inv idx bs packIndex pid blobs idx' :
  indexes idx bs -> 0 <= packIndex -> ix_packs idx !! Z.to_nat packIndex = Some pid ->
  store_all idx packIndex blobs = Ok idx' -> indexes idx' (push_all bs pid blobs) /\ meta idx' = meta idx.
Proof.
  revert idx bs. induction blobs as [|b blobs IH]; intros idx bs I P0 P H; cbn in H; [by injection H as <-|].
  apply rbind_ok in H as (idx1 & E1 & H). destruct (store_cond _ _ _ _ _ I E1) as (C1 & C2 & C3).
  destruct (store_spec idx bs packIndex pid b) as (idx1' & E1' & I1 & M1); try done.
  rewrite E1 in E1'. injection E1' as <-.
  destruct (IH idx1 _ I1) as [I2 M2]; [done| |done|]; [by injection M1 as -> _ _ _ _|].
  split; [done|congruence].
Qed.

Lemma addToPacks_inv idx bs id idx' i :
  indexes idx bs -> addToPacks idx id = Ok (idx', i) ->
  indexes idx' bs /\ i = zlen (ix_packs idx) /\ 0 <= i /\ ix_packs idx' !! Z.to_nat i = Some id
  /\ ix_packs idx' = ix_packs idx ++ [id] /\ ix_final idx' = ix_final idx /\ ix_ids idx' = ix_ids idx.
Proof.
  intros I H. assert (B : zlen (ix_packs idx) < MaxUint32).
  { unfold addToPacks in H. inv_results. split_bools. rewrite zlen_app in *.
    change (zlen [id]) with 1 in *. lia. }
  destruct (addToPacks_spec idx bs id I B) as (idx1 & E & I1 & ? & ? & ? & ? & ?).
  rewrite E in H. injection H as <- <-. split; [done|]. split; [done|]. split; [unfold zlen; lia|]. done.
Qed.

Lemma StorePack_inv idx bs id blobs idx' :
  indexes idx bs -> StorePack idx id blobs = Ok idx' ->
  ix_final idx = false /\ indexes idx' (push_all bs id blobs)
  /\ ix_packs idx' = ix_packs idx ++ [id] /\ ix_final idx' = false /\ ix_ids idx' = ix_ids idx.
Proof.
  intros I H. unfold StorePack in H. inv_results. destruct a as [idx1 i].
  destruct (addToPacks_inv _ _ _ _ _ I E0) as (I1 & _ & P0 & P & Pk & Fi & Ids).
  destruct (store_all_inv _ _ _ _ _ _ I1 P0 P H) as [I2 M]. injection M as M1 M2 M3 _ _.
  split; [done|]. split; [done|]. rewrite M1, M2, M3, Pk, Fi, Ids, E. done.
Qed.

Lemma StorePack_spec idx bs id blobs :
  indexes idx bs -> ix_final idx = false -> zlen (ix_packs idx) < MaxUint32 ->
  forallb storable blobs = true -> (forall t, type_ok t -> overflows (push_all bs id blobs t) = false) ->
  exists idx', StorePack idx id blobs = Ok idx'.
Proof.
  intros I Fi B S R. unfold StorePack. rewrite Fi. cbn [guard rbind].
  destruct (addToPacks_spec idx bs id I B) as (idx1 & -> & I1 & _ & _ & _ & _ & P). cbn [rbind].
  destruct (store_all_spec idx1 bs (zlen (ix_packs idx)) id blobs I1) as (idx2 & -> & _); try done; [unfold zlen; lia|].
  eauto.
Qed.

(** The blobs of a stored form. *)
Definition contents (packs : list packJSON) : Z -> list PackedBlob :=
  fold_left (fun bs p => push_all bs (pj_ID p) (map of_json (pj_Blobs p))) packs (fun _ => []).

Lemma decode_packs_inv packs idx bs idx' :
  indexes idx bs -> decode_packs idx packs = Ok idx' ->
  indexes idx' (fold_left (fun bs p => push_all bs (pj_ID p) (map of_json (pj_Blobs p))) packs bs)
  /\ ix_ids idx' = ix_ids idx.
Proof.
  revert idx bs. induction packs as [|p packs IH]; intros idx bs I H; cbn in H; [by injection H as <-|].
  apply rbind_ok in H as ([idx1 i] & E1 & H). apply rbind_ok in H as (idx2 & E2 & H).
  destruct (addToPacks_inv _ _ _ _ _ I E1) as (I1 & _ & P0 & P & _ & _ & Ids).
  destruct (store_all_inv _ _ _ _ _ _ I1 P0 P E2) as [I2 M]. injection M as _ _ M3 _ _.
  destruct (IH _ _ I2 H) as [I3 Ids']. split; [done|]. congruence.
Qed.

Lemma DecodeIndex_inv packs id now hash idx :
  DecodeIndex packs id now hash = Ok idx ->
  indexes idx (contents packs) /\ ix_final idx = true /\ ix_ids idx = [id].
Proof.
  intros H. unfold DecodeIndex in H. apply rbind_ok in H as (idx1 & E & H). injection H as <-.
  destruct (decode_packs_inv _ _ _ _ (NewIndex_indexes now hash) E) as [I Ids]. split; [|split; [done|]].
  - eapply indexes_meta; [..|exact I]; [done|done|exists []; by rewrite app_nil_r].
  - change (ix_ids idx1 ++ [id] = [id]). by rewrite Ids.
Qed.

Lemma Preallocate_inv idx bs t n idx' :
  indexes idx bs -> Preallocate idx t n = Ok idx' -> indexes idx' bs /\ meta idx' = meta idx.
Proof.
  intros I H. unfold Preallocate in H. inv_results. rename a into m, a0 into m'.
  assert (T : type_ok t).
  { apply byType_some in E as [T0 E]. apply lookup_lt_Some in E. rewrite (ix_three _ _ I) in E.
    unfold type_ok, NumBlobTypes. lia. }
  destruct (ix_maps _ _ I _ T) as (m0 & added & Em & Hm & B & F). rewrite Em in E. injection E as <-.
  assert (H' : holds (ix_hash idx t) m' added).
  { destruct (decide (n = 0)) as [->|N]; [by injection E0 as <-|].
    destruct (preallocate_spec _ _ _ n Hm N) as (m1 & E1 & I1 & _). rewrite E1 in E0. injection E0 as <-. by right. }
  split; [|done]. eapply indexes_ext; [|exact (set_byType_indexes idx bs t m' added _ I T H' B F)].
  intros t' _. cbn beta. destruct (Z.eqb_spec t' t) as [->|]; done.
Qed.

Lemma merge_inv idx idx2 bs bs2 idx' :
  indexes idx bs -> indexes idx2 bs2 -> merge idx idx2 = Ok idx' ->
  indexes idx' (fun t => merged (bs t) (rev (bs2 t)))
  /\ ix_final idx' = ix_final idx /\ ix_ids idx' = ix_ids idx ++ ix_ids idx2.
Proof.
  intros I I2 H. assert (C : ix_final idx2 = true /\ zlen (ix_packs idx) + zlen (ix_packs idx2) <= MaxUint32).
  { unfold merge in H. inv_results. split_bools. split; [done|].
    change (ix_packs (idx <| ix_packs := ?l |>)) with l in *. rewrite zlen_app in *. lia. }
  pose proof (merge_spec idx idx2 bs bs2 I I2 (proj1 C) (proj2 C)) as S. rewrite H in S.
  destruct (existsb _ _); [done|]. destruct S as (? & [= <-] & ? & _ & ? & ? & _). done.
Qed.

(** The indexes a program can get, with the blobs they hold. *)
Inductive reachable : Index -> (Z -> list PackedBlob) -> Prop :=
| reach_new now hash : reachable (NewIndex now hash) (fun _ => [])
| reach_decode packs id now hash idx :
    DecodeIndex packs id now hash = Ok idx -> reachable idx (contents packs)
| reach_store idx bs id blobs idx' :
    reachable idx bs -> StorePack idx id blobs = Ok idx' -> reachable idx' (push_all bs id blobs)
| reach_preallocate idx bs t n idx' :
    reachable idx bs -> Preallocate idx t n = Ok idx' -> reachable idx' bs
| reach_finalize idx bs : reachable idx bs -> reachable (Finalize idx) bs
| reach_set_id idx bs id idx' : reachable idx bs -> SetID idx id = Ok idx' -> reachable idx' bs
| reach_merge idx bs idx2 bs2 idx' :
    reachable idx bs -> reachable idx2 bs2 -> merge idx idx2 = Ok idx' ->
    reachable idx' (fun t => merged (bs t) (rev (bs2 t))).

Lemma reachable_indexes idx bs : reachable idx bs -> indexes idx bs.
Proof.
  induction 1 as [now hash|packs id now hash idx E|idx bs id blobs idx' _ I E|idx bs t n idx' _ I E
                 |idx bs _ I|idx bs id idx' _ I E|idx bs idx2 bs2 idx' _ I _ I2 E].
  - apply NewIndex_indexes.
  - by apply DecodeIndex_inv in E as [? _].
  - by apply (StorePack_inv _ _ _ _ _ I) in E as (_ & ? & _).
  - by apply (Preallocate_inv _ _ _ _ _ I) in E as [? _].
  - eapply indexes_meta; [..|exact I]; [done|done|exists []; by rewrite app_nil_r].
  - unfold SetID in E. inv_results. eapply indexes_meta; [..|exact I]; [done|done|exists []; by rewrite app_nil_r].
  - by apply (merge_inv _ _ _ _ _ I I2) in E as [? _].
Qed.

(** ** The stored form holds the same blobs *)

Definition blobs_of (p : packJSON) : list PackedBlob := map (mkPackedBlob (pj_ID p) ∘ of_json) (pj_Blobs p).
Definition flat (packs : list packJSON) : list PackedBlob := concat (map blobs_of packs).

Definition typed (t : Z) (pbs : list PackedBlob) : list PackedBlob :=
  filter (fun pb => bh_Type (b_handle (pb_Blob pb)) = t) pbs.

Lemma typed_app t a b : typed t (a ++ b) = typed t a ++ typed t b.
Proof. apply filter_app. Qed.

Lemma of_type_packed t pid (bs : list Blob) : typed t (map (mkPackedBlob pid) bs) = map (mkPackedBlob pid) (of_type t bs).
Proof.
  unfold typed, of_type. induction bs as [|b bs IH]; [done|]. cbn [map].
  destruct (decide (bh_Type (b_handle b) = t)) as [E|E].
  - rewrite !filter_cons_True by done. cbn. by rewrite IH.
  - rewrite !filter_cons_False by done. done.
Qed.

Lemma contents_acc packs bs t :
  fold_left (fun bs p => push_all bs (pj_ID p) (map of_json (pj_Blobs p))) packs bs t
  = rev (typed t (flat packs)) ++ bs t.
Proof.
  revert bs. induction packs as [|p packs IH]; intros bs; [done|]. cbn [fold_left]. rewrite IH, push_all_spec.
  change (flat (p :: packs)) with (blobs_of p ++ flat packs). rewrite typed_app, rev_app_distr, <- app_assoc.
  f_equal. f_equal. unfold blobs_of. rewrite map_rev, <- of_type_packed, map_map. done.
Qed.

Lemma contents_flat packs t : contents packs t = rev (typed t (flat packs)).
Proof. unfold contents. rewrite contents_acc. apply app_nil_r. Qed.

Lemma of_to_json pb : of_json (to_json pb) = pb_Blob pb.
Proof. by destruct pb as [? [[? ?] ? ? ?]]. Qed.

(** The list of packs and the map of their positions agree. *)
Definition positioned (st : list packJSON * gmap ID nat) : Prop :=
  forall id i, st.2 !! id = Some i <-> exists p, st.1 !! i = Some p /\ pj_ID p = id.

Lemma flat_alter i l p pb :
  l !! i = Some p -> pj_ID p = pb_Pack pb ->
  flat (alter (fun p => mkPackJSON (pj_ID p) (pj_Blobs p ++ [to_json pb])) i l) ≡ₚ pb :: flat l.
Proof.
  intros L E. revert i L. induction l as [|q l IH]; intros i L; [done|]. destruct i as [|i]; cbn in L.
  - injection L as ->. change (blobs_of (mkPackJSON (pj_ID p) (pj_Blobs p ++ [to_json pb])) ++ flat l ≡ₚ pb :: blobs_of p ++ flat l).
    unfold blobs_of. cbn [pj_ID pj_Blobs]. rewrite map_app. cbn [map]. unfold compose at 2. rewrite of_to_json, E.
    replace (mkPackedBlob (pb_Pack pb) (pb_Blob pb)) with pb by (by destruct pb).
    rewrite <- app_assoc. symmetry. apply Permutation_middle.
  - change (blobs_of q ++ flat (alter (fun p => mkPackJSON (pj_ID p) (pj_Blobs p ++ [to_json pb])) i l) ≡ₚ pb :: blobs_of q ++ flat l).
    rewrite (IH i L). symmetry. apply Permutation_middle.
Qed.

Lemma positioned_alter f i l packs :
  (forall p, pj_ID (f p) = pj_ID p) -> positioned (l, packs) -> positioned (alter f i l, packs).
Proof.
  intros Ef P id j. cbn. specialize (P id j). cbn in P. rewrite P. rewrite list_lookup_alter.
  destruct (decide (i = j)) as [->|]; [|done]. destruct (l !! j) as [p|]; cbn; [|by split; intros (? & ? & _)].
  split; intros (? & [= <-] & <-); eauto.
Qed.

Lemma add_to_packs_spec pb st :
  positioned st -> is_zero_id (pb_Pack pb) = false ->
  exists st', add_to_packs pb st = Ok st' /\ positioned st' /\ flat st'.1 ≡ₚ pb :: flat st.1
    /\ (forall p, p ∈ st'.1 -> pj_ID p = pb_Pack pb \/ exists q, q ∈ st.1 /\ pj_ID q = pj_ID p).
Proof.
  destruct st as [l packs]. intros P N. unfold add_to_packs. rewrite N. cbn [guard rbind].
  set (f := fun p => mkPackJSON (pj_ID p) (pj_Blobs p ++ [to_json pb])).
  assert (Old : forall (i : nat) (k : list packJSON) p, p ∈ alter f i k -> exists q, q ∈ k /\ pj_ID q = pj_ID p).
  { intros i k p Hp. apply list_elem_of_lookup in Hp as [j Hj]. rewrite list_lookup_alter in Hj.
    destruct (decide (i = j)) as [<-|]; [|exists p; split; [by eapply list_elem_of_lookup_2|done]].
    destruct (k !! i) as [q|] eqn:Eq; [|done]. injection Hj as <-. exists q. split; [by eapply list_elem_of_lookup_2|done]. }
  destruct (packs !! pb_Pack pb) as [i|] eqn:E.
  - eexists. split; [done|]. destruct (proj1 (P _ _) E) as (p & Lp & Ep). cbn in Lp.
    split; [by apply positioned_alter|]. split; [by apply (flat_alter i l p)|]. intros p' Hp'. right. by eapply Old.
  - eexists. split; [done|]. set (new := mkPackJSON (pb_Pack pb) []).
    assert (Ln : (l ++ [new]) !! length l = Some new) by (by apply list_lookup_middle).
    assert (P' : positioned (l ++ [new], <[pb_Pack pb := length l]> packs)).
    { intros id j. cbn. destruct (decide (id = pb_Pack pb)) as [->|Ne].
      - rewrite lookup_insert_eq. split; [intros [= <-]; by exists new|]. intros (p & Lp & Ep).
        apply lookup_app_Some in Lp as [Lp|[Ge Lp]].
        + assert (Q : packs !! pb_Pack pb = Some j) by (apply P; by exists p). by rewrite E in Q.
        + apply list_lookup_singleton_Some in Lp as [? _]. f_equal. lia.
      - rewrite lookup_insert_ne by done. rewrite (P id j). cbn. split; intros (p & Lp & Ep).
        + exists p. split; [by apply lookup_app_l_Some|done].
        + apply lookup_app_Some in Lp as [Lp|[Ge Lp]]; [by exists p|].
          apply list_lookup_singleton_Some in Lp as [_ <-]. by cbn in Ep. }
    split; [by apply positioned_alter|]. split.
    + etrans; [exact (flat_alter _ _ new pb Ln eq_refl)|]. apply perm_skip. cbn [fst]. unfold flat. rewrite map_app, concat_app. cbn.
      by rewrite app_nil_r.
    + intros p' Hp'. apply Old in Hp' as (q & Hq & <-). apply elem_of_app in Hq as [Hq|Hq]; [right; by exists q|].
      apply list_elem_of_singleton in Hq as ->. by left.
Qed.

Lemma add_all_to_packs_spec pbs st :
  positioned st -> Forall (fun pb => is_zero_id (pb_Pack pb) = false) pbs ->
  exists st', add_all_to_packs pbs st = Ok st' /\ positioned st' /\ flat st'.1 ≡ₚ pbs ++ flat st.1
    /\ (forall p, p ∈ st'.1 -> pj_ID p ∈ map pb_Pack pbs \/ exists q, q ∈ st.1 /\ pj_ID q = pj_ID p).
Proof.
  intros P F. revert st P. induction F as [|pb pbs N _ IH]; intros st P.
  - exists st. split; [done|]. split; [done|]. split; [done|]. intros p Hp. right. by exists p.
  - destruct (add_to_packs_spec pb st P N) as (st1 & E1 & P1 & F1 & O1).
    destruct (IH st1 P1) as (st2 & E2 & P2 & F2 & O2). cbn [add_all_to_packs]. rewrite E1. cbn [rbind].
    exists st2. split; [done|]. split; [done|]. split.
    + rewrite F2, F1. symmetry. apply Permutation_middle.
    + intros p Hp. cbn [map]. rewrite elem_of_cons. destruct (O2 p Hp) as [|(q & Hq & <-)]; [by left; right|].
      destruct (O1 q Hq) as [->|?]; [by left; left|by right].
Qed.

(** What a reachable index holds was storable; its packs can be numbered. *)
Definition sound (bs : Z -> list PackedBlob) : Prop :=
  forall t pb, type_ok t -> pb ∈ bs t -> storable (pb_Blob pb) = true.

Lemma store_all_storable idx bs packIndex pid blobs idx' :
  indexes idx bs -> 0 <= packIndex -> ix_packs idx !! Z.to_nat packIndex = Some pid ->
  store_all idx packIndex blobs = Ok idx' -> Forall (fun b => storable b = true) blobs.
Proof.
  revert idx bs. induction blobs as [|b blobs IH]; intros idx bs I P0 P H; [constructor|]. cbn in H.
  apply rbind_ok in H as (idx1 & E1 & H). destruct (store_cond _ _ _ _ _ I E1) as (C1 & C2 & C3).
  destruct (store_spec idx bs packIndex pid b) as (idx1' & E1' & I1 & M1); try done.
  rewrite E1 in E1'. injection E1' as <-. constructor.
  - unfold storable. destruct C2 as [C2 C2']. rewrite C1, (proj2 (Z.leb_le _ _)), (proj2 (Z.ltb_lt _ _)) by done. done.
  - apply (IH idx1 _ I1 P0); [|done]. by injection M1 as -> _ _ _ _.
Qed.

Lemma push_all_sound bs pid blobs :
  sound bs -> Forall (fun b => storable b = true) blobs -> sound (push_all bs pid blobs).
Proof.
  intros S F t pb T. rewrite push_all_spec, elem_of_app. intros [H|H]; [|by apply (S t)].
  apply list_elem_of_In, in_map_iff in H as (b & <- & H). apply in_rev, list_elem_of_In, list_elem_of_filter in H as [_ H].
  by apply (proj1 (Forall_forall _ _) F).
Qed.

Lemma elem_of_rev {A} (x : A) l : x ∈ rev l <-> x ∈ l.
Proof. rewrite !list_elem_of_In. symmetry. apply in_rev. Qed.

Lemma add_new_elem acc pb x : x ∈ add_new acc pb <-> x ∈ acc \/ x = pb.
Proof. unfold add_new. case_bool_decide; rewrite ?elem_of_cons; [|tauto]. split; [by left|by intros [?| ->]]. Qed.

Lemma merged_elem news acc x : x ∈ merged acc news <-> x ∈ acc \/ x ∈ news.
Proof.
  revert acc. induction news as [|pb news IH]; intros acc; [rewrite elem_of_nil; cbn; tauto|].
  change (merged acc (pb :: news)) with (merged (add_new acc pb) news). rewrite IH, add_new_elem, elem_of_cons. tauto.
Qed.

Lemma decode_sound packs idx bs idx' :
  indexes idx bs -> sound bs -> zlen (ix_packs idx) <= MaxUint32 -> decode_packs idx packs = Ok idx' ->
  sound (fold_left (fun bs p => push_all bs (pj_ID p) (map of_json (pj_Blobs p))) packs bs)
  /\ zlen (ix_packs idx') <= MaxUint32.
Proof.
  revert idx bs. induction packs as [|p packs IH]; intros idx bs I S B H; cbn in H; [by injection H as <-|].
  apply rbind_ok in H as ([idx1 i] & E1 & H). apply rbind_ok in H as (idx2 & E2 & H).
  assert (B1 : zlen (ix_packs idx1) <= MaxUint32).
  { clear -E1. unfold addToPacks in E1. inv_results. split_bools. done. }
  destruct (addToPacks_inv _ _ _ _ _ I E1) as (I1 & _ & P0 & P & _ & _ & _).
  pose proof (store_all_storable _ _ _ _ _ _ I1 P0 P E2) as F.
  destruct (store_all_inv _ _ _ _ _ _ I1 P0 P E2) as [I2 M]. injection M as M1 _ _ _ _.
  apply (IH idx2 _ I2); [by apply push_all_sound|by rewrite M1|done].
Qed.

Lemma merge_types_packs ts idx idx2 n idx' : merge_types idx idx2 n ts = Ok idx' -> ix_packs idx' = ix_packs idx.
Proof. revert idx. induction ts as [|t ts IH]; intros idx H; cbn in H; inv_results; [done|]. by apply IH in H. Qed.

Lemma merge_packs idx idx2 idx' : merge idx idx2 = Ok idx' -> zlen (ix_packs idx') <= MaxUint32.
Proof.
  intros H. unfold merge in H. apply rbind_ok in H as (u & _ & H). apply rbind_ok in H as (u' & G & H).
  destruct u'. apply guard_ok, Z.ltb_ge in G. apply rbind_ok in H as (idx1 & E & H). injection H as <-.
  apply merge_types_packs in E. change (zlen (ix_packs idx1) <= MaxUint32). by rewrite E.
Qed.

Lemma reachable_sound idx bs : reachable idx bs -> sound bs /\ zlen (ix_packs idx) <= MaxUint32.
Proof.
  induction 1 as [now hash|packs id now hash idx E|idx bs id blobs idx' R [S B] E|idx bs t n idx' R [S B] E
                 |idx bs _ [S B]|idx bs id idx' _ [S B] E|idx bs idx2 bs2 idx' R [S B] R2 [S2 B2] E].
  - split; [by intros t pb _ ?%elem_of_nil|done].
  - unfold DecodeIndex in E. apply rbind_ok in E as (idx1 & E & H). injection H as <-.
    by destruct (decode_sound packs _ _ idx1 (NewIndex_indexes now hash)); [intros t pb _ ?%elem_of_nil| | |].
  - pose proof (reachable_indexes _ _ R) as I. unfold StorePack in E. inv_results. destruct a as [idx1 i].
    assert (B1 : zlen (ix_packs idx1) <= MaxUint32).
    { match goal with Q : addToPacks _ _ = _ |- _ => clear -Q; unfold addToPacks in Q end. inv_results. split_bools. done. }
    destruct (addToPacks_inv _ _ _ _ _ I E1) as (I1 & _ & P0 & P & _ & _ & _).
    destruct (store_all_inv _ _ _ _ _ _ I1 P0 P E) as [_ M]. injection M as M1 _ _ _ _.
    split; [|by rewrite M1]. apply push_all_sound; [done|]. by apply (store_all_storable _ _ _ _ _ _ I1 P0 P E).
  - destruct (Preallocate_inv _ _ _ _ _ (reachable_indexes _ _ R) E) as [_ M]. injection M as M1 _ _ _ _. by rewrite M1.
  - done.
  - unfold SetID in E. inv_results. done.
  - split.
    + intros t pb T. rewrite merged_elem, elem_of_rev. intros [?|?]; [by apply (S t)|by apply (S2 t)].
    + by apply (merge_packs idx idx2).
Qed.
End IndexTheory.

(** ** Properties of indexes *)

Module IndexProps.
Import IndexMapTheory IndexTheory.

(** The place of the oldest blob of a handle, counted from one. *)
Fixpoint first_index (bh : BlobHandle) (pbs : list PackedBlob) : option Z :=
  match pbs with
  | [] => None
  | pb :: older =>
      match first_index bh older with
      | Some i => Some i
      | None => if bool_decide (b_handle (pb_Blob pb) = bh) then Some (zlen older + 1) else None
      end
  end.

Lemma oldest_first packs bh added pbs :
  Forall2 (entry_is packs (bh_Type bh)) added pbs -> oldest (bh_ID bh) added = first_index bh pbs.
Proof.
  induction 1 as [|e pb added pbs E F IH]; [done|]. rewrite oldest_cons, IH. cbn [first_index].
  destruct (first_index bh pbs); [done|]. destruct E as (_ & _ & ->). destruct bh as [id t]. cbn.
  unfold zlen. rewrite (Forall2_length _ _ _ F). case_bool_decide as D1; case_bool_decide as D2; try done.
  - by rewrite D1 in D2.
  - by injection D2.
Qed.

Lemma BlobIndex_spec idx bs bh :
  indexes idx bs -> type_ok (bh_Type bh) ->
  BlobIndex idx bh = Ok (default (-1) (first_index bh (bs (bh_Type bh)))).
Proof.
  intros I T. destruct (ix_maps _ _ I _ T) as (m & added & E & H & _ & F). unfold BlobIndex. rewrite E. cbn [rbind].
  rewrite (ans_firstIndex _ _ _ (holds_answers _ _ _ H)). by rewrite (oldest_first _ _ _ _ F).
Qed.

Lemma Len_spec idx bs t : indexes idx bs -> type_ok t -> Len idx t = Ok (zlen (bs t)).
Proof.
  intros I T. destruct (ix_maps _ _ I _ T) as (m & added & E & H & _ & F). unfold Len. rewrite E. cbn [rbind].
  rewrite (ans_len _ _ _ (holds_answers _ _ _ H)). unfold zlen. by rewrite (Forall2_length _ _ _ F).
Qed.

(** C16. Every index a program can get, by storing packs, decoding, finalizing,
    preallocating and merging, answers queries from exactly the blobs it holds:
    [Lookup] appends all places of a handle, the newest first, [Has] and
    [LookupSize] follow the newest one, [Values] yields every blob, type by type in
    the order of addition, [Len] counts them and [BlobIndex] is the place of the
    oldest. None of these calls panics for a valid blob type. *)
Theorem Index_answers (idx : Index) (bs : Z -> list PackedBlob) (bh : BlobHandle) (pbs : list PackedBlob) :
  reachable idx bs -> type_ok (bh_Type bh) ->
  let found := of_handle bh (bs (bh_Type bh)) in
  Lookup idx bh pbs = Ok (pbs ++ found)
  /\ Has idx bh = Ok (match found with [] => false | _ :: _ => true end)
  /\ LookupSize idx bh = Ok (DataLength ∘ pb_Blob <$> head found)
  /\ Values idx = Ok (rev (bs 0) ++ rev (bs 1) ++ rev (bs 2))
  /\ Len idx (bh_Type bh) = Ok (zlen (bs (bh_Type bh)))
  /\ BlobIndex idx bh = Ok (default (-1) (first_index bh (bs (bh_Type bh)))).
Proof.
  intros R T found. pose proof (reachable_indexes _ _ R) as I.
  split; [by apply Lookup_spec|]. split; [by apply Has_spec|]. split; [by apply LookupSize_spec|].
  split; [by apply Values_spec|]. split; [by apply Len_spec|]. by apply BlobIndex_spec.
Qed.

Lemma merged_suffix news acc : exists fresh, merged acc news = fresh ++ acc.
Proof.
  revert acc. induction news as [|pb news IH]; intros acc; [by exists []|].
  destruct (IH (add_new acc pb)) as [fresh E]. change (merged acc (pb :: news)) with (merged (add_new acc pb) news).
  rewrite E. unfold add_new. case_bool_decide; [by exists fresh|]. exists (fresh ++ [pb]). by rewrite <- app_assoc.
Qed.

Lemma merged_NoDup news acc : NoDup acc -> NoDup (merged acc news).
Proof.
  revert acc. induction news as [|pb news IH]; intros acc N; [done|]. apply IH. unfold add_new.
  case_bool_decide; [done|]. by constructor.
Qed.

Lemma first_index_suffix bh fresh pbs i : first_index bh pbs = Some i -> first_index bh (fresh ++ pbs) = Some i.
Proof. intros E. induction fresh as [|pb fresh IH]; [done|]. cbn. by rewrite IH. Qed.

Lemma of_handle_elem bh pbs x : x ∈ of_handle bh pbs <-> b_handle (pb_Blob x) = bh /\ x ∈ pbs.
Proof. unfold of_handle. by rewrite list_elem_of_filter. Qed.

Lemma of_handle_NoDup bh pbs : NoDup pbs -> NoDup (of_handle bh pbs).
Proof. apply NoDup_filter. Qed.

(** Merging an index into another loses nothing and adds nothing twice: the
    merged index finds for a handle exactly the places one of the two finds, it
    repeats a place only if the first index did, and the stable index of every blob
    the first one had stays the same. *)
Theorem Index_merge (idx idx2 idx' : Index) (bs bs2 : Z -> list PackedBlob) (bh : BlobHandle) :
  reachable idx bs -> reachable idx2 bs2 -> merge idx idx2 = Ok idx' -> type_ok (bh_Type bh) ->
  exists found found2 found',
    Lookup idx bh [] = Ok found /\ Lookup idx2 bh [] = Ok found2 /\ Lookup idx' bh [] = Ok found'
    /\ (forall pb, pb ∈ found' <-> pb ∈ found \/ pb ∈ found2)
    /\ (NoDup (bs (bh_Type bh)) -> NoDup found')
    /\ (forall i, BlobIndex idx bh = Ok i -> i <> -1 -> BlobIndex idx' bh = Ok i).
Proof.
  intros R R2 E T. pose proof (reachable_indexes _ _ R) as I. pose proof (reachable_indexes _ _ R2) as I2.
  destruct (merge_inv _ _ _ _ _ I I2 E) as (I' & _ & _).
  eexists _, _, _. do 3 (split; [by eapply Lookup_spec|]). cbn [app]. split; [|split].
  - intros pb. rewrite !of_handle_elem, merged_elem, elem_of_rev. tauto.
  - intros N. by apply of_handle_NoDup, merged_NoDup.
  - intros i Bi Ni. rewrite (BlobIndex_spec idx bs) in Bi by done. rewrite (BlobIndex_spec idx' _ bh I') by done.
    destruct (first_index bh (bs (bh_Type bh))) as [j|] eqn:Ej; cbn in Bi; [|congruence].
    destruct (merged_suffix (rev (bs2 (bh_Type bh))) (bs (bh_Type bh))) as [fresh ->].
    by rewrite (first_index_suffix _ _ _ _ Ej).
Qed.

Lemma decode_packs_total packs idx bs :
  indexes idx bs -> zlen (ix_packs idx) + zlen packs <= MaxUint32 ->
  Forall (fun pb => storable (pb_Blob pb) = true) (flat packs) ->
  (forall t, type_ok t -> overflows (rev (typed t (flat packs)) ++ bs t) = false) ->
  exists idx', decode_packs idx packs = Ok idx'.
Proof.
  revert idx bs. induction packs as [|p packs IH]; intros idx bs I B S O; [by exists idx|].
  rewrite zlen_cons in B. pose proof (zlen_nonneg packs). cbn [decode_packs].
  destruct (addToPacks_spec idx bs (pj_ID p) I ltac:(lia)) as (idx1 & -> & I1 & Pk & _ & _ & _ & P). cbn [rbind].
  change (flat (p :: packs)) with (blobs_of p ++ flat packs) in *. apply Forall_app in S as [S1 S2].
  assert (Pa : forall t, push_all bs (pj_ID p) (map of_json (pj_Blobs p)) t = rev (typed t (blobs_of p)) ++ bs t).
  { intros t. rewrite push_all_spec, map_rev, <- of_type_packed, map_map. done. }
  destruct (store_all_spec idx1 bs (zlen (ix_packs idx)) (pj_ID p) (map of_json (pj_Blobs p)) I1) as (idx2 & -> & I2 & M).
  - unfold zlen. lia.
  - done.
  - apply forallb_forall. intros b Hb. apply in_map_iff in Hb as (j & <- & Hj).
    apply (proj1 (Forall_forall _ _) S1 (mkPackedBlob (pj_ID p) (of_json j))).
    apply list_elem_of_In, in_map_iff. by exists j.
  - intros t T. specialize (O t T). apply Z.leb_gt in O. apply Z.leb_gt. rewrite Pa.
    rewrite typed_app, rev_app_distr, <- app_assoc, zlen_app in O. pose proof (zlen_nonneg (rev (typed t (flat packs)))). lia.
  - cbn [rbind]. injection M as M1 _ _ _ _. apply (IH idx2 _ I2).
    + rewrite M1, Pk, zlen_app. change (zlen [pj_ID p]) with 1. lia.
    + done.
    + intros t T. rewrite Pa, app_assoc, <- rev_app_distr, <- typed_app. by apply O.
Qed.

Lemma positioned_NoDup l packs : positioned (l, packs) -> NoDup (map pj_ID l).
Proof.
  intros P. apply NoDup_alt. intros i j id Hi Hj. change (map pj_ID l) with (pj_ID <$> l) in *.
  rewrite list_lookup_fmap in Hi, Hj. apply fmap_Some in Hi as (p & Hp & ->), Hj as (q & Hq & E).
  pose proof (proj2 (P (pj_ID p) i) (ex_intro _ p (conj Hp eq_refl))) as Ei.
  pose proof (proj2 (P (pj_ID p) j) (ex_intro _ q (conj Hq (eq_sym E)))) as Ej. cbn in *. congruence.
Qed.

Lemma indexes_pack idx bs t pb : indexes idx bs -> type_ok t -> pb ∈ bs t -> pb_Pack pb ∈ ix_packs idx.
Proof.
  intros I T Hp. destruct (ix_maps _ _ I t T) as (m & added & _ & _ & _ & F).
  apply list_elem_of_lookup in Hp as [i Hi]. destruct (Forall2_lookup_r _ _ _ _ _ F Hi) as (e & _ & (_ & L & _)).
  by eapply list_elem_of_lookup_2.
Qed.

Lemma indexes_type idx bs t pb : indexes idx bs -> type_ok t -> pb ∈ bs t -> bh_Type (b_handle (pb_Blob pb)) = t.
Proof.
  intros I T Hp. destruct (ix_maps _ _ I t T) as (m & added & _ & _ & _ & F).
  apply list_elem_of_lookup in Hp as [i Hi]. destruct (Forall2_lookup_r _ _ _ _ _ F Hi) as (e & _ & E).
  by apply (entry_type _ _ _ _ E).
Qed.

Lemma typed_none t pbs : Forall (fun pb => bh_Type (b_handle (pb_Blob pb)) <> t) pbs -> typed t pbs = [].
Proof. induction 1 as [|pb pbs N _ IH]; [done|]. unfold typed in *. by rewrite filter_cons_False. Qed.

Lemma typed_all t pbs : Forall (fun pb => bh_Type (b_handle (pb_Blob pb)) = t) pbs -> typed t pbs = pbs.
Proof. induction 1 as [|pb pbs E _ IH]; [done|]. unfold typed in *. by rewrite filter_cons_True, IH. Qed.

Lemma typed_values idx bs t :
  indexes idx bs -> type_ok t -> typed t (rev (bs 0) ++ rev (bs 1) ++ rev (bs 2)) = rev (bs t).
Proof.
  intros I T. rewrite !typed_app.
  assert (A : forall u, type_ok u -> typed t (rev (bs u)) = if decide (u = t) then rev (bs t) else []).
  { intros u U. destruct (decide (u = t)) as [->|N]; [apply typed_all|apply typed_none]; apply Forall_forall;
      intros pb Hp; rewrite elem_of_rev in Hp; pose proof (indexes_type idx bs _ pb I U Hp); congruence. }
  rewrite !A by done. unfold type_ok, NumBlobTypes in T.
  assert (t = 0 \/ t = 1 \/ t = 2) as [->|[->| ->]] by lia; cbn; by rewrite ?app_nil_r.
Qed.

(** What [Encode] needs: no null pack, only data and tree blobs. *)
Definition encodable (bs : Z -> list PackedBlob) : Prop :=
  bs InvalidBlob = [] /\ forall t pb, type_ok t -> pb ∈ bs t -> is_zero_id (pb_Pack pb) = false.

Lemma values_elem (bs : Z -> list PackedBlob) (pb : PackedBlob) :
  pb ∈ rev (bs 0) ++ rev (bs 1) ++ rev (bs 2) <-> exists t, type_ok t /\ pb ∈ bs t.
Proof.
  rewrite !elem_of_app, !elem_of_rev. split.
  - intros [?|[?|?]]; [exists 0|exists 1|exists 2]; done.
  - intros (t & T & ?). unfold type_ok, NumBlobTypes in T. assert (t = 0 \/ t = 1 \/ t = 2) as [->|[->| ->]] by lia; tauto.
Qed.

Lemma Encode_spec idx bs :
  reachable idx bs -> encodable bs ->
  exists packs, Encode idx = Ok packs /\ NoDup (map pj_ID packs) /\ zlen packs <= zlen (ix_packs idx)
    /\ flat packs ≡ₚ rev (bs 0) ++ rev (bs 1) ++ rev (bs 2).
Proof.
  intros R [B0 Nz]. pose proof (reachable_indexes _ _ R) as I.
  destruct (add_all_to_packs_spec (rev (bs 0) ++ rev (bs 1) ++ rev (bs 2)) ([], ∅)) as ([packs pos] & E & P & F & O).
  { intros id i. cbn. rewrite lookup_empty. split; [done|by intros (? & ? & _)]. }
  { apply Forall_forall. intros pb (t & T & Hp)%values_elem. by apply (Nz t). }
  cbn [fst] in *. rewrite app_nil_r in F. exists packs. unfold Encode, generatePackList.
  rewrite (Values_spec idx bs I). cbn [rbind]. rewrite E. cbn [rbind fst]. split; [|split; [by eapply positioned_NoDup|split; [|done]]].
  - enough (Q : forallb (fun p => forallb (fun b => json_type (bj_Type b)) (pj_Blobs p)) packs = true) by (by rewrite Q).
    apply forallb_forall. intros p Hp. apply forallb_forall. intros b Hb.
    assert (M : mkPackedBlob (pj_ID p) (of_json b) ∈ flat packs).
    { unfold flat. apply list_elem_of_In, in_concat. exists (blobs_of p). split; [by apply in_map|].
      unfold blobs_of. apply in_map_iff. by exists b. }
    rewrite F in M. apply values_elem in M as (t & T & M). pose proof (indexes_type _ _ _ _ I T M) as Ty. cbn in Ty.
    unfold json_type, DataBlob, TreeBlob. rewrite Ty. unfold type_ok, NumBlobTypes in T.
    destruct (Z.eq_dec t 0) as [->|]; [|lia]. unfold InvalidBlob in B0. rewrite B0 in M. by apply elem_of_nil in M.
  - unfold zlen. rewrite <- (length_map pj_ID). apply inj_le, NoDup_incl_length.
    + apply NoDup_ListNoDup. by eapply positioned_NoDup.
    + intros id Hid. apply in_map_iff in Hid as (p & <- & Hp). apply list_elem_of_In in Hp.
      destruct (O p Hp) as [H|(q & Hq & _)]; [|by apply elem_of_nil in Hq].
      apply list_elem_of_In, in_map_iff in H as (pb & <- & Hpb). apply list_elem_of_In in Hpb.
      apply values_elem in Hpb as (t & T & Hpb). apply list_elem_of_In. by apply (indexes_pack idx bs t).
Qed.

Lemma of_handle_perm bh l k : l ≡ₚ k -> of_handle bh l ≡ₚ of_handle bh k.
Proof. intros P. unfold of_handle. by rewrite P. Qed.

(** The stored form of an index is read back: an index without a null pack or
    a blob of the invalid type is encoded, each pack once, and decoding the result
    gives a final index that finds for every handle the same places. *)
Theorem Index_round_trip (idx : Index) (bs : Z -> list PackedBlob) (id : ID) (now : Z) (hash : Z -> ID -> Z) :
  reachable idx bs -> encodable bs ->
  exists packs idx', Encode idx = Ok packs /\ NoDup (map pj_ID packs)
    /\ DecodeIndex packs id now hash = Ok idx' /\ ix_final idx' = true /\ ix_ids idx' = [id]
    /\ forall bh, type_ok (bh_Type bh) ->
       exists found found', Lookup idx bh [] = Ok found /\ Lookup idx' bh [] = Ok found' /\ found' ≡ₚ found.
Proof.
  intros R En. pose proof (reachable_indexes _ _ R) as I. destruct (reachable_sound _ _ R) as [S B].
  destruct (Encode_spec idx bs R En) as (packs & E & Nd & Lp & F).
  assert (Pt : forall t, type_ok t -> contents packs t ≡ₚ bs t).
  { intros t T. rewrite contents_flat. unfold typed. rewrite F. fold (typed t (rev (bs 0) ++ rev (bs 1) ++ rev (bs 2))).
    rewrite (typed_values idx bs) by done. by rewrite rev_involutive. }
  destruct (decode_packs_total packs (NewIndex now hash) (fun _ => []) (NewIndex_indexes now hash)) as [idx1 D].
  - change (zlen (ix_packs (NewIndex now hash))) with 0. lia.
  - rewrite F. apply Forall_forall. intros pb (t & T & Hp)%values_elem. by apply (S t).
  - intros t T. rewrite app_nil_r, <- contents_flat. pose proof (indexes_bound _ _ _ I T) as Ov. unfold overflows, zlen in *.
    by rewrite (Permutation_length (Pt t T)).
  - assert (De : exists idx', DecodeIndex packs id now hash = Ok idx') by (unfold DecodeIndex; rewrite D; cbn; eauto).
    destruct De as [idx' De]. exists packs, idx'. do 3 (split; [done|]).
    destruct (DecodeIndex_inv _ _ _ _ _ De) as (I' & Fi & Ids). do 2 (split; [done|]).
    intros bh T. eexists _, _. do 2 (split; [by eapply Lookup_spec|]). cbn [app]. by apply of_handle_perm, Pt.
Qed.

(** Two indexes that share a blob. *)
Definition sample_hash (_ : Z) (id : ID) : Z := b2z (byte_at 0 id).
Definition sample_blob (n t offset : Z) : Blob := mkBlob (mkBlobHandle (z2b n :: repeat x00 31) t) 40 offset 0.
Definition sample_index (p : byte) (blobs : list Blob) : Index :=
  match StorePack (NewIndex 0 sample_hash) (repeat p 32) blobs with Ok idx => Finalize idx | Err _ => NewIndex 0 sample_hash end.
Definition index_a : Index := sample_index x0a [sample_blob 1 DataBlob 0; sample_blob 2 TreeBlob 40].
Definition index_b : Index := sample_index x0b [sample_blob 1 DataBlob 0; sample_blob 3 DataBlob 40].
Definition holds_a : Z -> list PackedBlob := push_all (fun _ => []) (repeat x0a 32) [sample_blob 1 DataBlob 0; sample_blob 2 TreeBlob 40].
Definition holds_b : Z -> list PackedBlob := push_all (fun _ => []) (repeat x0b 32) [sample_blob 1 DataBlob 0; sample_blob 3 DataBlob 40].

Lemma reachable_a : reachable index_a holds_a.
Proof. apply reach_finalize. eapply reach_store; [apply (reach_new 0 sample_hash)|]. vm_compute. reflexivity. Qed.

Lemma reachable_b : reachable index_b holds_b.
Proof. apply reach_finalize. eapply reach_store; [apply (reach_new 0 sample_hash)|]. vm_compute. reflexivity. Qed.

Lemma Index_answers_witness :
  LookupSize index_a (mkBlobHandle (z2b 1 :: repeat x00 31) DataBlob) = Ok (Some 8).
Proof.
  destruct (Index_answers index_a holds_a (mkBlobHandle (z2b 1 :: repeat x00 31) DataBlob) [] reachable_a) as (_ & _ & -> & _);
    [by split|]. vm_compute. reflexivity.
Defined.

Lemma Index_merge_witness :
  let bh := mkBlobHandle (z2b 1 :: repeat x00 31) DataBlob in
  let idx' := match merge index_a index_b with Ok i => i | Err _ => index_a end in
  exists found found2 found',
    Lookup index_a bh [] = Ok found /\ Lookup index_b bh [] = Ok found2 /\ Lookup idx' bh [] = Ok found'
    /\ (forall pb, pb ∈ found' <-> pb ∈ found \/ pb ∈ found2)
    /\ (NoDup (holds_a DataBlob) -> NoDup found')
    /\ (forall i, BlobIndex index_a bh = Ok i -> i <> -1 -> BlobIndex idx' bh = Ok i).
Proof.
  intros bh idx'. apply (Index_merge index_a index_b idx' holds_a holds_b bh reachable_a reachable_b).
  - vm_compute. reflexivity.
  - by split.
Defined.

Lemma Index_round_trip_witness :
  exists packs idx', Encode index_a = Ok packs /\ NoDup (map pj_ID packs)
    /\ DecodeIndex packs zero_id 7 (fun _ _ => 0) = Ok idx' /\ ix_final idx' = true /\ ix_ids idx' = [zero_id]
    /\ forall bh, type_ok (bh_Type bh) ->
       exists found found', Lookup index_a bh [] = Ok found /\ Lookup idx' bh [] = Ok found' /\ found' ≡ₚ found.
Proof.
  apply (Index_round_trip index_a holds_a zero_id 7 (fun _ _ => 0) reachable_a). split; [vm_compute; reflexivity|].
  intros t pb T. unfold type_ok, NumBlobTypes in T.
  assert (t = 0 \/ t = 1 \/ t = 2) as [->|[->| ->]] by lia; vm_compute;
    [by intros ?%elem_of_nil|intros ->%list_elem_of_singleton; reflexivity..].
Defined.
End IndexProps.
