(* ===== verification/MasterIndex.v ===== *)
(** * The index of a repository ([internal/repository/index/master_index.go])

    The master index is a list of indexes, the first of which is final and collects
    the others, together with the blobs that are being saved. The theorems show that a
    blob is saved once, that merging keeps every answer, and what a flush saves. *)
From stdpp Require Import base list numbers strings gmap sets.
From Stdlib Require Import ZArith Lia.
From coqutil Require Import Datatypes.RecordSetters.
From S2P Require Import Prelude Codec Crypto Pack IndexMap RepoIndex.
Import TriangleBracketNotations.

#[export] Instance BlobHandle_countable : Countable BlobHandle.
Proof.
  refine (inj_countable' (fun h => (bh_ID h, bh_Type h)) (fun '(i, t) => mkBlobHandle i t) _).
  by intros [].
Defined.

Record MasterIndex := mkMasterIndex { mi_idx : list Index; mi_pending : gmap BlobHandle Z }.

Definition clear (now : Z) (hash : Z -> ID -> Z) : MasterIndex :=
  mkMasterIndex [Finalize (NewIndex now hash)] ∅.

Definition NewMasterIndex := clear.

Definition clearPendingBlobs (mi : MasterIndex) : MasterIndex := mi <| mi_pending := ∅ |>.

(** [Lookup] of each index in turn. *)
Fixpoint lookup_in (idxs : list Index) (bh : BlobHandle) (pbs : list PackedBlob) : result (list PackedBlob) :=
  match idxs with
  | [] => Ok pbs
  | idx :: idxs => let! pbs := Lookup idx bh pbs in lookup_in idxs bh pbs
  end.

Definition MasterLookup (mi : MasterIndex) (bh : BlobHandle) : result (list PackedBlob) :=
  lookup_in (mi_idx mi) bh [].

Fixpoint size_in (idxs : list Index) (bh : BlobHandle) : result (option Z) :=
  match idxs with
  | [] => Ok None
  | idx :: idxs =>
      let! size := LookupSize idx bh in
      match size with
      | Some size => Ok (Some size)
      | None => size_in idxs bh
      end
  end.

Definition MasterLookupSize (mi : MasterIndex) (bh : BlobHandle) : result (option Z) :=
  match mi_pending mi !! bh with
  | Some size => Ok (Some size)
  | None => size_in (mi_idx mi) bh
  end.

(** The sizes found so far, by one index after the other. *)
Fixpoint lookupSizes (idx : Index) (handles : list BlobHandle) (sizes : list (option Z))
  : result (list (option Z)) :=
  match handles, sizes with
  | handle :: handles, size :: sizes =>
      let! size := match size with Some _ => Ok size | None => LookupSize idx handle end in
      let! sizes := lookupSizes idx handles sizes in
      Ok (size :: sizes)
  | _, _ => Ok []
  end.

Fixpoint sizes_in (idxs : list Index) (handles : list BlobHandle) (sizes : list (option Z))
  : result (list (option Z)) :=
  match idxs with
  | [] => Ok sizes
  | idx :: idxs => let! sizes := lookupSizes idx handles sizes in sizes_in idxs handles sizes
  end.

Definition LookupSizes (mi : MasterIndex) (handles : list BlobHandle) : result (list (option Z)) :=
  sizes_in (mi_idx mi) handles (map (fun h => mi_pending mi !! h) handles).

Fixpoint has_in (idxs : list Index) (bh : BlobHandle) : result bool :=
  match idxs with
  | [] => Ok false
  | idx :: idxs => let! b := Has idx bh in if b : bool then Ok true else has_in idxs bh
  end.

Definition AddPending (mi : MasterIndex) (bh : BlobHandle) (size : Z) : result (MasterIndex * bool) :=
  match mi_pending mi !! bh with
  | Some _ => Ok (mi, false)
  | None =>
      let! known := has_in (mi_idx mi) bh in
      if known : bool then Ok (mi, false)
      else Ok (mi <| mi_pending := <[bh := size]> (mi_pending mi) |>, true)
  end.

Definition Insert (mi : MasterIndex) (idx : Index) : MasterIndex :=
  mi <| mi_idx := mi_idx mi ++ [idx] |>.

(** The first index that is not final takes the pack; there is a new one if all are. *)
Fixpoint store_in (idxs : list Index) (id : ID) (blobs : list Blob) (fresh : Index) : result (list Index) :=
  match idxs with
  | [] => let! fresh := StorePack fresh id blobs in Ok [fresh]
  | idx :: idxs =>
      if negb (ix_final idx) then let! idx := StorePack idx id blobs in Ok (idx :: idxs)
      else let! idxs := store_in idxs id blobs fresh in Ok (idx :: idxs)
  end.

Definition storePack (mi : MasterIndex) (id : ID) (blobs : list Blob) (now : Z) (hash : Z -> ID -> Z)
  : result MasterIndex :=
  let pending := fold_left (fun p blob => delete (b_handle blob) p) blobs (mi_pending mi) in
  let! idxs := store_in (mi_idx mi) id blobs (NewIndex now hash) in
  Ok (mkMasterIndex idxs pending).

(** Finalizing returns the positions of the indexes it finalized. *)
Definition finalize_where (f : Index -> bool) (mi : MasterIndex) : MasterIndex * list nat :=
  (mi <| mi_idx := map (fun idx => if negb (ix_final idx) && f idx then Finalize idx else idx) (mi_idx mi) |>,
   omap (fun '(i, idx) => if negb (ix_final idx) && f idx then Some i else None) (imap pair (mi_idx mi))).

Definition finalizeNotFinalIndexes (mi : MasterIndex) : MasterIndex * list nat := finalize_where (fun _ => true) mi.
Definition finalizeFullIndexes (now : Z) (mi : MasterIndex) : MasterIndex * list nat := finalize_where (Full now) mi.

Fixpoint values_in (idxs : list Index) : result (list PackedBlob) :=
  match idxs with
  | [] => Ok []
  | idx :: idxs => let! xs := Values idx in let! ys := values_in idxs in Ok (xs ++ ys)
  end.

Definition MasterValues (mi : MasterIndex) : result (list PackedBlob) := values_in (mi_idx mi).

(** Packs in the blacklist count only where they are in an index that is not final. *)
Definition Packs (mi : MasterIndex) (packBlacklist : gset ID) : gset ID :=
  ⋃ map (fun idx => let packs := list_to_set (ix_packs idx) in
                    if ix_final idx && negb (bool_decide (packBlacklist = ∅)) then packs ∖ packBlacklist else packs)
        (mi_idx mi).

Definition MasterIDs (mi : MasterIndex) : gset ID :=
  ⋃ map (fun idx => if negb (ix_final idx) then ∅ else list_to_set (ix_ids idx)) (mi_idx mi).

(** ** Merging *)

Fixpoint total (idxs : list Index) (t : Z) : result Z :=
  match idxs with
  | [] => Ok 0
  | idx :: idxs => let! n := Len idx t in let! rest := total idxs t in Ok (n + rest)
  end.

Fixpoint preallocate_types (main : Index) (idxs : list Index) (ts : list Z) : result Index :=
  match ts with
  | [] => Ok main
  | t :: ts =>
      let! n := total (main :: idxs) t in
      let! main := Preallocate main t n in
      preallocate_types main idxs ts
  end.

(** The indexes that are final and have an ID go into the first one. *)
Fixpoint merge_all (main : Index) (idxs : list Index) : result (Index * list Index) :=
  match idxs with
  | [] => Ok (main, [])
  | idx :: idxs =>
      if negb (ix_final idx) || (zlen (ix_ids idx) =? 0) then
        let! (main, rest) := merge_all main idxs in Ok (main, idx :: rest)
      else
        let! main := merge main idx in merge_all main idxs
  end.

Definition MergeFinalIndexes (mi : MasterIndex) : result MasterIndex :=
  match mi_idx mi with
  | [] => Ok mi
  | main :: idxs =>
      let! main := preallocate_types main idxs blob_types in
      let! (main, rest) := merge_all main idxs in
      Ok (mi <| mi_idx := main :: rest |>)
  end.

(** ** Saving *)

(** Saving one finalized index: its stored form goes to the repository, which
    returns an ID and perhaps an error; the ID is set in both cases. *)
Definition SaveIndex (SaveUnpacked : list packJSON -> ID * option string) (idx : Index)
  : result (Index * option string) :=
  match Encode idx with
  | Err e => Ok (idx, Some e)
  | Ok packs =>
      let (id, err) := SaveUnpacked packs in
      let! idx := SetID idx id in
      Ok (idx, err)
  end.

(** The indexes at some positions, one after the other; the first error ends it. *)
Fixpoint saveIndex (SaveUnpacked : list packJSON -> ID * option string) (mi : MasterIndex) (positions : list nat)
  : result (MasterIndex * option string) :=
  match positions with
  | [] => let! mi := MergeFinalIndexes mi in Ok (mi, None)
  | i :: positions =>
      match mi_idx mi !! i with
      | None => Err "index out of range"
      | Some idx =>
          let! (idx, err) := SaveIndex SaveUnpacked idx in
          let mi := mi <| mi_idx := <[i := idx]> (mi_idx mi) |> in
          match err with
          | Some e => Ok (mi, Some e)
          | None => saveIndex SaveUnpacked mi positions
          end
      end
  end.

Definition Flush (SaveUnpacked : list packJSON -> ID * option string) (mi : MasterIndex)
  : result (MasterIndex * option string) :=
  let (mi, positions) := finalizeNotFinalIndexes mi in
  saveIndex SaveUnpacked mi positions.

(** [StorePack] outside of a working-memory policy. *)
Definition MasterStorePack (SaveUnpacked : list packJSON -> ID * option string) (mi : MasterIndex)
    (id : ID) (blobs : list Blob) (now : Z) (hash : Z -> ID -> Z) : result (MasterIndex * option string) :=
  let! mi := storePack mi id blobs now hash in
  let (mi, positions) := finalizeFullIndexes now mi in
  saveIndex SaveUnpacked mi positions.

(** ** For associated sets *)

Definition blobIndex (mi : MasterIndex) (bh : BlobHandle) : result Z :=
  match mi_idx mi with
  | idx :: _ => BlobIndex idx bh
  | [] => Err "index out of range"
  end.

Definition stableLen (mi : MasterIndex) (t : Z) : result Z :=
  match mi_idx mi with
  | idx :: _ => Len idx t
  | [] => Err "index out of range"
  end.

(** ** What a master index knows *)

Module MasterTheory.
Import IndexTheory IndexProps.

(** Each index holds the blobs of [bss]; the first index is final. *)
Record master (mi : MasterIndex) (bss : list (Z -> list PackedBlob)) : Prop := {
  ms_first : exists main rest, mi_idx mi = main :: rest /\ ix_final main = true;
  ms_holds : Forall2 reachable (mi_idx mi) bss }.

Definition found_in (bss : list (Z -> list PackedBlob)) (bh : BlobHandle) : list PackedBlob :=
  concat (map (fun bs => of_handle bh (bs (bh_Type bh))) bss).

Lemma found_in_cons bs bss bh : found_in (bs :: bss) bh = of_handle bh (bs (bh_Type bh)) ++ found_in bss bh.
Proof. done. Qed.

Lemma lookup_in_spec idxs bss bh pbs :
  Forall2 reachable idxs bss -> type_ok (bh_Type bh) -> lookup_in idxs bh pbs = Ok (pbs ++ found_in bss bh).
Proof.
  intros F T. revert pbs. induction F as [|idx bs idxs bss R _ IH]; intros pbs; cbn; [by rewrite app_nil_r|].
  rewrite (Lookup_spec idx bs) by (done || by apply reachable_indexes). cbn [rbind]. rewrite IH, <- app_assoc. done.
Qed.

Lemma MasterLookup_spec mi bss bh :
  master mi bss -> type_ok (bh_Type bh) -> MasterLookup mi bh = Ok (found_in bss bh).
Proof. intros M T. apply (lookup_in_spec _ _ _ []); [apply M|done]. Qed.

Lemma has_in_spec idxs bss bh :
  Forall2 reachable idxs bss -> type_ok (bh_Type bh) ->
  has_in idxs bh = Ok (match found_in bss bh with [] => false | _ :: _ => true end).
Proof.
  intros F T. induction F as [|idx bs idxs bss R _ IH]; [done|]. cbn [has_in].
  rewrite (Has_spec idx bs) by (done || by apply reachable_indexes). cbn [rbind].
  change (found_in (bs :: bss) bh) with (of_handle bh (bs (bh_Type bh)) ++ found_in bss bh).
  destruct (of_handle bh _); [|done]. exact IH.
Qed.

(** A blob is known when it is pending or in an index. *)
Definition known (mi : MasterIndex) (bss : list (Z -> list PackedBlob)) (bh : BlobHandle) : Prop :=
  mi_pending mi !! bh <> None \/ found_in bss bh <> [].

Lemma AddPending_spec mi bss bh size :
  master mi bss -> type_ok (bh_Type bh) ->
  (known mi bss bh /\ AddPending mi bh size = Ok (mi, false))
  \/ (~ known mi bss bh /\ AddPending mi bh size = Ok (mi <| mi_pending := <[bh := size]> (mi_pending mi) |>, true)).
Proof.
  intros M T. unfold AddPending, known. destruct (mi_pending mi !! bh) as [s|]; [left; split; [by left|done]|].
  rewrite (has_in_spec _ bss) by (done || apply M). cbn [rbind].
  destruct (found_in bss bh) as [|pb pbs]; [right|left; split; [by right|done]]. split; [|done]. by intros [?|?].
Qed.

Lemma found_in_elem bss bh pb :
  pb ∈ found_in bss bh <-> exists bs, bs ∈ bss /\ pb ∈ of_handle bh (bs (bh_Type bh)).
Proof.
  unfold found_in. rewrite list_elem_of_In, in_concat. split.
  - intros (l & Hl & Hp). apply in_map_iff in Hl as (bs & <- & Hb). exists bs. by rewrite !list_elem_of_In.
  - intros (bs & Hb & Hp). rewrite list_elem_of_In in Hb. rewrite list_elem_of_In in Hp.
    eexists. split; [|exact Hp]. by apply in_map_iff; eexists.
Qed.

Lemma found_in_nonempty bss bh : found_in bss bh <> [] <-> exists pb, pb ∈ found_in bss bh.
Proof.
  destruct (found_in bss bh) as [|pb pbs]; split; try done.
  - by intros (pb & ?%elem_of_nil).
  - intros _. exists pb. apply list_elem_of_here.
Qed.

(** The first index only grows. *)
Definition grown (bss bss' : list (Z -> list PackedBlob)) : Prop :=
  forall bs bs', head bss = Some bs -> head bss' = Some bs' -> exists fresh, forall t, bs' t = fresh t ++ bs t.

Lemma grown_refl bss : grown bss bss.
Proof. intros bs bs' E E'. exists (fun _ => []). intros t. cbn. congruence. Qed.

Lemma grown_same bss bss' : head bss' = head bss -> grown bss bss'.
Proof. intros E bs bs' H H'. exists (fun _ => []). intros t. cbn. congruence. Qed.

Lemma grown_trans a b c : head b <> None -> grown a b -> grown b c -> grown a c.
Proof.
  intros N G1 G2 x z Hx Hz. destruct (head b) as [y|] eqn:Hy; [|done].
  destruct (G1 x y Hx Hy) as [f1 E1], (G2 y z Hy Hz) as [f2 E2]. exists (fun t => f2 t ++ f1 t).
  intros t. by rewrite E2, E1, app_assoc.
Qed.

Lemma master_head mi bss : master mi bss -> head bss <> None.
Proof. intros [(main & rest & E & _) F]. rewrite E in F. by apply Forall2_cons_inv_l in F as (? & ? & _ & _ & ->). Qed.

(** The blobs found in [bss] are still found in [bss']. *)
Definition keeps (bss bss' : list (Z -> list PackedBlob)) : Prop :=
  forall bh pb, type_ok (bh_Type bh) -> pb ∈ found_in bss bh -> pb ∈ found_in bss' bh.

Lemma store_in_spec idxs bss id blobs fresh idxs' :
  Forall2 reachable idxs bss -> reachable fresh (fun _ => []) -> store_in idxs id blobs fresh = Ok idxs' ->
  exists bss', Forall2 reachable idxs' bss' /\ keeps bss bss'
    /\ (forall b, b ∈ blobs -> type_ok (bh_Type (b_handle b)) -> mkPackedBlob id b ∈ found_in bss' (b_handle b))
    /\ (forall main rest, idxs = main :: rest -> ix_final main = true ->
          (exists rest', idxs' = main :: rest') /\ head bss' = head bss)
    /\ (forall bh pb, pb ∈ found_in bss' bh -> pb ∈ found_in bss bh \/ bh ∈ b_handle <$> blobs).
Proof.
  assert (Old : forall bs bh pb, pb ∈ of_handle bh (push_all bs id blobs (bh_Type bh)) -> pb ∈ of_handle bh (bs (bh_Type bh)) \/ bh ∈ b_handle <$> blobs).
  { intros bs bh pb. rewrite !of_handle_elem, push_all_spec, elem_of_app. intros [<- [H|H]]; [right|by left].
    apply list_elem_of_In, in_map_iff in H as (b & <- & [_ Hb%list_elem_of_In]%in_rev%list_elem_of_In%list_elem_of_filter).
    apply list_elem_of_fmap. exists b. split; [done|by apply list_elem_of_In]. }
  assert (New : forall bs bss b, b ∈ blobs ->
    mkPackedBlob id b ∈ found_in (push_all bs id blobs :: bss) (b_handle b)).
  { intros bs bss0 b Hb. apply found_in_elem. eexists. split; [apply list_elem_of_here|].
    apply of_handle_elem. split; [done|]. rewrite push_all_spec. apply elem_of_app. left.
    apply list_elem_of_In, in_map, in_rev, list_elem_of_In. rewrite rev_involutive. by apply list_elem_of_filter. }
  intros F Fr. revert idxs'. induction F as [|idx bs idxs bss R F IH]; intros idxs' H; cbn [store_in] in H.
  - apply rbind_ok in H as (idx' & E & H). injection H as <-. exists [push_all (fun _ => []) id blobs].
    split; [constructor; [by eapply reach_store|constructor]|]. split; [by intros bh pb _ ?%elem_of_nil|].
    split; [intros b Hb _; by apply New|]. split; [done|]. intros bh pb Hp. rewrite found_in_cons, app_nil_r in Hp. by apply Old in Hp.
  - destruct (ix_final idx) eqn:Fi; cbn [negb] in H.
    + apply rbind_ok in H as (idxs1 & E & H). injection H as <-. destruct (IH idxs1 E) as (bss' & F' & K & N & _ & O).
      exists (bs :: bss'). split; [by constructor|]. split; [|split; [|split]].
      * intros bh pb T. change (found_in (bs :: ?l) bh) with (of_handle bh (bs (bh_Type bh)) ++ found_in l bh).
        rewrite !elem_of_app. intros [?|?]; [by left|right; by apply K].
      * intros b Hb T. change (found_in (bs :: ?l) ?bh) with (of_handle bh (bs (bh_Type bh)) ++ found_in l bh).
        apply elem_of_app. right. by apply N.
      * intros main rest [= -> ->] _. split; [by eexists|done].
      * intros bh pb. rewrite !found_in_cons, !elem_of_app. intros [?|[?|?]%O]; auto.
    + apply rbind_ok in H as (idx' & E & H). injection H as <-. exists (push_all bs id blobs :: bss).
      split; [constructor; [by eapply reach_store|done]|]. split; [|split; [intros b Hb _; by apply New|split]].
      * intros bh pb T. change (found_in (?b :: bss) bh) with (of_handle bh (b (bh_Type bh)) ++ found_in bss bh).
        rewrite !elem_of_app, !of_handle_elem, push_all_spec, elem_of_app. tauto.
      * intros main rest [= -> ->] Q. congruence.
      * intros bh pb. rewrite !found_in_cons, !elem_of_app. intros [[?|?]%Old|?]; auto.
Qed.

Lemma pending_deleted (blobs : list Blob) (p : gmap BlobHandle Z) bh :
  fold_left (fun p blob => delete (b_handle blob) p) blobs p !! bh
  = if decide (bh ∈ b_handle <$> blobs) then None else p !! bh.
Proof.
  revert p. induction blobs as [|b blobs IH]; intros p; cbn [fold_left]; [by rewrite decide_False by apply not_elem_of_nil|].
  rewrite IH, fmap_cons. destruct (decide (bh ∈ b_handle <$> blobs)) as [D|D].
  - rewrite decide_True by (by apply list_elem_of_further). done.
  - destruct (decide (b_handle b = bh)) as [<-|Nb].
    + rewrite lookup_delete_eq, decide_True by apply list_elem_of_here. done.
    + rewrite lookup_delete_ne by done. rewrite decide_False; [done|]. intros [Q|?]%elem_of_cons; [by rewrite Q in Nb|done].
Qed.

Lemma storePack_spec mi bss id blobs now hash mi' :
  master mi bss -> storePack mi id blobs now hash = Ok mi' ->
  exists bss', master mi' bss' /\ grown bss bss'
    /\ forall bh, type_ok (bh_Type bh) -> known mi bss bh -> known mi' bss' bh.
Proof.
  intros [(main & rest & Em & Fi) F] H. unfold storePack in H. apply rbind_ok in H as (idxs & E & H). injection H as <-.
  destruct (store_in_spec _ _ _ _ _ _ F (reach_new now hash) E) as (bss' & F' & K & N & Hd & _).
  destruct (Hd main rest Em Fi) as [[rest' Ei] Eh]. exists bss'. split; [|split; [by apply grown_same|]].
  - split; [|done]. rewrite Ei. by exists main, rest'.
  - intros bh T [P|P]; unfold known; cbn [mi_pending].
    + rewrite pending_deleted. destruct (decide (bh ∈ b_handle <$> blobs)) as [D|D]; [right|by left].
      apply list_elem_of_fmap in D as (b & -> & Hb). apply found_in_nonempty. eexists. by apply N.
    + right. apply found_in_nonempty in P as [pb Hp]. apply found_in_nonempty. exists pb. by apply K.
Qed.

Lemma preallocate_types_spec ts main idxs bs main' :
  reachable main bs -> preallocate_types main idxs ts = Ok main' -> reachable main' bs /\ meta main' = meta main.
Proof.
  revert main. induction ts as [|t ts IH]; intros main R H; cbn [preallocate_types] in H; [by injection H as <-|].
  apply rbind_ok in H as (n & _ & H). apply rbind_ok in H as (main1 & E & H).
  destruct (Preallocate_inv _ _ _ _ _ (reachable_indexes _ _ R) E) as [_ M1].
  destruct (IH main1 (reach_preallocate _ _ _ _ _ R E) H) as [R' M2]. split; [done|congruence].
Qed.

Lemma merged_fresh acc news :
  merged acc news = take (length (merged acc news) - length acc) (merged acc news) ++ acc.
Proof.
  destruct (merged_suffix news acc) as [fresh ->]. by rewrite length_app, Nat.add_sub, take_app_length.
Qed.

(** Indexes that the merge leaves alone. *)
Definition unsaved (idx : Index) : bool := negb (ix_final idx) || (zlen (ix_ids idx) =? 0).

Lemma merge_all_spec idxs bss main bs main' rest :
  Forall2 reachable idxs bss -> reachable main bs -> merge_all main idxs = Ok (main', rest) ->
  exists bs' bss', reachable main' bs' /\ Forall2 reachable rest bss'
    /\ ix_final main' = ix_final main /\ rest = filter (fun idx => unsaved idx = true) idxs
    /\ (forall bh, type_ok (bh_Type bh) -> forall pb,
          pb ∈ found_in (bs' :: bss') bh <-> pb ∈ found_in (bs :: bss) bh)
    /\ (exists fresh, forall t, bs' t = fresh t ++ bs t).
Proof.
  intros F. revert main bs rest. induction F as [|idx b idxs bss R F IH]; intros main bs rest Rm H; cbn [merge_all] in H.
  - injection H as <- <-. exists bs, []. do 4 (split; [done|]). split; [done|]. by exists (fun _ => []).
  - fold (unsaved idx) in H. destruct (unsaved idx) eqn:U.
    + apply rbind_ok in H as ([m r] & E & H). injection H as <- <-.
      destruct (IH main bs r Rm E) as (bs' & bss' & R' & F' & Fi & -> & Q & Su). exists bs', (b :: bss').
      split; [done|]. split; [by constructor|]. split; [done|]. split; [by rewrite filter_cons_True|]. split; [|done].
      intros bh T pb. specialize (Q bh T pb). revert Q. rewrite !found_in_cons, !elem_of_app. tauto.
    + apply rbind_ok in H as (m & E & H). pose proof (reach_merge _ _ _ _ _ Rm R E) as Rm'.
      destruct (merge_inv _ _ _ _ _ (reachable_indexes _ _ Rm) (reachable_indexes _ _ R) E) as (_ & Fm & _).
      destruct (IH m _ rest Rm' H) as (bs' & bss' & R' & F' & Fi & -> & Q & (fresh & Su)). exists bs', bss'.
      split; [done|]. split; [done|]. split; [congruence|]. split; [rewrite filter_cons_False; [done|by rewrite U]|]. split.
      * intros bh T pb. rewrite (Q bh T pb).
        rewrite !found_in_cons, !elem_of_app, !of_handle_elem, merged_elem, elem_of_rev. tauto.
      * eexists (fun t => fresh t ++ _). intros t. rewrite Su, <- app_assoc. f_equal. apply merged_fresh.
Qed.

Lemma MergeFinalIndexes_spec mi bss mi' :
  master mi bss -> MergeFinalIndexes mi = Ok mi' ->
  exists bss', master mi' bss' /\ mi_pending mi' = mi_pending mi
    /\ (forall bh, type_ok (bh_Type bh) -> forall pb, pb ∈ found_in bss' bh <-> pb ∈ found_in bss bh)
    /\ Forall (fun idx => unsaved idx = true) (tail (mi_idx mi'))
    /\ grown bss bss'.
Proof.
  intros [(main & rest & Em & Fi) F] H. unfold MergeFinalIndexes in H. rewrite Em in H, F.
  apply rbind_ok in H as (main1 & E1 & H). apply rbind_ok in H as ([main2 rest2] & E2 & H). injection H as <-.
  apply Forall2_cons_inv_l in F as (bs & bss0 & R & F & ->).
  destruct (preallocate_types_spec _ _ _ _ _ R E1) as [R1 M1]. injection M1 as _ Fi1 _ _ _.
  destruct (merge_all_spec _ _ _ _ _ _ F R1 E2) as (bs' & bss' & R2 & F2 & Fi2 & -> & Q & Su).
  exists (bs' :: bss'). split; [|split; [done|split; [done|split]]].
  - split; [|by constructor]. eexists _, _. split; [done|]. congruence.
  - apply Forall_forall. intros idx. cbn. rewrite list_elem_of_filter. tauto.
  - intros ? ? [= <-] [= <-]. done.
Qed.

Lemma finalize_where_spec f mi bss : master mi bss -> master (fst (finalize_where f mi)) bss.
Proof.
  intros [(main & rest & Em & Fi) F]. unfold finalize_where. cbn [fst]. split.
  - change (mi_idx (_ <| mi_idx := ?l |>)) with l. rewrite Em. cbn [map]. rewrite Fi. cbn. by eexists _, _.
  - change (mi_idx (_ <| mi_idx := ?l |>)) with l. clear Em. induction F as [|idx bs idxs bss R _ IH]; cbn; constructor; [|done].
    destruct (_ && _); [by apply reach_finalize|done].
Qed.

Lemma SaveIndex_spec SaveUnpacked idx bs idx' err :
  reachable idx bs -> SaveIndex SaveUnpacked idx = Ok (idx', err) ->
  reachable idx' bs /\ ix_final idx' = ix_final idx.
Proof.
  intros R H. unfold SaveIndex in H. destruct (Encode idx) as [packs|]; [|by injection H as <- _].
  destruct (SaveUnpacked packs) as [id e]. apply rbind_ok in H as (i & E & H). injection H as <- <-.
  split; [by eapply reach_set_id|]. unfold SetID in E. by inv_results.
Qed.

Lemma saveIndex_spec SaveUnpacked positions mi bss mi' err :
  master mi bss -> saveIndex SaveUnpacked mi positions = Ok (mi', err) ->
  exists bss', master mi' bss' /\ mi_pending mi' = mi_pending mi
    /\ (forall bh, type_ok (bh_Type bh) -> forall pb, pb ∈ found_in bss' bh <-> pb ∈ found_in bss bh)
    /\ grown bss bss'.
Proof.
  revert mi. induction positions as [|i positions IH]; intros mi M H; cbn [saveIndex] in H.
  - apply rbind_ok in H as (mi1 & E & H). injection H as <- _.
    destruct (MergeFinalIndexes_spec mi bss mi1 M E) as (bss' & M' & P & Q & _ & G). by exists bss'.
  - destruct (mi_idx mi !! i) as [idx|] eqn:L; [|done]. apply rbind_ok in H as ([idx' e] & E & H).
    destruct M as [(main & rest & Em & Fi) F]. destruct (Forall2_lookup_l _ _ _ _ _ F L) as (bs & Lb & R).
    destruct (SaveIndex_spec _ _ _ _ _ R E) as [R' Fi'].
    assert (M1 : master (mi <| mi_idx := <[i := idx']> (mi_idx mi) |>) bss).
    { split; change (mi_idx (_ <| mi_idx := ?l |>)) with l.
      - rewrite Em in *. destruct i as [|i]; cbn in *; [|by eexists _, _]. injection L as ->. eexists _, _. split; [done|]. congruence.
      - rewrite <- (list_insert_id bss i bs Lb). by apply Forall2_insert. }
    destruct e as [e|].
    + injection H as <- _. exists bss. do 3 (split; [done|]). apply grown_refl.
    + destruct (IH _ M1 H) as (bss' & ? & ? & ? & ?). by exists bss'.
Qed.

(** The operations on a master index that do not reload it. *)
Inductive m_step : MasterIndex -> MasterIndex -> Prop :=
| step_pending mi bh size mi' added : AddPending mi bh size = Ok (mi', added) -> type_ok (bh_Type bh) -> m_step mi mi'
| step_store mi id blobs now hash mi' : storePack mi id blobs now hash = Ok mi' -> m_step mi mi'
| step_insert mi idx bs : reachable idx bs -> m_step mi (Insert mi idx)
| step_finalize mi f : m_step mi (fst (finalize_where f mi))
| step_save mi SaveUnpacked positions mi' err :
    saveIndex SaveUnpacked mi positions = Ok (mi', err) -> m_step mi mi'.

Lemma m_step_known mi bss mi' :
  master mi bss -> m_step mi mi' ->
  exists bss', master mi' bss' /\ grown bss bss'
    /\ forall bh, type_ok (bh_Type bh) -> known mi bss bh -> known mi' bss' bh.
Proof.
  intros M S. destruct S as [mi bh size mi' added E T|mi id blobs now hash mi' E|mi idx bs R|mi f|mi SU ps mi' err E].
  - exists bss. destruct (AddPending_spec mi bss bh size M T) as [[_ A]|[_ A]]; rewrite A in E; injection E as <- _;
      (split; [by destruct M|split; [apply grown_refl|]]); [done|]. intros bh' _ [K|K]; [left|by right].
    change (<[bh := size]> (mi_pending mi) !! bh' <> None). destruct (decide (bh = bh')) as [->|N];
      [by rewrite lookup_insert_eq|by rewrite lookup_insert_ne].
  - by apply (storePack_spec _ _ _ _ _ _ _ M E).
  - pose proof (master_head _ _ M). destruct M as [(main & rest & Em & Fi) F]. exists (bss ++ [bs]). split; [|split].
    + split; change (mi_idx (Insert mi idx)) with (mi_idx mi ++ [idx]); [rewrite Em; by eexists _, _|].
      apply Forall2_app; [done|by repeat constructor].
    + apply grown_same. by destruct bss.
    + intros bh _ [K|K]; [by left|right]. unfold found_in. rewrite map_app, concat_app.
      intros Q. by apply app_eq_nil in Q as [Q _].
  - exists bss. split; [by apply finalize_where_spec|]. split; [apply grown_refl|done].
  - destruct (saveIndex_spec _ _ _ _ _ _ M E) as (bss' & M' & P & Q & G). exists bss'. split; [done|]. split; [done|].
    intros bh T [K|K]; unfold known; [left; by rewrite P|right].
    apply found_in_nonempty in K as [pb K]. apply found_in_nonempty. exists pb. by apply Q.
Qed.

Lemma m_steps_known mi bss mi' :
  master mi bss -> rtc m_step mi mi' ->
  exists bss', master mi' bss' /\ grown bss bss'
    /\ forall bh, type_ok (bh_Type bh) -> known mi bss bh -> known mi' bss' bh.
Proof.
  intros M S. revert bss M. induction S as [mi|mi mi1 mi' S1 _ IH]; intros bss M.
  - exists bss. split; [done|]. split; [apply grown_refl|done].
  - destruct (m_step_known _ _ _ M S1) as (bss1 & M1 & G1 & K1). destruct (IH bss1 M1) as (bss' & M' & G' & K').
    exists bss'. split; [done|]. split; [by apply (grown_trans _ bss1); [apply (master_head mi1)|..]|].
    intros bh T K. by apply K', K1.
Qed.

Lemma new_master now hash : master (NewMasterIndex now hash) [fun _ => []].
Proof.
  split; [by eexists _, _|]. constructor; [|constructor]. apply reach_finalize, reach_new.
Qed.
End MasterTheory.

(** ** Properties *)

Module MasterProps.
Import IndexTheory IndexProps MasterTheory.

(** A blob is accepted for saving once: after [AddPending] accepted a blob, no
    sequence of further operations (other pending blobs, packs stored, indexes
    inserted, finalized, saved with or without an error, merged) makes [AddPending]
    accept it again. *)
Theorem AddPending_once (mi mi1 mi' : MasterIndex) (bh : BlobHandle) (size size' now : Z) (hash : Z -> ID -> Z) :
  rtc m_step (NewMasterIndex now hash) mi -> type_ok (bh_Type bh) ->
  AddPending mi bh size = Ok (mi1, true) -> rtc m_step mi1 mi' ->
  AddPending mi' bh size' = Ok (mi', false).
Proof.
  intros S T A S'. destruct (m_steps_known _ _ _ (new_master now hash) S) as (bss & M & _ & _).
  assert (M1 : master mi1 bss /\ known mi1 bss bh).
  { destruct (AddPending_spec mi bss bh size M T) as [[_ E]|[_ E]]; rewrite A in E; [done|]. injection E as ->.
    split; [by destruct M|]. left. change (<[bh := size]> (mi_pending mi) !! bh <> None). by rewrite lookup_insert_eq. }
  destruct M1 as [M1 K1]. destruct (m_steps_known _ _ _ M1 S') as (bss' & M' & _ & K').
  destruct (AddPending_spec mi' bss' bh size' M' T) as [[_ E]|[N _]]; [done|]. by destruct (N (K' bh T K1)).
Qed.

(** C17. Merging the final indexes of a repository changes no answer: every handle is
    found at the same places as before, the pending blobs are untouched, and what is
    left beside the first index are exactly indexes that were not saved yet. *)
Theorem MergeFinalIndexes_lookup (mi mi' : MasterIndex) (now : Z) (hash : Z -> ID -> Z) :
  rtc m_step (NewMasterIndex now hash) mi -> MergeFinalIndexes mi = Ok mi' ->
  mi_pending mi' = mi_pending mi
  /\ Forall (fun idx => unsaved idx = true) (tail (mi_idx mi'))
  /\ forall bh, type_ok (bh_Type bh) -> exists found found',
       MasterLookup mi bh = Ok found /\ MasterLookup mi' bh = Ok found' /\ forall pb, pb ∈ found' <-> pb ∈ found.
Proof.
  intros S E. destruct (m_steps_known _ _ _ (new_master now hash) S) as (bss & M & _ & _).
  destruct (MergeFinalIndexes_spec mi bss mi' M E) as (bss' & M' & P & Q & U & _). split; [done|]. split; [done|].
  intros bh T. eexists _, _. do 2 (split; [by eapply MasterLookup_spec|]). by apply Q.
Qed.

Lemma lookupSizes_spec idx bs handles sizes :
  reachable idx bs -> Forall (fun bh => type_ok (bh_Type bh)) handles -> length sizes = length handles ->
  lookupSizes idx handles sizes
  = Ok (zip_with (fun bh size => match size with Some _ => size
                                 | None => DataLength ∘ pb_Blob <$> head (of_handle bh (bs (bh_Type bh))) end) handles sizes).
Proof.
  intros R F. revert sizes. induction F as [|bh handles T _ IH]; intros [|size sizes] L; try done.
  cbn [lookupSizes]. assert (Q : (match size with Some _ => Ok size | None => LookupSize idx bh end)
    = Ok (match size with Some _ => size | None => DataLength ∘ pb_Blob <$> head (of_handle bh (bs (bh_Type bh))) end)).
  { destruct size; [done|]. by apply LookupSize_spec; [apply reachable_indexes|]. }
  rewrite Q. cbn [rbind]. rewrite IH by (cbn in L; congruence). done.
Qed.

Lemma sizes_in_spec idxs bss handles sizes0 :
  Forall2 reachable idxs bss -> Forall (fun bh => type_ok (bh_Type bh)) handles -> length sizes0 = length handles ->
  exists sizes, sizes_in idxs handles sizes0 = Ok sizes /\ length sizes = length handles
    /\ forall i bh s0, handles !! i = Some bh -> sizes0 !! i = Some s0 ->
       exists s, sizes !! i = Some s /\ match s0 with Some x => Ok (Some x) | None => size_in idxs bh end = Ok s.
Proof.
  intros H F. revert sizes0. induction H as [|idx bs idxs bss R _ IH]; intros sizes0 L.
  - exists sizes0. split; [done|]. split; [done|]. intros i bh s0 _ Hs. exists s0. split; [done|]. by destruct s0.
  - cbn [sizes_in]. rewrite (lookupSizes_spec idx bs) by done. cbn [rbind]. set (f := fun bh size => _).
    destruct (IH (zip_with f handles sizes0)) as (sizes & E & L' & G); [rewrite length_zip_with; lia|].
    exists sizes. split; [done|]. split; [done|]. intros i bh s0 Hb Hs.
    destruct (G i bh (f bh s0) Hb) as (s & Es & Q).
    { rewrite lookup_zip_with, Hb, Hs. done. }
    exists s. split; [done|]. destruct s0 as [x|]; [done|]. cbn [size_in].
    rewrite (LookupSize_spec idx bs); [|by apply reachable_indexes|exact (Forall_lookup_1 _ _ _ _ F Hb)]. cbn [rbind].
    unfold f in Q. by destruct (head _).
Qed.

(** The batch query agrees with the single one: for valid types [LookupSizes]
    never panics and returns for every handle what [LookupSize] returns for it. *)
Theorem LookupSizes_each (mi : MasterIndex) (handles : list BlobHandle) (now : Z) (hash : Z -> ID -> Z) :
  rtc m_step (NewMasterIndex now hash) mi -> Forall (fun bh => type_ok (bh_Type bh)) handles ->
  exists sizes, LookupSizes mi handles = Ok sizes
    /\ Forall2 (fun bh size => MasterLookupSize mi bh = Ok size) handles sizes.
Proof.
  intros S F. destruct (m_steps_known _ _ _ (new_master now hash) S) as (bss & [_ H] & _ & _).
  destruct (sizes_in_spec _ bss handles (map (fun h => mi_pending mi !! h) handles) H F) as (sizes & E & L & G);
    [by rewrite length_map|].
  exists sizes. split; [done|]. apply Forall2_same_length_lookup_2; [done|]. intros i bh s Hb Hs.
  destruct (G i bh (mi_pending mi !! bh) Hb) as (s' & Hs' & Q).
  { change (map ?f handles) with (f <$> handles). by rewrite list_lookup_fmap, Hb. }
  rewrite Hs in Hs'. injection Hs' as <-. exact Q.
Qed.

Lemma imap_pair_none {A} (f : A -> bool) l (g : nat -> nat) :
  Forall (fun x => f x = false) l -> omap (fun '(i, x) => if f x then Some i else None) (imap (fun i x => (g i, x)) l) = [].
Proof.
  intros F. revert g. induction F as [|x l E _ IH]; intros g; [done|]. cbn. rewrite E. apply (IH (g ∘ S)).
Qed.

Lemma no_unfinished mi :
  Forall (fun idx => ix_final idx = true) (mi_idx mi) -> finalizeNotFinalIndexes mi = (mi, []).
Proof.
  intros F. unfold finalizeNotFinalIndexes, finalize_where. f_equal.
  - destruct mi as [idxs p]. cbn in *. unfold constant. f_equal. induction F as [|idx idxs E _ IH]; [done|]. cbn. by rewrite E, IH.
  - apply (imap_pair_none (fun idx => negb (ix_final idx) && true) (mi_idx mi) id).
    eapply Forall_impl; [exact F|]. intros idx E. by rewrite E.
Qed.

Lemma saveIndex_failed_final SaveUnpacked positions mi mi1 e :
  Forall (fun idx => ix_final idx = true) (mi_idx mi) ->
  saveIndex SaveUnpacked mi positions = Ok (mi1, Some e) -> Forall (fun idx => ix_final idx = true) (mi_idx mi1).
Proof.
  revert mi. induction positions as [|i positions IH]; intros mi F H; cbn [saveIndex] in H.
  - apply rbind_ok in H as (mi2 & _ & H). discriminate.
  - destruct (mi_idx mi !! i) as [idx|] eqn:L; [|done]. apply rbind_ok in H as ([idx' err] & E & H).
    assert (Fi : ix_final idx' = true).
    { pose proof (Forall_lookup_1 _ _ _ _ F L) as Fi. cbn in Fi. unfold SaveIndex in E.
      destruct (Encode idx); [|by injection E as <- _]. destruct (SaveUnpacked _).
      apply rbind_ok in E as (j & E & Q). injection Q as <- _. unfold SetID in E. by inv_results. }
    assert (F' : Forall (fun idx => ix_final idx = true) (<[i := idx']> (mi_idx mi))) by (by apply Forall_insert).
    destruct err as [err|]; [by injection H as <- _|]. exact (IH (mi <| mi_idx := <[i := idx']> (mi_idx mi) |>) F' H).
Qed.

(** A flush that failed is not repeated: after [Flush] returned an error of the
    repository, a second [Flush] stores no index at all, whatever the repository
    answers now, and reports success unless the merge panics. *)
Theorem Flush_after_failure (Save Save' : list packJSON -> ID * option string) (mi mi1 : MasterIndex) (e : string) :
  Flush Save mi = Ok (mi1, Some e) ->
  Flush Save' mi1 = (let! mi2 := MergeFinalIndexes mi1 in Ok (mi2, None)).
Proof.
  intros H. unfold Flush at 1 in H. destruct (finalizeNotFinalIndexes mi) as [mi0 positions] eqn:E0.
  assert (F0 : Forall (fun idx => ix_final idx = true) (mi_idx mi0)).
  { unfold finalizeNotFinalIndexes, finalize_where in E0. injection E0 as <- _.
    change (mi_idx (_ <| mi_idx := ?l |>)) with l. apply Forall_forall. intros idx Hi.
    apply list_elem_of_In, in_map_iff in Hi as (idx0 & <- & _). by destruct (ix_final idx0) eqn:Q; cbn. }
  unfold Flush. rewrite no_unfinished; [done|]. by apply (saveIndex_failed_final _ _ _ _ _ F0 H).
Qed.

(** A blob pending, stored with a second one, the index saved and merged. *)
Definition sample_master : MasterIndex := NewMasterIndex 0 sample_hash.
Definition sample_handle : BlobHandle := b_handle (sample_blob 1 DataBlob 0).
Definition sample_save (packs : list packJSON) : ID * option string := (repeat x11 32, None).
Definition master_pending : MasterIndex :=
  match AddPending sample_master sample_handle 8 with Ok (mi, _) => mi | Err _ => sample_master end.
Definition master_stored : MasterIndex :=
  match storePack master_pending (repeat x0a 32) [sample_blob 1 DataBlob 0; sample_blob 2 TreeBlob 40] 0 sample_hash with
  | Ok mi => mi | Err _ => sample_master end.
Definition master_final : MasterIndex := fst (finalizeNotFinalIndexes master_stored).
Definition master_saved : MasterIndex :=
  match saveIndex sample_save master_final [1%nat] with Ok (mi, _) => mi | Err _ => sample_master end.

Lemma sample_steps : rtc m_step master_pending master_saved.
Proof.
  eapply rtc_l. { apply (step_store _ (repeat x0a 32) [sample_blob 1 DataBlob 0; sample_blob 2 TreeBlob 40] 0 sample_hash master_stored). vm_compute. reflexivity. }
  eapply rtc_l; [apply (step_finalize _ (fun _ => true))|].
  apply rtc_once. apply (step_save _ sample_save [1%nat] _ None). vm_compute. reflexivity.
Qed.

Lemma pending_step : rtc m_step sample_master master_pending.
Proof. apply rtc_once. apply (step_pending _ sample_handle 8 _ true); [vm_compute; reflexivity|by split]. Qed.

Lemma Flush_after_failure_witness :
  let failed := match Flush (fun _ => (zero_id, Some "disk full")) master_stored with Ok (mi, _) => mi | Err _ => sample_master end in
  Flush sample_save failed = (let! mi2 := MergeFinalIndexes failed in Ok (mi2, None)).
Proof.
  intros failed. apply (Flush_after_failure (fun _ => (zero_id, Some "disk full")) sample_save master_stored failed "disk full").
  vm_compute. reflexivity.
Defined.

Lemma AddPending_once_witness : AddPending master_saved sample_handle 8 = Ok (master_saved, false).
Proof.
  apply (AddPending_once sample_master master_pending master_saved sample_handle 8 8 0 sample_hash).
  - apply rtc_refl.
  - by split.
  - vm_compute. reflexivity.
  - exact sample_steps.
Defined.

Lemma MergeFinalIndexes_lookup_witness :
  MergeFinalIndexes master_saved = Ok master_saved
  /\ mi_pending master_saved = mi_pending master_saved
  /\ Forall (fun idx => unsaved idx = true) (tail (mi_idx master_saved))
  /\ forall bh, type_ok (bh_Type bh) -> exists found found',
       MasterLookup master_saved bh = Ok found /\ MasterLookup master_saved bh = Ok found' /\ forall pb, pb ∈ found' <-> pb ∈ found.
Proof.
  split; [vm_compute; reflexivity|].
  apply (MergeFinalIndexes_lookup master_saved master_saved 0 sample_hash).
  - etrans; [exact pending_step|exact sample_steps].
  - vm_compute. reflexivity.
Defined.

Lemma LookupSizes_each_witness :
  exists sizes, LookupSizes master_pending [sample_handle; b_handle (sample_blob 2 TreeBlob 40)] = Ok sizes
    /\ Forall2 (fun bh size => MasterLookupSize master_pending bh = Ok size) [sample_handle; b_handle (sample_blob 2 TreeBlob 40)] sizes.
Proof.
  apply (LookupSizes_each master_pending _ 0 sample_hash); [exact pending_step|]. by repeat constructor.
Defined.
End MasterProps.
