(* ===== verification/AssociatedSet.v ===== *)
(** * Values per blob ([internal/repository/index/associated_data.go])

    An associated set keeps its values in arrays addressed by the stable index of a
    blob in the first index of the repository. Blobs that had none when the set was
    made go to an overflow map. The theorems show that the set is a map from blob
    handles to values, also while the index grows under it. *)
From stdpp Require Import base list numbers strings gmap sets.
From Stdlib Require Import ZArith Lia.
From coqutil Require Import Datatypes.RecordSetters.
From S2P Require Import Prelude Codec Crypto Pack IndexMap RepoIndex MasterIndex.
Import TriangleBracketNotations.

Section Set_.
Context {T : Type} (zero : T).

Record associatedSetSub := mkSub { sub_value : list T; sub_isSet : list bool }.

(** The pointer to the master index is an argument of the operations. *)
Record AssociatedSet := mkSet { as_byType : list associatedSetSub; as_overflow : gmap BlobHandle T }.

(** Nothing is made for the invalid type; the index starts counting at one. *)
Definition new_sub (mi : MasterIndex) (typ : Z) : result associatedSetSub :=
  if typ =? 0 then Ok (mkSub [] [])
  else
    let! n := stableLen mi typ in
    let count := Z.to_nat (n + 1) in
    Ok (mkSub (repeat zero count) (repeat false count)).

Definition NewAssociatedSet (mi : MasterIndex) : result AssociatedSet :=
  let! s0 := new_sub mi 0 in
  let! s1 := new_sub mi 1 in
  let! s2 := new_sub mi 2 in
  Ok (mkSet [s0; s1; s2] ∅).

Definition sub_of (a : AssociatedSet) (t : Z) : result associatedSetSub :=
  do! guard (t <? 0) "index out of range";
  match as_byType a !! Z.to_nat t with
  | Some s => Ok s
  | None => Err "index out of range"
  end.

(** [None] where the code returns [false]. *)
Definition Get (mi : MasterIndex) (a : AssociatedSet) (bh : BlobHandle) : result (option T) :=
  match as_overflow a !! bh with
  | Some val => Ok (Some val)
  | None =>
      let! idx := blobIndex mi bh in
      let! bt := sub_of a (bh_Type bh) in
      if (zlen (sub_value bt) <=? idx) || (idx =? -1) then Ok None
      else
        match sub_isSet bt !! Z.to_nat idx, sub_value bt !! Z.to_nat idx with
        | Some has, Some val => if has : bool then Ok (Some val) else Ok None
        | _, _ => Err "index out of range"
        end
  end.

Definition Set_ (mi : MasterIndex) (a : AssociatedSet) (bh : BlobHandle) (val : T) : result AssociatedSet :=
  match as_overflow a !! bh with
  | Some _ => Ok (a <| as_overflow := <[bh := val]> (as_overflow a) |>)
  | None =>
      let! idx := blobIndex mi bh in
      let! bt := sub_of a (bh_Type bh) in
      if (zlen (sub_value bt) <=? idx) || (idx =? -1)
      then Ok (a <| as_overflow := <[bh := val]> (as_overflow a) |>)
      else
        let bt := mkSub (<[Z.to_nat idx := val]> (sub_value bt)) (<[Z.to_nat idx := true]> (sub_isSet bt)) in
        Ok (a <| as_byType := <[Z.to_nat (bh_Type bh) := bt]> (as_byType a) |>)
  end.

Definition Insert_ (mi : MasterIndex) (a : AssociatedSet) (bh : BlobHandle) : result AssociatedSet := Set_ mi a bh zero.

Definition Delete (mi : MasterIndex) (a : AssociatedSet) (bh : BlobHandle) : result AssociatedSet :=
  match as_overflow a !! bh with
  | Some _ => Ok (a <| as_overflow := delete bh (as_overflow a) |>)
  | None =>
      let! idx := blobIndex mi bh in
      let! bt := sub_of a (bh_Type bh) in
      if (idx <? zlen (sub_value bt)) && negb (idx =? -1)
      then
        let bt := mkSub (sub_value bt) (<[Z.to_nat idx := false]> (sub_isSet bt)) in
        Ok (a <| as_byType := <[Z.to_nat (bh_Type bh) := bt]> (as_byType a) |>)
      else Ok a
  end.

(** The pairs of the iterator: the overflow map in some order, then the index. *)
Fixpoint known_pairs (mi : MasterIndex) (a : AssociatedSet) (pbs : list PackedBlob) : result (list (BlobHandle * T)) :=
  match pbs with
  | [] => Ok []
  | pb :: pbs =>
      let bh := b_handle (pb_Blob pb) in
      match as_overflow a !! bh with
      | Some _ => known_pairs mi a pbs
      | None =>
          let! o := Get mi a bh in
          let! rest := known_pairs mi a pbs in
          Ok (match o with Some val => (bh, val) :: rest | None => rest end)
      end
  end.

Definition All (mi : MasterIndex) (a : AssociatedSet) : result (list (BlobHandle * T)) :=
  let! pbs := MasterValues mi in
  let! known := known_pairs mi a pbs in
  Ok (map_to_list (as_overflow a) ++ known).

Definition AssociatedLen (mi : MasterIndex) (a : AssociatedSet) : result Z :=
  let! all := All mi a in Ok (zlen all).

(** The result starts empty; the pairs that pass the test are set one by one. *)
Fixpoint set_all (mi : MasterIndex) (a : AssociatedSet) (keep : BlobHandle -> result bool) (pairs : list (BlobHandle * T))
    (res : AssociatedSet) : result AssociatedSet :=
  match pairs with
  | [] => Ok res
  | (bh, _) :: pairs =>
      let! k := keep bh in
      if k : bool then
        let! val := Get mi a bh in
        let! res := Set_ mi res bh (default zero val) in
        set_all mi a keep pairs res
      else set_all mi a keep pairs res
  end.

Definition Intersect (mi : MasterIndex) (a : AssociatedSet) (other : BlobHandle -> result bool) : result AssociatedSet :=
  let! res := NewAssociatedSet mi in
  let! pairs := All mi a in
  set_all mi a other pairs res.

Definition Sub (mi : MasterIndex) (a : AssociatedSet) (other : BlobHandle -> result bool) : result AssociatedSet :=
  let! res := NewAssociatedSet mi in
  let! pairs := All mi a in
  set_all mi a (fun bh => let! b := other bh in Ok (negb b)) pairs res.

End Set_.
Arguments AssociatedSet T : clear implicits.

(** ** The set is a map *)

Module AssociatedTheory.
Import IndexTheory IndexProps MasterTheory.

Section Theory.
Context {T : Type} (zero : T).

(** The index of a blob in the arrays of its type, if it has a place there. *)
Definition place (bs : Z -> list PackedBlob) (s : associatedSetSub) (bh : BlobHandle) : option nat :=
  match first_index bh (bs (bh_Type bh)) with
  | Some i => if zlen (@sub_value T s) <=? i then None else Some (Z.to_nat i)
  | None => None
  end.

Record well_formed (bs : Z -> list PackedBlob) (a : AssociatedSet T) : Prop := {
  wf_three : length (as_byType a) = 3%nat;
  wf_subs : forall t s, type_ok t -> sub_of a t = Ok s ->
    length (sub_isSet s) = length (sub_value s) /\ zlen (sub_value s) <= zlen (bs t) + 1;
  wf_overflow : forall bh v, as_overflow a !! bh = Some v -> type_ok (bh_Type bh)
    /\ forall s, sub_of a (bh_Type bh) = Ok s -> place bs s bh = None }.

Definition value_in (bs : Z -> list PackedBlob) (s : associatedSetSub) (bh : BlobHandle) : option T :=
  match place bs s bh with
  | Some i => if default false (sub_isSet s !! i) then sub_value s !! i else None
  | None => None
  end.

(** The value the set has for a blob. *)
Definition value_at (bs : Z -> list PackedBlob) (a : AssociatedSet T) (bh : BlobHandle) : option T :=
  match as_overflow a !! bh with
  | Some v => Some v
  | None => match sub_of a (bh_Type bh) with Ok s => value_in bs s bh | Err _ => None end
  end.

Lemma first_index_range bh pbs i : first_index bh pbs = Some i -> 1 <= i <= zlen pbs.
Proof.
  revert i. induction pbs as [|pb pbs IH]; intros i; [done|]. cbn. rewrite zlen_cons. pose proof (zlen_nonneg pbs).
  destruct (first_index bh pbs) as [j|]; [intros [= <-]; specialize (IH j eq_refl); lia|].
  case_bool_decide; [intros [= <-]; lia|done].
Qed.

(** The blob at an index is a blob of the handle. *)
Lemma first_index_handle bh pbs i :
  first_index bh pbs = Some i -> exists pb, rev pbs !! Z.to_nat (i - 1) = Some pb /\ b_handle (pb_Blob pb) = bh.
Proof.
  revert i. induction pbs as [|pb pbs IH]; intros i; [done|]. cbn. destruct (first_index bh pbs) as [j|] eqn:E.
  - intros [= <-]. destruct (IH j eq_refl) as (pb' & L & H). exists pb'. split; [|done]. by apply lookup_app_l_Some.
  - case_bool_decide; [|done]. intros [= <-]. exists pb. split; [|done]. rewrite Z.add_simpl_r.
    apply list_lookup_middle. unfold zlen. rewrite length_rev. lia.
Qed.

Lemma first_index_inj bh bh' pbs i : first_index bh pbs = Some i -> first_index bh' pbs = Some i -> bh = bh'.
Proof.
  intros (pb & L & <-)%first_index_handle (pb' & L' & <-)%first_index_handle. congruence.
Qed.

Lemma first_index_grown bh fresh pbs :
  first_index bh pbs = None ->
  first_index bh (fresh ++ pbs) = None \/ exists i, first_index bh (fresh ++ pbs) = Some i /\ zlen pbs < i.
Proof.
  intros E. induction fresh as [|pb fresh IH]; [by left|]. cbn. destruct IH as [->|(i & -> & L)]; [|right; by exists i].
  case_bool_decide; [right|by left]. eexists. split; [done|]. rewrite zlen_app. pose proof (zlen_nonneg fresh). lia.
Qed.

(** Growth of the index moves no blob into or out of the arrays. *)
Lemma place_grown bs bs' s bh :
  (exists fresh, forall t, bs' t = fresh t ++ bs t) -> zlen (sub_value s) <= zlen (bs (bh_Type bh)) + 1 ->
  place bs' s bh = place bs s bh.
Proof.
  intros [fresh G] L. unfold place. rewrite G. destruct (first_index bh (bs (bh_Type bh))) as [i|] eqn:E.
  - by rewrite (first_index_suffix _ _ _ _ E).
  - destruct (first_index_grown bh (fresh (bh_Type bh)) _ E) as [->|(i & -> & Li)]; [done|].
    by rewrite (proj2 (Z.leb_le _ _)) by lia.
Qed.

Lemma well_formed_grown bs bs' a :
  (exists fresh, forall t, bs' t = fresh t ++ bs t) -> well_formed bs a ->
  well_formed bs' a /\ forall bh, type_ok (bh_Type bh) -> value_at bs' a bh = value_at bs a bh.
Proof.
  intros G [W3 Ws Wo]. split.
  - split; [done| |].
    + intros t s Ty E. destruct (Ws t s Ty E) as [L1 L2]. split; [done|]. destruct G as [fresh G]. rewrite G, zlen_app.
      pose proof (zlen_nonneg (fresh t)). lia.
    + intros bh v E. destruct (Wo bh v E) as [Ty P]. split; [done|]. intros s Es. rewrite <- (P s Es).
      apply place_grown; [done|]. by apply (Ws _ _ Ty Es).
  - intros bh Ty. unfold value_at, value_in. destruct (as_overflow a !! bh); [done|].
    destruct (sub_of a (bh_Type bh)) as [s|] eqn:Es; [|done]. rewrite (place_grown bs bs' s bh G); [done|].
    by apply (Ws _ _ Ty Es).
Qed.

Lemma sub_of_some a t : length (as_byType a) = 3%nat -> type_ok t -> exists s, @sub_of T a t = Ok s.
Proof.
  intros L [T1 T2]. unfold sub_of. rewrite (proj2 (Z.ltb_ge _ _)) by done. cbn [guard rbind].
  destruct (lookup_lt_is_Some_2 (as_byType a) (Z.to_nat t)) as [s ->]; [unfold NumBlobTypes in *; lia|]. by exists s.
Qed.

Lemma sub_of_set a t s t' :
  length (as_byType a) = 3%nat -> type_ok t -> type_ok t' ->
  @sub_of T (a <| as_byType := <[Z.to_nat t := s]> (as_byType a) |>) t' = if t' =? t then Ok s else sub_of a t'.
Proof.
  intros L [T1 T2] [T3 T4]. unfold sub_of, NumBlobTypes in *.
  change (as_byType (_ <| as_byType := ?l |>)) with l. rewrite (proj2 (Z.ltb_ge _ _)) by done. cbn [guard rbind].
  destruct (Z.eqb_spec t' t) as [->|N]; [by rewrite list_lookup_insert_eq by lia|by rewrite list_lookup_insert_ne by lia].
Qed.

(** The arrays are asked for the place. *)
Lemma blobIndex_spec mi bss bs bh :
  master mi bss -> head bss = Some bs -> type_ok (bh_Type bh) ->
  blobIndex mi bh = Ok (default (-1) (first_index bh (bs (bh_Type bh)))).
Proof.
  intros [(main & rest & E & _) F] Hd Ty. unfold blobIndex. rewrite E in *.
  apply Forall2_cons_inv_l in F as (b & bss' & R & _ & ->). injection Hd as ->.
  by apply BlobIndex_spec; [apply reachable_indexes|].
Qed.

Lemma outside_place bs (s : @associatedSetSub T) bh :
  ((zlen (sub_value s) <=? default (-1) (first_index bh (bs (bh_Type bh))))
   || (default (-1) (first_index bh (bs (bh_Type bh))) =? -1)) = match place bs s bh with Some _ => false | None => true end.
Proof.
  unfold place. destruct (first_index bh (bs (bh_Type bh))) as [i|] eqn:E; cbn [from_option id]; [|apply orb_true_r].
  pose proof (first_index_range _ _ _ E). rewrite (proj2 (Z.eqb_neq i (-1))), orb_false_r by lia. by destruct (_ <=? _).
Qed.

Lemma place_index bs (s : @associatedSetSub T) bh i :
  place bs s bh = Some i -> Z.to_nat (default (-1) (first_index bh (bs (bh_Type bh)))) = i /\ (i < length (sub_value s))%nat.
Proof.
  unfold place. destruct (first_index bh (bs (bh_Type bh))) as [j|] eqn:E; [|done].
  pose proof (first_index_range _ _ _ E). destruct (Z.leb_spec (zlen (sub_value s)) j); [done|]. intros [= <-].
  split; [done|]. unfold zlen in *. lia.
Qed.

Lemma place_inj bs (s : @associatedSetSub T) bh bh' i :
  bh_Type bh = bh_Type bh' -> place bs s bh = Some i -> place bs s bh' = Some i -> bh = bh'.
Proof.
  intros Et. unfold place. rewrite <- Et.
  destruct (first_index bh (bs (bh_Type bh))) as [j|] eqn:E; [|done].
  destruct (first_index bh' (bs (bh_Type bh))) as [j'|] eqn:E'; [|done].
  pose proof (first_index_range _ _ _ E). pose proof (first_index_range _ _ _ E').
  destruct (_ <=? j); [done|]. destruct (_ <=? j'); [done|]. intros [= H1] [= H2].
  assert (j = j') as -> by lia. by apply (first_index_inj _ _ _ _ E E').
Qed.

Lemma Get_spec mi bss bs a bh :
  master mi bss -> head bss = Some bs -> well_formed bs a -> type_ok (bh_Type bh) ->
  Get mi a bh = Ok (value_at bs a bh).
Proof.
  intros M Hd W Ty. unfold Get, value_at. destruct (as_overflow a !! bh); [done|].
  rewrite (blobIndex_spec mi bss bs) by done. cbn [rbind].
  destruct (sub_of_some a (bh_Type bh) (wf_three _ _ W) Ty) as [s Es]. rewrite Es. cbn [rbind].
  rewrite outside_place. unfold value_in. destruct (place bs s bh) as [i|] eqn:P; [|done].
  destruct (place_index _ _ _ _ P) as [-> Li]. destruct (wf_subs _ _ W _ _ Ty Es) as [Le _].
  destruct (lookup_lt_is_Some_2 (sub_value s) i Li) as [v Ev], (lookup_lt_is_Some_2 (sub_isSet s) i ltac:(lia)) as [h Eh].
  rewrite Ev, Eh. by destruct h.
Qed.

Lemma place_same bs (s s' : @associatedSetSub T) bh :
  length (sub_value s') = length (sub_value s) -> place bs s' bh = place bs s bh.
Proof. intros L. unfold place, zlen. by rewrite L. Qed.

(** Replacing the arrays of one type by others of the same size. *)
Lemma replace_sub bs a t s s' :
  well_formed bs a -> type_ok t -> sub_of a t = Ok s -> length (sub_value s') = length (sub_value s) ->
  length (sub_isSet s') = length (sub_isSet s) ->
  let a' := a <| as_byType := <[Z.to_nat t := s']> (as_byType a) |> in
  well_formed bs a' /\ forall bh, type_ok (bh_Type bh) ->
    value_at bs a' bh = match as_overflow a !! bh with
                        | Some v => Some v
                        | None => if bh_Type bh =? t then value_in bs s' bh else value_at bs a bh
                        end.
Proof.
  intros [W3 Ws Wo] Ty Es Lv Li a'.
  assert (So : forall t', type_ok t' -> sub_of a' t' = if t' =? t then Ok s' else sub_of a t') by (intros; by apply sub_of_set).
  split.
  - split.
    + change (length (<[Z.to_nat t := s']> (as_byType a)) = 3%nat). by rewrite length_insert.
    + intros t' u Ty' E. rewrite So in E by done. destruct (Z.eqb_spec t' t) as [->|]; [|by apply Ws].
      injection E as <-. destruct (Ws t s Ty Es) as [L1 L2]. unfold zlen in *. rewrite Lv, Li. done.
    + intros bh v E. destruct (Wo bh v E) as [Tb P]. split; [done|]. intros u Eu. rewrite So in Eu by done.
      destruct (Z.eqb_spec (bh_Type bh) t) as [<-|]; [|by apply P]. injection Eu as <-. rewrite (place_same bs s s') by done.
      by apply P.
  - intros bh Tb. unfold value_at. change (as_overflow a') with (as_overflow a). destruct (as_overflow a !! bh); [done|].
    rewrite So by done. by destruct (_ =? _).
Qed.

(** A change of one cell of the arrays is seen by the blob at that place only. *)
Lemma value_in_update bs s s' bh bh' i :
  place bs s bh = Some i -> bh_Type bh' = bh_Type bh -> length (sub_value s') = length (sub_value s) ->
  (forall j, j <> i -> sub_value s' !! j = sub_value s !! j /\ sub_isSet s' !! j = sub_isSet s !! j) -> bh <> bh' ->
  value_in bs s' bh' = value_in bs s bh'.
Proof.
  intros P Et L U N. unfold value_in. rewrite (place_same bs s s') by done.
  destruct (place bs s bh') as [j|] eqn:P'; [|done].
  assert (Nj : j <> i) by (intros ->; by apply N, (place_inj bs s bh bh' i)).
  destruct (U j Nj) as [-> ->]. done.
Qed.

Lemma set_overflow bs a bh v :
  well_formed bs a -> type_ok (bh_Type bh) ->
  (forall s, sub_of a (bh_Type bh) = Ok s -> place bs s bh = None) ->
  let a' := a <| as_overflow := <[bh := v]> (as_overflow a) |> in
  well_formed bs a' /\ forall bh', value_at bs a' bh' = if decide (bh = bh') then Some v else value_at bs a bh'.
Proof.
  intros [W3 Ws Wo] Ty P a'. split.
  - split; [done|done|]. intros bh' v'. change (as_overflow a') with (<[bh := v]> (as_overflow a)).
    destruct (decide (bh = bh')) as [->|N]; [by rewrite lookup_insert_eq|]. rewrite lookup_insert_ne by done. apply Wo.
  - intros bh'. unfold value_at. change (as_overflow a') with (<[bh := v]> (as_overflow a)).
    destruct (decide (bh = bh')) as [->|N]; [by rewrite lookup_insert_eq|by rewrite lookup_insert_ne].
Qed.

Lemma Set_spec mi bss bs a bh v :
  master mi bss -> head bss = Some bs -> well_formed bs a -> type_ok (bh_Type bh) ->
  exists a', Set_ mi a bh v = Ok a' /\ well_formed bs a'
    /\ forall bh', type_ok (bh_Type bh') -> value_at bs a' bh' = if decide (bh = bh') then Some v else value_at bs a bh'.
Proof.
  intros M Hd W Ty. unfold Set_. destruct (as_overflow a !! bh) as [w|] eqn:Ov.
  - eexists. split; [done|]. destruct (wf_overflow _ _ W bh w Ov) as [_ P].
    destruct (set_overflow bs a bh v W Ty P) as [W' V]. split; [exact W'|]. intros bh' _. apply V.
  - rewrite (blobIndex_spec mi bss bs) by done. cbn [rbind].
    destruct (sub_of_some a (bh_Type bh) (wf_three _ _ W) Ty) as [s Es]. rewrite Es. cbn [rbind]. rewrite outside_place.
    destruct (place bs s bh) as [i|] eqn:P.
    + destruct (place_index _ _ _ _ P) as [-> Li]. eexists. split; [done|]. destruct (wf_subs _ _ W _ _ Ty Es) as [Le _].
      set (s' := mkSub _ _). destruct (replace_sub bs a (bh_Type bh) s s' W Ty Es) as [W' V]; [apply length_insert..|].
      split; [exact W'|]. intros bh' Ty'. rewrite V by done. destruct (decide (bh = bh')) as [<-|N].
      * rewrite Ov, Z.eqb_refl. unfold value_in. rewrite (place_same bs s s'), P by apply length_insert. cbn.
        rewrite list_lookup_insert_eq by lia. cbn. by rewrite list_lookup_insert_eq by lia.
      * unfold value_at. destruct (as_overflow a !! bh'); [done|]. destruct (Z.eqb_spec (bh_Type bh') (bh_Type bh)) as [Et|]; [|done].
        rewrite Et, Es. apply (value_in_update bs s s' bh bh' i); [done|done|apply length_insert| |done].
        intros j Nj. cbn. by rewrite !list_lookup_insert_ne by done.
    + eexists. split; [done|]. destruct (set_overflow bs a bh v W Ty) as [W' V].
      { intros u Eu. rewrite Es in Eu. by injection Eu as <-. }
      split; [exact W'|]. intros bh' _. apply V.
Qed.

Lemma Delete_spec mi bss bs a bh :
  master mi bss -> head bss = Some bs -> well_formed bs a -> type_ok (bh_Type bh) ->
  exists a', Delete mi a bh = Ok a' /\ well_formed bs a'
    /\ forall bh', type_ok (bh_Type bh') -> value_at bs a' bh' = if decide (bh = bh') then None else value_at bs a bh'.
Proof.
  intros M Hd W Ty. destruct (sub_of_some a (bh_Type bh) (wf_three _ _ W) Ty) as [s Es].
  unfold Delete. destruct (as_overflow a !! bh) as [w|] eqn:Ov.
  - eexists. split; [done|]. destruct W as [W3 Ws Wo]. destruct (Wo bh w Ov) as [_ P]. split.
    + split; [done|done|]. intros bh' v'. change (as_overflow (_ <| as_overflow := ?o |>)) with o.
      rewrite lookup_delete_Some. intros [_ E]. by apply (Wo bh' v').
    + intros bh' _. unfold value_at. change (as_overflow (_ <| as_overflow := ?o |>)) with o.
      change (sub_of (_ <| as_overflow := _ |>)) with (sub_of a). destruct (decide (bh = bh')) as [<-|N].
      * rewrite lookup_delete_eq, Es. unfold value_in. by rewrite (P s Es).
      * by rewrite lookup_delete_ne.
  - rewrite (blobIndex_spec mi bss bs) by done. cbn [rbind]. rewrite Es. cbn [rbind].
    set (idx := default (-1) (first_index bh (bs (bh_Type bh)))).
    assert (Q : (idx <? zlen (sub_value s)) && negb (idx =? -1) = match place bs s bh with Some _ => true | None => false end).
    { pose proof (outside_place bs s bh) as O. fold idx in O. rewrite Z.ltb_antisym, <- negb_orb, O. by destruct (place bs s bh). }
    rewrite Q. destruct (place bs s bh) as [i|] eqn:P.
    + destruct (place_index _ _ _ _ P) as [Ei Li]. fold idx in Ei. rewrite Ei. eexists. split; [done|].
      destruct (wf_subs _ _ W _ _ Ty Es) as [Le _]. set (s' := mkSub _ _).
      destruct (replace_sub bs a (bh_Type bh) s s' W Ty Es) as [W' V]; [done|apply length_insert|].
      split; [exact W'|]. intros bh' Ty'. rewrite V by done. destruct (decide (bh = bh')) as [<-|N].
      * rewrite Ov, Z.eqb_refl. unfold value_in. rewrite (place_same bs s s'), P by done. cbn.
        by rewrite list_lookup_insert_eq by lia.
      * unfold value_at. destruct (as_overflow a !! bh'); [done|]. destruct (Z.eqb_spec (bh_Type bh') (bh_Type bh)) as [Et|]; [|done].
        rewrite Et, Es. apply (value_in_update bs s s' bh bh' i); [done|done|done| |done].
        intros j Nj. cbn. by rewrite !list_lookup_insert_ne by done.
    + eexists. split; [done|]. split; [done|]. intros bh' _. destruct (decide (bh = bh')) as [<-|N]; [|done].
      unfold value_at, value_in. by rewrite Ov, Es, P.
Qed.

Lemma New_spec mi bss bs :
  master mi bss -> head bss = Some bs ->
  exists a, NewAssociatedSet zero mi = Ok a /\ well_formed bs a
    /\ forall bh, type_ok (bh_Type bh) -> value_at bs a bh = None.
Proof.
  intros [(main & rest & E & _) F] Hd. rewrite E in F. apply Forall2_cons_inv_l in F as (b & bss' & R & _ & ->).
  injection Hd as ->. pose proof (reachable_indexes _ _ R) as I.
  assert (St : forall t, type_ok t -> stableLen mi t = Ok (zlen (bs t))).
  { intros t Ty. unfold stableLen. rewrite E. by apply Len_spec. }
  unfold NewAssociatedSet, new_sub. cbn [Z.eqb rbind]. rewrite !St by done. cbn [rbind]. eexists. split; [done|].
  assert (G : forall t s, type_ok t -> @sub_of T (mkSet [mkSub [] []; mkSub (repeat zero (Z.to_nat (zlen (bs 1) + 1))) (repeat false (Z.to_nat (zlen (bs 1) + 1)));
      mkSub (repeat zero (Z.to_nat (zlen (bs 2) + 1))) (repeat false (Z.to_nat (zlen (bs 2) + 1)))] ∅) t = Ok s ->
    exists n, s = mkSub (repeat zero n) (repeat false n) /\ Z.of_nat n <= zlen (bs t) + 1).
  { intros t s [T1 T2] Es. unfold NumBlobTypes in T2. pose proof (zlen_nonneg (bs t)).
    assert (t = 0 \/ t = 1 \/ t = 2) as [->|[->| ->]] by lia; injection Es as <-.
    - exists 0%nat. split; [done|lia].
    - eexists. split; [done|lia].
    - eexists. split; [done|lia]. }
  split.
  - split; [done| |done]. intros t s Ty Es. destruct (G t s Ty Es) as (n & -> & L). cbn. unfold zlen. rewrite !repeat_length. done.
  - intros bh Ty. unfold value_at. cbn [as_overflow]. rewrite lookup_empty. destruct (sub_of _ _) as [s|] eqn:Es; [|done].
    destruct (G _ s Ty Es) as (n & -> & _). unfold value_in. destruct (place _ _ _) as [i|]; [|done]. cbn.
    destruct (repeat false n !! i) as [b|] eqn:Eb; [|done].
    apply list_elem_of_lookup_2, list_elem_of_In, repeat_spec in Eb. by subst.
Qed.

(** ** Enumeration *)

Lemma values_in_spec idxs bss :
  Forall2 reachable idxs bss ->
  exists pbs, values_in idxs = Ok pbs /\ forall pb, pb ∈ pbs <-> exists bs t, bs ∈ bss /\ type_ok t /\ pb ∈ bs t.
Proof.
  induction 1 as [|idx bs idxs bss R _ (pbs & E & G)].
  - exists []. split; [done|]. intros pb. split; [by intros ?%elem_of_nil|by intros (? & ? & ?%elem_of_nil & _)].
  - cbn [values_in]. rewrite (Values_spec idx bs (reachable_indexes _ _ R)), E. cbn [rbind]. eexists. split; [done|].
    intros pb. rewrite elem_of_app, values_elem, G. split.
    + intros [(t & Ty & H)|(b & t & Hb & Ty & H)]; [exists bs, t|exists b, t]; rewrite elem_of_cons; tauto.
    + intros (b & t & [->|Hb]%elem_of_cons & Ty & H); [left; by exists t|right; by exists b, t].
Qed.

Lemma known_pairs_spec mi bss bs a pbs :
  master mi bss -> head bss = Some bs -> well_formed bs a ->
  Forall (fun pb => type_ok (bh_Type (b_handle (pb_Blob pb)))) pbs ->
  exists pairs, known_pairs mi a pbs = Ok pairs /\ forall bh v, (bh, v) ∈ pairs <->
    as_overflow a !! bh = None /\ value_at bs a bh = Some v /\ exists pb, pb ∈ pbs /\ b_handle (pb_Blob pb) = bh.
Proof.
  intros M Hd W. induction 1 as [|pb pbs Ty _ (pairs & E & G)].
  - exists []. split; [done|]. intros bh v. split; [by intros ?%elem_of_nil|by intros (_ & _ & ? & ?%elem_of_nil & _)].
  - cbn [known_pairs]. destruct (as_overflow a !! b_handle (pb_Blob pb)) as [w|] eqn:Ov.
    + exists pairs. split; [done|]. intros bh v. rewrite G. split; intros (O & V & p & Hp & Eh); do 2 (split; [done|]); exists p.
      * split; [by apply list_elem_of_further|done].
      * apply elem_of_cons in Hp as [->|Hp]; [congruence|done].
    + rewrite (Get_spec mi bss bs a) by done. cbn [rbind]. rewrite E. cbn [rbind].
      destruct (value_at bs a (b_handle (pb_Blob pb))) as [val|] eqn:V0; eexists; (split; [done|]); intros bh v.
      * rewrite elem_of_cons, G. split.
        -- intros [[= -> ->]|(O & V & p & Hp & Eh)]; (split; [done|split; [done|]]);
             [exists pb; split; [apply list_elem_of_here|done]|exists p; split; [by apply list_elem_of_further|done]].
        -- intros (O & V & p & Hp & Eh). apply elem_of_cons in Hp as [->|Hp]; [left; subst; congruence|right].
           do 2 (split; [done|]). by exists p.
      * rewrite G. split; intros (O & V & p & Hp & Eh); do 2 (split; [done|]); exists p.
        -- split; [by apply list_elem_of_further|done].
        -- apply elem_of_cons in Hp as [->|Hp]; [subst; congruence|done].
Qed.

Lemma All_spec mi bss bs a :
  master mi bss -> head bss = Some bs -> well_formed bs a ->
  exists all, All mi a = Ok all /\ forall bh v, (bh, v) ∈ all <-> type_ok (bh_Type bh) /\ value_at bs a bh = Some v.
Proof.
  intros M Hd W. destruct (values_in_spec (mi_idx mi) bss) as (pbs & E & G); [apply M|].
  assert (Tp : forall pb, pb ∈ pbs -> type_ok (bh_Type (b_handle (pb_Blob pb)))).
  { intros pb (b & t & Hb & Ty & H)%G. destruct M as [_ F]. apply list_elem_of_lookup in Hb as [i Hi].
    destruct (Forall2_lookup_r _ _ _ _ _ F Hi) as (idx & _ & R).
    by rewrite (indexes_type idx b t pb (reachable_indexes _ _ R) Ty H). }
  destruct (known_pairs_spec mi bss bs a pbs M Hd W) as (pairs & Ep & Gp); [by apply Forall_forall|].
  unfold All, MasterValues. rewrite E. cbn [rbind]. rewrite Ep. cbn [rbind]. eexists. split; [done|].
  intros bh v. rewrite elem_of_app, elem_of_map_to_list, Gp. split.
  - intros [O|(O & V & p & Hp & <-)]; [|split; [by apply Tp|done]].
    split; [by apply (wf_overflow _ _ W bh v)|]. unfold value_at. by rewrite O.
  - intros [Ty V]. destruct (as_overflow a !! bh) as [w|] eqn:O; [left; unfold value_at in V; rewrite O in V; congruence|].
    right. split; [done|]. split; [done|]. unfold value_at in V. rewrite O in V.
    destruct (sub_of a (bh_Type bh)) as [s|]; [|done]. unfold value_in, place in V.
    destruct (first_index bh (bs (bh_Type bh))) as [i|] eqn:Ei; [|done].
    destruct (first_index_handle _ _ _ Ei) as (pb & L & Eh). exists pb. split; [|done]. apply G.
    exists bs, (bh_Type bh). split; [|split; [done|]].
    + destruct bss as [|b bss]; [done|]. injection Hd as ->. apply list_elem_of_here.
    + apply list_elem_of_lookup_2 in L. by rewrite elem_of_rev in L.
Qed.

Lemma set_all_spec mi bss bs a keep (k : BlobHandle -> bool) pairs res :
  master mi bss -> head bss = Some bs -> well_formed bs a -> well_formed bs res ->
  (forall bh, type_ok (bh_Type bh) -> keep bh = Ok (k bh)) ->
  Forall (fun '(bh, v) => type_ok (bh_Type bh) /\ value_at bs a bh = Some v) pairs ->
  exists res', set_all zero mi a keep pairs res = Ok res' /\ well_formed bs res'
    /\ forall bh, type_ok (bh_Type bh) -> value_at bs res' bh =
       if bool_decide (bh ∈ map fst pairs) && k bh then value_at bs a bh else value_at bs res bh.
Proof.
  intros M Hd W Wr K F. revert res Wr. induction F as [|[bh v] pairs [Ty V] _ IH]; intros res Wr; [by exists res|].
  cbn [set_all]. rewrite (K bh Ty). cbn [rbind map fst]. destruct (k bh) eqn:Kb.
  - rewrite (Get_spec mi bss bs a) by done. cbn [rbind]. rewrite V. cbn [default].
    destruct (Set_spec mi bss bs res bh v M Hd Wr Ty) as (res1 & E1 & W1 & V1). cbn. rewrite E1. cbn [rbind].
    destruct (IH res1 W1) as (res2 & E2 & W2 & V2). exists res2. split; [done|]. split; [done|]. intros bh' Ty'.
    rewrite V2, V1 by done. destruct (decide (bh = bh')) as [<-|N].
    + rewrite (bool_decide_eq_true_2 (bh ∈ bh :: _)) by apply list_elem_of_here. rewrite Kb. cbn. rewrite V. by destruct (_ && _).
    + rewrite (bool_decide_ext (bh' ∈ bh :: map fst pairs) (bh' ∈ map fst pairs)); [done|].
      rewrite elem_of_cons. split; [by intros [->|]|by right].
  - destruct (IH res Wr) as (res2 & E2 & W2 & V2). exists res2. split; [done|]. split; [done|]. intros bh' Ty'.
    rewrite V2 by done. destruct (decide (bh = bh')) as [<-|N]; [by rewrite Kb, !andb_false_r|].
    rewrite (bool_decide_ext (bh' ∈ bh :: map fst pairs) (bh' ∈ map fst pairs)); [done|].
    rewrite elem_of_cons. split; [by intros [->|]|by right].
Qed.
End Theory.
End AssociatedTheory.

(** ** Properties *)

Module AssociatedProps.
Import IndexTheory IndexProps MasterTheory MasterProps AssociatedTheory.

Section Props.
Context {T : Type} (zero : T).

(** Operations on a set, on the map it stands for, and on the index under it. *)
Inductive s_step : MasterIndex * AssociatedSet T * gmap BlobHandle T -> MasterIndex * AssociatedSet T * gmap BlobHandle T -> Prop :=
| s_set mi a f bh v a' : type_ok (bh_Type bh) -> Set_ mi a bh v = Ok a' -> s_step (mi, a, f) (mi, a', <[bh := v]> f)
| s_delete mi a f bh a' : type_ok (bh_Type bh) -> Delete mi a bh = Ok a' -> s_step (mi, a, f) (mi, a', delete bh f)
| s_index mi a f mi' : m_step mi mi' -> s_step (mi, a, f) (mi', a, f).

(** The set stands for the map. *)
Definition stands_for (st : MasterIndex * AssociatedSet T * gmap BlobHandle T) : Prop :=
  let '(mi, a, f) := st in
  exists bss bs, master mi bss /\ head bss = Some bs /\ well_formed bs a
    /\ (forall bh, type_ok (bh_Type bh) -> value_at bs a bh = f !! bh)
    /\ forall bh, ~ type_ok (bh_Type bh) -> f !! bh = None.

Lemma s_step_stands st st' : stands_for st -> s_step st st' -> stands_for st'.
Proof.
  intros St S. destruct S as [mi a f bh v a' Ty E|mi a f bh a' Ty E|mi a f mi' S];
    destruct St as (bss & bs & M & Hd & W & V & N).
  - destruct (Set_spec mi bss bs a bh v M Hd W Ty) as (a1 & E1 & W1 & V1). rewrite E in E1. injection E1 as <-.
    exists bss, bs. do 3 (split; [done|]). split.
    + intros bh' Ty'. rewrite V1 by done. destruct (decide (bh = bh')) as [<-|];
        [by rewrite lookup_insert_eq|rewrite lookup_insert_ne by done; by apply V].
    + intros bh' Nt. rewrite lookup_insert_ne; [by apply N|]. by intros ->.
  - destruct (Delete_spec mi bss bs a bh M Hd W Ty) as (a1 & E1 & W1 & V1). rewrite E in E1. injection E1 as <-.
    exists bss, bs. do 3 (split; [done|]). split.
    + intros bh' Ty'. rewrite V1 by done. destruct (decide (bh = bh')) as [<-|];
        [by rewrite lookup_delete_eq|rewrite lookup_delete_ne by done; by apply V].
    + intros bh' Nt. rewrite lookup_delete_ne; [by apply N|]. by intros ->.
  - destruct (m_step_known _ _ _ M S) as (bss' & M' & G & _). pose proof (master_head _ _ M').
    destruct (head bss') as [bs'|] eqn:Hd'; [|done].
    destruct (well_formed_grown bs bs' a (G bs bs' Hd Hd') W) as [W' V']. exists bss', bs'. do 3 (split; [done|]).
    split; [|done]. intros bh Ty. rewrite V' by done. by apply V.
Qed.

Lemma s_steps_stand st st' : stands_for st -> rtc s_step st st' -> stands_for st'.
Proof. intros St S. induction S as [|st st1 st' S1 _ IH]; [done|]. by eapply IH, s_step_stands. Qed.

Lemma new_stands mi now hash :
  rtc m_step (NewMasterIndex now hash) mi -> exists a, NewAssociatedSet zero mi = Ok a /\ stands_for (mi, a, ∅).
Proof.
  intros S. destruct (m_steps_known _ _ _ (new_master now hash) S) as (bss & M & _ & _). pose proof (master_head _ _ M).
  destruct (head bss) as [bs|] eqn:Hd; [|done]. destruct (New_spec zero mi bss bs M Hd) as (a & E & W & V).
  exists a. split; [done|]. exists bss, bs. do 3 (split; [done|]). split; [|done]. intros bh Ty. by rewrite lookup_empty, V.
Qed.

(** An associated set refines a map from blob handles to values: after any
    interleaving of [Set] and [Delete] with operations that change the index under
    it (new packs, saved and merged indexes), [Get] returns exactly the value of the
    map, [All] yields exactly its pairs, and no operation panics. *)
Theorem AssociatedSet_refines (mi0 mi : MasterIndex) (a0 a : AssociatedSet T) (f : gmap BlobHandle T)
    (now : Z) (hash : Z -> ID -> Z) :
  rtc m_step (NewMasterIndex now hash) mi0 -> NewAssociatedSet zero mi0 = Ok a0 ->
  rtc s_step (mi0, a0, ∅) (mi, a, f) ->
  (forall bh, type_ok (bh_Type bh) -> Get mi a bh = Ok (f !! bh)
     /\ (forall v, is_ok (Set_ mi a bh v) = true) /\ is_ok (Delete mi a bh) = true)
  /\ exists all, All mi a = Ok all /\ forall bh v, (bh, v) ∈ all <-> f !! bh = Some v.
Proof.
  intros S0 E0 S. destruct (new_stands mi0 now hash S0) as (a1 & E1 & St0). rewrite E0 in E1. injection E1 as <-.
  destruct (s_steps_stand _ _ St0 S) as (bss & bs & M & Hd & W & V & N). split.
  - intros bh Ty. split; [by rewrite (Get_spec mi bss bs a bh M Hd W Ty), V|]. split.
    + intros v. apply is_ok_spec. destruct (Set_spec mi bss bs a bh v M Hd W Ty) as (a' & E & _). by exists a'.
    + apply is_ok_spec. destruct (Delete_spec mi bss bs a bh M Hd W Ty) as (a' & E & _). by exists a'.
  - destruct (All_spec mi bss bs a M Hd W) as (all & E & G). exists all. split; [done|]. intros bh v. rewrite G. split.
    + intros [Ty H]. by rewrite <- V.
    + intros H. destruct (decide (0 <= bh_Type bh < NumBlobTypes)) as [Ty|Nt]; [|by rewrite N in H]. by rewrite V.
Qed.

(** [Intersect] and [Sub] are the set operations: the new set has the values of
    the old one for the handles that are, or are not, in the other set. *)
Theorem AssociatedSet_intersect_sub (mi0 mi : MasterIndex) (a0 a : AssociatedSet T) (f : gmap BlobHandle T)
    (other : BlobHandle -> bool) (now : Z) (hash : Z -> ID -> Z) :
  rtc m_step (NewMasterIndex now hash) mi0 -> NewAssociatedSet zero mi0 = Ok a0 ->
  rtc s_step (mi0, a0, ∅) (mi, a, f) ->
  exists both without,
    Intersect zero mi a (fun bh => Ok (other bh)) = Ok both /\ Sub zero mi a (fun bh => Ok (other bh)) = Ok without
    /\ forall bh, type_ok (bh_Type bh) ->
       Get mi both bh = Ok (if other bh then f !! bh else None)
       /\ Get mi without bh = Ok (if other bh then None else f !! bh).
Proof.
  intros S0 E0 S. destruct (new_stands mi0 now hash S0) as (a1 & E1 & St0). rewrite E0 in E1. injection E1 as <-.
  destruct (s_steps_stand _ _ St0 S) as (bss & bs & M & Hd & W & V & N).
  destruct (New_spec zero mi bss bs M Hd) as (r & Er & Wr & Vr).
  destruct (All_spec mi bss bs a M Hd W) as (all & Ea & G).
  assert (F : Forall (fun '(bh, v) => type_ok (bh_Type bh) /\ value_at bs a bh = Some v) all).
  { apply Forall_forall. intros [bh v] H. by apply G. }
  assert (In : forall bh, type_ok (bh_Type bh) -> bool_decide (bh ∈ map fst all) = bool_decide (is_Some (f !! bh))).
  { intros bh Ty. apply bool_decide_ext. rewrite list_elem_of_In, in_map_iff. split.
    - intros ([b v] & <- & H). apply list_elem_of_In, G in H as [_ H]. rewrite <- V by done. by exists v.
    - intros [v H]. exists (bh, v). split; [done|]. apply list_elem_of_In, G. by rewrite V. }
  destruct (set_all_spec zero mi bss bs a (fun bh => Ok (other bh)) other all r M Hd W Wr) as (both & Eb & Wb & Vb); [done..|].
  destruct (set_all_spec zero mi bss bs a (fun bh => let! b := Ok (other bh) in Ok (negb b)) (fun bh => negb (other bh)) all r M Hd W Wr)
    as (without & Ew & Ww & Vw); [done..|].
  exists both, without. unfold Intersect, Sub. rewrite Er, Ea. cbn [rbind] in *. do 2 (split; [done|]).
  intros bh Ty. rewrite !(Get_spec mi bss bs) by done. rewrite Vb, Vw, Vr, In, V by done.
  split; f_equal; destruct (other bh), (f !! bh); done.
Qed.
End Props.

(** A blob stored in two packs, its index saved and merged. *)
Definition two_packs : MasterIndex :=
  match storePack master_stored (repeat x0b 32) [sample_blob 1 DataBlob 0] 0 sample_hash with
  | Ok mi => match saveIndex sample_save (fst (finalizeNotFinalIndexes mi)) [1%nat] with Ok (mi, _) => mi | Err _ => sample_master end
  | Err _ => sample_master
  end.
Definition set_of (mi : MasterIndex) : AssociatedSet Z :=
  match NewAssociatedSet 0 mi with
  | Ok a => match Set_ mi a sample_handle 5 with Ok a => a | Err _ => a end
  | Err _ => mkSet [] ∅
  end.
Definition empty_set (mi : MasterIndex) : AssociatedSet Z :=
  match NewAssociatedSet 0 mi with Ok a => a | Err _ => mkSet [] ∅ end.

Lemma stored_steps : rtc m_step sample_master master_stored.
Proof.
  etrans; [exact pending_step|]. apply rtc_once.
  apply (step_store _ (repeat x0a 32) [sample_blob 1 DataBlob 0; sample_blob 2 TreeBlob 40] 0 sample_hash master_stored).
  vm_compute. reflexivity.
Qed.

Lemma two_packs_steps : rtc m_step sample_master two_packs.
Proof.
  etrans; [exact stored_steps|].
  eapply rtc_l; [eapply (step_store _ (repeat x0b 32) [sample_blob 1 DataBlob 0] 0 sample_hash); vm_compute; reflexivity|].
  eapply rtc_l; [apply (step_finalize _ (fun _ => true))|].
  apply rtc_once. apply (step_save _ sample_save [1%nat] _ None). vm_compute. reflexivity.
Qed.

Lemma AssociatedSet_refines_witness :
  Get master_saved (set_of master_pending) sample_handle = Ok (Some 5)
  /\ exists all, All master_saved (set_of master_pending) = Ok all
     /\ forall bh v, (bh, v) ∈ all <-> (<[sample_handle := 5]> ∅ : gmap BlobHandle Z) !! bh = Some v.
Proof.
  destruct (AssociatedSet_refines 0 master_pending master_saved (empty_set master_pending) (set_of master_pending)
    (<[sample_handle := 5]> ∅) 0 sample_hash) as [G A].
  - exact pending_step.
  - vm_compute. reflexivity.
  - eapply rtc_l; [apply (s_set _ _ _ sample_handle 5 (set_of master_pending)); [by split|vm_compute; reflexivity]|].
    assert (L : forall mi mi', rtc m_step mi mi' ->
      rtc s_step (mi, set_of master_pending, <[sample_handle := 5]> ∅) (mi', set_of master_pending, <[sample_handle := 5]> ∅)).
    { induction 1 as [|mi mi1 mi' S1 _ IH]; [apply rtc_refl|]. eapply rtc_l; [by apply s_index|exact IH]. }
    apply L. exact sample_steps.
  - split; [|exact A]. exact (proj1 (G sample_handle ltac:(by split))).
Defined.

Lemma AssociatedSet_intersect_sub_witness :
  exists both without,
    Intersect 0 two_packs (set_of two_packs) (fun bh => Ok (bool_decide (bh = sample_handle))) = Ok both
    /\ Sub 0 two_packs (set_of two_packs) (fun bh => Ok (bool_decide (bh = sample_handle))) = Ok without
    /\ forall bh, type_ok (bh_Type bh) ->
       Get two_packs both bh = Ok (if bool_decide (bh = sample_handle) then (<[sample_handle := 5]> ∅ : gmap BlobHandle Z) !! bh else None)
       /\ Get two_packs without bh = Ok (if bool_decide (bh = sample_handle) then None else (<[sample_handle := 5]> ∅ : gmap BlobHandle Z) !! bh).
Proof.
  apply (AssociatedSet_intersect_sub 0 two_packs two_packs (empty_set two_packs) (set_of two_packs) (<[sample_handle := 5]> ∅)
    (fun bh => bool_decide (bh = sample_handle)) 0 sample_hash).
  - exact two_packs_steps.
  - vm_compute. reflexivity.
  - apply rtc_once. apply s_set; [by split|]. vm_compute. reflexivity.
Defined.

(** [Len] counts index entries, not blobs: with a blob stored in two packs of the
    first index, a set that holds this one blob reports a length of two. *)
Theorem AssociatedLen_duplicates :
  rtc m_step (NewMasterIndex 0 sample_hash) two_packs
  /\ rtc s_step (two_packs, empty_set two_packs, ∅) (two_packs, set_of two_packs, {[sample_handle := 5]})
  /\ AssociatedLen two_packs (set_of two_packs) = Ok 2.
Proof.
  split; [exact two_packs_steps|]. split; [|vm_compute; reflexivity].
  apply rtc_once. apply s_set; [by split|]. vm_compute. reflexivity.
Qed.
End AssociatedProps.
