(* ===== verification/PackSizer.v ===== *)
(** * Sizes of new packs ([internal/repository/pack_sizer.go])

    The target size of a pack grows with the square root of the size of the repository.
    Newton's iteration on 64-bit integers is shown to end and to give the integer square
    root, for every 64-bit value; the target never exceeds its limits. *)
From stdpp Require Import base list numbers strings.
From Stdlib Require Import ZArith Lia.
From S2P Require Import Prelude Codec.

Definition MaxPackSize : Z := 4 * 1024 * 1024 * 1024.

(** [for value != 0 { length++; value >>= 1 }]; [None] when the fuel does not suffice. *)
Fixpoint bitLength64_loop (fuel : nat) (value length : Z) : option Z :=
  if value =? 0 then Some length
  else match fuel with
       | O => None
       | S fuel => bitLength64_loop fuel (Z.shiftr value 1) (wrap_u 64 (length + 1))
       end.

Definition bitLength64 (value : Z) : option Z := bitLength64_loop 64 value 0.

(** [(root + value/root) / 2] *)
Definition newton (root value : Z) : Z := wrap_u 64 (root + value / root) / 2.

Fixpoint integerSqrt_loop (fuel : nat) (root value : Z) : option Z :=
  let next := newton root value in
  if next <? root
  then match fuel with
       | O => None
       | S fuel => integerSqrt_loop fuel next value
       end
  else Some root.

(** 34 iterations are enough: the distance to the root is halved in each. *)
Definition integerSqrt (value : Z) : option Z :=
  if value =? 0 then Some 0
  else
    match bitLength64 value with
    | None => None
    | Some bits => integerSqrt_loop 34 (wrap_u 64 (Z.shiftl 1 ((bits + 1) / 2))) value
    end.

Record packSizer := mkPackSizer { defaultSize : Z; growFactor : Z; sizeLimit : Z; currentSize : Z }.

Definition newPackSizer (defaultSize growFactor sizeLimit currentSize : Z) : packSizer :=
  let sizeLimit := if (sizeLimit =? 0) || (MaxPackSize <? sizeLimit) then MaxPackSize else sizeLimit in
  mkPackSizer defaultSize growFactor sizeLimit currentSize.

(** [^uint64(0)] *)
Definition MaxUint64 : Z := 2 ^ 64 - 1.

Definition target (s : packSizer) : option Z :=
  let cap := fun target =>
    let target := if sizeLimit s <? target then sizeLimit s else target in
    if MaxPackSize <? target then MaxPackSize else target in
  if negb (growFactor s =? 0) then
    match integerSqrt (currentSize s) with
    | None => None
    | Some root =>
        let growth := wrap_u 64 (root * growFactor s) in
        Some (cap (if MaxUint64 - defaultSize s <? growth then MaxUint64 else wrap_u 64 (defaultSize s + growth)))
    end
  else Some (cap (defaultSize s)).

(** ** Theory *)

Module PackSizerTheory.

Lemma bitLength64_loop_spec fuel value len :
  0 <= value < 2 ^ Z.of_nat fuel -> 0 <= len -> len + Z.of_nat fuel < 2 ^ 64 ->
  bitLength64_loop fuel value len = Some (if value =? 0 then len else len + Z.log2 value + 1).
Proof.
  revert value len. induction fuel as [|fuel IH]; intros value len Hv Hl Hb.
  - assert (value = 0) as -> by lia. done.
  - cbn [bitLength64_loop]. destruct (Z.eqb_spec value 0) as [->|N]; [done|].
    rewrite Z.shiftr_div_pow2 by lia. change (2 ^ 1) with 2.
    assert (0 <= value / 2 < 2 ^ Z.of_nat fuel).
    { split; [apply Z.div_pos; lia|]. apply Z.div_lt_upper_bound; [lia|]. rewrite <- Z.pow_succ_r by lia. rewrite <- Nat2Z.inj_succ. lia. }
    rewrite wrap_u_small by range. rewrite IH by lia. destruct (Z.eqb_spec (value / 2) 0) as [E|E].
    + assert (value = 1) as -> by (apply Z.div_small_iff in E; lia). cbn. f_equal. lia.
    + f_equal. assert (2 <= value).
      { destruct (decide (value = 1)) as [->|]; [by cbn in E|lia]. }
      rewrite <- Z.shiftr_div_pow2 with (n := 1) by lia. rewrite Z.log2_shiftr by lia.
      assert (1 <= Z.log2 value) by (apply Z.log2_le_pow2; lia). lia.
Qed.

Lemma bitLength64_spec value : 0 < value < 2 ^ 64 -> bitLength64 value = Some (Z.log2 value + 1).
Proof. intros H. unfold bitLength64. rewrite bitLength64_loop_spec by lia. by rewrite (proj2 (Z.eqb_neq _ _)) by lia. Qed.

(** One step stays above the root and halves the distance to it. *)
Lemma newton_step root value :
  0 < value < 2 ^ 64 -> Z.sqrt value <= root <= 2 ^ 32 -> 0 < root ->
  Z.sqrt value <= newton root value
  /\ (root = Z.sqrt value -> root <= newton root value)
  /\ (Z.sqrt value < root -> newton root value - Z.sqrt value <= (root - Z.sqrt value) / 2).
Proof.
  intros Hv Hr Hp. set (s := Z.sqrt value) in *. destruct (Z.sqrt_spec value ltac:(lia)) as [S1 S2]. fold s in S1, S2.
  assert (Hs : 0 <= s) by apply Z.sqrt_nonneg. assert (Hs1 : 1 <= s) by nia. set (q := value / root).
  pose proof (Z.mul_div_le value root Hp) as Q1. pose proof (Z.mul_succ_div_gt value root Hp) as Q2. fold q in Q1, Q2.
  assert (Hq : 0 <= q) by (apply Z.div_pos; lia).
  assert (W : newton root value = (root + q) / 2).
  { unfold newton. fold q. rewrite wrap_u_small; [done|]. assert (q <= s + 2) by nia. range. }
  rewrite W. assert (A : 2 * s <= root + q).
  { assert (value <= root * q + root - 1) by lia. assert (s * s <= root * q + root - 1) by lia. nia. }
  split; [|split].
  - apply Z.div_le_lower_bound; lia.
  - intros ->. apply Z.div_le_lower_bound; [lia|]. nia.
  - intros Hlt. assert (q <= s) by nia.
    assert ((root + q) / 2 <= (root + s) / 2) by (apply Z.div_le_mono; lia).
    assert ((root + s) / 2 = s + (root - s) / 2) by (replace (root + s) with (root - s + s * 2) by lia; rewrite Z.div_add by lia; lia).
    lia.
Qed.

Lemma integerSqrt_loop_spec fuel root value :
  0 < value < 2 ^ 64 -> Z.sqrt value <= root <= 2 ^ 32 -> 0 < root -> root - Z.sqrt value < 2 ^ Z.of_nat fuel ->
  integerSqrt_loop (S fuel) root value = Some (Z.sqrt value).
Proof.
  intros Hv. assert (Hs : 0 < Z.sqrt value) by (apply Z.sqrt_pos; lia).
  revert root. induction fuel as [|fuel IH]; intros root Hr Hp Hd;
    destruct (newton_step root value Hv Hr Hp) as (N1 & N2 & N3).
  - assert (root = Z.sqrt value) as E by lia. cbn [integerSqrt_loop]. rewrite (proj2 (Z.ltb_ge _ _)) by auto. by rewrite E.
  - cbn [integerSqrt_loop] in *. destruct (Z.ltb_spec (newton root value) root) as [L|L].
    + assert (Z.sqrt value < root) by lia. specialize (N3 ltac:(lia)).
      assert ((root - Z.sqrt value) / 2 < 2 ^ Z.of_nat fuel).
      { apply Z.div_lt_upper_bound; [lia|]. rewrite <- Z.pow_succ_r by lia. rewrite <- Nat2Z.inj_succ. lia. }
      apply IH; lia.
    + f_equal. destruct (decide (root = Z.sqrt value)) as [|Ne]; [done|]. specialize (N3 ltac:(lia)).
      assert ((root - Z.sqrt value) / 2 < root - Z.sqrt value) by (apply Z.div_lt; lia). lia.
Qed.

Lemma integerSqrt_sqrt value : 0 <= value < 2 ^ 64 -> integerSqrt value = Some (Z.sqrt value).
Proof.
  intros H. unfold integerSqrt. destruct (Z.eqb_spec value 0) as [->|N]; [done|]. rewrite bitLength64_spec by lia.
  set (l := Z.log2 value). destruct (Z.log2_spec value ltac:(lia)) as [L1 L2]. fold l in L1, L2.
  assert (0 <= l) by apply Z.log2_nonneg. assert (l < 64) by (apply Z.log2_lt_pow2; lia).
  set (e := (l + 1 + 1) / 2). assert (0 <= e <= 32) by (unfold e; Z.to_euclidean_division_equations; lia).
  assert (l + 1 <= 2 * e) by (unfold e; Z.to_euclidean_division_equations; lia).
  assert (P : 2 ^ e <= 2 ^ 32) by (apply Z.pow_le_mono_r; lia). assert (0 < 2 ^ e) by (apply Z.pow_pos_nonneg; lia).
  rewrite Z.shiftl_1_l, wrap_u_small by range. apply integerSqrt_loop_spec; [lia| |lia|].
  - split; [|lia]. assert (value < 2 ^ e * 2 ^ e).
    { rewrite <- Z.pow_add_r by lia. eapply Z.lt_le_trans; [exact L2|]. apply Z.pow_le_mono_r; lia. }
    assert (Z.sqrt value < 2 ^ e) by (apply Z.sqrt_lt_square; lia). lia.
  - assert (0 < Z.sqrt value) by (apply Z.sqrt_pos; lia). change (Z.of_nat 33) with 33. lia.
Qed.
End PackSizerTheory.

Module PackSizerProps.
Import PackSizerTheory.

(** The square root ends after at most 34 rounds and is exact, without overflow, for
    every 64-bit value. *)
Theorem integerSqrt_exact (value : Z) :
  uint64 value -> exists root, integerSqrt value = Some root /\ root * root <= value < (root + 1) * (root + 1).
Proof. intros H. rewrite integerSqrt_sqrt by exact H. eexists. split; [done|]. apply Z.sqrt_spec. apply H. Qed.

(** The target size of a pack is the default size plus the growth, cut off at the limit
    and at four GiB, computed without overflow whatever the size of the repository. *)
Theorem target_bounds (default grow limit current : Z) :
  uint64 default -> uint32 grow -> uint64 limit -> uint64 current ->
  let cap := if limit =? 0 then MaxPackSize else Z.min limit MaxPackSize in
  target (newPackSizer default grow limit current) = Some (Z.min (default + Z.sqrt current * grow) cap).
Proof.
  intros Hd Hg Hl Hc cap. unfold target, newPackSizer. cbn [growFactor sizeLimit currentSize defaultSize].
  assert (Ec : (if (limit =? 0) || (MaxPackSize <? limit) then MaxPackSize else limit) = cap /\ cap <= MaxPackSize).
  { unfold cap. destruct (Z.eqb_spec limit 0); cbn [orb]; [done|]. destruct (Z.ltb_spec MaxPackSize limit); lia. }
  destruct Ec as [-> Hcap]. assert (Hm : MaxPackSize = 2 ^ 32) by done.
  assert (Cut : forall t, (let t := if cap <? t then cap else t in if MaxPackSize <? t then MaxPackSize else t) = Z.min t cap).
  { intros t. destruct (Z.ltb_spec cap t); cbn zeta; [destruct (Z.ltb_spec MaxPackSize cap)|destruct (Z.ltb_spec MaxPackSize t)]; lia. }
  destruct (Z.eqb_spec grow 0) as [->|N]; cbn [negb]; [by rewrite Cut, Z.mul_0_r, Z.add_0_r|].
  rewrite integerSqrt_sqrt by exact Hc. cbn beta iota.
  assert (Rt : 0 <= Z.sqrt current < 2 ^ 32) by (split; [apply Z.sqrt_nonneg|apply Z.sqrt_lt_square; range]).
  assert (M : 0 <= Z.sqrt current * grow < 2 ^ 32 * 2 ^ 32)
    by (split; [apply Z.mul_nonneg_nonneg|apply Z.mul_lt_mono_nonneg]; range).
  rewrite (wrap_u_small 64 (Z.sqrt current * grow)) by range. rewrite Cut. f_equal.
  destruct (Z.ltb_spec (MaxUint64 - default) (Z.sqrt current * grow)) as [O|O].
  - unfold MaxUint64 in *. lia.
  - rewrite wrap_u_small; [done|]. unfold MaxUint64 in O. range.
Qed.

Lemma integerSqrt_exact_witness :
  exists root, integerSqrt (2 ^ 64 - 1) = Some root /\ root * root <= 2 ^ 64 - 1 < (root + 1) * (root + 1).
Proof. apply (integerSqrt_exact (2 ^ 64 - 1)). range. Defined.

Lemma target_bounds_witness :
  target (newPackSizer (32 * 1024 * 1024) 32 0 (10 ^ 15)) = Some (Z.min (32 * 1024 * 1024 + Z.sqrt (10 ^ 15) * 32) MaxPackSize).
Proof. apply (target_bounds (32 * 1024 * 1024) 32 0 (10 ^ 15)); range. Defined.
End PackSizerProps.
