(* ===== verification/Upload.v ===== *)
(** * Saving and loading blobs ([internal/repository/packer_manager.go],
    [packer_uploader.go], [repository_blobs.go], [repository_engine.go],
    [repository_packs.go])

    A blob is compressed, encrypted and added to one of the open packs of its type; a pack
    that is full is queued, uploaded and entered into the index. Compression is a parameter,
    as are the random numbers, the failures of temporary files and of the backend. *)
From stdpp Require Import base list numbers strings gmap sets.
From Stdlib Require Import ZArith Lia.
From coqutil Require Import Datatypes.RecordSetters.
From S2P Require Import Prelude Codec Sha256 Crypto Pack IndexMap RepoIndex MasterIndex PackSizer.
Import TriangleBracketNotations.

(** The zstd library: the encoder and the decoder, which may be unavailable. *)
Class Zstd : Type := {
  getZstdEncoder : result (bytes -> bytes);
  getZstdDecoder : result (bytes -> result bytes) }.

(** Its documented behaviour: decoding gives back what was encoded. *)
Class ZstdLaws `{Zstd} : Prop := {
  zstd_inverse : forall enc dec data, getZstdEncoder = Ok enc -> getZstdDecoder = Ok dec -> dec (enc data) = Ok data }.

(** ** Open packs *)

Section Packers.
Context {cipher : Cipher} (Write : bytes -> bytes -> Z * option string).

Record packerManager := mkPackerManager { pm_packers : list (option Packer); pm_sizer : packSizer }.

Definition newConfiguredPackerManager (defaultSize sizeLimit currentSize growFactor : Z) (packerCount : nat) : packerManager :=
  mkPackerManager (repeat None packerCount) (newPackSizer defaultSize growFactor sizeLimit currentSize).

(** [packSizer.target], which always has a value. *)
Definition pm_target (pm : packerManager) : Z := default 0 (target (pm_sizer pm)).

(** What one call meets: the state of its context, the random number, the temporary file, the queue, the nonce. *)
Record callEnv := mkCallEnv { e_ctx : result unit; e_random : result nat; e_tempfile : result unit; e_queue : result unit; e_nonce : bytes }.

Definition newPacker (env : callEnv) : result Packer := do! e_tempfile env; Ok NewPacker.

(** The packer with its place in the list, if it has one. *)
Definition pickPacker (pm : packerManager) (env : callEnv) (ciphertextLen : Z) : result (option nat * Packer) :=
  if pm_target pm <=? ciphertextLen then let! p := newPacker env in Ok (None, p)
  else
    let! idx := e_random env in
    match pm_packers pm !! idx with
    | None => Err "index out of range"
    | Some (Some p) => Ok (Some idx, p)
    | Some None => let! p := newPacker env in Ok (Some idx, p)
    end.

Definition set_packer (pm : packerManager) (slot : option nat) (p : option Packer) : packerManager :=
  match slot with
  | None => pm
  | Some i => pm <| pm_packers := <[i := p]> (pm_packers pm) |>
  end.

Definition forgetPacker (pm : packerManager) (slot : option nat) : packerManager := set_packer pm slot None.

Definition addPackSize (pm : packerManager) (p : Packer) : packerManager :=
  let s := pm_sizer pm in
  pm <| pm_sizer := mkPackSizer (defaultSize s) (growFactor s) (sizeLimit s) (wrap_u 64 (currentSize s + PackSize p)) |>.

Definition HeaderOverhead : Z := CiphertextLength 0 + 4.

(** Returns the packer that was queued, if there is one. *)
Definition SaveBlob (pm : packerManager) (env : callEnv) (t : Z) (id : ID) (ciphertext : bytes) (uncompressedLength : Z)
  : packerManager * option Packer * result Z :=
  match pickPacker pm env (zlen ciphertext) with
  | Err e => (pm, None, Err e)
  | Ok (slot, p) =>
      let '(p, (size, err)) := Packer_Add Write p t id ciphertext uncompressedLength in
      let pm := set_packer pm slot (Some p) in
      match err with
      | Some e => (pm, None, Err e)
      | None =>
          if (p_bytes p <? pm_target pm) && negb (HeaderFull p) then (pm, None, Ok size)
          else
            let pm := addPackSize (forgetPacker pm slot) p in
            match e_queue env with
            | Err e => (pm, None, Err e)
            | Ok _ => (pm, Some p, Ok (size + HeaderOverhead))
            end
      end
  end.

(** The packers from one place on, with those that are ready and the one being filled.
    [rewind] is the reading of a temporary file from its start. *)
Fixpoint mergePackers (rewind : Packer -> result unit) (target : Z) (packers : list (option Packer))
    (pendingPackers : list Packer) (p : option Packer) : list (option Packer) * result (list Packer) :=
  match packers with
  | [] => ([], Ok (pendingPackers ++ match p with Some p => [p] | None => [] end))
  | None :: packers =>
      let (rest, res) := mergePackers rewind target packers pendingPackers p in (None :: rest, res)
  | Some packer :: packers =>
      match p with
      | None =>
          let (rest, res) := mergePackers rewind target packers pendingPackers (Some packer) in (None :: rest, res)
      | Some p =>
          if wrap_u 64 (p_bytes p + p_bytes packer) <? target then
            match rewind packer with
            | Err e => (None :: packers, Err e)
            | Ok _ =>
                match Merge Write p (p_blobs packer) (p_written packer) with
                | (_, Some e) => (None :: packers, Err e)
                | (p, None) =>
                    let (rest, res) := mergePackers rewind target packers pendingPackers (Some p) in (None :: rest, res)
                end
            end
          else
            let (rest, res) := mergePackers rewind target packers (pendingPackers ++ [p]) (Some packer) in (None :: rest, res)
      end
  end.

Fixpoint queue_all (queue : Packer -> result unit) (pm : packerManager) (pending : list Packer) (queued : list Packer)
  : packerManager * list Packer * result unit :=
  match pending with
  | [] => (pm, queued, Ok tt)
  | p :: pending =>
      let pm := addPackSize pm p in
      match queue p with
      | Err e => (pm, queued, Err e)
      | Ok _ => queue_all queue pm pending (queued ++ [p])
      end
  end.

Definition pm_Flush (rewind queue : Packer -> result unit) (pm : packerManager) : packerManager * list Packer * result unit :=
  let (packers, merged) := mergePackers rewind (pm_target pm) (pm_packers pm) [] None in
  let pm := pm <| pm_packers := packers |> in
  match merged with
  | Err e => (pm, [], Err e)
  | Ok pendingPackers => queue_all queue pm pendingPackers []
  end.
End Packers.

(** ** Blobs *)

Record Settings := mkSettings { s_Version : Z; s_CompressionOff : bool; s_NoExtraVerify : bool; s_key : Key }.

(** What uploading one pack meets: the nonce of its header, the temporary file before and
    after the upload, the backend, and the index. *)
Record uploadEnv := mkUploadEnv {
  ue_nonce : bytes; ue_file : result unit; ue_Save : result unit; ue_close : result unit;
  ue_now : Z; ue_hash : Z -> ID -> Z; ue_SaveUnpacked : list packJSON -> ID * option string }.

(** The open packs, the queue, and what the repository has: its packs and its index files,
    with the index in memory. *)
Record Uploader := mkUploader {
  u_tree : packerManager; u_data : packerManager; u_queue : list Packer;
  u_packs : gmap ID bytes; u_indexes : gmap ID (list packJSON); u_idx : MasterIndex }.

(** A blob given to the uploader: the handle it gets, its data, and whether a packer was
    to take it. *)
Record Given := mkGiven { g_handle : BlobHandle; g_data : bytes; g_packed : bool }.

Section Blobs.
Context {cipher : Cipher} {zstd : Zstd} (Write : bytes -> bytes -> Z * option string) (st : Settings).

(** [ZeroPrefixLen]: blocks of 1 kB first. *)
Fixpoint zero_blocks (fuel : nat) (p : bytes) (n : Z) : bytes * Z :=
  match fuel with
  | O => (p, n)
  | S fuel =>
      if (1024 <=? zlen p) && bytes_eqb (take 1024 p) (repeat x00 1024)
      then zero_blocks fuel (drop 1024 p) (n + 1024) else (p, n)
  end.

Fixpoint zero_bytes (p : bytes) (n : Z) : Z :=
  match p with
  | b :: p => if b2z b =? 0 then zero_bytes p (n + 1) else n
  | [] => n
  end.

Definition ZeroPrefixLen (p : bytes) : Z :=
  let (p, n) := zero_blocks (length p) p 0 in zero_bytes p n.

Definition decodePackedBlob (blob : PackedBlob) (packed : bytes) : result bytes :=
  let b := pb_Blob blob in
  do! guard (zlen packed <? b_Length b) "readFull: short packed blob";
  let packed := take (Z.to_nat (b_Length b)) packed in
  do! guard (b_Length b <=? NonceSize) "invalid blob length";
  let nonce := take (Z.to_nat NonceSize) packed in
  let ciphertext := drop (Z.to_nat NonceSize) packed in
  let! decrypted := Open (s_key st) [] nonce ciphertext in
  let! plaintext :=
    if IsCompressed b then let! dec := getZstdDecoder in dec decrypted else Ok decrypted in
  do! guard (negb (bytes_eqb (Sum256 plaintext) (bh_ID (b_handle b)))) "wrong data returned";
  Ok plaintext.

(** The cache of blobs, which may answer with anything. *)
Record readCache := mkReadCache {
  loadDecodedBlobRepresentation : BlobHandle -> Z -> option bytes;
  loadCompressedBlobRepresentation : BlobHandle -> Z -> option bytes }.

Definition right_hash (blob : PackedBlob) (plaintext : bytes) : bool :=
  bytes_eqb (Sum256 plaintext) (bh_ID (b_handle (pb_Blob blob))).

(** What the cache of blobs gives for the first place of a blob, if it is of use. *)
Definition load_cached (manager : option readCache) (blobs : list PackedBlob) : option (result bytes) :=
  match manager, blobs with
  | Some manager, blob :: _ =>
      let compressed :=
        match loadCompressedBlobRepresentation manager (b_handle (pb_Blob blob)) (PlaintextLength (b_Length (pb_Blob blob))) with
        | Some compressed =>
            match getZstdDecoder with
            | Err e => Some (Err e)
            | Ok dec =>
                match dec compressed with
                | Ok decoded => if right_hash blob decoded then Some (Ok decoded) else None
                | Err _ => None
                end
            end
        | None => None
        end in
      match loadDecodedBlobRepresentation manager (b_handle (pb_Blob blob)) (DataLength (pb_Blob blob)) with
      | Some decoded => if right_hash blob decoded then Some (Ok decoded) else compressed
      | None => compressed
      end
  | _, _ => None
  end.

(** Each place where the blob is, until one works. *)
Fixpoint load_packs (read : ID -> Z -> Z -> result bytes) (blobs : list PackedBlob) (lastError : string) : result bytes :=
  match blobs with
  | [] => Err lastError
  | blob :: blobs =>
      let decoded :=
        let! buf := read (pb_Pack blob) (b_Length (pb_Blob blob)) (b_Offset (pb_Blob blob)) in
        decodePackedBlob blob buf in
      match decoded with
      | Ok plaintext => Ok plaintext
      | Err e => load_packs read blobs e
      end
  end.

Definition loadBlob (manager : option readCache) (read : ID -> Z -> Z -> result bytes) (blobs : list PackedBlob) : result bytes :=
  match load_cached manager blobs with
  | Some res => res
  | None => load_packs read blobs "loading from packs failed"
  end.

Definition sortCachedPacksFirst (cache : option (ID -> bool)) (blobs : list PackedBlob) : list PackedBlob :=
  match cache with
  | None => blobs
  | Some has => filter (fun blob => has (pb_Pack blob) = true) blobs ++ filter (fun blob => has (pb_Pack blob) = false) blobs
  end.

(** The caches that a call meets: of files, with the packs it has and what reading through
    it gives, and of blobs, at the first and at the second attempt. *)
Record loadEnv := mkLoadEnv {
  l_cache : option ((ID -> bool) * (ID -> Z -> Z -> result bytes)); l_manager : option readCache; l_manager_again : option readCache }.

Definition read_pack (packs : gmap ID bytes) (id : ID) (length offset : Z) : result bytes :=
  match packs !! id with
  | Some file => ReadAt file length offset
  | None => Err "file does not exist"
  end.

(** The second attempt reads from the backend: the cache has forgotten the packs. *)
Definition LoadBlob (env : loadEnv) (packs : gmap ID bytes) (mi : MasterIndex) (bh : BlobHandle) : result bytes :=
  let! blobs := MasterLookup mi bh in
  do! guard (bool_decide (blobs = [])) "id not found in repository";
  let blobs := sortCachedPacksFirst (fst <$> l_cache env) blobs in
  match loadBlob (l_manager env) (match l_cache env with Some (_, read) => read | None => read_pack packs end) blobs with
  | Ok plaintext => Ok plaintext
  | Err _ => loadBlob (l_manager_again env) (read_pack packs) blobs
  end.

Definition verifyCiphertext (buf : bytes) (uncompressedLength : Z) (id : ID) : result unit :=
  if s_NoExtraVerify st then Ok tt
  else
    let! plaintext := Open (s_key st) [] (take (Z.to_nat NonceSize) buf) (drop (Z.to_nat NonceSize) buf) in
    let! plaintext :=
      if negb (uncompressedLength =? 0) then let! dec := getZstdDecoder in dec plaintext else Ok plaintext in
    guard (negb (bytes_eqb (Sum256 plaintext) id)) "hash mismatch".

(** The ciphertext of a blob with the length it has uncompressed. *)
Definition encrypt_blob (t : Z) (data : bytes) (id : ID) (nonce : bytes) : result (bytes * Z) :=
  let! (data, uncompressedLength) :=
    if (1 <? s_Version st) && (0 <? zlen data) && (negb (s_CompressionOff st) || negb (t =? DataBlob))
    then let! enc := getZstdEncoder in Ok (enc data, zlen data)
    else Ok (data, 0) in
  let! ciphertext := Seal (s_key st) nonce nonce data [] in
  do! verifyCiphertext ciphertext uncompressedLength id;
  Ok (ciphertext, uncompressedLength).

Definition saveAndEncrypt (u : Uploader) (env : callEnv) (t : Z) (data : bytes) (id : ID) : Uploader * result Z :=
  match encrypt_blob t data id (e_nonce env) with
  | Err e => (u, Err e)
  | Ok (ciphertext, uncompressedLength) =>
      if t =? TreeBlob then
        let '(pm, queued, res) := SaveBlob Write (u_tree u) env t id ciphertext uncompressedLength in
        (u <| u_tree := pm |> <| u_queue := u_queue u ++ match queued with Some p => [p] | None => [] end |>, res)
      else if t =? DataBlob then
        let '(pm, queued, res) := SaveBlob Write (u_data u) env t id ciphertext uncompressedLength in
        (u <| u_data := pm |> <| u_queue := u_queue u ++ match queued with Some p => [p] | None => [] end |>, res)
      else (u, Err "invalid blob type")
  end.

(** [chunker.MinSize] is a constant of the chunker package. *)
Context (chunker_MinSize : Z).

Definition blob_id (buf : bytes) (id : ID) : ID :=
  if is_zero_id id then
    if (zlen buf =? chunker_MinSize) && (ZeroPrefixLen buf =? chunker_MinSize)
    then Sum256 (repeat x00 (Z.to_nat chunker_MinSize)) else Sum256 buf
  else id.

(** The ID, whether the blob was known, and the size. *)
Definition saveBlob (u : Uploader) (env : callEnv) (t : Z) (buf : bytes) (id : ID) (storeDuplicate : bool)
  : Uploader * result (ID * bool * Z) :=
  if negb (is_ok (e_ctx env)) then (u, Err "context canceled")
  else if MaxUint32 <? zlen buf then (u, Err "blob is larger than 4GB")
  else
    let newID := blob_id buf id in
    match AddPending (u_idx u) (mkBlobHandle newID t) (zlen buf) with
    | Err e => (u, Err e)
    | Ok (mi, added) =>
        let u := u <| u_idx := mi |> in
        if added || storeDuplicate then
          let (u, res) := saveAndEncrypt u env t buf newID in
          (u, let! size := res in Ok (newID, negb added, size))
        else (u, Ok (newID, negb added, 0))
    end.

(** ** Uploading *)

(** The index files that [saveIndex] writes for the indexes at some positions. *)
Fixpoint index_files (SaveUnpacked : list packJSON -> ID * option string) (mi : MasterIndex) (positions : list nat)
  : list (ID * list packJSON) :=
  match positions with
  | [] => []
  | i :: positions =>
      match mi_idx mi !! i with
      | None => []
      | Some idx =>
          match Encode idx with
          | Err _ => []
          | Ok packs =>
              match SaveUnpacked packs with
              | (id, None) => (id, packs) :: index_files SaveUnpacked mi positions
              | (_, Some _) => []
              end
          end
      end
  end.

Definition write_files (files : list (ID * list packJSON)) (indexes : gmap ID (list packJSON)) : gmap ID (list packJSON) :=
  fold_left (fun m '(id, packs) => <[id := packs]> m) files indexes.

(** The index files written when the index takes a pack. *)
Definition store_files (u : Uploader) (env : uploadEnv) (id : ID) (blobs : list Blob) : list (ID * list packJSON) :=
  match storePack (u_idx u) id blobs (ue_now env) (ue_hash env) with
  | Err _ => []
  | Ok mi => let (mi, positions) := finalizeFullIndexes (ue_now env) mi in index_files (ue_SaveUnpacked env) mi positions
  end.

(** The index takes the pack, and saves the indexes that are full. *)
Definition store_pack (u : Uploader) (env : uploadEnv) (id : ID) (blobs : list Blob) : Uploader * result unit :=
  match storePack (u_idx u) id blobs (ue_now env) (ue_hash env) with
  | Err e => (u, Err e)
  | Ok mi =>
      let u := u <| u_indexes := write_files (store_files u env id blobs) (u_indexes u) |> in
      let (mi, positions) := finalizeFullIndexes (ue_now env) mi in
      match saveIndex (ue_SaveUnpacked env) mi positions with
      | Err e => (u, Err e)
      | Ok (mi, err) => (u <| u_idx := mi |>, match err with Some e => Err e | None => Ok tt end)
      end
  end.

Definition savePacker (u : Uploader) (env : uploadEnv) (p : Packer) : Uploader * result unit :=
  match Packer_Finalize Write p (s_key st) (ue_nonce env) with
  | (_, Some e) => (u, Err e)
  | (p, None) =>
      match ue_file env with
      | Err e => (u, Err e)
      | Ok _ =>
          let id := Sum256 (p_written p) in
          match ue_Save env with
          | Err e => (u, Err e)
          | Ok _ =>
              let u := u <| u_packs := <[id := p_written p]> (u_packs u) |> in
              match ue_close env with
              | Err e => (u, Err e)
              | Ok _ => store_pack u env id (p_blobs p)
              end
          end
      end
  end.

(** The first part of [flushPackUploader]: both managers queue what is left. *)
Definition flush_packers (rewind queue : Packer -> result unit) (u : Uploader) : Uploader * result unit :=
  let '(tree, queued, res) := pm_Flush Write rewind queue (u_tree u) in
  let u := u <| u_tree := tree |> <| u_queue := u_queue u ++ queued |> in
  match res with
  | Err e => (u, Err e)
  | Ok _ =>
      let '(data, queued, res) := pm_Flush Write rewind queue (u_data u) in
      (u <| u_data := data |> <| u_queue := u_queue u ++ queued |>, res)
  end.

Definition flush_files (SaveUnpacked : list packJSON -> ID * option string) (u : Uploader) : list (ID * list packJSON) :=
  let (mi, positions) := finalizeNotFinalIndexes (u_idx u) in index_files SaveUnpacked mi positions.

(** The end of [flush]: the index. *)
Definition flush_index (SaveUnpacked : list packJSON -> ID * option string) (u : Uploader) : Uploader * result unit :=
  let u := u <| u_indexes := write_files (flush_files SaveUnpacked u) (u_indexes u) |> in
  match Flush SaveUnpacked (u_idx u) with
  | Err e => (u, Err e)
  | Ok (mi, err) => (u <| u_idx := mi |>, match err with Some e => Err e | None => Ok tt end)
  end.

(** *** The uploader as a whole *)

(** A file has the hash of encrypted data for its name, which no other file has. *)
Definition fresh_files (files : list (ID * list packJSON)) (indexes : gmap ID (list packJSON)) : Prop :=
  forall id packs, (id, packs) ∈ files -> indexes !! id = None /\ forall packs', (id, packs') ∈ files -> packs' = packs.

Definition finished (env : uploadEnv) (p : Packer) : Packer := fst (Packer_Finalize Write p (s_key st) (ue_nonce env)).

Definition fresh_pack (u : Uploader) (env : uploadEnv) (p : Packer) : Prop :=
  let id := Sum256 (p_written (finished env p)) in
  u_packs u !! id = None /\ fresh_files (store_files u env id (p_blobs (finished env p))) (u_indexes u).

(** One of the queued packs is uploaded. *)
Inductive pack_step : Uploader -> Uploader -> Prop :=
  | upload_pack u env before p after u' :
      u_queue u = before ++ p :: after ->
      savePacker (u <| u_queue := before ++ after |>) env p = (u', Ok tt) -> fresh_pack u env p ->
      pack_step u u'.

(** Blobs are saved and queued packs uploaded in any order. The label has every blob that
    was given to [saveBlob], also those it reports as known. *)
Inductive up_step : Uploader -> list Given -> Uploader -> Prop :=
  | up_save u env t buf id storeDuplicate u' newID known size :
      saveBlob u env t buf id storeDuplicate = (u', Ok (newID, known, size)) ->
      (is_zero_id id = true \/ Sum256 buf = id) ->
      up_step u [mkGiven (mkBlobHandle newID t) buf (negb known || storeDuplicate)] u'
  | up_pack u u' : pack_step u u' -> up_step u [] u'.

Inductive up_steps : Uploader -> list Given -> Uploader -> Prop :=
  | ups_nil u : up_steps u [] u
  | ups_cons u given u1 given' u2 : up_step u given u1 -> up_steps u1 given' u2 -> up_steps u (given ++ given') u2.

(** [WithBlobUploader] that ends without an error: blobs are saved, what is left of the
    packs is queued, everything is uploaded, and the index is saved. *)
Definition uploaded (u : Uploader) (given : list Given) (u' : Uploader) : Prop :=
  exists u1 u2 u3 rewind queue SaveUnpacked,
    up_steps u given u1 /\ flush_packers rewind queue u1 = (u2, Ok tt) /\ up_steps u2 [] u3 /\ u_queue u3 = []
    /\ flush_index SaveUnpacked u3 = (u', Ok tt) /\ fresh_files (flush_files SaveUnpacked u3) (u_indexes u3).
End Blobs.

(** ** Theory *)

Module UploadTheory.
Import IndexTheory IndexProps MasterTheory PackProps.

(** *** Zero prefixes *)

Lemma zero_bytes_repeat k p n : zero_bytes (repeat x00 k ++ p) n = zero_bytes p (n + Z.of_nat k).
Proof.
  revert n. induction k as [|k IH]; intros n; [by rewrite Z.add_0_r|]. cbn [repeat app zero_bytes]. change (b2z x00 =? 0) with true.
  cbn iota. rewrite IH. f_equal. lia.
Qed.

Lemma zero_blocks_bytes fuel p n : (let (q, m) := zero_blocks fuel p n in zero_bytes q m) = zero_bytes p n.
Proof.
  revert p n. induction fuel as [|fuel IH]; intros p n; [done|]. cbn [zero_blocks].
  destruct (_ && _) eqn:E; [|done]. split_bools. rewrite IH. rewrite <- (take_drop 1024 p) at 2.
  match goal with H : take 1024 p = _ |- _ => rewrite H end. by rewrite zero_bytes_repeat.
Qed.

(** The count by blocks is the count byte by byte. *)
Lemma ZeroPrefixLen_bytes p : ZeroPrefixLen p = zero_bytes p 0.
Proof. apply zero_blocks_bytes. Qed.

Lemma zero_bytes_bound p n : n <= zero_bytes p n <= n + zlen p.
Proof.
  revert n. induction p as [|b p IH]; intros n; cbn [zero_bytes]; [unfold zlen; cbn; lia|]. rewrite zlen_cons.
  destruct (b2z b =? 0); [specialize (IH (n + 1)); lia|]. pose proof (zlen_nonneg p). lia.
Qed.

Lemma zero_bytes_all p n : zero_bytes p n = n + zlen p -> p = repeat x00 (length p).
Proof.
  revert n. induction p as [|b p IH]; intros n E; [done|]. cbn [zero_bytes] in E. rewrite zlen_cons in E.
  destruct (Z.eqb_spec (b2z b) 0) as [B|B].
  - cbn [length repeat]. f_equal; [by rewrite <- (z2b_b2z b), B|]. apply (IH (n + 1)). lia.
  - pose proof (zlen_nonneg p). lia.
Qed.

Lemma blob_id_hash minSize buf id : is_zero_id id = true \/ Sum256 buf = id -> blob_id minSize buf id = Sum256 buf.
Proof.
  intros H. unfold blob_id. destruct (is_zero_id id) eqn:Ez; [|by destruct H]. destruct (_ && _) eqn:E; [|done]. split_bools.
  rewrite ZeroPrefixLen_bytes in *. f_equal. subst minSize. unfold zlen at 1. rewrite Nat2Z.id. symmetry. apply (zero_bytes_all _ 0). lia.
Qed.

Section Theory.
Context {cipher : Cipher} {laws : CipherLaws} {zstd : Zstd} {zlaws : ZstdLaws}.
Context (Write : bytes -> bytes -> Z * option string) (st : Settings) (dec : bytes -> result bytes).
Context (decoder : getZstdDecoder = Ok dec).

(** *** Encryption *)

(** An addition that, read back from any pack, decodes to the data. *)
Definition sealed (h : BlobHandle) (d : bytes) (a : addition) : Prop :=
  mkBlobHandle (a_id a) (a_type a) = h
  /\ forall pb, recorded a (pb_Blob pb) -> decodePackedBlob st pb (a_data a) = Ok d.

Lemma Seal_prefix k nonce plaintext out :
  Seal k nonce nonce plaintext [] = Ok out ->
  exists ct, out = nonce ++ ct /\ length nonce = 16%nat /\ Seal k [] nonce plaintext [] = Ok ct /\ (16 <= length ct)%nat.
Proof.
  intros H. unfold Seal in *. inv_results. eexists. split; [done|]. split_bools. unfold zlen, ivSize in *.
  split; [lia|]. repeat match goal with E : _ = _ |- _ => rewrite E; clear E end. split; [done|].
  rewrite length_app. unfold poly1305MAC. rewrite poly1305_tag. lia.
Qed.

Lemma encrypt_sealed t data id nonce ct ul :
  encrypt_blob st t data id nonce = Ok (ct, ul) -> Sum256 data = id -> zlen data <= MaxUint32 ->
  sealed (mkBlobHandle id t) data (mkAddition t id ct ul).
Proof.
  intros E Hid Hl. split; [done|]. intros pb (Eh & El & Eu). cbn [a_data a_id a_type a_uncompressed] in *.
  unfold encrypt_blob in E. apply rbind_ok in E as ([packed ul'] & Ep & E). apply rbind_ok in E as (ct' & Es & E).
  apply rbind_ok in E as ([] & _ & E). injection E as -> ->.
  apply Seal_prefix in Es as (body & -> & Ln & Es & Lb).
  unfold decodePackedBlob. rewrite El, Z.ltb_irrefl. cbn [guard rbind]. rewrite take_all. rewrite (proj2 (Z.leb_gt _ _)).
  2:{ unfold zlen, NonceSize, ivSize. rewrite length_app. lia. }
  cbn [guard rbind]. change (Z.to_nat NonceSize) with 16%nat. rewrite take_app_length', drop_app_length' by done.
  rewrite (Open_Seal _ [] _ _ _ Es). cbn [app rbind]. unfold IsCompressed. rewrite Eu, Eh. cbn [bh_ID]. clear Es El.
  assert (R : (if negb (wrap_u 64 ul =? 0) then let! dec := getZstdDecoder in dec packed else Ok packed) = Ok data).
  { destruct (_ && _) eqn:C in Ep.
    - apply rbind_ok in Ep as (enc & Ee & Ep). injection Ep as <- <-. split_bools.
      rewrite wrap_u_small by (unfold MaxUint32 in *; range). rewrite (proj2 (Z.eqb_neq _ _)) by lia. cbn [negb]. rewrite decoder. cbn [rbind].
      by apply (zstd_inverse enc).
    - by injection Ep as <- <-. }
  rewrite R. cbn [rbind]. rewrite Hid, (proj2 (bytes_eqb_eq id id)) by done. done.
Qed.

(** *** Open packs *)

Definition sound_addition (a : addition) : Prop :=
  type_ok (a_type a) /\ exists d, sealed (mkBlobHandle (a_id a) (a_type a)) d a.

Definition clean (p : Packer) : Prop := exists adds, p_err p = None /\ packed p adds /\ Forall sound_addition adds.

Definition holds_blob (p : Packer) (h : BlobHandle) (d : bytes) : Prop :=
  exists adds a, p_err p = None /\ packed p adds /\ a ∈ adds /\ sealed h d a.

(** What some packers hold, others do. *)
Definition covers (P Q : list Packer) : Prop :=
  forall p h d, p ∈ P -> holds_blob p h d -> exists q, q ∈ Q /\ holds_blob q h d.

Lemma new_clean : clean NewPacker.
Proof. exists []. split; [done|]. split; [apply new_packed|constructor]. Qed.

(** Every blob of the list is held. *)
Lemma clean_holds p b : clean p -> b ∈ p_blobs p -> type_ok (bh_Type (b_handle b)) /\ exists d, holds_blob p (b_handle b) d.
Proof.
  intros (adds & E & P & F) [i Hb]%list_elem_of_lookup. pose proof P as [_ _ _ R].
  destruct (Forall2_lookup_r _ _ _ _ _ R Hb) as (a & Ha & Eh & _). rewrite Eh. apply list_elem_of_lookup_2 in Ha.
  destruct (proj1 (Forall_forall _ _) F a Ha) as [T [d S]]. split; [done|]. exists d, adds, a. done.
Qed.

(** Adding without an error. *)
Lemma add_clean p t id data u p' n :
  clean p -> sound_addition (mkAddition t id data u) -> Packer_Add Write p t id data u = (p', (n, None)) ->
  clean p' /\ (forall h d, holds_blob p h d -> holds_blob p' h d)
  /\ (forall h d, sealed h d (mkAddition t id data u) -> holds_blob p' h d) /\ p_bytes p' = p_bytes p + zlen data.
Proof.
  intros (adds & E & P & So) Sa H. set (a := mkAddition t id data u) in *. pose proof (Packer_Add_error Write p t id data u E) as Er.
  rewrite H in Er. cbn [fst snd] in Er.
  assert (Ep : p' = add_one Write p a) by (unfold add_one, a; cbn; by rewrite H).
  assert (P' : forall adds, packed p adds -> packed p' (adds ++ [a])) by (intros; rewrite Ep; apply add_one_packed; [done|done|by rewrite <- Ep]).
  split; [exists (adds ++ [a]); split; [done|split; [by apply P'|by apply Forall_app_2; [|apply Forall_singleton]]]|]. split; [|split].
  - intros h d (adds' & b & _ & Pa & Hb & S). exists (adds' ++ [a]), b. split; [done|]. split; [by apply P'|].
    split; [apply elem_of_app; by left|done].
  - intros h d S. exists (adds ++ [a]), a. split; [done|]. split; [by apply P'|]. split; [apply elem_of_app; right; by apply list_elem_of_singleton|done].
  - pose proof (P' adds P) as [W B _ _]. rewrite B, W. destruct P as [W0 B0 _ _]. rewrite B0, W0, map_app, concat_app, zlen_app. cbn. by rewrite app_nil_r.
Qed.

Lemma merge_clean p q p' :
  clean p -> clean q -> Merge Write p (p_blobs q) (p_written q) = (p', None) ->
  clean p' /\ (forall h d, holds_blob p h d \/ holds_blob q h d -> holds_blob p' h d).
Proof.
  intros (adds & E & P & So) (addsq & Eq & Q & Sq) H.
  assert (M : forall addsq, packed q addsq -> p' = add_all Write p addsq /\ p_err p' = None).
  { intros l [W _ _ F]. rewrite W in H. rewrite (Merge_adds Write p l _ E F) in H. by injection H as <- ->. }
  assert (P' : forall adds addsq, packed p adds -> packed q addsq -> packed p' (adds ++ addsq)).
  { intros l lq Pl Ql. destruct (M lq Ql) as [-> Er]. by apply add_all_packed. }
  destruct (M addsq Q) as [_ Er].
  split; [exists (adds ++ addsq); split; [done|split; [by apply P'|by apply Forall_app_2]]|].
  intros h d [(l & a & _ & Pl & Ha & S)|(l & a & _ & Ql & Ha & S)].
  - exists (l ++ addsq), a. split; [done|]. split; [by apply P'|]. split; [apply elem_of_app; by left|done].
  - exists (adds ++ l), a. split; [done|]. split; [by apply P'|]. split; [apply elem_of_app; by right|done].
Qed.

Definition open_packers (l : list (option Packer)) : list Packer := omap (fun p => p) l.

Lemma open_elem l p : p ∈ open_packers l <-> exists i, l !! i = Some (Some p).
Proof.
  unfold open_packers. rewrite list_elem_of_omap. split.
  - intros (x & Hx & ->). by apply list_elem_of_lookup in Hx.
  - intros [i Hi]. exists (Some p). split; [by eapply list_elem_of_lookup_2|done].
Qed.

Lemma open_insert l i x p :
  p ∈ open_packers (<[i := x]> l) -> x = Some p \/ p ∈ open_packers l.
Proof.
  rewrite !open_elem. intros [j Hj]. destruct (decide (i = j)) as [->|N].
  - destruct (decide (j < length l)%nat) as [L|L]; [rewrite list_lookup_insert_eq in Hj by done; left; congruence|].
    rewrite list_insert_ge in Hj by lia. right. by exists j.
  - rewrite list_lookup_insert_ne in Hj by done. right. by exists j.
Qed.

Lemma open_kept l i x y p :
  l !! i = Some y -> p ∈ open_packers l -> y = Some p \/ p ∈ open_packers (<[i := x]> l).
Proof.
  rewrite !open_elem. intros Hi [j Hj]. destruct (decide (i = j)) as [->|N]; [left; congruence|right].
  exists j. by rewrite list_lookup_insert_ne.
Qed.

Lemma open_set l i p : (i < length l)%nat -> p ∈ open_packers (<[i := Some p]> l).
Proof. intros L. apply open_elem. exists i. by apply list_lookup_insert_eq. Qed.

Definition queued_list (q : option Packer) : list Packer := match q with Some p => [p] | None => [] end.

(** A blob that was saved is in an open pack or in the one that was queued; and nothing
    the manager had is lost. *)
Lemma SaveBlob_holds pm env t id ct ul pm' q n :
  Forall clean (open_packers (pm_packers pm)) -> sound_addition (mkAddition t id ct ul) -> SaveBlob Write pm env t id ct ul = (pm', q, Ok n) ->
  let after := open_packers (pm_packers pm') ++ queued_list q in
  Forall clean after /\ covers (open_packers (pm_packers pm)) after
  /\ forall h d, sealed h d (mkAddition t id ct ul) -> exists p, p ∈ after /\ holds_blob p h d.
Proof.
  intros Cl Sa H after. unfold SaveBlob in H. destruct (pickPacker pm env (zlen ct)) as [[slot p]|e] eqn:Ep; [|done].
  assert (Cp : clean p /\ match slot with None => p = NewPacker /\ pm_target pm <= zlen ct
                          | Some i => pm_packers pm !! i = Some (Some p) \/ (pm_packers pm !! i = Some None /\ p = NewPacker) end).
  { unfold pickPacker, newPacker in Ep. destruct (Z.leb_spec (pm_target pm) (zlen ct)).
    - inv_results. split; [apply new_clean|done].
    - apply rbind_ok in Ep as (i & _ & Ep). destruct (pm_packers pm !! i) as [[p0|]|] eqn:Ei; [|inv_results|done].
      + injection Ep as <- <-. split; [|by left]. rewrite Forall_forall in Cl. apply Cl, open_elem. by exists i.
      + split; [apply new_clean|by right]. }
  destruct Cp as [Cp Hs]. clear Ep. destruct (Packer_Add Write p t id ct ul) as [p' [size err]] eqn:Ea. destruct err as [e|]; [done|].
  destruct (add_clean _ _ _ _ _ _ _ Cp Sa Ea) as (Cp' & K & N & B).
  assert (Res : after = match slot with None => open_packers (pm_packers pm) ++ [p']
                 | Some i => open_packers (<[i := Some p']> (pm_packers pm)) ++ []
                 end \/ exists i, slot = Some i /\ after = open_packers (<[i := None]> (<[i := Some p']> (pm_packers pm))) ++ [p']).
  { unfold after. destruct ((p_bytes p' <? _) && negb _) eqn:Fu.
    - injection H as <- <- _. left. destruct slot as [i|]; [done|]. exfalso. destruct Hs as [-> Ht]. split_bools.
      cbn [set_packer] in *. cbn in B. lia.
    - destruct (e_queue env); [|done]. injection H as <- <- _. destruct slot as [i|]; [right; by exists i|by left]. }
  clear H. clearbody after. destruct slot as [i|].
  - assert (Hi : exists o, pm_packers pm !! i = Some o /\ (forall p0, o = Some p0 -> p0 = p)).
    { destruct Hs as [Hs|[Hs _]]; eexists; (split; [exact Hs|]); [by intros ? [= ->]|done]. }
    destruct Hi as (o & Hi & Ho). pose proof (lookup_lt_Some _ _ _ Hi) as Li.
    assert (In : forall p0, p0 ∈ after <-> p0 = p' \/ p0 ∈ open_packers (<[i := None]> (pm_packers pm))).
    { intros p0. destruct Res as [->|(j & [= <-] & ->)]; rewrite elem_of_app.
      - split.
        + intros [H|H%elem_of_nil]; [|done]. apply open_elem in H as [j Hj]. destruct (decide (i = j)) as [<-|Ne].
          * left. rewrite list_lookup_insert_eq in Hj by done. congruence.
          * right. rewrite list_lookup_insert_ne in Hj by done. apply open_elem. exists j. by rewrite list_lookup_insert_ne.
        + intros [->|H]; left; [by apply open_set|]. apply open_elem in H as [j Hj]. destruct (decide (i = j)) as [<-|Ne].
          * by rewrite list_lookup_insert_eq in Hj by done.
          * rewrite list_lookup_insert_ne in Hj by done. apply open_elem. exists j. by rewrite list_lookup_insert_ne.
      - rewrite list_insert_insert_eq, list_elem_of_singleton. tauto. }
    split; [|split].
    + apply Forall_forall. intros p0 H. apply In in H as [->|H]; [done|]. apply open_insert in H as [H|H]; [done|].
      rewrite Forall_forall in Cl. by apply Cl.
    + intros p0 h d H Hh. destruct (open_kept _ i None _ _ Hi H) as [->|H'].
      * exists p'. split; [apply In; by left|]. apply K. by rewrite <- (Ho p0 eq_refl).
      * exists p0. split; [apply In; by right|done].
    + intros h d S. exists p'. split; [apply In; by left|by apply N].
  - destruct Res as [->|(j & [=] & _)]. split; [|split].
    + apply Forall_app. split; [done|by constructor].
    + intros p0 h d H Hh. exists p0. split; [apply elem_of_app; by left|done].
    + intros h d S. exists p'. split; [apply elem_of_app; right; by apply list_elem_of_singleton|by apply N].
Qed.

Lemma covers_refl P : covers P P.
Proof. intros p h d Hp Hh. eauto. Qed.

Lemma covers_trans P Q R : covers P Q -> covers Q R -> covers P R.
Proof. intros H1 H2 p h d Hp Hh. destruct (H1 p h d Hp Hh) as (q & Hq & Hh'). by apply (H2 q h d). Qed.

Lemma covers_sub P Q : (forall p, p ∈ P -> p ∈ Q) -> covers P Q.
Proof. intros H p h d Hp Hh. eauto. Qed.

Lemma covers_app P P' Q Q' : covers P Q -> covers P' Q' -> covers (P ++ P') (Q ++ Q').
Proof.
  intros H H' p h d [Hp|Hp]%elem_of_app Hh; [destruct (H p h d Hp Hh) as (q & ? & ?)|destruct (H' p h d Hp Hh) as (q & ? & ?)];
    exists q; (split; [apply elem_of_app|done]); auto.
Qed.

Lemma mergePackers_holds rewind target packers pending p rest res :
  Forall clean (open_packers packers ++ pending ++ queued_list p) ->
  mergePackers Write rewind target packers pending p = (rest, Ok res) ->
  open_packers rest = [] /\ Forall clean res /\ covers (open_packers packers ++ pending ++ queued_list p) res.
Proof.
  revert pending p rest res. induction packers as [|[q|] packers IH]; intros pending p rest res Cl H; cbn [mergePackers] in H.
  - injection H as <- <-. split; [done|]. split; [by destruct p|]. apply covers_sub. by destruct p.
  - change (open_packers (Some q :: packers)) with (q :: open_packers packers) in *. cbn [app] in Cl. inversion_clear Cl as [|? ? Cq Cl'].
    rewrite !Forall_app in Cl'. destruct Cl' as (C1 & C2 & C3). destruct p as [p|].
    + cbn in C3. inversion_clear C3 as [|? ? Cp _]. destruct (_ <? target).
      * destruct (rewind q); [|done]. destruct (Merge _ _ _ _) as [p' [e|]] eqn:Em; [done|].
        destruct (mergePackers _ _ _ packers pending (Some p')) as [rest' res'] eqn:E. injection H as <- ->.
        destruct (merge_clean _ _ _ Cp Cq Em) as [Cp' K]. 
        destruct (IH pending (Some p') rest' res) as (R & Cr & Co); [by repeat (apply Forall_app_2 || constructor)|done|].
        split; [done|]. split; [done|]. eapply covers_trans; [|exact Co]. intros p0 h d. cbn [queued_list app]. rewrite elem_of_cons, !elem_of_app.
        intros [->|[Hp|[Hp| ->%list_elem_of_singleton]]] Hh; [|exists p0..|].
        -- exists p'. rewrite !elem_of_app, list_elem_of_singleton. split; [auto|]. apply K. by right.
        -- rewrite !elem_of_app. tauto.
        -- rewrite !elem_of_app. tauto.
        -- exists p'. rewrite !elem_of_app, list_elem_of_singleton. split; [auto|]. apply K. by left.
      * destruct (mergePackers _ _ _ packers (pending ++ [p]) (Some q)) as [rest' res'] eqn:E. injection H as <- ->.
        destruct (IH (pending ++ [p]) (Some q) rest' res) as (R & Cr & Co); [by repeat (apply Forall_app_2 || constructor)|done|].
        split; [done|]. split; [done|]. eapply covers_trans; [|exact Co]. apply covers_sub. intros p0. cbn [queued_list app].
        rewrite elem_of_cons, !elem_of_app, !list_elem_of_singleton. tauto.
    + destruct (mergePackers _ _ _ packers pending (Some q)) as [rest' res'] eqn:E. injection H as <- ->.
      destruct (IH pending (Some q) rest' res) as (R & Cr & Co); [by repeat (apply Forall_app_2 || constructor)|done|].
      split; [done|]. split; [done|]. eapply covers_trans; [|exact Co]. apply covers_sub. intros p0. cbn [queued_list app].
      rewrite elem_of_cons, !elem_of_app, list_elem_of_singleton, elem_of_nil. tauto.
  - change (open_packers (None :: packers)) with (open_packers packers) in *.
    destruct (mergePackers _ _ _ packers pending p) as [rest' res'] eqn:E. injection H as <- ->. exact (IH pending p rest' res Cl E).
Qed.

Lemma queue_all_ok queue pm pending queued pm' queued' :
  queue_all queue pm pending queued = (pm', queued', Ok tt) -> queued' = queued ++ pending /\ pm_packers pm' = pm_packers pm.
Proof.
  revert pm queued. induction pending as [|p pending IH]; intros pm queued H; cbn in H.
  - injection H as <- <-. by rewrite app_nil_r.
  - destruct (queue p); [|done]. apply IH in H as [-> ->]. by rewrite <- app_assoc.
Qed.

Lemma Flush_holds rewind queue pm pm' queued :
  Forall clean (open_packers (pm_packers pm)) -> pm_Flush Write rewind queue pm = (pm', queued, Ok tt) ->
  open_packers (pm_packers pm') = [] /\ Forall clean queued /\ covers (open_packers (pm_packers pm)) queued.
Proof.
  intros Cl H. unfold pm_Flush in H. destruct (mergePackers _ _ _ _ _ _) as [rest [res|e]] eqn:E; [|done].
  apply mergePackers_holds in E as (R & Cr & Co); [|by rewrite app_nil_r]. apply queue_all_ok in H as [-> ->]. rewrite app_nil_r in Co. by split.
Qed.

(** *** Uploading *)

(** The index says that it has the blob. *)
Definition known_at (mi : MasterIndex) (bss : list (Z -> list PackedBlob)) (h : BlobHandle) : Prop :=
  mi_pending mi !! h <> None \/ (type_ok (bh_Type h) /\ found_in bss h <> []).

Lemma has_in_typed mi bss h b : master mi bss -> has_in (mi_idx mi) h = Ok b -> type_ok (bh_Type h).
Proof.
  intros [(main & rest & Em & _) F] H. rewrite Em in H, F. apply Forall2_cons_inv_l in F as (bs & l & R & _ & _).
  apply rbind_ok in H as (x & H & _). unfold Has in H. apply rbind_ok in H as (m & Hm & _).
  apply byType_some in Hm as [P H]. apply reachable_indexes in R as [L _]. apply lookup_lt_Some in H. unfold type_ok, NumBlobTypes. lia.
Qed.

Lemma AddPending_known mi bss h size mi' : master mi bss -> AddPending mi h size = Ok (mi', false) -> known_at mi bss h /\ mi' = mi.
Proof.
  intros M H. unfold AddPending in H. unfold known_at. destruct (mi_pending mi !! h); [injection H as <-; split; [by left|done]|].
  apply rbind_ok in H as (b & E & H). destruct b; [|done]. injection H as <-. pose proof (has_in_typed _ _ _ _ M E) as T.
  split; [right|done]. split; [done|]. rewrite (has_in_spec _ bss) in E by (done || apply M). by destruct (found_in bss h).
Qed.

Lemma known_AddPending mi bss h size : master mi bss -> known_at mi bss h -> AddPending mi h size = Ok (mi, false).
Proof.
  intros M K. unfold AddPending. destruct (mi_pending mi !! h) eqn:E; [done|]. destruct K as [K|[T K]]; [congruence|].
  rewrite (has_in_spec _ bss) by (done || apply M). by destruct (found_in bss h).
Qed.

Lemma AddPending_new mi h size mi' : AddPending mi h size = Ok (mi', true) -> mi' = mi <| mi_pending := <[h := size]> (mi_pending mi) |>.
Proof.
  unfold AddPending. destruct (mi_pending mi !! h); [done|]. intros H. apply rbind_ok in H as (b & _ & H). by destruct b; [|injection H as <-].
Qed.

Lemma storePack_found mi bss id blobs now hash mi' :
  master mi bss -> storePack mi id blobs now hash = Ok mi' ->
  exists bss', master mi' bss' /\ keeps bss bss'
    /\ (forall b, b ∈ blobs -> type_ok (bh_Type (b_handle b)) -> mkPackedBlob id b ∈ found_in bss' (b_handle b))
    /\ forall h, known_at mi' bss' h -> known_at mi bss h \/ h ∈ b_handle <$> blobs.
Proof.
  intros [(main & rest & Em & Fi) F] H. unfold storePack in H. apply rbind_ok in H as (idxs & E & H). injection H as <-.
  destruct (store_in_spec _ _ _ _ _ _ F (reach_new now hash) E) as (bss' & F' & K & N & Hd & O).
  destruct (Hd main rest Em Fi) as [[rest' Ei] _]. exists bss'. split; [split; [|done]; rewrite Ei; by exists main, rest'|]. do 2 (split; [done|]).
  intros h [Hp|[T [pb Hp]%found_in_nonempty]]; unfold known_at.
  - cbn [mi_pending] in Hp. rewrite pending_deleted in Hp. destruct (decide _); [done|]. left. by left.
  - destruct (O h pb Hp) as [?|?]; [left; right|by right]. split; [done|]. apply found_in_nonempty. by exists pb.
Qed.

Lemma store_pack_found u bss env id blobs u' :
  master (u_idx u) bss -> store_pack u env id blobs = (u', Ok tt) ->
  exists bss', master (u_idx u') bss' /\ keeps bss bss'
    /\ (forall b, b ∈ blobs -> type_ok (bh_Type (b_handle b)) -> mkPackedBlob id b ∈ found_in bss' (b_handle b))
    /\ (forall h, known_at (u_idx u') bss' h -> known_at (u_idx u) bss h \/ h ∈ b_handle <$> blobs)
    /\ u_packs u' = u_packs u /\ u_tree u' = u_tree u /\ u_data u' = u_data u /\ u_queue u' = u_queue u.
Proof.
  intros M H. unfold store_pack in H. destruct (storePack _ _ _ _ _) as [mi1|e] eqn:E1; [|done].
  destruct (storePack_found _ _ _ _ _ _ _ M E1) as (bss1 & M1 & K1 & N1 & O1). unfold finalizeFullIndexes in H.
  destruct (finalize_where _ mi1) as [mi2 positions] eqn:Ef. pose proof (finalize_where_spec (Full (ue_now env)) _ _ M1) as M2. rewrite Ef in M2. cbn [fst] in M2.
  assert (P2 : mi_pending mi2 = mi_pending mi1) by by injection Ef as <- _.
  destruct (saveIndex _ _ _) as [[mi3 err]|e] eqn:E3; [|done]. destruct err as [e|]; [done|]. injection H as <-.
  destruct (saveIndex_spec _ _ _ _ _ _ M2 E3) as (bss3 & M3 & P3 & Q & _). exists bss3. split; [done|]. split; [|split; [|split; [|done]]].
  - intros bh pb T Hp. by apply Q, K1.
  - intros b Hb T. by apply Q, N1.
  - intros h [Hp|[T [pb Hp]%found_in_nonempty]]; apply O1.
    + left. change (mi_pending mi3 !! h <> None) in Hp. by rewrite P3, P2 in Hp.
    + right. split; [done|]. apply found_in_nonempty. exists pb. by apply Q.
Qed.

(** Packs that are there when an upload starts. *)
Context (old : gset ID).

(** A blob that can be read: an index entry, its pack, which is not one of the old ones,
    and the bytes there. *)
Definition stored (packs : gmap ID bytes) (bss : list (Z -> list PackedBlob)) (h : BlobHandle) (d : bytes) : Prop :=
  exists pb file ct, pb ∈ found_in bss h /\ packs !! pb_Pack pb = Some file
    /\ ReadAt file (b_Length (pb_Blob pb)) (b_Offset (pb_Blob pb)) = Ok ct /\ decodePackedBlob st pb ct = Ok d /\ ~ pb_Pack pb ∈ old.

Lemma stored_keeps packs packs' bss bss' h d :
  type_ok (bh_Type h) -> (forall id file, packs !! id = Some file -> packs' !! id = Some file) -> keeps bss bss' ->
  stored packs bss h d -> stored packs' bss' h d.
Proof. intros T P K (pb & file & ct & Hf & Hp & R). exists pb, file, ct. split; [by apply K|]. split; [by apply P|done]. Qed.

Lemma savePacker_stores u bss env p u' :
  clean p -> master (u_idx u) bss -> savePacker Write st u env p = (u', Ok tt) ->
  ~ Sum256 (p_written (finished Write st env p)) ∈ old ->
  exists bss', master (u_idx u') bss' /\ keeps bss bss'
    /\ u_packs u' = <[Sum256 (p_written (finished Write st env p)) := p_written (finished Write st env p)]> (u_packs u)
    /\ (forall h d, type_ok (bh_Type h) -> holds_blob p h d -> stored (u_packs u') bss' h d)
    /\ (forall h, known_at (u_idx u') bss' h -> known_at (u_idx u) bss h \/ (type_ok (bh_Type h) /\ exists d, holds_blob p h d))
    /\ u_tree u' = u_tree u /\ u_data u' = u_data u /\ u_queue u' = u_queue u.
Proof.
  intros Cp M H No. unfold savePacker in H. unfold finished in *.
  destruct (Packer_Finalize Write p (s_key st) (ue_nonce env)) as [q [e|]] eqn:Ef; [done|]. cbn [fst] in *.
  destruct (ue_file env) as [[]|]; [|done]. destruct (ue_Save env) as [[]|]; [|done]. destruct (ue_close env) as [[]|]; [|done].
  set (u1 := u <| u_packs := _ |>) in H. change (u_idx u) with (u_idx u1) in M.
  destruct (store_pack_found _ _ _ _ _ _ M H) as (bss' & M' & K & N & O & Ep & Et & Ed & Eq). exists bss'.
  assert (Q : p_err p = None -> p_blobs q = p_blobs p /\ exists header, p_written q = p_written p ++ header).
  { intros Er. unfold Packer_Finalize in Ef. rewrite Er in Ef. destruct (encryptHeader _ _ _) as [eh|]; [|done].
    destruct (Write _ _) as [n [e|]]; [done|]. destruct (negb _); [done|]. injection Ef as <-. split; [done|]. by eexists. }
  split; [done|]. split; [done|]. split; [done|]. split; [|split; [|done]].
  - intros h d T (adds & a & Er & [W B Lo F] & Ha & [Eh S]). destruct (Q Er) as [Qb [header Qw]]. apply list_elem_of_lookup in Ha as [i Ha].
    destruct (Forall2_lookup_l _ _ _ _ _ F Ha) as (b & Hb & R).
    pose proof (data_at [] adds (p_blobs p) header Lo F) as Da. pose proof (Forall2_lookup_lr _ _ _ _ _ _ Da Ha Hb) as Rd.
    cbn [app] in Rd. rewrite <- W, <- Qw in Rd. pose proof R as (Hh & _ & _). rewrite Eh in Hh.
    exists (mkPackedBlob (Sum256 (p_written q)) b), (p_written q), (a_data a). cbn [pb_Pack pb_Blob]. split; [|split; [|split; [|split]]].
    + rewrite <- Hh. apply N; [rewrite Qb; by eapply list_elem_of_lookup_2|by rewrite Hh].
    + rewrite Ep. apply lookup_insert_eq.
    + exact Rd.
    + by apply S.
    + exact No.
  - intros h [?|(b & -> & Hb)%list_elem_of_fmap]%O; [by left|right]. pose proof Cp as (adds & Er & _).
    rewrite (proj1 (Q Er)) in Hb. by apply clean_holds.
Qed.

Lemma store_pack_frame u env id blobs u' res :
  store_pack u env id blobs = (u', res) -> u_tree u' = u_tree u /\ u_data u' = u_data u /\ u_queue u' = u_queue u.
Proof.
  unfold store_pack. destruct (storePack _ _ _ _ _) as [mi|]; [|by intros [= <- _]]. destruct (finalizeFullIndexes _ _) as [mi' ps].
  destruct (saveIndex _ _ _) as [[mi2 err]|]; by intros [= <- _].
Qed.

Lemma savePacker_frame u env p u' :
  savePacker Write st u env p = (u', Ok tt) -> u_tree u' = u_tree u /\ u_data u' = u_data u /\ u_queue u' = u_queue u.
Proof.
  unfold savePacker. destruct (Packer_Finalize _ _ _ _) as [q [e|]]; [done|]. destruct (ue_file env); [|done].
  destruct (ue_Save env); [|done]. destruct (ue_close env); [|done]. intros H. by apply store_pack_frame in H.
Qed.

(** *** Runs of the uploader *)

Definition all_packers (u : Uploader) : list Packer :=
  open_packers (pm_packers (u_tree u)) ++ open_packers (pm_packers (u_data u)) ++ u_queue u.

Record uploading (u : Uploader) (bss : list (Z -> list PackedBlob)) : Prop := {
  ul_master : master (u_idx u) bss;
  ul_clean : Forall clean (all_packers u);
  ul_old : old ⊆ dom (u_packs u) }.

(** The blob is on its way or stored. *)
Definition has_blob (u : Uploader) (bss : list (Z -> list PackedBlob)) (h : BlobHandle) (d : bytes) : Prop :=
  (exists p, p ∈ all_packers u /\ holds_blob p h d) \/ stored (u_packs u) bss h d.

Lemma has_blob_keeps u u' bss bss' h d :
  type_ok (bh_Type h) -> keeps bss bss' -> (forall id file, u_packs u !! id = Some file -> u_packs u' !! id = Some file) ->
  covers (all_packers u) (all_packers u') -> has_blob u bss h d -> has_blob u' bss' h d.
Proof.
  intros T K P C [(p & Hp & Hh)|S]; [left; by apply (C p h d)|right]. by eapply stored_keeps.
Qed.

Lemma keeps_refl bss : keeps bss bss.
Proof. by intros ? ?. Qed.

Lemma keeps_trans a b c : keeps a b -> keeps b c -> keeps a c.
Proof. intros H1 H2 bh pb T H. by apply H2, H1. Qed.

Lemma AddPending_idx mi bh size mi' added : AddPending mi bh size = Ok (mi', added) -> mi_idx mi' = mi_idx mi.
Proof.
  unfold AddPending. destruct (mi_pending mi !! bh); [by intros [= <- _]|]. intros H. apply rbind_ok in H as (b & _ & H).
  by destruct b; injection H as <- _.
Qed.

Lemma master_same mi mi' bss : mi_idx mi' = mi_idx mi -> master mi bss -> master mi' bss.
Proof. intros E [H F]. split; by rewrite E. Qed.

(** Some of the packers are replaced by others that hold as much. *)
Lemma replaced P P' A A' B :
  P ≡ₚ A ++ B -> P' ≡ₚ A' ++ B -> covers A A' -> Forall clean A' -> Forall clean P ->
  Forall clean P' /\ covers P P' /\ forall p, p ∈ A' -> p ∈ P'.
Proof.
  intros E E' Co Ca C. split; [|split].
  - rewrite E in C. rewrite E'. rewrite Forall_app in C. apply Forall_app. tauto.
  - intros p h d. rewrite E. intros Hp Hh. destruct (covers_app _ _ _ _ Co (covers_refl B) p h d Hp Hh) as (q & Hq & Hh').
    exists q. by rewrite E'.
  - intros p Hp. rewrite E'. apply elem_of_app. by left.
Qed.

Lemma packs_keep_old (packs packs' : gmap ID bytes) :
  (forall id file, packs !! id = Some file -> packs' !! id = Some file) -> old ⊆ dom packs -> old ⊆ dom packs'.
Proof. intros P O id Hid. apply O, elem_of_dom in Hid as [f Hf]. apply elem_of_dom. exists f. by apply P. Qed.

Lemma saveAndEncrypt_has u bss env t data id u' n :
  uploading u bss -> saveAndEncrypt Write st u env t data id = (u', Ok n) -> Sum256 data = id -> zlen data <= MaxUint32 ->
  uploading u' bss /\ covers (all_packers u) (all_packers u') /\ u_packs u' = u_packs u /\ u_idx u' = u_idx u /\ type_ok t
  /\ exists p, p ∈ all_packers u' /\ holds_blob p (mkBlobHandle id t) data.
Proof.
  intros [M C O] H Hid Hl. unfold saveAndEncrypt in H. destruct (encrypt_blob _ _ _ _ _) as [[ct ul]|e] eqn:Ee; [|done].
  pose proof (encrypt_sealed _ _ _ _ _ _ Ee Hid Hl) as S.
  assert (Main : forall pm pm' q A B, type_ok t -> SaveBlob Write pm env t id ct ul = (pm', q, Ok n) -> A = open_packers (pm_packers pm) ->
    all_packers u ≡ₚ A ++ B -> all_packers u' ≡ₚ (open_packers (pm_packers pm') ++ queued_list q) ++ B ->
    Forall clean (all_packers u') /\ covers (all_packers u) (all_packers u') /\ exists p, p ∈ all_packers u' /\ holds_blob p (mkBlobHandle id t) data).
  { intros pm pm' q A B Ty Es -> E E'. assert (Ct : Forall clean (open_packers (pm_packers pm))) by (rewrite E, Forall_app in C; tauto).
    destruct (SaveBlob_holds _ _ _ _ _ _ _ _ _ Ct (conj Ty (ex_intro _ data S)) Es) as (Ca & Co & N). destruct (replaced _ _ _ _ _ E E' Co Ca C) as (R1 & R2 & R3).
    split; [done|]. split; [done|]. destruct (N _ _ S) as (p & Hp & Hh). eauto. }
  destruct (Z.eqb_spec t TreeBlob) as [->|]; [|destruct (Z.eqb_spec t DataBlob) as [->|]; [|done]];
    (destruct (SaveBlob _ _ _ _ _ _ _) as [[pm q] res] eqn:Es; injection H as <- ->).
  - destruct (Main _ _ _ _ (open_packers (pm_packers (u_data u)) ++ u_queue u) ltac:(done) Es eq_refl) as (? & ? & ?); [done| |split; [by split|done]].
    change (open_packers (pm_packers pm) ++ open_packers (pm_packers (u_data u)) ++ u_queue u ++ queued_list q
      ≡ₚ (open_packers (pm_packers pm) ++ queued_list q) ++ open_packers (pm_packers (u_data u)) ++ u_queue u). solve_Permutation.
  - destruct (Main _ _ _ _ (open_packers (pm_packers (u_tree u)) ++ u_queue u) ltac:(done) Es eq_refl) as (? & ? & ?); [| |split; [by split|done]].
    + unfold all_packers. solve_Permutation.
    + change (open_packers (pm_packers (u_tree u)) ++ open_packers (pm_packers pm) ++ u_queue u ++ queued_list q
        ≡ₚ (open_packers (pm_packers pm) ++ queued_list q) ++ open_packers (pm_packers (u_tree u)) ++ u_queue u). solve_Permutation.
Qed.

Context (chunker_MinSize : Z).

(** Everything the index says it has was there at the start, or is on its way or stored. *)
Definition accounted (start : BlobHandle -> Prop) (u : Uploader) (bss : list (Z -> list PackedBlob)) : Prop :=
  forall h, known_at (u_idx u) bss h -> start h \/ (type_ok (bh_Type h) /\ exists d, has_blob u bss h d).

(** One step keeps what is there, and has the blobs given to it; those that no packer takes
    are there, or the index had them at the start. *)
Record advances (u : Uploader) (bss : list (Z -> list PackedBlob)) (given : list Given)
    (u' : Uploader) (bss' : list (Z -> list PackedBlob)) : Prop := {
  av_uploading : uploading u' bss';
  av_keeps : keeps bss bss';
  av_packs : forall id file, u_packs u !! id = Some file -> u_packs u' !! id = Some file;
  av_blobs : forall h d, type_ok (bh_Type h) -> has_blob u bss h d -> has_blob u' bss' h d;
  av_given : forall g, g ∈ given -> bh_ID (g_handle g) = Sum256 (g_data g)
    /\ (g_packed g = true -> type_ok (bh_Type (g_handle g)) /\ has_blob u' bss' (g_handle g) (g_data g));
  av_accounted : forall start, accounted start u bss -> accounted start u' bss'
    /\ forall g, g ∈ given -> g_packed g = false ->
         start (g_handle g) \/ (type_ok (bh_Type (g_handle g)) /\ exists d, has_blob u' bss' (g_handle g) d) }.

(** A step that gives no blob. *)
Lemma advances_nothing u bss u' bss' :
  uploading u' bss' -> keeps bss bss' -> (forall id file, u_packs u !! id = Some file -> u_packs u' !! id = Some file) ->
  (forall h d, type_ok (bh_Type h) -> has_blob u bss h d -> has_blob u' bss' h d) ->
  (forall h, known_at (u_idx u') bss' h -> known_at (u_idx u) bss h \/ (type_ok (bh_Type h) /\ exists d, has_blob u' bss' h d)) ->
  advances u bss [] u' bss'.
Proof.
  intros U K P B Kn. split; [done..|by intros g ?%elem_of_nil|]. intros start A. split; [|by intros g ?%elem_of_nil].
  intros h [[?|(T & d & Hd)]%A|?]%Kn; [by left|right|by right]. split; [done|]. exists d. by apply B.
Qed.

Lemma saveBlob_advances u bss env t buf id storeDuplicate u' newID known size :
  uploading u bss -> saveBlob Write st chunker_MinSize u env t buf id storeDuplicate = (u', Ok (newID, known, size)) ->
  is_zero_id id = true \/ Sum256 buf = id ->
  advances u bss [mkGiven (mkBlobHandle newID t) buf (negb known || storeDuplicate)] u' bss.
Proof.
  intros [M C O] H Hid. unfold saveBlob in H. destruct (negb (is_ok (e_ctx env))); [done|]. destruct (Z.ltb_spec MaxUint32 (zlen buf)) as [|Hl]; [done|].
  rewrite (blob_id_hash _ _ _ Hid) in H. destruct (AddPending _ _ _) as [[mi added]|e] eqn:Ea; [|done].
  set (h0 := mkBlobHandle (Sum256 buf) t) in *. set (u1 := u <| u_idx := mi |>) in H.
  assert (U1 : uploading u1 bss) by (split; [by eapply master_same; [eapply AddPending_idx|]|exact C|exact O]).
  assert (Kn : forall h, known_at mi bss h -> known_at (u_idx u) bss h \/ (added = true /\ h = h0)).
  { intros h [Hp|?]; [|by left; right]. destruct added; [|apply AddPending_known with (bss := bss) in Ea as [_ ->]; [by left; left|done]].
    apply AddPending_new in Ea as ->. change (<[h0 := zlen buf]> (mi_pending (u_idx u)) !! h <> None) in Hp.
    destruct (decide (h0 = h)) as [<-|Ne]; [by right|]. rewrite lookup_insert_ne in Hp by done. by left; left. }
  destruct (added || storeDuplicate) eqn:Es.
  - destruct (saveAndEncrypt _ _ _ _ _ _ _) as [u2 [n|e]] eqn:E2; [|done]. injection H as <- <- <- <-. rewrite negb_involutive, Es.
    destruct (saveAndEncrypt_has _ _ _ _ _ _ _ _ U1 E2 eq_refl ltac:(lia)) as (U2 & Co & Ep & Ei & T & N).
    assert (B : forall h d, type_ok (bh_Type h) -> has_blob u bss h d -> has_blob u2 bss h d).
    { intros h d Th Hh. apply (has_blob_keeps u1 u2 bss bss); [done|apply keeps_refl|by rewrite Ep|done|exact Hh]. }
    split; [done|apply keeps_refl|by rewrite Ep|done| |].
    + intros g ->%list_elem_of_singleton. split; [done|]. intros _. split; [done|]. by left.
    + intros start A. split; [|by intros g ->%list_elem_of_singleton]. intros h. rewrite Ei.
      intros [[?|(Th & d & Hd)]%A|[_ ->]]%Kn; [by left|right; split; [done|exists d; by apply B]|right; split; [done|exists buf; by left]].
  - injection H as <- <- <- _. rewrite negb_involutive, Es. apply orb_false_iff in Es as [-> _].
    pose proof (AddPending_known _ bss _ _ _ M Ea) as [K0 _]. split; [done|apply keeps_refl|done|done| |].
    + by intros g ->%list_elem_of_singleton.
    + intros start A. split; [intros h [?%A|[? _]]%Kn; done|]. intros g ->%list_elem_of_singleton _. by apply (A h0).
Qed.

Lemma up_step_advances u bss given u' :
  uploading u bss -> up_step Write st chunker_MinSize u given u' -> exists bss', advances u bss given u' bss'.
Proof.
  intros U S. destruct S as [u env t buf id dup u' newID known size E Hid|u0 u0' [u env before p after u' Eq E Pk]].
  - exists bss. by eapply saveBlob_advances.
  - destruct U as [M C O]. set (u1 := u <| u_queue := before ++ after |>) in E. change (u_idx u) with (u_idx u1) in M.
    destruct Pk as [Fp _].
    assert (Pm : all_packers u ≡ₚ [p] ++ all_packers u1).
    { unfold all_packers. rewrite Eq. change (u_tree u1) with (u_tree u). change (u_data u1) with (u_data u).
      change (u_queue u1) with (before ++ after). solve_Permutation. }
    rewrite Pm in C. apply Forall_app in C as [Cp C1]. inversion_clear Cp as [|? ? Cp' _].
    destruct (savePacker_stores _ _ _ _ _ Cp' M E) as (bss' & M' & K & Ep & N & Kn & Et & Ed & Eq').
    { intros Ho. by apply O, elem_of_dom in Ho as [? Ho]; rewrite Ho in Fp. }
    exists bss'. assert (Ea : all_packers u' = all_packers u1) by (unfold all_packers; congruence).
    assert (P : forall id file, u_packs u !! id = Some file -> u_packs u' !! id = Some file).
    { intros id file Hf. rewrite Ep, lookup_insert_ne; [done|]. intros Ei. rewrite Ei, Hf in Fp. done. }
    apply advances_nothing; [split; [done|by rewrite Ea|by eapply packs_keep_old]|done|done| |].
    + intros h d T [(p0 & Hp & Hh)|S]; [|right; by eapply stored_keeps]. rewrite Pm in Hp.
      apply elem_of_app in Hp as [->%list_elem_of_singleton|Hp]; [right; by apply N|left]. exists p0. by rewrite Ea.
    + intros h [?|(T & d & Hd)]%Kn; [by left|right]. split; [done|]. exists d. right. by apply N.
Qed.

Lemma advances_trans u bss given u1 bss1 given' u2 bss2 :
  advances u bss given u1 bss1 -> advances u1 bss1 given' u2 bss2 -> advances u bss (given ++ given') u2 bss2.
Proof.
  intros [_ K1 P1 H1 N1 A1] [U2 K2 P2 H2 N2 A2]. split; [done|by eapply keeps_trans|auto|auto| |].
  - intros g [Hg|Hg]%elem_of_app; [|by apply N2]. destruct (N1 g Hg) as [E Hp]. split; [done|]. intros [T Hb]%Hp. split; [done|auto].
  - intros start A. destruct (A1 _ A) as [B1 G1]. destruct (A2 _ B1) as [B2 G2]. split; [done|].
    intros g [Hg|Hg]%elem_of_app Np; [|by apply G2]. destruct (G1 g Hg Np) as [?|(T & d & Hd)]; [by left|right; split; [done|exists d; auto]].
Qed.

Lemma advances_refl u bss : uploading u bss -> advances u bss [] u bss.
Proof. intros U. apply advances_nothing; [done|apply keeps_refl|done|done|by left]. Qed.

Lemma up_steps_advances u bss given u' :
  uploading u bss -> up_steps Write st chunker_MinSize u given u' -> exists bss', advances u bss given u' bss'.
Proof.
  intros U S. revert bss U. induction S as [u|u given u1 given' u2 S1 _ IH]; intros bss U; [exists bss; by apply advances_refl|].
  destruct (up_step_advances _ _ _ _ U S1) as [bss1 A1]. destruct (IH bss1 (av_uploading _ _ _ _ _ A1)) as [bss2 A2].
  exists bss2. by eapply advances_trans.
Qed.

Lemma flush_packers_advances rewind queue u bss u' :
  uploading u bss -> flush_packers Write rewind queue u = (u', Ok tt) ->
  advances u bss [] u' bss /\ all_packers u' = u_queue u'.
Proof.
  intros [M C O] H. unfold flush_packers in H. unfold all_packers in C. rewrite !Forall_app in C. destruct C as (Ct & Cd & Cq).
  destruct (pm_Flush _ _ _ (u_tree u)) as [[tree q1] [[]|e]] eqn:E1; [|done].
  destruct (Flush_holds _ _ _ _ _ Ct E1) as (O1 & C1 & Co1).
  change (u_data (u <| u_tree := tree |> <| u_queue := _ |>)) with (u_data u) in H.
  destruct (pm_Flush _ _ _ (u_data u)) as [[data q2] res] eqn:E2. injection H as <- ->.
  destruct (Flush_holds _ _ _ _ _ Cd E2) as (O2 & C2 & Co2). 
  match goal with |- advances _ _ _ ?x _ /\ _ => set (u' := x) end.
  assert (Ea : all_packers u' = (u_queue u ++ q1) ++ q2).
  { change (open_packers (pm_packers tree) ++ open_packers (pm_packers data) ++ (u_queue u ++ q1) ++ q2 = (u_queue u ++ q1) ++ q2). by rewrite O1, O2. }
  assert (Co : covers (all_packers u) (all_packers u')).
  { rewrite Ea. eapply covers_trans; [exact (covers_app _ _ _ _ Co1 (covers_app _ _ _ _ Co2 (covers_refl (u_queue u))))|].
    apply covers_sub. intros p. rewrite !elem_of_app. tauto. }
  split; [|exact Ea]. apply advances_nothing; [split; [exact M|rewrite Ea, !Forall_app; tauto|exact O]|apply keeps_refl|done| |by left].
  intros h d T Hh. by apply (has_blob_keeps u u' bss bss); [|apply keeps_refl|..].
Qed.

Lemma flush_index_keeps SaveUnpacked u bss u' :
  master (u_idx u) bss -> flush_index SaveUnpacked u = (u', Ok tt) ->
  exists bss', master (u_idx u') bss' /\ keeps bss bss' /\ u_packs u' = u_packs u.
Proof.
  intros M H. unfold flush_index in H. change (u_idx (u <| u_indexes := _ |>)) with (u_idx u) in H.
  unfold Flush in H. destruct (finalizeNotFinalIndexes (u_idx u)) as [mi positions] eqn:Ef.
  assert (M1 : master mi bss).
  { unfold finalizeNotFinalIndexes in Ef. pose proof (finalize_where_spec (fun _ => true) _ _ M) as M1. by rewrite Ef in M1. }
  destruct (saveIndex _ _ _) as [[mi' [e|]]|e] eqn:E; [done| |done]. injection H as <-.
  destruct (saveIndex_spec _ _ _ _ _ _ M1 E) as (bss' & M' & _ & Q & _). exists bss'. split; [done|]. split; [|done].
  intros bh pb T Hp. by apply Q.
Qed.

Lemma up_steps_queue u given u' :
  up_steps Write st chunker_MinSize u given u' -> given = [] -> all_packers u = u_queue u -> all_packers u' = u_queue u'.
Proof.
  intros S. induction S as [u|u given u1 given' u2 S1 _ IH]; [done|]. intros [-> ->]%app_eq_nil E. apply IH; [done|]. clear IH.
  inversion S1 as [|? ? [? env before p after ? Eq Es Pk]]; subst.
  destruct (savePacker_frame _ _ _ _ Es) as (Et & Ed & Eq'). unfold all_packers in *. rewrite Et, Ed, Eq'.
  change (u_tree (u <| u_queue := _ |>)) with (u_tree u). change (u_data (u <| u_queue := _ |>)) with (u_data u).
  assert (open_packers (pm_packers (u_tree u)) = [] /\ open_packers (pm_packers (u_data u)) = []) as [-> ->]; [|done].
  rewrite app_assoc in E. assert (L : length (open_packers (pm_packers (u_tree u)) ++ open_packers (pm_packers (u_data u))) = 0%nat).
  { apply (f_equal length) in E. rewrite length_app in E. lia. }
  rewrite length_app in L. split; apply nil_length_inv; lia.
Qed.

(** After an upload: the blobs that packers took are stored; the others are, or were known
    at the start. *)
Lemma uploaded_stores u bss given u' :
  uploading u bss -> uploaded Write st chunker_MinSize u given u' ->
  exists bss', master (u_idx u') bss' /\ keeps bss bss'
    /\ (forall id file, u_packs u !! id = Some file -> u_packs u' !! id = Some file)
    /\ forall g, g ∈ given -> bh_ID (g_handle g) = Sum256 (g_data g)
       /\ (g_packed g = true -> type_ok (bh_Type (g_handle g)) /\ stored (u_packs u') bss' (g_handle g) (g_data g))
       /\ (g_packed g = false -> known_at (u_idx u) bss (g_handle g)
            \/ (type_ok (bh_Type (g_handle g)) /\ exists d, stored (u_packs u') bss' (g_handle g) d)).
Proof.
  intros U (u1 & u2 & u3 & rewind & queue & SU & S1 & F & S2 & Q & Fi & _).
  destruct (up_steps_advances _ _ _ _ U S1) as [bss1 A1]. destruct (flush_packers_advances _ _ _ _ _ (av_uploading _ _ _ _ _ A1) F) as [A2 Eq2].
  destruct (up_steps_advances _ _ _ _ (av_uploading _ _ _ _ _ A2) S2) as [bss3 A3]. pose proof (up_steps_queue _ _ _ S2 eq_refl Eq2) as Eq3.
  pose proof (advances_trans _ _ _ _ _ _ _ _ A1 (advances_trans _ _ _ _ _ _ _ _ A2 A3)) as [U3 K3 P3 _ N3 G3]. rewrite app_nil_r in N3, G3.
  destruct (flush_index_keeps _ _ _ _ (ul_master _ _ U3) Fi) as (bss' & M' & K' & Ep). exists bss'.
  assert (St : forall h d, type_ok (bh_Type h) -> has_blob u3 bss3 h d -> stored (u_packs u') bss' h d).
  { intros h d T [(p & Hp & _)|S]; [by rewrite Eq3, Q in Hp; apply elem_of_nil in Hp|]. eapply stored_keeps; [done| |exact K'|exact S]. by rewrite Ep. }
  split; [done|]. split; [by eapply keeps_trans|]. split; [rewrite Ep; exact P3|]. intros g Hg. destruct (N3 g Hg) as [E Hp].
  split; [done|]. split; [intros [T Hb]%Hp; split; [done|by apply St]|]. intros Np.
  destruct (proj2 (G3 (known_at (u_idx u) bss) (fun h K => or_introl K)) g Hg Np) as [?|(T & d & Hd)]; [by left|right; split; [done|]].
  exists d. by apply St.
Qed.

(** *** Loading *)

Lemma decode_hash pb buf d : decodePackedBlob st pb buf = Ok d -> Sum256 d = bh_ID (b_handle (pb_Blob pb)).
Proof. intros H. unfold decodePackedBlob in H. inv_results. split_bools. done. Qed.

Lemma load_packs_hash read blobs e d h :
  load_packs st read blobs e = Ok d -> Forall (fun pb => b_handle (pb_Blob pb) = h) blobs -> Sum256 d = bh_ID h.
Proof.
  intros H F. revert e H. induction F as [|pb blobs Hh F IH]; intros e H; [done|]. cbn [load_packs] in H.
  destruct (rbind _ _) as [d'|e'] eqn:E; [|by eapply IH]. injection H as ->. apply rbind_ok in E as (ct & _ & E).
  apply decode_hash in E. rewrite E, <- Hh. done.
Qed.

Lemma load_packs_found packs blobs e d :
  load_packs st (read_pack packs) blobs e = Ok d ->
  exists pb file ct, pb ∈ blobs /\ packs !! pb_Pack pb = Some file
    /\ ReadAt file (b_Length (pb_Blob pb)) (b_Offset (pb_Blob pb)) = Ok ct /\ decodePackedBlob st pb ct = Ok d.
Proof.
  revert e. induction blobs as [|pb blobs IH]; intros e H; cbn [load_packs] in H; [done|].
  destruct (rbind _ _) as [d'|e'] eqn:E.
  - injection H as ->. apply rbind_ok in E as (ct & Ec & E). unfold read_pack in Ec. destruct (packs !! pb_Pack pb) as [file|] eqn:Ef; [|done].
    exists pb, file, ct. split; [apply list_elem_of_here|]. done.
  - destruct (IH _ H) as (pb' & file & ct & Hp & R). exists pb', file, ct. split; [by apply list_elem_of_further|done].
Qed.

Lemma load_packs_finds packs blobs e pb file ct d :
  pb ∈ blobs -> packs !! pb_Pack pb = Some file ->
  ReadAt file (b_Length (pb_Blob pb)) (b_Offset (pb_Blob pb)) = Ok ct -> decodePackedBlob st pb ct = Ok d ->
  is_ok (load_packs st (read_pack packs) blobs e) = true.
Proof.
  intros Hp Hf Hr Hd. revert e. induction blobs as [|pb' blobs IH]; intros e; [by apply elem_of_nil in Hp|]. cbn [load_packs].
  apply elem_of_cons in Hp as [<-|Hp].
  - unfold read_pack at 1. rewrite Hf, Hr. cbn [rbind]. by rewrite Hd.
  - destruct (rbind _ _); [done|]. by apply IH.
Qed.

(** The cache of blobs gives nothing wrong, and does not fail. *)
Lemma load_cached_hash manager blobs res h :
  load_cached manager blobs = Some res -> Forall (fun pb => b_handle (pb_Blob pb) = h) blobs -> exists d, res = Ok d /\ Sum256 d = bh_ID h.
Proof.
  intros H F. unfold load_cached in H. destruct manager as [m|]; [|done]. destruct F as [|pb blobs Hh _]; [done|].
  rewrite decoder in H. unfold right_hash in H. subst h.
  repeat match type of H with context [match ?x with _ => _ end] => destruct x eqn:? end; simplify_eq; split_bools; eauto.
Qed.

Lemma loadBlob_hash manager read blobs d h :
  loadBlob st manager read blobs = Ok d -> Forall (fun pb => b_handle (pb_Blob pb) = h) blobs -> Sum256 d = bh_ID h.
Proof.
  intros H F. unfold loadBlob in H. destruct (load_cached _ _) as [res|] eqn:E; [|by eapply load_packs_hash].
  destruct (load_cached_hash _ _ _ _ E F) as (d' & -> & Hd). by injection H as <-.
Qed.

Lemma sortCachedPacksFirst_perm cache blobs : Permutation (sortCachedPacksFirst cache blobs) blobs.
Proof.
  destruct cache as [has|]; [|done]. cbn [sortCachedPacksFirst]. induction blobs as [|pb blobs IH]; [done|]. rewrite !filter_cons.
  destruct (has (pb_Pack pb)) eqn:E.
  - rewrite decide_True, decide_False by done. cbn [app]. by constructor.
  - rewrite decide_False, decide_True by done. rewrite <- Permutation_middle. by constructor.
Qed.

Lemma LoadBlob_hash env packs mi bss h d :
  master mi bss -> type_ok (bh_Type h) -> LoadBlob st env packs mi h = Ok d -> Sum256 d = bh_ID h.
Proof.
  intros M T H. unfold LoadBlob in H. rewrite (MasterLookup_spec mi bss h M T) in H. cbn [rbind] in H.
  apply rbind_ok in H as ([] & _ & H).
  match type of H with context [sortCachedPacksFirst ?c ?l] => assert (F : Forall (fun pb => b_handle (pb_Blob pb) = h) (sortCachedPacksFirst c l)) end.
  { rewrite sortCachedPacksFirst_perm. apply Forall_forall. intros pb Hp. apply found_in_elem in Hp as (bs & _ & Hb).
    by apply of_handle_elem in Hb as [Hb _]. }
  destruct (loadBlob _ (l_manager env) _ _) eqn:E; [injection H as ->|]; by eapply loadBlob_hash.
Qed.

(** What is stored is loaded, whatever the caches have. *)
Lemma stored_LoadBlob env packs mi bss h d :
  master mi bss -> type_ok (bh_Type h) -> stored packs bss h d -> is_ok (LoadBlob st env packs mi h) = true.
Proof.
  intros M T (pb & file & ct & Hf & R1 & R2 & R3 & _). unfold LoadBlob. rewrite (MasterLookup_spec mi bss h M T). cbn [rbind].
  rewrite bool_decide_eq_false_2 by (intros E; rewrite E in Hf; by apply elem_of_nil in Hf). cbn [guard rbind].
  destruct (loadBlob _ (l_manager env) _ _); [done|]. unfold loadBlob.
  destruct (load_cached _ _) as [res|] eqn:E.
  - destruct (load_cached_hash _ _ _ h E) as (d' & -> & _); [|done]. rewrite sortCachedPacksFirst_perm. apply Forall_forall.
    intros pb' Hp. apply found_in_elem in Hp as (bs & _ & Hb). by apply of_handle_elem in Hb as [Hb _].
  - eapply load_packs_finds; [|exact R1|exact R2|exact R3]. by rewrite sortCachedPacksFirst_perm.
Qed.

(** Without caches. *)
Definition no_caches : loadEnv := mkLoadEnv None None None.

Lemma LoadBlob_stored packs mi bss h d :
  old = ∅ -> master mi bss -> type_ok (bh_Type h) -> LoadBlob st no_caches packs mi h = Ok d -> exists d', stored packs bss h d'.
Proof.
  intros O M T H. unfold LoadBlob in H. rewrite (MasterLookup_spec mi bss h M T) in H. cbn [rbind] in H.
  apply rbind_ok in H as ([] & _ & H). cbn in H. unfold loadBlob in H. cbn [load_cached] in H.
  assert (exists e, load_packs st (read_pack packs) (found_in bss h) e = Ok d) as [e Hl] by (destruct (load_packs _ _ _ _) eqn:E; simplify_eq; eauto).
  apply load_packs_found in Hl as (pb & file & ct & Hp & R1 & R2 & R3). exists d, pb, file, ct. rewrite O. do 4 (split; [done|]). apply not_elem_of_empty.
Qed.
End Theory.
End UploadTheory.

(** ** Properties *)

Module UploadProps.
Import IndexTheory IndexProps MasterTheory PackProps UploadTheory.

(** Nothing is on its way. *)
Definition idle (u : Uploader) : Prop :=
  open_packers (pm_packers (u_tree u)) = [] /\ open_packers (pm_packers (u_data u)) = [] /\ u_queue u = [].


(** ** Headers that are too large *)

Section TooLarge.
Context {cipher : Cipher} {laws : CipherLaws} (Write : bytes -> bytes -> Z * option string).

Lemma readHeader_bound h b :
  zlen h < 2 ^ 32 -> readHeader (h ++ le 4 (zlen h)) (zlen (h ++ le 4 (zlen h))) = Ok b -> zlen h <= MaxHeaderSize - headerLengthSize.
Proof.
  intros Hb H. unfold readHeader in H. apply rbind_ok in H as ([] & G & H). apply guard_ok in G. split_bools.
  apply rbind_ok in H as ([b' c] & H & _). unfold readRecords in H. set (f := h ++ le 4 (zlen h)) in *.
  set (n := if zlen f <? eagerSize then zlen f else eagerSize) in H.
  assert (Hn : 4 <= n <= zlen f).
  { unfold n. change eagerSize with 651. change minFileSize with 73 in G. destruct (Z.ltb_spec (zlen f) 651); lia. }
  apply rbind_ok in H as (w & Er & H). unfold ReadAt in Er. inv_results.
  assert (Ew : from (length (sub (Z.to_nat (zlen f - n)) (Z.to_nat (zlen f - n + n)) f) - 4) (sub (Z.to_nat (zlen f - n)) (Z.to_nat (zlen f - n + n)) f) = le 4 (zlen h)).
  { assert (Lf : length f = (length h + 4)%nat) by (unfold f; rewrite length_app, le_length; lia).
    unfold from, sub. rewrite take_ge by (rewrite length_drop; unfold zlen; lia). rewrite drop_drop, length_drop.
    replace (_ + _)%nat with (length h) by (unfold zlen in *; lia). unfold f. apply drop_app_length. }
  rewrite Ew in *. pose proof (zlen_nonneg h). rewrite unle_le in * by (change (256 ^ Z.of_nat 4) with (2 ^ 32); lia). split_bools. lia.
Qed.

Lemma encryptHeader_too_large k nonce blobs :
  Forall (fun b => id_ok (bh_ID (b_handle b))) blobs -> MaxHeaderSize < CalculateHeaderSize blobs < 2 ^ 32 ->
  is_ok (encryptHeader k nonce blobs) = false.
Proof.
  intros F B. destruct (encryptHeader k nonce blobs) as [eh|] eqn:H; [exfalso|done]. unfold encryptHeader in H. inv_results.
  assert (Zn : zlen nonce = ivSize) by (unfold Seal in E0; inv_results; split_bools; lia).
  destruct (Seal_length _ _ _ _ _ E0) as (ct & Eh & Zc).
  assert (Zh : zlen a0 = CalculateHeaderSize blobs - headerLengthSize).
  { rewrite Eh, zlen_app, Zc, Zn, (makeHeader_length blobs a) by done. unfold headerSize, Overhead, Extension. lia. }
  unfold verifyHeader in E1. apply rbind_ok in E1 as ([decoded hdr] & EL & _). unfold List in EL. apply rbind_ok in EL as (buf & Er & _).
  apply readHeader_bound in Er; unfold headerLengthSize in *; lia.
Qed.

Lemma recorded_header_size adds blobs :
  Forall2 recorded adds blobs ->
  CalculateHeaderSize blobs = headerSize + foldr (fun a n => CalculateEntrySize (negb (wrap_u 64 (a_uncompressed a) =? 0)) + n) 0 adds.
Proof.
  intros F. induction F as [|a b adds blobs (_ & _ & Hu) _ IH]; [done|]. unfold CalculateHeaderSize. cbn [foldl foldr].
  rewrite calculate_shift, IH. unfold IsCompressed. rewrite Hu. lia.
Qed.

(** Two open packs can be merged into one that cannot be finished: [mergePackers] looks
    only at the sizes of the packs, so that two packs of small compressed blobs, each with
    room in its header, give one whose header is larger than a header may be, and the
    flush fails. *)
Theorem mergePackers_header_too_large (rewind : Packer -> result unit) (target : Z) (adds adds' : list addition) :
  (forall written data, Write written data = (zlen data, None)) -> (forall p, rewind p = Ok tt) ->
  Forall (fun a => id_ok (a_id a) /\ wrap_u 64 (a_uncompressed a) <> 0) (adds ++ adds') ->
  MaxHeaderEntries < zlen (adds ++ adds') < 2 ^ 26 -> zlen (concat (map a_data (adds ++ adds'))) < target < 2 ^ 64 ->
  exists m, mergePackers Write rewind target [Some (add_all Write NewPacker adds); Some (add_all Write NewPacker adds')] [] None
              = ([None; None], Ok [m])
    /\ forall k nonce, snd (Packer_Finalize Write m k nonce) <> None.
Proof.
  intros Wr Rw Fa B T.
  assert (Er : forall l p, p_err p = None -> p_err (add_all Write p l) = None).
  { induction l as [|a l IH]; intros p E; [done|]. cbn. apply IH. unfold add_one, Packer_Add. rewrite E, Wr. cbn. by rewrite Z.eqb_refl. }
  set (p := add_all Write NewPacker adds). set (q := add_all Write NewPacker adds').
  pose proof (add_all_packed Write NewPacker [] adds eq_refl new_packed (Er adds NewPacker eq_refl)) as P. fold p in P. cbn [app] in P.
  pose proof (add_all_packed Write NewPacker [] adds' eq_refl new_packed (Er adds' NewPacker eq_refl)) as Q. fold q in Q. cbn [app] in Q.
  pose proof (add_all_packed Write p adds adds' (Er adds NewPacker eq_refl) P (Er adds' _ (Er adds NewPacker eq_refl))) as M.
  assert (Erm : p_err (add_all Write p adds') = None) by exact (Er adds' p (Er adds NewPacker eq_refl)).
  set (m := add_all Write p adds') in *. exists m.
  assert (Em : Merge Write p (p_blobs q) (p_written q) = (m, None)).
  { destruct Q as [W _ _ F]. rewrite W, (Merge_adds Write p adds' (p_blobs q) (Er adds NewPacker eq_refl) F). fold m. by rewrite Erm. }
  assert (Sz : p_bytes p + p_bytes q = zlen (concat (map a_data (adds ++ adds')))).
  { rewrite (pk_bytes _ _ P), (pk_bytes _ _ Q), (pk_written _ _ P), (pk_written _ _ Q), map_app, concat_app, zlen_app. done. }
  pose proof (zlen_nonneg (concat (map a_data (adds ++ adds')))). split.
  - cbn [mergePackers]. rewrite Sz, wrap_u_small by range. rewrite (proj2 (Z.ltb_lt _ _)) by lia. by rewrite Rw, Em.
  - intros k nonce. unfold Packer_Finalize. rewrite Erm.
    pose proof (pk_blobs _ _ M) as F. pose proof (encryptHeader_too_large k nonce (p_blobs m)) as X.
    destruct (encryptHeader k nonce (p_blobs m)); [|done]. exfalso. cut (true = false); [done|]. apply X.
    + apply Forall_forall. intros b Hb. apply list_elem_of_lookup in Hb as [i Hi]. destruct (Forall2_lookup_r _ _ _ _ _ F Hi) as (ad & Ha & (Hh & _)).
      rewrite Hh. exact (proj1 (proj1 (Forall_lookup _ _) Fa i ad Ha)).
    + rewrite (recorded_header_size _ _ F).
      assert (Sum : foldr (fun a n => CalculateEntrySize (negb (wrap_u 64 (a_uncompressed a) =? 0)) + n) 0 (adds ++ adds') = entrySize * zlen (adds ++ adds')).
      { clear - Fa. induction Fa as [|a l [_ Hu] _ IH]; [done|]. cbn [foldr]. rewrite IH, zlen_cons. rewrite (proj2 (Z.eqb_neq _ _)) by done.
        cbn [negb CalculateEntrySize]. lia. }
      rewrite Sum. change MaxHeaderEntries with 409199 in B. change MaxHeaderSize with 16777220. change headerSize with 36. change entrySize with 41. lia.
Qed.
End TooLarge.

(** ** Witnesses *)

#[local] Existing Instances toy_cipher toy_laws.

(** A compression that puts a byte in front. *)
Definition toy_decode (d : bytes) : result bytes :=
  match d with b :: d => if b2z b =? 40 then Ok d else Err "magic number mismatch" | [] => Err "EOF" end.
#[local] Instance toy_zstd : Zstd := { getZstdEncoder := Ok (cons x28); getZstdDecoder := Ok toy_decode }.
#[local] Instance toy_zstd_laws : ZstdLaws.
Proof. constructor. intros enc dec data [= <-] [= <-]. reflexivity. Qed.

Definition full_Write (_ data : bytes) : Z * option string := (zlen data, None).
Definition toy_settings : Settings := mkSettings 2 false false toy_key.
Definition toy_hash (seed : Z) (id : ID) : Z := match id with b :: _ => b2z b + seed | [] => seed end.
Definition toy_manager : packerManager := newConfiguredPackerManager (16 * 1024 * 1024) MaxPackSize 0 0 2.
Definition toy_uploader : Uploader := mkUploader toy_manager toy_manager [] ∅ ∅ (NewMasterIndex 0 toy_hash).
Definition toy_call (slot : nat) : callEnv := mkCallEnv (Ok tt) (Ok slot) (Ok tt) (Ok tt) toy_nonce.
Definition toy_upload : uploadEnv := mkUploadEnv toy_nonce (Ok tt) (Ok tt) (Ok tt) 0 toy_hash (fun _ => (repeat x09 32, None)).
Definition toy_save (u : Uploader) (slot : nat) (t : Z) (data : bytes) := saveBlob full_Write toy_settings (512 * 1024) u (toy_call slot) t data (repeat x00 32) false.
Definition toy_packer (u : Uploader) (i : nat) : Packer := default NewPacker (u_queue u !! i).
Definition toy_pack (u : Uploader) := savePacker full_Write toy_settings (u <| u_queue := drop 1 (u_queue u) |>) toy_upload (toy_packer u 0).

(** Two data blobs in different packs, which are merged at the end, and a tree. *)
Definition toy_u1 := fst (toy_save toy_uploader 0 DataBlob (str "one")).
Definition toy_u2 := fst (toy_save toy_u1 1 DataBlob (str "two")).
Definition toy_u3 := fst (toy_save toy_u2 0 TreeBlob (str "a tree")).
Definition toy_u4 := fst (flush_packers full_Write (fun _ => Ok tt) (fun _ => Ok tt) toy_u3).
Definition toy_u5 := fst (toy_pack toy_u4).
Definition toy_u6 := fst (toy_pack toy_u5).
Definition toy_u7 := fst (flush_index (fun _ => (repeat x08 32, None)) toy_u6).
Definition toy_given : list Given :=
  [mkGiven (mkBlobHandle (Sum256 (str "one")) DataBlob) (str "one") true; mkGiven (mkBlobHandle (Sum256 (str "two")) DataBlob) (str "two") true;
   mkGiven (mkBlobHandle (Sum256 (str "one")) DataBlob) (str "one") false;
   mkGiven (mkBlobHandle (Sum256 (str "a tree")) TreeBlob) (str "a tree") true].

Lemma ends_ok {A} (r : A * result unit) : is_ok (snd r) = true -> r = (fst r, Ok tt).
Proof. by destruct r as [a [[]|]]. Qed.

Lemma toy_save_step u slot t data size :
  snd (toy_save u slot t data) = Ok (Sum256 data, false, size) ->
  up_step full_Write toy_settings (512 * 1024) u [mkGiven (mkBlobHandle (Sum256 data) t) data true] (fst (toy_save u slot t data)).
Proof.
  intros E. apply (up_save full_Write toy_settings (512 * 1024) u (toy_call slot) t data (repeat x00 32) false _ (Sum256 data) false size); [|by left].
  by apply injective_projections.
Qed.

(** A duplicate changes nothing. *)
Lemma toy_known_step u slot t data size :
  snd (toy_save u slot t data) = Ok (Sum256 data, true, size) ->
  up_step full_Write toy_settings (512 * 1024) u [mkGiven (mkBlobHandle (Sum256 data) t) data false] u.
Proof.
  intros E. assert (Eu : fst (toy_save u slot t data) = u).
  { unfold toy_save, saveBlob in *. destruct (negb _); [done|]. destruct (_ <? _); [done|].
    destruct (AddPending _ _ _) as [[mi added]|] eqn:Ea; [|done]. destruct added; cbn [orb] in *.
    - destruct (saveAndEncrypt _ _ _ _ _ _ _) as [u1 [n|]]; done.
    - unfold AddPending in Ea. destruct (mi_pending _ !! _); [injection Ea as <-; by destruct u|].
      apply rbind_ok in Ea as (b & _ & Ea). destruct b; [injection Ea as <-; by destruct u|done]. }
  apply (up_save full_Write toy_settings (512 * 1024) u (toy_call slot) t data (repeat x00 32) false u (Sum256 data) true size); [|by left].
  by apply injective_projections.
Qed.

Lemma toy_pack_step u :
  (let q := finished full_Write toy_settings toy_upload (toy_packer u 0) in
   (negb (Nat.eqb (length (u_queue u)) 0) && is_ok (snd (toy_pack u)) && bool_decide (u_packs u !! Sum256 (p_written q) = None),
    store_files u toy_upload (Sum256 (p_written q)) (p_blobs q))) = (true, []) ->
  up_step full_Write toy_settings (512 * 1024) u [] (fst (toy_pack u)).
Proof.
  cbv zeta. intros [= H F]. apply andb_true_iff in H as [[H1 H2]%andb_true_iff H3]. apply bool_decide_eq_true_1 in H3.
  assert (Q : u_queue u = [] ++ toy_packer u 0 :: drop 1 (u_queue u)) by (unfold toy_packer; by destruct (u_queue u)).
  apply up_pack, (upload_pack full_Write toy_settings u toy_upload [] (toy_packer u 0) (drop 1 (u_queue u))); [done|by apply ends_ok|].
  split; [done|]. rewrite F. by intros id packs ?%elem_of_nil.
Qed.

Lemma fresh_single indexes files id packs : (indexes, files) = (∅, [(id, packs)]) -> fresh_files files indexes.
Proof.
  intros [= -> ->] i ps [= -> ->]%list_elem_of_singleton. split; [apply lookup_empty|]. by intros packs' [= ->]%list_elem_of_singleton.
Qed.

Lemma toy_run : uploaded full_Write toy_settings (512 * 1024) toy_uploader toy_given toy_u7.
Proof.
  exists toy_u3, toy_u4, toy_u6, (fun _ => Ok tt), (fun _ => Ok tt), (fun _ => (repeat x08 32, None)). split; [|split; [|split; [|split; [|split]]]].
  - apply (ups_cons _ _ _ _ [_] toy_u1 [_; _; _]); [eapply toy_save_step; vm_compute; reflexivity|].
    apply (ups_cons _ _ _ _ [_] toy_u2 [_; _]); [eapply toy_save_step; vm_compute; reflexivity|].
    apply (ups_cons _ _ _ _ [_] toy_u2 [_]); [eapply (toy_known_step toy_u2 0); vm_compute; reflexivity|].
    apply (ups_cons _ _ _ _ [_] toy_u3 []); [eapply toy_save_step; vm_compute; reflexivity|constructor].
  - unfold toy_u4. apply ends_ok. vm_compute. reflexivity.
  - apply (ups_cons _ _ _ _ [] toy_u5 []); [apply toy_pack_step; vm_compute; reflexivity|].
    apply (ups_cons _ _ _ _ [] toy_u6 []); [apply toy_pack_step; vm_compute; reflexivity|constructor].
  - vm_compute. reflexivity.
  - unfold toy_u7. apply ends_ok. vm_compute. reflexivity.
  - eapply fresh_single. vm_compute. reflexivity.
Qed.


(** A quarter of a million files of a few bytes in each of two packs. *)
Definition tiny : addition := mkAddition DataBlob (repeat x05 32) (repeat x06 60) 20.
Definition tinies : list addition := repeat tiny (Z.to_nat 250000).

Lemma tinies_length : zlen tinies = 250000.
Proof. unfold zlen, tinies. rewrite repeat_length. apply Z2Nat.id. lia. Qed.

Lemma tinies_size : zlen (concat (map a_data tinies)) = 60 * 250000.
Proof.
  unfold tinies. rewrite <- (Z2Nat.id 250000) at 2 by lia. generalize (Z.to_nat 250000) as n. intros n.
  induction n as [|n IH]; [done|]. cbn [repeat map concat]. rewrite zlen_app, IH. change (zlen (a_data tiny)) with 60. lia.
Qed.

Lemma mergePackers_header_too_large_witness :
  exists m, mergePackers full_Write (fun _ => Ok tt) (32 * 1024 * 1024)
      [Some (add_all full_Write NewPacker tinies); Some (add_all full_Write NewPacker tinies)] [] None = ([None; None], Ok [m])
    /\ forall k nonce, snd (Packer_Finalize full_Write m k nonce) <> None.
Proof.
  apply (mergePackers_header_too_large full_Write (fun _ => Ok tt) (32 * 1024 * 1024) tinies tinies).
  - reflexivity.
  - reflexivity.
  - assert (F : Forall (fun a => id_ok (a_id a) /\ wrap_u 64 (a_uncompressed a) <> 0) tinies).
    { apply Forall_forall. intros a Ha. apply list_elem_of_In, repeat_spec in Ha. subst a. split; [reflexivity|vm_compute; discriminate]. }
    apply Forall_app. by split.
  - rewrite zlen_app, tinies_length. change MaxHeaderEntries with 409199. lia.
  - rewrite map_app, concat_app, zlen_app, tinies_size. lia.
Defined.

End UploadProps.
