(* ===== verification/Stream.v ===== *)
(** * Streaming of packs ([internal/repository/repository_engine.go])

    [streamPack] loads several blobs of one pack with few requests: it sorts the blobs,
    cuts them into chunks that are read at once, and walks over each chunk. What a
    callback is given is modelled as the list of the values it is called with and the
    final result; a callback that fails ends the list. A cancelled context is such a
    failure. *)
From stdpp Require Import base list numbers strings gmap sets sorting.
From Stdlib Require Import ZArith Lia Sorting.
From coqutil Require Import Datatypes.RecordSetters.
From S2P Require Import Prelude Codec Sha256 Crypto Pack IndexMap RepoIndex MasterIndex PackSizer Upload.
Import TriangleBracketNotations.

Definition DefaultPackSize : Z := 16 * 1024 * 1024.
Definition maxUnusedRange : Z := 1 * 1024 * 1024.
Definition maxChunkSize : Z := 2 * DefaultPackSize.

(** A blob with its plaintext or the reason why there is none. *)
Definition packBlobValue : Type := BlobHandle * result bytes.

(** What a callback is called with, and the result when it never fails. *)
Definition stream : Type := list packBlobValue * result unit.

Definition then_stream (a : stream) (b : stream) : stream :=
  match a with
  | (vs, Err e) => (vs, Err e)
  | (vs, Ok _) => (vs ++ fst b, snd b)
  end.

(** The callback runs over the values until it fails. *)
Fixpoint handle_values {S} (handleBlobFn : S -> packBlobValue -> S * result unit) (s : S) (values : list packBlobValue)
    (res : result unit) : S * result unit :=
  match values with
  | [] => (s, res)
  | v :: values =>
      match handleBlobFn s v with
      | (s, Err e) => (s, Err e)
      | (s, Ok _) => handle_values handleBlobFn s values res
      end
  end.

Section Stream.
Context {cipher : Cipher} (key : Key) (dec : bytes -> result bytes).
Context (sort_Blobs : list Blob -> list Blob).
(** Reading from a pack, and loading a blob from anywhere. *)
Context (beLoad : ID -> Z -> Z -> result bytes) (loadBlobFn : option (BlobHandle -> result bytes)).

(** *** The reader of a chunk *)

Definition Discard (buf : bytes) (n : Z) : result bytes :=
  do! guard (zlen buf <? n) "unexpected EOF"; Ok (drop (Z.to_nat n) buf).

Definition ReadFull (buf : bytes) (n : Z) : result (bytes * bytes) :=
  do! guard (zlen buf <? n) "unexpected EOF"; Ok (take (Z.to_nat n) buf, drop (Z.to_nat n) buf).

Record packBlobIterator := mkIterator { it_rd : bytes; it_currentOffset : Z; it_blobs : list Blob }.

(** The checks whose failure is passed on with the blob. *)
Definition verify_entry (entry : Blob) (buf : bytes) : result bytes :=
  let! plaintext := Open key [] (take (Z.to_nat NonceSize) buf) (drop (Z.to_nat NonceSize) buf) in
  let! plaintext := if IsCompressed entry then dec plaintext else Ok plaintext in
  do! guard (negb (bytes_eqb (Sum256 plaintext) (bh_ID (b_handle entry)))) "wrong data returned";
  Ok plaintext.

(** [None] at the end of the pack. *)
Definition Next (b : packBlobIterator) : result (option (packBlobIterator * packBlobValue)) :=
  match it_blobs b with
  | [] => Ok None
  | entry :: blobs =>
      let skipBytes := wrap_i 64 (b_Offset entry - it_currentOffset b) in
      do! guard (skipBytes <? 0) "overlapping blobs in pack";
      let! rd := Discard (it_rd b) skipBytes in
      let! (buf, rd) := ReadFull rd (b_Length entry) in
      do! guard (b_Length entry <=? NonceSize) "invalid blob length";
      Ok (Some (mkIterator rd (wrap_u 64 (b_Offset entry + b_Length entry)) blobs, (b_handle entry, verify_entry entry buf)))
  end.

(** A blob that does not verify is loaded from elsewhere. *)
Definition from_elsewhere (v : packBlobValue) : packBlobValue :=
  match v with
  | (h, Err e) => match loadBlobFn with Some f => (h, match f h with Ok buf => Ok buf | Err _ => Err e end) | None => (h, Err e) end
  | v => v
  end.

Fixpoint drain (fuel : nat) (it : packBlobIterator) : stream :=
  match fuel with
  | O => ([], Err "out of fuel")
  | S fuel =>
      match Next it with
      | Err e => ([], Err e)
      | Ok None => ([], Ok tt)
      | Ok (Some (it, v)) => let (vs, res) := drain fuel it in (from_elsewhere v :: vs, res)
      end
  end.

Definition streamPackPart (packID : ID) (blobs : list Blob) : stream :=
  match blobs, last blobs with
  | first :: _, Some final =>
      let dataStart := b_Offset first in
      let dataEnd := wrap_u 64 (b_Offset final + b_Length final) in
      let n := wrap_i 64 (dataEnd - dataStart) in
      if n <? 0 then ([], Err "makeslice: len out of range")
      else
        match (let! rd := beLoad packID n dataStart in ReadFull rd n) with
        | Err e =>
            match loadBlobFn with
            | Some f => (map (fun entry => (b_handle entry, f (b_handle entry))) blobs, Ok tt)
            | None => ([], Err e)
            end
        | Ok (data, _) => drain (S (length blobs)) (mkIterator data dataStart blobs)
        end
  | _, _ => ([], Err "index out of range")
  end.

(** The blobs of the chunk so far, and the end of the last one. *)
Fixpoint stream_chunks (packID : ID) (chunk : list Blob) (lastPos : Z) (blobs : list Blob) : stream :=
  match blobs with
  | [] => streamPackPart packID chunk
  | b :: blobs =>
      if b_Offset b <? lastPos then ([], Err "overlapping blobs in pack")
      else
        let lower := match chunk with first :: _ => b_Offset first | [] => b_Offset b end in
        let chunkSizeAfter := wrap_u 64 (b_Offset b + b_Length b - lower) in
        let split := match chunk with [] => false | _ => maxChunkSize <=? chunkSizeAfter end
                     || (maxUnusedRange <? wrap_u 64 (b_Offset b - lastPos)) in
        let lastPos := wrap_u 64 (b_Offset b + b_Length b) in
        if split then then_stream (streamPackPart packID chunk) (stream_chunks packID [b] lastPos blobs)
        else stream_chunks packID (chunk ++ [b]) lastPos blobs
  end.

Definition streamPack (packID : ID) (blobs : list Blob) : stream :=
  match sort_Blobs blobs with
  | [] => ([], Ok tt)
  | first :: _ => stream_chunks packID [] (b_Offset first) (sort_Blobs blobs)
  end.
End Stream.

(** ** Theory *)

Module StreamTheory.
(** Blobs that do not overlap. *)
Definition apart (a b : Blob) : Prop := b_Offset a + b_Length a <= b_Offset b \/ b_Offset b + b_Length b <= b_Offset a.

Lemma apart_perm l l' : Permutation l l' -> ForallOrdPairs apart l -> ForallOrdPairs apart l'.
Proof.
  induction 1 as [|x l l' P IH|x y l|l l1 l2 _ IH1 _ IH2]; intros F; [done| | |by apply IH2, IH1].
  - inversion_clear F as [|? ? Fx Fl]. constructor; [by rewrite <- P|by apply IH].
  - inversion_clear F as [|? ? Fx F']. inversion_clear F' as [|? ? Fy Fl]. inversion_clear Fx as [|? ? Axy Fx'].
    constructor; [constructor; [unfold apart in *; tauto|done]|by constructor].
Qed.

Section Theory.
Context {cipher : Cipher} (key : Key) (dec : bytes -> result bytes).
Context (sort_Blobs : list Blob -> list Blob) (beLoad : ID -> Z -> Z -> result bytes).
Context (loadBlobFn : option (BlobHandle -> result bytes)).

(** *** Each blob is given once *)

(** The values are for a first part of the blobs, and for all of them at the end. *)
Definition in_turn (blobs : list Blob) (s : stream) : Prop :=
  exists rest, map b_handle blobs = map fst (fst s) ++ rest /\ (is_ok (snd s) = true -> rest = []).

Lemma in_turn_fail blobs vs e rest : map b_handle blobs = map fst vs ++ rest -> in_turn blobs (vs, Err e).
Proof. intros H. by exists rest. Qed.

Lemma Next_cons rd off b blobs r :
  Next key dec (mkIterator rd off (b :: blobs)) = Ok r ->
  exists rd' buf, r = Some (mkIterator rd' (wrap_u 64 (b_Offset b + b_Length b)) blobs, (b_handle b, verify_entry key dec b buf)).
Proof. unfold Next. cbn [it_blobs it_rd it_currentOffset]. intros H. inv_results. destruct a0 as [buf rd']. inv_results. eauto. Qed.

Lemma from_elsewhere_handle v : fst (from_elsewhere loadBlobFn v) = fst v.
Proof. destruct v as [h [d|e]]; cbn; [done|]. by destruct loadBlobFn. Qed.

Lemma drain_in_turn fuel rd off blobs : (length blobs < fuel)%nat -> in_turn blobs (drain key dec loadBlobFn fuel (mkIterator rd off blobs)).
Proof.
  revert rd off blobs. induction fuel as [|fuel IH]; intros rd off blobs L; [lia|]. cbn [drain].
  destruct blobs as [|b blobs]; [by exists []|]. destruct (Next _ _ _) as [r|e] eqn:E; [|by eapply in_turn_fail with (rest := map b_handle (b :: blobs))].
  apply Next_cons in E as (rd' & buf & ->). specialize (IH rd' (wrap_u 64 (b_Offset b + b_Length b)) blobs ltac:(cbn in L; lia)).
  destruct (drain _ _ _ _ _) as [vs res]. destruct IH as (rest & H & R). exists rest. split; [|done].
  cbn [fst snd map app] in *. by rewrite H, from_elsewhere_handle.
Qed.

Lemma part_in_turn packID blobs : blobs <> [] -> in_turn blobs (streamPackPart key dec beLoad loadBlobFn packID blobs).
Proof.
  intros N. unfold streamPackPart. destruct blobs as [|b blobs]; [done|]. destruct (last (b :: blobs)); [|by eapply in_turn_fail with (rest := map b_handle (b :: blobs))].
  destruct (_ <? 0); [by eapply in_turn_fail with (rest := map b_handle (b :: blobs))|].
  destruct (rbind _ _) as [[data r]|e].
  - apply drain_in_turn. lia.
  - destruct loadBlobFn; [|by eapply in_turn_fail with (rest := map b_handle (b :: blobs))].
    exists []. split; [|done]. cbn [fst]. by rewrite map_map, app_nil_r.
Qed.

Lemma then_in_turn a b s t : in_turn a s -> in_turn b t -> in_turn (a ++ b) (then_stream s t).
Proof.
  intros (r & H & R) (r' & H' & R'). destruct s as [vs [[]|e]]; cbn in *.
  - rewrite (R eq_refl), app_nil_r in H. exists r'. cbn. rewrite !map_app, H, H', app_assoc. done.
  - exists (r ++ map b_handle b). cbn. rewrite map_app, H, app_assoc. done.
Qed.

Lemma chunks_in_turn packID chunk lastPos blobs :
  chunk ++ blobs <> [] -> chunk <> [] \/ match blobs with b :: _ => lastPos = b_Offset b | [] => True end ->
  in_turn (chunk ++ blobs) (stream_chunks key dec beLoad loadBlobFn packID chunk lastPos blobs).
Proof.
  revert chunk lastPos. induction blobs as [|b blobs IH]; intros chunk lastPos N F; cbn [stream_chunks].
  { rewrite app_nil_r in *. by apply part_in_turn. }
  destruct (_ <? lastPos); [by eapply in_turn_fail with (rest := map b_handle (chunk ++ b :: blobs))|].
  destruct (_ || _) eqn:S.
  - apply then_in_turn; [|apply (IH [b]); [done|by left]]. apply part_in_turn. destruct F as [ | ->]; [done|]. intros ->. cbn in S.
    by rewrite Z.sub_diag in S.
  - replace (chunk ++ b :: blobs) with ((chunk ++ [b]) ++ blobs) by by rewrite <- app_assoc.
    apply IH; [by destruct chunk|left; by destruct chunk].
Qed.

Lemma streamPack_in_turn packID blobs : in_turn (sort_Blobs blobs) (streamPack key dec sort_Blobs beLoad loadBlobFn packID blobs).
Proof.
  unfold streamPack. destruct (sort_Blobs blobs) as [|b l]; [by exists []|]. apply (chunks_in_turn packID [] (b_Offset b) (b :: l)); [done|by right].
Qed.

(** *** What is given has the right hash *)

Definition hashed_right (v : packBlobValue) : Prop := forall d, snd v = Ok d -> Sum256 d = bh_ID (fst v).

(** What comes from elsewhere is not checked again. *)
Definition checked (v : packBlobValue) : Prop :=
  forall d, snd v = Ok d -> Sum256 d = bh_ID (fst v) \/ exists f, loadBlobFn = Some f /\ f (fst v) = Ok d.

Lemma from_elsewhere_hash v : hashed_right v -> checked (from_elsewhere loadBlobFn v).
Proof.
  intros H. destruct v as [h [d|e]]; [intros d' Hd; left; by apply H|]. intros d'. cbn. destruct loadBlobFn as [f|] eqn:E; [|done]. cbn.
  destruct (f h) as [d0|] eqn:Ef; [|done]. intros [= ->]. right. by exists f.
Qed.

Lemma drain_hash fuel it : Forall checked (fst (drain key dec loadBlobFn fuel it)).
Proof.
  revert it. induction fuel as [|fuel IH]; intros [rd off blobs]; [constructor|]. cbn [drain]. destruct blobs as [|b blobs]; [constructor|].
  destruct (Next _ _ _) as [r|e] eqn:E; [|constructor]. apply Next_cons in E as (rd' & buf & ->). specialize (IH (mkIterator rd' (wrap_u 64 (b_Offset b + b_Length b)) blobs)).
  destruct (drain _ _ _ _ _) as [vs res]. constructor; [|done]. apply from_elsewhere_hash. intros d. cbn [fst snd]. unfold verify_entry. intros H.
  inv_results. split_bools. done.
Qed.

Lemma part_hash packID blobs : Forall checked (fst (streamPackPart key dec beLoad loadBlobFn packID blobs)).
Proof.
  unfold streamPackPart. destruct blobs as [|b blobs]; [constructor|]. destruct (last _); [|constructor]. destruct (_ <? 0); [constructor|].
  destruct (rbind _ _) as [[data r]|e]; [apply drain_hash|]. destruct loadBlobFn as [f|] eqn:E; [|constructor]. cbn [fst].
  apply Forall_fmap, Forall_true. intros x d. cbn. intros Hd. right. by exists f.
Qed.

Lemma then_hash s t : Forall checked (fst s) -> Forall checked (fst t) -> Forall checked (fst (then_stream s t)).
Proof. destruct s as [vs [[]|e]]; cbn; [|done]. intros. by apply Forall_app. Qed.

Lemma streamPack_checked packID blobs : Forall checked (fst (streamPack key dec sort_Blobs beLoad loadBlobFn packID blobs)).
Proof.
  unfold streamPack. destruct (sort_Blobs blobs) as [|b l]; [constructor|]. generalize (b :: l) as bs, ([] : list Blob) as chunk, (b_Offset b) as lastPos.
  induction bs as [|c bs IH]; intros chunk lastPos; cbn [stream_chunks]; [apply part_hash|]. destruct (_ <? lastPos); [constructor|].
  destruct (_ || _); [apply then_hash; [apply part_hash|apply IH]|apply IH].
Qed.

Lemma streamPack_hash packID blobs :
  (forall f h d, loadBlobFn = Some f -> f h = Ok d -> Sum256 d = bh_ID h) ->
  Forall hashed_right (fst (streamPack key dec sort_Blobs beLoad loadBlobFn packID blobs)).
Proof.
  intros L. eapply Forall_impl; [apply streamPack_checked|]. intros v C d Hd. destruct (C d Hd) as [?|(f & Ef & Hf)]; [done|by apply (L f)].
Qed.

(** *** Chunks make no difference *)

Context (packID : ID) (file : bytes).
Context (loads : forall n off, beLoad packID n off = ReadAt file n off) (file_small : zlen file < 2 ^ 63).

(** The blobs follow each other in the file, from some place on. *)
Fixpoint chain (pos : Z) (blobs : list Blob) : Prop :=
  match blobs with
  | [] => True
  | b :: blobs => pos <= b_Offset b /\ 0 < b_Length b /\ b_Offset b + b_Length b <= zlen file /\ chain (b_Offset b + b_Length b) blobs
  end.

Definition chain_end (pos : Z) (blobs : list Blob) : Z := match last blobs with Some b => b_Offset b + b_Length b | None => pos end.

Lemma chain_end_cons pos b blobs : chain_end pos (b :: blobs) = chain_end (b_Offset b + b_Length b) blobs.
Proof. unfold chain_end. rewrite last_cons. by destruct (last blobs). Qed.

Lemma chain_bounds pos blobs : 0 <= pos <= zlen file -> chain pos blobs -> pos <= chain_end pos blobs <= zlen file.
Proof.
  revert pos. induction blobs as [|b blobs IH]; intros pos P C; [unfold chain_end; cbn; lia|]. destruct C as (C1 & C2 & C3 & C).
  rewrite chain_end_cons. specialize (IH (b_Offset b + b_Length b) ltac:(lia) C). lia.
Qed.

Lemma chain_app pos a b : chain pos (a ++ b) <-> chain pos a /\ chain (chain_end pos a) b.
Proof.
  revert pos. induction a as [|x a IH]; intros pos; [unfold chain_end; cbn; tauto|]. cbn [app chain]. rewrite IH, chain_end_cons. tauto.
Qed.

(** One blob, read on its own. *)
Definition alone (b : Blob) : packBlobValue :=
  from_elsewhere loadBlobFn (b_handle b, let! buf := ReadAt file (b_Length b) (b_Offset b) in verify_entry key dec b buf).

(** All of them up to one that is too short for its nonce. *)
Fixpoint given (blobs : list Blob) : stream :=
  match blobs with
  | [] => ([], Ok tt)
  | b :: blobs => if b_Length b <=? NonceSize then ([], Err "invalid blob length") else let (vs, res) := given blobs in (alone b :: vs, res)
  end.

Lemma given_app a b : given (a ++ b) = then_stream (given a) (given b).
Proof.
  induction a as [|x a IH]; cbn [app given then_stream]; [by destruct (given b)|]. destruct (_ <=? _); [done|]. rewrite IH.
  destruct (given a) as [vs [[]|e]]; done.
Qed.

Lemma given_long blobs : Forall (fun b => NonceSize < b_Length b) blobs -> given blobs = (map alone blobs, Ok tt).
Proof. induction 1 as [|b blobs L _ IH]; [done|]. cbn [given]. rewrite (proj2 (Z.leb_gt _ _) L), IH. done. Qed.

Lemma given_short blobs b : b ∈ blobs -> b_Length b <= NonceSize -> snd (given blobs) = Err "invalid blob length".
Proof.
  intros Hb L. induction blobs as [|c blobs IH]; [by apply elem_of_nil in Hb|]. cbn [given]. destruct (Z.leb_spec (b_Length c) NonceSize); [done|].
  apply elem_of_cons in Hb as [->|Hb]; [lia|]. specialize (IH Hb). by destruct (given blobs).
Qed.

Lemma wrap_small z : 0 <= z < 2 ^ 63 -> wrap_i 64 z = z /\ wrap_u 64 z = z.
Proof. intros H. split; [|apply wrap_u_small; range]. unfold wrap_i. rewrite Z.mod_small; lia. Qed.

(** The bytes of the file between two places. *)
Lemma window_drop a b n : 0 <= a -> 0 <= n -> a + n <= b -> drop (Z.to_nat n) (sub (Z.to_nat a) (Z.to_nat b) file) = sub (Z.to_nat (a + n)) (Z.to_nat b) file.
Proof.
  intros Ha Hn H. unfold sub. rewrite skipn_firstn_comm, drop_drop. f_equal; [lia|f_equal; lia].
Qed.

Lemma window_take a b n : 0 <= a -> 0 <= n -> a + n <= b -> take (Z.to_nat n) (sub (Z.to_nat a) (Z.to_nat b) file) = sub (Z.to_nat a) (Z.to_nat (a + n)) file.
Proof. intros Ha Hn H. unfold sub. rewrite take_take. f_equal. lia. Qed.

Lemma window_length a b : 0 <= a -> a <= b -> b <= zlen file -> zlen (sub (Z.to_nat a) (Z.to_nat b) file) = b - a.
Proof. intros Ha H Hb. unfold zlen in *. unfold sub. rewrite length_take, length_drop. lia. Qed.

Lemma ReadAt_window a n : 0 <= a -> a + n <= zlen file -> ReadAt file n a = Ok (sub (Z.to_nat a) (Z.to_nat (a + n)) file).
Proof.
  intros Ha H. unfold ReadAt. rewrite (proj2 (Z.ltb_ge a 0)), (proj2 (Z.ltb_ge (zlen file) (a + n))) by lia. done.
Qed.

Lemma drain_alone fuel pos stop blobs :
  (length blobs < fuel)%nat -> 0 <= pos -> chain pos blobs -> chain_end pos blobs <= stop -> pos <= stop -> stop <= zlen file ->
  drain key dec loadBlobFn fuel (mkIterator (sub (Z.to_nat pos) (Z.to_nat stop) file) pos blobs) = given blobs.
Proof.
  revert pos blobs. induction fuel as [|fuel IH]; intros pos blobs L P C Ce Ps St; [lia|]. cbn [drain].
  destruct blobs as [|b blobs]; [done|]. destruct C as (C1 & C2 & C3 & C). rewrite chain_end_cons in Ce.
  pose proof (chain_bounds (b_Offset b + b_Length b) blobs ltac:(lia) C) as B.
  unfold Next. cbn [it_blobs it_rd it_currentOffset]. rewrite (proj1 (wrap_small (b_Offset b - pos) ltac:(lia))).
  rewrite (proj2 (Z.ltb_ge _ 0)) by lia. cbn [guard rbind]. unfold Discard. rewrite (proj2 (Z.ltb_ge _ _)) by (rewrite window_length; lia).
  cbn [guard rbind]. rewrite window_drop by lia. replace (pos + (b_Offset b - pos)) with (b_Offset b) by lia.
  unfold ReadFull. rewrite (proj2 (Z.ltb_ge _ _)) by (rewrite window_length; lia). cbn [guard rbind].
  rewrite window_take, window_drop by lia. cbn [given]. destruct (b_Length b <=? NonceSize); [done|]. cbn [guard rbind].
  rewrite (proj2 (wrap_small (b_Offset b + b_Length b) ltac:(lia))). rewrite IH by (cbn in L; lia || done).
  unfold alone. rewrite ReadAt_window by lia. done.
Qed.

Lemma part_alone pos blobs :
  blobs <> [] -> 0 <= pos <= zlen file -> chain pos blobs -> streamPackPart key dec beLoad loadBlobFn packID blobs = given blobs.
Proof.
  intros N P C. unfold streamPackPart. destruct blobs as [|b blobs]; [done|]. pose proof C as (C1 & C2 & C3 & C4).
  destruct (last (b :: blobs)) as [z|] eqn:El; [|by apply last_None in El].
  pose proof (chain_bounds pos _ P C) as B. pose proof (chain_bounds (b_Offset b + b_Length b) blobs ltac:(lia) C4) as B4.
  rewrite chain_end_cons in B. assert (Ez : chain_end (b_Offset b + b_Length b) blobs = b_Offset z + b_Length z).
  { rewrite <- (chain_end_cons pos). unfold chain_end. by rewrite El. }
  rewrite Ez in *. rewrite (proj2 (wrap_small (b_Offset z + b_Length z) ltac:(lia))).
  rewrite (proj1 (wrap_small (b_Offset z + b_Length z - b_Offset b) ltac:(lia))). rewrite (proj2 (Z.ltb_ge _ 0)) by lia.
  rewrite loads, ReadAt_window by lia. cbn [rbind]. replace (b_Offset b + (b_Offset z + b_Length z - b_Offset b)) with (b_Offset z + b_Length z) by lia.
  unfold ReadFull. rewrite window_length by lia. rewrite Z.ltb_irrefl. cbn [guard rbind].
  rewrite window_take by lia. replace (b_Offset b + (b_Offset z + b_Length z - b_Offset b)) with (b_Offset z + b_Length z) by lia.
  apply drain_alone; [lia|lia| |by rewrite chain_end_cons, Ez|lia|lia]. repeat split; [lia|done|done|done].
Qed.

Lemma chunks_alone pos chunk blobs :
  0 <= pos <= zlen file -> chain pos (chunk ++ blobs) -> chunk ++ blobs <> [] ->
  (chunk = [] -> match blobs with b :: _ => pos = b_Offset b | [] => True end) ->
  stream_chunks key dec beLoad loadBlobFn packID chunk (chain_end pos chunk) blobs = given (chunk ++ blobs).
Proof.
  revert pos chunk. induction blobs as [|b blobs IH]; intros pos chunk P C N F; cbn [stream_chunks].
  { rewrite app_nil_r in *. exact (part_alone pos chunk N P C). }
  apply chain_app in C as [Ca Cb]. pose proof (chain_bounds pos chunk P Ca) as B. destruct Cb as (C1 & C2 & C3 & Cb).
  rewrite (proj2 (Z.ltb_ge _ _)) by lia. rewrite (proj2 (wrap_small (b_Offset b + b_Length b) ltac:(lia))).
  destruct (_ || _) eqn:S.
  - assert (Nc : chunk <> []).
    { intros ->. specialize (F eq_refl). cbn in S. unfold chain_end in S. cbn in S. by rewrite F, Z.sub_diag in S. }
    rewrite (part_alone pos), given_app by done. pose proof (IH (b_Offset b) [b]) as IHb.
    assert (Eb : chain_end (b_Offset b) [b] = b_Offset b + b_Length b) by done. rewrite Eb in IHb.
    rewrite IHb; [done|lia| |done|done]. cbn [app chain]. repeat split; [lia|done|done|done].
  - specialize (IH pos (chunk ++ [b])). rewrite <- app_assoc in IH. cbn [app] in IH.
    assert (Eb : chain_end pos (chunk ++ [b]) = b_Offset b + b_Length b) by (unfold chain_end; by rewrite last_snoc). rewrite Eb in IH.
    apply IH; [done| |done|by destruct chunk]. apply chain_app. split; [done|]. repeat split; [lia|done|done|done].
Qed.

Lemma streamPack_alone blobs :
  chain 0 (sort_Blobs blobs) -> streamPack key dec sort_Blobs beLoad loadBlobFn packID blobs = given (sort_Blobs blobs).
Proof.
  intros C. unfold streamPack. destruct (sort_Blobs blobs) as [|b l]; [done|]. destruct C as (C1 & C2 & C3 & C).
  apply (chunks_alone (b_Offset b) [] (b :: l)); [lia| |done|done]. repeat split; [lia|done|done|done].
Qed.

(** The blob is not empty and lies in the file. *)
Definition inside (b : Blob) : Prop := 0 <= b_Offset b /\ 0 < b_Length b /\ b_Offset b + b_Length b <= zlen file.

Lemma sorted_chain pos l :
  StronglySorted (fun a b => b_Offset a <= b_Offset b) l -> ForallOrdPairs apart l -> Forall inside l -> Forall (fun b => pos <= b_Offset b) l -> chain pos l.
Proof.
  intros S. revert pos. induction S as [|b l S IH Sb]; intros pos F I P; [done|]. inversion_clear F as [|? ? Fb Fl]. inversion_clear I as [|? ? (I1 & I2 & I3) Il].
  inversion_clear P as [|? ? Pb _]. repeat split; [done|done|done|]. apply IH; [done|done|]. apply Forall_forall. intros c Hc.
  destruct (proj1 (Forall_forall _ _) Fb c Hc) as [?|A]; [done|]. pose proof (proj1 (Forall_forall _ _) Sb c Hc) as O. cbn in O.
  destruct (proj1 (Forall_forall _ _) Il c Hc) as (_ & ? & _). lia.
Qed.

Lemma verify_decode {zstd : Zstd} (st : Settings) pb buf d :
  s_key st = key -> getZstdDecoder = Ok dec -> NonceSize < b_Length (pb_Blob pb) -> zlen buf = b_Length (pb_Blob pb) ->
  verify_entry key dec (pb_Blob pb) buf = Ok d <-> decodePackedBlob st pb buf = Ok d.
Proof.
  intros Ek Ed L Lb. unfold decodePackedBlob, verify_entry. rewrite <- Lb in *. rewrite Z.ltb_irrefl, (proj2 (Z.leb_gt _ _)) by done.
  cbn [guard rbind]. by rewrite take_all, Ek, Ed.
Qed.

(** A blob read on its own is as if it had been loaded. *)
Lemma alone_loaded {zstd : Zstd} (st : Settings) blobs :
  s_key st = key -> getZstdDecoder = Ok dec -> Forall inside blobs -> Forall (fun b => NonceSize < b_Length b) blobs ->
  Forall2 (fun b v => let loaded := let! buf := ReadAt file (b_Length b) (b_Offset b) in decodePackedBlob st (mkPackedBlob packID b) buf in
    fst v = b_handle b
    /\ forall d, snd v = Ok d <-> loaded = Ok d \/ is_ok loaded = false /\ exists f, loadBlobFn = Some f /\ f (b_handle b) = Ok d)
    blobs (map alone blobs).
Proof.
  intros Ek De I Lg. induction I as [|b l (I1 & I2 & I3) _ IH]; [constructor|]. apply Forall_cons in Lg as [L Lg]. constructor; [|by apply IH].
  unfold alone. split; [by rewrite from_elsewhere_handle|]. intros d. rewrite ReadAt_window by done. cbn [rbind].
  set (buf := sub _ _ file). assert (Lb : zlen buf = b_Length b) by (unfold buf; rewrite window_length; lia).
  pose proof (fun d => verify_decode st (mkPackedBlob packID b) buf d Ek De L Lb) as V. cbn [pb_Blob] in V.
  destruct (verify_entry key dec b buf) as [d'|e] eqn:Ev; cbn [from_elsewhere snd].
  - rewrite (proj1 (V d') eq_refl). cbn. split; [by left|]. intros [?|[? _]]; done.
  - destruct (decodePackedBlob st _ buf) as [d'|e'] eqn:Ed; [by pose proof (proj2 (V d') eq_refl)|].
    destruct loadBlobFn as [f|]; cbn [snd]; [|split; [done|intros [?|[_ (f & ? & _)]]; done]].
    destruct (f (b_handle b)) as [d0|e0] eqn:Ef; (split; [intros [= <-]; right; eauto|intros [?|[_ (f' & [= <-] & Hf)]]; [done|congruence]]).
Qed.
End Theory.
End StreamTheory.

(** ** Properties *)

Module StreamProps.
Import StreamTheory.

(** C19. Streaming a pack calls the callback at most once for each blob, in the order of
    their offsets and for all of them when it succeeds, and never with data of the wrong
    hash that it read itself (the data of the loader for damaged blobs is passed on as it is).
    When the blobs are not empty, lie in the file and do not overlap, then it succeeds if
    every blob is longer than a nonce, and fails with "invalid blob length" if one is not;
    when it succeeds, each blob is given as if it had been loaded on its own, or else as it
    could be loaded from elsewhere: the chunks in which the file is read make no
    difference. *)
Theorem streamPack_delivers {cipher : Cipher} {zstd : Zstd} (st : Settings) (dec : bytes -> result bytes) (sort_Blobs : list Blob -> list Blob)
    (beLoad : ID -> Z -> Z -> result bytes) (loadBlobFn : option (BlobHandle -> result bytes)) (packID : ID) (blobs : list Blob) :
  getZstdDecoder = Ok dec -> (forall l, Permutation (sort_Blobs l) l) ->
  (forall l, StronglySorted (fun a b => b_Offset a <= b_Offset b) (sort_Blobs l)) ->
  let (values, res) := streamPack (s_key st) dec sort_Blobs beLoad loadBlobFn packID blobs in
  (exists rest, map b_handle (sort_Blobs blobs) = map fst values ++ rest /\ (is_ok res = true -> rest = []))
  /\ (forall h d, (h, Ok d) ∈ values -> Sum256 d = bh_ID h \/ exists f, loadBlobFn = Some f /\ f h = Ok d)
  /\ (forall file, (forall n off, beLoad packID n off = ReadAt file n off) -> zlen file < 2 ^ 63 ->
       Forall (inside file) blobs -> ForallOrdPairs apart blobs ->
       (forall b, b ∈ blobs -> b_Length b <= NonceSize -> res = Err "invalid blob length")
       /\ (Forall (fun b => NonceSize < b_Length b) blobs ->
         res = Ok tt /\ Forall2 (fun b v => let loaded := let! buf := ReadAt file (b_Length b) (b_Offset b) in decodePackedBlob st (mkPackedBlob packID b) buf in
           fst v = b_handle b
           /\ forall d, snd v = Ok d <-> loaded = Ok d \/ is_ok loaded = false /\ exists f, loadBlobFn = Some f /\ f (b_handle b) = Ok d)
           (sort_Blobs blobs) values)).
Proof.
  intros De Ps Ss. pose proof (streamPack_in_turn (s_key st) dec sort_Blobs beLoad loadBlobFn packID blobs) as T.
  pose proof (streamPack_checked (s_key st) dec sort_Blobs beLoad loadBlobFn packID blobs) as H.
  destruct (streamPack _ _ _ _ _ _ _) as [values res] eqn:E. split; [exact T|]. split.
  { intros h d Hv. exact (proj1 (Forall_forall _ _) H _ Hv d eq_refl). }
  intros file Lo Sm I A. rewrite <- (Ps blobs) in I. apply (apart_perm _ (sort_Blobs blobs)) in A; [|by rewrite Ps].
  rewrite (streamPack_alone (s_key st) dec sort_Blobs beLoad loadBlobFn packID file Lo Sm) in E.
  2:{ apply sorted_chain; [apply Ss|done|done|]. eapply Forall_impl; [exact I|]. by intros b (? & _). }
  split.
  { intros b Hb L. rewrite <- (Ps blobs) in Hb. pose proof (given_short (s_key st) dec loadBlobFn file _ b Hb L) as G. by rewrite E in G. }
  intros Lg. rewrite <- (Ps blobs) in Lg. rewrite given_long in E by done. injection E as <- <-. split; [done|].
  by apply alone_loaded.
Qed.

(** ** Witness *)

Import UploadProps.
#[local] Existing Instances toy_cipher toy_zstd.

Definition by_offset (a b : Blob) : Prop := b_Offset a <= b_Offset b.
#[local] Instance by_offset_dec : RelDecision by_offset.
Proof. intros a b. unfold by_offset. apply _. Defined.
#[local] Instance by_offset_total : Total by_offset.
Proof. intros a b. unfold by_offset. lia. Qed.
#[local] Instance by_offset_trans : Transitive by_offset.
Proof. intros a b c. unfold by_offset. lia. Qed.

Definition sort_offsets (l : list Blob) : list Blob := merge_sort by_offset l.

Lemma sort_offsets_perm l : Permutation (sort_offsets l) l.
Proof. apply merge_sort_Permutation. Qed.

Lemma sort_offsets_sorted l : StronglySorted by_offset (sort_offsets l).
Proof. apply StronglySorted_merge_sort; apply _. Qed.

Definition toy_sealed (d : bytes) : bytes := match Seal toy_key toy_nonce toy_nonce d [] with Ok ct => ct | Err _ => [] end.
Definition toy_file : bytes := toy_sealed (str "one") ++ repeat x00 5 ++ toy_sealed (str "second").
Definition toy_blobs : list Blob :=
  [mkBlob (mkBlobHandle (Sum256 (str "second")) DataBlob) 38 40 0; mkBlob (mkBlobHandle (Sum256 (str "one")) DataBlob) 35 0 0].

Lemma streamPack_delivers_witness :
  let (values, res) := streamPack toy_key toy_decode sort_offsets (fun _ n off => ReadAt toy_file n off) None [] toy_blobs in
  res = Ok tt /\ map fst values = map b_handle (rev toy_blobs)
  /\ Forall2 (fun b v => let loaded := let! buf := ReadAt toy_file (b_Length b) (b_Offset b) in decodePackedBlob toy_settings (mkPackedBlob [] b) buf in
       fst v = b_handle b
       /\ forall d, snd v = Ok d <-> loaded = Ok d \/ is_ok loaded = false /\ exists f, (None : option (BlobHandle -> result bytes)) = Some f /\ f (b_handle b) = Ok d)
       (sort_offsets toy_blobs) values.
Proof.
  pose proof (streamPack_delivers toy_settings toy_decode sort_offsets (fun _ n off => ReadAt toy_file n off) None [] toy_blobs
    eq_refl sort_offsets_perm sort_offsets_sorted) as H.
  change (s_key toy_settings) with toy_key in H. destruct (streamPack _ _ _ _ _ _ _) as [values res]. destruct H as ((rest & T & R) & _ & H).
  destruct (H toy_file) as [_ L].
  - reflexivity.
  - vm_compute. reflexivity.
  - apply (bool_decide_eq_true_1 _). vm_compute. reflexivity.
  - constructor; [apply Forall_singleton; right; vm_compute; discriminate|]. constructor; [constructor|constructor].
  - destruct L as [E F]; [apply (bool_decide_eq_true_1 _); vm_compute; reflexivity|].
    subst res. split; [reflexivity|]. split; [|exact F]. rewrite (R eq_refl), app_nil_r in T. rewrite <- T. vm_compute. reflexivity.
Defined.
End StreamProps.
