(* ===== verification/Rewrite.v ===== *)
(** * Rewriting the index ([internal/repository/index/master_index.go],
    [internal/repository/index/index.go])

    [Rewrite] replaces index files so that no index names a pack of a given set:
    full indexes that name none are kept, the packs of the others are copied into new
    indexes, and a pack that occurs twice with the same blobs is copied once. The
    loaders, the rewriter and the savers of the code run at the same time; an index
    arrives at the rewriter after it was loaded, in any order, which is a parameter
    here, like the iteration order of Go maps. *)
From stdpp Require Import base list numbers strings gmap sets.
From Stdlib Require Import ZArith Lia.
From coqutil Require Import Datatypes.RecordSetters.
From S2P Require Import Prelude Codec Sha256 Crypto Pack IndexMap RepoIndex MasterIndex.
Import TriangleBracketNotations.

Record PackBlobs := mkPackBlobs { pbs_PackID : ID; pbs_Blobs : list Blob }.

(** ** Loading *)

(** The list of the index files; [load] is what the repository returns for each. *)
Record IndexFiles := mkIndexFiles { if_list : list ID; if_load : ID -> result (list packJSON) }.

Definition prepareIncrementalLoad (mi : MasterIndex) (files : list ID) (now : Z) (hash : Z -> ID -> Z)
  : result (MasterIndex * gset ID) :=
  let mi := clearPendingBlobs mi in
  match mi_idx mi with
  | [] => Err "index out of range"
  | first :: _ =>
      let! ids := IDs first in
      let loadedIDs := list_to_set ids in
      if negb (bool_decide (loadedIDs ∖ list_to_set files = (∅ : gset ID)))
      then Ok (clear now hash, ∅) else Ok (mi, loadedIDs)
  end.

(** One index file; the indexes that are loaded already are skipped. *)
Definition load_index (load : ID -> result (list packJSON)) (now : Z) (hash : Z -> ID -> Z) (loadedIDs : gset ID)
    (mi : MasterIndex) (id : ID) : result MasterIndex :=
  if bool_decide (id ∈ loadedIDs) then Ok mi
  else
    let! packs := load id in
    let! idx := DecodeIndex packs id now hash in
    Ok (Insert mi idx).

Fixpoint load_indexes (load : ID -> result (list packJSON)) (now : Z) (hash : Z -> ID -> Z) (loadedIDs : gset ID)
    (mi : MasterIndex) (ids : list ID) : result MasterIndex :=
  match ids with
  | [] => Ok mi
  | id :: ids => let! mi := load_index load now hash loadedIDs mi id in load_indexes load now hash loadedIDs mi ids
  end.

(** [arrival] is the order in which the loaded index files reach the callback. *)
Definition Load (arrival : list ID -> list ID) (mi : MasterIndex) (files : IndexFiles) (now : Z) (hash : Z -> ID -> Z)
  : result MasterIndex :=
  let! (mi, loadedIDs) := prepareIncrementalLoad mi (if_list files) now hash in
  let! mi := load_indexes (if_load files) now hash loadedIDs mi (arrival (if_list files)) in
  MergeFinalIndexes mi.

(** ** Rewriting *)

Section Rewrite.
Context (map_order arrival : list ID -> list ID) (sort_Blobs : list Blob -> list Blob).
(** The time at which an index is examined, and what a new index starts with. *)
Context (now : Index -> Z) (created : Z) (hash : Z -> ID -> Z).
(** Whether the last index reaches the savers: when the context is cancelled at that point it
    is dropped, and no error is returned. *)
Context (sent : bool).

Definition blob_bytes (blob : Blob) : bytes :=
  bh_ID (b_handle blob) ++ le 4 (bh_Type (b_handle blob)) ++ le 4 (b_Offset blob) ++ le 4 (b_Length blob)
  ++ le 4 (b_UncompressedLength blob).

Definition PackBlobsHash (pbs : PackBlobs) : ID :=
  Sum256 (pbs_PackID pbs ++ concat (map blob_bytes (sort_Blobs (pbs_Blobs pbs)))).

Definition EachByPack (idx : Index) (packBlacklist : gset ID) : result (list PackBlobs) :=
  let! pbs := Values idx in
  let pbs := filter (fun pb => ix_final idx = false \/ ~ pb_Pack pb ∈ packBlacklist) pbs in
  Ok (map (fun p => mkPackBlobs p (map pb_Blob (filter (fun pb => pb_Pack pb = p) pbs)))
          (map_order (remove_dups (map pb_Pack pbs)))).

Definition keepCurrentIndex (excludePacks : gset ID) (idx : Index) (packBlobsIDSet : gset ID) : result (bool * gset ID) :=
  if negb (bool_decide (list_to_set (ix_packs idx) ∩ excludePacks = ∅)) || negb (Full (now idx) idx) || Oversized idx
  then Ok (false, packBlobsIDSet)
  else
    let! groups := EachByPack idx excludePacks in
    let idxPackBlobsIDSet := list_to_set (map PackBlobsHash groups) in
    if negb (bool_decide (idxPackBlobsIDSet ∩ packBlobsIDSet = ∅)) then Ok (false, packBlobsIDSet)
    else Ok (true, packBlobsIDSet ∪ idxPackBlobsIDSet).

Definition markObsolete (idx : Index) (obsolete : gset ID) : result (gset ID) :=
  match IDs idx with
  | Ok [id] => Ok ({[id]} ∪ obsolete)
  | _ => Err "internal error, index has no ID"
  end.

(** The blobs copied so far, the index that is being filled, and the full ones. *)
Record copyState := mkCopy { cp_set : gset ID; cp_new : Index; cp_saved : list Index }.

Definition copy_pack (st : copyState) (pbs : PackBlobs) : result copyState :=
  let packBlobsID := PackBlobsHash pbs in
  if bool_decide (packBlobsID ∈ cp_set st) then Ok st
  else
    let! new := StorePack (cp_new st) (pbs_PackID pbs) (pbs_Blobs pbs) in
    let set := {[packBlobsID]} ∪ cp_set st in
    if Full (now new) new then Ok (mkCopy set (NewIndex created hash) (cp_saved st ++ [new]))
    else Ok (mkCopy set new (cp_saved st)).

Fixpoint copy_packs (st : copyState) (groups : list PackBlobs) : result copyState :=
  match groups with
  | [] => Ok st
  | g :: groups => let! st := copy_pack st g in copy_packs st groups
  end.

Definition copyIndexPacks (excludePacks : gset ID) (idx : Index) (st : copyState) : result copyState :=
  let! groups := EachByPack idx excludePacks in
  copy_packs st groups.

(** One index of the loop of [rewriteIndexes]. *)
Definition rewrite_index (excludePacks : gset ID) (st : copyState * gset ID) (idx : Index) : result (copyState * gset ID) :=
  let (copy, obsolete) := st in
  let! (keep, set) := keepCurrentIndex excludePacks idx (cp_set copy) in
  let copy := copy <| cp_set := set |> in
  if keep : bool then Ok (copy, obsolete)
  else
    let! obsolete := markObsolete idx obsolete in
    let! copy := copyIndexPacks excludePacks idx copy in
    Ok (copy, obsolete).

Fixpoint rewrite_all (excludePacks : gset ID) (st : copyState * gset ID) (idxs : list Index) : result (copyState * gset ID) :=
  match idxs with
  | [] => Ok st
  | idx :: idxs => let! st := rewrite_index excludePacks st idx in rewrite_all excludePacks st idxs
  end.

(** The indexes for the savers, the last one included if it is sent, and the obsolete
    ones. *)
Definition rewriteIndexes (excludePacks obsolete : gset ID) (idxs : list Index) : result (list Index * gset ID) :=
  let! (copy, obsolete) := rewrite_all excludePacks (mkCopy ∅ (NewIndex created hash) [], obsolete) idxs in
  Ok (cp_saved copy ++ (if sent then [cp_new copy] else []), obsolete).

Fixpoint load_all (load : ID -> result (list packJSON)) (ids : list ID) : result (list Index) :=
  match ids with
  | [] => Ok []
  | id :: ids =>
      let! packs := load id in
      let! idx := DecodeIndex packs id created hash in
      let! idxs := load_all load ids in
      Ok (idx :: idxs)
  end.

(** The savers: an empty index is not saved; a saved one stays in memory. *)
Fixpoint save_all (SaveUnpacked : list packJSON -> ID * option string) (mi : MasterIndex) (saved : list ID) (idxs : list Index)
  : result (MasterIndex * list ID) :=
  match idxs with
  | [] => Ok (mi, saved)
  | idx :: idxs =>
      let idx := Finalize idx in
      match ix_packs idx with
      | [] => save_all SaveUnpacked mi saved idxs
      | _ :: _ =>
          let! (idx, err) := SaveIndex SaveUnpacked idx in
          match err with
          | Some e => Err e
          | None =>
              let! ids := IDs idx in
              save_all SaveUnpacked (Insert mi idx) (saved ++ ids) idxs
          end
      end
  end.

(** The new master index, the IDs of the saved indexes, and the obsolete ones. *)
Definition Rewrite (mi : MasterIndex) (load : ID -> result (list packJSON)) (SaveUnpacked : list packJSON -> ID * option string)
    (excludePacks : gset ID) (oldIndexes : option (gset ID)) (extraObsolete : list ID)
  : result (MasterIndex * list ID * gset ID) :=
  do! guard (existsb (fun idx => negb (ix_final idx)) (mi_idx mi)) "internal error - index must be saved before calling MasterIndex.Rewrite";
  let indexes := default (MasterIDs mi) oldIndexes in
  let! idxs := load_all load (arrival (elements indexes)) in
  let! (new, obsolete) := rewriteIndexes excludePacks (list_to_set extraObsolete) idxs in
  let! (mi, saved) := save_all SaveUnpacked (clear created hash) [] new in
  Ok (mi, saved, obsolete).
End Rewrite.

(** ** What a rewrite keeps *)

Module RewriteTheory.
Import IndexTheory IndexProps MasterTheory.

(** The blobs of an index. *)
Definition has (idx : Index) (pb : PackedBlob) : Prop := exists pbs, Values idx = Ok pbs /\ pb ∈ pbs.

Lemma has_iff idx bs pb : reachable idx bs -> has idx pb <-> exists t, type_ok t /\ pb ∈ bs t.
Proof.
  intros R. unfold has. rewrite (Values_spec idx bs (reachable_indexes _ _ R)), <- values_elem. split.
  - by intros (pbs & [= <-] & H).
  - intros H. by eexists.
Qed.

Lemma has_pack idx bs pb : reachable idx bs -> has idx pb -> pb_Pack pb ∈ ix_packs idx.
Proof.
  intros R. rewrite (has_iff _ bs) by done. intros (t & T & H). apply (indexes_pack idx bs t); [by apply reachable_indexes|done|done].
Qed.

Lemma has_type idx bs pb : reachable idx bs -> has idx pb -> type_ok (bh_Type (b_handle (pb_Blob pb))).
Proof.
  intros R. rewrite (has_iff _ bs) by done. intros (t & T & H). by rewrite (indexes_type idx bs t pb (reachable_indexes _ _ R) T H).
Qed.

Lemma has_new now hash pb : ~ has (NewIndex now hash) pb.
Proof. rewrite (has_iff _ (fun _ => [])) by constructor. by intros (t & _ & H%elem_of_nil). Qed.

(** The same tables and packs hold the same blobs. *)
Lemma toPackedBlobs_same idx idx' es t : ix_packs idx' = ix_packs idx -> toPackedBlobs idx' es t = toPackedBlobs idx es t.
Proof. intros E. induction es as [|e es IH]; [done|]. cbn [toPackedBlobs]. unfold toPackedBlob. by rewrite E, IH. Qed.

Lemma has_same idx idx' pb :
  ix_byType idx' = ix_byType idx -> ix_packs idx' = ix_packs idx -> has idx' pb <-> has idx pb.
Proof.
  intros E1 E2. unfold has. enough (Values idx' = Values idx) as -> by done.
  assert (V : forall t, values_of idx' t = values_of idx t).
  { intros t. unfold values_of, byType. rewrite E1. destruct (guard _ _); [|done]. cbn [rbind]. destruct (ix_byType idx !! Z.to_nat t) as [m|]; [|done]. cbn [rbind].
    destruct (IndexMap.values m) as [es|]; [|done]. by apply toPackedBlobs_same. }
  unfold Values. cbn [collect blob_types]. by rewrite !V.
Qed.

Lemma has_store idx bs id blobs idx' pb :
  reachable idx bs -> StorePack idx id blobs = Ok idx' -> Forall (fun b => type_ok (bh_Type (b_handle b))) blobs ->
  has idx' pb <-> has idx pb \/ (pb_Pack pb = id /\ pb_Blob pb ∈ blobs).
Proof.
  intros R E F. rewrite (has_iff idx' (push_all bs id blobs)) by by eapply reach_store.
  rewrite (has_iff idx bs) by done. rewrite Forall_forall in F. setoid_rewrite push_all_spec. split.
  - intros (t & T & [H|H]%elem_of_app); [right|left; by exists t].
    apply list_elem_of_fmap in H as (b & -> & H). apply elem_of_rev, list_elem_of_filter in H as [_ H]. done.
  - intros [(t & T & H)|[Ep H]]; [exists t; split; [done|]; apply elem_of_app; by right|].
    exists (bh_Type (b_handle (pb_Blob pb))). split; [by apply F|]. apply elem_of_app. left. apply list_elem_of_fmap.
    exists (pb_Blob pb). split; [destruct pb; cbn in *; by subst|]. apply elem_of_rev, list_elem_of_filter. done.
Qed.

Section Groups.
Context (map_order : list ID -> list ID) (map_perm : forall l, Permutation (map_order l) l).

Lemma EachByPack_spec idx bs exclude :
  reachable idx bs ->
  exists groups, EachByPack map_order idx exclude = Ok groups
    /\ (forall pb, has idx pb -> ix_final idx = false \/ ~ pb_Pack pb ∈ exclude ->
         exists g, g ∈ groups /\ pbs_PackID g = pb_Pack pb /\ pb_Blob pb ∈ pbs_Blobs g)
    /\ (forall g b, g ∈ groups -> b ∈ pbs_Blobs g ->
         has idx (mkPackedBlob (pbs_PackID g) b) /\ (ix_final idx = false \/ ~ pbs_PackID g ∈ exclude)).
Proof.
  intros R. unfold EachByPack. set (pbs := rev (bs 0) ++ rev (bs 1) ++ rev (bs 2)).
  assert (Ev : Values idx = Ok pbs) by by apply Values_spec, reachable_indexes. rewrite Ev. cbn [rbind].
  assert (Hs : forall pb, has idx pb <-> pb ∈ pbs).
  { intros pb. rewrite (has_iff _ bs) by done. symmetry. apply values_elem. }
  eexists. split; [done|]. split.
  - intros pb Hp Fi. eexists. split; [|split; [|]].
    + apply list_elem_of_fmap. exists (pb_Pack pb). split; [reflexivity|]. rewrite map_perm. apply elem_of_remove_dups, list_elem_of_fmap.
      exists pb. split; [done|]. apply list_elem_of_filter. split; [done|by apply Hs].
    + done.
    + apply list_elem_of_fmap. exists pb. split; [done|]. apply list_elem_of_filter. split; [done|].
      apply list_elem_of_filter. split; [done|by apply Hs].
  - intros g b (p & -> & _)%list_elem_of_fmap Hb. cbn [pbs_Blobs pbs_PackID] in *.
    apply list_elem_of_fmap in Hb as (pb & -> & Hb). apply list_elem_of_filter in Hb as [<- Hb].
    apply list_elem_of_filter in Hb as [Fi Hb]. split; [|done]. apply Hs. by destruct pb.
Qed.
End Groups.

(** *** The hash of a pack and its blobs *)

(** The widths of the fields of a blob: an identifier and unsigned 32-bit integers. *)
Definition wide (b : Blob) : Prop :=
  length (bh_ID (b_handle b)) = 32%nat /\ uint32 (bh_Type (b_handle b)) /\ uint32 (b_Offset b) /\ uint32 (b_Length b)
  /\ uint32 (b_UncompressedLength b).

Lemma blob_bytes_length b : wide b -> length (blob_bytes b) = 48%nat.
Proof. intros (L & _). unfold blob_bytes. rewrite !length_app, !le_length, L. done. Qed.

Lemma app_inj_length {A} (a b c d : list A) : length a = length c -> a ++ b = c ++ d -> a = c /\ b = d.
Proof. intros L E. by apply app_inj_1 in E. Qed.

Lemma blob_bytes_inj a b : wide a -> wide b -> blob_bytes a = blob_bytes b -> a = b.
Proof.
  intros (La & A1 & A2 & A3 & A4) (Lb & B1 & B2 & B3 & B4) E. unfold blob_bytes in E.
  apply app_inj_length in E as [E0 E]; [|by rewrite La, Lb].
  apply app_inj_length in E as [E1 E]; [|by rewrite !le_length]. apply app_inj_length in E as [E2 E]; [|by rewrite !le_length].
  apply app_inj_length in E as [E3 E4]; [|by rewrite !le_length].
  assert (Inj : forall x y, uint32 x -> uint32 y -> le 4 x = le 4 y -> x = y).
  { intros x y Rx Ry Exy. rewrite <- (unle_le 4 x), <- (unle_le 4 y) by range. by f_equal. }
  apply Inj in E1, E2, E3, E4; [|done..]. destruct a as [[] ? ? ?], b as [[] ? ? ?]; cbn in *. by subst.
Qed.

Lemma concat_inj {A} (n : nat) (xs ys : list (list A)) :
  (0 < n)%nat -> Forall (fun x => length x = n) xs -> Forall (fun y => length y = n) ys -> concat xs = concat ys -> xs = ys.
Proof.
  intros N Fx. revert ys. induction Fx as [|x xs Lx _ IH]; intros ys Fy E.
  - destruct Fy as [|y ys Ly _]; [done|]. apply (f_equal length) in E. cbn in E. rewrite length_app in E. lia.
  - destruct Fy as [|y ys Ly Fy]; [apply (f_equal length) in E; cbn in E; rewrite length_app in E; lia|].
    cbn in E. apply app_inj_length in E as [-> E]; [|lia]. f_equal. by apply IH.
Qed.

Section Hash.
Context (sort_Blobs : list Blob -> list Blob) (sort_perm : forall l, Permutation (sort_Blobs l) l).

Definition hashed (g : PackBlobs) : bytes := pbs_PackID g ++ concat (map blob_bytes (sort_Blobs (pbs_Blobs g))).

Definition wide_group (g : PackBlobs) : Prop := length (pbs_PackID g) = 32%nat /\ Forall wide (pbs_Blobs g).

Lemma hashed_inj g g' :
  wide_group g -> wide_group g' -> hashed g = hashed g' ->
  pbs_PackID g = pbs_PackID g' /\ forall b, b ∈ pbs_Blobs g <-> b ∈ pbs_Blobs g'.
Proof.
  intros [L F] [L' F'] E. apply app_inj_length in E as [E1 E]; [|by rewrite L, L']. split; [done|].
  rewrite <- (sort_perm (pbs_Blobs g)) in F. rewrite <- (sort_perm (pbs_Blobs g')) in F'.
  assert (Es : sort_Blobs (pbs_Blobs g) = sort_Blobs (pbs_Blobs g')).
  { apply (concat_inj 48) in E; [|lia|..].
    - revert E. generalize dependent (sort_Blobs (pbs_Blobs g')). generalize dependent (sort_Blobs (pbs_Blobs g)).
      induction l as [|a l IH]; intros F [|b l'] F' E; try done. injection E as Ea E.
      apply Forall_cons in F as [Wa F]. apply Forall_cons in F' as [Wb F'].
      f_equal; [by apply blob_bytes_inj|by apply IH].
    - apply Forall_fmap. eapply Forall_impl; [exact F|]. intros b Wb. by apply blob_bytes_length.
    - apply Forall_fmap. eapply Forall_impl; [exact F'|]. intros b Wb. by apply blob_bytes_length. }
  intros b. by rewrite <- (sort_perm (pbs_Blobs g)), <- (sort_perm (pbs_Blobs g')), Es.
Qed.
End Hash.

(** *** Copying packs *)

Section Copy.
Context (map_order : list ID -> list ID) (sort_Blobs : list Blob -> list Blob).
Context (now : Index -> Z) (created : Z) (hash : Z -> ID -> Z) (exclude : gset ID).
Context (map_perm : forall l, Permutation (map_order l) l) (sort_perm : forall l, Permutation (sort_Blobs l) l).
(** The packs with their blobs in the indexes that are rewritten; SHA-256 tells them apart. *)
Context (all : list PackBlobs).
Context (all_wide : Forall wide_group all).
Context (no_collision : forall g g', g ∈ all -> g' ∈ all ->
  Sum256 (hashed sort_Blobs g) = Sum256 (hashed sort_Blobs g') -> hashed sort_Blobs g = hashed sort_Blobs g').

Definition in_group (g : PackBlobs) (pb : PackedBlob) : Prop := pb_Pack pb = pbs_PackID g /\ pb_Blob pb ∈ pbs_Blobs g.

Lemma same_hash g g' pb :
  g ∈ all -> g' ∈ all -> PackBlobsHash sort_Blobs g = PackBlobsHash sort_Blobs g' -> in_group g pb -> in_group g' pb.
Proof.
  intros H H' E [P B]. apply (no_collision g g' H H') in E. rewrite Forall_forall in all_wide.
  apply (hashed_inj sort_Blobs sort_perm) in E as [E1 E2]; [|by apply all_wide..]. split; [by rewrite P|by apply E2].
Qed.

(** The blobs in the indexes that are kept, and in the new ones. *)
Definition kept_has (kept : list Index) (pb : PackedBlob) : Prop := exists j, j ∈ kept /\ has j pb.
Definition out (cp : copyState) (pb : PackedBlob) : Prop := exists j, j ∈ cp_saved cp ++ [cp_new cp] /\ has j pb.

Definition sane (cp : copyState) : Prop := Forall (fun j => exists bs, reachable j bs) (cp_saved cp ++ [cp_new cp]).

(** The hashes seen belong to packs whose blobs have a place. *)
Definition placed (kept : list Index) (cp : copyState) : Prop :=
  forall h, h ∈ cp_set cp -> exists g, g ∈ all /\ PackBlobsHash sort_Blobs g = h
    /\ forall pb, in_group g pb -> kept_has kept pb \/ out cp pb.

Lemma copy_pack_spec cp g cp' :
  sane cp -> Forall (fun b => type_ok (bh_Type (b_handle b))) (pbs_Blobs g) ->
  copy_pack sort_Blobs now created hash cp g = Ok cp' ->
  (PackBlobsHash sort_Blobs g ∈ cp_set cp /\ cp' = cp)
  \/ (cp_set cp' = {[PackBlobsHash sort_Blobs g]} ∪ cp_set cp /\ sane cp' /\ forall pb, out cp' pb <-> out cp pb \/ in_group g pb).
Proof.
  intros S T. unfold copy_pack. case_bool_decide as H; [intros [= <-]; by left|].
  destruct (StorePack _ _ _) as [new|] eqn:E; [|done]. cbn [rbind]. intros Ec. right. revert Ec.
  unfold sane in S. rewrite Forall_app, Forall_singleton in S. destruct S as [Ss [bs R]].
  assert (R' : exists bs', reachable new bs') by (eexists; by eapply reach_store).
  pose proof (fun pb => has_store _ _ _ _ _ pb R E T) as Hs.
  unfold out, sane. destruct (Full (now new) new); intros [= <-]; cbn [cp_set cp_saved cp_new]; (split; [done|split]).
  - rewrite !Forall_app, !Forall_singleton. split; [by split|]. exists (fun _ => []). constructor.
  - intros pb. setoid_rewrite elem_of_app. setoid_rewrite list_elem_of_singleton. setoid_rewrite elem_of_app.
    setoid_rewrite list_elem_of_singleton. split.
    + intros (j & [[Hj| ->]| ->] & Hp); [left; by exists j; auto|apply Hs in Hp as [Hp|Hp]; [left; eauto|by right]|by apply has_new in Hp].
    + intros [(j & [Hj| ->] & Hp)|Hp]; [exists j; auto|exists new; split; [auto|by apply Hs; left]|exists new; split; [auto|by apply Hs; right]].
  - rewrite Forall_app, Forall_singleton. done.
  - intros pb. setoid_rewrite elem_of_app. setoid_rewrite list_elem_of_singleton. split.
    + intros (j & [Hj| ->] & Hp); [left; by exists j; auto|apply Hs in Hp as [Hp|Hp]; [left; eauto|by right]].
    + intros [(j & [Hj| ->] & Hp)|Hp]; [exists j; auto|exists new; split; [auto|by apply Hs; left]|exists new; split; [auto|by apply Hs; right]].
Qed.

Lemma copy_packs_spec kept groups cp cp' :
  sane cp -> placed kept cp -> (forall g, g ∈ groups -> g ∈ all) ->
  Forall (fun g => Forall (fun b => type_ok (bh_Type (b_handle b))) (pbs_Blobs g)) groups ->
  copy_packs sort_Blobs now created hash cp groups = Ok cp' ->
  sane cp' /\ placed kept cp' /\ (forall pb, out cp pb -> out cp' pb)
  /\ (forall pb, out cp' pb -> out cp pb \/ exists g, g ∈ groups /\ in_group g pb)
  /\ (forall g pb, g ∈ groups -> in_group g pb -> kept_has kept pb \/ out cp' pb).
Proof.
  intros S P A T. revert cp S P. induction T as [|g groups Tg _ IH]; intros cp S P; cbn.
  { intros [= <-]. do 3 (split; [done|]). split; [by left|]. by intros g pb ?%elem_of_nil. }
  destruct (copy_pack _ _ _ _ cp g) as [cp1|] eqn:E; [|done]. cbn [rbind]. intros E'.
  assert (Step : sane cp1 /\ placed kept cp1 /\ (forall pb, out cp pb -> out cp1 pb)
    /\ (forall pb, out cp1 pb -> out cp pb \/ in_group g pb) /\ (forall pb, in_group g pb -> kept_has kept pb \/ out cp1 pb)).
  { destruct (copy_pack_spec cp g cp1 S Tg E) as [[Hh ->]|(Es & S1 & O)].
    - do 3 (split; [done|]). split; [by left|]. intros pb Hg. destruct (P _ Hh) as (g' & Hg' & Eh & Pl). apply Pl.
      apply (same_hash g g'); [apply A, list_elem_of_here|done|done|done].
    - split; [done|]. split; [|split; [|split]].
      + intros h. rewrite Es, elem_of_union, elem_of_singleton. intros [->|Hh].
        * exists g. split; [apply A, list_elem_of_here|]. split; [done|]. intros pb Hg. right. apply O. by right.
        * destruct (P h Hh) as (g' & Hg' & Eh & Pl). exists g'. do 2 (split; [done|]). intros pb Hp.
          destruct (Pl pb Hp) as [?|?]; [by left|right; apply O; by left].
      + intros pb Hp. apply O. by left.
      + intros pb Hp. by apply O.
      + intros pb Hp. right. apply O. by right. }
  destruct Step as (S1 & P1 & M1 & O1 & C1).
  destruct (IH (fun g' Hg' => A g' (list_elem_of_further _ _ _ Hg')) cp1 S1 P1 E') as (S2 & P2 & M2 & O2 & C2).
  do 2 (split; [done|]). split; [auto|]. split.
  - intros pb [H|(g' & Hg' & Hi)]%O2; [apply O1 in H as [?|?]; [by left|right; exists g; split; [apply list_elem_of_here|done]]|].
    right. exists g'. split; [by apply list_elem_of_further|done].
  - intros g' pb [->|Hg']%elem_of_cons Hi; [destruct (C1 pb Hi); auto|by eapply C2].
Qed.

(** *** Rewriting one index after the other *)

Context (extra : gset ID).

Record progress (walked kept : list Index) (cp : copyState) (obsolete : gset ID) : Prop := {
  pg_sane : sane cp;
  pg_placed : placed kept cp;
  pg_walked : forall idx pb, idx ∈ walked -> has idx pb -> ~ pb_Pack pb ∈ exclude -> kept_has kept pb \/ out cp pb;
  pg_out : forall pb, out cp pb -> ~ pb_Pack pb ∈ exclude /\ exists idx, idx ∈ walked /\ has idx pb;
  pg_kept : forall j, j ∈ kept -> j ∈ walked /\ (forall pb, has j pb -> ~ pb_Pack pb ∈ exclude)
    /\ forall id, ix_ids j = [id] -> ~ id ∈ obsolete;
  pg_rest : forall idx id, idx ∈ walked -> ix_ids idx = [id] -> idx ∈ kept \/ id ∈ obsolete;
  pg_obsolete : forall id, id ∈ obsolete -> id ∈ extra \/ exists idx, idx ∈ walked /\ ix_ids idx = [id] }.

(** A loaded index. *)
Definition loaded (idx : Index) : Prop :=
  (exists bs, reachable idx bs) /\ ix_final idx = true
  /\ forall groups, EachByPack map_order idx exclude = Ok groups -> forall g, g ∈ groups -> g ∈ all.

Lemma loaded_groups idx :
  loaded idx ->
  exists groups, EachByPack map_order idx exclude = Ok groups
    /\ (forall g, g ∈ groups -> g ∈ all)
    /\ (forall pb, has idx pb -> ~ pb_Pack pb ∈ exclude -> exists g, g ∈ groups /\ in_group g pb)
    /\ (forall g pb, g ∈ groups -> in_group g pb -> has idx pb /\ ~ pb_Pack pb ∈ exclude)
    /\ Forall (fun g => Forall (fun b => type_ok (bh_Type (b_handle b))) (pbs_Blobs g)) groups.
Proof.
  intros ([bs R] & Fi & A). destruct (EachByPack_spec map_order map_perm idx bs exclude R) as (groups & E & G1 & G2).
  exists groups. split; [done|]. split; [by apply A|]. split; [|split].
  - intros pb Hp Nx. destruct (G1 pb Hp (or_intror Nx)) as (g & Hg & Ep & Eb). by exists g.
  - intros g pb Hg [Ep Eb]. destruct (G2 g _ Hg Eb) as [H [F|N]]; [congruence|]. rewrite Ep. split; [|done].
    rewrite <- Ep in H. by destruct pb.
  - apply Forall_forall. intros g Hg. apply Forall_forall. intros b Hb. destruct (G2 g b Hg Hb) as [H _].
    exact (has_type idx bs _ R H).
Qed.

Lemma kept_snoc kept idx pb : kept_has (kept ++ [idx]) pb <-> kept_has kept pb \/ has idx pb.
Proof.
  unfold kept_has. setoid_rewrite elem_of_app. setoid_rewrite list_elem_of_singleton. split.
  - intros (j & [Hj| ->] & Hp); [left; by exists j|by right].
  - intros [(j & Hj & Hp)|Hp]; [exists j; auto|exists idx; auto].
Qed.

(** An index that is kept. *)
Lemma keep_step walked kept cp obsolete idx id set :
  progress walked kept cp obsolete -> loaded idx -> ix_ids idx = [id] -> ~ id ∈ extra ->
  (forall j, j ∈ walked -> ix_ids j <> [id]) ->
  keepCurrentIndex map_order sort_Blobs now exclude idx (cp_set cp) = Ok (true, set) ->
  progress (walked ++ [idx]) (kept ++ [idx]) (cp <| cp_set := set |>) obsolete.
Proof.
  intros [Ps Pp Pw Po Pk Pr Pb] Ld Ei Nx Dis. destruct (loaded_groups idx Ld) as (groups & Eg & A & G1 & G2 & _).
  unfold keepCurrentIndex. destruct (negb _ || negb _ || _) eqn:B; [done|]. rewrite Eg. cbn [rbind].
  match goal with |- (if ?b then _ else _) = _ -> _ => destruct b; [done|] end. intros Es. injection Es as <-.
  apply orb_false_iff in B as [[B _]%orb_false_iff _]. apply negb_false_iff, bool_decide_eq_true in B.
  assert (Ne : forall pb, has idx pb -> ~ pb_Pack pb ∈ exclude).
  { intros pb Hp Hx. destruct Ld as ([bs R] & _). pose proof (has_pack idx bs pb R Hp).
    assert (pb_Pack pb ∈ (∅ : gset ID)) as ?%elem_of_empty; [|done]. rewrite <- B. apply elem_of_intersection.
    split; [by apply elem_of_list_to_set|done]. }
  assert (Wk : forall j, j ∈ walked ++ [idx] <-> j ∈ walked \/ j = idx) by (intros j; by rewrite elem_of_app, list_elem_of_singleton).
  split; [done|..].
  - intros h. change (cp_set (cp <| cp_set := ?l |>)) with l. rewrite elem_of_union, elem_of_list_to_set.
    intros [Hh|(g & -> & Hg)%list_elem_of_fmap].
    + destruct (Pp h Hh) as (g & Hg & Eh & Pl). exists g. do 2 (split; [done|]). intros pb Hp. rewrite kept_snoc.
      destruct (Pl pb Hp); [tauto|by right].
    + exists g. split; [by apply A|]. split; [done|]. intros pb Hp. left. apply kept_snoc. right. by apply (G2 g).
  - intros j pb [Hj| ->]%Wk Hp N; rewrite kept_snoc; [destruct (Pw j pb Hj Hp N); [tauto|by right]|tauto].
  - intros pb Hp. destruct (Po pb Hp) as [N (j & Hj & Hb)]. split; [done|]. exists j. rewrite Wk. tauto.
  - intros j [Hj| ->%list_elem_of_singleton]%elem_of_app.
    + destruct (Pk j Hj) as (K1 & K2 & K3). split; [apply Wk; by left|done].
    + split; [apply Wk; by right|]. split; [done|]. intros id' E Hx. rewrite Ei in E. injection E as <-.
      destruct (Pb id Hx) as [?|(j & Hj & Ej)]; [done|by apply (Dis j)].
  - intros j id' [Hj| ->]%Wk E; rewrite elem_of_app, list_elem_of_singleton; [destruct (Pr j id' Hj E); tauto|tauto].
  - intros id' Hx. destruct (Pb id' Hx) as [?|(j & Hj & Ej)]; [by left|right]. exists j. rewrite Wk. tauto.
Qed.

(** An index that is replaced. *)
Lemma copy_step walked kept cp cp' obsolete idx id :
  progress walked kept cp obsolete -> loaded idx -> ix_ids idx = [id] ->
  (forall j, j ∈ walked -> ix_ids j <> [id]) ->
  copyIndexPacks map_order sort_Blobs now created hash exclude idx cp = Ok cp' ->
  progress (walked ++ [idx]) kept cp' ({[id]} ∪ obsolete).
Proof.
  intros [Ps Pp Pw Po Pk Pr Pb] Ld Ei Dis. destruct (loaded_groups idx Ld) as (groups & Eg & A & G1 & G2 & T).
  unfold copyIndexPacks. rewrite Eg. cbn [rbind]. intros E.
  destruct (copy_packs_spec kept groups cp cp' Ps Pp A T E) as (S' & P' & M & O & C).
  assert (Wk : forall j, j ∈ walked ++ [idx] <-> j ∈ walked \/ j = idx) by (intros j; by rewrite elem_of_app, list_elem_of_singleton).
  split; [done|done|..].
  - intros j pb [Hj| ->]%Wk Hp N; [destruct (Pw j pb Hj Hp N); auto|]. destruct (G1 pb Hp N) as (g & Hg & Hi). by apply (C g).
  - intros pb [H|(g & Hg & Hi)]%O.
    + destruct (Po pb H) as [N (j & Hj & Hb)]. split; [done|]. exists j. rewrite Wk. tauto.
    + destruct (G2 g pb Hg Hi) as [Hb N]. split; [done|]. exists idx. rewrite Wk. tauto.
  - intros j Hj. destruct (Pk j Hj) as (K1 & K2 & K3). split; [apply Wk; by left|]. split; [done|].
    intros id' E'. rewrite elem_of_union, elem_of_singleton. intros [->|Hx]; [by apply (Dis j)|by apply (K3 id')].
  - intros j id' [Hj| ->]%Wk E'; rewrite elem_of_union, elem_of_singleton; [destruct (Pr j id' Hj E'); tauto|].
    rewrite Ei in E'. injection E' as <-. tauto.
  - intros id'. rewrite elem_of_union, elem_of_singleton. intros [->|Hx]; [right; exists idx; rewrite Wk; tauto|].
    destruct (Pb id' Hx) as [?|(j & Hj & Ej)]; [by left|right]. exists j. rewrite Wk. tauto.
Qed.

Lemma rewrite_all_spec idxs ids walked kept cp obsolete cp' obsolete' :
  Forall loaded idxs -> Forall2 (fun idx id => ix_ids idx = [id]) idxs ids -> NoDup ids ->
  (forall id, id ∈ ids -> ~ id ∈ extra /\ forall j, j ∈ walked -> ix_ids j <> [id]) ->
  progress walked kept cp obsolete ->
  rewrite_all map_order sort_Blobs now created hash exclude (cp, obsolete) idxs = Ok (cp', obsolete') ->
  exists kept', progress (walked ++ idxs) kept' cp' obsolete'.
Proof.
  intros Ld F. revert walked kept cp obsolete Ld. induction F as [|idx id idxs ids Ei F IH]; intros walked kept cp obsolete Ld Nd Dis P; cbn [rewrite_all].
  { intros [= <- <-]. exists kept. by rewrite app_nil_r. }
  apply Forall_cons in Ld as [L Ld]. apply NoDup_cons in Nd as [Ni Nd].
  destruct (Dis id (list_elem_of_here _ _)) as [Nx Dj].
  assert (Next : forall kept1 cp1 obsolete1, progress (walked ++ [idx]) kept1 cp1 obsolete1 ->
    rewrite_all map_order sort_Blobs now created hash exclude (cp1, obsolete1) idxs = Ok (cp', obsolete') ->
    exists kept', progress (walked ++ idx :: idxs) kept' cp' obsolete').
  { intros kept1 cp1 obsolete1 P1 E1. change (idx :: idxs) with ([idx] ++ idxs). rewrite app_assoc.
    apply (IH (walked ++ [idx]) kept1 cp1 obsolete1); [done|done| |done|done]. intros id' Hid.
    destruct (Dis id' (list_elem_of_further _ _ _ Hid)) as [Nx' Dj']. split; [done|].
    intros j [Hj| ->%list_elem_of_singleton]%elem_of_app; [by apply Dj'|]. rewrite Ei. intros [= ->]. done. }
  unfold rewrite_index. destruct (keepCurrentIndex _ _ _ _ _ _) as [[keep set]|] eqn:Ek; [|done]. cbn [rbind].
  destruct keep; cbn [rbind].
  - apply (Next (kept ++ [idx])). by apply (keep_step walked kept cp obsolete idx id).
  - assert (Es : set = cp_set cp).
    { unfold keepCurrentIndex in Ek. destruct (_ || _ || _); [congruence|]. destruct (EachByPack _ _ _) as [groups|]; [|done].
      cbn [rbind] in Ek. by destruct (negb _) in Ek; [injection Ek as <-|]. }
    rewrite Es. assert (Ec : cp <| cp_set := cp_set cp |> = cp) by by destruct cp. rewrite Ec.
    unfold markObsolete, IDs. destruct L as (R & Fi & A). rewrite Fi. cbn [negb guard rbind]. rewrite Ei. cbn [rbind].
    destruct (copyIndexPacks _ _ _ _ _ _ _ _) as [cp1|] eqn:E1; [|done]. cbn [rbind].
    apply (Next kept). by apply (copy_step walked kept cp).
Qed.
End Copy.

(** *** Loading and saving *)

Lemma load_all_spec created hash load ids idxs :
  load_all created hash load ids = Ok idxs ->
  Forall2 (fun idx id => exists packs, load id = Ok packs /\ DecodeIndex packs id created hash = Ok idx) idxs ids.
Proof.
  revert idxs. induction ids as [|id ids IH]; intros idxs E; cbn in E; [injection E as <-; constructor|].
  inv_results. constructor; [eauto|by apply IH].
Qed.

(** A saved index has the blobs of the one it was made from. *)
Lemma SaveIndex_has SaveUnpacked idx idx' err :
  SaveIndex SaveUnpacked idx = Ok (idx', err) ->
  ix_byType idx' = ix_byType idx /\ ix_packs idx' = ix_packs idx /\ ix_final idx' = ix_final idx
  /\ forall bs, reachable idx bs -> reachable idx' bs.
Proof.
  unfold SaveIndex. destruct (Encode idx) as [packs|]; [|by intros [= <- <-]].
  destruct (SaveUnpacked packs) as [id e]. destruct (SetID idx id) as [idx1|] eqn:E; [|done]. intros [= <- <-].
  split; [|split; [|split]]; try (unfold SetID in E; inv_results; done). intros bs R. by eapply reach_set_id.
Qed.

Lemma save_all_spec SaveUnpacked idxs mi saved mi' saved' :
  Forall (fun j => exists bs, reachable j bs) idxs -> save_all SaveUnpacked mi saved idxs = Ok (mi', saved') ->
  MasterIDs mi = list_to_set saved ->
  (forall pb, kept_has (mi_idx mi') pb <-> kept_has (mi_idx mi) pb \/ kept_has idxs pb) /\ MasterIDs mi' = list_to_set saved'.
Proof.
  intros F. revert mi saved. induction F as [|idx idxs [bs R] _ IH]; intros mi saved; cbn [save_all].
  { intros [= <- <-] Em. split; [|done]. intros pb. split; [by left|]. intros [?|(j & ?%elem_of_nil & _)]; done. }
  assert (Cons : forall pb, kept_has (idx :: idxs) pb <-> has idx pb \/ kept_has idxs pb).
  { intros pb. unfold kept_has. setoid_rewrite elem_of_cons. split; [intros (j & [->|Hj] & Hp); eauto|intros [Hp|(j & Hj & Hp)]; eauto]. }
  destruct (ix_packs (Finalize idx)) as [|p ps] eqn:Ep.
  - intros E Em. destruct (IH mi saved E Em) as [G M]. split; [|done]. intros pb. rewrite G, Cons.
    assert (~ has idx pb); [|tauto]. intros Hp. pose proof (has_pack idx bs pb R Hp) as Hk.
    change (ix_packs idx = []) in Ep. rewrite Ep in Hk. by apply elem_of_nil in Hk.
  - destruct (SaveIndex _ _) as [[idx1 [e|]]|] eqn:Es; cbn [rbind]; [done| |done].
    destruct (SaveIndex_has _ _ _ _ Es) as (S1 & S2 & S3 & S4). change (ix_final (Finalize idx)) with true in S3.
    unfold IDs. rewrite S3. cbn [negb guard rbind]. intros E Em.
    destruct (IH (Insert mi idx1) (saved ++ ix_ids idx1) E) as [G M].
    { unfold MasterIDs, Insert. change (mi_idx (mi <| mi_idx := ?l |>)) with l. rewrite map_app, union_list_app_L. cbn [map].
      rewrite S3. cbn [negb union_list foldr]. rewrite list_to_set_app_L, <- Em. unfold MasterIDs. by rewrite union_empty_r_L. }
    split; [|done]. intros pb. rewrite G, Cons. unfold Insert. change (mi_idx (mi <| mi_idx := ?l |>)) with l.
    rewrite kept_snoc, (has_same idx idx1 pb) by done. tauto.
Qed.

(** *** Loading index files *)

Lemma decode_storable packs idx bs idx' :
  indexes idx bs -> decode_packs idx packs = Ok idx' ->
  Forall (fun p => Forall (fun b => storable (of_json b) = true) (pj_Blobs p)) packs.
Proof.
  revert idx bs. induction packs as [|p packs IH]; intros idx bs I H; [constructor|]. cbn in H.
  apply rbind_ok in H as ([idx1 i] & E1 & H). apply rbind_ok in H as (idx2 & E2 & H).
  destruct (addToPacks_inv _ _ _ _ _ I E1) as (I1 & _ & P0 & P & _ & _ & _).
  pose proof (store_all_storable _ _ _ _ _ _ I1 P0 P E2) as F. destruct (store_all_inv _ _ _ _ _ _ I1 P0 P E2) as [I2 _].
  constructor; [by apply Forall_fmap in F|by apply (IH idx2 _ I2)].
Qed.

(** A decoded index has the blobs of its file. *)
Lemma decode_has packs id now hash idx pb : DecodeIndex packs id now hash = Ok idx -> has idx pb <-> pb ∈ flat packs.
Proof.
  intros E. rewrite (has_iff idx (contents packs)) by by eapply reach_decode. setoid_rewrite contents_flat.
  setoid_rewrite elem_of_rev. unfold typed. setoid_rewrite list_elem_of_filter. split; [by intros (t & _ & _ & ?)|].
  intros H. exists (bh_Type (b_handle (pb_Blob pb))). split; [|done].
  unfold DecodeIndex in E. apply rbind_ok in E as (idx1 & E & _). pose proof (decode_storable _ _ _ _ (NewIndex_indexes now hash) E) as F.
  apply list_elem_of_In, in_concat in H as (l & Hl & Hp). apply in_map_iff in Hl as (p & <- & Hin).
  apply in_map_iff in Hp as (b & <- & Hb). rewrite Forall_forall in F. specialize (F p (proj2 (list_elem_of_In _ _) Hin)).
  rewrite Forall_forall in F. specialize (F b (proj2 (list_elem_of_In _ _) Hb)). unfold storable in F. split_bools.
  by split.
Qed.

Definition decoded (load : ID -> result (list packJSON)) (idx : Index) (id : ID) : Prop :=
  ix_final idx = true /\ ix_ids idx = [id] /\ (exists bs, reachable idx bs)
  /\ exists packs, load id = Ok packs /\ forall pb, has idx pb <-> pb ∈ flat packs.

Lemma load_indexes_spec load now hash loaded ids mi mi' :
  load_indexes load now hash loaded mi ids = Ok mi' ->
  exists idxs, mi' = mi <| mi_idx := mi_idx mi ++ idxs |> /\ Forall2 (decoded load) idxs (filter (fun id => ~ id ∈ loaded) ids).
Proof.
  revert mi. induction ids as [|id ids IH]; intros mi E; cbn in E.
  { injection E as <-. exists []. split; [by destruct mi as [l pe]; cbv [apply_update constant mi_idx mi_pending]; rewrite app_nil_r|constructor]. }
  apply rbind_ok in E as (mi1 & E1 & E). unfold load_index in E1. case_bool_decide as H.
  - injection E1 as <-. destruct (IH mi E) as (idxs & -> & F). exists idxs. split; [done|]. by rewrite filter_cons_False by auto.
  - inv_results. destruct (IH _ E) as (idxs & -> & F). exists (a0 :: idxs). split.
    + destruct mi as [l pe]. cbv [Insert apply_update constant mi_idx mi_pending]. by rewrite <- app_assoc.
    + rewrite filter_cons_True by done. constructor; [|done]. destruct (DecodeIndex_inv _ _ _ _ _ E2) as (_ & F1 & F2).
      do 2 (split; [done|]). split; [eexists; by eapply reach_decode|]. exists a. split; [done|]. intros pb. by eapply decode_has.
Qed.

Lemma merge_all_loaded load idxs ids main bs main' rest :
  Forall2 (decoded load) idxs ids -> reachable main bs -> merge_all main idxs = Ok (main', rest) ->
  rest = [] /\ (exists bs', reachable main' bs') /\ ix_final main' = ix_final main /\ ix_ids main' = ix_ids main ++ ids
  /\ forall pb, has main' pb <-> has main pb \/ kept_has idxs pb.
Proof.
  intros F. revert main bs. induction F as [|idx id idxs ids D F IH]; intros main bs R E; cbn [merge_all] in E.
  { injection E as <- <-. split; [done|]. split; [eauto|]. rewrite app_nil_r. do 2 (split; [done|]). intros pb.
    split; [by left|]. by intros [?|(j & ?%elem_of_nil & _)]. }
  destruct D as (Df & Di & [b Rb] & _). rewrite Df, Di in E. cbn in E. apply rbind_ok in E as (main1 & E1 & E).
  destruct (merge_inv _ _ _ _ _ (reachable_indexes _ _ R) (reachable_indexes _ _ Rb) E1) as (_ & Fi & Ids).
  pose proof (reach_merge _ _ _ _ _ R Rb E1) as R1.
  destruct (IH main1 _ R1 E) as (-> & Rx & F2 & I2 & G). split; [done|]. split; [done|]. split; [congruence|].
  split; [by rewrite I2, Ids, Di, <- app_assoc|]. intros pb. rewrite G, (has_iff _ _ _ R1), (has_iff _ _ _ R).
  setoid_rewrite merged_elem. setoid_rewrite elem_of_rev.
  assert (C : kept_has (idx :: idxs) pb <-> (exists t, type_ok t /\ pb ∈ b t) \/ kept_has idxs pb).
  { rewrite <- (has_iff _ _ pb Rb). unfold kept_has. setoid_rewrite elem_of_cons.
    split; [intros (j & [->|Hj] & Hp); eauto|intros [Hp|(j & Hj & Hp)]; eauto]. }
  rewrite C. split; [intros [(t & T & [H|H])|H]; eauto|intros [(t & T & H)|[(t & T & H)|H]]; eauto].
Qed.

(** The master index is one final index with the blobs of some index files. *)
Definition mirrors (load : ID -> result (list packJSON)) (mi : MasterIndex) (ids : list ID) : Prop :=
  exists main bs, mi_idx mi = [main] /\ ix_final main = true /\ reachable main bs /\ ix_ids main = ids
    /\ forall pb, has main pb <-> exists id packs, id ∈ ids /\ load id = Ok packs /\ pb ∈ flat packs.

Lemma clear_mirrors load now hash : mirrors load (clear now hash) [].
Proof.
  exists (Finalize (NewIndex now hash)), (fun _ => []). do 2 (split; [done|]). split; [apply reach_finalize; constructor|].
  split; [done|]. intros pb. rewrite (has_same (NewIndex now hash)) by done. split; [by intros ?%has_new|].
  by intros (id & packs & ?%elem_of_nil & _).
Qed.

Lemma Load_spec arrival mi ids files now hash mi' :
  (forall l, Permutation (arrival l) l) -> mirrors (if_load files) mi ids -> Load arrival mi files now hash = Ok mi' ->
  exists ids', mirrors (if_load files) mi' ids' /\ (forall id, id ∈ ids' <-> id ∈ if_list files) /\ mi_pending mi' = ∅.
Proof.
  intros Pa M E. unfold Load in E. apply rbind_ok in E as ([mi0 loaded0] & Ep & E). apply rbind_ok in E as (mi1 & El & E).
  assert (P0 : mi_pending mi0 = ∅ /\ exists ids0, mirrors (if_load files) mi0 ids0 /\ loaded0 = list_to_set ids0
    /\ forall id, id ∈ ids0 -> id ∈ if_list files).
  { unfold prepareIncrementalLoad in Ep. destruct M as (main & bs & Em & Fm & R & Ei & G).
    change (mi_idx (clearPendingBlobs mi)) with (mi_idx mi) in Ep. rewrite Em in Ep. unfold IDs in Ep. rewrite Fm in Ep.
    cbn [negb guard rbind] in Ep. case_bool_decide as Hs; injection Ep as <- <-.
    - split; [done|]. exists ids. rewrite <- Ei. split; [by exists main, bs; rewrite Ei|]. split; [done|]. intros id Hid.
      destruct (decide (id ∈ if_list files)) as [|N]; [done|]. exfalso.
      assert (id ∈ (∅ : gset ID)) as ?%elem_of_empty; [|done]. rewrite <- Hs. apply elem_of_difference.
      by rewrite !elem_of_list_to_set.
    - split; [done|]. exists []. split; [apply clear_mirrors|]. split; [done|]. by intros id ?%elem_of_nil. }
  destruct P0 as (Pe & ids0 & (main & bs & Em & Fm & R & Ei & G) & -> & Sub).
  destruct (load_indexes_spec _ _ _ _ _ _ _ El) as (idxs & -> & F). unfold MergeFinalIndexes in E.
  change (mi_idx (mi0 <| mi_idx := ?l |>)) with l in E. rewrite Em in E. cbn [app] in E.
  apply rbind_ok in E as (main1 & E1 & E). apply rbind_ok in E as ([main2 rest] & E2 & E). injection E as <-.
  destruct (preallocate_types_spec _ _ _ _ _ R E1) as [R1 M1].
  destruct (merge_all_loaded _ _ _ _ _ _ _ F R1 E2) as (-> & [bs2 R2] & F2 & I2 & G2).
  injection M1 as Mp Mf Mi _ _. eexists. split; [|split].
  - exists main2, bs2. split; [done|]. split; [congruence|]. split; [done|]. split; [exact I2|]. rewrite Mi, Ei. intros pb.
    rewrite G2, (has_iff _ _ _ R1), <- (has_iff _ _ pb R), G. split.
    + intros [(id & packs & Hid & H)|(j & Hj & Hp)].
      * exists id, packs. split; [apply elem_of_app; by left|done].
      * apply list_elem_of_lookup in Hj as [i Hj]. destruct (Forall2_lookup_l _ _ _ _ _ F Hj) as (id & Hid & _ & _ & _ & packs & El' & Hh).
        exists id, packs. split; [apply elem_of_app; right; by eapply list_elem_of_lookup_2|]. split; [done|by apply Hh].
    + intros (id & packs & [Hid|Hid]%elem_of_app & El' & Hp); [left; eauto|right].
      apply list_elem_of_lookup in Hid as [i Hid]. destruct (Forall2_lookup_r _ _ _ _ _ F Hid) as (j & Hj & _ & _ & _ & packs' & El2 & Hh).
      exists j. split; [by eapply list_elem_of_lookup_2|]. apply Hh. congruence.
  - intros id. rewrite Mi, Ei, elem_of_app, list_elem_of_filter, elem_of_list_to_set, (Pa (if_list files)). split.
    + intros [H|[_ H]]; auto.
    + intros H. destruct (decide (id ∈ ids0)); auto.
  - done.
Qed.
End RewriteTheory.

(** ** Properties *)

Module RewriteProps.
Import IndexTheory IndexProps MasterTheory RewriteTheory.

Section Props.
Context (map_order arrival : list ID -> list ID) (sort_Blobs : list Blob -> list Blob).
Context (now : Index -> Z) (created : Z) (hash : Z -> ID -> Z).

(** The packs with their blobs of some indexes. *)
Definition groups_of (exclude : gset ID) (idxs : list Index) : list PackBlobs :=
  concat (map (fun idx => match EachByPack map_order idx exclude with Ok groups => groups | Err _ => [] end) idxs).

(** The fields of a stored index have their widths. *)
Definition wide_file (packs : list packJSON) : Prop :=
  Forall (fun p => length (pj_ID p) = 32%nat /\ Forall (fun b => wide (of_json b)) (pj_Blobs p)) packs.

(** What is assumed of a rewrite: the orders are permutations, the index files have
    fields of their widths, the files declared obsolete are not rewritten, and SHA-256
    has no collision on the packs of these files. *)
Record rewritable (indexes exclude : gset ID) (load : ID -> result (list packJSON)) (extraObsolete : list ID) : Prop := {
  rw_map : forall l, Permutation (map_order l) l;
  rw_arrival : forall l, Permutation (arrival l) l;
  rw_sort : forall l, Permutation (sort_Blobs l) l;
  rw_wide : forall id packs, id ∈ indexes -> load id = Ok packs -> wide_file packs;
  rw_extra : forall id, id ∈ indexes -> ~ id ∈ extraObsolete;
  rw_hash : forall idxs, load_all created hash load (arrival (elements indexes)) = Ok idxs ->
    forall g g', g ∈ groups_of exclude idxs -> g' ∈ groups_of exclude idxs ->
    Sum256 (hashed sort_Blobs g) = Sum256 (hashed sort_Blobs g') -> hashed sort_Blobs g = hashed sort_Blobs g' }.

Lemma contents_wide packs t pb : wide_file packs -> pb ∈ contents packs t -> length (pb_Pack pb) = 32%nat /\ wide (pb_Blob pb).
Proof.
  intros W. rewrite contents_flat, elem_of_rev. intros [_ H]%list_elem_of_filter.
  apply list_elem_of_In, in_concat in H as (l & Hl & Hp). apply in_map_iff in Hl as (p & <- & Hin).
  apply in_map_iff in Hp as (b & <- & Hb). unfold wide_file in W. rewrite Forall_forall in W.
  destruct (W p (proj2 (list_elem_of_In _ _) Hin)) as [L F]. rewrite Forall_forall in F. split; [done|].
  apply F. by apply list_elem_of_In.
Qed.

Lemma groups_wide indexes exclude load extraObsolete idxs :
  rewritable indexes exclude load extraObsolete ->
  load_all created hash load (arrival (elements indexes)) = Ok idxs -> Forall wide_group (groups_of exclude idxs).
Proof.
  intros W E. apply load_all_spec in E. apply Forall_forall. intros g Hg.
  apply list_elem_of_In, in_concat in Hg as (l & Hl & Hg). apply in_map_iff in Hl as (idx & <- & Hi).
  apply list_elem_of_In, list_elem_of_lookup in Hi as [i Hi].
  destruct (Forall2_lookup_l _ _ _ _ _ E Hi) as (id & Hid & packs & El & Ed).
  assert (R : reachable idx (contents packs)) by by eapply reach_decode.
  assert (Hin : id ∈ indexes).
  { apply list_elem_of_lookup_2 in Hid. rewrite (rw_arrival _ _ _ _ W) in Hid. by apply elem_of_elements in Hid. }
  pose proof (rw_wide _ _ _ _ W id packs Hin El) as Wf.
  destruct (EachByPack_spec map_order (rw_map _ _ _ _ W) idx _ exclude R) as (groups & Eg & _ & G). rewrite Eg in Hg.
  apply list_elem_of_In in Hg.
  assert (Wb : forall b, b ∈ pbs_Blobs g -> length (pbs_PackID g) = 32%nat /\ wide b).
  { intros b Hb. destruct (G g b Hg Hb) as [Hh _]. rewrite (has_iff _ _ _ R) in Hh. destruct Hh as (t & _ & Hc).
    exact (contents_wide packs t _ Wf Hc). }
  assert (Ne : exists b, b ∈ pbs_Blobs g).
  { unfold EachByPack in Eg. destruct (Values idx) as [pbs|]; [|done]. injection Eg as <-.
    apply list_elem_of_fmap in Hg as (p & -> & Hp). rewrite (rw_map _ _ _ _ W) in Hp.
    apply elem_of_remove_dups, list_elem_of_fmap in Hp as (pb & -> & Hp). exists (pb_Blob pb). cbn.
    apply list_elem_of_fmap. exists pb. split; [done|]. by apply list_elem_of_filter. }
  destruct Ne as [b0 Hb0]. split; [by apply (Wb b0)|]. apply Forall_forall. intros b Hb. by apply Wb.
Qed.

Lemma initial_progress (exclude extra : gset ID) (all : list PackBlobs) :
  progress sort_Blobs exclude all extra [] [] (mkCopy ∅ (NewIndex created hash) []) extra.
Proof.
  assert (No : forall pb, ~ out (mkCopy ∅ (NewIndex created hash) []) pb).
  { intros pb (j & ->%list_elem_of_singleton & Hp). by apply has_new in Hp. }
  split.
  - apply Forall_singleton. exists (fun _ => []). constructor.
  - by intros h ?%elem_of_empty.
  - by intros idx pb ?%elem_of_nil.
  - intros pb Hp. by apply No in Hp.
  - by intros j ?%elem_of_nil.
  - by intros idx id ?%elem_of_nil.
  - by left.
Qed.

Lemma Rewrite_sound (mi mi' : MasterIndex) (load : ID -> result (list packJSON))
    (SaveUnpacked : list packJSON -> ID * option string) (exclude : gset ID) (oldIndexes : option (gset ID))
    (extraObsolete saved : list ID) (obsolete : gset ID) :
  rewritable (default (MasterIDs mi) oldIndexes) exclude load extraObsolete ->
  Rewrite map_order arrival sort_Blobs now created hash true mi load SaveUnpacked exclude oldIndexes extraObsolete
    = Ok (mi', saved, obsolete) ->
  let old id idx := id ∈ default (MasterIDs mi) oldIndexes
    /\ exists packs, load id = Ok packs /\ DecodeIndex packs id created hash = Ok idx in
  (forall id idx pb, old id idx -> has idx pb -> ~ pb_Pack pb ∈ exclude ->
     (exists id' idx', old id' idx' /\ has idx' pb /\ ~ id' ∈ obsolete) \/ exists idx', idx' ∈ mi_idx mi' /\ has idx' pb)
  /\ (forall idx' pb, idx' ∈ mi_idx mi' -> has idx' pb -> ~ pb_Pack pb ∈ exclude /\ exists id idx, old id idx /\ has idx pb)
  /\ (forall id idx pb, old id idx -> ~ id ∈ obsolete -> has idx pb -> ~ pb_Pack pb ∈ exclude)
  /\ MasterIDs mi' = list_to_set saved.
Proof.
  intros W E old. unfold Rewrite in E. set (indexes := default (MasterIDs mi) oldIndexes) in *.
  apply rbind_ok in E as ([] & _ & E). apply rbind_ok in E as (idxs & El & E). apply rbind_ok in E as ([new obs] & Er & E).
  apply rbind_ok in E as ([mi1 sv] & Es & E). injection E as -> -> ->.
  pose proof (groups_wide _ _ _ _ _ W El) as Gw. pose proof (rw_hash _ _ _ _ W idxs El) as Gc.
  pose proof (load_all_spec _ _ _ _ _ El) as F.
  assert (Old : forall idx, idx ∈ idxs <-> exists id, old id idx).
  { intros idx. split.
    - intros [i Hi]%list_elem_of_lookup. destruct (Forall2_lookup_l _ _ _ _ _ F Hi) as (id & Hid & H). exists id. split; [|done].
      apply list_elem_of_lookup_2 in Hid. rewrite (rw_arrival _ _ _ _ W) in Hid. by apply elem_of_elements in Hid.
    - intros (id & Hin & packs & E1 & E2). apply elem_of_elements in Hin. rewrite <- (rw_arrival _ _ _ _ W) in Hin.
      apply list_elem_of_lookup in Hin as [i Hi]. destruct (Forall2_lookup_r _ _ _ _ _ F Hi) as (idx' & Hx & packs' & E1' & E2').
      apply list_elem_of_lookup_2 in Hx. congruence. }
  assert (Fi : Forall2 (fun idx id => ix_ids idx = [id]) idxs (arrival (elements indexes))).
  { eapply Forall2_impl; [exact F|]. intros idx id (packs & _ & E). by apply DecodeIndex_inv in E as (_ & _ & ?). }
  assert (Ld : Forall (loaded map_order exclude (groups_of exclude idxs)) idxs).
  { apply Forall_forall. intros idx Hi. apply Old in Hi as Hid. destruct Hid as (id & _ & packs & _ & E).
    split; [eexists; by eapply reach_decode|]. split; [by apply DecodeIndex_inv in E as (_ & ? & _)|].
    intros groups Eg g Hg. apply list_elem_of_In, in_concat. exists groups. split; [|by apply list_elem_of_In].
    apply in_map_iff. exists idx. rewrite Eg. split; [done|by apply list_elem_of_In]. }
  unfold rewriteIndexes in Er. destruct (rewrite_all _ _ _ _ _ _ _ _) as [[cp obs']|] eqn:Ea; [|done]. cbn [rbind] in Er. injection Er as <- ->.
  destruct (rewrite_all_spec map_order sort_Blobs now created hash exclude (rw_map _ _ _ _ W) (rw_sort _ _ _ _ W) (groups_of exclude idxs) Gw Gc
    (list_to_set extraObsolete) idxs (arrival (elements indexes)) [] [] (mkCopy ∅ (NewIndex created hash) []) (list_to_set extraObsolete) cp obsolete)
    as (kept & [Ps _ Pw Po Pk Pr Pb]); [done|done| | | |done|].
  { rewrite (rw_arrival _ _ _ _ W). apply NoDup_elements. }
  { intros id Hid. rewrite (rw_arrival _ _ _ _ W) in Hid. apply elem_of_elements in Hid. split; [|by intros j ?%elem_of_nil].
    rewrite elem_of_list_to_set. by apply (rw_extra _ _ _ _ W). }
  { apply initial_progress. }
  destruct (save_all_spec SaveUnpacked _ _ _ _ _ Ps Es) as [Sv Si]; [by unfold MasterIDs; cbn; rewrite union_empty_r_L|].
  assert (New : forall pb, kept_has (mi_idx mi') pb <-> out cp pb).
  { intros pb. rewrite Sv. split; [|by right]. intros [(j & ->%list_elem_of_singleton & Hp)|?]; [|done].
    rewrite (has_same (NewIndex created hash)) in Hp by done. by apply has_new in Hp. }
  cbn [app] in *. split; [|split; [|split; [|done]]].
  - intros id idx pb Ho Hp N. destruct (Pw idx pb) as [(j & Hj & Hb)|Hb]; [apply Old; eauto|done|done| |right; by apply New].
    left. destruct (Pk j Hj) as (Kw & _ & Kn). apply Old in Kw as (id' & Ho'). exists id', j. split; [done|]. split; [done|].
    apply Kn. destruct Ho' as (_ & packs & _ & E). by apply DecodeIndex_inv in E as (_ & _ & ?).
  - intros idx' pb Hi Hp. destruct (Po pb) as (N & idx & Hx & Hb); [apply New; by exists idx'|]. split; [done|].
    apply Old in Hx as (id & Ho). eauto.
  - intros id idx pb Ho No Hp. destruct (Pr idx id) as [Hk|Hx]; [apply Old; eauto| | |done].
    + destruct Ho as (_ & packs & _ & E). by apply DecodeIndex_inv in E as (_ & _ & ?).
    + destruct (Pk idx Hk) as (_ & K & _). by apply K.
Qed.

(** C18. A rewrite of the index loses nothing, if the context is not cancelled while the last
    index is handed to the savers. Every blob of an old index whose pack is not
    excluded is afterwards in an old index file that stays, or in a new index; the new
    indexes have only such blobs, the IDs of the new files are those of the new
    indexes, and an old file that stays names no excluded pack. The index files have fields
    of their widths, those declared obsolete are not rewritten, and SHA-256 has no collision
    on their packs. *)
Theorem Rewrite_keeps (mi mi' : MasterIndex) (load : ID -> result (list packJSON))
    (SaveUnpacked : list packJSON -> ID * option string) (exclude : gset ID) (oldIndexes : option (gset ID))
    (extraObsolete saved : list ID) (obsolete : gset ID) :
  rewritable (default (MasterIDs mi) oldIndexes) exclude load extraObsolete ->
  Rewrite map_order arrival sort_Blobs now created hash true mi load SaveUnpacked exclude oldIndexes extraObsolete
    = Ok (mi', saved, obsolete) ->
  let old id idx := id ∈ default (MasterIDs mi) oldIndexes
    /\ exists packs, load id = Ok packs /\ DecodeIndex packs id created hash = Ok idx in
  (forall id idx pb, old id idx -> has idx pb -> ~ pb_Pack pb ∈ exclude ->
     (exists id' idx', old id' idx' /\ has idx' pb /\ ~ id' ∈ obsolete) \/ exists idx', idx' ∈ mi_idx mi' /\ has idx' pb)
  /\ (forall idx' pb, idx' ∈ mi_idx mi' -> has idx' pb -> ~ pb_Pack pb ∈ exclude /\ exists id idx, old id idx /\ has idx pb)
  /\ (forall id idx pb, old id idx -> ~ id ∈ obsolete -> has idx pb -> ~ pb_Pack pb ∈ exclude)
  /\ MasterIDs mi' = list_to_set saved.
Proof. apply Rewrite_sound. Qed.
End Props.

(** Loading the index files again and again, as files come and go. *)
Fixpoint load_history (arrival : list ID -> list ID) (load : ID -> result (list packJSON)) (now : Z) (hash : Z -> ID -> Z)
    (mi : MasterIndex) (history : list (list ID)) : result MasterIndex :=
  match history with
  | [] => Ok mi
  | files :: history =>
      let! mi := Load arrival mi (mkIndexFiles files load) now hash in
      load_history arrival load now hash mi history
  end.

Lemma load_history_mirrors arrival load now hash history mi ids mi' :
  (forall l, Permutation (arrival l) l) -> mirrors load mi ids -> load_history arrival load now hash mi history = Ok mi' ->
  exists ids', mirrors load mi' ids'.
Proof.
  intros Pa. revert mi ids. induction history as [|files history IH]; intros mi ids M E; cbn in E; [injection E as <-; eauto|].
  apply rbind_ok in E as (mi1 & E1 & E). destruct (Load_spec arrival mi ids (mkIndexFiles files load) now hash mi1 Pa M E1) as (ids1 & M1 & _).
  by apply (IH mi1 ids1).
Qed.

(** An incremental load gives what a full load gives: however often the index was
    loaded before, and whatever index files there were then, a load that succeeds
    leaves exactly the blobs of the files that are listed now, and their IDs, and
    nothing pending. *)
Theorem Load_incremental (arrival : list ID -> list ID) (load : ID -> result (list packJSON)) (now : Z) (hash : Z -> ID -> Z)
    (history : list (list ID)) (files : list ID) (mi mi' : MasterIndex) :
  (forall l, Permutation (arrival l) l) ->
  load_history arrival load now hash (NewMasterIndex now hash) history = Ok mi ->
  Load arrival mi (mkIndexFiles files load) now hash = Ok mi' ->
  MasterIDs mi' = list_to_set files /\ mi_pending mi' = ∅
  /\ exists pbs, MasterValues mi' = Ok pbs
     /\ forall pb, pb ∈ pbs <-> exists id packs, id ∈ files /\ load id = Ok packs /\ pb ∈ flat packs.
Proof.
  intros Pa Eh E. destruct (load_history_mirrors _ _ _ _ _ _ _ _ Pa (clear_mirrors load now hash) Eh) as [ids M].
  destruct (Load_spec arrival mi ids (mkIndexFiles files load) now hash mi' Pa M E) as (ids' & (main & bs & Em & Fm & R & Ei & G) & Eq & P). cbn in *.
  unfold MasterIDs, MasterValues. rewrite Em. cbn [map values_in]. rewrite Fm, Ei. cbn [negb].
  split; [|split; [done|]].
  - cbn. rewrite union_empty_r_L. apply set_eq. intros id. rewrite !elem_of_list_to_set. apply Eq.
  - rewrite (Values_spec main bs (reachable_indexes _ _ R)). cbn [rbind]. eexists. split; [done|]. intros pb.
    rewrite app_nil_r, values_elem, <- (has_iff main bs pb R), G. split; intros (id & packs & Hid & H); exists id, packs;
      (split; [by apply Eq|done]).
Qed.

(** ** Examples *)

(** Two index files share a pack; the first one names an excluded pack as well. Both are
    rewritten, and the common pack is copied once. *)
Definition file_a : ID := repeat x21 32.
Definition file_b : ID := repeat x22 32.
Definition json_blob (n offset : Z) : blobJSON := mkBlobJSON (z2b n :: repeat x00 31) DataBlob offset 40 0.
Definition stored (id : ID) : result (list packJSON) :=
  if bool_decide (id = file_a) then Ok [mkPackJSON (repeat x0a 32) [json_blob 1 0]; mkPackJSON (repeat x0b 32) [json_blob 2 0]]
  else if bool_decide (id = file_b) then Ok [mkPackJSON (repeat x0b 32) [json_blob 2 0]]
  else Err "not found".
Definition keep_order {A} (l : list A) : list A := l.
Definition two_files : gset ID := {[file_a; file_b]}.
Definition excluded : gset ID := {[repeat x0a 32]}.
Definition rewritten : result (MasterIndex * list ID * gset ID) :=
  Rewrite keep_order keep_order keep_order (fun _ => 0) 0 sample_hash true (NewMasterIndex 0 sample_hash) stored
    (fun _ => (repeat x31 32, None)) excluded (Some two_files) [].
Definition cancelled : result (MasterIndex * list ID * gset ID) :=
  Rewrite keep_order keep_order keep_order (fun _ => 0) 0 sample_hash false (NewMasterIndex 0 sample_hash) stored
    (fun _ => (repeat x31 32, None)) excluded (Some two_files) [].
Definition outcome (r : result (MasterIndex * list ID * gset ID)) : MasterIndex * gset ID :=
  match r with Ok (mi, _, obsolete) => (mi, obsolete) | Err _ => (NewMasterIndex 0 sample_hash, ∅) end.
Definition rewritten_master : MasterIndex := fst (outcome rewritten).
Definition rewritten_obsolete : gset ID := snd (outcome rewritten).

Lemma stored_rewritable : rewritable keep_order keep_order keep_order 0 sample_hash two_files excluded stored [].
Proof.
  split; [done|done|done| |by intros id _ ?%elem_of_nil|].
  - intros id packs _ E. unfold stored in E. case_bool_decide; [injection E as <-|case_bool_decide; [injection E as <-|done]];
      repeat constructor; done.
  - intros idxs E. assert (Eg : groups_of keep_order excluded idxs
      = match load_all 0 sample_hash stored (elements two_files) with Ok l => groups_of keep_order excluded l | Err _ => [] end).
    { unfold keep_order in E at 1. by rewrite E. }
    rewrite Eg. clear Eg E.
    assert (F : Forall (fun g => hashed keep_order g = hashed keep_order (mkPackBlobs (repeat x0b 32) [of_json (json_blob 2 0)]))
      (match load_all 0 sample_hash stored (elements two_files) with Ok l => groups_of keep_order excluded l | Err _ => [] end)).
    { apply (bool_decide_eq_true_1 _). vm_compute. reflexivity. }
    intros g g' Hg Hg' _. rewrite Forall_forall in F. by rewrite (F g Hg), (F g' Hg').
Qed.

Definition saved_as (ids : list ID) (r : result (MasterIndex * list ID * gset ID)) : bool :=
  match r with Ok (_, saved, _) => bool_decide (saved = ids) | Err _ => false end.

Lemma saved_as_spec ids r : saved_as ids r = true -> r = Ok (fst (outcome r), ids, snd (outcome r)).
Proof. destruct r as [[[mi saved] obsolete]|]; [|done]. by intros ->%bool_decide_eq_true. Qed.

Lemma rewritten_ok : saved_as [repeat x31 32] rewritten = true.
Proof. vm_compute. reflexivity. Qed.

Lemma Rewrite_keeps_witness :
  rewritten = Ok (rewritten_master, [repeat x31 32], rewritten_obsolete)
  /\ MasterIDs rewritten_master = list_to_set [repeat x31 32].
Proof.
  assert (E : rewritten = Ok (rewritten_master, [repeat x31 32], rewritten_obsolete)) by exact (saved_as_spec _ _ rewritten_ok).
  split; [exact E|].
  exact (proj2 (proj2 (proj2 (Rewrite_keeps keep_order keep_order keep_order (fun _ => 0) 0 sample_hash (NewMasterIndex 0 sample_hash) rewritten_master
    stored (fun _ => (repeat x31 32, None)) excluded (Some two_files) [] [repeat x31 32] rewritten_obsolete stored_rewritable E)))).
Defined.

(** A rewrite whose context is cancelled while the last index is handed to the savers
    succeeds all the same: no index is saved, the blobs of the pack that stays are in no new
    index, and both old files are obsolete. *)
Theorem Rewrite_cancelled :
  saved_as [] cancelled = true /\ elements (snd (outcome cancelled)) = elements two_files
  /\ MasterValues (fst (outcome cancelled)) = Ok [].
Proof. split; [|split]; vm_compute; reflexivity. Qed.

(** First both files, then only the second one. *)
Definition master_of (r : result MasterIndex) : MasterIndex := match r with Ok mi => mi | Err _ => NewMasterIndex 0 sample_hash end.
Definition first_load : MasterIndex :=
  master_of (load_history keep_order stored 0 sample_hash (NewMasterIndex 0 sample_hash) [[file_a; file_b]]).
Definition second_load : MasterIndex := master_of (Load keep_order first_load (mkIndexFiles [file_b] stored) 0 sample_hash).

Lemma master_of_ok r : is_ok r = true -> r = Ok (master_of r).
Proof. by destruct r. Qed.

Lemma Load_incremental_witness :
  MasterIDs second_load = list_to_set [file_b] /\ mi_pending second_load = ∅
  /\ exists pbs, MasterValues second_load = Ok pbs
     /\ forall pb, pb ∈ pbs <-> exists id packs, id ∈ [file_b] /\ stored id = Ok packs /\ pb ∈ flat packs.
Proof.
  apply (Load_incremental keep_order stored 0 sample_hash [[file_a; file_b]] [file_b] first_load second_load);
    [done|apply master_of_ok; vm_compute; reflexivity..].
Defined.
End RewriteProps.
