(* ===== verification/Repack.v ===== *)
(** * Repacking ([internal/repository/repack.go], [ListPacks] in
    [internal/repository/index/master_index.go])

    [CopyBlobs] reads packs and saves those of their blobs that are to be kept once more.
    One goroutine lists the packs, several others stream them; they share the set of the
    blobs that are still to be kept. The model is a step relation: the goroutines and the
    uploader take turns in any order. *)
From stdpp Require Import base list numbers strings gmap sets.
From Stdlib Require Import ZArith Lia Relations Wellfounded.
From coqutil Require Import Datatypes.RecordSetters.
From S2P Require Import Prelude Codec Sha256 Crypto Pack IndexMap RepoIndex MasterIndex AssociatedSet PackSizer Upload Stream Rewrite.
Import TriangleBracketNotations.

(** ** Listing packs *)

Definition nibble (id : ID) : Z := Z.land (b2z (byte_at 0 id)) 15.

(** One round of [ListPacks]: the packs whose first byte ends in [i]. *)
Definition list_round (map_order : list ID -> list ID) (mi : MasterIndex) (packs : gset ID) (i : Z) : result (list PackBlobs) :=
  match filter (fun p => nibble p = i) (elements packs) with
  | [] => Ok []
  | ids =>
      let! pbs := MasterValues mi in
      Ok (map (fun p => mkPackBlobs p (map pb_Blob (filter (fun pb => pb_Pack pb = p) pbs))) (map_order ids))
  end.

(** The blobs of a pack that are to be kept. *)
Fixpoint kept_blobs (mi : MasterIndex) (keepBlobs : AssociatedSet Z) (blobs : list Blob) : result (list Blob) :=
  match blobs with
  | [] => Ok []
  | entry :: blobs =>
      let! has := Get mi keepBlobs (b_handle entry) in
      let! rest := kept_blobs mi keepBlobs blobs in
      Ok (match has with Some _ => entry :: rest | None => rest end)
  end.

(** ** Copying *)

(** The next round of the listing, the packs that were listed and those that were queued,
    the packs that are being streamed, the blobs still to be kept, those taken from the set
    and not yet saved, and the uploader. *)
Record Repacking := mkRepacking {
  rk_round : nat; rk_groups : list PackBlobs; rk_queue : list PackBlobs; rk_streams : list stream;
  rk_keep : AssociatedSet Z; rk_saving : list (BlobHandle * bytes); rk_u : Uploader }.

Section Copy.
Context {cipher : Cipher} {zstd : Zstd} (Write : bytes -> bytes -> Z * option string) (st : Settings) (chunker_MinSize : Z).
Context (dec : bytes -> result bytes) (sort_Blobs : list Blob -> list Blob) (packs : gset ID) (workers : nat).

Inductive rp_step : Repacking -> list (BlobHandle * bytes) -> Repacking -> Prop :=
  (** The lister starts a round, passes a pack on. *)
  | rp_round s map_order groups :
      (rk_round s < 16)%nat -> rk_groups s = [] -> (forall l, Permutation (map_order l) l) ->
      list_round map_order (u_idx (rk_u s)) packs (Z.of_nat (rk_round s)) = Ok groups ->
      rp_step s [] (s <| rk_round := S (rk_round s) |> <| rk_groups := groups |>)
  | rp_list s g groups blobs :
      rk_groups s = g :: groups -> kept_blobs (u_idx (rk_u s)) (rk_keep s) (pbs_Blobs g) = Ok blobs ->
      rp_step s [] (s <| rk_groups := groups |> <| rk_queue := rk_queue s ++ [mkPackBlobs (pbs_PackID g) blobs] |>)
  (** A worker starts to stream a pack: the backend may give anything. *)
  | rp_start s g queue beLoad env :
      rk_queue s = g :: queue -> (length (rk_streams s) < workers)%nat ->
      rp_step s [] (s <| rk_queue := queue |>
        <| rk_streams := rk_streams s ++ [streamPack (s_key st) dec sort_Blobs beLoad
             (Some (LoadBlob st env (u_packs (rk_u s)) (u_idx (rk_u s)))) (pbs_PackID g) (pbs_Blobs g)] |>)
  (** The callback for a blob that is still to be kept, and for one that is not. *)
  | rp_take s before h d vs res after keep' v :
      rk_streams s = before ++ ((h, Ok d) :: vs, res) :: after -> Get (u_idx (rk_u s)) (rk_keep s) h = Ok (Some v) ->
      Delete (u_idx (rk_u s)) (rk_keep s) h = Ok keep' ->
      rp_step s [] (s <| rk_streams := before ++ (vs, res) :: after |> <| rk_keep := keep' |> <| rk_saving := rk_saving s ++ [(h, d)] |>)
  | rp_skip s before h d vs res after :
      rk_streams s = before ++ ((h, Ok d) :: vs, res) :: after -> Get (u_idx (rk_u s)) (rk_keep s) h = Ok None ->
      rp_step s [] (s <| rk_streams := before ++ (vs, res) :: after |>)
  (** Blobs that are known are saved as well. *)
  | rp_save s before h d after env u' newID known size :
      rk_saving s = before ++ (h, d) :: after ->
      saveBlob Write st chunker_MinSize (rk_u s) env (bh_Type h) d (bh_ID h) true = (u', Ok (newID, known, size)) ->
      rp_step s [(mkBlobHandle newID (bh_Type h), d)] (s <| rk_saving := before ++ after |> <| rk_u := u' |>)
  (** A stream ends; the uploader goes on. *)
  | rp_done s before after :
      rk_streams s = before ++ ([], Ok tt) :: after -> rp_step s [] (s <| rk_streams := before ++ after |>)
  | rp_upload s u' :
      pack_step Write st (rk_u s) u' -> rp_step s [] (s <| rk_u := u' |>).

Inductive rp_steps : Repacking -> list (BlobHandle * bytes) -> Repacking -> Prop :=
  | rps_nil s : rp_steps s [] s
  | rps_cons s saved s1 saved' s2 : rp_step s saved s1 -> rp_steps s1 saved' s2 -> rp_steps s (saved ++ saved') s2.

Definition rp_start_state (keepBlobs : AssociatedSet Z) (u : Uploader) : Repacking := mkRepacking 0 [] [] [] keepBlobs [] u.

(** [CopyBlobs] returns without an error when everybody is done. *)
Definition rp_finished (s : Repacking) : Prop :=
  rk_round s = 16%nat /\ rk_groups s = [] /\ rk_queue s = [] /\ rk_streams s = [] /\ rk_saving s = [].

(** [WithBlobUploader] around [CopyBlobs], without an error. *)
Definition repacked (keepBlobs : AssociatedSet Z) (u : Uploader) (saved : list (BlobHandle * bytes)) (keep' : AssociatedSet Z)
    (u' : Uploader) : Prop :=
  exists s u2 u3 rewind queue SaveUnpacked,
    rp_steps (rp_start_state keepBlobs u) saved s /\ rp_finished s /\ keep' = rk_keep s
    /\ flush_packers Write rewind queue (rk_u s) = (u2, Ok tt) /\ up_steps Write st chunker_MinSize u2 [] u3 /\ u_queue u3 = []
    /\ flush_index SaveUnpacked u3 = (u', Ok tt) /\ fresh_files (flush_files SaveUnpacked u3) (u_indexes u3).
End Copy.

(** ** Theory *)

Module RepackTheory.
Import IndexTheory IndexProps MasterTheory AssociatedTheory UploadTheory StreamTheory RewriteTheory.

Lemma byType_typed idx bs t m : reachable idx bs -> byType idx t = Ok m -> type_ok t.
Proof.
  intros R [P H]%byType_some. apply reachable_indexes in R as [L _]. apply lookup_lt_Some in H. unfold type_ok, NumBlobTypes. lia.
Qed.

(** *** The set of the blobs to keep *)

(** The set has these values, for the index as it is. *)
Definition tracks (mi : MasterIndex) (a : AssociatedSet Z) (f : BlobHandle -> option Z) : Prop :=
  exists bss bs, master mi bss /\ head bss = Some bs /\ well_formed bs a /\ forall bh, type_ok (bh_Type bh) -> value_at bs a bh = f bh.

Lemma tracks_get mi a f bh r : tracks mi a f -> Get mi a bh = Ok r -> type_ok (bh_Type bh) /\ r = f bh.
Proof.
  intros (bss & bs & M & Hd & W & V) H. assert (Ty : type_ok (bh_Type bh)).
  { unfold Get in H. destruct (as_overflow a !! bh) as [v|] eqn:E; [by apply (wf_overflow _ _ W) in E as [? _]|].
    apply rbind_ok in H as (i & Hi & _). unfold blobIndex in Hi. destruct M as [(main & rest & Em & _) F]. rewrite Em in Hi, F.
    apply Forall2_cons_inv_l in F as (b & l & R & _ & _). apply rbind_ok in Hi as (m & Hm & _). by eapply byType_typed. }
  split; [done|]. rewrite (Get_spec mi bss bs a bh M Hd W Ty), V in H by done. by injection H.
Qed.

Lemma tracks_delete mi a f bh a' :
  tracks mi a f -> type_ok (bh_Type bh) -> Delete mi a bh = Ok a' -> tracks mi a' (fun bh' => if decide (bh = bh') then None else f bh').
Proof.
  intros (bss & bs & M & Hd & W & V) Ty H. destruct (Delete_spec mi bss bs a bh M Hd W Ty) as (a1 & E1 & W1 & V1).
  rewrite H in E1. injection E1 as <-. exists bss, bs. do 3 (split; [done|]). intros bh' Ty'. rewrite V1 by done. destruct (decide _); [done|by apply V].
Qed.

Lemma tracks_steps mi a f mi' : tracks mi a f -> rtc m_step mi mi' -> tracks mi' a f.
Proof.
  intros (bss & bs & M & Hd & W & V) S. destruct (m_steps_known _ _ _ M S) as (bss' & M' & G & _). pose proof (master_head _ _ M').
  destruct (head bss') as [bs'|] eqn:Hd'; [|done]. destruct (well_formed_grown bs bs' a (G bs bs' Hd Hd') W) as [W' V'].
  exists bss', bs'. do 3 (split; [done|]). intros bh Ty. rewrite V' by done. by apply V.
Qed.

(** *** The uploader under the set *)

Section Theory.
Context {cipher : Cipher} {laws : CipherLaws} {zstd : Zstd} {zlaws : ZstdLaws}.
Context (Write : bytes -> bytes -> Z * option string) (st : Settings) (chunker_MinSize : Z) (dec : bytes -> result bytes).
Context (decoder : getZstdDecoder = Ok dec).

Lemma store_pack_steps u env id blobs u' : store_pack u env id blobs = (u', Ok tt) -> rtc m_step (u_idx u) (u_idx u').
Proof.
  intros H. unfold store_pack in H. destruct (storePack _ _ _ _ _) as [mi1|] eqn:E1; [|done]. unfold finalizeFullIndexes in H.
  destruct (finalize_where _ mi1) as [mi2 positions] eqn:Ef. destruct (saveIndex _ _ _) as [[mi3 [e|]]|] eqn:E3; [done| |done]. injection H as <-.
  eapply rtc_l; [by eapply step_store|]. eapply rtc_l; [apply (step_finalize mi1 (Full (ue_now env)))|]. rewrite Ef. apply rtc_once. by eapply step_save.
Qed.

Lemma savePacker_steps u env p u' : savePacker Write st u env p = (u', Ok tt) -> rtc m_step (u_idx u) (u_idx u').
Proof.
  unfold savePacker. destruct (Packer_Finalize _ _ _ _) as [q [e|]]; [done|]. destruct (ue_file env); [|done].
  destruct (ue_Save env); [|done]. destruct (ue_close env); [|done]. intros H. by apply store_pack_steps in H.
Qed.

Lemma pack_step_steps u u' : pack_step Write st u u' -> rtc m_step (u_idx u) (u_idx u').
Proof. intros [? env before p after ? _ E _]. by apply savePacker_steps in E. Qed.

Lemma flush_index_steps SaveUnpacked u u' : flush_index SaveUnpacked u = (u', Ok tt) -> rtc m_step (u_idx u) (u_idx u').
Proof.
  unfold flush_index, Flush. change (u_idx (u <| u_indexes := _ |>)) with (u_idx u). unfold finalizeNotFinalIndexes.
  destruct (finalize_where _ (u_idx u)) as [mi positions] eqn:Ef. destruct (saveIndex _ _ _) as [[mi' [e|]]|] eqn:E; [done| |done]. intros [= <-].
  eapply rtc_l; [apply (step_finalize (u_idx u) (fun _ => true))|]. rewrite Ef. apply rtc_once. by eapply step_save.
Qed.

Lemma saveAndEncrypt_typed u env t data id u' n :
  saveAndEncrypt Write st u env t data id = (u', Ok n) -> type_ok t /\ u_idx u' = u_idx u.
Proof.
  unfold saveAndEncrypt. destruct (encrypt_blob _ _ _ _ _) as [[ct ul]|]; [|done].
  destruct (Z.eqb_spec t TreeBlob) as [->|]; [|destruct (Z.eqb_spec t DataBlob) as [->|]; [|done]];
    (destruct (SaveBlob _ _ _ _ _ _ _) as [[pm q] res]; intros [= <- _]; by split).
Qed.

Lemma saveBlob_steps u env t buf id dup u' newID known size :
  saveBlob Write st chunker_MinSize u env t buf id dup = (u', Ok (newID, known, size)) -> rtc m_step (u_idx u) (u_idx u').
Proof.
  unfold saveBlob. destruct (negb _); [done|]. destruct (_ <? _); [done|]. destruct (AddPending _ _ _) as [[mi added]|] eqn:Ea; [|done].
  destruct (added || dup) eqn:A.
  - destruct (saveAndEncrypt _ _ _ _ _ _ _) as [u2 [n|e]] eqn:E2; [|done]. intros [= <- _ _ _].
    apply saveAndEncrypt_typed in E2 as [Ty ->]. apply rtc_once. by eapply step_pending.
  - intros [= <- _ _ _]. apply orb_false_iff in A as [-> _]. unfold AddPending in Ea. destruct (mi_pending (u_idx u) !! _); [by injection Ea as <-|].
    apply rbind_ok in Ea as (b & _ & Ea). destruct b; by injection Ea as <-.
Qed.

Lemma LoadBlob_any_hash env packs mi bss h d : master mi bss -> LoadBlob st env packs mi h = Ok d -> Sum256 d = bh_ID h.
Proof.
  intros M H. apply (LoadBlob_hash st dec decoder env packs mi bss h d M); [|done]. unfold LoadBlob in H. apply rbind_ok in H as (blobs & H & _).
  unfold MasterLookup in H. destruct M as [(main & rest & Em & _) F]. rewrite Em in H, F. apply Forall2_cons_inv_l in F as (b & l & R & _ & _).
  cbn [lookup_in] in H. apply rbind_ok in H as (pbs & H & _). unfold Lookup in H. apply rbind_ok in H as (m & Hm & _). by eapply byType_typed.
Qed.

(** *** Blobs in the index *)

Definition in_master (mi : MasterIndex) (pb : PackedBlob) : Prop := exists pbs, MasterValues mi = Ok pbs /\ pb ∈ pbs.

Lemma in_master_found mi bss pb :
  master mi bss -> in_master mi pb <-> type_ok (bh_Type (b_handle (pb_Blob pb))) /\ pb ∈ found_in bss (b_handle (pb_Blob pb)).
Proof.
  intros [_ F]. destruct (values_in_spec _ _ F) as (pbs & E & G). unfold in_master, MasterValues. rewrite E.
  assert (Ty : forall bs t, bs ∈ bss -> type_ok t -> pb ∈ bs t -> bh_Type (b_handle (pb_Blob pb)) = t).
  { intros bs t [i Hb]%list_elem_of_lookup T Hp. destruct (Forall2_lookup_r _ _ _ _ _ F Hb) as (idx & _ & R).
    exact (indexes_type idx bs t pb (reachable_indexes _ _ R) T Hp). }
  rewrite found_in_elem. split.
  - intros (? & [= <-] & (bs & t & Hb & T & Hp)%G). pose proof (Ty bs t Hb T Hp) as Et. split; [by rewrite Et|]. exists bs. split; [done|].
    apply of_handle_elem. by rewrite Et.
  - intros (T & bs & Hb & [_ Hp]%of_handle_elem). eexists. split; [done|]. apply G. eauto.
Qed.

Lemma m_step_keeps mi bss mi' : master mi bss -> m_step mi mi' -> exists bss', master mi' bss' /\ keeps bss bss'.
Proof.
  intros M S. destruct S as [mi bh size mi' added E T|mi id blobs now hash mi' E|mi idx bs R|mi f|mi SU ps mi' err E].
  - exists bss. split; [by eapply master_same; [eapply AddPending_idx|]|apply keeps_refl].
  - destruct (storePack_found _ _ _ _ _ _ _ M E) as (bss' & ? & ? & _). eauto.
  - destruct M as [(main & rest & Em & Fi) F]. exists (bss ++ [bs]). split; [split|].
    + change (mi_idx (Insert mi idx)) with (mi_idx mi ++ [idx]). rewrite Em. by eexists _, _.
    + change (mi_idx (Insert mi idx)) with (mi_idx mi ++ [idx]). apply Forall2_app; [done|by repeat constructor].
    + intros bh pb _ H. apply found_in_elem in H as (b & Hb & H). apply found_in_elem. exists b. split; [apply elem_of_app; by left|done].
  - exists bss. split; [by apply finalize_where_spec|apply keeps_refl].
  - destruct (saveIndex_spec _ _ _ _ _ _ M E) as (bss' & M' & _ & Q & _). exists bss'. split; [done|]. intros bh pb T H. by apply Q.
Qed.

Lemma in_master_steps mi bss mi' pb : master mi bss -> rtc m_step mi mi' -> in_master mi pb -> in_master mi' pb.
Proof.
  intros M S. revert bss M. induction S as [|mi mi1 mi' S1 _ IH]; intros bss M H; [done|].
  destruct (m_step_keeps _ _ _ M S1) as (bss1 & M1 & K). apply (IH bss1 M1). rewrite (in_master_found _ _ _ M) in H. destruct H as [T H].
  rewrite (in_master_found _ _ _ M1). split; [done|]. by apply K.
Qed.

(** *** The invariant of a repack *)

Context (sort_Blobs : list Blob -> list Blob) (sort_perm : forall l, Permutation (sort_Blobs l) l) (packs : gset ID) (workers : nat).

(** An entry of the index whose blob will still come by. *)
Definition outstanding (s : Repacking) (pb : PackedBlob) : Prop :=
  Z.of_nat (rk_round s) <= nibble (pb_Pack pb)
  \/ (exists g, g ∈ rk_groups s /\ pb_Blob pb ∈ pbs_Blobs g)
  \/ (exists g, g ∈ rk_queue s /\ b_handle (pb_Blob pb) ∈ map b_handle (pbs_Blobs g))
  \/ (exists values res, (values, res) ∈ rk_streams s /\ (b_handle (pb_Blob pb) ∈ map fst values \/ is_ok res = false)).

Record repack_inv (f0 : BlobHandle -> option Z) (s : Repacking) (saved : list (BlobHandle * bytes)) (f : BlobHandle -> option Z) : Prop := {
  ri_tracks : tracks (u_idx (rk_u s)) (rk_keep s) f;
  ri_streams : Forall (fun str => Forall hashed_right (fst str)) (rk_streams s);
  ri_saving : forall h d, (h, d) ∈ rk_saving s -> type_ok (bh_Type h) /\ Sum256 d = bh_ID h;
  ri_kept : forall h, type_ok (bh_Type h) -> f0 h <> None -> f h <> None \/ exists d, (h, d) ∈ rk_saving s \/ (h, d) ∈ saved;
  ri_left : forall h, type_ok (bh_Type h) -> f h <> None ->
    exists pb, b_handle (pb_Blob pb) = h /\ pb_Pack pb ∈ packs /\ in_master (u_idx (rk_u s)) pb /\ outstanding s pb }.

Lemma nibble_range id : 0 <= nibble id < 16.
Proof. unfold nibble. change 15 with (Z.ones 4). rewrite Z.land_ones by lia. apply Z.mod_pos_bound. lia. Qed.

Lemma list_round_elem map_order mi i groups pb :
  (forall l, Permutation (map_order l) l) -> list_round map_order mi packs i = Ok groups ->
  in_master mi pb -> pb_Pack pb ∈ packs -> nibble (pb_Pack pb) = i -> exists g, g ∈ groups /\ pb_Blob pb ∈ pbs_Blobs g.
Proof.
  intros Pm H (pbs & Ev & Hp) Hk Hn. unfold list_round in H.
  assert (Hi : pb_Pack pb ∈ filter (fun p => nibble p = i) (elements packs)) by (apply list_elem_of_filter; by rewrite elem_of_elements).
  destruct (filter _ (elements packs)) as [|id ids]; [by apply elem_of_nil in Hi|]. rewrite Ev in H. injection H as <-. eexists. split.
  - apply list_elem_of_fmap. exists (pb_Pack pb). split; [reflexivity|]. by rewrite Pm.
  - apply list_elem_of_fmap. exists pb. split; [done|]. by apply list_elem_of_filter.
Qed.

Lemma kept_blobs_elem mi a f blobs kept b :
  tracks mi a f -> kept_blobs mi a blobs = Ok kept -> b ∈ blobs -> f (b_handle b) <> None -> b ∈ kept.
Proof.
  intros T. revert kept. induction blobs as [|c blobs IH]; intros kept H Hb Hf; [by apply elem_of_nil in Hb|]. cbn [kept_blobs] in H.
  apply rbind_ok in H as (has & Hh & H). apply rbind_ok in H as (rest & Hr & H). injection H as <-. apply (tracks_get _ _ _ _ _ T) in Hh as [_ ->].
  apply elem_of_cons in Hb as [->|Hb]; [destruct (f (b_handle c)); [apply list_elem_of_here|done]|].
  destruct (f (b_handle c)); [apply list_elem_of_further|]; by apply IH.
Qed.

(** The index grows; the rest stays. *)
Lemma inv_index f0 s saved f u' sv' saved' :
  repack_inv f0 s saved f -> rtc m_step (u_idx (rk_u s)) (u_idx u') ->
  (forall h d, (h, d) ∈ sv' -> (h, d) ∈ rk_saving s) -> (forall h d, (h, d) ∈ rk_saving s \/ (h, d) ∈ saved -> (h, d) ∈ sv' \/ (h, d) ∈ saved') ->
  repack_inv f0 (s <| rk_saving := sv' |> <| rk_u := u' |>) saved' f.
Proof.
  intros [T S V K L] St Sub Cov. split.
  - exact (tracks_steps _ _ _ _ T St).
  - exact S.
  - intros h d Hd. apply (V h d), Sub, Hd.
  - intros h Ty Hf. destruct (K h Ty Hf) as [?|(d & Hd)]; [by left|right]. exists d. by apply Cov.
  - intros h Ty Hf. destruct (L h Ty Hf) as (pb & Eh & Hp & Hm & Ho). exists pb. do 2 (split; [done|]). split; [|exact Ho].
    destruct T as (bss & bs & M & _). by apply (in_master_steps _ _ _ _ M St).
Qed.

(** The lists change; the index stays. *)
Lemma inv_lists f0 s saved f s' :
  repack_inv f0 s saved f -> rk_u s' = rk_u s -> rk_keep s' = rk_keep s -> rk_saving s' = rk_saving s ->
  Forall (fun str => Forall hashed_right (fst str)) (rk_streams s') ->
  (forall pb, f (b_handle (pb_Blob pb)) <> None -> in_master (u_idx (rk_u s)) pb -> pb_Pack pb ∈ packs -> outstanding s pb -> outstanding s' pb) ->
  repack_inv f0 s' saved f.
Proof.
  intros [T S V K L] Eu Ek Es St Out. split; rewrite ?Eu, ?Ek, ?Es; try done.
  intros h Ty Hf. destruct (L h Ty Hf) as (pb & Eh & Hp & Hm & Ho). exists pb. do 3 (split; [done|]). apply Out; [by rewrite Eh|done..].
Qed.

Lemma streams_step (before after : list stream) v vs res :
  Forall (fun str => Forall hashed_right (fst str)) (before ++ (v :: vs, res) :: after) ->
  hashed_right v /\ Forall (fun str => Forall hashed_right (fst str)) (before ++ (vs, res) :: after).
Proof.
  rewrite !Forall_app, !Forall_cons. cbn [fst]. rewrite Forall_cons. tauto.
Qed.

(** A value goes by: only its blob can have been waiting for it. *)
Lemma outstanding_next s s' before h r vs res after pb :
  rk_streams s = before ++ ((h, r) :: vs, res) :: after -> rk_streams s' = before ++ (vs, res) :: after ->
  rk_round s' = rk_round s -> rk_groups s' = rk_groups s -> rk_queue s' = rk_queue s ->
  b_handle (pb_Blob pb) <> h -> outstanding s pb -> outstanding s' pb.
Proof.
  intros Es Es' Er Eg Eq N [H|[H|[H|(values & rs & Hs & H)]]]; unfold outstanding; rewrite Er, Eg, Eq; [tauto..|].
  do 3 right. rewrite Es in Hs. rewrite Es'. apply elem_of_app in Hs as [Hs|[E|Hs]%elem_of_cons].
  - exists values, rs. split; [apply elem_of_app; by left|done].
  - injection E as -> ->. exists vs, res. split; [apply elem_of_app; right; apply list_elem_of_here|]. destruct H as [H|H]; [|by right].
    left. cbn [map fst] in H. by apply elem_of_cons in H as [?|?].
  - exists values, rs. split; [apply elem_of_app; right; by apply list_elem_of_further|done].
Qed.

Lemma inv_round f0 s saved f mo groups :
  repack_inv f0 s saved f -> rk_groups s = [] -> (forall l, Permutation (mo l) l) ->
  list_round mo (u_idx (rk_u s)) packs (Z.of_nat (rk_round s)) = Ok groups ->
  repack_inv f0 (s <| rk_round := S (rk_round s) |> <| rk_groups := groups |>) saved f.
Proof.
  intros I G Pm E. apply (inv_lists _ _ _ _ _ I); [done..|exact (ri_streams _ _ _ _ I)|]. intros pb _ Hm Hp [H|[H|[H|H]]].
  - destruct (decide (nibble (pb_Pack pb) = Z.of_nat (rk_round s))) as [En|En].
    + right. left. exact (list_round_elem _ _ _ _ _ Pm E Hm Hp En).
    + left. change (Z.of_nat (S (rk_round s)) <= nibble (pb_Pack pb)). lia.
  - destruct H as (g & Hg & _). rewrite G in Hg. by apply elem_of_nil in Hg.
  - right. right. left. exact H.
  - do 3 right. exact H.
Qed.

Lemma inv_list f0 s saved f g groups blobs :
  repack_inv f0 s saved f -> rk_groups s = g :: groups -> kept_blobs (u_idx (rk_u s)) (rk_keep s) (pbs_Blobs g) = Ok blobs ->
  repack_inv f0 (s <| rk_groups := groups |> <| rk_queue := rk_queue s ++ [mkPackBlobs (pbs_PackID g) blobs] |>) saved f.
Proof.
  intros I G E. apply (inv_lists _ _ _ _ _ I); [done..|exact (ri_streams _ _ _ _ I)|]. intros pb Hf _ _ [H|[H|[H|H]]].
  - left. exact H.
  - destruct H as (g' & Hg & Hb). rewrite G in Hg. apply elem_of_cons in Hg as [->|Hg]; [|right; left; by exists g'].
    right. right. left. exists (mkPackBlobs (pbs_PackID g) blobs). split; [apply elem_of_app; right; by apply list_elem_of_singleton|].
    apply list_elem_of_fmap. exists (pb_Blob pb). split; [done|]. exact (kept_blobs_elem _ _ _ _ _ _ (ri_tracks _ _ _ _ I) E Hb Hf).
  - right. right. left. destruct H as (g' & Hg & Hb). exists g'. split; [apply elem_of_app; by left|done].
  - do 3 right. exact H.
Qed.

Lemma inv_start f0 s saved f g queue str :
  repack_inv f0 s saved f -> rk_queue s = g :: queue -> Forall hashed_right (fst str) -> in_turn (sort_Blobs (pbs_Blobs g)) str ->
  repack_inv f0 (s <| rk_queue := queue |> <| rk_streams := rk_streams s ++ [str] |>) saved f.
Proof.
  intros I Q Sh (rest & Er & Ok). apply (inv_lists _ _ _ _ _ I); [done..| |].
  - apply Forall_app. split; [exact (ri_streams _ _ _ _ I)|by apply Forall_singleton].
  - intros pb _ _ _ [H|[H|[H|H]]]; [left; exact H|right; left; exact H| |].
    + destruct H as (g' & Hg & Hb). rewrite Q in Hg. apply elem_of_cons in Hg as [->|Hg]; [|right; right; left; by exists g'].
      do 3 right. exists (fst str), (snd str). split; [apply elem_of_app; right; apply list_elem_of_singleton; by destruct str|].
      destruct (is_ok (snd str)); [left|by right]. rewrite (Ok eq_refl), app_nil_r in Er. rewrite <- Er. by rewrite sort_perm.
    + do 3 right. destruct H as (values & rs & Hs & H). exists values, rs. split; [apply elem_of_app; by left|done].
Qed.

Lemma inv_take f0 s saved f before h d vs res after keep' v :
  repack_inv f0 s saved f -> rk_streams s = before ++ ((h, Ok d) :: vs, res) :: after -> Get (u_idx (rk_u s)) (rk_keep s) h = Ok (Some v) ->
  Delete (u_idx (rk_u s)) (rk_keep s) h = Ok keep' ->
  repack_inv f0 (s <| rk_streams := before ++ (vs, res) :: after |> <| rk_keep := keep' |> <| rk_saving := rk_saving s ++ [(h, d)] |>) saved
    (fun h' => if decide (h = h') then None else f h').
Proof.
  intros I Es Eg Ed. pose proof (ri_tracks _ _ _ _ I) as T. pose proof (ri_streams _ _ _ _ I) as Sh. rewrite Es in Sh.
  apply streams_step in Sh as [Hv Sh]. apply (tracks_get _ _ _ _ _ T) in Eg as [Ty Ef]. split.
  - exact (tracks_delete _ _ _ _ _ T Ty Ed).
  - exact Sh.
  - intros h' d' [Hd|[= -> ->]%list_elem_of_singleton]%elem_of_app; [by apply (ri_saving _ _ _ _ I)|]. split; [done|]. by apply Hv.
  - intros h' Ty' Hf0. destruct (decide (h = h')) as [<-|N].
    + right. exists d. left. apply elem_of_app. right. by apply list_elem_of_singleton.
    + destruct (ri_kept _ _ _ _ I h' Ty' Hf0) as [?|(d' & [?|?])]; [by left|right; exists d'; left; apply elem_of_app; by left|right; exists d'; by right].
  - intros h' Ty' Hf. destruct (decide (h = h')) as [<-|N]; [done|]. destruct (ri_left _ _ _ _ I h' Ty' Hf) as (pb & Eh & Hp & Hm & Ho).
    exists pb. do 3 (split; [done|]). apply (outstanding_next s _ before h (Ok d) vs res after); [done..|by rewrite Eh|done].
Qed.

Lemma inv_done f0 s saved f before after :
  repack_inv f0 s saved f -> rk_streams s = before ++ ([], Ok tt) :: after -> repack_inv f0 (s <| rk_streams := before ++ after |>) saved f.
Proof.
  intros I Es. apply (inv_lists _ _ _ _ _ I); [done..| |].
  - pose proof (ri_streams _ _ _ _ I) as Sh. rewrite Es in Sh. apply Forall_app in Sh as [S1 S2]. inversion_clear S2. apply Forall_app. by split.
  - intros pb _ _ _ [H|[H|[H|(values & rs & Hs & H)]]]; [left; exact H|right; left; exact H|right; right; left; exact H|]. do 3 right.
    exists values, rs. split; [|done]. rewrite Es in Hs. apply elem_of_app in Hs as [Hs|[[= -> ->]|Hs]%elem_of_cons]; [apply elem_of_app; by left| |apply elem_of_app; by right].
    destruct H as [?%elem_of_nil|?]; done.
Qed.

Lemma saveBlob_name u env t buf id u' newID known size :
  saveBlob Write st chunker_MinSize u env t buf id true = (u', Ok (newID, known, size)) -> Sum256 buf = id -> newID = id.
Proof.
  intros H E. rewrite <- E, <- (blob_id_hash chunker_MinSize buf id) by by right. unfold saveBlob in H. destruct (negb _); [done|]. destruct (_ <? _); [done|].
  destruct (AddPending _ _ _) as [[mi added]|]; [|done]. rewrite orb_true_r in H. destruct (saveAndEncrypt _ _ _ _ _ _ _) as [u2 [n|e]]; [|done].
  by injection H as _ <- _ _.
Qed.

Lemma rp_step_inv f0 s saved f new s' :
  repack_inv f0 s saved f -> rp_step Write st chunker_MinSize dec sort_Blobs packs workers s new s' ->
  exists f', repack_inv f0 s' (saved ++ new) f'.
Proof.
  intros I S. destruct S as [s mo groups R G Pm E|s g groups blobs G E|s g queue beLoad env Q W|s before h d vs res after keep' v Es Eg Ed
    |s before h d vs res after Es Eg|s before h d after env u' newID known size Es E|s before after Es|s u' E]; rewrite ?app_nil_r.
  - exists f. by eapply inv_round.
  - exists f. by eapply inv_list.
  - exists f. apply (inv_start _ _ _ _ g); [done|done| |apply streamPack_in_turn]. apply streamPack_hash. intros fn h d [= <-] Hd.
    destruct (ri_tracks _ _ _ _ I) as (bss & bs & M & _). exact (LoadBlob_any_hash _ _ _ _ _ _ M Hd).
  - eexists. by eapply inv_take.
  - exists f. pose proof (ri_streams _ _ _ _ I) as Sh. rewrite Es in Sh. apply streams_step in Sh as [_ Sh].
    apply (tracks_get _ _ _ _ _ (ri_tracks _ _ _ _ I)) in Eg as [Ty Ef]. apply (inv_lists _ _ _ _ _ I); [done..|exact Sh|]. intros pb Hf _ _ Ho.
    apply (outstanding_next s _ before h (Ok d) vs res after); [done..| |done]. intros Eh. by rewrite Eh, <- Ef in Hf.
  - exists f. destruct (ri_saving _ _ _ _ I h d) as [Ty Hd]; [rewrite Es; apply elem_of_app; right; apply list_elem_of_here|].
    rewrite (saveBlob_name _ _ _ _ _ _ _ _ _ E Hd). replace (mkBlobHandle (bh_ID h) (bh_Type h)) with h by by destruct h.
    apply (inv_index f0 s saved f u' (before ++ after) (saved ++ [(h, d)]) I); [by eapply saveBlob_steps|..]; intros h' d'; rewrite Es, !elem_of_app, ?elem_of_cons, ?elem_of_nil; tauto.
  - exists f. by eapply inv_done.
  - exists f. apply (inv_index f0 s saved f u' (rk_saving s) saved I); [by apply pack_step_steps in E|done..].
Qed.

Lemma rp_steps_inv f0 s saved f new s' :
  repack_inv f0 s saved f -> rp_steps Write st chunker_MinSize dec sort_Blobs packs workers s new s' -> exists f', repack_inv f0 s' (saved ++ new) f'.
Proof.
  intros I S. revert saved f I. induction S as [s|s new s1 new' s2 S1 _ IH]; intros saved f I; [rewrite app_nil_r; eauto|].
  destruct (rp_step_inv _ _ _ _ _ _ I S1) as [f1 I1]. destruct (IH _ _ I1) as [f2 I2]. exists f2. by rewrite app_assoc.
Qed.

(** At the end nothing is left to be kept, and all of it was saved. *)
Lemma finished_saved f0 s saved f :
  repack_inv f0 s saved f -> rp_finished s ->
  (forall h, type_ok (bh_Type h) -> f h = None) /\ forall h, type_ok (bh_Type h) -> f0 h <> None -> exists d, (h, d) ∈ saved.
Proof.
  intros I (Er & Eg & Eq & Es & Ev). assert (N : forall h, type_ok (bh_Type h) -> f h = None).
  { intros h Ty. destruct (f h) eqn:E; [exfalso|done]. destruct (ri_left _ _ _ _ I h Ty) as (pb & _ & _ & _ & Ho); [by rewrite E|].
    destruct Ho as [H|[(g & Hg & _)|[(g & Hg & _)|(values & rs & Hs & _)]]].
    - rewrite Er in H. pose proof (nibble_range (pb_Pack pb)). lia.
    - rewrite Eg in Hg. by apply elem_of_nil in Hg.
    - rewrite Eq in Hg. by apply elem_of_nil in Hg.
    - rewrite Es in Hs. by apply elem_of_nil in Hs. }
  split; [done|]. intros h Ty Hf. destruct (ri_kept _ _ _ _ I h Ty Hf) as [H|(d & [H|H])]; [by rewrite N in H| |eauto].
  rewrite Ev in H. by apply elem_of_nil in H.
Qed.

(** *** The repack as an upload *)

(** Packers take every blob, known or not. *)
Definition as_given (saved : list (BlobHandle * bytes)) : list Given := map (fun '(h, d) => mkGiven h d true) saved.

Lemma as_given_elem saved h d : (h, d) ∈ saved -> mkGiven h d true ∈ as_given saved.
Proof. intros H. apply list_elem_of_fmap. by exists (h, d). Qed.

Lemma rp_step_up s new s' f0 saved f :
  repack_inv f0 s saved f -> rp_step Write st chunker_MinSize dec sort_Blobs packs workers s new s' ->
  up_steps Write st chunker_MinSize (rk_u s) (as_given new) (rk_u s').
Proof.
  intros I S. destruct S as [s mo groups R G Pm E|s g groups blobs G E|s g queue beLoad env Q W|s before h d vs res after keep' v Es Eg Ed
    |s before h d vs res after Es Eg|s before h d after env u' newID known size Es E|s before after Es|s u' E]; try exact (ups_nil _ _ _ (rk_u s)).
  - destruct (ri_saving _ _ _ _ I h d) as [Ty Hd]; [rewrite Es; apply elem_of_app; right; apply list_elem_of_here|].
    pose proof (up_save Write st chunker_MinSize _ _ _ _ _ _ _ _ _ _ E (or_intror Hd)) as U. rewrite orb_true_r in U.
    exact (ups_cons _ _ _ _ [_] _ [] _ U (ups_nil _ _ _ _)).
  - exact (ups_cons _ _ _ _ [] _ [] _ (up_pack _ _ _ _ _ E) (ups_nil _ _ _ _)).
Qed.

Lemma up_steps_app u given u1 given' u2 :
  up_steps Write st chunker_MinSize u given u1 -> up_steps Write st chunker_MinSize u1 given' u2 -> up_steps Write st chunker_MinSize u (given ++ given') u2.
Proof.
  intros S. revert given' u2. induction S as [u|u s0 ua s1 ub S1 _ IH]; intros given' u2 S2; [done|]. rewrite <- app_assoc. econstructor; eauto.
Qed.

Lemma rp_steps_up f0 s saved f new s' :
  repack_inv f0 s saved f -> rp_steps Write st chunker_MinSize dec sort_Blobs packs workers s new s' ->
  up_steps Write st chunker_MinSize (rk_u s) (as_given new) (rk_u s').
Proof.
  intros I S. revert saved f I. induction S as [s|s new s1 new' s2 S1 _ IH]; intros saved f I; [constructor|].
  destruct (rp_step_inv _ _ _ _ _ _ I S1) as [f1 I1]. unfold as_given. rewrite map_app. eapply up_steps_app; [by eapply rp_step_up|by eapply IH].
Qed.

Lemma start_inv f0 keep u :
  tracks (u_idx u) keep f0 ->
  (forall h, type_ok (bh_Type h) -> f0 h <> None -> exists pb, b_handle (pb_Blob pb) = h /\ pb_Pack pb ∈ packs /\ in_master (u_idx u) pb) ->
  repack_inv f0 (rp_start_state keep u) [] f0.
Proof.
  intros T L. split; [done|constructor| |by left|].
  - by intros h d ?%elem_of_nil.
  - intros h Ty Hf. destruct (L h Ty Hf) as (pb & Eh & Hp & Hm). exists pb. do 3 (split; [done|]). left.
    pose proof (nibble_range (pb_Pack pb)). change (0 <= nibble (pb_Pack pb)). lia.
Qed.

Lemma up_steps_steps u given u' : up_steps Write st chunker_MinSize u given u' -> rtc m_step (u_idx u) (u_idx u').
Proof.
  intros S. induction S as [u|u s0 ua s1 ub S1 _ IH]; [done|]. transitivity (u_idx ua); [|done].
  destruct S1 as [? env t buf id dup ? newID known size Es _|? ? Ps]; [by eapply saveBlob_steps|by apply pack_step_steps].
Qed.

Lemma flush_packers_idx rewind queue u u' : flush_packers Write rewind queue u = (u', Ok tt) -> u_idx u' = u_idx u.
Proof.
  unfold flush_packers. destruct (pm_Flush _ _ _ (u_tree u)) as [[tree q1] [[]|]]; [|done]. destruct (pm_Flush _ _ _ _) as [[data q2] res]. by intros [= <- _].
Qed.

(** A repack without an error is an upload, after which nothing is left to be kept. *)
Lemma repacked_uploaded f0 keep u saved keep' u' :
  tracks (u_idx u) keep f0 ->
  (forall h, type_ok (bh_Type h) -> f0 h <> None -> exists pb, b_handle (pb_Blob pb) = h /\ pb_Pack pb ∈ packs /\ in_master (u_idx u) pb) ->
  repacked Write st chunker_MinSize dec sort_Blobs packs workers keep u saved keep' u' ->
  uploaded Write st chunker_MinSize u (as_given saved) u'
  /\ tracks (u_idx u') keep' (fun _ => None)
  /\ forall h, type_ok (bh_Type h) -> f0 h <> None -> exists d, (h, d) ∈ saved.
Proof.
  intros T L (s & u2 & u3 & rewind & queue & SU & S & F & -> & Fp & S3 & Q & Fi & Fr). pose proof (start_inv _ _ _ T L) as I0.
  destruct (rp_steps_inv _ _ _ _ _ _ I0 S) as [f I]. destruct (finished_saved _ _ _ _ I F) as [N K]. split; [|split; [|done]].
  - pose proof (rp_steps_up _ _ _ _ _ _ I0 S) as U. by exists (rk_u s), u2, u3, rewind, queue, SU.
  - destruct (tracks_steps _ _ _ (u_idx u') (ri_tracks _ _ _ _ I)) as (bss & bs & M & Hd & W & V).
    { rewrite <- (flush_packers_idx _ _ _ _ Fp). transitivity (u_idx u3); [by eapply up_steps_steps|by apply flush_index_steps in Fi]. }
    exists bss, bs. do 3 (split; [done|]). intros bh Ty. by rewrite V, N.
Qed.

(** *** The end of a repack *)

Definition stream_work (str : stream) : nat := S (length (fst str)).

Definition rp_measure (s : Repacking) : nat * (nat * (nat * (nat * (nat * nat)))) :=
  (16 - rk_round s, (length (rk_groups s), (length (rk_queue s), (sum_list_with stream_work (rk_streams s),
    (length (rk_saving s), length (u_queue (rk_u s)))))))%nat.

Definition lex {B} (ltB : B -> B -> Prop) : nat * B -> nat * B -> Prop := slexprod nat B lt ltB.
Definition rp_less := lex (lex (lex (lex (lex lt)))).

Lemma rp_less_wf : well_founded rp_less.
Proof. repeat apply wf_slexprod; apply lt_wf. Qed.

Lemma rp_step_less s new s' : rp_step Write st chunker_MinSize dec sort_Blobs packs workers s new s' -> rp_less (rp_measure s') (rp_measure s).
Proof.
  intros S. unfold rp_less, lex, rp_measure. destruct S as [s mo groups R G Pm E|s g groups blobs G E|s g queue beLoad env Q W|s before h d vs res after keep' v Es Eg Ed
    |s before h d vs res after Es Eg|s before h d after env u' newID known size Es E|s before after Es|s u' E].
  - apply left_slex. change (16 - S (rk_round s) < 16 - rk_round s)%nat. lia.
  - apply right_slex, left_slex. rewrite G. change (length groups < length (g :: groups))%nat. cbn. lia.
  - apply right_slex, right_slex, left_slex. rewrite Q. change (length queue < length (g :: queue))%nat. cbn. lia.
  - do 3 apply right_slex. apply left_slex. rewrite Es. change (sum_list_with stream_work (before ++ (vs, res) :: after) < sum_list_with stream_work (before ++ ((h, Ok d) :: vs, res) :: after))%nat.
    rewrite !sum_list_with_app. cbn. lia.
  - do 3 apply right_slex. apply left_slex. rewrite Es. change (sum_list_with stream_work (before ++ (vs, res) :: after) < sum_list_with stream_work (before ++ ((h, Ok d) :: vs, res) :: after))%nat.
    rewrite !sum_list_with_app. cbn. lia.
  - do 4 apply right_slex. apply left_slex. rewrite Es. change (length (before ++ after) < length (before ++ (h, d) :: after))%nat. rewrite !length_app. cbn. lia.
  - do 3 apply right_slex. apply left_slex. rewrite Es. change (sum_list_with stream_work (before ++ after) < sum_list_with stream_work (before ++ ([], Ok tt) :: after))%nat.
    rewrite !sum_list_with_app. cbn. lia.
  - do 5 apply right_slex. inversion E as [u env before p after u2 Eq Es Fr H1 H2]; subst u u2. apply savePacker_frame in Es as (_ & _ & Es).
    change (u_queue (rk_u (s <| rk_u := u' |>))) with (u_queue u'). rewrite Es, Eq.
    change (length (before ++ after) < length (before ++ p :: after))%nat. rewrite !length_app. cbn. lia.
Qed.
End Theory.
End RepackTheory.

(** ** Properties *)

Module RepackProps.
Import IndexTheory IndexProps MasterTheory AssociatedTheory AssociatedProps UploadTheory UploadProps RepackTheory.

(** The packs that were not there before. *)
Definition new_packs (u u' : Uploader) : gmap ID bytes := filter (fun '(id, _) => u_packs u !! id = None) (u_packs u').

Section Props.
Context {cipher : Cipher} {laws : CipherLaws} {zstd : Zstd} {zlaws : ZstdLaws}.
Context (Write : bytes -> bytes -> Z * option string) (st : Settings) (chunker_MinSize : Z) (dec : bytes -> result bytes).
Context (sort_Blobs : list Blob -> list Blob) (packs : gset ID) (workers : nat).

(** C6. A repack that ends without an error has copied everything: in whatever order the
    goroutines ran, no blob is left in the set of those to keep, and every one of them
    can be loaded when only the new packs are there. *)
Theorem repack_copies (now : Z) (hash : Z -> ID -> Z) (mi0 : MasterIndex) (a0 keep keep' : AssociatedSet Z) (f : gmap BlobHandle Z)
    (u u' : Uploader) (saved : list (BlobHandle * bytes)) :
  getZstdDecoder = Ok dec -> (forall l, Permutation (sort_Blobs l) l) ->
  rtc m_step (NewMasterIndex now hash) mi0 -> NewAssociatedSet 0 mi0 = Ok a0 -> rtc s_step (mi0, a0, ∅) (u_idx u, keep, f) -> idle u ->
  (forall h v, f !! h = Some v -> exists pb, b_handle (pb_Blob pb) = h /\ pb_Pack pb ∈ packs /\ in_master (u_idx u) pb) ->
  repacked Write st chunker_MinSize dec sort_Blobs packs workers keep u saved keep' u' ->
  AssociatedLen (u_idx u') keep' = Ok 0
  /\ forall h v, f !! h = Some v -> forall env,
       exists d, LoadBlob st env (new_packs u u') (u_idx u') h = Ok d /\ Sum256 d = bh_ID h.
Proof.
  intros De Ps S0 E0 S (I1 & I2 & I3) L R. destruct (new_stands 0 mi0 now hash S0) as (a1 & E1 & St0). rewrite E0 in E1. injection E1 as <-.
  destruct (s_steps_stand _ _ St0 S) as (bss & bs & M & Hd & W & V & Nt).
  destruct (repacked_uploaded Write st chunker_MinSize dec De sort_Blobs Ps packs workers (fun h => f !! h) keep u saved keep' u') as (U & T & K); [..|done|].
  { by exists bss, bs. }
  { intros h Ty Hf. destruct (f !! h) as [v|] eqn:Ef; [|done]. by apply (L h v). }
  split.
  - destruct T as (bss' & bs' & M' & Hd' & W' & V'). destruct (All_spec _ _ _ _ M' Hd' W') as (all & Ea & G). unfold AssociatedLen. rewrite Ea. cbn [rbind].
    destruct all as [|[bh v] all]; [done|]. destruct (proj1 (G bh v) ltac:(apply list_elem_of_here)) as [Ty Hv]. by rewrite V' in Hv.
  - intros h v Hf env. assert (Ty : type_ok (bh_Type h)) by (destruct (decide (0 <= bh_Type h < NumBlobTypes)) as [?|N]; [done|by rewrite Nt in Hf]).
    destruct (K h Ty) as [d Hd0]; [by rewrite Hf|].
    assert (Up : uploading st (dom (u_packs u)) u bss) by (split; [done|unfold all_packers; by rewrite I1, I2, I3|done]).
    destruct (uploaded_stores Write st dec De _ chunker_MinSize u bss _ u' Up U) as (bss' & M' & _ & _ & N).
    destruct (proj1 (proj2 (N _ (as_given_elem _ _ _ Hd0))) eq_refl) as (_ & pb & file & ct & H1 & H2 & H3 & H4 & H5).
    assert (Sn : stored st (dom (u_packs u)) (new_packs u u') bss' h d).
    { exists pb, file, ct. split; [done|]. split; [|done]. apply map_lookup_filter_Some. split; [done|]. by apply not_elem_of_dom. }
    apply (stored_LoadBlob st dec De _ env _ _ _ _ _ M' Ty) in Sn. destruct (LoadBlob st env (new_packs u u') (u_idx u') h) as [d'|] eqn:E; [|done].
    exists d'. split; [done|]. exact (LoadBlob_hash st dec De _ _ _ _ _ _ M' Ty E).
Qed.

(** No repack runs forever: from every state, every sequence of steps of the lister,
    the workers and the uploader ends. *)
Theorem repack_terminates (s : Repacking) :
  Acc (fun s' s => exists saved, rp_step Write st chunker_MinSize dec sort_Blobs packs workers s saved s') s.
Proof.
  remember (rp_measure s) as m eqn:E. revert s E. induction (rp_less_wf m) as [m _ IH]. intros s ->. constructor. intros s' [saved S].
  by apply (IH (rp_measure s') (rp_step_less _ _ _ _ _ _ _ _ _ _ S) s').
Qed.
End Props.

(** ** Witness *)

#[local] Existing Instances toy_cipher toy_laws toy_zstd toy_zstd_laws.

(** One schedule: whoever is furthest goes first. *)
Definition toy_next (packs : gset ID) (s : Repacking) : option (list (BlobHandle * bytes) * Repacking) :=
  match rk_saving s, rk_streams s, rk_queue s, rk_groups s with
  | (h, d) :: after, _, _, _ =>
      match saveBlob full_Write toy_settings (512 * 1024) (rk_u s) (toy_call 0) (bh_Type h) d (bh_ID h) true with
      | (u', Ok (newID, _, _)) => Some ([(mkBlobHandle newID (bh_Type h), d)], s <| rk_saving := after |> <| rk_u := u' |>)
      | _ => None
      end
  | [], ((h, Ok d) :: vs, res) :: after, _, _ =>
      match Get (u_idx (rk_u s)) (rk_keep s) h, Delete (u_idx (rk_u s)) (rk_keep s) h with
      | Ok (Some _), Ok keep' => Some ([], s <| rk_streams := (vs, res) :: after |> <| rk_keep := keep' |> <| rk_saving := rk_saving s ++ [(h, d)] |>)
      | Ok None, _ => Some ([], s <| rk_streams := (vs, res) :: after |>)
      | _, _ => None
      end
  | [], ([], Ok tt) :: after, _, _ => Some ([], s <| rk_streams := after |>)
  | [], [], g :: queue, _ =>
      Some ([], s <| rk_queue := queue |> <| rk_streams := rk_streams s ++ [streamPack toy_key toy_decode StreamProps.sort_offsets (read_pack (u_packs (rk_u s)))
        (Some (LoadBlob toy_settings no_caches (u_packs (rk_u s)) (u_idx (rk_u s)))) (pbs_PackID g) (pbs_Blobs g)] |>)
  | [], [], [], g :: groups =>
      match kept_blobs (u_idx (rk_u s)) (rk_keep s) (pbs_Blobs g) with
      | Ok blobs => Some ([], s <| rk_groups := groups |> <| rk_queue := rk_queue s ++ [mkPackBlobs (pbs_PackID g) blobs] |>)
      | Err _ => None
      end
  | [], [], [], [] =>
      if (rk_round s <? 16)%nat then
        match list_round (fun l => l) (u_idx (rk_u s)) packs (Z.of_nat (rk_round s)) with
        | Ok groups => Some ([], s <| rk_round := S (rk_round s) |> <| rk_groups := groups |>)
        | Err _ => None
        end
      else None
  | _, _, _, _ => None
  end.

Lemma toy_next_sound packs s new s' :
  toy_next packs s = Some (new, s') -> rp_step full_Write toy_settings (512 * 1024) toy_decode StreamProps.sort_offsets packs 1 s new s'.
Proof.
  unfold toy_next. destruct (rk_saving s) as [|[h d] after] eqn:Ev.
  2:{ destruct (saveBlob _ _ _ _ _ _ _ _ _) as [u' [[[newID known] size]|]] eqn:E; [|done]. intros [= <- <-]. exact (rp_save _ _ _ _ _ _ _ s [] h d after _ _ _ _ _ Ev E). }
  destruct (rk_streams s) as [|[[|[h [d|e]] vs] res] after] eqn:Es; [|destruct res as [[]|]; [|done]| |done].
  - destruct (rk_queue s) as [|g queue] eqn:Eq.
    + destruct (rk_groups s) as [|g groups] eqn:Eg.
      * destruct (Nat.ltb_spec (rk_round s) 16); [|done]. destruct (list_round _ _ _ _) as [groups|] eqn:E; [|done]. intros [= <- <-].
        by apply (rp_round _ _ _ _ _ _ _ s (fun l => l)).
      * destruct (kept_blobs _ _ _) as [blobs|] eqn:E; [|done]. intros [= <- <-]. pose proof (rp_list full_Write toy_settings (512 * 1024) toy_decode StreamProps.sort_offsets packs 1 s g groups blobs Eg E) as P. by rewrite Eq in P.
    + intros [= <- <-]. pose proof (rp_start full_Write toy_settings (512 * 1024) toy_decode StreamProps.sort_offsets packs 1 s g queue (read_pack (u_packs (rk_u s))) no_caches Eq) as P.
      rewrite Es in P. apply P. cbn. lia.
  - intros [= <- <-]. exact (rp_done _ _ _ _ _ _ _ s [] after Es).
  - destruct (Get _ _ _) as [[v|]|] eqn:Eg; [|intros [= <- <-]; exact (rp_skip _ _ _ _ _ _ _ s [] h d vs res after Es Eg)|done].
    destruct (Delete _ _ _) as [keep'|] eqn:Ed; [|done]. intros [= <- <-].
    pose proof (rp_take full_Write toy_settings (512 * 1024) toy_decode StreamProps.sort_offsets packs 1 s [] h d vs res after keep' v Es Eg Ed) as P. by rewrite Ev in P.
Qed.

Fixpoint toy_steps (fuel : nat) (packs : gset ID) (s : Repacking) : list (BlobHandle * bytes) * Repacking :=
  match fuel with
  | O => ([], s)
  | S fuel => match toy_next packs s with Some (new, s) => let (rest, s) := toy_steps fuel packs s in (new ++ rest, s) | None => ([], s) end
  end.

Lemma toy_steps_sound fuel packs s :
  rp_steps full_Write toy_settings (512 * 1024) toy_decode StreamProps.sort_offsets packs 1 s (fst (toy_steps fuel packs s)) (snd (toy_steps fuel packs s)).
Proof.
  revert s. induction fuel as [|fuel IH]; intros s; [constructor|]. cbn [toy_steps]. destruct (toy_next packs s) as [[new s1]|] eqn:E; [|constructor].
  specialize (IH s1). destruct (toy_steps fuel packs s1) as [rest s2]. econstructor; [by apply toy_next_sound|done].
Qed.

Lemma fresh_one indexes files id packs : (bool_decide (indexes !! id = None), files) = (true, [(id, packs)]) -> fresh_files files indexes.
Proof.
  intros [= H ->] i ps [= -> ->]%list_elem_of_singleton. split; [by eapply bool_decide_eq_true_1|]. by intros packs' [= ->]%list_elem_of_singleton.
Qed.

(** The repository of the upload, in which one of the two data blobs is kept. *)
Definition toy_packs : gset ID := dom (u_packs toy_u7).
Definition toy_handle : BlobHandle := mkBlobHandle (Sum256 (str "one")) DataBlob.
Definition toy_set (r : result (AssociatedSet Z)) : AssociatedSet Z := match r with Ok a => a | Err _ => mkSet [] ∅ end.
Definition toy_empty : AssociatedSet Z := toy_set (NewAssociatedSet 0 (u_idx toy_u7)).
Definition toy_keep : AssociatedSet Z := toy_set (Set_ (u_idx toy_u7) toy_empty toy_handle 1).
Definition toy_copied : Repacking := snd (toy_steps 60 toy_packs (rp_start_state toy_keep toy_u7)).
Definition toy_flushed : Uploader := fst (flush_packers full_Write (fun _ => Ok tt) (fun _ => Ok tt) (rk_u toy_copied)).
Definition toy_stored : Uploader := fst (toy_pack toy_flushed).
Definition toy_end : Uploader := fst (flush_index (fun _ => (repeat x07 32, None)) toy_stored).

Lemma toy_set_ok r : is_ok r = true -> r = Ok (toy_set r).
Proof. by destruct r. Qed.

Lemma toy_repacked :
  repacked full_Write toy_settings (512 * 1024) toy_decode StreamProps.sort_offsets toy_packs 1 toy_keep toy_u7
    (fst (toy_steps 60 toy_packs (rp_start_state toy_keep toy_u7))) (rk_keep toy_copied) toy_end.
Proof.
  exists toy_copied, toy_flushed, toy_stored, (fun _ => Ok tt), (fun _ => Ok tt), (fun _ => (repeat x07 32, None)). split; [apply toy_steps_sound|].
  split; [vm_compute; repeat split; reflexivity|]. split; [reflexivity|]. split; [unfold toy_flushed; apply ends_ok; vm_compute; reflexivity|].
  split; [apply (ups_cons _ _ _ _ [] toy_stored []); [apply toy_pack_step; vm_compute; reflexivity|constructor]|].
  split; [vm_compute; reflexivity|]. split; [unfold toy_end; apply ends_ok; vm_compute; reflexivity|].
  eapply (fresh_one _ _ (repeat x07 32)). vm_compute. reflexivity.
Qed.

Lemma toy_index_steps : rtc m_step (NewMasterIndex 0 toy_hash) (u_idx toy_u7).
Proof.
  destruct toy_run as (u1 & u2 & u3 & rewind & queue & SU & S1 & F & S2 & _ & Fi & _). change (NewMasterIndex 0 toy_hash) with (u_idx toy_uploader).
  transitivity (u_idx u1); [by eapply up_steps_steps|]. rewrite <- (flush_packers_idx _ _ _ _ _ F). transitivity (u_idx u3); [by eapply up_steps_steps|].
  by eapply flush_index_steps.
Qed.

Definition blobs_or_none (r : result (list PackedBlob)) : list PackedBlob := match r with Ok pbs => pbs | Err _ => [] end.
Definition toy_values : list PackedBlob := blobs_or_none (MasterValues (u_idx toy_u7)).
Definition toy_entry : PackedBlob := default (mkPackedBlob [] (mkBlob toy_handle 0 0 0)) (head (filter (fun pb => b_handle (pb_Blob pb) = toy_handle) toy_values)).

Definition in_set (x : ID) (X : gset ID) : bool := bool_decide (x ∈ X).

Lemma in_set_spec x X : in_set x X = true -> x ∈ X.
Proof. apply bool_decide_eq_true_1. Qed.

Lemma toy_entry_pack : in_set (pb_Pack toy_entry) toy_packs = true.
Proof. vm_compute. reflexivity. Qed.

Lemma repack_copies_witness :
  AssociatedLen (u_idx toy_end) (rk_keep toy_copied) = Ok 0
  /\ forall h v, ({[toy_handle := 1]} : gmap BlobHandle Z) !! h = Some v -> forall env,
       exists d, LoadBlob toy_settings env (new_packs toy_u7 toy_end) (u_idx toy_end) h = Ok d /\ Sum256 d = bh_ID h.
Proof.
  apply (repack_copies full_Write toy_settings (512 * 1024) toy_decode StreamProps.sort_offsets toy_packs 1 0 toy_hash (u_idx toy_u7) toy_empty toy_keep
    (rk_keep toy_copied) {[toy_handle := 1]} toy_u7 toy_end (fst (toy_steps 60 toy_packs (rp_start_state toy_keep toy_u7)))).
  - reflexivity.
  - apply StreamProps.sort_offsets_perm.
  - exact toy_index_steps.
  - apply toy_set_ok. vm_compute. reflexivity.
  - apply rtc_once. apply s_set; [vm_compute; split; [discriminate|reflexivity]|]. apply toy_set_ok. vm_compute. reflexivity.
  - vm_compute. repeat split; reflexivity.
  - intros h v H. apply lookup_singleton_Some in H as [<- _]. exists toy_entry. split; [vm_compute; reflexivity|].
    split; [exact (in_set_spec _ _ toy_entry_pack)|]. exists toy_values. split; [vm_compute; reflexivity|].
    apply (bool_decide_eq_true_1 _). vm_compute. reflexivity.
  - exact toy_repacked.
Defined.
End RepackProps.
