(* ===== verification/Durable.v ===== *)
(** * Index files cover the index ([internal/repository/index/master_index.go],
    [internal/repository/repository_engine.go])

    The index in memory and the index files change at different times: a pack goes into an
    index in memory, which is written when it is full or at the end of an upload, and is then
    merged with the others. Here it is shown that no entry of a final index is ever without a
    file, and that after an upload all indexes are final. *)
From stdpp Require Import base list numbers strings gmap sets.
From Stdlib Require Import ZArith Lia.
From coqutil Require Import Datatypes.RecordSetters.
From S2P Require Import Prelude Codec Sha256 Crypto Pack IndexMap RepoIndex MasterIndex AssociatedSet PackSizer Upload Stream Rewrite Repack.
Import TriangleBracketNotations.

Module DurableTheory.
Import IndexTheory IndexProps MasterTheory UploadTheory RewriteTheory RepackTheory.

(** ** Files *)

Lemma write_files_lookup files indexes id packs :
  (forall packs', (id, packs') ∈ files -> packs' = packs) -> (id, packs) ∈ files \/ indexes !! id = Some packs ->
  write_files files indexes !! id = Some packs.
Proof.
  unfold write_files. revert indexes. induction files as [|[id' p] files IH]; intros indexes U H; cbn [fold_left].
  { destruct H as [?%elem_of_nil|?]; done. }
  apply IH; [intros packs' Hp; apply U; by apply list_elem_of_further|]. destruct (decide (id' = id)) as [->|N].
  - right. rewrite (U p) by apply list_elem_of_here. apply lookup_insert_eq.
  - destruct H as [[[= ? _]|H]%elem_of_cons|H]; [done|by left|right; by rewrite lookup_insert_ne].
Qed.

Lemma write_files_new files indexes id packs :
  fresh_files files indexes -> (id, packs) ∈ files -> write_files files indexes !! id = Some packs.
Proof. intros F H. destruct (F _ _ H) as [_ U]. apply write_files_lookup; auto. Qed.

Lemma write_files_old files indexes : fresh_files files indexes -> indexes ⊆ write_files files indexes.
Proof.
  intros F. apply map_subseteq_spec. intros id packs H. apply write_files_lookup; [|by right].
  intros packs' Hp. destruct (F _ _ Hp) as [N _]. congruence.
Qed.

(** The stored form of an index has all its blobs. *)
Lemma add_all_nonzero pbs st st' : add_all_to_packs pbs st = Ok st' -> Forall (fun pb => is_zero_id (pb_Pack pb) = false) pbs.
Proof.
  revert st. induction pbs as [|pb pbs IH]; intros st H; [constructor|]. cbn in H. apply rbind_ok in H as (st1 & E & H).
  constructor; [|by eapply IH]. unfold add_to_packs in E. destruct st as [l packs]. apply rbind_ok in E as ([] & G & _). by apply guard_ok in G.
Qed.

Lemma Encode_flat idx packs pb : Encode idx = Ok packs -> has idx pb -> pb ∈ flat packs.
Proof.
  intros E (pbs & V & Hp). unfold Encode, generatePackList in E. rewrite V in E. cbn [rbind] in E.
  destruct (add_all_to_packs pbs ([], ∅)) as [st|] eqn:Ea; [|done]. cbn [rbind] in E. apply rbind_ok in E as ([] & _ & [= <-]).
  destruct (add_all_to_packs_spec pbs ([], ∅)) as (st' & E' & _ & F & _).
  { intros id i. cbn. rewrite lookup_empty. split; [done|by intros (? & ? & _)]. }
  { by eapply add_all_nonzero. }
  rewrite Ea in E'. injection E' as <-. rewrite F, app_nil_r. done.
Qed.

(** ** Covered indexes *)

(** Every blob of a final index is in the file of one of its IDs. *)
Definition covered (indexes : gmap ID (list packJSON)) (idx : Index) : Prop :=
  ix_final idx = true -> forall pb, has idx pb -> exists id packs, id ∈ ix_ids idx /\ indexes !! id = Some packs /\ pb ∈ flat packs.

Definition all_covered (indexes : gmap ID (list packJSON)) (mi : MasterIndex) : Prop := Forall (covered indexes) (mi_idx mi).
Definition all_final (mi : MasterIndex) : Prop := Forall (fun idx => ix_final idx = true) (mi_idx mi).

Lemma covered_more indexes indexes' idx : indexes ⊆ indexes' -> covered indexes idx -> covered indexes' idx.
Proof.
  intros S C F pb H. destruct (C F pb H) as (id & packs & H1 & H2 & H3). exists id, packs. split; [done|]. split; [|done].
  by eapply lookup_weaken.
Qed.

Lemma has_covered mi indexes bss pb :
  master mi bss -> all_final mi -> all_covered indexes mi -> in_master mi pb ->
  exists id packs, id ∈ MasterIDs mi /\ indexes !! id = Some packs /\ pb ∈ flat packs.
Proof.
  intros M F C H. rewrite (in_master_found _ _ _ M) in H. destruct H as [T (bs & Hb & [_ Hp]%of_handle_elem)%found_in_elem].
  apply list_elem_of_lookup in Hb as [i Hb]. destruct (Forall2_lookup_r _ _ _ _ _ (ms_holds _ _ M) Hb) as (idx & Hi & R).
  unfold all_covered, all_final in *. rewrite Forall_lookup in C, F. destruct (C i idx Hi (F i idx Hi) pb) as (id & packs & H1 & H2 & H3).
  { rewrite (has_iff _ _ _ R). eauto. }
  exists id, packs. split; [|done]. unfold MasterIDs. apply elem_of_union_list. exists (list_to_set (ix_ids idx)).
  split; [|by apply elem_of_list_to_set]. apply list_elem_of_fmap. exists idx. rewrite (F i idx Hi). split; [done|by eapply list_elem_of_lookup_2].
Qed.

(** A pack goes into an index that is not final. *)
Lemma store_in_covered indexes idxs bss id blobs now hash idxs' :
  Forall2 reachable idxs bss -> Forall (covered indexes) idxs -> store_in idxs id blobs (NewIndex now hash) = Ok idxs' ->
  Forall (covered indexes) idxs'.
Proof.
  assert (St : forall idx bs idx', reachable idx bs -> StorePack idx id blobs = Ok idx' -> covered indexes idx').
  { intros idx bs idx' R E Q. destruct (StorePack_inv _ _ _ _ _ (reachable_indexes _ _ R) E) as (_ & _ & _ & N & _). congruence. }
  intros F. revert idxs'. induction F as [|idx bs idxs bss R _ IH]; intros idxs' C H; cbn in H.
  - apply rbind_ok in H as (idx & E & [= <-]). apply Forall_singleton. exact (St _ _ _ (reach_new now hash) E).
  - apply Forall_cons in C as [C0 C]. destruct (negb (ix_final idx)); apply rbind_ok in H as (x & E & [= <-]); constructor; eauto.
Qed.

Lemma storePack_covered indexes mi bss id blobs now hash mi' :
  master mi bss -> all_covered indexes mi -> storePack mi id blobs now hash = Ok mi' -> all_covered indexes mi'.
Proof.
  intros M C H. unfold storePack in H. apply rbind_ok in H as (idxs & E & [= <-]).
  by eapply store_in_covered; [apply (ms_holds _ _ M)|..].
Qed.

(** Merging moves the blobs of an index together with its IDs. *)
Lemma merge_covered indexes main bs idx b main' :
  reachable main bs -> reachable idx b -> merge main idx = Ok main' -> ix_final main = true -> ix_final idx = true ->
  covered indexes main -> covered indexes idx -> covered indexes main'.
Proof.
  intros R Rb E Fm Fi Cm Ci _ pb H.
  destruct (merge_inv _ _ _ _ _ (reachable_indexes _ _ R) (reachable_indexes _ _ Rb) E) as (_ & _ & Ids). rewrite Ids.
  rewrite (has_iff _ _ _ (reach_merge _ _ _ _ _ R Rb E)) in H. destruct H as (t & T & [Hp|Hp]%merged_elem).
  - destruct (Cm Fm pb) as (id & packs & H1 & H2); [rewrite (has_iff _ _ _ R); eauto|]. exists id, packs. split; [apply elem_of_app; by left|done].
  - rewrite elem_of_rev in Hp. destruct (Ci Fi pb) as (id & packs & H1 & H2); [rewrite (has_iff _ _ _ Rb); eauto|]. exists id, packs. split; [apply elem_of_app; by right|done].
Qed.

Lemma merge_all_covered indexes idxs bss main bs main' rest :
  Forall2 reachable idxs bss -> reachable main bs -> merge_all main idxs = Ok (main', rest) -> ix_final main = true ->
  covered indexes main -> Forall (covered indexes) idxs -> covered indexes main' /\ Forall (covered indexes) rest.
Proof.
  intros F. revert main bs rest. induction F as [|idx b idxs bss Rb F IH]; intros main bs rest R E Fm Cm C; cbn in E.
  { injection E as <- <-. by split. }
  apply Forall_cons in C as [Ci C]. destruct (negb (ix_final idx) || _) eqn:U.
  - apply rbind_ok in E as ([m r] & E & [= <- <-]). destruct (IH main bs r R E Fm Cm C) as [? ?]. split; [done|by constructor].
  - apply orb_false_iff in U as [U _]. apply negb_false_iff in U. apply rbind_ok in E as (m & Em & E).
    destruct (merge_inv _ _ _ _ _ (reachable_indexes _ _ R) (reachable_indexes _ _ Rb) Em) as (_ & Fi & _).
    apply (IH m _ rest (reach_merge _ _ _ _ _ R Rb Em) E); [congruence| |done]. exact (merge_covered _ _ _ _ _ _ R Rb Em Fm U Cm Ci).
Qed.

Lemma Merge_covered indexes mi bss mi' :
  master mi bss -> MergeFinalIndexes mi = Ok mi' -> all_covered indexes mi -> all_covered indexes mi'.
Proof.
  intros [(main & rest & Em & Fi) F] H C. unfold MergeFinalIndexes in H. unfold all_covered in *. rewrite Em in H, F, C.
  apply rbind_ok in H as (main1 & E1 & H). apply rbind_ok in H as ([main2 rest2] & E2 & H). injection H as <-.
  apply Forall2_cons_inv_l in F as (bs & bss0 & R & F & ->). apply Forall_cons in C as [Cm C].
  destruct (preallocate_types_spec _ _ _ _ _ R E1) as [R1 M1]. injection M1 as _ Fi1 Ids _ _.
  change (mi_idx (_ <| mi_idx := ?l |>)) with l.
  destruct (merge_all_covered indexes _ _ _ _ _ _ F R1 E2) as [? ?]; [congruence| |done|by constructor].
  intros _ pb H. rewrite Ids. apply (Cm Fi). by rewrite (has_iff _ _ _ R1), <- (has_iff _ _ _ R) in H.
Qed.

Lemma Merge_final mi bss mi' : master mi bss -> MergeFinalIndexes mi = Ok mi' -> all_final mi -> all_final mi'.
Proof.
  intros [(main & rest & Em & Fi) F] H A. unfold MergeFinalIndexes in H. unfold all_final in *. rewrite Em in H, F, A.
  apply rbind_ok in H as (main1 & E1 & H). apply rbind_ok in H as ([main2 rest2] & E2 & H). injection H as <-.
  apply Forall2_cons_inv_l in F as (bs & bss0 & R & F & ->). apply Forall_cons in A as [Am A].
  destruct (preallocate_types_spec _ _ _ _ _ R E1) as [R1 M1]. injection M1 as _ Fi1 _ _ _.
  destruct (merge_all_spec _ _ _ _ _ _ F R1 E2) as (bs' & bss' & _ & _ & Fi2 & -> & _). change (mi_idx (_ <| mi_idx := ?l |>)) with l.
  constructor; [congruence|]. apply Forall_forall. intros idx [_ Hi]%list_elem_of_filter. rewrite Forall_forall in A. by apply A.
Qed.

(** ** Saving *)

Lemma SaveIndex_covered SaveUnpacked indexes idx idx' packs id :
  Encode idx = Ok packs -> SaveUnpacked packs = (id, None) -> indexes !! id = Some packs ->
  SaveIndex SaveUnpacked idx = Ok (idx', None) -> covered indexes idx'.
Proof.
  intros E S L H _ pb Hp. destruct (SaveIndex_has _ _ _ _ H) as (H1 & H2 & _ & _). rewrite (has_same idx) in Hp by done.
  exists id, packs. split; [|split; [done|by eapply Encode_flat]]. unfold SaveIndex in H. rewrite E, S in H.
  apply rbind_ok in H as (i & Es & [= <-]). unfold SetID in Es. inv_results. change (ix_ids (_ <| ix_ids := ?l |>)) with l.
  apply elem_of_app. right. by apply list_elem_of_singleton.
Qed.

Lemma index_files_insert SaveUnpacked mi i idx positions :
  ~ i ∈ positions -> index_files SaveUnpacked (mi <| mi_idx := <[i := idx]> (mi_idx mi) |>) positions = index_files SaveUnpacked mi positions.
Proof.
  induction positions as [|j positions IH]; intros N; [done|]. cbn [index_files]. apply not_elem_of_cons in N as [Nj N].
  change (mi_idx (_ <| mi_idx := ?l |>)) with l. rewrite list_lookup_insert_ne by done. by rewrite (IH N).
Qed.

(** The indexes at the positions get their files, the others have them. *)
Lemma saveIndex_covered SaveUnpacked indexes positions mi bss mi' :
  master mi bss -> saveIndex SaveUnpacked mi positions = Ok (mi', None) -> NoDup positions ->
  (forall id packs, (id, packs) ∈ index_files SaveUnpacked mi positions -> indexes !! id = Some packs) ->
  (forall i idx, mi_idx mi !! i = Some idx -> ~ i ∈ positions -> covered indexes idx) ->
  all_covered indexes mi' /\ (all_final mi -> all_final mi').
Proof.
  revert mi. induction positions as [|i positions IH]; intros mi M H Nd Fl C; cbn [saveIndex] in H.
  { apply rbind_ok in H as (mi1 & E & [= <-]). split; [|by eapply Merge_final]. eapply Merge_covered; [done..|].
    apply Forall_lookup. intros i idx Hi. apply (C i idx Hi), not_elem_of_nil. }
  destruct (mi_idx mi !! i) as [idx|] eqn:L; [|done]. apply rbind_ok in H as ([idx' e] & E & H). destruct e as [e|]; [done|].
  apply NoDup_cons in Nd as [Ni Nd]. cbn [index_files] in Fl. rewrite L in Fl. pose proof E as E'. unfold SaveIndex in E'.
  destruct (Encode idx) as [packs|] eqn:En; [|done]. destruct (SaveUnpacked packs) as [id err] eqn:Es.
  assert (err = None) as -> by (apply rbind_ok in E' as (? & _ & [= _ ->]); done).
  destruct M as [(main & rest & Em & Fi) F]. destruct (Forall2_lookup_l _ _ _ _ _ F L) as (bs & Lb & R).
  destruct (SaveIndex_spec _ _ _ _ _ R E) as [R' Fi']. set (mi1 := mi <| mi_idx := _ |>) in H.
  assert (M1 : master mi1 bss).
  { split; change (mi_idx mi1) with (<[i := idx']> (mi_idx mi)).
    - rewrite Em in *. destruct i as [|i]; cbn in *; [|by eexists _, _]. injection L as ->. eexists _, _. split; [done|]. congruence.
    - rewrite <- (list_insert_id bss i bs Lb). by apply Forall2_insert. }
  destruct (IH mi1 M1 H Nd) as [G1 G2].
  - intros id' p Hp. unfold mi1 in Hp. rewrite index_files_insert in Hp by done. apply Fl. by apply list_elem_of_further.
  - intros j x Hj Nj. change (mi_idx mi1) with (<[i := idx']> (mi_idx mi)) in Hj. destruct (decide (i = j)) as [<-|Nij].
    + rewrite list_lookup_insert_eq in Hj by by eapply lookup_lt_Some. injection Hj as <-.
      eapply SaveIndex_covered; [done|done| |done]. apply Fl, list_elem_of_here.
    + rewrite list_lookup_insert_ne in Hj by done. apply (C j x Hj). by apply not_elem_of_cons.
  - split; [done|]. intros A. apply G2. unfold all_final. change (mi_idx mi1) with (<[i := idx']> (mi_idx mi)).
    apply Forall_insert; [done|]. rewrite Fi'. unfold all_final in A. rewrite Forall_lookup in A. by eapply A.
Qed.

(** The positions of the indexes that are finalized. *)
Lemma positions_from (p : Index -> bool) (l : list Index) (k : nat) :
  let ps := omap (fun '(i, idx) => if p idx then Some i else None) (imap (fun i idx => ((k + i)%nat, idx)) l) in
  NoDup ps /\ forall j, j ∈ ps <-> exists i idx, j = (k + i)%nat /\ l !! i = Some idx /\ p idx = true.
Proof.
  revert k. induction l as [|x l IH]; intros k ps.
  { split; [constructor|]. intros j. split; [by intros ?%elem_of_nil|by intros (i & idx & _ & ? & _)]. }
  destruct (IH (S k)) as [Nd El]. assert (Ep : ps = (if p x then [k] else []) ++
    omap (fun '(i, idx) => if p idx then Some i else None) (imap (fun i idx => ((S k + i)%nat, idx)) l)).
  { unfold ps. rewrite imap_cons, (imap_ext _ (fun i idx => ((S k + i)%nat, idx))) by (intros i y _; cbn; f_equal; lia).
    rewrite Nat.add_0_r. cbn. by destruct (p x). }
  rewrite Ep. clear ps Ep. split.
  - destruct (p x); [|done]. constructor; [|done]. rewrite El. intros (i & idx & ? & _). lia.
  - intros j. rewrite elem_of_app, El. split.
    + intros [H|(i & idx & -> & H)]; [|exists (S i), idx; split; [lia|done]].
      destruct (p x) eqn:Ex; [|by apply elem_of_nil in H]. apply list_elem_of_singleton in H as ->. exists 0%nat, x. split; [lia|done].
    + intros ([|i] & idx & -> & H & P); [left|right; exists i, idx; split; [lia|done]].
      injection H as ->. rewrite P, Nat.add_0_r. apply list_elem_of_here.
Qed.

Lemma finalized_positions f mi :
  NoDup (snd (finalize_where f mi))
  /\ forall i idx, mi_idx (fst (finalize_where f mi)) !! i = Some idx -> ~ i ∈ snd (finalize_where f mi) -> mi_idx mi !! i = Some idx.
Proof.
  destruct (positions_from (fun idx => negb (ix_final idx) && f idx) (mi_idx mi) 0) as [Nd El]. split; [exact Nd|].
  intros i idx. cbn [finalize_where fst snd]. change (mi_idx (_ <| mi_idx := ?l |>)) with l.
  change (map ?f (mi_idx mi)) with (f <$> mi_idx mi). rewrite list_lookup_fmap.
  destruct (mi_idx mi !! i) as [x|] eqn:Hx; [|done]. cbn. intros [= <-] N. destruct (negb (ix_final x) && f x) eqn:P; [|done].
  exfalso. apply N, El. by exists i, x.
Qed.

Lemma covered_finalized indexes f mi i idx :
  all_covered indexes mi -> mi_idx (fst (finalize_where f mi)) !! i = Some idx -> ~ i ∈ snd (finalize_where f mi) -> covered indexes idx.
Proof.
  intros C H N. apply (finalized_positions f mi) in H; [|done]. unfold all_covered in C. rewrite Forall_lookup in C. by eapply C.
Qed.

Lemma final_finalized mi : all_final (fst (finalizeNotFinalIndexes mi)).
Proof.
  unfold all_final. cbn. change (mi_idx (_ <| mi_idx := ?l |>)) with l. apply Forall_fmap, Forall_forall. intros idx _. cbn.
  rewrite andb_true_r. by destruct (ix_final idx) eqn:E.
Qed.

(** ** The uploader *)

Section Upload.
Context {cipher : Cipher} {zstd : Zstd} (Write : bytes -> bytes -> Z * option string) (st : Settings) (chunker_MinSize : Z).

Definition files_cover (u : Uploader) : Prop := (exists bss, master (u_idx u) bss) /\ all_covered (u_indexes u) (u_idx u).

Lemma store_pack_covers u env id blobs u' :
  store_pack u env id blobs = (u', Ok tt) -> fresh_files (store_files u env id blobs) (u_indexes u) -> files_cover u -> files_cover u'.
Proof.
  intros H Fr [[bss M] C]. pose proof (write_files_old _ _ Fr) as Old. pose proof (fun id p => write_files_new _ _ id p Fr) as New.
  unfold store_pack in H. unfold store_files in Old, New, H.
  destruct (storePack (u_idx u) id blobs (ue_now env) (ue_hash env)) as [mi|] eqn:Es; [|done].
  destruct (storePack_spec _ _ _ _ _ _ _ M Es) as (bss1 & M1 & _ & _). pose proof (storePack_covered _ _ _ _ _ _ _ _ M C Es) as C1.
  unfold finalizeFullIndexes in *. pose proof (finalize_where_spec (Full (ue_now env)) _ _ M1) as M2.
  destruct (finalized_positions (Full (ue_now env)) mi) as [Nd _]. pose proof (covered_finalized (u_indexes u) (Full (ue_now env)) mi) as Cf.
  destruct (finalize_where (Full (ue_now env)) mi) as [mi2 ps]. cbn [fst snd] in *.
  destruct (saveIndex _ mi2 ps) as [[mi3 [e|]]|] eqn:Ev; [done| |done]. injection H as <-.
  destruct (saveIndex_spec _ _ _ _ _ _ M2 Ev) as (bss3 & M3 & _). split; [by exists bss3|].
  apply (saveIndex_covered _ _ _ _ _ _ M2 Ev Nd New). intros i idx Hi Ni. apply (covered_more _ _ _ Old). by eapply Cf.
Qed.

Lemma flush_index_covers SaveUnpacked u u' :
  flush_index SaveUnpacked u = (u', Ok tt) -> fresh_files (flush_files SaveUnpacked u) (u_indexes u) -> files_cover u ->
  files_cover u' /\ all_final (u_idx u').
Proof.
  intros H Fr [[bss M] C]. pose proof (write_files_old _ _ Fr) as Old. pose proof (fun id p => write_files_new _ _ id p Fr) as New.
  unfold flush_index, Flush in H. change (u_idx (u <| u_indexes := _ |>)) with (u_idx u) in H. unfold flush_files in Old, New, H.
  pose proof (final_finalized (u_idx u)) as Fi. unfold finalizeNotFinalIndexes in *. pose proof (finalize_where_spec (fun _ => true) _ _ M) as M2.
  destruct (finalized_positions (fun _ => true) (u_idx u)) as [Nd _]. pose proof (covered_finalized (u_indexes u) (fun _ => true) (u_idx u)) as Cf.
  destruct (finalize_where (fun _ => true) (u_idx u)) as [mi2 ps]. cbn [fst snd] in *.
  destruct (saveIndex _ mi2 ps) as [[mi3 [e|]]|] eqn:Ev; [done| |done]. injection H as <-.
  destruct (saveIndex_spec _ _ _ _ _ _ M2 Ev) as (bss3 & M3 & _).
  destruct (saveIndex_covered _ _ _ _ _ _ M2 Ev Nd New) as [G1 G2].
  { intros i idx Hi Ni. apply (covered_more _ _ _ Old). by eapply Cf. }
  split; [|by apply G2]. split; [by exists bss3|done].
Qed.

Lemma saveBlob_frame u env t buf id dup u' res :
  saveBlob Write st chunker_MinSize u env t buf id dup = (u', res) ->
  u_packs u' = u_packs u /\ u_indexes u' = u_indexes u /\ mi_idx (u_idx u') = mi_idx (u_idx u).
Proof.
  unfold saveBlob. destruct (negb _); [by intros [= <- _]|]. destruct (_ <? _); [by intros [= <- _]|].
  destruct (AddPending _ _ _) as [[mi added]|] eqn:Ea; [|by intros [= <- _]]. apply AddPending_idx in Ea.
  destruct (added || dup); [|intros [= <- _]; done]. unfold saveAndEncrypt.
  destruct (encrypt_blob _ _ _ _ _) as [[ct ul]|]; [|intros [= <- _]; done].
  destruct (t =? TreeBlob); [|destruct (t =? DataBlob); [|intros [= <- _]; done]];
    destruct (SaveBlob _ _ _ _ _ _ _) as [[pm q] r]; intros [= <- _]; done.
Qed.

Lemma flush_packers_frame rewind queue u u' res :
  flush_packers Write rewind queue u = (u', res) -> u_packs u' = u_packs u /\ u_indexes u' = u_indexes u /\ u_idx u' = u_idx u.
Proof.
  unfold flush_packers. destruct (pm_Flush _ _ _ (u_tree u)) as [[tree q1] [[]|e]]; [|by intros [= <- _]].
  destruct (pm_Flush _ _ _ _) as [[data q2] r]. by intros [= <- _].
Qed.

(** What has been written stays, also when a step fails. *)
Definition only_adds (u u' : Uploader) : Prop := u_packs u ⊆ u_packs u' /\ u_indexes u ⊆ u_indexes u'.

Lemma store_pack_adds u env id blobs u' res :
  store_pack u env id blobs = (u', res) -> fresh_files (store_files u env id blobs) (u_indexes u) -> only_adds u u'.
Proof.
  intros H Fr. pose proof (write_files_old _ _ Fr) as Old. unfold store_pack in H.
  destruct (storePack _ _ _ _ _) as [mi|]; [|by injection H as <- _]. destruct (finalizeFullIndexes _ _) as [mi2 ps].
  destruct (saveIndex _ _ _) as [[mi3 err]|]; injection H as <- _; done.
Qed.

Lemma savePacker_adds u env before p after u' res :
  savePacker Write st (u <| u_queue := before ++ after |>) env p = (u', res) -> fresh_pack Write st u env p -> only_adds u u'.
Proof.
  intros H [Fp Fr]. unfold savePacker in H. unfold finished in *.
  destruct (Packer_Finalize Write p (s_key st) (ue_nonce env)) as [q [e|]]; [by injection H as <- _|]. cbn [fst] in *.
  destruct (ue_file env); [|by injection H as <- _]. destruct (ue_Save env); [|by injection H as <- _].
  assert (S : u_packs u ⊆ <[Sum256 (p_written q) := p_written q]> (u_packs u)) by by apply insert_subseteq.
  destruct (ue_close env); [|by injection H as <- _]. apply store_pack_adds in H as [A B]; [|exact Fr].
  split; [exact (transitivity S A)|exact B].
Qed.

Lemma flush_index_adds SaveUnpacked u u' res :
  flush_index SaveUnpacked u = (u', res) -> fresh_files (flush_files SaveUnpacked u) (u_indexes u) -> only_adds u u'.
Proof.
  intros H Fr. pose proof (write_files_old _ _ Fr) as Old. unfold flush_index in H.
  destruct (Flush _ _) as [[mi err]|]; injection H as <- _; done.
Qed.
End Upload.
End DurableTheory.

(** ** Uploads that may fail *)

Section Attempts.
Context {cipher : Cipher} {zstd : Zstd} (Write : bytes -> bytes -> Z * option string) (st : Settings) (chunker_MinSize : Z).

(** One operation of an upload, with any outcome. *)
Inductive attempt : Uploader -> Uploader -> Prop :=
  | try_save u env t buf id storeDuplicate u' res :
      saveBlob Write st chunker_MinSize u env t buf id storeDuplicate = (u', res) -> attempt u u'
  | try_pack u env before p after u' res :
      u_queue u = before ++ p :: after ->
      savePacker Write st (u <| u_queue := before ++ after |>) env p = (u', res) -> fresh_pack Write st u env p -> attempt u u'
  | try_flush u rewind queue u' res : flush_packers Write rewind queue u = (u', res) -> attempt u u'
  | try_index u SaveUnpacked u' res :
      flush_index SaveUnpacked u = (u', res) -> fresh_files (flush_files SaveUnpacked u) (u_indexes u) -> attempt u u'.
End Attempts.

Module DurableProps.
Import IndexTheory IndexProps MasterTheory UploadTheory UploadProps RewriteTheory RepackTheory DurableTheory.

Section Props.
Context {cipher : Cipher} {zstd : Zstd} (Write : bytes -> bytes -> Z * option string) (st : Settings) (chunker_MinSize : Z).

Lemma attempt_adds u u' : attempt Write st chunker_MinSize u u' -> only_adds u u'.
Proof.
  intros [u0 env t buf id dup u1 res H|u0 env before p after u1 res _ H F|u0 rewind queue u1 res H|u0 SU u1 res H F].
  - apply saveBlob_frame in H as (E1 & E2 & _). split; [by rewrite E1|by rewrite E2].
  - by apply (savePacker_adds _ _ _ _ _ _ _ _ _ H).
  - apply flush_packers_frame in H as (E1 & E2 & _). split; [by rewrite E1|by rewrite E2].
  - by apply (flush_index_adds _ _ _ _ H).
Qed.

Lemma attempts_add u u' : rtc (attempt Write st chunker_MinSize) u u' -> only_adds u u'.
Proof.
  induction 1 as [u|u u1 u' S _ [I1 I2]]; [by split|]. apply attempt_adds in S as [S1 S2].
  split; [exact (transitivity S1 I1)|exact (transitivity S2 I2)].
Qed.

Lemma up_steps_attempts u saved u' : up_steps Write st chunker_MinSize u saved u' -> rtc (attempt Write st chunker_MinSize) u u'.
Proof.
  induction 1 as [u|u saved u1 saved' u2 S _ IH]; [done|]. eapply rtc_l; [|exact IH].
  destruct S as [u env t buf id dup u' newID known size H _|u u' [u0 env before p after u1' Eq H F]].
  - by eapply try_save.
  - by eapply try_pack.
Qed.

Lemma uploaded_attempts u saved u' : uploaded Write st chunker_MinSize u saved u' -> rtc (attempt Write st chunker_MinSize) u u'.
Proof.
  intros (u1 & u2 & u3 & rewind & queue & SU & S1 & F & S2 & _ & Fi & Fr). transitivity u1; [by eapply up_steps_attempts|].
  eapply rtc_l; [by eapply try_flush|]. transitivity u3; [by eapply up_steps_attempts|]. apply rtc_once. by eapply try_index.
Qed.

Lemma up_steps_cover u saved u' : up_steps Write st chunker_MinSize u saved u' -> files_cover u -> files_cover u'.
Proof.
  induction 1 as [u|u saved u1 saved' u2 S _ IH]; [done|]. intros C. apply IH. clear IH.
  destruct S as [u env t buf id dup u' newID known size H _|u u' [u0 env before p after u1' Eq H [Fp Fr]]].
  - apply saveBlob_frame in H as (_ & E2 & E3). destruct C as [[bss M] C]. split; [exists bss; by eapply master_same|].
    unfold all_covered. by rewrite E2, E3.
  - unfold savePacker in H. unfold finished in Fr. destruct (Packer_Finalize _ _ _ _) as [q [e|]]; [done|]. cbn [fst] in Fr.
    destruct (ue_file env); [|done]. destruct (ue_Save env); [|done]. destruct (ue_close env); [|done].
    by apply (store_pack_covers _ _ _ _ _ H Fr).
Qed.

Lemma uploaded_covers u saved u' :
  uploaded Write st chunker_MinSize u saved u' -> files_cover u -> files_cover u' /\ all_final (u_idx u').
Proof.
  intros (u1 & u2 & u3 & rewind & queue & SU & S1 & F & S2 & _ & Fi & Fr) C. apply (flush_index_covers SU u3 u' Fi Fr).
  apply (up_steps_cover _ _ _ S2). apply flush_packers_frame in F as (_ & E2 & E3). unfold files_cover. rewrite E2, E3.
  by apply (up_steps_cover _ _ _ S1).
Qed.
End Props.

(** An index file names a place for the blob where the pack has data of its hash. *)
Definition on_disk {cipher : Cipher} {zstd : Zstd} (st : Settings) (u : Uploader) (h : BlobHandle) : Prop :=
  exists id packs pb file ct d, u_indexes u !! id = Some packs /\ pb ∈ flat packs /\ b_handle (pb_Blob pb) = h /\ u_packs u !! pb_Pack pb = Some file
    /\ ReadAt file (b_Length (pb_Blob pb)) (b_Offset (pb_Blob pb)) = Ok ct /\ decodePackedBlob st pb ct = Ok d /\ Sum256 d = bh_ID h.


(** ** Witness *)

#[local] Existing Instances toy_cipher toy_laws toy_zstd toy_zstd_laws.

Lemma new_covered indexes now hash : all_covered indexes (NewMasterIndex now hash).
Proof. apply Forall_singleton. intros _ pb H. rewrite (has_same (NewIndex now hash)) in H by done. by apply has_new in H. Qed.

Lemma toy_idle : idle toy_uploader.
Proof. vm_compute. repeat split; reflexivity. Qed.

Lemma toy_new g : ~ forall size, AddPending (u_idx toy_uploader) (g_handle g) size = Ok (u_idx toy_uploader, false).
Proof.
  intros H. specialize (H 0). destruct (AddPending_known _ _ _ _ _ (new_master 0 toy_hash) H) as [[K|[_ [pb Hp]%found_in_nonempty]] _]; [|by apply found_in_elem in Hp as (bs & ->%list_elem_of_singleton & ?%elem_of_nil)].
  apply K. change (mi_pending (NewMasterIndex 0 toy_hash)) with (∅ : gmap BlobHandle Z). apply lookup_empty.
Qed.

End DurableProps.
