(* ===== verification/PruneMarker.v ===== *)
(** * Deferred prune plans ([internal/repository/prune_plan.go])

    A prune claims the repository with a marker in its config, completes the marker
    with the exact files to delete once the new indexes are saved, and deletes them
    later. The model has the marker, the index and pack files of the backend and the
    in-memory index; backend calls may fail, and a call may be cancelled while files
    are being deleted. *)
From stdpp Require Import base list numbers strings gmap sets sorting.
From Stdlib Require Import ZArith Lia.
From coqutil Require Import Datatypes.RecordSetters.
From S2P Require Import Prelude Codec Crypto Pack IndexMap RepoIndex MasterIndex Rewrite.
Import TriangleBracketNotations.

(** ** State *)

(** The marker of the config; its creation time is not read. *)
Record PrunePlan := mkPrunePlan {
  pp_Version : Z; pp_ID : string; pp_State : string;
  ObservedIndexes : list ID; RequiredIndexes : list ID; IndexIDs : list ID; PackIDs : list ID }.

Definition prunePlanVersion : Z := 1.
Definition prunePlanPhaseA : string := "phase_a".
Definition prunePlanReady : string := "ready".

(** [r_ValidateExtensions] is the verdict on the rest of the config, which no operation
    here changes; the validation does not read the marker. *)
Record Repository := mkRepository {
  r_PrunePlan : option PrunePlan;
  r_ValidateExtensions : result unit;
  r_Version : Z;
  r_AppendOnly : bool;
  r_HasAtomicReplace : bool;
  r_idx : MasterIndex;
  r_indexes : gmap ID (list packJSON);
  r_packs : gset ID }.

(** When a call is cancelled: never, while index files are deleted, or while packs are. *)
Inductive cancellation := Never | DuringIndexes | DuringPacks.

(** What the backend and the other services answer during one call. A deletion that
    stops early has tried the files of [w_tried]. [None] for the staged roots means that
    the repository has no staging journal. A file whose removal fails is still there. *)
Record World := mkWorld {
  w_now : Z;
  w_hash : Z -> ID -> Z;
  w_arrival : list ID -> list ID;
  w_list : result unit;
  w_load : ID -> result unit;
  w_prepareCache : result unit;
  w_reload : ID -> result unit;
  w_save : result unit;
  w_cancel : cancellation;
  w_tried : ID -> bool;
  w_remove_index : ID -> result unit;
  w_remove_pack : ID -> result unit;
  w_staged : option (result (gset ID));
  w_staged_now : ID -> result (gset ID) }.

(** A call returns the new state and a result: an error keeps what was done. *)
Definition call (A : Type) : Type := Repository * result A.

Definition then_ {A B} (m : call A) (k : Repository -> A -> call B) : call B :=
  match m with
  | (r, Ok a) => k r a
  | (r, Err e) => (r, Err e)
  end.

(** ** Config *)

Definition UpdateConfig (w : World) (r : Repository) (fn : option PrunePlan -> result (option PrunePlan)) : call unit :=
  if r_AppendOnly r then (r, Err "cannot modify config: repository is in append-only mode")
  else
    match fn (r_PrunePlan r) with
    | Err e => (r, Err e)
    | Ok plan =>
        match (do! r_ValidateExtensions r; w_save w) with
        | Err e => (r, Err e)
        | Ok _ => (r <| r_PrunePlan := plan |>, Ok tt)
        end
    end.

Definition UpdateConfigAtomically (w : World) (r : Repository) (fn : option PrunePlan -> result (option PrunePlan)) : call unit :=
  if negb (r_HasAtomicReplace r) then (r, Err "durable prune plans require a backend with atomic config replacement")
  else UpdateConfig w r fn.

(** The marker is the one of the claim [id] in phase A. *)
Definition claimed (id : string) (plan : option PrunePlan) : bool :=
  match plan with
  | Some plan => (pp_ID plan =? id)%string && (pp_State plan =? prunePlanPhaseA)%string
  | None => false
  end.

(** [id] is the random ID of the new plan. *)
Definition BeginPrunePlan (w : World) (r : Repository) (id : string) : call PrunePlan :=
  match r_PrunePlan r with
  | Some _ => (r, Err "repository already contains a prune plan; finalize or clear it before starting another prune")
  | None =>
      let plan := mkPrunePlan prunePlanVersion id prunePlanPhaseA [] [] [] [] in
      then_ (UpdateConfigAtomically w r (fun _ => Ok (Some plan))) (fun r _ => (r, Ok plan))
  end.

Definition id_le (a b : ID) : Prop := bytes_compare a b <> Gt.
#[export] Instance id_le_dec : RelDecision id_le.
Proof. intros a b. unfold id_le. apply _. Defined.

(** The sorted list of a set. *)
Definition IDSet_List (s : gset ID) : list ID := merge_sort id_le (elements s).

Definition CompletePrunePlan (w : World) (r : Repository) (id : string)
    (observedIndexes requiredIndexes indexIDs packIDs : gset ID) : call PrunePlan :=
  let plan := mkPrunePlan prunePlanVersion id prunePlanReady (IDSet_List observedIndexes) (IDSet_List requiredIndexes)
                (IDSet_List indexIDs) (IDSet_List packIDs) in
  then_ (UpdateConfigAtomically w r (fun cfg =>
           if negb (claimed id cfg) then Err "prune plan changed while phase A was running" else Ok (Some plan)))
    (fun r _ => (r, Ok plan)).

Definition PersistPrunePlan (w : World) (r : Repository) (id : string)
    (observedIndexes requiredIndexes indexIDs packIDs : gset ID) : call PrunePlan :=
  then_ (BeginPrunePlan w r id) (fun r plan =>
    CompletePrunePlan w r (pp_ID plan) observedIndexes requiredIndexes indexIDs packIDs).

Definition clearPendingPrunePlan (w : World) (r : Repository) (id : string) : call unit :=
  UpdateConfigAtomically w r (fun cfg =>
    if negb (claimed id cfg) then Err "pending prune plan changed while it was being cleared" else Ok None).

(** ** The index *)

Definition clearIndex (w : World) (r : Repository) : Repository := r <| r_idx := NewMasterIndex (w_now w) (w_hash w) |>.

Definition LoadUnpacked (fails : ID -> result unit) (r : Repository) (id : ID) : result (list packJSON) :=
  do! fails id;
  match r_indexes r !! id with
  | Some packs => Ok packs
  | None => Err "file does not exist"
  end.

(** A repository of the first format has no compressed blobs. *)
Definition LoadIndex (w : World) (r : Repository) : call unit :=
  match (do! w_list w;
         Load (w_arrival w) (r_idx r) (mkIndexFiles (map fst (map_to_list (r_indexes r))) (LoadUnpacked (w_load w) r))
           (w_now w) (w_hash w)) with
  | Err e => (r, Err e)
  | Ok mi =>
      let r := r <| r_idx := mi |> in
      if r_Version r <? 2 then
        match MasterValues mi with
        | Err e => (r, Err e)
        | Ok pbs =>
            if existsb (fun pb => IsCompressed (pb_Blob pb)) pbs
            then (r, Err "index uses feature not supported by repository version 1") else (r, w_prepareCache w)
        end
      else (r, w_prepareCache w)
  end.

Fixpoint packs_from (w : World) (r : Repository) (ids : list ID) (packs : gset ID) : result (gset ID) :=
  match ids with
  | [] => Ok packs
  | id :: ids =>
      let! buf := LoadUnpacked (w_reload w) r id in
      let! idx := DecodeIndex buf id (w_now w) (w_hash w) in
      packs_from w r ids (packs ∪ list_to_set (ix_packs idx))
  end.

Definition packsFromIndexes (w : World) (r : Repository) (ids : gset ID) : result (gset ID) :=
  packs_from w r (elements ids) ∅.

(** ** Deletion *)

(** The files that are deleted and the error of [deleteFiles]. The deletions run in
    parallel: after the first error that is not ignored, and after a cancellation, some
    of the files were tried; without either, all were. *)
Definition deleteFiles (ignoreError stopped cancelled : bool) (tried : ID -> bool) (remove : ID -> result unit)
    (fileList : gset ID) : gset ID * result unit :=
  let failing := fun id => negb (is_ok (remove id)) in
  let some := if stopped then ∅ else filter (fun id => tried id = true) fileList in
  let attempted :=
    if cancelled || negb ignoreError && existsb failing (elements some) then some else fileList in
  let removed := filter (fun id => failing id = false) attempted in
  (removed, if negb ignoreError && existsb failing (elements attempted) then Err "unable to remove file" else Ok tt).

Definition delete_indexes (w : World) (r : Repository) (ids : gset ID) : call unit :=
  let cancelled := match w_cancel w with DuringIndexes => true | _ => false end in
  let (removed, err) := deleteFiles false false cancelled (w_tried w) (w_remove_index w) ids in
  (r <| r_indexes := filter (fun '(id, _) => ~ id ∈ removed) (r_indexes r) |>, err).

Definition delete_packs (w : World) (r : Repository) (remove : ID -> result unit) (ids : gset ID) : call unit :=
  let stopped := match w_cancel w with DuringIndexes => true | _ => false end in
  let cancelled := match w_cancel w with Never => false | _ => true end in
  let (removed, err) := deleteFiles true stopped cancelled (w_tried w) remove ids in
  (r <| r_packs := r_packs r ∖ removed |>, err).

Definition excludeStagedPackRoots (w : World) (candidates : gset ID) : result (gset ID) :=
  match w_staged w with
  | None => Ok candidates
  | Some current =>
      if bool_decide (candidates = ∅) then Ok candidates
      else let! staged := current in Ok (candidates ∖ staged)
  end.

(** [RemoveUnpacked] of the revalidating remover, for packs. *)
Definition revalidating_remove (w : World) (id : ID) : result unit :=
  match w_staged w with
  | None => w_remove_pack w id
  | Some _ =>
      let! staged := w_staged_now w id in
      if bool_decide (id ∈ staged) then Err "pack became protected by a sealed staging journal"
      else w_remove_pack w id
  end.

Definition finish_plan (w : World) (r : Repository) (plan : PrunePlan) : call unit :=
  then_ (UpdateConfigAtomically w r (fun cfg =>
           match cfg with
           | Some current => if negb (pp_ID current =? pp_ID plan)%string
                             then Err "deferred prune plan changed while it was being finalized" else Ok None
           | None => Err "deferred prune plan changed while it was being finalized"
           end))
    (fun r _ => (clearIndex w r, Ok tt)).

Definition delete_nonempty (ids : gset ID) (r : Repository) (m : call unit) : call unit :=
  if bool_decide (ids = ∅) then (r, Ok tt) else m.

Definition FinalizePrunePlan (w : World) (r : Repository) : call unit :=
  match r_PrunePlan r with
  | None => (r, Ok tt)
  | Some plan =>
      if negb (pp_Version plan =? prunePlanVersion) || (pp_ID plan =? "")%string
      then (r, Err "repository contains an unsupported deferred prune plan")
      else if (pp_State plan =? prunePlanPhaseA)%string then clearPendingPrunePlan w r (pp_ID plan)
      else if negb (pp_State plan =? prunePlanReady)%string
      then (r, Err "repository contains an invalid deferred prune plan state")
      else
        then_ (LoadIndex w (clearIndex w r)) (fun r _ =>
        let currentIndexes := MasterIDs (r_idx r) in
        if existsb (fun id => negb (bool_decide (id ∈ currentIndexes))) (RequiredIndexes plan)
        then (r, Err "deferred prune plan cannot be finalized: replacement index is missing")
        else
          let indexIDs := list_to_set (IndexIDs plan) in
          match packsFromIndexes w r (currentIndexes ∖ indexIDs) with
          | Err e => (r, Err e)
          | Ok indexedPacks =>
              if existsb (fun id => bool_decide (id ∈ indexedPacks)) (PackIDs plan)
              then (r, Err "deferred prune plan cannot delete pack: it is referenced by a current non-obsolete index")
              else
                let indexIDs := indexIDs ∩ currentIndexes in
                then_ (delete_nonempty indexIDs r (delete_indexes w r indexIDs)) (fun r _ =>
                match excludeStagedPackRoots w (list_to_set (PackIDs plan)) with
                | Err e => (r, Err e)
                | Ok packIDs =>
                    then_ (delete_nonempty packIDs r (delete_packs w r (w_remove_pack w) packIDs)) (fun r _ =>
                    finish_plan w r plan)
                end)
          end)
  end.

Definition FinalizePrunePlanLoaded (w : World) (r : Repository) : call unit :=
  match r_PrunePlan r with
  | None => (r, Ok tt)
  | Some plan =>
      if negb (pp_Version plan =? prunePlanVersion) || (pp_ID plan =? "")%string || negb (pp_State plan =? prunePlanReady)%string
      then (r, Err "repository contains an unsupported deferred prune plan")
      else
        let currentIndexes := MasterIDs (r_idx r) in
        if existsb (fun id => negb (bool_decide (id ∈ currentIndexes))) (RequiredIndexes plan)
        then (r, Err "deferred prune plan cannot be finalized: replacement index is missing")
        else
          let indexIDs := list_to_set (IndexIDs plan) in
          then_ (delete_nonempty indexIDs r (delete_indexes w r indexIDs)) (fun r _ =>
          match packsFromIndexes w r (currentIndexes ∖ indexIDs) with
          | Err e => (r, Err e)
          | Ok indexedPacks =>
              if existsb (fun id => bool_decide (id ∈ indexedPacks)) (PackIDs plan)
              then (r, Err "prune plan cannot delete pack: it is still referenced by a rewritten index")
              else
                match excludeStagedPackRoots w (list_to_set (PackIDs plan)) with
                | Err e => (r, Err e)
                | Ok packIDs =>
                    then_ (delete_nonempty packIDs r (delete_packs w r (revalidating_remove w) packIDs)) (fun r _ =>
                    finish_plan w r plan)
                end
          end)
  end.

(** ** Theory *)

Module MarkerTheory.
Import IndexTheory IndexProps RewriteTheory.

(** An index file names a pack. *)
Definition names (indexes : gmap ID (list packJSON)) (id pack : ID) : Prop :=
  exists packs pj, indexes !! id = Some packs /\ pj ∈ packs /\ pj_ID pj = pack.

(** What stays when the process ends. *)
Definition durable (r : Repository) := (r_PrunePlan r, r_indexes r, r_packs r).

Lemma then_inv {A B} (m : call A) (k : Repository -> A -> call B) r' res :
  then_ m k = (r', res) ->
  (exists e, m = (r', Err e) /\ res = Err e) \/ (exists r1 a, m = (r1, Ok a) /\ k r1 a = (r', res)).
Proof. destruct m as [r1 [a|e]]; cbn; intros H; [right; eauto|injection H as <- <-; left; eauto]. Qed.

Lemma update_inv w r fn r' res :
  UpdateConfigAtomically w r fn = (r', res) ->
  (r' = r /\ exists e, res = Err e) \/ (exists plan, fn (r_PrunePlan r) = Ok plan /\ r' = r <| r_PrunePlan := plan |> /\ res = Ok tt).
Proof.
  unfold UpdateConfigAtomically, UpdateConfig. destruct (negb _); [intros [= <- <-]; eauto|]. destruct (r_AppendOnly r); [intros [= <- <-]; eauto|].
  destruct (fn _) as [plan|e]; [|intros [= <- <-]; eauto].
  destruct (do! r_ValidateExtensions r; w_save w) as [[]|e]; intros [= <- <-]; eauto.
Qed.

(** *** Loading *)

Lemma decode_packs_packs packs idx bs idx' :
  indexes idx bs -> decode_packs idx packs = Ok idx' -> ix_packs idx' = ix_packs idx ++ map pj_ID packs.
Proof.
  revert idx bs. induction packs as [|p packs IH]; intros idx bs I H; cbn in H; [injection H as <-; by rewrite app_nil_r|].
  apply rbind_ok in H as ([idx1 i] & E1 & H). apply rbind_ok in H as (idx2 & E2 & H).
  destruct (addToPacks_inv _ _ _ _ _ I E1) as (I1 & _ & P0 & P & Pk & _ & _).
  destruct (store_all_inv _ _ _ _ _ _ I1 P0 P E2) as [I2 M]. injection M as M _ _ _ _.
  rewrite (IH _ _ I2 H), M, Pk, <- app_assoc. done.
Qed.

Lemma DecodeIndex_packs packs id now hash idx : DecodeIndex packs id now hash = Ok idx -> ix_packs idx = map pj_ID packs.
Proof.
  intros H. unfold DecodeIndex in H. apply rbind_ok in H as (idx1 & E & H). injection H as <-.
  exact (decode_packs_packs _ _ _ _ (NewIndex_indexes now hash) E).
Qed.

Lemma packs_from_spec w r ids packs s :
  packs_from w r ids packs = Ok s -> packs ⊆ s /\ forall id pack, id ∈ ids -> names (r_indexes r) id pack -> pack ∈ s.
Proof.
  revert packs. induction ids as [|id ids IH]; intros packs H; cbn in H; [injection H as <-; split; [done|by intros ? ? ?%elem_of_nil]|].
  apply rbind_ok in H as (buf & E1 & H). apply rbind_ok in H as (idx & E2 & H). destruct (IH _ H) as [S N].
  split; [etrans; [apply union_subseteq_l|exact S]|]. intros id' pack [->|Hid]%elem_of_cons; [|by apply N].
  intros (l & pj & El & Hp & <-). apply S, elem_of_union_r, elem_of_list_to_set. rewrite (DecodeIndex_packs _ _ _ _ _ E2).
  unfold LoadUnpacked in E1. apply rbind_ok in E1 as ([] & _ & E1). rewrite El in E1. injection E1 as <-.
  by apply list_elem_of_fmap_2.
Qed.

Lemma packsFromIndexes_spec w r ids s id pack :
  packsFromIndexes w r ids = Ok s -> id ∈ ids -> names (r_indexes r) id pack -> pack ∈ s.
Proof. intros H Hid. apply (packs_from_spec _ _ _ _ _ H). by apply elem_of_elements. Qed.

Lemma LoadIndex_inv w r r1 res :
  (forall l, Permutation (w_arrival w l) l) -> LoadIndex w (clearIndex w r) = (r1, res) ->
  durable r1 = durable r /\ (forall x, res = Ok x -> MasterIDs (r_idx r1) = dom (r_indexes r)).
Proof.
  intros Pa. unfold LoadIndex. destruct (rbind _ _) as [mi|e] eqn:E; [|intros [= <- <-]; done].
  apply rbind_ok in E as (u & _ & E).
  destruct (Load_spec _ _ [] _ _ _ _ Pa (clear_mirrors _ _ _) E) as (ids & (main & bs & Em & Fm & _ & Ei & _) & Eq & _).
  assert (D : MasterIDs mi = dom (r_indexes r)).
  { unfold MasterIDs. rewrite Em. cbn [map union_list foldr]. rewrite Fm, Ei. cbn [negb]. cbn. rewrite union_empty_r_L.
    apply set_eq. intros id. rewrite elem_of_list_to_set, Eq. cbn [if_list]. rewrite elem_of_dom.
    change (r_indexes (clearIndex w r)) with (r_indexes r). rewrite list_elem_of_fmap. split.
    - intros ((id' & l) & -> & H). apply elem_of_map_to_list in H. by exists l.
    - intros [l H]. exists (id, l). split; [done|by apply elem_of_map_to_list]. }
  set (r0 := (clearIndex w r) <| r_idx := mi |>). assert (durable r0 = durable r) by done.
  assert (MasterIDs (r_idx r0) = dom (r_indexes r)) by exact D. clearbody r0.
  destruct (r_Version r0 <? 2); [destruct (MasterValues mi) as [pbs|]; [destruct (existsb _ pbs)|]|]; intros [= <- <-]; done.
Qed.

(** *** Deletion *)

Lemma deleteFiles_spec ignoreError stopped cancelled tried remove ids removed err :
  deleteFiles ignoreError stopped cancelled tried remove ids = (removed, err) ->
  removed ⊆ ids /\ (forall id, id ∈ removed -> remove id = Ok tt) /\ (stopped = true -> cancelled = true -> removed = ∅)
  /\ (cancelled = false -> forall x, err = Ok x -> forall id, id ∈ ids -> remove id = Ok tt \/ ignoreError = false -> id ∈ removed).
Proof.
  unfold deleteFiles. set (failing := fun id => negb (is_ok (remove id))). set (some := if stopped then ∅ else _). 
  set (att := if cancelled || negb ignoreError && existsb failing (elements some) then some else ids).
  intros [= <- <-].
  assert (S : some ⊆ ids) by (unfold some; destruct stopped; [apply empty_subseteq|intros id Hid; by apply elem_of_filter in Hid as [_ ?]]).
  assert (A : att ⊆ ids) by (unfold att; destruct (_ || _); [exact S|reflexivity]).
  assert (Fl : forall id, failing id = false <-> remove id = Ok tt).
  { intros id. unfold failing. by destruct (remove id) as [[]|]. }
  split; [intros id Hid; apply elem_of_filter in Hid as [_ Hid]; by apply A|].
  split; [intros id Hid; apply elem_of_filter in Hid as [Hf _]; by apply Fl|]. split.
  - intros -> ->. unfold att, some. cbn. apply set_eq. intros id. rewrite elem_of_filter. split; [tauto|by intros ?%elem_of_empty].
  - intros -> x Ex id Hid Hor. rewrite elem_of_filter. change (negb (is_ok (remove id))) with (failing id).
    rewrite Fl. destruct ignoreError; cbn [negb andb orb] in *.
    + destruct Hor as [Hor|Hor]; [|done]. split; [done|exact Hid].
    + destruct (existsb failing (elements att)) eqn:Ef; [done|]. assert (id ∈ att).
      { unfold att. destruct (existsb failing (elements some)) eqn:Es; [|exact Hid]. unfold att in Ef. rewrite Es in Ef. congruence. }
      split; [|done]. apply Fl. destruct (failing id) eqn:Fi; [|done]. exfalso. enough (existsb failing (elements att) = true) by congruence.
      apply existsb_exists. exists id. split; [|done]. by apply list_elem_of_In, elem_of_elements.
Qed.

Lemma delete_indexes_inv w r ids r1 res :
  delete_nonempty ids r (delete_indexes w r ids) = (r1, res) ->
  exists removed, removed ⊆ ids /\ r_indexes r1 = filter (fun '(id, _) => ~ id ∈ removed) (r_indexes r)
    /\ r_packs r1 = r_packs r /\ r_PrunePlan r1 = r_PrunePlan r /\ r_idx r1 = r_idx r
    /\ (forall x, res = Ok x -> w_cancel w <> DuringIndexes -> removed = ids).
Proof.
  unfold delete_nonempty, delete_indexes. case_bool_decide as Hn.
  - intros [= <- <-]. exists ∅. split; [apply empty_subseteq|]. split; [|by subst].
    symmetry. apply map_filter_id. intros id l _ ?%elem_of_empty. done.
  - destruct (deleteFiles _ _ _ _ _ _) as [removed err] eqn:E. intros [= <- <-].
    destruct (deleteFiles_spec _ _ _ _ _ _ _ _ E) as (S & _ & _ & C). exists removed. do 5 (split; [done|]).
    intros x -> Hc. apply set_eq. intros id. split; [apply S|]. intros Hid. by apply (C ltac:(by destruct (w_cancel w)) x); auto.
Qed.

Lemma delete_packs_inv w r remove ids r1 res :
  delete_nonempty ids r (delete_packs w r remove ids) = (r1, res) ->
  exists removed, removed ⊆ ids /\ r_packs r1 = r_packs r ∖ removed /\ (forall id, id ∈ removed -> remove id = Ok tt)
    /\ r_indexes r1 = r_indexes r /\ r_PrunePlan r1 = r_PrunePlan r /\ (w_cancel w = DuringIndexes -> removed = ∅) /\ res = Ok tt
    /\ (w_cancel w = Never -> forall id, id ∈ ids -> remove id = Ok tt -> id ∈ removed).
Proof.
  unfold delete_nonempty, delete_packs. case_bool_decide as Hn.
  - intros [= <- <-]. exists ∅. split; [apply empty_subseteq|]. split; [by rewrite difference_empty_L|].
    split; [by intros ? ?%elem_of_empty|]. do 4 (split; [done|]). subst. by intros _ ? ?%elem_of_empty.
  - destruct (deleteFiles _ _ _ _ _ _) as [removed err] eqn:E. intros [= <- <-].
    destruct (deleteFiles_spec _ _ _ _ _ _ _ _ E) as (S & O & St & C). assert (err = Ok tt) as -> by (by injection E as _ <-).
    exists removed. do 3 (split; [done|]). do 2 (split; [done|]). split; [intros Ec; apply St; by rewrite Ec|]. split; [done|].
    intros Ec id Hid Hr. apply (C ltac:(by rewrite Ec) tt); auto.
Qed.

Lemma finish_inv w r plan r' res :
  finish_plan w r plan = (r', res) ->
  r_indexes r' = r_indexes r /\ r_packs r' = r_packs r
  /\ (r_PrunePlan r' = r_PrunePlan r /\ (exists e, res = Err e) \/ r_PrunePlan r' = None /\ res = Ok tt).
Proof.
  intros H. apply then_inv in H as [(e & H & ->)|(r1 & [] & H & [= <- <-])]; apply update_inv in H as [(-> & e' & [=])|(p & Hp & -> & [=])]; eauto 10.
  destruct (r_PrunePlan r) as [cur|]; [|done]. destruct (negb _); [done|]. injection Hp as <-. eauto 10.
Qed.

Lemma excluded_inv w candidates s :
  excludeStagedPackRoots w candidates = Ok s ->
  s ⊆ candidates /\ forall staged, w_staged w = Some (Ok staged) -> s = candidates ∖ staged.
Proof.
  unfold excludeStagedPackRoots. destruct (w_staged w) as [[st|e]|].
  - case_bool_decide as H; intros [= <-]; split; [done| |by apply subseteq_difference_l|by intros ? [= <-]].
    intros ? _. rewrite H. apply set_eq. intros id. rewrite elem_of_difference. by split; [intros ?%elem_of_empty|intros [? _]].
  - case_bool_decide as H; [|done]. by intros [= <-].
  - by intros [= <-].
Qed.

(** *** The second phase *)

Definition ready (plan : PrunePlan) : Prop :=
  pp_Version plan = prunePlanVersion /\ pp_ID plan <> EmptyString /\ pp_State plan = prunePlanReady.

Definition unstaged (w : World) (id : ID) : Prop :=
  match w_staged w with
  | Some (Ok staged) => ~ id ∈ staged
  | _ => True
  end.

(** What the deletion by a ready plan did: it removed the index files [ri] and the packs
    [rp], whichever step failed; [known] are the index files it has looked at. *)
Record phaseB (w : World) (known : gset ID) (remove : ID -> result unit) (r r' : Repository) (res : result unit)
    (plan : PrunePlan) (ri rp : gset ID) : Prop := {
  b_required : ri ∪ rp <> ∅ -> forall id, id ∈ RequiredIndexes plan -> id ∈ known;
  b_listed : forall id, id ∈ ri -> id ∈ IndexIDs plan;
  b_indexes : r_indexes r' = filter (fun '(id, _) => ~ id ∈ ri) (r_indexes r);
  b_removed : forall id, id ∈ rp -> id ∈ PackIDs plan /\ unstaged w id /\ remove id = Ok tt
    /\ forall index, index ∈ known -> ~ names (r_indexes r') index id;
  b_packs : r_packs r' = r_packs r ∖ rp;
  b_first : rp <> ∅ -> forall id, id ∈ IndexIDs plan -> ~ id ∈ dom (r_indexes r');
  b_marker : r_PrunePlan r' = r_PrunePlan r /\ (exists e, res = Err e) \/ r_PrunePlan r' = None /\ res = Ok tt;
  b_done : res = Ok tt -> w_cancel w = Never ->
    (forall id, id ∈ IndexIDs plan -> ~ id ∈ dom (r_indexes r'))
    /\ (forall id, id ∈ PackIDs plan -> unstaged w id -> remove id = Ok tt -> id ∈ rp) }.

Lemma filter_nothing (m : gmap ID (list packJSON)) (ri : gset ID) : ri = ∅ -> filter (fun '(id, _) => ~ id ∈ ri) m = m.
Proof. intros ->. apply map_filter_id. intros id l _ H%elem_of_empty. done. Qed.

(** It failed before anything was deleted. *)
Lemma phaseB_nothing w known remove r r' plan e : durable r' = durable r -> phaseB w known remove r r' (Err e) plan ∅ ∅.
Proof.
  intros [= E1 E2 E3]. split.
  - by rewrite union_empty_l_L.
  - by intros ? ?%elem_of_empty.
  - rewrite E2. symmetry. by apply filter_nothing.
  - by intros ? ?%elem_of_empty.
  - by rewrite difference_empty_L.
  - done.
  - left. eauto.
  - done.
Qed.

Lemma existsb_listed (f : ID -> bool) l : existsb f l = false -> forall id, id ∈ l -> f id = false.
Proof.
  intros H id Hid. destruct (f id) eqn:E; [|done]. exfalso. enough (existsb f l = true) by congruence.
  apply existsb_exists. exists id. by rewrite <- list_elem_of_In.
Qed.

Lemma required_present (required : list ID) (known : gset ID) :
  existsb (fun id => negb (bool_decide (id ∈ known))) required = false -> forall id, id ∈ required -> id ∈ known.
Proof. intros H id Hid. apply (existsb_listed _ _ H) in Hid. case_bool_decide; done. Qed.

(** The last steps, when the listed index files [ids] were to be deleted and no index file
    that is left names a listed pack. *)
Lemma phaseB_packs w known remove r r1 r' res plan ids ri :
  (forall id, id ∈ RequiredIndexes plan -> id ∈ known) ->
  (forall id, id ∈ ri -> id ∈ IndexIDs plan) -> r_indexes r1 = filter (fun '(id, _) => ~ id ∈ ri) (r_indexes r) ->
  r_packs r1 = r_packs r -> r_PrunePlan r1 = r_PrunePlan r -> (w_cancel w <> DuringIndexes -> ri = ids) ->
  (forall id, id ∈ IndexIDs plan -> id ∈ dom (r_indexes r) -> id ∈ ids) ->
  (w_cancel w <> DuringIndexes ->
     forall id index, id ∈ PackIDs plan -> index ∈ known -> ~ names (r_indexes r1) index id) ->
  match excludeStagedPackRoots w (list_to_set (PackIDs plan)) with
  | Err e => (r1, Err e)
  | Ok packIDs => then_ (delete_nonempty packIDs r1 (delete_packs w r1 remove packIDs)) (fun r _ => finish_plan w r plan)
  end = (r', res) ->
  exists rp, phaseB w known remove r r' res plan ri rp.
Proof.
  intros Req Ls Ei Ep Em Er Co Un. destruct (excludeStagedPackRoots w _) as [packIDs|e] eqn:Ex.
  2:{ intros [= <- <-]. exists ∅.
      split; [done|done|done|by intros ? ?%elem_of_empty|by rewrite difference_empty_L|done|left; eauto|done]. }
  destruct (excluded_inv _ _ _ Ex) as [Sub St]. intros H. apply then_inv in H as [(e & H & ->)|(r2 & [] & H & H2)];
    destruct (delete_packs_inv _ _ _ _ _ _ H) as (rp & S & Pk & Ok' & Ei2 & Em2 & Di & Rok & Al); [done|].
  destruct (finish_inv _ _ _ _ _ H2) as (Ei3 & Ep3 & Mk).
  assert (Gone : w_cancel w <> DuringIndexes -> forall id, id ∈ IndexIDs plan -> ~ id ∈ dom (r_indexes r')).
  { intros Nc id Hid. rewrite Ei3, Ei2, Ei. intros [l [Hl Hn]%map_lookup_filter_Some]%elem_of_dom. apply Hn.
    rewrite Er by done. apply Co; [done|]. apply elem_of_dom. by exists l. }
  exists rp. split.
  - done.
  - done.
  - congruence.
  - intros id Hid. specialize (Sub id (S id Hid)) as Hl. rewrite elem_of_list_to_set in Hl. split; [done|].
    split; [|split; [by apply Ok'|]].
    + unfold unstaged. destruct (w_staged w) as [[st|]|] eqn:Est; [|done..]. specialize (S id Hid). rewrite (St st eq_refl) in S.
      by apply elem_of_difference in S as [_ ?].
    + intros index Hk. rewrite Ei3, Ei2. apply Un; [|done|done]. intros Hc. rewrite (Di Hc) in Hid. by apply elem_of_empty in Hid.
  - by rewrite Ep3, Pk, Ep.
  - intros Hrp. apply Gone. intros Hc. by apply Hrp, Di.
  - rewrite <- Em, <- Em2. exact Mk.
  - intros -> Nc. split; [apply Gone; by rewrite Nc|].
    + intros id Hid Hu Hr. apply Al; [done| |done]. unfold excludeStagedPackRoots in Ex. unfold unstaged in Hu.
      destruct (w_staged w) as [[st|e]|].
      * rewrite (St st eq_refl). apply elem_of_difference. by rewrite elem_of_list_to_set.
      * case_bool_decide as Hn; [|done]. injection Ex as <-. by apply elem_of_list_to_set.
      * injection Ex as <-. by apply elem_of_list_to_set.
Qed.

Lemma plan_ready plan :
  negb (pp_Version plan =? prunePlanVersion) || (pp_ID plan =? "")%string = false ->
  negb (pp_State plan =? prunePlanReady)%string = false -> ready plan.
Proof.
  intros [H1 H2]%orb_false_iff H3. apply negb_false_iff in H1, H3. apply Z.eqb_eq in H1. apply String.eqb_neq in H2.
  by apply String.eqb_eq in H3.
Qed.

Lemma unnamed_packs (w : World) (r : Repository) (known ids s : gset ID) (packs : list ID) :
  packsFromIndexes w r (known ∖ ids) = Ok s -> existsb (fun id => bool_decide (id ∈ s)) packs = false ->
  forall id index, id ∈ packs -> index ∈ known -> ~ index ∈ ids -> ~ names (r_indexes r) index id.
Proof.
  intros Hp He id index Hid Hk Hn Hna. apply (existsb_listed _ _ He) in Hid. apply bool_decide_eq_false in Hid. apply Hid.
  eapply packsFromIndexes_spec; [exact Hp| |exact Hna]. by apply elem_of_difference.
Qed.

Lemma names_filter (m : gmap ID (list packJSON)) (ri : gset ID) index id :
  names (filter (fun '(id, _) => ~ id ∈ ri) m) index id -> names m index id /\ ~ index ∈ ri.
Proof. intros (l & pj & [Hl Hn]%map_lookup_filter_Some & H). split; [by exists l, pj|done]. Qed.

(** It failed after the index files and before the packs. *)
Lemma phaseB_stopped w known remove r r' plan ri e :
  (forall id, id ∈ RequiredIndexes plan -> id ∈ known) -> (forall id, id ∈ ri -> id ∈ IndexIDs plan) ->
  r_indexes r' = filter (fun '(id, _) => ~ id ∈ ri) (r_indexes r) -> r_packs r' = r_packs r -> r_PrunePlan r' = r_PrunePlan r ->
  phaseB w known remove r r' (Err e) plan ri ∅.
Proof.
  intros Req Ls Ei Ek Em. split; [done|done|done|by intros ? ?%elem_of_empty|by rewrite difference_empty_L|done|left; eauto|done].
Qed.

Ltac unchanged := do 2 (split; [done|]); cbn [is_ok]; congruence.

(** Everything a finalization can do: a ready plan is executed, up to a failure. *)
Lemma Finalize_inv w r r' res :
  (forall l, Permutation (w_arrival w l) l) -> FinalizePrunePlan w r = (r', res) ->
  (exists plan ri rp, r_PrunePlan r = Some plan /\ ready plan /\ phaseB w (dom (r_indexes r)) (w_remove_pack w) r r' res plan ri rp)
  \/ ((forall plan, r_PrunePlan r = Some plan -> ~ ready plan) /\ r_indexes r' = r_indexes r /\ r_packs r' = r_packs r
      /\ (if is_ok res then r_PrunePlan r' = None else r_PrunePlan r' = r_PrunePlan r)).
Proof.
  intros Pa. unfold FinalizePrunePlan. destruct (r_PrunePlan r) as [plan|] eqn:Epl; [|intros [= <- <-]; right; split; [done|unchanged]].
  destruct (_ || _) eqn:Ev.
  { intros [= <- <-]. right. split; [|unchanged]. intros ? [= <-] (V & I & _). apply orb_true_iff in Ev as [Ev|Ev].
    - by apply negb_true_iff, Z.eqb_neq in Ev.
    - apply String.eqb_eq in Ev. by apply I. }
  destruct (pp_State plan =? prunePlanPhaseA)%string eqn:Ea.
  { intros H. right. split; [intros ? [= <-] (_ & _ & S); apply String.eqb_eq in Ea; by rewrite Ea in S|].
    apply update_inv in H as [(-> & e & ->)|(p & Hp & -> & ->)]; [unchanged|].
    destruct (negb (claimed _ _)); [done|]. by injection Hp as <-. }
  destruct (negb (pp_State plan =? prunePlanReady)%string) eqn:Es.
  { intros [= <- <-]. right. split; [|unchanged]. intros ? [= <-] (_ & _ & S). by apply negb_true_iff, String.eqb_neq in Es. }
  intros H. left. exists plan. apply plan_ready in Es; [|exact Ev].
  enough (exists ri rp, phaseB w (dom (r_indexes r)) (w_remove_pack w) r r' res plan ri rp) as (ri & rp & P) by eauto 10.
  apply then_inv in H as [(e & H & ->)|(r1 & [] & H & H2)]; destruct (LoadIndex_inv _ _ _ _ Pa H) as [D Em].
  { exists ∅, ∅. by apply phaseB_nothing. }
  rewrite (Em tt eq_refl) in H2. clear Em H. destruct (existsb _ (RequiredIndexes plan)) eqn:Er.
  { injection H2 as <- <-. exists ∅, ∅. by apply phaseB_nothing. }
  destruct (packsFromIndexes _ _ _) as [s|e] eqn:Ep; [|injection H2 as <- <-; exists ∅, ∅; by apply phaseB_nothing].
  destruct (existsb _ (PackIDs plan)) eqn:Ex; [injection H2 as <- <-; exists ∅, ∅; by apply phaseB_nothing|].
  pose proof (required_present _ _ Er) as Req. pose proof (unnamed_packs _ _ _ _ _ _ Ep Ex) as Un.
  injection D as Dp Di Dk. apply then_inv in H2 as [(e & H & ->)|(r2 & [] & H & H2)];
    destruct (delete_indexes_inv _ _ _ _ _ H) as (ri & Sub & Ei & Ek & Epp & _ & Al).
  - exists ri, ∅. apply phaseB_stopped; [exact Req| |congruence..]. intros id Hid. apply Sub, elem_of_intersection in Hid as [Hid _].
    by apply elem_of_list_to_set in Hid.
  - exists ri. eapply (phaseB_packs w _ _ r r2 _ _ _ (list_to_set (IndexIDs plan) ∩ dom (r_indexes r))); [exact Req|..|exact H2]; try congruence.
    + intros id Hid. apply Sub, elem_of_intersection in Hid as [Hid _]. by apply elem_of_list_to_set in Hid.
    + intros Nc. by apply (Al tt).
    + intros id Hid Hd. apply elem_of_intersection. by rewrite elem_of_list_to_set.
    + intros Nc id index Hid Hk Hna. rewrite Ei in Hna. apply names_filter in Hna as [Hna Hri].
      apply (Un id index Hid Hk); [|done]. intros Hl. apply Hri. rewrite (Al tt eq_refl Nc). by apply elem_of_intersection.
Qed.

Lemma FinalizeLoaded_inv w r r' res :
  FinalizePrunePlanLoaded w r = (r', res) ->
  (exists plan ri rp, r_PrunePlan r = Some plan /\ ready plan
     /\ phaseB w (MasterIDs (r_idx r)) (revalidating_remove w) r r' res plan ri rp)
  \/ ((forall plan, r_PrunePlan r = Some plan -> ~ ready plan) /\ r' = r).
Proof.
  unfold FinalizePrunePlanLoaded. destruct (r_PrunePlan r) as [plan|] eqn:Epl; [|intros [= <- <-]; by right].
  destruct (_ || _) eqn:Ev.
  { intros [= <- <-]. right. split; [|done]. intros ? [= <-] (V & I & S). rewrite V, S in Ev. cbn in Ev.
    apply orb_true_iff in Ev as [Ev|Ev]; [apply String.eqb_eq in Ev; by apply I|done]. }
  apply orb_false_iff in Ev as [Ev Es]. pose proof (plan_ready _ Ev Es) as Rd. intros H. left. exists plan.
  enough (exists ri rp, phaseB w (MasterIDs (r_idx r)) (revalidating_remove w) r r' res plan ri rp) as (ri & rp & P) by eauto 10.
  destruct (existsb _ (RequiredIndexes plan)) eqn:Er.
  { injection H as <- <-. exists ∅, ∅. by apply phaseB_nothing. }
  pose proof (required_present _ _ Er) as Req. apply then_inv in H as [(e & H & ->)|(r1 & [] & H & H2)];
    destruct (delete_indexes_inv _ _ _ _ _ H) as (ri & Sub & Ei & Ek & Epp & Em & Al);
    (assert (Ls : forall id, id ∈ ri -> id ∈ IndexIDs plan)
      by (intros id Hid; apply Sub in Hid; by apply elem_of_list_to_set in Hid)); exists ri.
  { exists ∅. apply phaseB_stopped; [exact Req|exact Ls|congruence..]. }
  destruct (packsFromIndexes _ _ _) as [s|e] eqn:Ep; [|injection H2 as <- <-; exists ∅; apply phaseB_stopped; [exact Req|exact Ls|congruence..]].
  destruct (existsb _ (PackIDs plan)) eqn:Ex; [injection H2 as <- <-; exists ∅; apply phaseB_stopped; [exact Req|exact Ls|congruence..]|].
  pose proof (unnamed_packs _ _ _ _ _ _ Ep Ex) as Un.
  eapply (phaseB_packs w _ _ r r1 _ _ _ (list_to_set (IndexIDs plan))); [exact Req|exact Ls|..|exact H2]; try congruence.
  - intros Nc. by apply (Al tt).
  - intros id Hid _. by apply elem_of_list_to_set.
  - intros Nc id index Hid Hk Hna. apply (Un id index Hid Hk); [|done]. rewrite <- (Al tt eq_refl Nc).
    rewrite Ei in Hna. by apply names_filter in Hna as [_ ?].
Qed.

Lemma phaseB_kept w known remove r r' res plan ri rp id packs :
  phaseB w known remove r r' res plan ri rp -> r_indexes r' !! id = Some packs -> r_indexes r !! id = Some packs /\ ~ id ∈ ri.
Proof. intros B H. rewrite (b_indexes _ _ _ _ _ _ _ _ _ B) in H. by apply map_lookup_filter_Some in H. Qed.

Lemma phaseB_gone w known remove r r' res plan ri rp id :
  phaseB w known remove r r' res plan ri rp -> id ∈ dom (r_indexes r) -> ~ id ∈ dom (r_indexes r') -> id ∈ ri.
Proof.
  intros B [l Hl]%elem_of_dom Hn. destruct (decide (id ∈ ri)) as [|N]; [done|]. exfalso. apply Hn. apply elem_of_dom. exists l.
  rewrite (b_indexes _ _ _ _ _ _ _ _ _ B). by apply map_lookup_filter_Some.
Qed.

Lemma phaseB_pack w known remove r r' res plan ri rp id :
  phaseB w known remove r r' res plan ri rp -> id ∈ r_packs r -> ~ id ∈ r_packs r' -> id ∈ rp.
Proof.
  intros B Hp Hn. destruct (decide (id ∈ rp)) as [|N]; [done|]. exfalso. apply Hn.
  rewrite (b_packs _ _ _ _ _ _ _ _ _ B). by apply elem_of_difference.
Qed.

(** Every pack an index file names is there. *)
Definition consistent (r : Repository) : Prop := forall index pack, names (r_indexes r) index pack -> pack ∈ r_packs r.

(** The deletion has looked at every index file that could name a listed pack: the others are
    listed, or name none. *)
Definition looked_at (known : gset ID) (r : Repository) (plan : PrunePlan) : Prop :=
  forall index, index ∈ dom (r_indexes r) ->
    index ∈ known \/ index ∈ IndexIDs plan \/ forall pack, pack ∈ PackIDs plan -> ~ names (r_indexes r) index pack.

Lemma phaseB_consistent w known remove r r' res plan ri rp :
  phaseB w known remove r r' res plan ri rp -> looked_at known r plan -> consistent r -> consistent r'.
Proof.
  intros B K C index pack Hn. assert (N : names (r_indexes r) index pack /\ ~ index ∈ ri).
  { rewrite (b_indexes _ _ _ _ _ _ _ _ _ B) in Hn. by apply names_filter in Hn. }
  destruct N as [N _]. specialize (C _ _ N). destruct (decide (pack ∈ r_packs r')) as [|Hp]; [done|]. exfalso.
  pose proof (phaseB_pack _ _ _ _ _ _ _ _ _ _ B C Hp) as Hrp. destruct (b_removed _ _ _ _ _ _ _ _ _ B _ Hrp) as (Hpl & _ & _ & U).
  destruct (K index) as [Hk|[Hk|Hk]]; [destruct N as (l & _ & Hl & _); apply elem_of_dom; by exists l|by apply (U index)| |by apply (Hk pack)].
  apply (b_first _ _ _ _ _ _ _ _ _ B) in Hk; [|intros E; rewrite E in Hrp; by apply elem_of_empty in Hrp].
  apply Hk, elem_of_dom. destruct Hn as (l & _ & Hl & _). by exists l.
Qed.

(** *** Runs *)

(** Calls of the prune operations on one repository, with backups between them. The sets
    are the index files and packs that the completed plans have listed so far. A backup
    adds packs and index files that name packs which are there; it may come with another
    process and so with another index in memory. Finalizing with the loaded index is for
    the process that wrote the new indexes, while it alone has the repository: an index file
    that is not in its memory is to be deleted, or was kept by the rewrite because it names
    no pack to be deleted ([rewrite_looks] in Execute.v). *)
Inductive run (r0 : Repository) : gset ID -> gset ID -> Repository -> Prop :=
  | run_start : run r0 ∅ ∅ r0
  | run_append Li Lp r r' :
      run r0 Li Lp r -> r_PrunePlan r' = r_PrunePlan r -> r_indexes r ⊆ r_indexes r' -> r_packs r ⊆ r_packs r' ->
      (forall index pack, r_indexes r !! index = None -> names (r_indexes r') index pack -> pack ∈ r_packs r') ->
      run r0 Li Lp r'
  | run_begin Li Lp r w id r' res : run r0 Li Lp r -> BeginPrunePlan w r id = (r', res) -> run r0 Li Lp r'
  | run_complete Li Lp r w id observed required indexIDs packIDs r' res :
      run r0 Li Lp r -> CompletePrunePlan w r id observed required indexIDs packIDs = (r', res) ->
      run r0 (if is_ok res then Li ∪ indexIDs else Li) (if is_ok res then Lp ∪ packIDs else Lp) r'
  | run_persist Li Lp r w id observed required indexIDs packIDs r' res :
      run r0 Li Lp r -> PersistPrunePlan w r id observed required indexIDs packIDs = (r', res) ->
      run r0 (if is_ok res then Li ∪ indexIDs else Li) (if is_ok res then Lp ∪ packIDs else Lp) r'
  | run_finalize Li Lp r w r' res :
      run r0 Li Lp r -> (forall l, Permutation (w_arrival w l) l) -> FinalizePrunePlan w r = (r', res) -> run r0 Li Lp r'
  | run_loaded Li Lp r w r' res :
      run r0 Li Lp r ->
      (forall plan, r_PrunePlan r = Some plan -> looked_at (MasterIDs (r_idx r)) r plan) ->
      FinalizePrunePlanLoaded w r = (r', res) -> run r0 Li Lp r'.

(** The state of a run, against its start. *)
Record run_ok (r0 : Repository) (Li Lp : gset ID) (r : Repository) : Prop := {
  ro_consistent : consistent r;
  ro_indexes : forall id packs, r_indexes r0 !! id = Some packs -> r_indexes r !! id = Some packs \/ id ∈ Li;
  ro_packs : forall id, id ∈ r_packs r0 -> id ∈ r_packs r \/ id ∈ Lp;
  ro_plan : forall plan, r_PrunePlan r = Some plan ->
    (forall id, id ∈ IndexIDs plan -> id ∈ Li) /\ (forall id, id ∈ PackIDs plan -> id ∈ Lp) }.

Lemma run_same r0 Li Lp r r' :
  run_ok r0 Li Lp r -> r_indexes r' = r_indexes r -> r_packs r' = r_packs r ->
  (r_PrunePlan r' = r_PrunePlan r \/ forall plan, r_PrunePlan r' = Some plan ->
     (forall id, id ∈ IndexIDs plan -> id ∈ Li) /\ (forall id, id ∈ PackIDs plan -> id ∈ Lp)) ->
  run_ok r0 Li Lp r'.
Proof.
  intros [C I P M] Ei Ep Em. split.
  - intros index pack. rewrite Ei, Ep. apply C.
  - by rewrite Ei.
  - by rewrite Ep.
  - destruct Em as [Em|Em]; [by rewrite Em|done].
Qed.

Lemma run_phaseB r0 Li Lp w known remove r r' res plan ri rp :
  run_ok r0 Li Lp r -> r_PrunePlan r = Some plan -> phaseB w known remove r r' res plan ri rp ->
  looked_at known r plan -> run_ok r0 Li Lp r'.
Proof.
  intros [C I P M] Epl B K. destruct (M _ Epl) as [Mi Mp]. split.
  - by eapply phaseB_consistent.
  - intros id packs H. destruct (I id packs H) as [Hr|]; [|by right].
    destruct (decide (id ∈ ri)) as [Hri|Hri]; [right; by apply Mi, (b_listed _ _ _ _ _ _ _ _ _ B)|left].
    rewrite (b_indexes _ _ _ _ _ _ _ _ _ B). by apply map_lookup_filter_Some.
  - intros id H. destruct (P id H) as [Hr|]; [|by right]. destruct (decide (id ∈ r_packs r')) as [|N]; [by left|right].
    apply Mp, (b_removed _ _ _ _ _ _ _ _ _ B). by eapply phaseB_pack.
  - intros plan' H. destruct (b_marker _ _ _ _ _ _ _ _ _ B) as [[E _]|[E _]]; rewrite E in H; [by apply M|done].
Qed.

Lemma IDSet_List_elem (s : gset ID) id : id ∈ IDSet_List s <-> id ∈ s.
Proof. unfold IDSet_List. by rewrite merge_sort_Permutation, elem_of_elements. Qed.

Lemma run_ok_more r0 Li Lp Li' Lp' r : run_ok r0 Li Lp r -> Li ⊆ Li' -> Lp ⊆ Lp' -> run_ok r0 Li' Lp' r.
Proof.
  intros [C I P M] Si Sp. split; [done| | |].
  - intros id packs H. destruct (I id packs H); auto.
  - intros id H. destruct (P id H); auto.
  - intros plan H. destruct (M plan H). auto.
Qed.

Lemma Begin_run r0 Li Lp r w id r' res : run_ok r0 Li Lp r -> BeginPrunePlan w r id = (r', res) -> run_ok r0 Li Lp r'.
Proof.
  intros R. unfold BeginPrunePlan. destruct (r_PrunePlan r); [by intros [= <- <-]|]. intros H.
  apply then_inv in H as [(e & H & _)|(r1 & [] & H & [= <- _])]; apply update_inv in H as [(-> & e' & [=])|(plan & [= <-] & -> & [=])]; [done|].
  eapply run_same; [exact R|done|done|]. right. intros plan [= <-]. by split; intros ? ?%elem_of_nil.
Qed.

Lemma Complete_run r0 Li Lp r w id observed required indexIDs packIDs r' res :
  run_ok r0 Li Lp r -> CompletePrunePlan w r id observed required indexIDs packIDs = (r', res) ->
  run_ok r0 (if is_ok res then Li ∪ indexIDs else Li) (if is_ok res then Lp ∪ packIDs else Lp) r'.
Proof.
  intros R H. apply then_inv in H as [(e & H & ->)|(r1 & [] & H & [= <- <-])]; apply update_inv in H as [(-> & e' & [=])|(plan & Hp & -> & [=])]; [done|].
  destruct (negb _); [done|]. injection Hp as <-. cbn [is_ok].
  eapply run_same; [eapply (run_ok_more _ Li Lp); [exact R|apply union_subseteq_l..]|done|done|]. right. intros plan [= <-].
  cbn [IndexIDs PackIDs]. by split; intros id' H%IDSet_List_elem; apply elem_of_union_r.
Qed.

Lemma marker_run_holds r0 Li Lp r : run r0 Li Lp r -> consistent r0 -> r_PrunePlan r0 = None -> run_ok r0 Li Lp r.
Proof.
  intros H C N. induction H as [|? ? r r' _ IH Em Ei Ep Nw|? ? r w id r' res _ IH E|? ? r w id ob req ii pp r' res _ IH E
    |? ? r w id ob req ii pp r' res _ IH E|? ? r w r' res _ IH Pa E|? ? r w r' res _ IH K E].
  - split; [done|by left|by left|by rewrite N].
  - destruct IH as [C' I P M]. split; [| |intros id Hid; destruct (P id Hid); auto|by rewrite Em].
    + intros index pack Hn. destruct (r_indexes r !! index) as [l|] eqn:El; [|by apply (Nw index)]. apply Ep, (C' index).
      destruct Hn as (l' & pj & Hl' & Hpj). pose proof (lookup_weaken _ _ _ _ El Ei) as Hl. exists l, pj. split; [done|].
      congruence.
    + intros id packs H. destruct (I id packs H) as [H'|]; [left|by right]. by eapply lookup_weaken.
  - by eapply Begin_run.
  - by eapply Complete_run.
  - unfold PersistPrunePlan in E. apply then_inv in E as [(e & E & ->)|(r1 & plan & E1 & E)]; [by eapply Begin_run|].
    eapply Complete_run; [|exact E]. by eapply Begin_run.
  - destruct (Finalize_inv _ _ _ _ Pa E) as [(plan & ri & rp & Epl & _ & B)|(_ & Ei & Ep & Em)].
    + eapply run_phaseB; [exact IH|exact Epl|exact B|]. by left.
    + eapply run_same; [exact IH|done|done|]. destruct (is_ok res); [right; by rewrite Em|by left].
  - destruct (FinalizeLoaded_inv _ _ _ _ E) as [(plan & ri & rp & Epl & _ & B)|(_ & ->)]; [|done].
    eapply run_phaseB; [exact IH|exact Epl|exact B|]. by apply K.
Qed.

(** *** Starting again after a failure *)

(** A plan that can be executed: what it requires is there and is kept, and the index files
    that are kept do not name its packs. *)
Record executable (r : Repository) (plan : PrunePlan) : Prop := {
  ex_plan : r_PrunePlan r = Some plan;
  ex_ready : ready plan;
  ex_required : forall id, id ∈ RequiredIndexes plan -> id ∈ dom (r_indexes r) /\ ~ id ∈ IndexIDs plan;
  ex_unnamed : forall index id, id ∈ PackIDs plan -> ~ index ∈ IndexIDs plan -> ~ names (r_indexes r) index id }.

Definition writable (r : Repository) : Prop :=
  r_HasAtomicReplace r = true /\ r_AppendOnly r = false /\ r_ValidateExtensions r = Ok tt.

(** Nothing fails but, perhaps, the removal of packs. *)
Record faultless (w : World) : Prop := {
  fl_arrival : forall l, Permutation (w_arrival w l) l;
  fl_reload : forall id, w_reload w id = Ok tt;
  fl_save : w_save w = Ok tt;
  fl_cancel : w_cancel w = Never;
  fl_remove : forall id, w_remove_index w id = Ok tt;
  fl_staged : forall e, w_staged w <> Some (Err e) }.

Lemma executable_failed w r r' plan e :
  (forall l, Permutation (w_arrival w l) l) -> executable r plan -> FinalizePrunePlan w r = (r', Err e) -> executable r' plan.
Proof.
  intros Pa [Ep Er Rq Un] H. destruct (Finalize_inv _ _ _ _ Pa H) as [(plan' & ri & rp & Ep' & _ & B)|(N & _)];
    [|by apply N in Ep]. rewrite Ep in Ep'. injection Ep' as <-. pose proof (b_indexes _ _ _ _ _ _ _ _ _ B) as Ei. split.
  - destruct (b_marker _ _ _ _ _ _ _ _ _ B) as [[-> _]|[_ ?]]; done.
  - done.
  - intros id Hid. destruct (Rq id Hid) as [[l Hl]%elem_of_dom Hn]. split; [|done]. apply elem_of_dom. exists l. rewrite Ei.
    apply map_lookup_filter_Some. split; [done|]. intros Hri. by apply Hn, (b_listed _ _ _ _ _ _ _ _ _ B).
  - intros index id Hid Hn Hna. rewrite Ei in Hna. apply names_filter in Hna as [Hna _]. by apply (Un index id).
Qed.

Lemma load_decodes load now hash loaded ids mi mi' id :
  load_indexes load now hash loaded mi ids = Ok mi' -> id ∈ ids -> ~ id ∈ loaded ->
  exists packs idx, load id = Ok packs /\ DecodeIndex packs id now hash = Ok idx.
Proof.
  revert mi. induction ids as [|id' ids IH]; intros mi E Hid Hn; [by apply elem_of_nil in Hid|]. cbn in E.
  apply rbind_ok in E as (mi1 & E1 & E). apply elem_of_cons in Hid as [->|Hid]; [|by apply (IH mi1)].
  unfold load_index in E1. rewrite bool_decide_eq_false_2 in E1 by done.
  apply rbind_ok in E1 as (packs & E1 & E2). apply rbind_ok in E2 as (idx & E2 & _). eauto.
Qed.

Lemma LoadIndex_loads w r r1 id packs :
  (forall l, Permutation (w_arrival w l) l) -> LoadIndex w (clearIndex w r) = (r1, Ok tt) -> r_indexes r !! id = Some packs ->
  LoadUnpacked (w_load w) (clearIndex w r) id = Ok packs /\ exists idx, DecodeIndex packs id (w_now w) (w_hash w) = Ok idx.
Proof.
  intros Pa. unfold LoadIndex. destruct (rbind _ _) as [mi|e] eqn:E; [|done]. intros _ Hid. apply rbind_ok in E as (u & _ & E).
  unfold Load in E. apply rbind_ok in E as ([mi0 loaded] & Ep & E). apply rbind_ok in E as (mi1 & El & _).
  assert (loaded = ∅) as ->.
  { unfold prepareIncrementalLoad in Ep. cbn in Ep. destruct (bool_decide _) in Ep; by injection Ep as _ <-. }
  cbn [if_list if_load] in El. change (r_indexes (clearIndex w r)) with (r_indexes r) in El.
  destruct (load_decodes _ _ _ _ _ _ _ id El) as (packs' & idx & E1 & E2); [|by intros ?%elem_of_empty|].
  - rewrite Pa. apply (list_elem_of_fmap_2 fst _ (id, packs)). by apply elem_of_map_to_list.
  - assert (packs' = packs) as ->.
    { unfold LoadUnpacked in E1. apply rbind_ok in E1 as (? & _ & E1).
      change (r_indexes (clearIndex w r)) with (r_indexes r) in E1. rewrite Hid in E1. by injection E1. }
    split; [done|by exists idx].
Qed.

Lemma LoadIndex_decodes w r r1 id packs :
  (forall l, Permutation (w_arrival w l) l) -> LoadIndex w (clearIndex w r) = (r1, Ok tt) -> r_indexes r !! id = Some packs ->
  exists idx, DecodeIndex packs id (w_now w) (w_hash w) = Ok idx.
Proof. intros Pa L H. by apply (LoadIndex_loads _ _ _ _ _ Pa L). Qed.

Lemma packs_from_total w r ids packs :
  (forall id, w_reload w id = Ok tt) ->
  (forall id, id ∈ ids -> exists l idx, r_indexes r !! id = Some l /\ DecodeIndex l id (w_now w) (w_hash w) = Ok idx) ->
  exists s, packs_from w r ids packs = Ok s /\ forall pack, pack ∈ s -> pack ∈ packs \/ exists id, id ∈ ids /\ names (r_indexes r) id pack.
Proof.
  intros Re. revert packs. induction ids as [|id ids IH]; intros packs H; cbn [packs_from]; [exists packs; auto|].
  destruct (H id) as (l & idx & El & Ed); [apply list_elem_of_here|]. unfold LoadUnpacked. rewrite Re, El. cbn [rbind]. rewrite Ed. cbn [rbind].
  destruct (IH (packs ∪ list_to_set (ix_packs idx))) as (s & Es & Hs); [intros; by apply H, list_elem_of_further|].
  exists s. split; [done|]. intros pack Hp. destruct (Hs pack Hp) as [Hu|(id' & Hid & Hn)]; [|right; exists id'; split; [by apply list_elem_of_further|done]].
  apply elem_of_union in Hu as [Hu|Hu]; [by left|right]. exists id. split; [apply list_elem_of_here|].
  rewrite elem_of_list_to_set, (DecodeIndex_packs _ _ _ _ _ Ed) in Hu. apply list_elem_of_fmap in Hu as (pj & -> & Hpj). by exists l, pj.
Qed.

Lemma LoadIndex_writable w r r1 res : LoadIndex w r = (r1, res) -> writable r -> writable r1.
Proof.
  unfold LoadIndex. destruct (rbind _ _) as [mi|e]; [|by intros [= <- _]]. intros H W.
  assert (Wm : writable (r <| r_idx := mi |>)) by exact W. revert H. generalize dependent (r <| r_idx := mi |>). intros r0 Wm.
  destruct (r_Version r0 <? 2); [destruct (MasterValues mi) as [pbs|]; [destruct (existsb _ pbs)|]|]; intros [= <- _]; done.
Qed.

Lemma delete_indexes_total w r ids :
  faultless w -> writable r -> exists r1, delete_nonempty ids r (delete_indexes w r ids) = (r1, Ok tt) /\ writable r1.
Proof.
  intros [_ _ _ Ec Er _] W. unfold delete_nonempty, delete_indexes. case_bool_decide; [eauto|]. unfold deleteFiles. rewrite Ec. cbn [orb negb andb].
  assert (F : forall l, existsb (fun id => negb (is_ok (w_remove_index w id))) l = false).
  { induction l as [|id l IH]; [done|]. cbn. by rewrite Er. }
  rewrite !F. eexists. split; [done|exact W].
Qed.

Lemma delete_packs_total w r remove ids :
  writable r -> exists r1, delete_nonempty ids r (delete_packs w r remove ids) = (r1, Ok tt) /\ writable r1
    /\ r_PrunePlan r1 = r_PrunePlan r.
Proof.
  intros W. unfold delete_nonempty, delete_packs. case_bool_decide; [eauto|].
  destruct (deleteFiles _ _ _ _ _ _) as [removed err] eqn:E. assert (err = Ok tt) as -> by by injection E as _ <-.
  eexists. split; [reflexivity|]. split; [exact W|reflexivity].
Qed.

Lemma finish_total w r plan :
  faultless w -> writable r -> r_PrunePlan r = Some plan -> exists r', finish_plan w r plan = (r', Ok tt).
Proof.
  intros F (W1 & W2 & W3) E. unfold finish_plan, UpdateConfigAtomically, UpdateConfig. rewrite W1, W2, W3, E, String.eqb_refl, (fl_save _ F). cbn. eauto.
Qed.

Lemma existsb_none (f : ID -> bool) l : (forall id, id ∈ l -> f id = false) -> existsb f l = false.
Proof.
  intros H. destruct (existsb f l) eqn:E; [|done]. apply existsb_exists in E as (id & Hid & Hf).
  apply list_elem_of_In in Hid. by rewrite H in Hf.
Qed.

Lemma Finalize_succeeds w r r1 plan :
  executable r plan -> writable r -> faultless w -> LoadIndex w (clearIndex w r) = (r1, Ok tt) ->
  exists r', FinalizePrunePlan w r = (r', Ok tt).
Proof.
  intros [Ep (V & I & S) Rq Un] W F L. pose proof (fl_arrival _ F) as Pa. destruct (LoadIndex_inv _ _ _ _ Pa L) as [[= Dp Di Dk] Em].
  assert (W1 : writable r1) by (eapply LoadIndex_writable; [exact L|exact W]).
  unfold FinalizePrunePlan. rewrite Ep, V, S, L. cbn [then_]. rewrite (Em tt eq_refl). apply String.eqb_neq in I. rewrite I.
  change (prunePlanVersion =? prunePlanVersion) with true. change (prunePlanReady =? prunePlanPhaseA)%string with false.
  change (prunePlanReady =? prunePlanReady)%string with true. cbn [negb orb].
  rewrite existsb_none by (intros id Hid; by rewrite bool_decide_eq_true_2 by (by apply (Rq id))). unfold packsFromIndexes.
  destruct (packs_from_total w r1 (elements (dom (r_indexes r) ∖ list_to_set (IndexIDs plan))) ∅ (fl_reload _ F)) as (s & -> & Hs).
  { intros id [[l Hl]%elem_of_dom _]%elem_of_elements%elem_of_difference. destruct (LoadIndex_decodes _ _ _ _ _ Pa L Hl) as [idx Hd].
    exists l, idx. by rewrite Di. }
  rewrite existsb_none.
  2:{ intros id Hid. apply bool_decide_eq_false_2. intros [H|(index & Hi & Hn)]%Hs; [by apply elem_of_empty in H|].
      apply elem_of_elements, elem_of_difference in Hi as [_ Hi]. rewrite elem_of_list_to_set in Hi. rewrite Di in Hn. by apply (Un index id). }
  destruct (delete_indexes_total w r1 (list_to_set (IndexIDs plan) ∩ dom (r_indexes r)) F W1) as (r2 & E2 & W2). rewrite E2. cbn [then_].
  destruct (delete_indexes_inv _ _ _ _ _ E2) as (ri & _ & _ & _ & Em2 & _).
  destruct (excludeStagedPackRoots w _) as [packIDs|e] eqn:Ex.
  - destruct (delete_packs_total w r2 (w_remove_pack w) packIDs W2) as (r3 & -> & W3 & Em3). cbn [then_]. apply finish_total; [done..|congruence].
  - exfalso. unfold excludeStagedPackRoots in Ex. destruct (w_staged w) as [[st|e']|] eqn:Es; [case_bool_decide; done| |done].
    by apply (fl_staged _ F) in Es.
Qed.
(** *** A backup between the phases *)

(** The index file has an entry for a blob. *)
Definition lists (indexes : gmap ID (list packJSON)) (index : ID) (pb : PackedBlob) : Prop :=
  exists packs, indexes !! index = Some packs /\ pb ∈ flat packs.

(** Who has loaded the index files does not store a blob that one of them lists. *)
Lemma LoadIndex_known w r r1 index pb size :
  (forall l, Permutation (w_arrival w l) l) -> LoadIndex w (clearIndex w r) = (r1, Ok tt) -> lists (r_indexes r) index pb ->
  AddPending (r_idx r1) (b_handle (pb_Blob pb)) size = Ok (r_idx r1, false).
Proof.
  intros Pa L (packs & Hl & Hp). pose proof L as L0. unfold LoadIndex in L. destruct (rbind _ _) as [mi|e] eqn:E; [|done].
  assert (r_idx r1 = mi) as ->.
  { destruct (_ <? _) in L; [destruct (MasterValues mi) as [pbs|]; [destruct (existsb _ _) in L|]|]; by injection L as <-. }
  apply rbind_ok in E as (u & _ & E).
  destruct (Load_spec _ _ [] _ _ _ _ Pa (clear_mirrors _ _ _) E) as (ids & (main & bs & Em & Fm & R & Ei & G) & Eq & _).
  assert (M : MasterTheory.master mi [bs]) by (split; [by exists main, []|rewrite Em; by repeat constructor]).
  assert (Hh : has main pb).
  { apply G. exists index, packs. split; [apply Eq|split; [by apply (LoadIndex_loads _ _ _ _ _ Pa L0)|done]].
    apply (list_elem_of_fmap_2 fst _ (index, packs)). by apply elem_of_map_to_list. }
  apply (has_iff _ _ _ R) in Hh as (t & T & Hb). pose proof (indexes_type main bs t pb (reachable_indexes _ _ R) T Hb) as Et.
  destruct (MasterTheory.AddPending_spec mi [bs] (b_handle (pb_Blob pb)) size M) as [[_ ?]|[N _]]; [by rewrite Et|done|]. exfalso. apply N. right.
  apply MasterTheory.found_in_nonempty. exists pb. apply MasterTheory.found_in_elem. exists bs. split; [apply list_elem_of_here|].
  apply of_handle_elem. by rewrite Et.
Qed.

End MarkerTheory.

(** ** Properties *)

Module MarkerProps.
Import IndexTheory IndexProps RewriteTheory RewriteProps MarkerTheory.

(** C8. Whatever fails, and whenever the call is cancelled, finalizing a prune plan deletes
    only what the marker lists: an index file only when every replacement index is there,
    a pack only when all listed index files are gone, when no index file that is left
    names it and no staging journal protects it. The marker is cleared exactly when the
    call succeeds. *)
Theorem FinalizePrunePlan_safe (w : World) (r r' : Repository) (res : result unit) :
  (forall l, Permutation (w_arrival w l) l) -> FinalizePrunePlan w r = (r', res) ->
  (forall id packs, r_indexes r' !! id = Some packs -> r_indexes r !! id = Some packs)
  /\ r_packs r' ⊆ r_packs r
  /\ (forall id, id ∈ dom (r_indexes r) -> ~ id ∈ dom (r_indexes r') ->
        exists plan, r_PrunePlan r = Some plan /\ ready plan /\ id ∈ IndexIDs plan
          /\ forall required, required ∈ RequiredIndexes plan -> required ∈ dom (r_indexes r))
  /\ (forall id, id ∈ r_packs r -> ~ id ∈ r_packs r' ->
        exists plan, r_PrunePlan r = Some plan /\ ready plan /\ id ∈ PackIDs plan /\ unstaged w id
          /\ (forall index, index ∈ IndexIDs plan -> ~ index ∈ dom (r_indexes r'))
          /\ forall index, ~ names (r_indexes r') index id)
  /\ (if is_ok res then r_PrunePlan r' = None else r_PrunePlan r' = r_PrunePlan r).
Proof.
  intros Pa H. destruct (Finalize_inv _ _ _ _ Pa H) as [(plan & ri & rp & Ep & Rd & B)|(_ & -> & -> & Em)]; [|by repeat (split; [done|])].
  split; [intros id packs Hl; by apply (phaseB_kept _ _ _ _ _ _ _ _ _ _ _ B) in Hl as [? _]|].
  split; [rewrite (b_packs _ _ _ _ _ _ _ _ _ B); by apply subseteq_difference_l|].
  split; [|split].
  - intros id Hd Hn. pose proof (phaseB_gone _ _ _ _ _ _ _ _ _ _ B Hd Hn) as Hri. exists plan. do 2 (split; [done|]).
    split; [by apply (b_listed _ _ _ _ _ _ _ _ _ B)|]. apply (b_required _ _ _ _ _ _ _ _ _ B).
    intros E. assert (id ∈ (∅ : gset ID)) as ?%elem_of_empty by (rewrite <- E; by apply elem_of_union_l). done.
  - intros id Hp Hn. pose proof (phaseB_pack _ _ _ _ _ _ _ _ _ _ B Hp Hn) as Hrp. exists plan. do 2 (split; [done|]).
    destruct (b_removed _ _ _ _ _ _ _ _ _ B _ Hrp) as (? & ? & _ & U). do 2 (split; [done|]). split.
    + apply (b_first _ _ _ _ _ _ _ _ _ B). intros E. rewrite E in Hrp. by apply elem_of_empty in Hrp.
    + intros index Hna. apply (U index); [|done]. destruct Hna as (l & _ & Hl & _). apply elem_of_dom. exists l.
      by apply (phaseB_kept _ _ _ _ _ _ _ _ _ _ _ B).
  - destruct (b_marker _ _ _ _ _ _ _ _ _ B) as [[? (e & ->)]|[? ->]]; done.
Qed.

(** C7. In every sequence of prune operations and backups, with any failures and
    cancellations, every pack that an index file names is there, and only files that a
    completed plan has listed are ever deleted. The finalization that starts from the index in
    memory is covered where the process that wrote the new indexes alone has the repository:
    every index file is in its memory, or listed in the plan, or names no listed pack. The
    other one is covered at any time. *)
Theorem prune_run_safe (r0 r : Repository) (listed_indexes listed_packs : gset ID) :
  run r0 listed_indexes listed_packs r -> r_PrunePlan r0 = None -> consistent r0 ->
  consistent r
  /\ (forall id packs, r_indexes r0 !! id = Some packs -> r_indexes r !! id = Some packs \/ id ∈ listed_indexes)
  /\ (forall id, id ∈ r_packs r0 -> id ∈ r_packs r \/ id ∈ listed_packs).
Proof. intros H N C. destruct (marker_run_holds _ _ _ _ H C N) as [? ? ? _]. auto. Qed.

(** One more attempt that failed. *)
Definition failed (r r' : Repository) : Prop :=
  exists w e, (forall l, Permutation (w_arrival w l) l) /\ FinalizePrunePlan w r = (r', Err e).

(** C29. A failed finalization can be resumed. Take a ready plan whose replacement indexes are
    there and not themselves to be deleted, and whose packs are named by no index file that
    stays (for other plans the finalization refuses to start), and a repository whose config
    can be written: it is not append-only, its backend replaces the config atomically, and
    the rest of the config is valid. Then however often the finalization failed before,
    wherever each attempt stopped, the first attempt during which the index loads and nothing
    else fails succeeds, clears the marker and leaves none of the listed index files, nor
    any listed pack that can be removed and that no staging journal protects. *)
Theorem FinalizePrunePlan_resumes (r r1 r2 : Repository) (plan : PrunePlan) (w : World) :
  executable r plan -> rtc failed r r1 -> writable r1 -> faultless w -> LoadIndex w (clearIndex w r1) = (r2, Ok tt) ->
  exists r', FinalizePrunePlan w r1 = (r', Ok tt) /\ r_PrunePlan r' = None
    /\ (forall id, id ∈ IndexIDs plan -> ~ id ∈ dom (r_indexes r'))
    /\ (forall id, id ∈ PackIDs plan -> unstaged w id -> w_remove_pack w id = Ok tt -> ~ id ∈ r_packs r').
Proof.
  intros X S W F L. assert (X1 : executable r1 plan).
  { clear W L. induction S as [|r r' r1 (v & e & Pa & H) _ IH]; [done|]. by apply IH, (executable_failed v r _ _ e). }
  destruct (Finalize_succeeds _ _ _ _ X1 W F L) as [r' H]. exists r'. split; [done|].
  destruct (Finalize_inv _ _ _ _ (fl_arrival _ F) H) as [(plan' & ri & rp & Ep & _ & B)|(N & _)];
    [|destruct (N plan (ex_plan _ _ X1) (ex_ready _ _ X1))].
  rewrite (ex_plan _ _ X1) in Ep. injection Ep as <-. destruct (b_done _ _ _ _ _ _ _ _ _ B eq_refl (fl_cancel _ F)) as [Di Dp].
  split; [destruct (b_marker _ _ _ _ _ _ _ _ _ B) as [[_ (e & ?)]|[? _]]; done|]. split; [done|].
  intros id Hid Hu Hr. rewrite (b_packs _ _ _ _ _ _ _ _ _ B). intros [_ Hn]%elem_of_difference. by apply Hn, Dp.
Qed.

(** ** Examples *)

Definition file_new : ID := repeat x31 32.
Definition pack_old : ID := repeat x0a 32.
Definition pack_new : ID := repeat x0c 32.

(** A backend on which everything works, and one that refuses to delete index files. *)
Definition calm : World :=
  mkWorld 0 sample_hash keep_order (Ok tt) (fun _ => Ok tt) (Ok tt) (fun _ => Ok tt) (Ok tt) Never (fun _ => true)
    (fun _ => Ok tt) (fun _ => Ok tt) None (fun _ => Ok ∅).
Definition stubborn : World := calm <| w_remove_index := fun _ => Err "refused" |>.

Lemma calm_faultless : faultless calm.
Proof. by split. Qed.

(** The old pack holds a blob that no snapshot uses. *)
Definition before_prune : Repository :=
  mkRepository None (Ok tt) 2 false true (NewMasterIndex 0 sample_hash)
    {[ file_a := [mkPackJSON pack_old [json_blob 1 0]] ]} {[pack_old]}.

(** Phase A: the marker, the new files, and the plan with its lists. *)
Definition claimed_repo : Repository := fst (BeginPrunePlan calm before_prune "claim").
Definition repacked : Repository :=
  claimed_repo <| r_indexes := <[file_new := [mkPackJSON pack_new [json_blob 2 0]]]> (r_indexes claimed_repo) |>
               <| r_packs := {[pack_new]} ∪ r_packs claimed_repo |>.
Definition planned : Repository :=
  fst (CompletePrunePlan calm repacked "claim" {[file_a]} {[file_new]} {[file_a]} {[pack_old]}).
Definition the_plan : PrunePlan := mkPrunePlan 1 "claim" "ready" [file_a] [file_new] [file_a] [pack_old].

Lemma planned_marker : r_PrunePlan planned = Some the_plan.
Proof. vm_compute. reflexivity. Qed.

(** [consistent], as a test. *)
Lemma consistent_test r :
  bool_decide (map_Forall (fun _ packs => Forall (fun pj => pj_ID pj ∈ r_packs r) packs) (r_indexes r)) = true -> consistent r.
Proof.
  intros H%bool_decide_eq_true_1 index pack (l & pj & Hl & Hp & <-). specialize (H _ _ Hl). cbn in H.
  rewrite Forall_forall in H. by apply H.
Qed.

Lemma planned_run : run before_prune {[file_a]} {[pack_old]} planned.
Proof.
  assert (E : ∅ ∪ ({[file_a]} : gset ID) = {[file_a]}) by apply union_empty_l_L.
  assert (E' : ∅ ∪ ({[pack_old]} : gset ID) = {[pack_old]}) by apply union_empty_l_L. rewrite <- E, <- E'.
  eapply (run_complete before_prune ∅ ∅ repacked calm "claim" {[file_a]} {[file_new]} {[file_a]} {[pack_old]} planned (Ok the_plan)).
  - eapply (run_append _ _ _ claimed_repo); [eapply (run_begin _ _ _ before_prune calm "claim" _ (snd (BeginPrunePlan calm before_prune "claim"))); [constructor|reflexivity]|done|..].
    + change (r_indexes repacked) with (<[file_new := [mkPackJSON pack_new [json_blob 2 0]]]> (r_indexes claimed_repo)).
      apply insert_subseteq. vm_compute. reflexivity.
    + apply union_subseteq_r.
    + assert (C : consistent repacked) by (apply consistent_test; vm_compute; reflexivity). intros index pack _. apply C.
  - vm_compute. reflexivity.
Qed.

Definition finalized : Repository := fst (FinalizePrunePlan calm planned).
Definition stuck : Repository := fst (FinalizePrunePlan stubborn planned).

Lemma call_succeeds (c : call unit) : is_ok (snd c) = true -> c = (fst c, Ok tt).
Proof. by destruct c as [r [[]|]]. Qed.

Lemma finalized_result : FinalizePrunePlan calm planned = (finalized, Ok tt).
Proof. apply call_succeeds. vm_compute. reflexivity. Qed.

Lemma FinalizePrunePlan_safe_witness :
  r_PrunePlan finalized = None /\ forall id, id ∈ r_packs planned -> ~ id ∈ r_packs finalized -> forall index, ~ names (r_indexes finalized) index id.
Proof.
  destruct (FinalizePrunePlan_safe calm planned finalized (Ok tt) (fun _ => Permutation_refl _) finalized_result) as (_ & _ & _ & H & M).
  split; [exact M|]. intros id H1 H2. destruct (H id H1 H2) as (_ & _ & _ & _ & _ & _ & N). exact N.
Defined.

Lemma prune_run_safe_witness : run before_prune {[file_a]} {[pack_old]} finalized /\ consistent finalized.
Proof.
  assert (R : run before_prune {[file_a]} {[pack_old]} finalized)
    by (apply (run_finalize _ _ _ planned calm finalized (Ok tt)); [exact planned_run|done|exact finalized_result]).
  split; [exact R|]. apply (prune_run_safe before_prune finalized {[file_a]} {[pack_old]} R); [reflexivity|].
  apply consistent_test. vm_compute. reflexivity.
Defined.

Lemma planned_executable : executable planned the_plan.
Proof.
  split; [exact planned_marker|by repeat split| |].
  - intros id ->%list_elem_of_singleton. split; [apply (bool_decide_eq_true_1 _); vm_compute; reflexivity|].
    intros H%list_elem_of_singleton. discriminate H.
  - intros index id ->%list_elem_of_singleton Hn (l & pj & Hl & Hp & E).
    assert (F : map_Forall (fun index packs => index ∈ [file_a] \/ Forall (fun pj => pj_ID pj <> pack_old) packs) (r_indexes planned))
      by (apply (bool_decide_eq_true_1 _); vm_compute; reflexivity).
    destruct (F _ _ Hl) as [|Fp]; [done|]. rewrite Forall_forall in Fp. by apply (Fp pj).
Qed.

Lemma planned_stuck : failed planned stuck.
Proof.
  exists stubborn, "unable to remove file". split; [done|]. apply injective_projections; [done|]. vm_compute. reflexivity.
Qed.

Lemma FinalizePrunePlan_resumes_witness :
  exists r', FinalizePrunePlan calm stuck = (r', Ok tt) /\ r_PrunePlan r' = None
    /\ (forall id, id ∈ IndexIDs the_plan -> ~ id ∈ dom (r_indexes r'))
    /\ (forall id, id ∈ PackIDs the_plan -> unstaged calm id -> w_remove_pack calm id = Ok tt -> ~ id ∈ r_packs r').
Proof.
  apply (FinalizePrunePlan_resumes planned stuck (fst (LoadIndex calm (clearIndex calm stuck))) the_plan calm planned_executable
    (rtc_once _ _ planned_stuck)); [vm_compute; auto|exact calm_faultless|].
  apply injective_projections; [reflexivity|vm_compute; reflexivity].
Defined.

(** C32. A backup between the two phases of a prune loses data. Let a blob be listed only in
    index files and packs that the plan is going to delete, and let a backup come between the
    phases: having loaded the index, it is told that the blob is known, and so does not store it
    again. A finalization that then succeeds, which does not look at snapshots, leaves no index
    file that lists the blob and none of the packs it was in (if it was not cancelled, the
    packs can be removed and no staging journal protects them). *)
Theorem backup_between_phases_loses (w wb : World) (r rb r1 r' : Repository) (plan : PrunePlan) (h : BlobHandle) (size : Z) :
  (forall l, Permutation (w_arrival w l) l) -> (forall l, Permutation (w_arrival wb l) l) -> r_PrunePlan r = Some plan -> ready plan ->
  (exists index pb, lists (r_indexes r) index pb /\ b_handle (pb_Blob pb) = h) ->
  (forall index pb, lists (r_indexes r) index pb -> b_handle (pb_Blob pb) = h -> index ∈ IndexIDs plan /\ pb_Pack pb ∈ PackIDs plan) ->
  LoadIndex wb (clearIndex wb r) = (rb, Ok tt) ->
  r_PrunePlan r1 = r_PrunePlan r -> r_indexes r ⊆ r_indexes r1 -> r_packs r ⊆ r_packs r1 ->
  (forall index pb, r_indexes r !! index = None -> lists (r_indexes r1) index pb -> b_handle (pb_Blob pb) <> h) ->
  FinalizePrunePlan w r1 = (r', Ok tt) -> w_cancel w = Never -> (forall id, unstaged w id /\ w_remove_pack w id = Ok tt) ->
  AddPending (r_idx rb) h size = Ok (r_idx rb, false)
  /\ (forall index pb, lists (r_indexes r') index pb -> b_handle (pb_Blob pb) <> h)
  /\ (forall index pb, lists (r_indexes r) index pb -> b_handle (pb_Blob pb) = h -> ~ pb_Pack pb ∈ r_packs r').
Proof.
  intros Pa Pb Ep Rd (index0 & pb0 & L0 & E0) Only L Ep1 Si Sp New F Nc Rm. split; [subst h; by apply (LoadIndex_known wb r rb index0)|].
  destruct (Finalize_inv _ _ _ _ Pa F) as [(plan' & ri & rp & Ep' & _ & B)|(N & _)]; [|rewrite Ep1 in N; by destruct (N plan Ep)].
  rewrite Ep1, Ep in Ep'. injection Ep' as <-. destruct (b_done _ _ _ _ _ _ _ _ _ B eq_refl Nc) as [Di Dp]. split.
  - intros index pb (packs & Hl & Hp) Eh. destruct (phaseB_kept _ _ _ _ _ _ _ _ _ _ _ B Hl) as [Hl1 _].
    destruct (r_indexes r !! index) as [packs0|] eqn:E; [|by apply (New index pb E); [exists packs|]].
    assert (packs0 = packs) as -> by (pose proof (lookup_weaken _ _ _ _ E Si); congruence).
    destruct (Only index pb) as [Hi _]; [by exists packs|done|]. apply (Di index Hi), elem_of_dom. by exists packs.
  - intros index pb Hl Eh. destruct (Only index pb Hl Eh) as [_ Hk]. rewrite (b_packs _ _ _ _ _ _ _ _ _ B).
    intros [_ Hn]%elem_of_difference. by apply Hn, Dp; [|apply Rm..].
Qed.

(** The backup adds its own index file, with a pack of its own. *)
Definition lost : BlobHandle := mkBlobHandle (bj_ID (json_blob 1 0)) DataBlob.
Definition backup_index : Repository := fst (LoadIndex calm (clearIndex calm planned)).
Definition pack_backup : ID := repeat x0d 32.
Definition after_backup : Repository :=
  planned <| r_indexes := <[file_b := [mkPackJSON pack_backup [json_blob 3 0]]]> (r_indexes planned) |>
          <| r_packs := {[pack_backup]} ∪ r_packs planned |>.

(** A test of the entries of the index files. *)
Lemma lists_test indexes (Q : ID -> PackedBlob -> Prop) `{forall index pb, Decision (Q index pb)} :
  bool_decide (map_Forall (fun index packs => Forall (Q index) (flat packs)) indexes) = true ->
  forall index pb, lists indexes index pb -> Q index pb.
Proof.
  intros F%bool_decide_eq_true_1 index pb (packs & Hl & Hp). specialize (F _ _ Hl). cbn in F. rewrite Forall_forall in F. by apply F.
Qed.

Lemma lost_listed : lists (r_indexes planned) file_a (mkPackedBlob pack_old (mkBlob lost 40 0 0)).
Proof.
  exists [mkPackJSON pack_old [json_blob 1 0]]. split; [vm_compute; reflexivity|]. apply (bool_decide_eq_true_1 _). vm_compute. reflexivity.
Qed.

Lemma backup_between_phases_loses_witness :
  AddPending (r_idx backup_index) lost 40 = Ok (r_idx backup_index, false)
  /\ pack_old ∈ r_packs after_backup /\ ~ pack_old ∈ r_packs (fst (FinalizePrunePlan calm after_backup)).
Proof.
  destruct (backup_between_phases_loses calm calm planned backup_index after_backup (fst (FinalizePrunePlan calm after_backup)) the_plan lost 40
    (fun _ => Permutation_refl _) (fun _ => Permutation_refl _) planned_marker) as (A & _ & D).
  - by repeat split.
  - exists file_a. eexists. split; [exact lost_listed|reflexivity].
  - apply (lists_test _ (fun index pb => b_handle (pb_Blob pb) = lost -> index ∈ IndexIDs the_plan /\ pb_Pack pb ∈ PackIDs the_plan)). vm_compute. reflexivity.
  - apply call_succeeds. vm_compute. reflexivity.
  - reflexivity.
  - apply insert_subseteq. vm_compute. reflexivity.
  - apply union_subseteq_r.
  - intros index pb N Hl. revert N. revert index pb Hl.
    apply (lists_test _ (fun index pb => r_indexes planned !! index = None -> b_handle (pb_Blob pb) <> lost)). vm_compute. reflexivity.
  - apply call_succeeds. vm_compute. reflexivity.
  - reflexivity.
  - by split.
  - split; [exact A|]. split; [apply (bool_decide_eq_true_1 _); vm_compute; reflexivity|]. exact (D _ _ lost_listed eq_refl).
Defined.
End MarkerProps.
