(* ===== verification/Prune.v ===== *)
(** * Planning a prune ([internal/repository/prune.go])

    [PlanPrune] decides from the blobs in use, the index and the list of pack files
    which packs are removed, which are repacked and which blobs a repack keeps. The
    theorems show that no blob in use is lost, that the plan is a partition of the
    packs, that its limits hold and that its internal check never fails, and they
    show two places where the code does not do what it means to. *)
From stdpp Require Import base list numbers strings gmap sets sorting.
From Stdlib Require Import ZArith Lia.
From coqutil Require Import Datatypes.RecordSetters.
From S2P Require Import Prelude Codec Crypto Pack IndexMap RepoIndex MasterIndex AssociatedSet.
Import TriangleBracketNotations.

(** ** Data *)

(** Addition and subtraction of [uint] and [uint64]. *)
Definition uadd (a b : Z) : Z := wrap_u 64 (a + b).
Definition usub (a b : Z) : Z := wrap_u 64 (a - b).

(** [MaxUnusedBytes] is a function of the options. [MaxRepackPercent] is [None] when
    it is not positive; otherwise it is the function that takes this percentage of a
    size in floating point. *)
Record PruneOptions := mkPruneOptions {
  UnsafeRecovery : bool;
  MaxUnusedBytes : Z -> Z;
  MaxRepackBytes : Z;
  MaxRepackPercent : option (Z -> Z);
  SmallPackBytes : Z;
  RepackCacheableOnly : bool;
  RepackUncompressed : bool;
  RepackAll : bool }.

Record BlobStats := mkBlobStats {
  bs_Used : Z; bs_Duplicate : Z; bs_Unused : Z; bs_Total : Z; bs_Repack : Z; bs_Repackrm : Z;
  bs_Remove : Z; bs_RemoveTotal : Z; bs_Remain : Z }.
Record SizeStats := mkSizeStats {
  ss_Used : Z; ss_Duplicate : Z; ss_Unused : Z; ss_Unref : Z; ss_Uncompressed : Z; ss_Total : Z;
  ss_Repack : Z; ss_Repackrm : Z; ss_Remove : Z; ss_RemoveTotal : Z; ss_Remain : Z; ss_RemainUnused : Z }.
Record PackStats := mkPackStats {
  ks_Used : Z; ks_Unused : Z; ks_PartlyUsed : Z; ks_Unref : Z; ks_Total : Z; ks_Keep : Z;
  ks_Repack : Z; ks_Remove : Z; ks_RemoveTotal : Z }.
Record PruneStats := mkPruneStats { Blobs : BlobStats; Size : SizeStats; Packs_ : PackStats }.

Definition zero_stats : PruneStats :=
  mkPruneStats (mkBlobStats 0 0 0 0 0 0 0 0 0) (mkSizeStats 0 0 0 0 0 0 0 0 0 0 0 0) (mkPackStats 0 0 0 0 0 0 0 0 0).

Record packInfo := mkPackInfo {
  usedBlobs : Z; unusedBlobs : Z; duplicateBlobs : Z; usedSize : Z; unusedSize : Z;
  tpe : Z; uncompressed : bool }.

(** What a map of pack infos returns for a pack that is not in it. *)
Definition zero_info : packInfo := mkPackInfo 0 0 0 0 0 InvalidBlob false.

Record packInfoWithID := mkCandidate { c_ID : ID; c_info : packInfo; mustCompress : bool }.

Record PrunePlan := mkPrunePlan {
  removePacksFirst : gset ID;
  repackPacks : gset ID;
  keepBlobs : option (AssociatedSet Z);
  removePacks : gset ID;
  ignorePacks : gset ID;
  plan_stats : PruneStats;
  plan_opts : PruneOptions }.

(** The parts of a repository the planning reads. [repo_List] is the list of the
    pack files with their sizes, or the error of the backend. *)
Record Repository := mkRepository {
  repo_idx : MasterIndex;
  repo_Version : Z;
  repo_PackSize : Z;
  repo_Connections : Z;
  repo_SlateDB : bool;
  repo_List : result (list (ID * Z)) }.

(** A callback called for each element of a list. *)
Fixpoint each {S A} (f : S -> A -> result S) (s : S) (l : list A) : result S :=
  match l with
  | [] => Ok s
  | a :: l => let! s := f s a in each f s l
  end.

Definition handle (pb : PackedBlob) : BlobHandle := b_handle (pb_Blob pb).

Definition ListBlobs {S} (mi : MasterIndex) (f : S -> PackedBlob -> result S) (s : S) : result S :=
  let! pbs := MasterValues mi in each f s pbs.

(** ** Which blobs are used, and where *)

Definition count_blob (mi : MasterIndex) (used : AssociatedSet Z) (pb : PackedBlob) : result (AssociatedSet Z) :=
  let! count := Get mi used (handle pb) in
  match count with
  | None => Ok used
  | Some count => Set_ mi used (handle pb) (if count <? 255 then count + 1 else count)
  end.

Definition countUsedBlobOccurrences (mi : MasterIndex) (used : AssociatedSet Z) : result (AssociatedSet Z) :=
  ListBlobs mi (count_blob mi) used.

Definition ErrIndexIncomplete : string := "index is not complete".
Definition ErrPacksMissing : string := "packs from index missing in repo".
Definition ErrSizeNotMatching : string := "pack size does not match calculated size from index".

Definition validateUsedBlobs (mi : MasterIndex) (used : AssociatedSet Z) : result unit :=
  let! all := All mi used in
  guard (existsb (fun '(_, count) => count =? 0) all) ErrIndexIncomplete.

(** [pack.Size]: the sizes of the packs, or of their headers only. *)
Definition size_blob (onlyHdr : bool) (packSize : gmap ID Z) (pb : PackedBlob) : gmap ID Z :=
  let size := default headerSize (packSize !! pb_Pack pb) in
  let size := if onlyHdr then size else size + b_Length (pb_Blob pb) in
  <[pb_Pack pb := size + CalculateEntrySize (IsCompressed (pb_Blob pb))]> packSize.

Definition PackSizes (mi : MasterIndex) (onlyHdr : bool) : result (gmap ID Z) :=
  ListBlobs mi (fun packSize pb => Ok (size_blob onlyHdr packSize pb)) ∅.

Definition accountIndexedBlob (mi : MasterIndex) (used : AssociatedSet Z) (packs : gmap ID packInfo)
    (stats : PruneStats) (pb : PackedBlob) : result (bool * gmap ID packInfo * PruneStats) :=
  let info := default zero_info (packs !! pb_Pack pb) in
  let info := if tpe info =? NumBlobTypes then info <| tpe := bh_Type (handle pb) |> else info in
  let info := if negb (tpe info =? bh_Type (handle pb)) then info <| tpe := InvalidBlob |> else info in
  let size := b_Length (pb_Blob pb) in
  let! count := Get mi used (handle pb) in
  let duplicateCount := default 0 count in
  let b := Blobs stats in
  let s := Size stats in
  let (info, stats) :=
    if 2 <=? duplicateCount then
      (info <| unusedSize := uadd (unusedSize info) size |>
            <| unusedBlobs := uadd (unusedBlobs info) 1 |>
            <| duplicateBlobs := uadd (duplicateBlobs info) 1 |>,
       stats <| Size := s <| ss_Duplicate := uadd (ss_Duplicate s) size |> |>
             <| Blobs := b <| bs_Duplicate := uadd (bs_Duplicate b) 1 |> |>)
    else if duplicateCount =? 1 then
      (info <| usedSize := uadd (usedSize info) size |>
            <| usedBlobs := uadd (usedBlobs info) 1 |>,
       stats <| Size := s <| ss_Used := uadd (ss_Used s) size |> |>
             <| Blobs := b <| bs_Used := uadd (bs_Used b) 1 |> |>)
    else
      (info <| unusedSize := uadd (unusedSize info) size |>
            <| unusedBlobs := uadd (unusedBlobs info) 1 |>,
       stats <| Size := s <| ss_Unused := uadd (ss_Unused s) size |> |>
             <| Blobs := b <| bs_Unused := uadd (bs_Unused b) 1 |> |>) in
  let info := info <| uncompressed := uncompressed info || negb (IsCompressed (pb_Blob pb)) |> in
  Ok (2 <=? duplicateCount, <[pb_Pack pb := info]> packs, stats).

(** One entry of the second walk: a duplicate becomes used or stays unused. *)
Definition select_blob (mi : MasterIndex) (st : AssociatedSet Z * gmap ID packInfo * PruneStats) (pb : PackedBlob)
  : result (AssociatedSet Z * gmap ID packInfo * PruneStats) :=
  let '(used, packs, stats) := st in
  let! count := Get mi used (handle pb) in
  match count with
  | None => Ok st
  | Some count =>
      if count =? 1 then Ok st
      else
        let ip := default zero_info (packs !! pb_Pack pb) in
        let size := b_Length (pb_Blob pb) in
        if (0 <? usedBlobs ip) || (duplicateBlobs ip =? unusedBlobs ip) || (count =? 0) then
          let ip := ip <| usedSize := uadd (usedSize ip) size |>
                       <| usedBlobs := uadd (usedBlobs ip) 1 |>
                       <| unusedSize := usub (unusedSize ip) size |>
                       <| unusedBlobs := usub (unusedBlobs ip) 1 |> in
          let s := Size stats in
          let b := Blobs stats in
          let stats :=
            stats <| Size := s <| ss_Used := uadd (ss_Used s) size |> <| ss_Duplicate := usub (ss_Duplicate s) size |> |>
                  <| Blobs := b <| bs_Used := uadd (bs_Used b) 1 |> <| bs_Duplicate := usub (bs_Duplicate b) 1 |> |> in
          let! used := Set_ mi used (handle pb) 1 in
          Ok (used, <[pb_Pack pb := ip]> packs, stats)
        else
          let count := count - 1 in
          let count := if count =? 1 then 0 else count in
          let! used := Set_ mi used (handle pb) count in
          Ok (used, <[pb_Pack pb := ip]> packs, stats)
  end.

Definition packInfoFromIndex (mi : MasterIndex) (used : AssociatedSet Z) (stats : PruneStats)
  : result (AssociatedSet Z * gmap ID packInfo * PruneStats) :=
  let! used := countUsedBlobOccurrences mi used in
  do! validateUsedBlobs mi used;
  let! sz := PackSizes mi true in
  let indexPack := (fun hdrSize => zero_info <| tpe := NumBlobTypes |> <| usedSize := hdrSize |>) <$> sz in
  let! (hasDuplicates, indexPack, stats) :=
    ListBlobs mi (fun '(hasDuplicates, packs, stats) pb =>
      let! (duplicate, packs, stats) := accountIndexedBlob mi used packs stats pb in
      Ok ((duplicate || hasDuplicates) : bool, packs, stats)) (false, indexPack, stats) in
  let! (used, indexPack, stats) :=
    if hasDuplicates : bool then ListBlobs mi (select_blob mi) (used, indexPack, stats)
    else Ok (used, indexPack, stats) in
  let! all := All mi used in
  do! guard (existsb (fun '(_, count) => negb (count =? 1)) all) "internal error during blob selection";
  Ok (used, indexPack, stats).

(** ** What happens to each pack *)

Definition MinPackSize : Z := 4 * 1024 * 1024.

Definition calculateTargetPacksize (opts : PruneOptions) (indexPack : gmap ID packInfo) : Z :=
  let sizes := (fun '(_, ip) => uadd (usedSize ip) (unusedSize ip)) <$> map_to_list indexPack in
  let targetPackSize :=
    match sizes with
    | [] => 0
    | _ =>
        let toSort := merge_sort Z.le sizes in
        let index := zlen sizes * 3 / 100 in
        wrap_u 64 (Z.max MinPackSize (default 0 (toSort !! Z.to_nat index)) * 4) / 5
    end in
  if 0 <? SmallPackBytes opts then SmallPackBytes opts else targetPackSize.

(** The fields of [packActionState] that change. *)
Record packActionState := mkState {
  st_indexPack : gmap ID packInfo;
  st_stats : PruneStats;
  st_removePacksFirst : gset ID;
  st_removePacks : gset ID;
  repackCandidates : list packInfoWithID;
  repackSmallCandidates : list packInfoWithID }.

Definition count_use (p : packInfo) (stats : PruneStats) : PruneStats :=
  let k := Packs_ stats in
  if usedBlobs p =? 0 then stats <| Packs_ := k <| ks_Unused := uadd (ks_Unused k) 1 |> |>
  else if unusedBlobs p =? 0 then stats <| Packs_ := k <| ks_Used := uadd (ks_Used k) 1 |> |>
  else stats <| Packs_ := k <| ks_PartlyUsed := uadd (ks_PartlyUsed k) 1 |> |>.

Definition count_removed (p : packInfo) (stats : PruneStats) : PruneStats :=
  let b := Blobs stats in
  let s := Size stats in
  stats <| Blobs := b <| bs_Remove := uadd (bs_Remove b) (unusedBlobs p) |> |>
        <| Size := s <| ss_Remove := uadd (ss_Remove s) (unusedSize p) |> |>.

Definition count_kept (n : Z) (stats : PruneStats) : PruneStats :=
  let k := Packs_ stats in stats <| Packs_ := k <| ks_Keep := uadd (ks_Keep k) n |> |>.

Definition processPack (opts : PruneOptions) (repoVersion targetPackSize : Z) (state : packActionState)
    (file : ID * Z) : result packActionState :=
  let (id, packSize) := file in
  match st_indexPack state !! id with
  | None =>
      let s := Size (st_stats state) in
      Ok (state <| st_removePacksFirst := {[id]} ∪ st_removePacksFirst state |>
                <| st_stats := (st_stats state) <| Size := s <| ss_Unref := uadd (ss_Unref s) (wrap_u 64 packSize) |> |> |>)
  | Some p =>
      do! guard (negb (uadd (unusedSize p) (usedSize p) =? wrap_u 64 packSize) && negb (usedBlobs p =? 0))
        ErrSizeNotMatching;
      let stats := count_use p (st_stats state) in
      let stats :=
        if uncompressed p then
          let s := Size stats in
          stats <| Size := s <| ss_Uncompressed := uadd (ss_Uncompressed s) (uadd (unusedSize p) (usedSize p)) |> |>
        else stats in
      let must := (2 <=? repoVersion) && ((tpe p =? TreeBlob) || RepackUncompressed opts) && uncompressed p in
      let candidate := mkCandidate id p must in
      let state :=
        if usedBlobs p =? 0 then
          state <| st_removePacks := {[id]} ∪ st_removePacks state |> <| st_stats := count_removed p stats |>
        else if RepackCacheableOnly opts && (tpe p =? DataBlob) then
          state <| st_stats := count_kept 1 stats |>
        else if RepackAll opts && negb (usedBlobs p =? 0) then
          state <| st_stats := stats |> <| repackCandidates := repackCandidates state ++ [candidate] |>
        else if (unusedBlobs p =? 0) && negb (tpe p =? InvalidBlob) && negb must then
          if wrap_i 64 targetPackSize <=? packSize then state <| st_stats := count_kept 1 stats |>
          else state <| st_stats := stats |> <| repackSmallCandidates := repackSmallCandidates state ++ [candidate] |>
        else state <| st_stats := stats |> <| repackCandidates := repackCandidates state ++ [candidate] |> in
      Ok (state <| st_indexPack := delete id (st_indexPack state) |>)
  end.

(** The loop of [resolveMissingPacks]: a missing pack that holds nothing in use. *)
Definition ignore_pack (st : gset ID * PruneStats * gmap ID packInfo) (entry : ID * packInfo)
  : gset ID * PruneStats * gmap ID packInfo :=
  let '(ignore, stats, indexPack) := st in
  let (id, p) := entry in
  if usedBlobs p =? 0 then ({[id]} ∪ ignore, count_removed p stats, delete id indexPack) else st.

Definition resolveMissingPacks (indexPack : gmap ID packInfo) (stats : PruneStats) : result (gset ID * PruneStats) :=
  let '(ignore, stats, indexPack) := foldl ignore_pack (∅, stats, indexPack) (map_to_list indexPack) in
  do! guard (negb (bool_decide (indexPack = ∅))) ErrPacksMissing;
  Ok (ignore, stats).

Definition includeSmallCandidates (state : packActionState) : packActionState :=
  if zlen (repackSmallCandidates state) <? 10
  then state <| st_stats := count_kept (zlen (repackSmallCandidates state)) (st_stats state) |>
  else state <| repackCandidates := repackCandidates state ++ repackSmallCandidates state |>.

Definition total_size (p : packInfo) : Z := uadd (unusedSize p) (usedSize p).

(** The order of [sortRepackCandidates]. *)
Definition candidate_less (targetPackSize : Z) (ci cj : packInfoWithID) : bool :=
  let pi := c_info ci in
  let pj := c_info cj in
  if negb (tpe pi =? DataBlob) && (tpe pj =? DataBlob) then true
  else if negb (tpe pj =? DataBlob) && (tpe pi =? DataBlob) then false
  else if (total_size pi <? targetPackSize) && (targetPackSize <=? total_size pj) then true
  else if (total_size pj <? targetPackSize) && (targetPackSize <=? total_size pi) then false
  else wrap_u 64 (unusedSize pj * usedSize pi) <? wrap_u 64 (unusedSize pi * usedSize pj).

Definition repack (set : gset ID) (stats : PruneStats) (c : packInfoWithID) : gset ID * PruneStats :=
  let p := c_info c in
  let b := Blobs stats in
  let s := Size stats in
  ({[c_ID c]} ∪ set,
   stats <| Blobs := b <| bs_Repack := uadd (bs_Repack b) (uadd (unusedBlobs p) (usedBlobs p)) |>
                       <| bs_Repackrm := uadd (bs_Repackrm b) (unusedBlobs p) |> |>
         <| Size := s <| ss_Repack := uadd (ss_Repack s) (total_size p) |>
                      <| ss_Repackrm := uadd (ss_Repackrm s) (unusedSize p) |>
                      <| ss_Uncompressed := if uncompressed p then usub (ss_Uncompressed s) (total_size p) else ss_Uncompressed s |> |>).

Definition remaining_unused (s : SizeStats) : Z :=
  usub (usub (uadd (ss_Duplicate s) (ss_Unused s)) (ss_Remove s)) (ss_Repackrm s).

(** One candidate of the loop of [selectRepackPacks]. *)
Definition select_pack (opts : PruneOptions) (targetPackSize maxUnusedSizeAfter : Z)
    (st : gset ID * PruneStats) (c : packInfoWithID) : gset ID * PruneStats :=
  let (set, stats) := st in
  let s := Size stats in
  let p := c_info c in
  let reachedUnusedSizeAfter := remaining_unused s <? maxUnusedSizeAfter in
  let reachedRepackSize := MaxRepackBytes opts <=? uadd (uadd (ss_Repack s) (unusedSize p)) (usedSize p) in
  let packIsLargeEnough := targetPackSize <=? total_size p in
  if reachedRepackSize then (set, count_kept 1 stats)
  else if negb (tpe p =? DataBlob) || mustCompress c then repack set stats c
  else if reachedUnusedSizeAfter && packIsLargeEnough then (set, count_kept 1 stats)
  else repack set stats c.

Definition selectRepackPacks (opts : PruneOptions) (targetPackSize : Z) (candidates : list packInfoWithID)
    (stats : PruneStats) : gset ID * PruneStats :=
  foldl (select_pack opts targetPackSize (MaxUnusedBytes opts (ss_Used (Size stats)))) (∅, stats) candidates.

(** [sort.Slice] is not stable and its algorithm is not part of its documentation:
    the sort is a parameter, of which the documentation promises a permutation. *)
Section Plan.
Context (sort_Slice : (packInfoWithID -> packInfoWithID -> bool) -> list packInfoWithID -> list packInfoWithID).

Definition sortRepackCandidates (candidates : list packInfoWithID) (targetPackSize : Z) : list packInfoWithID :=
  sort_Slice (candidate_less targetPackSize) candidates.

Definition decidePackAction (opts : PruneOptions) (repo : Repository) (indexPack : gmap ID packInfo) (stats : PruneStats)
  : result PrunePlan :=
  let targetPackSize := calculateTargetPacksize opts indexPack in
  let state := mkState indexPack stats ∅ ∅ [] [] in
  let! files := repo_List repo in
  let! state := each (processPack opts (repo_Version repo) targetPackSize) state files in
  let! (ignore, stats) := resolveMissingPacks (st_indexPack state) (st_stats state) in
  let state := includeSmallCandidates (state <| st_stats := stats |>) in
  let candidates := sortRepackCandidates (repackCandidates state) targetPackSize in
  let (set, stats) := selectRepackPacks opts targetPackSize candidates (st_stats state) in
  let k := Packs_ stats in
  let stats := stats <| Packs_ := k <| ks_Unref := Z.of_nat (base.size (st_removePacksFirst state)) |>
                                    <| ks_Repack := Z.of_nat (base.size set) |>
                                    <| ks_Remove := Z.of_nat (base.size (st_removePacks state)) |> |> in
  let stats := if repo_Version repo <? 2 then stats <| Size := (Size stats) <| ss_Uncompressed := 0 |> |> else stats in
  Ok (mkPrunePlan (st_removePacksFirst state) set None (st_removePacks state) ignore stats opts).

(** The blobs that packs which stay have already are not kept by the repack. *)
Definition drop_kept (mi : MasterIndex) (plan : PrunePlan) (keep : AssociatedSet Z) (pb : PackedBlob)
  : result (AssociatedSet Z) :=
  if bool_decide (pb_Pack pb ∈ removePacks plan) || bool_decide (pb_Pack pb ∈ repackPacks plan) then Ok keep
  else Delete mi keep (handle pb).

Definition totals (stats : PruneStats) : PruneStats :=
  let b := Blobs stats in
  let b := b <| bs_Total := uadd (uadd (bs_Used b) (bs_Unused b)) (bs_Duplicate b) |> in
  let b := b <| bs_RemoveTotal := uadd (bs_Remove b) (bs_Repackrm b) |> in
  let b := b <| bs_Remain := usub (bs_Total b) (bs_RemoveTotal b) |> in
  let s := Size stats in
  let s := s <| ss_Total := uadd (uadd (uadd (ss_Used s) (ss_Duplicate s)) (ss_Unused s)) (ss_Unref s) |> in
  let s := s <| ss_RemoveTotal := uadd (uadd (ss_Remove s) (ss_Repackrm s)) (ss_Unref s) |> in
  let s := s <| ss_Remain := usub (ss_Total s) (ss_RemoveTotal s) |> in
  let s := s <| ss_RemainUnused := remaining_unused s |> in
  let k := Packs_ stats in
  let k := k <| ks_Total := uadd (uadd (uadd (ks_Used k) (ks_PartlyUsed k)) (ks_Unused k)) (ks_Unref k) |> in
  let k := k <| ks_RemoveTotal := uadd (ks_Unref k) (ks_Remove k) |> in
  mkPruneStats b s k.

(** [getUsedBlobs] inserts handles into the set it is given, or fails. *)
Definition PlanPrune (opts : PruneOptions) (repo : Repository) (getUsedBlobs : result (list BlobHandle))
  : result PrunePlan :=
  let mi := repo_idx repo in
  do! guard (repo_SlateDB repo) "prune is disabled for SlateDB-authoritative repositories; use 'vaultic index gc' instead";
  let opts := if UnsafeRecovery opts then opts <| MaxRepackBytes := 0 |> else opts in
  do! guard (repo_Connections repo <? 2) "prune requires a backend connection limit of at least two";
  do! guard ((repo_Version repo <? 2) && RepackUncompressed opts) "compression requires at least repository format version 2";
  do! guard (repo_PackSize repo <? SmallPackBytes opts) "repack-smaller-than exceeds repository packsize";
  let! used := NewAssociatedSet 0 mi in
  let! handles := getUsedBlobs in
  let! used := each (Insert_ 0 mi) used handles in
  let! (keep, indexPack, stats) := packInfoFromIndex mi used zero_stats in
  let opts :=
    match MaxRepackPercent opts with
    | Some percent =>
        if 0 <? ss_Total (Size stats) then
          let cap := percent (ss_Total (Size stats)) in
          if cap <? MaxRepackBytes opts then opts <| MaxRepackBytes := cap |> else opts
        else opts
    | None => opts
    end in
  let! plan := decidePackAction opts repo indexPack stats in
  let! keep :=
    if negb (bool_decide (repackPacks plan = ∅)) then
      let! keep := ListBlobs mi (drop_kept mi plan) keep in Ok (Some keep)
    else Ok None in
  Ok (plan <| keepBlobs := keep |> <| plan_stats := totals (plan_stats plan) |> <| plan_opts := opts |>).
End Plan.

(** ** Facts about the plan *)

Module PruneTheory.
Import IndexTheory IndexProps MasterTheory MasterProps AssociatedTheory.

(** How often a blob occurs, and what belongs to a pack. *)
Definition occurrences (bh : BlobHandle) (l : list PackedBlob) : Z := zlen (filter (fun pb => handle pb = bh) l).
Definition blobs_in (p : ID) (l : list PackedBlob) : list PackedBlob := filter (fun pb => pb_Pack pb = p) l.
Definition blob_bytes (l : list PackedBlob) : Z := foldr (fun pb n => b_Length (pb_Blob pb) + n) 0 l.
Definition entries_size (l : list PackedBlob) : Z :=
  foldr (fun pb n => CalculateEntrySize (IsCompressed (pb_Blob pb)) + n) 0 l.

Lemma blob_bytes_app a b : blob_bytes (a ++ b) = blob_bytes a + blob_bytes b.
Proof. unfold blob_bytes. rewrite foldr_app. induction a as [|pb a IH]; cbn [foldr]; [done|rewrite IH; lia]. Qed.

Lemma blobs_in_app p a b : blobs_in p (a ++ b) = blobs_in p a ++ blobs_in p b.
Proof. apply filter_app. Qed.

Lemma blobs_in_one p pb : blobs_in p [pb] = if decide (pb_Pack pb = p) then [pb] else [].
Proof. unfold blobs_in. rewrite filter_cons, filter_nil. done. Qed.

Lemma occurrences_cons bh pb l :
  occurrences bh (pb :: l) = (if decide (handle pb = bh) then 1 else 0) + occurrences bh l.
Proof. unfold occurrences. rewrite filter_cons. case_decide; rewrite ?zlen_cons; lia. Qed.

Lemma occurrences_nonneg bh l : 0 <= occurrences bh l.
Proof. apply zlen_nonneg. Qed.

Lemma occurrences_pos bh l : 0 < occurrences bh l -> exists pb, pb ∈ l /\ handle pb = bh.
Proof.
  intros H. unfold occurrences in H. destruct (filter _ l) as [|pb l'] eqn:E; [done|]. exists pb.
  assert (In : pb ∈ filter (fun pb => handle pb = bh) l) by (rewrite E; apply list_elem_of_here).
  apply list_elem_of_filter in In. tauto.
Qed.

(** Sums of machine integers. *)
Ltac wrap_sums := unfold uadd, usub, wrap_u; Z.to_euclidean_division_equations; lia.

(** Compute the fields of updated records. *)
Ltac fields :=
  cbv [apply_update constant usedBlobs unusedBlobs duplicateBlobs usedSize unusedSize tpe uncompressed Blobs Size Packs_
    bs_Used bs_Unused bs_Duplicate bs_Total bs_Repack bs_Repackrm bs_Remove bs_RemoveTotal bs_Remain
    ss_Used ss_Duplicate ss_Unused ss_Unref ss_Uncompressed ss_Total ss_Repack ss_Repackrm ss_Remove ss_RemoveTotal ss_Remain
    ss_RemainUnused ks_Used ks_Unused ks_PartlyUsed ks_Unref ks_Total ks_Keep ks_Repack ks_Remove ks_RemoveTotal
    st_indexPack st_stats st_removePacksFirst st_removePacks repackCandidates repackSmallCandidates].

Lemma uadd_wrap_l a b : uadd (wrap_u 64 a) b = wrap_u 64 (a + b).
Proof. unfold uadd, wrap_u. apply Zplus_mod_idemp_l. Qed.

Lemma uadd_range a b : 0 <= uadd a b < 2 ^ 64.
Proof. unfold uadd, wrap_u. apply Z.mod_pos_bound. lia. Qed.

Lemma uadd_comm a b : uadd a b = uadd b a.
Proof. unfold uadd. f_equal. lia. Qed.

Lemma uadd_shift a b c : uadd (uadd a c) b = uadd (uadd a b) c.
Proof. unfold uadd, wrap_u. rewrite !Zplus_mod_idemp_l. f_equal. lia. Qed.

Lemma uadd_shift_r a b c : uadd a (uadd b c) = uadd (uadd a b) c.
Proof. rewrite (uadd_comm a), (uadd_shift b), (uadd_comm b). done. Qed.

(** Moving an amount from one counter to another leaves their sum. *)
Lemma uadd_move a b c : uadd (usub a c) (uadd b c) = uadd a b.
Proof.
  unfold uadd at 1, usub, uadd, wrap_u. rewrite <- Zplus_mod. f_equal. lia.
Qed.

Lemma each_app {S A} (f : S -> A -> result S) s l l' :
  each f s (l ++ l') = let! s := each f s l in each f s l'.
Proof. revert s. induction l as [|a l IH]; intros s; [done|]. cbn. destruct (f s a); cbn; [apply IH|done]. Qed.

(** A walk over a list with an invariant on the elements walked so far. *)
Lemma each_walk {S A} (f : S -> A -> result S) (P : list A -> S -> Prop) l s :
  (forall walked a rest s, l = walked ++ a :: rest -> P walked s -> exists s', f s a = Ok s' /\ P (walked ++ [a]) s') ->
  P [] s -> exists s', each f s l = Ok s' /\ P l s'.
Proof.
  intros Step H. assert (G : forall rest walked s, l = walked ++ rest -> P walked s -> exists s', each f s rest = Ok s' /\ P l s').
  { induction rest as [|a rest IH]; intros walked t E Ht; [exists t; rewrite app_nil_r in E; by subst|].
    destruct (Step walked a rest t E Ht) as (t1 & E1 & H1). cbn. rewrite E1. cbn.
    apply (IH (walked ++ [a])); [by rewrite <- app_assoc|done]. }
  by apply (G l []).
Qed.

Lemma each_inv {S A} (f : S -> A -> result S) (P : list A -> S -> Prop) (Q : A -> Prop) l s :
  (forall walked a s, Q a -> P walked s -> exists s', f s a = Ok s' /\ P (walked ++ [a]) s') ->
  Forall Q l -> P [] s -> exists s', each f s l = Ok s' /\ P l s'.
Proof.
  intros Step F. apply each_walk. intros walked a rest t -> Ht. apply Step; [|done].
  apply Forall_app in F as [_ F]. by apply Forall_cons in F as [? _].
Qed.

(** The same for a walk that may fail: what holds of its result. *)
Lemma each_ok_inv {S A} (f : S -> A -> result S) (P : list A -> S -> Prop) l s s' :
  (forall done a s s', a ∈ l -> P done s -> f s a = Ok s' -> P (done ++ [a]) s') ->
  P [] s -> each f s l = Ok s' -> P l s'.
Proof.
  intros Step. change (P l s') with (P ([] ++ l) s'). generalize (@nil A) as walked. revert s.
  induction l as [|a l IH]; intros s walked H E; cbn in E; [injection E as <-; by rewrite app_nil_r|].
  destruct (f s a) as [s1|] eqn:E1; [|done]. cbn in E.
  change (a :: l) with ([a] ++ l). rewrite app_assoc. apply (IH) with s1; [|by eapply Step; [apply list_elem_of_here|..]|done].
  intros d b t t' Hb. apply Step. by apply list_elem_of_further.
Qed.

Section Index.
Context (mi : MasterIndex) (bss : list (Z -> list PackedBlob)) (bs : Z -> list PackedBlob).
Context (M : master mi bss) (Hd : head bss = Some bs).
Context (L : list PackedBlob) (EL : MasterValues mi = Ok L).

Lemma listed_types : Forall (fun pb => type_ok (bh_Type (handle pb))) L.
Proof.
  apply Forall_forall. intros pb Hp. destruct (values_in_spec (mi_idx mi) bss) as (pbs & E & G); [apply M|].
  unfold MasterValues in EL. rewrite E in EL. injection EL as ->. apply G in Hp as (b & t & Hb & Ty & H).
  destruct M as [_ F]. apply list_elem_of_lookup in Hb as [i Hi]. destruct (Forall2_lookup_r _ _ _ _ _ F Hi) as (idx & _ & R).
  unfold handle. by rewrite (indexes_type idx b t pb (reachable_indexes _ _ R) Ty H).
Qed.

Lemma ListBlobs_spec {S} (f : S -> PackedBlob -> result S) s : ListBlobs mi f s = each f s L.
Proof. unfold ListBlobs. by rewrite EL. Qed.

(** What a set of counters holds. *)
Abbreviation value := (value_at bs).
Definition counters (a : AssociatedSet Z) (f : BlobHandle -> option Z) : Prop :=
  well_formed bs a /\ forall bh, type_ok (bh_Type bh) -> value a bh = f bh.

Lemma Get_counters a f bh : counters a f -> type_ok (bh_Type bh) -> Get mi a bh = Ok (f bh).
Proof. intros [W V] Ty. by rewrite (Get_spec mi bss bs a bh M Hd W Ty), V. Qed.

Lemma Set_counters a f bh v :
  counters a f -> type_ok (bh_Type bh) ->
  exists a', Set_ mi a bh v = Ok a' /\ counters a' (fun bh' => if decide (bh = bh') then Some v else f bh').
Proof.
  intros [W V] Ty. destruct (Set_spec mi bss bs a bh v M Hd W Ty) as (a' & E & W' & V'). exists a'. split; [done|].
  split; [done|]. intros bh' Ty'. rewrite V', V by done. done.
Qed.

Lemma Delete_counters a f bh :
  counters a f -> type_ok (bh_Type bh) ->
  exists a', Delete mi a bh = Ok a' /\ counters a' (fun bh' => if decide (bh = bh') then None else f bh').
Proof.
  intros [W V] Ty. destruct (Delete_spec mi bss bs a bh M Hd W Ty) as (a' & E & W' & V'). exists a'. split; [done|].
  split; [done|]. intros bh' Ty'. rewrite V', V by done. done.
Qed.

Lemma All_counters a f :
  counters a f ->
  exists all, All mi a = Ok all /\ forall bh v, (bh, v) ∈ all <-> type_ok (bh_Type bh) /\ f bh = Some v.
Proof.
  intros [W V]. destruct (All_spec mi bss bs a M Hd W) as (all & E & G). exists all. split; [done|]. intros bh v.
  rewrite G. split; intros [Ty H]; (split; [done|]); by rewrite V in * by done.
Qed.

Lemma counters_ext a f g :
  counters a f -> (forall bh, type_ok (bh_Type bh) -> f bh = g bh) -> counters a g.
Proof. intros [W V] E. split; [done|]. intros bh Ty. by rewrite V, E. Qed.

(** *** The set of blobs in use *)

Lemma used_set handles :
  Forall (fun bh => type_ok (bh_Type bh)) handles ->
  exists a0 a, NewAssociatedSet 0 mi = Ok a0 /\ each (Insert_ 0 mi) a0 handles = Ok a
    /\ counters a (fun bh => if decide (bh ∈ handles) then Some 0 else None).
Proof.
  intros F. destruct (New_spec 0 mi bss bs M Hd) as (a0 & E0 & W0 & V0). exists a0.
  destruct (each_inv (Insert_ 0 mi)
    (fun walked a => counters a (fun bh => if decide (bh ∈ walked) then Some 0 else None))
    (fun bh => type_ok (bh_Type bh)) handles a0) as (a & E & C); [|done| |by exists a].
  - intros walked bh a Ty C. unfold Insert_. destruct (Set_counters a _ bh 0 C Ty) as (a' & -> & C').
    exists a'. split; [done|]. apply (counters_ext _ _ _ C'). intros bh' _.
    destruct (decide (bh = bh')) as [<-|N].
    + rewrite decide_True; [done|]. apply elem_of_app. right. by apply list_elem_of_singleton.
    + apply decide_ext. rewrite elem_of_app, list_elem_of_singleton. split; [by left|by intros [?|?]].
  - split; [done|]. intros bh Ty. rewrite V0 by done. by rewrite decide_False by apply not_elem_of_nil.
Qed.

(** *** The first walk counts the occurrences *)

Lemma count_spec a f :
  counters a f -> (forall bh v, f bh = Some v -> 0 <= v <= 255) ->
  exists a', countUsedBlobOccurrences mi a = Ok a'
    /\ counters a' (fun bh => (fun v => Z.min 255 (v + occurrences bh L)) <$> f bh).
Proof.
  intros C B. unfold countUsedBlobOccurrences. rewrite ListBlobs_spec.
  apply (each_inv (count_blob mi)
    (fun walked a => counters a (fun bh => (fun v => Z.min 255 (v + occurrences bh walked)) <$> f bh))
    (fun pb => type_ok (bh_Type (handle pb)))); [|exact listed_types|].
  - clear a C. intros walked pb a Ty C. unfold count_blob. rewrite (Get_counters _ _ _ C Ty). cbn [rbind].
    assert (App : forall bh, occurrences bh (walked ++ [pb]) = occurrences bh walked + if decide (handle pb = bh) then 1 else 0).
    { intros bh. unfold occurrences. rewrite filter_app, zlen_app. f_equal. rewrite filter_cons, filter_nil. by case_decide. }
    destruct (f (handle pb)) as [v|] eqn:Ev; cbn [fmap option_fmap option_map].
    + destruct (Set_counters a _ (handle pb) (if Z.min 255 (v + occurrences (handle pb) walked) <? 255
        then Z.min 255 (v + occurrences (handle pb) walked) + 1 else Z.min 255 (v + occurrences (handle pb) walked)) C Ty) as (a' & -> & C').
      exists a'. split; [done|]. apply (counters_ext _ _ _ C'). intros bh _. rewrite App.
      destruct (decide (handle pb = bh)) as [<-|N]; [|by rewrite Z.add_0_r]. rewrite Ev. cbn. f_equal.
      destruct (Z.ltb_spec (Z.min 255 (v + occurrences (handle pb) walked)) 255); lia.
    + exists a. split; [done|]. apply (counters_ext _ _ _ C). intros bh _. rewrite App.
      destruct (decide (handle pb = bh)) as [<-|N]; [by rewrite Ev|by rewrite Z.add_0_r].
  - apply (counters_ext _ _ _ C). intros bh _. destruct (f bh) as [v|] eqn:Ev; [|done]. specialize (B bh v Ev).
    change (occurrences bh []) with 0. cbn. f_equal. lia.
Qed.

Lemma validate_spec a f :
  counters a f ->
  validateUsedBlobs mi a = Ok tt <-> forall bh, type_ok (bh_Type bh) -> f bh <> Some 0.
Proof.
  intros C. unfold validateUsedBlobs. destruct (All_counters a f C) as (all & -> & G). cbn [rbind].
  rewrite guard_ok, <- not_true_iff_false, existsb_exists. split.
  - intros N bh Ty E. apply N. exists (bh, 0). split; [|done]. by apply list_elem_of_In, G.
  - intros H ([bh v] & Hin & E%Z.eqb_eq). subst v. apply list_elem_of_In, G in Hin as [Ty E]. by apply (H bh).
Qed.

Lemma validate_err a f :
  counters a f -> validateUsedBlobs mi a <> Ok tt -> validateUsedBlobs mi a = Err ErrIndexIncomplete.
Proof.
  intros C. unfold validateUsedBlobs. destruct (All_counters a f C) as (all & -> & _). cbn [rbind].
  unfold guard. by destruct (existsb _ all).
Qed.

(** *** The sizes of the packs *)

Definition pack_bytes (onlyHdr : bool) (l : list PackedBlob) : Z :=
  headerSize + entries_size l + (if onlyHdr then 0 else blob_bytes l).

Lemma PackSizes_spec onlyHdr :
  exists sz, PackSizes mi onlyHdr = Ok sz
    /\ forall p, sz !! p = match blobs_in p L with [] => None | l => Some (pack_bytes onlyHdr l) end.
Proof.
  unfold PackSizes. rewrite ListBlobs_spec.
  apply (each_inv _ (fun walked sz => forall p, sz !! p = match blobs_in p walked with [] => None | l => Some (pack_bytes onlyHdr l) end)
    (fun _ => True)); [|by apply Forall_forall|done].
  intros walked pb sz _ G. eexists. split; [done|]. intros p. rewrite blobs_in_app, blobs_in_one. unfold size_blob.
  destruct (decide (pb_Pack pb = p)) as [<-|N]; [|by rewrite lookup_insert_ne, app_nil_r].
  rewrite lookup_insert_eq, G. generalize (blobs_in (pb_Pack pb) walked). intros l.
  assert (Q : forall l, pack_bytes onlyHdr (l ++ [pb]) = (if onlyHdr then pack_bytes onlyHdr l else pack_bytes onlyHdr l + b_Length (pb_Blob pb))
    + CalculateEntrySize (IsCompressed (pb_Blob pb))).
  { intros l0. unfold pack_bytes. rewrite blob_bytes_app. unfold entries_size. rewrite foldr_app.
    assert (Sh : forall l n, foldr (fun pb n => CalculateEntrySize (IsCompressed (pb_Blob pb)) + n) n l
      = foldr (fun pb n => CalculateEntrySize (IsCompressed (pb_Blob pb)) + n) 0 l + n).
    { induction l1 as [|x l1 IH]; intros n; cbn [foldr]; [lia|]. rewrite IH. lia. }
    rewrite Sh. cbn [foldr blob_bytes]. destruct onlyHdr; lia. }
  destruct l as [|x l]; [specialize (Q [])|specialize (Q (x :: l))]; cbn [app] in *; rewrite Q;
    cbn [from_option id default]; destruct onlyHdr; done.
Qed.

(** *** The second walk accounts for the blobs *)

(** The fields of an info after one more blob whose counter is [c]. *)
Lemma account_step a f packs stats pb :
  counters a f -> type_ok (bh_Type (handle pb)) ->
  let c := default 0 (f (handle pb)) in
  let info := default zero_info (packs !! pb_Pack pb) in
  exists info' stats',
    accountIndexedBlob mi a packs stats pb = Ok (2 <=? c, <[pb_Pack pb := info']> packs, stats')
    /\ usedBlobs info' = (if c =? 1 then uadd (usedBlobs info) 1 else usedBlobs info)
    /\ uadd (unusedBlobs info') (usedBlobs info') = uadd (uadd (unusedBlobs info) (usedBlobs info)) 1
    /\ total_size info' = uadd (total_size info) (b_Length (pb_Blob pb))
    /\ (let b := Blobs stats in let b' := Blobs stats' in
        uadd (uadd (bs_Used b') (bs_Unused b')) (bs_Duplicate b') = uadd (uadd (uadd (bs_Used b) (bs_Unused b)) (bs_Duplicate b)) 1)
    /\ ss_Total (Size stats') = ss_Total (Size stats) /\ ss_Repack (Size stats') = ss_Repack (Size stats)
    /\ Packs_ stats' = Packs_ stats.
Proof.
  intros C Ty c info. unfold accountIndexedBlob. rewrite (Get_counters _ _ _ C Ty). cbn [rbind]. fold c info.
  set (info1 := if tpe info =? NumBlobTypes then _ else info).
  set (info2 := if negb (tpe info1 =? _) then _ else info1).
  assert (Same : usedBlobs info2 = usedBlobs info /\ unusedBlobs info2 = unusedBlobs info
    /\ usedSize info2 = usedSize info /\ unusedSize info2 = unusedSize info).
  { unfold info2, info1. destruct (tpe info =? NumBlobTypes), (negb _); done. }
  destruct Same as (S1 & S2 & S3 & S4). clearbody info2. clear info1.
  unfold total_size. rewrite <- S1, <- S2, <- S3, <- S4. clear S1 S2 S3 S4 info.
  destruct (Z.leb_spec 2 c) as [Hc|Hc]; [|destruct (Z.eqb_spec c 1) as [->|Nc]];
    try rewrite (proj2 (Z.eqb_neq c 1)) by lia; eexists _, _; (split; [reflexivity|]);
    destruct info2, stats as [[] [] []]; fields; repeat split; try reflexivity; wrap_sums.
Qed.

(** What the infos and the statistics hold after [walked], with at most [n] counts. *)
Record infos (n : Z) (walked : list PackedBlob) (packs : gmap ID packInfo) : Prop := {
  in_dom : forall p, is_Some (packs !! p) <-> blobs_in p L <> [];
  in_used : forall p info, packs !! p = Some info -> 0 <= usedBlobs info <= n;
  in_size : forall p info, packs !! p = Some info ->
    total_size info = wrap_u 64 (pack_bytes true (blobs_in p L) + blob_bytes (blobs_in p walked));
  in_blobs : forall p info, packs !! p = Some info ->
    uadd (unusedBlobs info) (usedBlobs info) = wrap_u 64 (zlen (blobs_in p walked)) }.

Record tallies (n : Z) (stats : PruneStats) : Prop := {
  ta_blobs : uadd (uadd (bs_Used (Blobs stats)) (bs_Unused (Blobs stats))) (bs_Duplicate (Blobs stats)) = wrap_u 64 n;
  ta_total : ss_Total (Size stats) = 0;
  ta_repack : ss_Repack (Size stats) = 0;
  ta_packs : Packs_ stats = Packs_ zero_stats }.

Definition in_use (packs : gmap ID packInfo) (p : ID) : Prop :=
  exists info, packs !! p = Some info /\ 0 < usedBlobs info.

Lemma blobs_in_listed pb : pb ∈ L -> blobs_in (pb_Pack pb) L <> [].
Proof.
  intros H E. assert (In : pb ∈ blobs_in (pb_Pack pb) L) by by apply list_elem_of_filter. rewrite E in In.
  by apply elem_of_nil in In.
Qed.

(** Packs stay in use when the info of one pack counts more. *)
Lemma in_use_insert packs p info info' :
  packs !! p = Some info -> usedBlobs info <= usedBlobs info' ->
  forall q, in_use packs q -> in_use (<[p := info']> packs) q.
Proof.
  intros E Le q (i & Ei & Hi). unfold in_use. destruct (decide (p = q)) as [<-|N].
  - exists info'. rewrite lookup_insert_eq. split; [done|]. rewrite E in Ei. injection Ei as <-. lia.
  - exists i. by rewrite lookup_insert_ne.
Qed.

Lemma uadd_one n : 0 <= n < 2 ^ 64 - 1 -> uadd n 1 = n + 1.
Proof. intros H. unfold uadd. apply wrap_u_small. unfold u_range. lia. Qed.

Definition accounting (cnt : BlobHandle -> option Z) (walked : list PackedBlob) (st : bool * gmap ID packInfo * PruneStats) : Prop :=
  let '(dup, packs, stats) := st in
  infos (zlen walked) walked packs /\ tallies (zlen walked) stats
  /\ (dup = false -> forall pb, pb ∈ walked -> default 0 (cnt (handle pb)) < 2)
  /\ (forall pb, pb ∈ walked -> cnt (handle pb) = Some 1 -> in_use packs (pb_Pack pb)).

Lemma account_walk a cnt walked pb st :
  counters a cnt -> zlen walked < 2 ^ 63 -> pb ∈ L -> accounting cnt walked st ->
  exists st', (let '(hasDuplicates, packs, stats) := st in
      let! (duplicate, packs, stats) := accountIndexedBlob mi a packs stats pb in
      Ok ((duplicate || hasDuplicates) : bool, packs, stats)) = Ok st'
    /\ accounting cnt (walked ++ [pb]) st'.
Proof.
  intros C Len Hpb. destruct st as [[dup packs] stats]. intros ([Dom Used Sz Bl] & [Tb Tt Tr Tp] & Du & Us).
  assert (Ty : type_ok (bh_Type (handle pb))) by by apply (proj1 (Forall_forall _ _) listed_types).
  destruct (proj2 (Dom (pb_Pack pb)) (blobs_in_listed pb Hpb)) as [info Ei].
  destruct (account_step a cnt packs stats pb C Ty) as (info' & stats' & -> & U & UB & TS & SB & ST & SR & SP).
  cbn [rbind]. eexists. split; [done|]. rewrite Ei in U, UB, TS. cbn [default from_option id] in U, UB, TS.
  pose proof (Used _ _ Ei) as Ui. pose proof (zlen_nonneg walked).
  assert (Z1 : zlen (walked ++ [pb]) = zlen walked + 1) by by rewrite zlen_app.
  assert (Le : usedBlobs info <= usedBlobs info' <= usedBlobs info + 1).
  { rewrite U. destruct (_ =? 1); [rewrite uadd_one by lia|]; lia. }
  assert (In1 : forall q, blobs_in q (walked ++ [pb]) = blobs_in q walked ++ (if decide (pb_Pack pb = q) then [pb] else [])).
  { intros q. by rewrite blobs_in_app, blobs_in_one. }
  split; [split|split; [split|split]].
  - intros p. destruct (decide (pb_Pack pb = p)) as [<-|N]; [rewrite lookup_insert_eq|rewrite lookup_insert_ne by done; apply Dom].
    split; [intros _; by apply blobs_in_listed|by eexists].
  - intros p i E. rewrite Z1. destruct (decide (pb_Pack pb = p)) as [<-|N]; [rewrite lookup_insert_eq in E; injection E as <-; lia|].
    rewrite lookup_insert_ne in E by done. specialize (Used p i E). lia.
  - intros q i E. rewrite In1, blob_bytes_app. destruct (decide (pb_Pack pb = q)) as [<-|N].
    + rewrite lookup_insert_eq in E. injection E as <-. rewrite TS, (Sz _ _ Ei), uadd_wrap_l. f_equal.
      change (blob_bytes [pb]) with (b_Length (pb_Blob pb) + 0). lia.
    + rewrite lookup_insert_ne in E by done. rewrite (Sz q i E). f_equal. change (blob_bytes []) with 0. lia.
  - intros q i E. rewrite In1, zlen_app. destruct (decide (pb_Pack pb = q)) as [<-|N].
    + rewrite lookup_insert_eq in E. injection E as <-. rewrite UB, (Bl _ _ Ei), uadd_wrap_l. done.
    + rewrite lookup_insert_ne in E by done. rewrite (Bl q i E). f_equal. change (zlen (@nil PackedBlob)) with 0. lia.
  - rewrite SB, Tb, uadd_wrap_l, Z1. done.
  - by rewrite ST.
  - by rewrite SR.
  - by rewrite SP.
  - intros [F%Z.leb_gt D]%orb_false_iff x [Hx| ->%list_elem_of_singleton]%elem_of_app; [by apply Du|done].
  - intros x [Hx| ->%list_elem_of_singleton]%elem_of_app Ex; [apply (in_use_insert _ _ _ _ Ei); [lia|by apply Us]|].
    exists info'. rewrite lookup_insert_eq. split; [done|]. rewrite U, Ex. cbn. rewrite uadd_one; lia.
Qed.

(** *** The third walk selects one occurrence of each duplicate *)

(** A blob has been selected, or enough of its occurrences are still to come. *)
Definition selection (f : BlobHandle -> option Z) (packs : gmap ID packInfo) (walked : list PackedBlob) (bh : BlobHandle) : Prop :=
  (f bh = Some 1 /\ exists pb, pb ∈ L /\ handle pb = bh /\ in_use packs (pb_Pack pb))
  \/ exists x, f bh = Some x /\ (x = 0 \/ 2 <= x <= 255)
     /\ (if x =? 0 then 1 else x) <= occurrences bh L - occurrences bh walked.

Definition selecting (cnt : BlobHandle -> option Z) (walked : list PackedBlob)
    (st : AssociatedSet Z * gmap ID packInfo * PruneStats) : Prop :=
  let '(used, packs, stats) := st in
  infos (zlen L + zlen walked) L packs /\ tallies (zlen L) stats
  /\ exists f, counters used f
     /\ forall bh, type_ok (bh_Type bh) ->
        match cnt bh with None => f bh = None | Some _ => selection f packs walked bh end.

Lemma infos_move n packs pb info :
  0 <= n < 2 ^ 64 - 1 -> infos n L packs -> packs !! pb_Pack pb = Some info ->
  let info' := info <| usedSize := uadd (usedSize info) (b_Length (pb_Blob pb)) |>
                    <| usedBlobs := uadd (usedBlobs info) 1 |>
                    <| unusedSize := usub (unusedSize info) (b_Length (pb_Blob pb)) |>
                    <| unusedBlobs := usub (unusedBlobs info) 1 |> in
  infos (n + 1) L (<[pb_Pack pb := info']> packs) /\ usedBlobs info < usedBlobs info'.
Proof.
  intros Hn [Dom Used Sz Bl] Ei info'. pose proof (Used _ _ Ei) as Ui.
  assert (U : usedBlobs info' = usedBlobs info + 1) by (apply uadd_one; lia). split; [|lia]. split.
  - intros p. rewrite <- Dom. destruct (decide (pb_Pack pb = p)) as [<-|N]; [rewrite lookup_insert_eq, Ei|by rewrite lookup_insert_ne].
    by split; eexists.
  - intros p i E. destruct (decide (pb_Pack pb = p)) as [<-|N]; [rewrite lookup_insert_eq in E; simplify_eq; lia|].
    rewrite lookup_insert_ne in E by done. specialize (Used p i E). lia.
  - intros p i E. destruct (decide (pb_Pack pb = p)) as [<-|N]; [|rewrite lookup_insert_ne in E by done; by apply Sz].
    rewrite lookup_insert_eq in E. injection E as <-. rewrite <- (Sz _ _ Ei). apply uadd_move.
  - intros p i E. destruct (decide (pb_Pack pb = p)) as [<-|N]; [|rewrite lookup_insert_ne in E by done; by apply Bl].
    rewrite lookup_insert_eq in E. injection E as <-. rewrite <- (Bl _ _ Ei). apply uadd_move.
Qed.

Lemma infos_weaken n n' walked packs : n <= n' -> infos n walked packs -> infos n' walked packs.
Proof. intros Le [Dom Used Sz Bl]. split; [done| |done|done]. intros p i E. specialize (Used p i E). lia. Qed.

Lemma selection_later f g packs packs' walked pb bh :
  selection f packs walked bh -> handle pb <> bh -> g bh = f bh ->
  (forall q, in_use packs q -> in_use packs' q) -> selection g packs' (walked ++ [pb]) bh.
Proof.
  intros S N E Mono. unfold selection. rewrite E.
  assert (Oc : occurrences bh (walked ++ [pb]) = occurrences bh walked).
  { unfold occurrences. rewrite filter_app, zlen_app, filter_cons_False, filter_nil by done. apply Z.add_0_r. }
  rewrite Oc. destruct S as [[F (x & Hx & Eh & U)]|S]; [left|by right]. split; [done|]. exists x. auto.
Qed.

Lemma occurrences_snoc walked pb : occurrences (handle pb) (walked ++ [pb]) = occurrences (handle pb) walked + 1.
Proof. unfold occurrences. by rewrite filter_app, zlen_app, filter_cons_True, filter_nil. Qed.

Lemma select_walk cnt walked pb st :
  zlen L < 2 ^ 62 -> zlen walked < 2 ^ 62 -> pb ∈ L -> selecting cnt walked st ->
  exists st', select_blob mi st pb = Ok st' /\ selecting cnt (walked ++ [pb]) st'.
Proof.
  intros LenL Len Hpb. destruct st as [[used packs] stats]. intros (In & Ta & f & C & S).
  assert (Ty : type_ok (bh_Type (handle pb))) by by apply (proj1 (Forall_forall _ _) listed_types).
  destruct (proj2 (in_dom _ _ _ In (pb_Pack pb)) (blobs_in_listed pb Hpb)) as [info Ei].
  pose proof (zlen_nonneg walked). pose proof (zlen_nonneg L).
  assert (Z1 : zlen L + zlen (walked ++ [pb]) = zlen L + zlen walked + 1) by (rewrite zlen_app; change (zlen [pb]) with 1; lia).
  unfold select_blob. rewrite (Get_counters _ _ _ C Ty). cbn [rbind]. pose proof (S _ Ty) as Sp.
  destruct (cnt (handle pb)) as [c|] eqn:Ec.
  2: { rewrite Sp. eexists. split; [done|]. split; [eapply infos_weaken; [|done]; lia|]. split; [done|]. exists f.
    split; [done|]. intros bh Tb. specialize (S bh Tb). destruct (cnt bh) eqn:Eb; [|done].
    apply (selection_later f f packs packs); [done|congruence|done|done]. }
  destruct Sp as [[E1 U1]|(x & Ex & Rx & Ox)].
  - rewrite E1. cbn [Z.eqb Pos.eqb]. eexists. split; [done|]. split; [eapply infos_weaken; [|done]; lia|]. split; [done|].
    exists f. split; [done|]. intros bh Tb. specialize (S bh Tb). destruct (cnt bh); [|done].
    destruct (decide (handle pb = bh)) as [<-|N]; [by left|]. by apply (selection_later f f packs packs).
  - rewrite Ex, Ei. cbn [default from_option id]. rewrite (proj2 (Z.eqb_neq x 1)) by lia.
    destruct (_ || _ || _) eqn:Sel.
    + destruct (Set_counters used f (handle pb) 1 C Ty) as (used' & -> & C'). cbn [rbind]. eexists. split; [done|].
      destruct (infos_move (zlen L + zlen walked) packs pb info) as [In' Lt]; [lia|done|done|]. split; [rewrite Z1; exact In'|].
      split; [by destruct Ta as [Tb Tt Tr Tp]; split; [rewrite <- Tb; destruct stats as [[] [] []]; fields; wrap_sums|..]|].
      eexists. split; [exact C'|]. intros bh Tb. specialize (S bh Tb). cbn beta.
      destruct (decide (handle pb = bh)) as [<-|N].
      * rewrite Ec. left. split; [by rewrite decide_True|]. exists pb. do 2 (split; [done|]). eexists.
        rewrite lookup_insert_eq. split; [done|]. pose proof (in_used _ _ _ In _ _ Ei). lia.
      * destruct (cnt bh); [|done]. apply (selection_later f _ packs); [done|done|by rewrite decide_False|].
        apply (in_use_insert _ _ _ _ Ei). lia.
    + apply orb_false_iff in Sel as [_ Nx%Z.eqb_neq].
      destruct (Set_counters used f (handle pb) (if x - 1 =? 1 then 0 else x - 1) C Ty) as (used' & -> & C'). cbn [rbind].
      rewrite insert_id by done. eexists. split; [done|]. split; [eapply infos_weaken; [|done]; lia|]. split; [done|].
      eexists. split; [exact C'|]. intros bh Tb. specialize (S bh Tb). cbn beta.
      destruct (decide (handle pb = bh)) as [<-|N].
      * rewrite Ec. right. eexists. split; [by rewrite decide_True|]. rewrite occurrences_snoc.
        rewrite (proj2 (Z.eqb_neq x 0)) in Ox by done. destruct (Z.eqb_spec (x - 1) 1); cbn [Z.eqb]; [split; [by left|lia]|].
        rewrite (proj2 (Z.eqb_neq (x - 1) 0)) by lia. split; [right|]; lia.
      * destruct (cnt bh); [|done]. apply (selection_later f _ packs); [done|done|by rewrite decide_False|done].
Qed.

(** What the planning knows about the packs and the blobs in use. *)
Record informed (handles : list BlobHandle) (keep : AssociatedSet Z) (packs : gmap ID packInfo) (stats : PruneStats) : Prop := {
  im_infos : infos (2 * zlen L) L packs;
  im_tallies : tallies (zlen L) stats;
  im_keep : counters keep (fun bh => if decide (bh ∈ handles) then Some 1 else None);
  im_used : forall bh, bh ∈ handles -> exists pb, pb ∈ L /\ handle pb = bh /\ in_use packs (pb_Pack pb) }.

Lemma initial_infos sz :
  (forall p, sz !! p = match blobs_in p L with [] => None | l => Some (pack_bytes true l) end) ->
  infos 0 [] ((fun hdrSize => zero_info <| tpe := NumBlobTypes |> <| usedSize := hdrSize |>) <$> sz).
Proof.
  intros G. split.
  - intros p. rewrite lookup_fmap, G. destruct (blobs_in p L); cbn; split; (done || by intros [? ?] || by eexists).
  - intros p info. rewrite lookup_fmap, G. destruct (blobs_in p L); [done|]. intros [= <-]. done.
  - intros p info. rewrite lookup_fmap, G. destruct (blobs_in p L) as [|pb l]; [done|]. intros [= <-].
    change (wrap_u 64 (0 + pack_bytes true (pb :: l)) = wrap_u 64 (pack_bytes true (pb :: l) + 0)). f_equal. lia.
  - intros p info. rewrite lookup_fmap, G. destruct (blobs_in p L) as [|pb l]; [done|]. intros [= <-]. done.
Qed.

(** All counters one: the sanity check. *)
Lemma sanity_spec a f :
  counters a f -> (forall bh v, type_ok (bh_Type bh) -> f bh = Some v -> v = 1) ->
  exists all, All mi a = Ok all /\ existsb (fun '(_, count) => negb (count =? 1)) all = false.
Proof.
  intros C H. destruct (All_counters a f C) as (all & E & G). exists all. split; [done|].
  apply not_true_iff_false. rewrite existsb_exists. intros ([bh v] & [Ty E1]%list_elem_of_In%G & N%negb_true_iff%Z.eqb_neq).
  by apply N, (H bh).
Qed.

Lemma account_all a cnt sz :
  counters a cnt -> zlen L < 2 ^ 62 ->
  (forall p, sz !! p = match blobs_in p L with [] => None | l => Some (pack_bytes true l) end) ->
  exists st, ListBlobs mi (fun '(hasDuplicates, packs, stats) pb =>
      let! (duplicate, packs, stats) := accountIndexedBlob mi a packs stats pb in
      Ok ((duplicate || hasDuplicates) : bool, packs, stats))
      (false, (fun hdrSize => zero_info <| tpe := NumBlobTypes |> <| usedSize := hdrSize |>) <$> sz, zero_stats) = Ok st
    /\ accounting cnt L st.
Proof.
  intros C Len G. rewrite ListBlobs_spec. apply (each_walk _ (accounting cnt)).
  - intros walked pb rest st E St. destruct st as [[dup packs] stats].
    apply (account_walk a cnt walked pb (dup, packs, stats)); [done| |rewrite E; apply elem_of_app; right; apply list_elem_of_here|done].
    rewrite E, zlen_app in Len. pose proof (zlen_nonneg (pb :: rest)). lia.
  - split; [by apply initial_infos|]. split; [done|].
    by split; [intros _|]; intros pb Hpb%elem_of_nil.
Qed.

Lemma select_all used packs stats cnt :
  counters used cnt -> zlen L < 2 ^ 62 -> infos (zlen L) L packs -> tallies (zlen L) stats ->
  (forall bh, type_ok (bh_Type bh) -> match cnt bh with None => True | Some _ => selection cnt packs [] bh end) ->
  exists keep packs' stats', ListBlobs mi (select_blob mi) (used, packs, stats) = Ok (keep, packs', stats')
    /\ infos (2 * zlen L) L packs' /\ tallies (zlen L) stats'
    /\ exists f, counters keep f /\ forall bh, type_ok (bh_Type bh) ->
       match cnt bh with
       | None => f bh = None
       | Some _ => f bh = Some 1 /\ exists pb, pb ∈ L /\ handle pb = bh /\ in_use packs' (pb_Pack pb)
       end.
Proof.
  intros C Len In Ta S. rewrite ListBlobs_spec.
  destruct (each_walk (select_blob mi) (selecting cnt) L (used, packs, stats)) as ([[keep packs'] stats'] & E & In' & Ta' & f & C' & S').
  - intros walked pb rest st E St. apply select_walk; [done| |rewrite E; apply elem_of_app; right; apply list_elem_of_here|done].
    rewrite E, zlen_app in Len. pose proof (zlen_nonneg (pb :: rest)). lia.
  - split; [by rewrite Z.add_0_r|]. split; [done|]. exists cnt. split; [done|]. intros bh Ty. specialize (S bh Ty).
    by destruct (cnt bh).
  - exists keep, packs', stats'. split; [done|]. split; [by replace (2 * zlen L) with (zlen L + zlen L) by lia|].
    split; [done|]. exists f. split; [done|]. intros bh Ty. specialize (S' bh Ty). destruct (cnt bh); [|done].
    destruct S' as [?|(x & _ & Rx & Ox)]; [done|]. rewrite Z.sub_diag in Ox. destruct (Z.eqb_spec x 0); lia.
Qed.

(** All the blobs in use are in the index. *)
Definition indexed (handles : list BlobHandle) : Prop := forall bh, bh ∈ handles -> exists pb, pb ∈ L /\ handle pb = bh.

Lemma occurs pb : pb ∈ L -> 0 < occurrences (handle pb) L.
Proof.
  intros H. unfold occurrences. destruct (filter _ L) as [|x l] eqn:E; [|rewrite zlen_cons; pose proof (zlen_nonneg l); lia].
  exfalso. assert (In : pb ∈ filter (fun pb' => handle pb' = handle pb) L) by by apply list_elem_of_filter.
  rewrite E in In. by apply elem_of_nil in In.
Qed.

Lemma packInfoFromIndex_informed handles a :
  Forall (fun bh => type_ok (bh_Type bh)) handles -> zlen L < 2 ^ 62 ->
  counters a (fun bh => if decide (bh ∈ handles) then Some 0 else None) -> indexed handles ->
  exists keep packs stats, packInfoFromIndex mi a zero_stats = Ok (keep, packs, stats) /\ informed handles keep packs stats.
Proof.
  intros Ty Len C Ix. rewrite Forall_forall in Ty.
  destruct (count_spec a _ C) as (a1 & E1 & C1); [intros bh v; case_decide; [intros [= <-]; lia|done]|].
  set (cnt := fun bh => if decide (bh ∈ handles) then Some (Z.min 255 (occurrences bh L)) else None).
  assert (Cn : counters a1 cnt) by (apply (counters_ext _ _ _ C1); intros bh _; unfold cnt; by case_decide). clear C1.
  assert (Pos : forall bh, bh ∈ handles -> 1 <= occurrences bh L).
  { intros bh Hb. destruct (Ix bh Hb) as (pb & Hp & <-). pose proof (occurs pb Hp). lia. }
  unfold packInfoFromIndex. rewrite E1. cbn [rbind].
  rewrite (proj2 (validate_spec a1 cnt Cn)); cbn [rbind].
  2: { intros bh _. unfold cnt. case_decide as Hb; [|done]. specialize (Pos bh Hb). intros [= E]. lia. }
  destruct (PackSizes_spec true) as (sz & -> & Gs). cbn [rbind].
  destruct (account_all a1 cnt sz Cn Len Gs) as ([[dup packs] stats] & -> & In & Ta & Du & Us). cbn [rbind].
  assert (Sel : forall bh, type_ok (bh_Type bh) -> match cnt bh with None => True | Some _ => selection cnt packs [] bh end).
  { intros bh Tb. destruct (cnt bh) as [c|] eqn:Ec; [|done]. unfold cnt in Ec. case_decide as Hb; [|done]. injection Ec as <-.
    specialize (Pos bh Hb). unfold selection. change (occurrences bh []) with 0. unfold cnt. rewrite decide_True by done.
    destruct (decide (occurrences bh L = 1)) as [O|O].
    - rewrite O. left. split; [done|]. destruct (Ix bh Hb) as (pb & Hp & Eh). exists pb. do 2 (split; [done|]). apply Us; [done|].
      unfold cnt. rewrite Eh, decide_True, O by done. done.
    - right. eexists. split; [done|]. split; [right; lia|]. rewrite (proj2 (Z.eqb_neq _ 0)) by lia. lia. }
  assert (End : exists keep packs' stats', (if dup then ListBlobs mi (select_blob mi) (a1, packs, stats) else Ok (a1, packs, stats)) = Ok (keep, packs', stats')
    /\ infos (2 * zlen L) L packs' /\ tallies (zlen L) stats'
    /\ exists f, counters keep f /\ forall bh, type_ok (bh_Type bh) ->
       match cnt bh with None => f bh = None | Some _ => f bh = Some 1 /\ exists pb, pb ∈ L /\ handle pb = bh /\ in_use packs' (pb_Pack pb) end).
  { destruct dup; [by apply (select_all a1 packs stats cnt)|]. exists a1, packs, stats. split; [done|].
    split; [eapply infos_weaken; [|done]; pose proof (zlen_nonneg L); lia|]. split; [done|]. exists cnt. split; [done|].
    intros bh Tb. specialize (Sel bh Tb). destruct (cnt bh) as [c|] eqn:Ec; [|done].
    destruct Sel as [[S1 S2]|(x & Ex & Rx & Ox)]; [by rewrite <- Ec|]. exfalso. rewrite Ex in Ec. injection Ec as ->.
    unfold cnt in Ex. case_decide as Hb; [|done]. injection Ex as Ex. destruct (Ix bh Hb) as (pb & Hp & <-).
    specialize (Du eq_refl pb Hp). unfold cnt in Du. rewrite decide_True in Du by done. cbn in Du. specialize (Pos _ Hb). lia. }
  destruct End as (keep & packs' & stats' & -> & In' & Ta' & f & Cf & F). cbn [rbind].
  destruct (sanity_spec keep f Cf) as (all & -> & Sa).
  { intros bh v Tb E. specialize (F bh Tb). destruct (cnt bh); [destruct F as [F _]|]; congruence. }
  cbn [rbind]. rewrite Sa. cbn [guard rbind]. exists keep, packs', stats'. split; [done|]. split; [done|done| |].
  - apply (counters_ext _ _ _ Cf). intros bh Tb. specialize (F bh Tb). unfold cnt in F. case_decide; [by destruct F|done].
  - intros bh Hb. specialize (F bh (Ty bh Hb)). unfold cnt in F. rewrite decide_True in F by done. by destruct F.
Qed.

(** Without one of them the planning stops with an error. *)
Lemma packInfoFromIndex_incomplete handles a :
  Forall (fun bh => type_ok (bh_Type bh)) handles ->
  counters a (fun bh => if decide (bh ∈ handles) then Some 0 else None) -> ~ indexed handles ->
  packInfoFromIndex mi a zero_stats = Err ErrIndexIncomplete.
Proof.
  intros Ty C Ix. rewrite Forall_forall in Ty.
  destruct (count_spec a _ C) as (a1 & E1 & C1); [intros bh v; case_decide; [intros [= <-]; lia|done]|].
  unfold packInfoFromIndex. rewrite E1. cbn [rbind]. rewrite (validate_err a1 _ C1); [done|]. intros V. apply Ix.
  intros bh Hb. apply occurrences_pos. pose proof (occurrences_nonneg bh L). apply (proj1 (validate_spec a1 _ C1)) with (bh := bh) in V; [|by apply Ty].
  rewrite decide_True in V by done. cbn in V. destruct (decide (occurrences bh L = 0)) as [O|]; [|lia]. by rewrite O in V.
Qed.

Lemma packInfoFromIndex_ok handles a keep packs stats :
  Forall (fun bh => type_ok (bh_Type bh)) handles -> zlen L < 2 ^ 62 ->
  counters a (fun bh => if decide (bh ∈ handles) then Some 0 else None) ->
  packInfoFromIndex mi a zero_stats = Ok (keep, packs, stats) -> informed handles keep packs stats.
Proof.
  intros Ty Len C E. destruct (decide (Forall (fun bh => Exists (fun pb => handle pb = bh) L) handles)) as [Ix|Ix].
  - destruct (packInfoFromIndex_informed handles a) as (k & p & s & E' & Im); [done..| |congruence].
    intros bh Hb. rewrite Forall_forall in Ix. by apply Exists_exists, Ix.
  - rewrite (packInfoFromIndex_incomplete handles a) in E; [done..|]. intros H. apply Ix, Forall_forall. intros bh Hb.
    by apply Exists_exists, H.
Qed.
End Index.

(** *** What is decided for each pack *)

Section Decide.
Context (opts : PruneOptions) (version target : Z) (packs : gmap ID packInfo).

(** What the walk over the list of pack files has decided. *)
Record decided (walked : list (ID * Z)) (state : packActionState) : Prop := {
  de_left : forall id, st_indexPack state !! id = if decide (id ∈ map fst walked) then None else packs !! id;
  de_first : forall id, id ∈ st_removePacksFirst state <-> id ∈ map fst walked /\ packs !! id = None;
  de_remove : forall id, id ∈ st_removePacks state <->
    id ∈ map fst walked /\ exists p, packs !! id = Some p /\ usedBlobs p = 0;
  de_candidates : forall c, c ∈ repackCandidates state ++ repackSmallCandidates state ->
    c_ID c ∈ map fst walked /\ packs !! c_ID c = Some (c_info c) /\ usedBlobs (c_info c) <> 0;
  de_distinct : NoDup (map c_ID (repackCandidates state ++ repackSmallCandidates state));
  de_sizes : forall id n p, (id, n) ∈ walked -> packs !! id = Some p -> usedBlobs p <> 0 -> total_size p = wrap_u 64 n;
  de_repack : ss_Repack (Size (st_stats state)) = 0 }.

(** The parts of a state that the accounting of one known pack leaves or changes. *)
Lemma processPack_known state state' id n p :
  st_indexPack state !! id = Some p -> processPack opts version target state (id, n) = Ok state' ->
  (usedBlobs p <> 0 -> total_size p = wrap_u 64 n)
  /\ st_indexPack state' = delete id (st_indexPack state)
  /\ st_removePacksFirst state' = st_removePacksFirst state
  /\ st_removePacks state' = (if usedBlobs p =? 0 then {[id]} ∪ st_removePacks state else st_removePacks state)
  /\ (repackCandidates state' ++ repackSmallCandidates state' = repackCandidates state ++ repackSmallCandidates state
      \/ exists c, c_ID c = id /\ c_info c = p /\ usedBlobs p <> 0
         /\ Permutation (repackCandidates state' ++ repackSmallCandidates state') (c :: repackCandidates state ++ repackSmallCandidates state))
  /\ ss_Repack (Size (st_stats state')) = ss_Repack (Size (st_stats state)).
Proof.
  intros E. unfold processPack. rewrite E. set (must := (2 <=? version) && _ && _). clearbody must.
  destruct (guard _ _) as [[]|] eqn:Gu; [|done]. apply guard_ok in Gu. cbn [rbind].
  set (stats := if uncompressed p then _ else _).
  assert (Rs : ss_Repack (Size stats) = ss_Repack (Size (st_stats state))).
  { unfold stats, count_use. by destruct (uncompressed p), (usedBlobs p =? 0), (unusedBlobs p =? 0). }
  clearbody stats. intros [= <-]. split.
  { intros U%Z.eqb_neq. rewrite U, andb_true_r in Gu. by apply negb_false_iff, Z.eqb_eq in Gu. }
  destruct (Z.eqb_spec (usedBlobs p) 0) as [U|U]; [repeat split; try done; by left|].
  repeat match goal with |- context [if ?b then _ else _] => destruct b end;
    repeat split; try done; destruct state; fields; try (by left);
    right; exists (mkCandidate id p must); (split; [done|]); (split; [done|]); (split; [done|]); solve_Permutation.
Qed.

Lemma processPack_unknown state state' id n :
  st_indexPack state !! id = None -> processPack opts version target state (id, n) = Ok state' ->
  st_indexPack state' = st_indexPack state
  /\ st_removePacksFirst state' = {[id]} ∪ st_removePacksFirst state
  /\ st_removePacks state' = st_removePacks state
  /\ repackCandidates state' ++ repackSmallCandidates state' = repackCandidates state ++ repackSmallCandidates state
  /\ ss_Repack (Size (st_stats state')) = ss_Repack (Size (st_stats state)).
Proof. intros E. unfold processPack. rewrite E. by intros [= <-]. Qed.

Lemma decided_step walked file state state' :
  fst file ∉ map fst walked -> decided walked state -> processPack opts version target state file = Ok state' ->
  decided (walked ++ [file]) state'.
Proof.
  destruct file as [id n]. intros New [Dl Df Dr Dc Dn Ds Dz]. assert (El := Dl id). rewrite decide_False in El by done.
  assert (App : forall q, q ∈ map fst (walked ++ [(id, n)]) <-> q ∈ map fst walked \/ q = id).
  { intros q. rewrite map_app, elem_of_app. cbn. by rewrite list_elem_of_singleton. }
  assert (Sizes : (forall p, packs !! id = Some p -> usedBlobs p <> 0 -> total_size p = wrap_u 64 n) ->
    forall q m p, (q, m) ∈ walked ++ [(id, n)] -> packs !! q = Some p -> usedBlobs p <> 0 -> total_size p = wrap_u 64 m).
  { intros H q m p [Hq|[= -> ->]%list_elem_of_singleton]%elem_of_app; [by apply Ds|apply H]. }
  destruct (packs !! id) as [p|] eqn:Ep; intros E.
  - destruct (processPack_known state state' id n p El E) as (Sz & S1 & S2 & S3 & S4 & S5). split.
    + intros q. rewrite S1. destruct (decide (q = id)) as [->|N].
      * rewrite lookup_delete_eq, decide_True; [done|]. apply App. by right.
      * rewrite lookup_delete_ne, Dl by done. apply decide_ext. rewrite App. tauto.
    + intros q. rewrite S2, Df, App. split; [tauto|]. intros [[H| ->] H']; [done|congruence].
    + intros q. rewrite S3, App. destruct (Z.eqb_spec (usedBlobs p) 0) as [U|U].
      * rewrite elem_of_union, elem_of_singleton, Dr. split.
        -- intros [->|[Hw Hp]]; (split; [auto|]); [by exists p|done].
        -- intros [[Hw| ->] Hp]; auto.
      * rewrite Dr. split; [intros [Hw Hp]; auto|]. intros [[H| ->] (p' & E' & U')]; [eauto|congruence].
    + intros c H. rewrite App. destruct S4 as [S4|(c' & Ec & Ei & U & S4)]; rewrite S4 in H; [apply Dc in H as (? & ? & ?); tauto|].
      apply elem_of_cons in H as [->|H]; [rewrite Ei, Ec; auto|]. apply Dc in H as (? & ? & ?). tauto.
    + destruct S4 as [->|(c & Ec & Ei & U & S4)]; [done|]. rewrite S4. cbn. apply NoDup_cons. split; [|done].
      rewrite Ec. intros H. apply list_elem_of_fmap in H as (c' & E' & [H' _]%Dc). by rewrite <- E' in H'.
    + apply Sizes. by intros p' [= <-].
    + by rewrite S5.
  - destruct (processPack_unknown state state' id n El E) as (S1 & S2 & S3 & S4 & S5). split.
    + intros q. rewrite S1, Dl. destruct (decide (q = id)) as [->|N]; [rewrite Ep; by do 2 case_decide|].
      apply decide_ext. rewrite App. tauto.
    + intros q. rewrite S2, elem_of_union, elem_of_singleton, Df, App. split; [intros [->|[Hw Hp]]; auto|]. intros [[Hw| ->] Hp]; auto.
    + intros q. rewrite S3, Dr, App. split; [intros [Hw Hp]; auto|]. intros [[H| ->] (p' & E' & U')]; [eauto|congruence].
    + intros c. rewrite S4, App. intros H. destruct (Dc c H) as (? & ? & ?). tauto.
    + by rewrite S4.
    + by apply Sizes.
    + by rewrite S5.
Qed.

Lemma decided_all files state :
  NoDup (map fst files) -> forall stats, ss_Repack (Size stats) = 0 ->
  each (processPack opts version target) (mkState packs stats ∅ ∅ [] []) files = Ok state -> decided files state.
Proof.
  intros Nd stats Rs. 
  assert (G : forall rest walked st, files = walked ++ rest -> decided walked st ->
    each (processPack opts version target) st rest = Ok state -> decided files state).
  { induction rest as [|file rest IH]; intros walked st E D; cbn; [intros [= <-]; rewrite app_nil_r in E; by subst|].
    destruct (processPack _ _ _ st file) as [st1|] eqn:E1; [|done]. cbn.
    apply (IH (walked ++ [file])); [by rewrite <- app_assoc|]. apply (decided_step walked file st); [|done|done].
    intros H. rewrite E, map_app in Nd. apply NoDup_app in Nd as (_ & Nd & _). apply (Nd _ H). apply list_elem_of_here. }
  apply (G files []); [done|]. split; [done| | | |apply NoDup_nil_2| |done].
  - intros id. cbn. split; [by intros ?%elem_of_empty|by intros [?%elem_of_nil _]].
  - intros id. cbn. split; [by intros ?%elem_of_empty|by intros [?%elem_of_nil _]].
  - by intros c ?%elem_of_nil.
  - by intros id n p ?%elem_of_nil.
Qed.
End Decide.

(** *** Missing packs, small packs and the selection *)

Lemma ignore_packs l ig st m :
  exists ig' st' m', foldl ignore_pack (ig, st, m) l = (ig', st', m')
    /\ (forall id, m' !! id = None <-> m !! id = None \/ exists p, (id, p) ∈ l /\ usedBlobs p = 0)
    /\ (forall id, id ∈ ig' <-> id ∈ ig \/ exists p, (id, p) ∈ l /\ usedBlobs p = 0)
    /\ ss_Repack (Size st') = ss_Repack (Size st).
Proof.
  revert ig st m. induction l as [|[id0 p0] l IH]; intros ig st m.
  - exists ig, st, m. split; [done|]. split; [|split; [|done]]; intros id; (split; [by left|]); by intros [?|(p & ?%elem_of_nil & _)].
  - cbn [foldl]. unfold ignore_pack at 2. destruct (Z.eqb_spec (usedBlobs p0) 0) as [U|U].
    + destruct (IH ({[id0]} ∪ ig) (count_removed p0 st) (delete id0 m)) as (ig' & st' & m' & E & Gm & Gi & R).
      exists ig', st', m'. split; [done|]. split; [|split; [|by rewrite R]]; intros id.
      * rewrite Gm, lookup_delete_None. setoid_rewrite elem_of_cons. split.
        -- intros [[->|H]|(p & H & Hp)]; eauto.
        -- intros [H|(p & [[= -> ->]|H] & Hp)]; eauto.
      * rewrite Gi, elem_of_union, elem_of_singleton. setoid_rewrite elem_of_cons. split.
        -- intros [[->|H]|(p & H & Hp)]; eauto.
        -- intros [H|(p & [[= -> ->]|H] & Hp)]; eauto.
    + destruct (IH ig st m) as (ig' & st' & m' & E & Gm & Gi & R).
      exists ig', st', m'. split; [done|]. split; [|split; [|done]]; intros id; rewrite ?Gm, ?Gi; setoid_rewrite elem_of_cons;
        (split; [intros [H|(p & H & Hp)]; eauto|intros [H|(p & [[= -> ->]|H] & Hp)]; eauto; done]).
Qed.

Lemma resolve_spec indexPack stats ignore stats' :
  resolveMissingPacks indexPack stats = Ok (ignore, stats') ->
  (forall id p, indexPack !! id = Some p -> usedBlobs p = 0)
  /\ (forall id, id ∈ ignore <-> is_Some (indexPack !! id)) /\ ss_Repack (Size stats') = ss_Repack (Size stats).
Proof.
  unfold resolveMissingPacks. destruct (ignore_packs (map_to_list indexPack) ∅ stats indexPack) as (ig & st & m & -> & Gm & Gi & R).
  destruct (guard _ _) as [[]|] eqn:Gu; [|done]. apply guard_ok, negb_false_iff, bool_decide_eq_true in Gu. subst m.
  cbn [rbind]. intros [= <- <-].
  assert (U : forall id p, indexPack !! id = Some p -> usedBlobs p = 0).
  { intros id p E. destruct (proj1 (Gm id) (lookup_empty id)) as [H|(p' & H%elem_of_map_to_list & Hp)]; congruence. }
  split; [done|]. split; [|done]. intros id. rewrite Gi. split.
  - intros [?%elem_of_empty|(p & H%elem_of_map_to_list & _)]; [done|by exists p].
  - intros [p E]. right. exists p. split; [by apply elem_of_map_to_list|by apply (U id)].
Qed.

(** The packs selected for repacking are candidates; their size stays below the limit. *)
Definition sizes_of (l : list packInfoWithID) : Z := foldr (fun c n => total_size (c_info c) + n) 0 l.

Lemma select_packs opts target after l set stats :
  exists chosen set' stats', foldl (select_pack opts target after) (set, stats) l = (set', stats')
    /\ sublist chosen l /\ set' = set ∪ list_to_set (map c_ID chosen)
    /\ (chosen = [] /\ ss_Repack (Size stats') = ss_Repack (Size stats)
        \/ ss_Repack (Size stats') = wrap_u 64 (ss_Repack (Size stats) + sizes_of chosen)
           /\ 0 <= ss_Repack (Size stats') < MaxRepackBytes opts).
Proof.
  revert set stats. induction l as [|c l IH]; intros set stats.
  { exists [], set, stats. split; [done|]. split; [done|]. split; [symmetry; apply union_empty_r_L|by left]. }
  cbn [foldl]. destruct (select_pack opts target after (set, stats) c) as [set1 stats1] eqn:E.
  assert (S : (set1 = set /\ ss_Repack (Size stats1) = ss_Repack (Size stats))
    \/ (set1 = {[c_ID c]} ∪ set /\ ss_Repack (Size stats1) = uadd (ss_Repack (Size stats)) (total_size (c_info c))
        /\ 0 <= ss_Repack (Size stats1) < MaxRepackBytes opts)).
  { unfold select_pack in E.
    destruct (Z.leb_spec (MaxRepackBytes opts) (uadd (uadd (ss_Repack (Size stats)) (unusedSize (c_info c))) (usedSize (c_info c)))) as [H|H];
      [injection E as <- <-; by left|]. rewrite <- uadd_shift_r in H.
    assert (Q : repack set stats c = (set1, stats1) -> set1 = {[c_ID c]} ∪ set
        /\ ss_Repack (Size stats1) = uadd (ss_Repack (Size stats)) (total_size (c_info c)) /\ 0 <= ss_Repack (Size stats1) < MaxRepackBytes opts).
    { intros [= <- <-]. split; [done|]. split; [done|]. split; [apply uadd_range|exact H]. }
    destruct (_ || _); [right; by apply Q|]. destruct (_ && _); [injection E as <- <-; by left|right; by apply Q]. }
  destruct (IH set1 stats1) as (chosen & set' & stats' & E' & Su & -> & B). destruct S as [[-> S1]|(-> & S1 & S2)].
  - exists chosen, (set ∪ list_to_set (map c_ID chosen)), stats'. rewrite S1 in *. by split; [|split; [by apply sublist_cons|]].
  - exists (c :: chosen), ({[c_ID c]} ∪ set ∪ list_to_set (map c_ID chosen)), stats'. split; [done|].
    split; [by apply sublist_skip|]. split; [by rewrite (union_comm_L {[c_ID c]} set), <- union_assoc_L|]. right. cbn [sizes_of foldr]. fold (sizes_of chosen).
    destruct B as [[-> ->]|[-> B]]; (split; [rewrite S1; cbn [sizes_of foldr]; wrap_sums|done]).
Qed.

(** The decision for every pack. *)
Record plan_of (packs : gmap ID packInfo) (files : list (ID * Z)) (plan : PrunePlan) : Prop := {
  po_first : forall id, id ∈ removePacksFirst plan <-> id ∈ map fst files /\ packs !! id = None;
  po_remove : forall id, id ∈ removePacks plan <->
    id ∈ map fst files /\ exists p, packs !! id = Some p /\ usedBlobs p = 0;
  po_repack : forall id, id ∈ repackPacks plan ->
    id ∈ map fst files /\ exists p, packs !! id = Some p /\ usedBlobs p <> 0;
  po_ignore : forall id, id ∈ ignorePacks plan <-> ~ id ∈ map fst files /\ is_Some (packs !! id);
  po_present : forall id p, packs !! id = Some p -> usedBlobs p <> 0 -> id ∈ map fst files;
  po_sizes : forall id n p, (id, n) ∈ files -> packs !! id = Some p -> usedBlobs p <> 0 -> total_size p = wrap_u 64 n }.

(** The repacked packs: their files, their total size, and the limit on it. *)
Record repacking (opts : PruneOptions) (files : list (ID * Z)) (plan : PrunePlan) (chosen : list (ID * Z)) : Prop := {
  re_files : forall file, file ∈ chosen -> file ∈ files;
  re_distinct : NoDup (map fst chosen);
  re_packs : repackPacks plan = list_to_set (map fst chosen);
  re_size : ss_Repack (Size (plan_stats plan)) = wrap_u 64 (foldr (fun file n => snd file + n) 0 chosen);
  re_limit : chosen = [] \/ ss_Repack (Size (plan_stats plan)) < MaxRepackBytes opts }.

(** The files of the candidates that were chosen. *)
Lemma chosen_files (packs : gmap ID packInfo) files (chosen : list packInfoWithID) :
  (forall id n p, (id, n) ∈ files -> packs !! id = Some p -> usedBlobs p <> 0 -> total_size p = wrap_u 64 n) ->
  (forall c, c ∈ chosen -> c_ID c ∈ map fst files /\ packs !! c_ID c = Some (c_info c) /\ usedBlobs (c_info c) <> 0) ->
  exists fs, (forall file, file ∈ fs -> file ∈ files) /\ map fst fs = map c_ID chosen
    /\ wrap_u 64 (sizes_of chosen) = wrap_u 64 (foldr (fun file n => snd file + n) 0 fs).
Proof.
  intros Sz. induction chosen as [|c chosen IH]; intros H; [exists []; split; [by intros ? ?%elem_of_nil|done]|].
  destruct IH as (fs & F & E & S); [intros c' Hc; apply H; by apply list_elem_of_further|].
  destruct (H c (list_elem_of_here _ _)) as (Hc & Ep & U). apply list_elem_of_fmap in Hc as ([id n] & Ei & Hf). cbn in Ei. subst id.
  exists ((c_ID c, n) :: fs). split; [intros file [->|Hi]%elem_of_cons; [done|by apply F]|]. split; [cbn; by f_equal|].
  cbn [sizes_of foldr snd]. fold (sizes_of chosen). rewrite (Sz _ _ _ Hf Ep U). revert S. wrap_sums.
Qed.

(** The total size of the statistics is not computed before the decision. *)
Lemma account_total mi a packs stats pb d packs' stats' :
  accountIndexedBlob mi a packs stats pb = Ok (d, packs', stats') -> ss_Total (Size stats') = ss_Total (Size stats).
Proof.
  unfold accountIndexedBlob. destruct (Get mi a (handle pb)) as [count|]; [|done]. cbn [rbind].
  destruct (2 <=? default 0 count), (default 0 count =? 1); by intros [= _ _ <-].
Qed.

Lemma select_total mi a packs stats pb a' packs' stats' :
  select_blob mi (a, packs, stats) pb = Ok (a', packs', stats') -> ss_Total (Size stats') = ss_Total (Size stats).
Proof.
  unfold select_blob. destruct (Get mi a (handle pb)) as [[count|]|]; cbn [rbind]; [|by intros [= _ _ <-]|done].
  destruct (count =? 1); [by intros [= _ _ <-]|]. destruct (_ || _ || _); (destruct (Set_ _ _ _ _) as [a1|]; [|done]); by intros [= _ _ <-].
Qed.

Lemma each_total {A} (f : A * gmap ID packInfo * PruneStats -> PackedBlob -> result (A * gmap ID packInfo * PruneStats)) mi st st' :
  (forall s pb s', f s pb = Ok s' -> ss_Total (Size (snd s')) = ss_Total (Size (snd s))) ->
  ListBlobs mi f st = Ok st' -> ss_Total (Size (snd st')) = ss_Total (Size (snd st)).
Proof.
  intros H. unfold ListBlobs. destruct (MasterValues mi) as [l|]; [|done]. cbn [rbind].
  apply (each_ok_inv f (fun _ s => ss_Total (Size (snd s)) = ss_Total (Size (snd st)))); [|done].
  intros walked pb s s' _ E1 E2. by rewrite (H _ _ _ E2).
Qed.

Lemma packInfoFromIndex_no_total mi a stats keep packs stats' :
  packInfoFromIndex mi a stats = Ok (keep, packs, stats') -> ss_Total (Size stats') = ss_Total (Size stats).
Proof.
  unfold packInfoFromIndex. destruct (countUsedBlobOccurrences mi a) as [a1|]; [|done]. cbn [rbind].
  destruct (validateUsedBlobs mi a1); [|done]. cbn [rbind]. destruct (PackSizes mi true) as [sz|]; [|done]. cbn [rbind].
  destruct (ListBlobs _ _ (false, _, _)) as [[[dup packs1] stats1]|] eqn:E1; [|done]. cbn [rbind].
  apply each_total in E1; [|]. cbn [snd] in E1.
  2: { intros [[d p] s] pb s'. destruct (accountIndexedBlob _ _ _ _ _) as [[[d' p'] s1]|] eqn:Ea; [|done]. intros [= <-].
    by apply account_total in Ea. }
  assert (E2 : forall st, (if dup then ListBlobs mi (select_blob mi) (a1, packs1, stats1) else Ok (a1, packs1, stats1)) = Ok st ->
    ss_Total (Size (snd st)) = ss_Total (Size stats1)).
  { intros st. destruct dup; [|by intros [= <-]]. intros E2. apply each_total in E2; [done|].
    intros [[d p] s] pb [[d' p'] s']. apply select_total. }
  destruct (if dup then _ else _) as [[[k p] s]|]; [|done]. specialize (E2 _ eq_refl). cbn [rbind snd] in *.
  destruct (All mi k) as [all|]; [|done]. cbn [rbind]. destruct (guard _ _); [|done]. intros [= _ _ <-]. by rewrite E2.
Qed.

Section Sorted.
Context (sort_Slice : (packInfoWithID -> packInfoWithID -> bool) -> list packInfoWithID -> list packInfoWithID).
Context (sort_perm : forall less l, Permutation (sort_Slice less l) l).

Lemma included_candidates state c :
  c ∈ repackCandidates (includeSmallCandidates state) -> c ∈ repackCandidates state ++ repackSmallCandidates state.
Proof.
  unfold includeSmallCandidates. destruct (_ <? 10); [intros H; apply elem_of_app; by left|]. by destruct state.
Qed.

Lemma included_distinct state :
  NoDup (map c_ID (repackCandidates state ++ repackSmallCandidates state)) ->
  NoDup (map c_ID (repackCandidates (includeSmallCandidates state))).
Proof.
  unfold includeSmallCandidates. destruct (_ <? 10); [|by destruct state]. rewrite map_app. by intros [? _]%NoDup_app.
Qed.

Lemma included_stats state :
  ss_Repack (Size (st_stats (includeSmallCandidates state))) = ss_Repack (Size (st_stats state))
  /\ st_removePacksFirst (includeSmallCandidates state) = st_removePacksFirst state
  /\ st_removePacks (includeSmallCandidates state) = st_removePacks state.
Proof. unfold includeSmallCandidates. by destruct (_ <? 10). Qed.

Lemma decide_spec opts repo packs stats files plan :
  NoDup (map fst files) -> repo_List repo = Ok files -> ss_Repack (Size stats) = 0 ->
  decidePackAction sort_Slice opts repo packs stats = Ok plan ->
  plan_of packs files plan /\ exists chosen, repacking opts files plan chosen.
Proof.
  intros Nd EL Rs. unfold decidePackAction. rewrite EL. cbn [rbind]. set (target := calculateTargetPacksize opts packs).
  destruct (each _ _ files) as [state|] eqn:Es; [|done]. cbn [rbind].
  apply decided_all in Es as [Dl Df Dr Dc Dn Ds Dz]; [|done|done].
  destruct (resolveMissingPacks _ _) as [[ignore stats1]|] eqn:Er; [|done]. apply resolve_spec in Er as (Ru & Ri & Rr). cbn [rbind].
  destruct (included_stats (state <| st_stats := stats1 |>)) as (I1 & I2 & I3).
  pose proof (included_candidates (state <| st_stats := stats1 |>)) as Ic.
  set (state2 := includeSmallCandidates _) in *.
  assert (Id : NoDup (map c_ID (repackCandidates state2))) by (apply included_distinct; exact Dn).
  clearbody state2.
  change (ss_Repack (Size (st_stats state2)) = ss_Repack (Size stats1)) in I1. rewrite Rr, Dz in I1.
  destruct (selectRepackPacks _ _ _ _) as [set stats2] eqn:Esel. unfold selectRepackPacks in Esel.
  edestruct (select_packs opts target) as (chosen & set' & stats' & E & Su & Es & B). rewrite Esel in E. injection E as <- <-.
  rewrite I1, Z.add_0_l in B.
  assert (Sp : sortRepackCandidates sort_Slice (repackCandidates state2) target ≡ₚ repackCandidates state2) by apply sort_perm.
  assert (Hc : forall c, c ∈ chosen -> c_ID c ∈ map fst files /\ packs !! c_ID c = Some (c_info c) /\ usedBlobs (c_info c) <> 0).
  { intros c H. apply Dc, Ic. rewrite <- Sp. by apply (elem_of_sublist chosen). }
  destruct (chosen_files packs files chosen Ds Hc) as (fs & Ff & Efs & Sf).
  intros [= <-]. split; [|].
  2: { exists fs. split; cbn [plan_stats repackPacks].
    - done.
    - rewrite Efs. eapply sublist_NoDup; [|apply (fmap_sublist c_ID _ _ Su)]. rewrite Sp. by apply Id.
    - by rewrite Efs, Es, union_empty_l_L.
    - rewrite <- Sf. destruct (repo_Version repo <? 2), B as [[-> B]|[B _]]; exact B.
    - destruct B as [[-> _]|[_ B]]; [left; by apply map_eq_nil in Efs|right]. destruct (repo_Version repo <? 2); apply B. }
  split; cbn [removePacksFirst removePacks repackPacks ignorePacks].
  - intros id. rewrite I2. apply Df.
  - intros id. rewrite I3. apply Dr.
  - intros id. rewrite Es, elem_of_union, elem_of_list_to_set. intros [?%elem_of_empty|(c & -> & H)%list_elem_of_fmap]; [done|].
    destruct (Hc c H) as (H1 & H2 & H3). split; [done|]. by exists (c_info c).
  - intros id. rewrite Ri, Dl. case_decide; split; try tauto; by intros [? ?].
  - intros id p E U. destruct (decide (id ∈ map fst files)) as [|N]; [done|]. exfalso. apply U, (Ru id).
    rewrite Dl, decide_False by done. done.
  - exact Ds.
Qed.

(** The options the decision is made with. *)
Definition effective (opts : PruneOptions) : PruneOptions :=
  if UnsafeRecovery opts then opts <| MaxRepackBytes := 0 |> else opts.

(** A blob is in a pack that is neither removed nor repacked. *)
Definition elsewhere (plan : PrunePlan) (l : list PackedBlob) (bh : BlobHandle) : bool :=
  existsb (fun pb => bool_decide (handle pb = bh)
    && negb (bool_decide (pb_Pack pb ∈ removePacks plan) || bool_decide (pb_Pack pb ∈ repackPacks plan))) l.

Lemma elsewhere_spec plan l bh :
  elsewhere plan l bh = true <->
  exists pb, pb ∈ l /\ handle pb = bh /\ ~ pb_Pack pb ∈ removePacks plan /\ ~ pb_Pack pb ∈ repackPacks plan.
Proof.
  unfold elsewhere. rewrite existsb_exists. setoid_rewrite <- list_elem_of_In.
  setoid_rewrite andb_true_iff. setoid_rewrite negb_true_iff. setoid_rewrite orb_false_iff.
  setoid_rewrite bool_decide_eq_true. setoid_rewrite bool_decide_eq_false. done.
Qed.

Lemma drop_kept_spec mi bss bs L plan keep f :
  master mi bss -> head bss = Some bs -> MasterValues mi = Ok L -> counters bs keep f ->
  exists keep', ListBlobs mi (drop_kept mi plan) keep = Ok keep'
    /\ counters bs keep' (fun bh => if elsewhere plan L bh then None else f bh).
Proof.
  intros M Hd EL C. rewrite (ListBlobs_spec mi L EL).
  apply (each_inv _ (fun walked keep => counters bs keep (fun bh => if elsewhere plan walked bh then None else f bh))
    (fun pb => type_ok (bh_Type (handle pb)))); [|by apply (listed_types mi bss M)|done].
  intros walked pb a Ty Ca. unfold drop_kept.
  assert (App : forall bh, elsewhere plan (walked ++ [pb]) bh = elsewhere plan walked bh || bool_decide (handle pb = bh)
      && negb (bool_decide (pb_Pack pb ∈ removePacks plan) || bool_decide (pb_Pack pb ∈ repackPacks plan))).
  { intros bh. unfold elsewhere. rewrite existsb_app. cbn [existsb]. by rewrite orb_false_r. }
  destruct (bool_decide (pb_Pack pb ∈ removePacks plan) || bool_decide (pb_Pack pb ∈ repackPacks plan)) eqn:B.
  - exists a. split; [done|]. apply (counters_ext _ _ _ _ Ca). intros bh _. by rewrite App, andb_false_r, orb_false_r.
  - destruct (Delete_counters mi bss bs M Hd a _ (handle pb) Ca Ty) as (a' & -> & C'). exists a'. split; [done|].
    apply (counters_ext _ _ _ _ C'). intros bh _. rewrite App, andb_true_r. destruct (decide (handle pb = bh)) as [<-|N].
    + by rewrite bool_decide_true, orb_true_r.
    + by rewrite bool_decide_false, orb_false_r.
Qed.

(** A plan that was made, from the set of blobs in use to the blobs to keep. *)
Lemma PlanPrune_spec mi bss bs L opts repo handles files plan :
  master mi bss -> head bss = Some bs -> MasterValues mi = Ok L -> zlen L < 2 ^ 62 -> repo_idx repo = mi ->
  Forall (fun bh => type_ok (bh_Type bh)) handles -> repo_List repo = Ok files -> NoDup (map fst files) ->
  PlanPrune sort_Slice opts repo (Ok handles) = Ok plan ->
  exists keep0 packs stats,
    informed bs L handles keep0 packs stats /\ plan_of packs files plan /\ (exists chosen, repacking (effective opts) files plan chosen)
    /\ (repackPacks plan <> ∅ -> exists keep, keepBlobs plan = Some keep
        /\ counters bs keep (fun bh =>
            if elsewhere plan L bh then None else if decide (bh ∈ handles) then Some 1 else None)).
Proof.
  intros M Hd EL Len Er Ty Ef Nd. unfold PlanPrune. rewrite Er. fold (effective opts).
  do 4 (destruct (guard _ _) as [[]|] in |- *; [|done]; cbn [rbind]).
  destruct (used_set mi bss bs M Hd handles Ty) as (a0 & a & -> & Ei & C). cbn [rbind]. rewrite Ei. cbn [rbind].
  destruct (packInfoFromIndex mi a zero_stats) as [[[keep0 packs] stats]|] eqn:Ep; [|done]. cbn [rbind].
  apply (packInfoFromIndex_ok mi bss bs M Hd L EL handles a) in Ep as Im; [|done..].
  destruct (im_tallies _ _ _ _ _ _ Im) as [_ Tt Tr _]. rewrite Tt. cbn [Z.ltb Z.compare].
  set (opts1 := match MaxRepackPercent _ with Some _ => _ | None => _ end).
  assert (E1 : opts1 = effective opts) by (unfold opts1; by destruct (MaxRepackPercent _)). rewrite E1. clear opts1 E1.
  destruct (decidePackAction _ _ _ _ _) as [plan1|] eqn:Ed; [|done]. cbn [rbind].
  apply (decide_spec _ _ _ _ files) in Ed as [Po Bo]; [|done..].
  destruct (drop_kept_spec mi bss bs L plan1 keep0 _ M Hd EL (im_keep _ _ _ _ _ _ Im)) as (keep & Ek & Ck).
  destruct (bool_decide (repackPacks plan1 = ∅)) eqn:Br; cbn [negb]; [|rewrite Ek]; cbn [rbind]; intros [= <-];
    exists keep0, packs, stats; (split; [done|split; [by destruct Po; split|split; [destruct Bo as [chosen []]; by exists chosen|]]]).
  - intros N. by apply bool_decide_eq_true in Br.
  - intros _. by exists keep.
Qed.
End Sorted.
End PruneTheory.

(** ** Properties *)

Module PruneProps.
Import IndexTheory IndexProps MasterTheory MasterProps AssociatedTheory PruneTheory.

Section Props.
Context (sort_Slice : (packInfoWithID -> packInfoWithID -> bool) -> list packInfoWithID -> list packInfoWithID).

(** What is assumed of a repository that is pruned: its index was built by operations
    of the index, its backend lists each pack file once, and the blobs in use have
    a valid type. *)
Record prunable (repo : Repository) (handles : list BlobHandle) (L : list PackedBlob) (files : list (ID * Z)) : Prop := {
  pr_sort : forall less l, Permutation (sort_Slice less l) l;
  pr_index : exists now hash, rtc m_step (NewMasterIndex now hash) (repo_idx repo);
  pr_values : MasterValues (repo_idx repo) = Ok L;
  pr_small : zlen L < 2 ^ 62;
  pr_list : repo_List repo = Ok files;
  pr_once : NoDup (map fst files);
  pr_types : Forall (fun bh => type_ok (bh_Type bh)) handles }.

Lemma prunable_plan repo handles L files opts plan :
  prunable repo handles L files -> PlanPrune sort_Slice opts repo (Ok handles) = Ok plan ->
  exists bss bs keep0 packs stats,
    master (repo_idx repo) bss /\ head bss = Some bs
    /\ informed bs L handles keep0 packs stats /\ plan_of packs files plan
    /\ (exists chosen, repacking (effective opts) files plan chosen)
    /\ (repackPacks plan <> ∅ -> exists keep, keepBlobs plan = Some keep
        /\ counters bs keep (fun bh => if elsewhere plan L bh then None else if decide (bh ∈ handles) then Some 1 else None)).
Proof.
  intros [Ps (now & hash & S) Pv Pl Pf Po Pt] E. destruct (m_steps_known _ _ _ (new_master now hash) S) as (bss & M & _ & _).
  pose proof (master_head _ _ M). destruct (head bss) as [bs|] eqn:Hd; [|done]. exists bss, bs.
  destruct (PlanPrune_spec sort_Slice Ps (repo_idx repo) bss bs L opts repo handles files plan)
    as (keep0 & packs & stats & ?); [done..|]. by exists keep0, packs, stats.
Qed.

(** Where a blob in use is: in a pack that stays as it is, or else in one that is repacked. *)
Lemma planned_blob repo handles L files opts plan bh :
  prunable repo handles L files -> PlanPrune sort_Slice opts repo (Ok handles) = Ok plan -> bh ∈ handles ->
  (forall pb, pb ∈ L -> handle pb = bh -> ~ pb_Pack pb ∈ ignorePacks plan) ->
  exists pb, pb ∈ L /\ handle pb = bh /\ pb_Pack pb ∈ map fst files
    /\ ~ pb_Pack pb ∈ removePacksFirst plan /\ ~ pb_Pack pb ∈ removePacks plan /\ ~ pb_Pack pb ∈ ignorePacks plan
    /\ (pb_Pack pb ∈ repackPacks plan <-> elsewhere plan L bh = false).
Proof.
  intros P E Hb Ig. destruct (prunable_plan _ _ _ _ _ _ P E) as (bss & bs & keep0 & packs & stats & M & Hd & Im & Po & _ & _).
  assert (Kept : forall pb, pb ∈ L -> handle pb = bh -> ~ pb_Pack pb ∈ removePacks plan ->
    pb_Pack pb ∈ map fst files /\ ~ pb_Pack pb ∈ removePacksFirst plan /\ ~ pb_Pack pb ∈ ignorePacks plan).
  { intros pb Hp Eh Nr. destruct (proj2 (in_dom _ _ _ _ (im_infos _ _ _ _ _ _ Im) (pb_Pack pb)) (blobs_in_listed L pb Hp)) as [info Ei].
    assert (Hf : pb_Pack pb ∈ map fst files).
    { destruct (decide (pb_Pack pb ∈ map fst files)); [done|]. exfalso. apply (Ig pb Hp Eh), (po_ignore _ _ _ Po). by split; [|exists info]. }
    split; [done|]. split; [|by apply Ig]. intros [_ N]%(po_first _ _ _ Po). congruence. }
  destruct (elsewhere plan L bh) eqn:El.
  - apply elsewhere_spec in El as (pb & Hp & Eh & N1 & N2). exists pb. destruct (Kept pb Hp Eh N1) as (K1 & K2 & K3).
    do 6 (split; [done|]). done.
  - destruct (im_used _ _ _ _ _ _ Im bh Hb) as (pb & Hp & Eh & info & Ei & U). exists pb.
    assert (N1 : ~ pb_Pack pb ∈ removePacks plan). { intros (_ & p & Ep & Z0)%(po_remove _ _ _ Po). rewrite Ei in Ep. injection Ep as <-. lia. }
    destruct (Kept pb Hp Eh N1) as (K1 & K2 & K3). do 6 (split; [done|]). split; [done|]. intros _.
    destruct (decide (pb_Pack pb ∈ repackPacks plan)) as [|N2]; [done|]. assert (elsewhere plan L bh = true) as El'; [|congruence].
    apply elsewhere_spec. by exists pb.
Qed.

(** C2. A prune loses no blob in use. When a plan is made, every blob in use that is
    not listed in a missing pack has an occurrence in a pack file that exists, that
    is in none of the sets of packs to delete or to forget, and, if it is to be
    repacked, the blob is among those the repack keeps. *)
Theorem PlanPrune_keeps_used (repo : Repository) (handles : list BlobHandle) (L : list PackedBlob)
    (files : list (ID * Z)) (opts : PruneOptions) (plan : PrunePlan) (bh : BlobHandle) :
  prunable repo handles L files -> PlanPrune sort_Slice opts repo (Ok handles) = Ok plan -> bh ∈ handles ->
  (forall pb, pb ∈ L -> handle pb = bh -> ~ pb_Pack pb ∈ ignorePacks plan) ->
  exists pb, pb ∈ L /\ handle pb = bh /\ pb_Pack pb ∈ map fst files
    /\ ~ pb_Pack pb ∈ removePacksFirst plan /\ ~ pb_Pack pb ∈ removePacks plan /\ ~ pb_Pack pb ∈ ignorePacks plan
    /\ (pb_Pack pb ∈ repackPacks plan -> exists keep, keepBlobs plan = Some keep /\ Get (repo_idx repo) keep bh = Ok (Some 1)).
Proof.
  intros P E Hb Ig. destruct (planned_blob _ _ _ _ _ _ _ P E Hb Ig) as (pb & Hp & Eh & K1 & K2 & K3 & K4 & El).
  exists pb. do 6 (split; [done|]). intros R. apply El in R as El'.
  destruct (prunable_plan _ _ _ _ _ _ P E) as (bss & bs & keep0 & packs & stats & M & Hd & _ & _ & _ & K).
  destruct K as (keep & Ek & Ck); [intros R0; rewrite R0 in R; by apply elem_of_empty in R|]. exists keep. split; [done|].
  assert (Ty : type_ok (bh_Type bh)) by by apply (proj1 (Forall_forall _ _) (pr_types _ _ _ _ P)).
  rewrite (Get_counters (repo_idx repo) bss bs M Hd _ _ bh Ck Ty), El', decide_True by done. done.
Qed.

(** The plan is a partition of the packs. A pack file is deleted first exactly when
    no index entry names it; the other packs to delete and the packs to repack exist
    and are named by the index, and the packs to forget are named by it and do not
    exist. No pack is in two of the sets, and a pack that is kept or repacked has the
    size the index gives it. *)
Theorem PlanPrune_partition (repo : Repository) (handles : list BlobHandle) (L : list PackedBlob)
    (files : list (ID * Z)) (opts : PruneOptions) (plan : PrunePlan) :
  prunable repo handles L files -> PlanPrune sort_Slice opts repo (Ok handles) = Ok plan ->
  (forall id, id ∈ removePacksFirst plan <-> id ∈ map fst files /\ ~ id ∈ map pb_Pack L)
  /\ (forall id, id ∈ removePacks plan ∪ repackPacks plan -> id ∈ map fst files /\ id ∈ map pb_Pack L)
  /\ (forall id, id ∈ ignorePacks plan <-> ~ id ∈ map fst files /\ id ∈ map pb_Pack L)
  /\ removePacks plan ## repackPacks plan
  /\ exists sizes, PackSizes (repo_idx repo) false = Ok sizes
     /\ forall id n, (id, n) ∈ files -> ~ id ∈ removePacksFirst plan -> ~ id ∈ removePacks plan ->
        exists size, sizes !! id = Some size /\ wrap_u 64 n = wrap_u 64 size.
Proof.
  intros P E. destruct (prunable_plan _ _ _ _ _ _ P E) as (bss & bs & keep0 & packs & stats & M & Hd & Im & Po & _ & _).
  assert (Dom : forall id, is_Some (packs !! id) <-> id ∈ map pb_Pack L).
  { intros id. rewrite (in_dom _ _ _ _ (im_infos _ _ _ _ _ _ Im)), list_elem_of_fmap. unfold blobs_in. split.
    - intros N. destruct (filter _ L) as [|pb l] eqn:F; [done|]. exists pb.
      assert (Hp : pb ∈ filter (fun pb => pb_Pack pb = id) L) by (rewrite F; apply list_elem_of_here).
      apply list_elem_of_filter in Hp as [<- ?]. done.
    - intros (pb & -> & Hp). by apply blobs_in_listed. }
  split; [intros id; rewrite (po_first _ _ _ Po), <- Dom, eq_None_not_Some; done|].
  split; [|split; [|split]].
  - intros id. rewrite <- Dom, elem_of_union. intros [(H & p & Ep & _)%(po_remove _ _ _ Po)|(H & p & Ep & _)%(po_repack _ _ _ Po)];
      (split; [done|by exists p]).
  - intros id. by rewrite (po_ignore _ _ _ Po), Dom.
  - intros id (_ & p & Ep & U)%(po_remove _ _ _ Po) (_ & p' & Ep' & U')%(po_repack _ _ _ Po). congruence.
  - destruct (PackSizes_spec (repo_idx repo) L (pr_values _ _ _ _ P) false) as (sz & Es & Gs). exists sz. split; [done|].
    intros id n Hf N1 N2. assert (Hi : id ∈ map fst files) by (apply list_elem_of_fmap; by exists (id, n)).
    destruct (packs !! id) as [p|] eqn:Ep; [|exfalso; apply N1, (po_first _ _ _ Po); done].
    assert (U : usedBlobs p <> 0) by (intros U; apply N2, (po_remove _ _ _ Po); eauto).
    rewrite Gs. pose proof (proj1 (in_dom _ _ _ _ (im_infos _ _ _ _ _ _ Im) id) (ex_intro _ p Ep)) as Nb.
    destruct (blobs_in id L) as [|pb l] eqn:Eb; [done|]. eexists. split; [done|]. rewrite <- Eb.
    rewrite <- (po_sizes _ _ _ Po id n p Hf Ep U), (in_size _ _ _ _ (im_infos _ _ _ _ _ _ Im) id p Ep). unfold pack_bytes. f_equal. lia.
Qed.

(** The limit on repacking holds: the packs to repack are files of the repository,
    the statistics give their total size, and this size is below [MaxRepackBytes]
    unless nothing is repacked; an unsafe recovery repacks nothing. *)
Theorem PlanPrune_limits (repo : Repository) (handles : list BlobHandle) (L : list PackedBlob)
    (files : list (ID * Z)) (opts : PruneOptions) (plan : PrunePlan) :
  prunable repo handles L files -> PlanPrune sort_Slice opts repo (Ok handles) = Ok plan ->
  exists chosen, (forall file, file ∈ chosen -> file ∈ files) /\ repackPacks plan = list_to_set (map fst chosen)
    /\ ss_Repack (Size (plan_stats plan)) = wrap_u 64 (foldr (fun file n => snd file + n) 0 chosen)
    /\ (chosen <> [] -> UnsafeRecovery opts = false /\ ss_Repack (Size (plan_stats plan)) < MaxRepackBytes opts).
Proof.
  intros P E. destruct (prunable_plan _ _ _ _ _ _ P E) as (bss & bs & keep0 & packs & stats & _ & _ & _ & _ & (chosen & [R1 R2 R3 R4 R5]) & _).
  exists chosen. do 3 (split; [done|]). intros N. destruct R5 as [?|R5]; [done|]. unfold effective in R5.
  destruct (UnsafeRecovery opts); [|done]. exfalso. change (MaxRepackBytes (_ <| MaxRepackBytes := 0 |>)) with 0 in R5.
  rewrite R4 in R5. pose proof (wrap_u_range 64 (foldr (fun file n => snd file + n) 0 chosen)) as W. unfold u_range in W. lia.
Qed.

(** The selection among duplicates always ends with one occurrence per blob: given
    the set of blobs in use, [packInfoFromIndex] either returns, or reports an
    incomplete index, the latter exactly when a blob in use is in no index; the
    internal error is never raised. *)
Theorem packInfoFromIndex_total (mi : MasterIndex) (handles : list BlobHandle) (L : list PackedBlob) (a0 a : AssociatedSet Z)
    (now : Z) (hash : Z -> ID -> Z) :
  rtc m_step (NewMasterIndex now hash) mi -> MasterValues mi = Ok L -> zlen L < 2 ^ 62 ->
  Forall (fun bh => type_ok (bh_Type bh)) handles ->
  NewAssociatedSet 0 mi = Ok a0 -> each (Insert_ 0 mi) a0 handles = Ok a ->
  ((forall bh, bh ∈ handles -> bh ∈ map handle L) /\ is_ok (packInfoFromIndex mi a zero_stats) = true)
  \/ (exists bh, bh ∈ handles /\ ~ bh ∈ map handle L) /\ packInfoFromIndex mi a zero_stats = Err ErrIndexIncomplete.
Proof.
  intros S EL Len Ty E0 Ea. destruct (m_steps_known _ _ _ (new_master now hash) S) as (bss & M & _ & _).
  pose proof (master_head _ _ M). destruct (head bss) as [bs|] eqn:Hd; [|done].
  destruct (used_set mi bss bs M Hd handles Ty) as (b0 & b & E0' & Eb & C). rewrite E0 in E0'. injection E0' as <-.
  rewrite Ea in Eb. injection Eb as <-.
  destruct (decide (Forall (fun bh => bh ∈ map handle L) handles)) as [Ix|Ix].
  - left. rewrite Forall_forall in Ix. split; [done|].
    destruct (packInfoFromIndex_informed mi bss bs M Hd L EL handles a) as (k & p & s & -> & _); [done..| |done].
    intros bh (pb & -> & Hp)%Ix%list_elem_of_fmap. by exists pb.
  - right. assert (Ni : ~ indexed L handles).
    { intros H1. apply Ix, Forall_forall. intros bh (pb & Hp & <-)%H1. apply list_elem_of_fmap. by exists pb. }
    split; [|by apply (packInfoFromIndex_incomplete mi bss bs M Hd L EL handles)].
    apply not_Forall_Exists, Exists_exists in Ix; [|solve_decision]. done.
Qed.
End Props.

(** The plan without the options it keeps for its execution. *)
Definition forget_options (r : result PrunePlan) (opts : PruneOptions) : result PrunePlan :=
  let! plan := r in Ok (plan <| plan_opts := opts |>).

(** The decision does not read the percentage. *)
Lemma decide_percent sort_Slice u mu mr p q sp rc ru ra repo packs stats :
  decidePackAction sort_Slice (mkPruneOptions u mu mr p sp rc ru ra) repo packs stats
  = let! plan := decidePackAction sort_Slice (mkPruneOptions u mu mr q sp rc ru ra) repo packs stats in
    Ok (plan <| plan_opts := mkPruneOptions u mu mr p sp rc ru ra |>).
Proof.
  unfold decidePackAction. destruct (repo_List repo) as [files|]; [|done]. cbn [rbind].
  change (processPack (mkPruneOptions u mu mr p sp rc ru ra)) with (processPack (mkPruneOptions u mu mr q sp rc ru ra)).
  change (calculateTargetPacksize (mkPruneOptions u mu mr p sp rc ru ra)) with (calculateTargetPacksize (mkPruneOptions u mu mr q sp rc ru ra)).
  change (selectRepackPacks (mkPruneOptions u mu mr p sp rc ru ra)) with (selectRepackPacks (mkPruneOptions u mu mr q sp rc ru ra)).
  destruct (each _ _ files) as [state|]; [|done]. cbn [rbind]. destruct (resolveMissingPacks _ _) as [[ignore stats1]|]; [|done].
  cbn [rbind]. by destruct (selectRepackPacks _ _ _ _) as [chosen stats2].
Qed.

(** A limit given as a percentage of the repository has no effect: the plan, or the
    error, is the same for every percentage and without one. The code takes the
    percentage of a total size that is still zero at that point. *)
Theorem PlanPrune_percent_ignored sort_Slice (opts : PruneOptions) (repo : Repository)
    (getUsedBlobs : result (list BlobHandle)) (percent : option (Z -> Z)) :
  forget_options (PlanPrune sort_Slice (opts <| MaxRepackPercent := percent |>) repo getUsedBlobs) opts
  = forget_options (PlanPrune sort_Slice (opts <| MaxRepackPercent := None |>) repo getUsedBlobs) opts.
Proof.
  destruct opts as [u mu mr mp sp rc ru ra]. generalize (mkPruneOptions u mu mr mp sp rc ru ra) at 2 4. intros o.
  unfold PlanPrune, forget_options. destruct u;
    cbv [UnsafeRecovery RepackUncompressed SmallPackBytes MaxRepackPercent MaxRepackBytes MaxUnusedBytes RepackCacheableOnly RepackAll apply_update constant];
    (do 4 (destruct (guard _ _); [|done]; cbn [rbind])); (destruct (NewAssociatedSet 0 (repo_idx repo)) as [fresh|]; [|done]);
    (destruct getUsedBlobs as [handles|]; [|done]); cbn [rbind];
    (destruct (each (Insert_ 0 (repo_idx repo)) fresh handles) as [used|]; [|done]); cbn [rbind];
    (destruct (packInfoFromIndex (repo_idx repo) used zero_stats) as [[[keep packs] stats]|] eqn:Ep; [|done]); cbn [rbind];
    apply packInfoFromIndex_no_total in Ep; rewrite Ep; cbn [Size zero_stats ss_Total Z.ltb Z.compare];
    (destruct percent as [percent|]; [|done]);
    rewrite (decide_percent sort_Slice _ mu _ (Some percent) None sp rc ru ra repo packs stats);
    (destruct (decidePackAction _ _ _ _ _) as [plan|]; [|done]); cbn [rbind];
    change (drop_kept (repo_idx repo) (plan <| plan_opts := _ |>)) with (drop_kept (repo_idx repo) plan);
    change (repackPacks (plan <| plan_opts := _ |>)) with (repackPacks plan);
    (destruct (negb _); [|done]); by destruct (ListBlobs _ _ _).
Qed.

(** ** Examples *)

(** What [sort.Slice] does with a few elements. *)
Fixpoint insert_by (less : packInfoWithID -> packInfoWithID -> bool) (c : packInfoWithID) (l : list packInfoWithID) : list packInfoWithID :=
  match l with
  | [] => [c]
  | d :: l' => if less d c then d :: insert_by less c l' else c :: l
  end.
Definition insertion_sort (less : packInfoWithID -> packInfoWithID -> bool) (l : list packInfoWithID) : list packInfoWithID :=
  foldr (insert_by less) [] l.

Lemma insertion_sort_perm less l : Permutation (insertion_sort less l) l.
Proof.
  assert (Ins : forall c l, Permutation (insert_by less c l) (c :: l)).
  { intros c l'. induction l' as [|d l' IH]; cbn; [done|]. destruct (less d c); [|done]. rewrite IH. apply Permutation_swap. }
  induction l as [|c l IH]; cbn; [done|]. by rewrite Ins, IH.
Qed.

(** Two packs share a blob; each has a blob that is not in use, and the first one has
    another blob in use. *)
Definition pack_r : ID := repeat x0a 32.
Definition pack_m : ID := repeat x0b 32.
Definition pack_x : ID := repeat x0c 32.
Definition shared_index : MasterIndex :=
  match storePack sample_master pack_r [sample_blob 1 DataBlob 0; sample_blob 2 DataBlob 40; sample_blob 3 DataBlob 80] 0 sample_hash with
  | Ok mi => match storePack mi pack_m [sample_blob 2 DataBlob 0; sample_blob 4 DataBlob 40] 0 sample_hash with Ok mi => mi | Err _ => mi end
  | Err _ => sample_master
  end.
Definition in_use_handles : list BlobHandle := [b_handle (sample_blob 1 DataBlob 0); b_handle (sample_blob 2 DataBlob 0)].
Definition sample_options : PruneOptions := mkPruneOptions false (fun _ => 0) MaxUint64 None 0 false false false.
Definition shared_blobs : list PackedBlob := match MasterValues shared_index with Ok l => l | Err _ => [] end.
Definition shared_files : list (ID * Z) := [(pack_r, 267); (pack_m, 190); (pack_x, 7)].
Definition shared_repo : Repository := mkRepository shared_index 2 (16 * 1024 * 1024) 2 false (Ok shared_files).

(** The same repository after the second pack was lost. *)
Definition missing_repo : Repository := mkRepository shared_index 2 (16 * 1024 * 1024) 2 false (Ok [(pack_r, 267)]).

Definition no_plan : PrunePlan := mkPrunePlan ∅ ∅ None ∅ ∅ zero_stats sample_options.
Definition shared_plan : PrunePlan :=
  match PlanPrune insertion_sort sample_options shared_repo (Ok in_use_handles) with Ok plan => plan | Err _ => no_plan end.
Definition missing_plan : PrunePlan :=
  match PlanPrune insertion_sort sample_options missing_repo (Ok in_use_handles) with Ok plan => plan | Err _ => no_plan end.
Definition shared_handle : BlobHandle := b_handle (sample_blob 2 DataBlob 0).
Definition missing_keep : AssociatedSet Z := default (mkSet [] ∅) (keepBlobs missing_plan).

Lemma ok_value {A} (r : result A) (d : A) : is_ok r = true -> r = Ok (match r with Ok a => a | Err _ => d end).
Proof. by destruct r. Qed.

Lemma shared_planned : PlanPrune insertion_sort sample_options shared_repo (Ok in_use_handles) = Ok shared_plan.
Proof. apply (ok_value _ no_plan). vm_compute. reflexivity. Qed.

Lemma shared_ignores : ignorePacks shared_plan = ∅.
Proof. apply (bool_decide_eq_true_1 _). vm_compute. reflexivity. Qed.

Lemma shared_steps : rtc m_step (NewMasterIndex 0 sample_hash) shared_index.
Proof.
  eapply rtc_l; [eapply (step_store _ pack_r [sample_blob 1 DataBlob 0; sample_blob 2 DataBlob 40; sample_blob 3 DataBlob 80] 0 sample_hash); vm_compute; reflexivity|].
  apply rtc_once. apply (step_store _ pack_m [sample_blob 2 DataBlob 0; sample_blob 4 DataBlob 40] 0 sample_hash). vm_compute. reflexivity.
Qed.

Lemma shared_prunable files :
  NoDup (map fst files) ->
  prunable insertion_sort (mkRepository shared_index 2 (16 * 1024 * 1024) 2 false (Ok files)) in_use_handles shared_blobs files.
Proof.
  intros Nd. split; [exact insertion_sort_perm|exists 0, sample_hash; exact shared_steps|vm_compute; reflexivity| |done|done|].
  - assert (E : zlen shared_blobs = 5) by (vm_compute; reflexivity). rewrite E. lia.
  - by repeat constructor.
Qed.

Lemma shared_distinct : NoDup (map fst shared_files).
Proof. apply (bool_decide_eq_true_1 _). vm_compute. reflexivity. Qed.

(** C33. A prune can lose a blob in use when a pack is missing. The index of this
    repository names a lost pack that held a copy of a blob in use; a plan is made
    all the same. The only pack file with the blob is to be repacked and then removed,
    and the blob is not among those the repack keeps, because the copy in the lost
    pack counts as one that stays. *)
Theorem PlanPrune_missing_pack :
  prunable insertion_sort missing_repo in_use_handles shared_blobs [(pack_r, 267)]
  /\ PlanPrune insertion_sort sample_options missing_repo (Ok in_use_handles) = Ok missing_plan
  /\ shared_handle ∈ in_use_handles
  /\ (forall pb, pb ∈ shared_blobs -> handle pb = shared_handle -> pb_Pack pb = pack_r \/ pb_Pack pb = pack_m)
  /\ repackPacks missing_plan = {[pack_r]} /\ ignorePacks missing_plan = {[pack_m]}
  /\ keepBlobs missing_plan = Some missing_keep /\ Get shared_index missing_keep shared_handle = Ok None.
Proof.
  split; [apply shared_prunable; apply NoDup_singleton|].
  split; [apply (ok_value _ no_plan); vm_compute; reflexivity|]. split; [right; left|].
  split; [|do 2 (split; [apply (bool_decide_eq_true_1 _); vm_compute; reflexivity|]); split; vm_compute; reflexivity].
  intros pb Hp Eh. assert (F : Forall (fun pb => handle pb = shared_handle -> pb_Pack pb = pack_r \/ pb_Pack pb = pack_m) shared_blobs).
  { apply (bool_decide_eq_true_1 _). vm_compute. reflexivity. }
  by apply (proj1 (Forall_forall _ _) F).
Qed.

Lemma PlanPrune_keeps_used_witness :
  exists pb, pb ∈ shared_blobs /\ handle pb = shared_handle /\ pb_Pack pb ∈ map fst shared_files
    /\ ~ pb_Pack pb ∈ removePacksFirst shared_plan /\ ~ pb_Pack pb ∈ removePacks shared_plan /\ ~ pb_Pack pb ∈ ignorePacks shared_plan
    /\ (pb_Pack pb ∈ repackPacks shared_plan -> exists keep, keepBlobs shared_plan = Some keep /\ Get shared_index keep shared_handle = Ok (Some 1)).
Proof.
  apply (PlanPrune_keeps_used insertion_sort shared_repo in_use_handles shared_blobs shared_files sample_options shared_plan shared_handle).
  - apply shared_prunable, shared_distinct.
  - exact shared_planned.
  - right. left.
  - intros pb _ _. rewrite shared_ignores. apply not_elem_of_empty.
Defined.

Lemma PlanPrune_partition_witness :
  (forall id, id ∈ removePacksFirst shared_plan <-> id ∈ map fst shared_files /\ ~ id ∈ map pb_Pack shared_blobs)
  /\ removePacks shared_plan ## repackPacks shared_plan.
Proof.
  destruct (PlanPrune_partition insertion_sort shared_repo in_use_handles shared_blobs shared_files sample_options shared_plan)
    as (H1 & _ & _ & H4 & _); [apply shared_prunable, shared_distinct|exact shared_planned|done].
Defined.

Lemma PlanPrune_limits_witness :
  exists chosen, (forall file, file ∈ chosen -> file ∈ shared_files) /\ repackPacks shared_plan = list_to_set (map fst chosen)
    /\ ss_Repack (Size (plan_stats shared_plan)) = wrap_u 64 (foldr (fun file n => snd file + n) 0 chosen)
    /\ (chosen <> [] -> UnsafeRecovery sample_options = false /\ ss_Repack (Size (plan_stats shared_plan)) < MaxRepackBytes sample_options).
Proof.
  apply (PlanPrune_limits insertion_sort shared_repo in_use_handles shared_blobs shared_files sample_options shared_plan);
    [apply shared_prunable, shared_distinct|exact shared_planned].
Defined.

(** The sets of blobs in use of the examples: one that is indexed, one that is not. *)
Definition fresh_set : AssociatedSet Z := match NewAssociatedSet 0 shared_index with Ok a => a | Err _ => mkSet [] ∅ end.
Definition used_of (handles : list BlobHandle) : AssociatedSet Z :=
  match each (Insert_ 0 shared_index) fresh_set handles with Ok a => a | Err _ => fresh_set end.

Lemma packInfoFromIndex_total_witness :
  let lost := [b_handle (sample_blob 9 DataBlob 0)] in
  ((forall bh, bh ∈ lost -> bh ∈ map handle shared_blobs) /\ is_ok (packInfoFromIndex shared_index (used_of lost) zero_stats) = true)
  \/ (exists bh, bh ∈ lost /\ ~ bh ∈ map handle shared_blobs)
     /\ packInfoFromIndex shared_index (used_of lost) zero_stats = Err ErrIndexIncomplete.
Proof.
  intros lost. apply (packInfoFromIndex_total shared_index lost shared_blobs fresh_set (used_of lost) 0 sample_hash).
  - exact shared_steps.
  - vm_compute. reflexivity.
  - assert (E : zlen shared_blobs = 5) by (vm_compute; reflexivity). rewrite E. lia.
  - by repeat constructor.
  - vm_compute. reflexivity.
  - vm_compute. reflexivity.
Defined.
End PruneProps.
