(* ===== verification/Execute.v ===== *)
(** * Executing a prune plan ([Execute] in [internal/repository/prune.go],
    [rewriteIndexFilesOpt] in [internal/repository/repair_index.go], [SaveFallback] in
    [internal/repository/index/master_index.go])

    The plan of [PlanPrune] is carried out: packs are repacked, the index is rewritten, the
    files to delete are written into the config and then deleted. The parts are those of the
    other files; here they are put together, and the theorem at the end follows a blob in
    use from the plan to the files that are left. *)
From stdpp Require Import base list numbers strings gmap sets.
From Stdlib Require Import ZArith Lia.
From coqutil Require Import Datatypes.RecordSetters.
From S2P Require Import Prelude Codec Sha256 Crypto Pack IndexMap RepoIndex MasterIndex AssociatedSet PackSizer Upload Stream Rewrite Repack Durable.
From S2P Require Import Prune PruneMarker.
Import TriangleBracketNotations.

(** ** Index files *)

(** The files written for the new indexes of a rewrite. *)
Fixpoint saved_files (SaveUnpacked : list packJSON -> ID * option string) (idxs : list Index) : list (ID * list packJSON) :=
  match idxs with
  | [] => []
  | idx :: idxs =>
      match ix_packs idx with
      | [] => saved_files SaveUnpacked idxs
      | _ :: _ =>
          match Encode (Finalize idx) with
          | Err _ => []
          | Ok packs =>
              match SaveUnpacked packs with
              | (id, None) => (id, packs) :: saved_files SaveUnpacked idxs
              | (_, Some _) => []
              end
          end
      end
  end.

(** The orders and times that a rewrite meets, whether the last new index is sent to the
    savers, and what the backend answers; [rw_partial] are the files saved by a call that
    fails. *)
Record rewriteEnv := mkRewriteEnv {
  rw_map_order : list ID -> list ID; rw_order : list ID -> list ID; rw_sort_Blobs : list Blob -> list Blob;
  rw_now : Index -> Z; rw_created : Z; rw_newhash : Z -> ID -> Z; rw_sent : bool;
  rw_load : ID -> result unit; rw_SaveUnpacked : list packJSON -> ID * option string; rw_partial : list (ID * list packJSON) }.

Definition rewritten_files (e : rewriteEnv) (r : Repository) (removePacks : gset ID) : list (ID * list packJSON) :=
  match load_all (rw_created e) (rw_newhash e) (LoadUnpacked (rw_load e) r) (rw_order e (elements (MasterIDs (r_idx r)))) with
  | Err _ => []
  | Ok idxs =>
      match rewriteIndexes (rw_map_order e) (rw_sort_Blobs e) (rw_now e) (rw_created e) (rw_newhash e) (rw_sent e) removePacks ∅ idxs with
      | Err _ => []
      | Ok (new, _) => saved_files (rw_SaveUnpacked e) new
      end
  end.

(** The set of the new and of the obsolete index files. A rewrite that fails may have saved
    some index files; the index in memory, not used after that, counts as cleared. *)
Definition rewriteIndexFilesOpt (e : rewriteEnv) (r : Repository) (removePacks : gset ID) : call (gset ID * gset ID) :=
  match Rewrite (rw_map_order e) (rw_order e) (rw_sort_Blobs e) (rw_now e) (rw_created e) (rw_newhash e) (rw_sent e) (r_idx r)
          (LoadUnpacked (rw_load e) r) (rw_SaveUnpacked e) removePacks None [] with
  | Err err => (r <| r_idx := clear (rw_created e) (rw_newhash e) |> <| r_indexes := write_files (rw_partial e) (r_indexes r) |>, Err err)
  | Ok (mi, saved, obsolete) =>
      (r <| r_idx := mi |> <| r_indexes := write_files (rewritten_files e r removePacks) (r_indexes r) |>, Ok (list_to_set saved, obsolete))
  end.

(** *** The fallback of the recovery mode *)

(** The indexes that are full, and the one being filled. *)
Fixpoint fallback_packs (e : rewriteEnv) (full : list Index) (newIndex : Index) (groups : list PackBlobs) : result (list Index * Index) :=
  match groups with
  | [] => Ok (full, newIndex)
  | g :: groups =>
      let! newIndex := StorePack newIndex (pbs_PackID g) (pbs_Blobs g) in
      if Full (rw_now e newIndex) newIndex then fallback_packs e (full ++ [newIndex]) (NewIndex (rw_created e) (rw_newhash e)) groups
      else fallback_packs e full newIndex groups
  end.

Fixpoint fallback_indexes (e : rewriteEnv) (excludePacks : gset ID) (full : list Index) (newIndex : Index) (idxs : list Index) : result (list Index) :=
  match idxs with
  | [] => Ok (full ++ (if rw_sent e then [newIndex] else []))
  | idx :: idxs =>
      do! guard (ix_final idx && negb (is_ok (IDs idx))) "internal error - finalized index without ID";
      let! groups := EachByPack (rw_map_order e) idx excludePacks in
      let! (full, newIndex) := fallback_packs e full newIndex groups in
      fallback_indexes e excludePacks full newIndex idxs
  end.

(** Every index that is sent is saved, also an empty one; saving does not change the index in memory,
    which is cleared. *)
Fixpoint fallback_files (SaveUnpacked : list packJSON -> ID * option string) (idxs : list Index) : result (list (ID * list packJSON)) :=
  match idxs with
  | [] => Ok []
  | idx :: idxs =>
      let! packs := Encode (Finalize idx) in
      match SaveUnpacked packs with
      | (_, Some err) => Err err
      | (id, None) => let! files := fallback_files SaveUnpacked idxs in Ok ((id, packs) :: files)
      end
  end.

Definition fallback_saved (e : rewriteEnv) (mi : MasterIndex) (excludePacks : gset ID) : result (list (ID * list packJSON)) :=
  let! idxs := fallback_indexes e excludePacks [] (NewIndex (rw_created e) (rw_newhash e)) (mi_idx mi) in
  fallback_files (rw_SaveUnpacked e) idxs.

Definition SaveFallback (e : rewriteEnv) (r : Repository) (excludePacks : gset ID) : call unit :=
  let cleared := r <| r_idx := clear (rw_created e) (rw_newhash e) |> in
  match fallback_saved e (r_idx r) excludePacks with
  | Err err => (cleared <| r_indexes := write_files (rw_partial e) (r_indexes r) |>, Err err)
  | Ok files => (cleared <| r_indexes := write_files files (r_indexes r) |>, Ok tt)
  end.

(** ** The execution *)

(** The repository with the contents of its packs. *)
Record System := mkSystem { y_repo : Repository; y_files : gmap ID bytes }.

(** Deleted packs have no content. *)
Definition set_repo (y : System) (r : Repository) : System :=
  mkSystem r (filter (fun '(id, _) => id ∈ r_packs r) (y_files y)).

(** Repacking works on the packs, the index files and the index of the repository. *)
Definition uploader_of (y : System) (treePM dataPM : packerManager) : Uploader :=
  mkUploader treePM dataPM [] (y_files y) (r_indexes (y_repo y)) (r_idx (y_repo y)).

Definition set_uploader (y : System) (u : Uploader) : System :=
  mkSystem ((y_repo y) <| r_idx := u_idx u |> <| r_indexes := u_indexes u |> <| r_packs := dom (u_packs u) |>) (u_packs u).

(** What an execution meets: the options that the planning does not read, the IDs of
    markers, the context at two places, the packers, the outcome of the repack, and what the
    backend answers. *)
Record execEnv := mkExecEnv {
  x_DryRun : bool; x_KeepDelete : bool; x_prunePlanID : string; x_newID : string; x_ctx : result unit; x_ctx_end : result unit;
  x_treePM : packerManager; x_dataPM : packerManager; x_repack : Uploader -> Uploader * AssociatedSet Z * result unit;
  x_rewrite : rewriteEnv; x_world : World; x_first : World; x_recovery : World }.

(** The packs that the repack makes obsolete are removed as well. *)
Definition run_repack (x : execEnv) (plan : Prune.PrunePlan) (y : System) : System * result (gset ID) :=
  if bool_decide (repackPacks plan = ∅) then (y, Ok (removePacks plan))
  else
    let '(u, keep, res) := x_repack x (uploader_of y (x_treePM x) (x_dataPM x)) in
    let y := set_uploader y u in
    (y, do! res;
        let! n := AssociatedLen (u_idx u) keep in
        do! guard (negb (n =? 0)) "internal error: blobs were not repacked";
        Ok (removePacks plan ∪ repackPacks plan)).

(** The marker is completed or written at once; with [KeepDelete] the files stay, otherwise
    the context is looked at again after the deletion. *)
Definition mark_and_delete (x : execEnv) (r : Repository) (observed required obsolete packIDs : gset ID) : call unit :=
  let w := x_world x in
  then_ (if negb (x_prunePlanID x =? "")%string then CompletePrunePlan w r (x_prunePlanID x) observed required obsolete packIDs
         else PersistPrunePlan w r (x_newID x) observed required obsolete packIDs)
    (fun r _ => if x_KeepDelete x then (r, Ok tt) else then_ (FinalizePrunePlanLoaded w r) (fun r _ => (r, x_ctx_end x))).

Definition execute_normal (x : execEnv) (r : Repository) (packIDs ignore : gset ID) : call unit :=
  let observed := MasterIDs (r_idx r) in
  then_ (if bool_decide (ignore = ∅) then (r, Ok (∅, ∅)) else rewriteIndexFilesOpt (x_rewrite x) r ignore)
    (fun r '(required, obsolete) =>
      if bool_decide (obsolete = ∅) && bool_decide (packIDs = ∅) then (r, Ok tt)
      else mark_and_delete x r observed required obsolete packIDs).

(** Recovery deletes the index files before the packs, whose errors are ignored, and
    writes the index anew. *)
Definition execute_recovery (x : execEnv) (r : Repository) (remove ignore : gset ID) : call unit :=
  then_ (delete_indexes (x_recovery x) r (MasterIDs (r_idx r))) (fun r _ =>
    let r := if bool_decide (remove = ∅) then r else fst (delete_packs (x_recovery x) r (w_remove_pack (x_recovery x)) remove) in
    match x_ctx_end x with
    | Err e => (r, Err e)
    | Ok _ => SaveFallback (x_rewrite x) r ignore
    end).

(** A recovery deletes the unreferenced packs first, ignoring errors. *)
Definition delete_first (x : execEnv) (plan : Prune.PrunePlan) (y : System) : System :=
  if UnsafeRecovery (plan_opts plan) && negb (bool_decide (removePacksFirst plan = ∅))
  then set_repo y (fst (delete_packs (x_first x) (y_repo y) (w_remove_pack (x_first x)) (removePacksFirst plan))) else y.

(** Success drops the index in memory; an error leaves it. *)
Definition execute_rest (x : execEnv) (plan : Prune.PrunePlan) (y : System) : System * result unit :=
  match x_ctx x with
  | Err e => (y, Err e)
  | Ok _ =>
      match run_repack x plan y with
      | (y, Err e) => (y, Err e)
      | (y, Ok remove) =>
          let ignore := ignorePacks plan ∪ remove in
          let (r, res) :=
            if UnsafeRecovery (plan_opts plan) then execute_recovery x (y_repo y) remove ignore
            else execute_normal x (y_repo y) (removePacksFirst plan ∪ remove) ignore in
          (set_repo y (if is_ok res then clearIndex (x_world x) r else r), res)
      end
  end.

Definition Execute (x : execEnv) (plan : Prune.PrunePlan) (y : System) : System * result unit :=
  if x_DryRun x then (y, Ok tt) else execute_rest x plan (delete_first x plan y).

(** ** Theory *)

Module ExecuteTheory.
Import IndexTheory IndexProps MasterTheory UploadTheory RewriteTheory RepackTheory DurableTheory MarkerTheory.

(** *** The rewrite on disk *)

(** The blobs of the new indexes are in the files that were saved. *)
Lemma save_all_files SaveUnpacked idxs mi saved mi' saved' :
  save_all SaveUnpacked mi saved idxs = Ok (mi', saved') -> forall idx pb, idx ∈ mi_idx mi' -> has idx pb ->
  (exists j, j ∈ mi_idx mi /\ has j pb) \/ exists id packs, (id, packs) ∈ saved_files SaveUnpacked idxs /\ pb ∈ flat packs.
Proof.
  revert mi saved. induction idxs as [|idx idxs IH]; intros mi saved; cbn [save_all saved_files]; [intros [= <- <-]; eauto|].
  change (ix_packs (Finalize idx)) with (ix_packs idx). destruct (ix_packs idx) as [|p ps]; [by apply IH|]. intros H j pb Hj Hp.
  apply rbind_ok in H as ([idx1 err] & Es & H). destruct err as [e|]; [done|]. apply rbind_ok in H as (ids & _ & H).
  destruct (SaveIndex_has _ _ _ _ Es) as (E1 & E2 & _ & _). unfold SaveIndex in Es.
  destruct (Encode (Finalize idx)) as [packs|] eqn:En; [|done]. destruct (SaveUnpacked packs) as [id e] eqn:Eu.
  apply rbind_ok in Es as (i & _ & [= _ ->]). destruct (IH _ _ H j pb Hj Hp) as [(k & Hk & Hb)|(id' & packs' & Hf & Hb)].
  - change (mi_idx (Insert mi idx1)) with (mi_idx mi ++ [idx1]) in Hk. apply elem_of_app in Hk as [Hk| ->%list_elem_of_singleton]; [by left; exists k|].
    right. exists id, packs. split; [apply list_elem_of_here|]. rewrite (has_same (Finalize idx)) in Hb by done. by eapply Encode_flat.
  - right. exists id', packs'. split; [by apply list_elem_of_further|done].
Qed.

(** Only rewritten index files are obsolete. *)
Lemma rewrite_all_obsolete map_order sort_Blobs now created hash exclude idxs st st' :
  rewrite_all map_order sort_Blobs now created hash exclude st idxs = Ok st' ->
  forall id, id ∈ snd st' -> id ∈ snd st \/ exists idx, idx ∈ idxs /\ ix_ids idx = [id].
Proof.
  revert st. induction idxs as [|idx idxs IH]; intros st H id Hid; cbn in H; [injection H as <-; by left|].
  apply rbind_ok in H as (st1 & E & H). destruct (IH _ H id Hid) as [Ho|(j & Hj & Ej)]; [|right; exists j; split; [by apply list_elem_of_further|done]].
  unfold rewrite_index in E. destruct st as [cp obs]. apply rbind_ok in E as ([keep set] & _ & E). destruct keep; [injection E as <-; by left|].
  apply rbind_ok in E as (obs' & Em & E). apply rbind_ok in E as (cp' & _ & [= <-]). cbn [snd] in *. unfold markObsolete in Em.
  unfold IDs in Em. destruct (guard _ _); [|done]. cbn [rbind] in Em. destruct (ix_ids idx) as [|i [|]] eqn:Ei; [done| |done]. injection Em as <-.
  apply elem_of_union in Ho as [->%elem_of_singleton|Ho]; [right|by left]. exists idx. split; [apply list_elem_of_here|done].
Qed.

(** What is assumed of the rewrite: see [rewritable]; new files have new names, and the
    context is not cancelled while the last index is handed over. *)
Record rewrite_ok (e : rewriteEnv) (r : Repository) (ignore : gset ID) : Prop := {
  ro_sent : rw_sent e = true;
  ro_rewritable : RewriteProps.rewritable (rw_map_order e) (rw_order e) (rw_sort_Blobs e) (rw_created e) (rw_newhash e)
    (MasterIDs (r_idx r)) ignore (LoadUnpacked (rw_load e) r) [];
  ro_fresh : fresh_files (rewritten_files e r ignore) (r_indexes r);
  ro_partial : fresh_files (rw_partial e) (r_indexes r) }.

(** The blob is in an index file that is not in the set. *)
Definition filed (indexes : gmap ID (list packJSON)) (without : gset ID) (pb : PackedBlob) : Prop :=
  exists id packs, indexes !! id = Some packs /\ pb ∈ flat packs /\ ~ id ∈ without.

Lemma filed_more indexes indexes' pb : indexes ⊆ indexes' -> filed indexes ∅ pb -> filed indexes' ∅ pb.
Proof. intros S (id & packs & H & R). exists id, packs. split; [by eapply lookup_weaken|done]. Qed.

Lemma rewritten_Ok e r ignore mi saved obsolete :
  Rewrite (rw_map_order e) (rw_order e) (rw_sort_Blobs e) (rw_now e) (rw_created e) (rw_newhash e) (rw_sent e) (r_idx r)
    (LoadUnpacked (rw_load e) r) (rw_SaveUnpacked e) ignore None [] = Ok (mi, saved, obsolete) ->
  (forall idx pb, idx ∈ mi_idx mi -> has idx pb -> exists id packs, (id, packs) ∈ rewritten_files e r ignore /\ pb ∈ flat packs)
  /\ (forall id, id ∈ MasterIDs (r_idx r) -> Permutation (rw_order e (elements (MasterIDs (r_idx r)))) (elements (MasterIDs (r_idx r))) ->
       exists packs idx, LoadUnpacked (rw_load e) r id = Ok packs /\ DecodeIndex packs id (rw_created e) (rw_newhash e) = Ok idx)
  /\ (forall id, id ∈ obsolete -> is_Some (r_indexes r !! id)).
Proof.
  unfold Rewrite, rewritten_files. intros H. apply rbind_ok in H as ([] & _ & H). cbn [default] in H.
  apply rbind_ok in H as (idxs & El & H). apply rbind_ok in H as ([new obs] & Er & H).
  apply rbind_ok in H as ([mi1 sv] & Es & [= -> -> ->]). change (list_to_set []) with (∅ : gset ID) in Er. rewrite El, Er.
  pose proof (load_all_spec _ _ _ _ _ El) as F. split; [|split].
  - intros idx pb Hi Hp. destruct (save_all_files _ _ _ _ _ _ Es idx pb Hi Hp) as [(j & Hj & Hb)|?]; [|done].
    apply list_elem_of_singleton in Hj as ->. rewrite (has_same (NewIndex (rw_created e) (rw_newhash e))) in Hb by done. by apply has_new in Hb.
  - intros id Hid P. apply elem_of_elements in Hid. rewrite <- P in Hid. apply list_elem_of_lookup in Hid as [i Hi].
    destruct (Forall2_lookup_r _ _ _ _ _ F Hi) as (idx & _ & packs & E1 & E2). eauto.
  - intros id Hid. unfold rewriteIndexes in Er. apply rbind_ok in Er as ([cp obs'] & Ea & [= _ ->]).
    destruct (rewrite_all_obsolete _ _ _ _ _ _ _ _ _ Ea id Hid) as [?%elem_of_empty|(idx & Hi & Ei)]; [done|].
    apply list_elem_of_lookup in Hi as [i Hi]. destruct (Forall2_lookup_l _ _ _ _ _ F Hi) as (id' & _ & packs & E1 & E2).
    apply DecodeIndex_inv in E2 as (_ & _ & E2). rewrite Ei in E2. injection E2 as <-. unfold LoadUnpacked in E1.
    apply rbind_ok in E1 as ([] & _ & E1). by destruct (r_indexes r !! id).
Qed.

Lemma LoadUnpacked_file fails r id packs : LoadUnpacked fails r id = Ok packs -> r_indexes r !! id = Some packs.
Proof. unfold LoadUnpacked. intros H. apply rbind_ok in H as ([] & _ & H). destruct (r_indexes r !! id); [by injection H as <-|done]. Qed.

(** A blob that the index files cover, of a pack that is not ignored, stays in a file. *)
Lemma rewrite_keeps_filed e r ignore r' res pb bss :
  master (r_idx r) bss -> all_final (r_idx r) -> all_covered (r_indexes r) (r_idx r) -> rewrite_ok e r ignore ->
  in_master (r_idx r) pb -> ~ pb_Pack pb ∈ ignore -> rewriteIndexFilesOpt e r ignore = (r', res) ->
  r_packs r' = r_packs r
  /\ match res with Err _ => filed (r_indexes r') ∅ pb | Ok (_, obsolete) => filed (r_indexes r') obsolete pb end.
Proof.
  intros M Fi C [Sn W Fr Pa] Hm Hn H. destruct (has_covered _ _ _ _ M Fi C Hm) as (id & packs & Hid & Hl & Hp).
  unfold rewriteIndexFilesOpt in H. rewrite Sn in H. destruct (Rewrite _ _ _ _ _ _ _ _ _ _ _ _ _) as [[[mi saved] obsolete]|e'] eqn:E.
  2: { injection H as <- <-. split; [done|]. apply (filed_more (r_indexes r)); [by apply write_files_old|]. exists id, packs.
       split; [done|]. split; [done|]. apply not_elem_of_empty. }
  injection H as <- <-. split; [done|]. change (r_indexes (_ <| r_indexes := ?l |>)) with l. rewrite <- Sn in E.
  destruct (rewritten_Ok _ _ _ _ _ _ E) as (New & Ld & Ob). rewrite Sn in E.
  destruct (Ld id Hid (RewriteProps.rw_arrival _ _ _ _ _ _ _ _ _ W _)) as (packs' & idx & L1 & L2).
  assert (packs' = packs) as -> by (apply LoadUnpacked_file in L1; congruence).
  destruct (RewriteProps.Rewrite_sound _ _ _ _ _ _ _ _ _ _ _ None _ _ _ W E) as (Keep & _).
  destruct (Keep id idx pb) as [(id' & idx' & (_ & p' & L1' & L2') & Hb & No)|(idx' & Hi & Hb)]; [|by apply (decode_has _ _ _ _ _ _ L2)|done|..].
  { split; [done|]. eauto. }
  - exists id', p'. apply LoadUnpacked_file in L1'. split; [by eapply lookup_weaken; [|apply write_files_old]|]. split; [|done].
    by apply (decode_has _ _ _ _ _ _ L2').
  - destruct (New idx' pb Hi Hb) as (id' & p' & Hf & Hp'). exists id', p'. split; [by apply write_files_new|]. split; [done|].
    intros Q. destruct (Ob id' Q) as [? Hs]. destruct (Fr _ _ Hf) as [N _]. congruence.
Qed.

(** What the process that rewrote the index still has in memory. *)
Lemma save_all_ids SaveUnpacked idxs mi saved mi' saved' :
  save_all SaveUnpacked mi saved idxs = Ok (mi', saved') ->
  forall id, id ∈ saved \/ id ∈ map fst (saved_files SaveUnpacked idxs) -> id ∈ saved'.
Proof.
  revert mi saved. induction idxs as [|idx idxs IH]; intros mi saved; cbn [save_all saved_files]; [intros [= <- <-] id [?|?%elem_of_nil]; done|].
  change (ix_packs (Finalize idx)) with (ix_packs idx). destruct (ix_packs idx) as [|p ps]; [by apply IH|]. intros H id Hid.
  apply rbind_ok in H as ([idx1 err] & Es & H). destruct err as [e|]; [done|]. apply rbind_ok in H as (ids & Ei & H). apply (IH _ _ H).
  unfold SaveIndex in Es. destruct (Encode (Finalize idx)) as [packs|]; [|done]. destruct (SaveUnpacked packs) as [i e].
  apply rbind_ok in Es as (i1 & Et & [= -> ->]). assert (Hi : i ∈ ids).
  { unfold SetID in Et. inv_results. unfold IDs in Ei. inv_results. unfold constant. apply elem_of_app. right. by apply list_elem_of_singleton. }
  rewrite elem_of_app. cbn [map fst] in Hid. rewrite elem_of_cons in Hid. destruct Hid as [?|[->|?]]; auto.
Qed.

(** An index file that is not obsolete has no pack of the set. *)
Lemma rewrite_all_kept map_order sort_Blobs now created hash exclude idxs st st' :
  rewrite_all map_order sort_Blobs now created hash exclude st idxs = Ok st' ->
  (forall id, id ∈ snd st -> id ∈ snd st')
  /\ forall idx id pack, idx ∈ idxs -> ix_ids idx = [id] -> ~ id ∈ snd st' -> pack ∈ ix_packs idx -> ~ pack ∈ exclude.
Proof.
  revert st. induction idxs as [|idx idxs IH]; intros st H; cbn in H; [injection H as <-; split; [done|by intros j id pack ?%elem_of_nil]|].
  apply rbind_ok in H as (st1 & E & H). destruct (IH _ H) as [Mo Ke]. unfold rewrite_index in E. destruct st as [cp obs].
  apply rbind_ok in E as ([keep set] & Ek & E). destruct keep.
  - injection E as <-. split; [done|]. intros j id pack [->|Hj]%elem_of_cons; [|by apply Ke]. intros _ _ Hp Hx.
    unfold keepCurrentIndex in Ek. destruct (_ || _ || _) eqn:B; [done|]. apply orb_false_iff in B as [[B _]%orb_false_iff _].
    apply negb_false_iff, bool_decide_eq_true in B. assert (pack ∈ (∅ : gset ID)) as ?%elem_of_empty; [|done]. rewrite <- B.
    apply elem_of_intersection. split; [by apply elem_of_list_to_set|done].
  - apply rbind_ok in E as (obs' & Em & E). apply rbind_ok in E as (cp' & _ & [= <-]). cbn [snd] in *. unfold markObsolete in Em.
    assert (Eo : exists id, ix_ids idx = [id] /\ obs' = {[id]} ∪ obs).
    { destruct (IDs idx) as [[|i [|]]|] eqn:Ei; simplify_eq. unfold IDs in Ei. inv_results. eauto. }
    destruct Eo as (i & Ei & ->). split; [intros id Hid; apply Mo, elem_of_union; by right|].
    intros j id pack [->|Hj]%elem_of_cons; [|by apply Ke]. rewrite Ei. intros [= ->] N. exfalso. apply N, Mo, elem_of_union. left. by apply elem_of_singleton.
Qed.

(** After a rewrite, of a repository that the process has alone and has loaded, every index file
    is in memory, or obsolete, or names no pack to be deleted. *)
Lemma rewrite_looks e r ignore r1 required obsolete plan :
  rewrite_ok e r ignore -> dom (r_indexes r) ⊆ MasterIDs (r_idx r) -> rewriteIndexFilesOpt e r ignore = (r1, Ok (required, obsolete)) ->
  (forall id, id ∈ obsolete -> id ∈ IndexIDs plan) ->
  (forall pack, pack ∈ PackIDs plan -> pack ∈ ignore \/ forall index, ~ names (r_indexes r) index pack) ->
  looked_at (MasterIDs (r_idx r1)) r1 plan.
Proof.
  intros [Sn W Fr _] Ld H Ob Pk index [packs1 H1]%elem_of_dom. unfold rewriteIndexFilesOpt in H. rewrite Sn in H.
  destruct (Rewrite _ _ _ _ _ _ _ _ _ _ _ _ _) as [[[mi saved] obs]|e'] eqn:E; [|done]. injection H as H _ <-.
  assert (Ex : r_idx r1 = mi) by by rewrite <- H.
  assert (Ey : r_indexes r1 = write_files (rewritten_files e r ignore) (r_indexes r)) by by rewrite <- H. rewrite Ey in H1. rewrite Ex, Ey. clear H Ex Ey.
  destruct (RewriteProps.Rewrite_sound _ _ _ _ _ _ _ _ _ _ _ None _ _ _ W E) as (_ & _ & _ & Em).
  rewrite Em.
  unfold Rewrite in E. apply rbind_ok in E as ([] & _ & E). cbn [default] in E. apply rbind_ok in E as (idxs & El & E).
  apply rbind_ok in E as ([new obs1] & Er & E). apply rbind_ok in E as ([mi1 sv] & Es & [= -> -> ->]).
  change (list_to_set []) with (∅ : gset ID) in Er. destruct (decide (index ∈ map fst (rewritten_files e r ignore))) as [Hn|Hn].
  { left. apply elem_of_list_to_set. unfold rewritten_files in Hn. rewrite El, Sn, Er in Hn. apply (save_all_ids _ _ _ _ _ _ Es). by right. }
  assert (H0 : r_indexes r !! index = Some packs1).
  { destruct (r_indexes r !! index) as [p0|] eqn:E0; [pose proof (lookup_weaken _ _ _ _ E0 (write_files_old _ _ Fr)); congruence|].
    exfalso. apply Hn. clear - H1 E0. unfold write_files in H1. revert H1 E0. generalize (r_indexes r).
    induction (rewritten_files e r ignore) as [|[i p] l IH]; intros m; cbn [fold_left map fst]; [congruence|]. intros H1 E0.
    destruct (decide (i = index)) as [->|N]; [apply list_elem_of_here|]. apply list_elem_of_further, (IH (<[i := p]> m)); [done|]. by rewrite lookup_insert_ne. }
  right. destruct (decide (index ∈ obs)) as [Ho|Ho]; [left; by apply Ob|right]. intros pack Hp (packs & pj & Hl & Hj & Eq).
  rewrite H1 in Hl. injection Hl as <-. destruct (Pk pack Hp) as [Hx|Hx]; [|by apply (Hx index); exists packs1, pj].
  unfold rewriteIndexes in Er. apply rbind_ok in Er as ([cp obs'] & Ea & [= _ ->]). destruct (rewrite_all_kept _ _ _ _ _ _ _ _ _ Ea) as [_ Ke].
  assert (Hi : index ∈ rw_order e (elements (MasterIDs (r_idx r)))).
  { rewrite (RewriteProps.rw_arrival _ _ _ _ _ _ _ _ _ W). apply elem_of_elements, Ld, elem_of_dom. by exists packs1. }
  apply list_elem_of_lookup in Hi as [i Hi]. destruct (Forall2_lookup_r _ _ _ _ _ (load_all_spec _ _ _ _ _ El) Hi) as (idx & Hd & packs & L1 & L2).
  apply LoadUnpacked_file in L1. assert (packs = packs1) as -> by congruence. apply (Ke idx index pack); [by eapply list_elem_of_lookup_2| |done| |done].
  - by apply DecodeIndex_inv in L2 as (_ & _ & L2).
  - rewrite (DecodeIndex_packs _ _ _ _ _ L2). apply list_elem_of_fmap. exists pj. by split.
Qed.

(** *** The fallback *)

(** The blobs of the indexes that are full and of the one being filled. *)
Definition held (l : list Index) (pb : PackedBlob) : Prop := exists j, j ∈ l /\ has j pb.

Lemma held_more l l' pb : (forall j, j ∈ l -> j ∈ l') -> held l pb -> held l' pb.
Proof. intros S (j & Hj & Hp). exists j. split; [by apply S|done]. Qed.

Definition typed_group (g : PackBlobs) : Prop := Forall (fun b => type_ok (bh_Type (b_handle b))) (pbs_Blobs g).

Lemma fallback_packs_held e groups full new full' new' :
  Forall typed_group groups -> (exists bs, reachable new bs) -> fallback_packs e full new groups = Ok (full', new') ->
  (exists bs, reachable new' bs)
  /\ forall pb, held (full ++ [new]) pb \/ (exists g, g ∈ groups /\ in_group g pb) -> held (full' ++ [new']) pb.
Proof.
  intros T. revert full new. induction T as [|g groups Tg _ IH]; intros full new [bs R] H; cbn in H.
  { injection H as <- <-. split; [by exists bs|]. intros pb [?|(g & ?%elem_of_nil & _)]; done. }
  apply rbind_ok in H as (new1 & E & H). pose proof (fun pb => has_store _ _ _ _ _ pb R E Tg) as Hs.
  assert (R1 : reachable new1 (push_all bs (pbs_PackID g) (pbs_Blobs g))) by by eapply reach_store.
  assert (St : forall pb, held (full ++ [new]) pb \/ (exists g', g' ∈ g :: groups /\ in_group g' pb) ->
    held (full ++ [new1]) pb \/ exists g', g' ∈ groups /\ in_group g' pb).
  { intros pb [(j & [Hj| ->%list_elem_of_singleton]%elem_of_app & Hp)|(g' & [->|Hg]%elem_of_cons & Hi)]; [..|by right; exists g'].
    - left. exists j. split; [apply elem_of_app; by left|done].
    - left. exists new1. split; [apply elem_of_app; right; by apply list_elem_of_singleton|apply Hs; by left].
    - left. exists new1. split; [apply elem_of_app; right; by apply list_elem_of_singleton|apply Hs; by right]. }
  destruct (Full _ _).
  - destruct (IH (full ++ [new1]) (NewIndex (rw_created e) (rw_newhash e))) as [R2 G]; [exists (fun _ => []); constructor|done|].
    split; [done|]. intros pb [Hh|?]%St; apply G; [left|by right]. revert Hh. apply held_more. intros j Hj. apply elem_of_app. by left.
  - destruct (IH full new1) as [R2 G]; [by eexists|done|]. split; [done|]. intros pb Hp. by apply G, St.
Qed.

(** Packs in the set count only where their index is not final. *)
Definition spared (excludePacks : gset ID) (idx : Index) (pb : PackedBlob) : Prop :=
  has idx pb /\ (ix_final idx = false \/ ~ pb_Pack pb ∈ excludePacks).

Lemma fallback_indexes_held e excludePacks idxs full new idxs' :
  (forall l, Permutation (rw_map_order e l) l) -> rw_sent e = true -> Forall (fun idx => exists bs, reachable idx bs) idxs ->
  (exists bs, reachable new bs) -> fallback_indexes e excludePacks full new idxs = Ok idxs' ->
  forall pb, held (full ++ [new]) pb \/ (exists idx, idx ∈ idxs /\ spared excludePacks idx pb) -> held idxs' pb.
Proof.
  intros Pm Sn F. revert full new. induction F as [|idx idxs [bs R] _ IH]; intros full new Rn H pb Hp; cbn in H.
  { rewrite Sn in H. injection H as <-. destruct Hp as [?|(i & ?%elem_of_nil & _)]; done. }
  apply rbind_ok in H as ([] & _ & H). destruct (EachByPack_spec _ Pm idx bs excludePacks R) as (groups & Eg & G1 & G2).
  rewrite Eg in H. cbn [rbind] in H. apply rbind_ok in H as ([full1 new1] & Ef & H).
  destruct (fallback_packs_held e groups full new full1 new1) as [R1 G].
  { apply Forall_forall. intros g Hg. apply Forall_forall. intros b Hb. destruct (G2 g b Hg Hb) as [Hh _]. exact (has_type _ _ _ R Hh). }
  { done. }
  { done. }
  apply (IH full1 new1 R1 H). destruct Hp as [Hp|(i & [->|Hi]%elem_of_cons & Hs)]; [left; apply G; by left| |by right; exists i].
  left. apply G. right. destruct Hs as [Hs1 Hs2]. destruct (G1 pb Hs1 Hs2) as (g & Hg & Ep & Hb). by exists g.
Qed.

Lemma fallback_files_held SaveUnpacked idxs files pb :
  fallback_files SaveUnpacked idxs = Ok files -> held idxs pb -> exists id packs, (id, packs) ∈ files /\ pb ∈ flat packs.
Proof.
  revert files. induction idxs as [|idx idxs IH]; intros files H (j & Hj & Hp); [by apply elem_of_nil in Hj|]. cbn in H.
  apply rbind_ok in H as (packs & En & H). destruct (SaveUnpacked packs) as [id [e|]]; [done|].
  apply rbind_ok in H as (rest & Er & [= <-]). apply elem_of_cons in Hj as [->|Hj].
  - exists id, packs. split; [apply list_elem_of_here|]. apply (Encode_flat _ _ _ En). by rewrite (has_same idx).
  - destruct (IH rest Er) as (id' & packs' & Hf & Hb); [by exists j|]. exists id', packs'. split; [by apply list_elem_of_further|done].
Qed.

(** What is assumed of the fallback: new files have new names, and the context is not
    cancelled while the last index is handed over. *)
Record fallback_ok (e : rewriteEnv) (r : Repository) (excludePacks : gset ID) : Prop := {
  fo_sent : rw_sent e = true;
  fo_order : forall l, Permutation (rw_map_order e l) l;
  fo_fresh : forall files, fallback_saved e (r_idx r) excludePacks = Ok files -> fresh_files files (r_indexes r) }.

Lemma SaveFallback_filed e r r' excludePacks bss :
  master (r_idx r) bss -> fallback_ok e r excludePacks -> SaveFallback e r excludePacks = (r', Ok tt) ->
  (forall idx pb, idx ∈ mi_idx (r_idx r) -> has idx pb -> ix_final idx = false \/ ~ pb_Pack pb ∈ excludePacks -> filed (r_indexes r') ∅ pb)
  /\ r_indexes r ⊆ r_indexes r'.
Proof.
  intros M [Sn Pm Fr] H. unfold SaveFallback in H.
  destruct (fallback_saved e (r_idx r) excludePacks) as [files|] eqn:E; [|done]. injection H as <-. specialize (Fr _ eq_refl).
  split; [|exact (write_files_old _ _ Fr)]. intros idx pb Hi Hp Hs. apply rbind_ok in E as (idxs & Ei & Ef).
  destruct (fallback_files_held _ _ _ pb Ef) as (id & packs & Hf & Hb).
  - apply (fallback_indexes_held _ _ _ _ _ _ Pm Sn) with (2 := ex_intro _ _ (reach_new _ _)) (3 := Ei); [|right; by exists idx].
    apply Forall_forall. intros j [k Hk]%list_elem_of_lookup. destruct (Forall2_lookup_l _ _ _ _ _ (ms_holds _ _ M) Hk) as (bs & _ & R). by exists bs.
  - exists id, packs. split; [exact (write_files_new _ _ _ _ Fr Hf)|]. split; [done|apply not_elem_of_empty].
Qed.

(** *** The deletion *)

Lemma Complete_inv w r id observed required indexIDs packIDs r' res :
  CompletePrunePlan w r id observed required indexIDs packIDs = (r', res) ->
  r_indexes r' = r_indexes r /\ r_packs r' = r_packs r
  /\ forall plan, res = Ok plan -> exists plan', r_PrunePlan r' = Some plan' /\ IndexIDs plan' = IDSet_List indexIDs /\ PackIDs plan' = IDSet_List packIDs.
Proof.
  intros H. apply then_inv in H as [(e & H & ->)|(r1 & [] & H & [= <- <-])];
    apply update_inv in H as [(-> & e' & [=])|(plan & Hp & -> & [=])]; [done|].
  destruct (negb _); [done|]. injection Hp as <-. do 2 (split; [done|]). intros plan _. eexists. by split.
Qed.

Lemma Begin_inv w r id r' res : BeginPrunePlan w r id = (r', res) -> r_indexes r' = r_indexes r /\ r_packs r' = r_packs r.
Proof.
  unfold BeginPrunePlan. destruct (r_PrunePlan r); [by intros [= <- _]|]. intros H.
  apply then_inv in H as [(e & H & _)|(r1 & [] & H & [= <- _])]; apply update_inv in H as [(-> & e' & [=])|(plan & _ & -> & [=])]; done.
Qed.

Lemma Persist_inv w r id observed required indexIDs packIDs r' res :
  PersistPrunePlan w r id observed required indexIDs packIDs = (r', res) ->
  r_indexes r' = r_indexes r /\ r_packs r' = r_packs r
  /\ forall plan, res = Ok plan -> exists plan', r_PrunePlan r' = Some plan' /\ IndexIDs plan' = IDSet_List indexIDs /\ PackIDs plan' = IDSet_List packIDs.
Proof.
  intros H. apply then_inv in H as [(e & H & ->)|(r1 & plan & H & H2)]; apply Begin_inv in H as [E1 E2]; [done|].
  apply Complete_inv in H2 as (E3 & E4 & G). split; [congruence|]. split; [congruence|done].
Qed.

(** Some of the listed files are deleted, whatever fails. *)
Definition deletes (r r' : Repository) (indexIDs packIDs : gset ID) : Prop :=
  (forall id packs, r_indexes r !! id = Some packs -> ~ id ∈ indexIDs -> r_indexes r' !! id = Some packs)
  /\ (forall id, id ∈ r_packs r -> ~ id ∈ packIDs -> id ∈ r_packs r').

Lemma deletes_nothing r r' indexIDs packIDs : r_indexes r' = r_indexes r -> r_packs r' = r_packs r -> deletes r r' indexIDs packIDs.
Proof. intros E1 E2. split; [by rewrite E1|by rewrite E2]. Qed.

Lemma FinalizeLoaded_deletes w r r' res plan indexIDs packIDs :
  FinalizePrunePlanLoaded w r = (r', res) -> r_PrunePlan r = Some plan -> IndexIDs plan = IDSet_List indexIDs -> PackIDs plan = IDSet_List packIDs ->
  deletes r r' indexIDs packIDs.
Proof.
  intros H Ep Ei Ek. apply FinalizeLoaded_inv in H as [(plan' & ri & rp & E & _ & B)|[_ ->]]; [|by apply deletes_nothing].
  rewrite Ep in E. injection E as <-. split.
  - intros id packs Hl N. rewrite (b_indexes _ _ _ _ _ _ _ _ _ B). apply map_lookup_filter_Some. split; [done|].
    intros Hr%(b_listed _ _ _ _ _ _ _ _ _ B). rewrite Ei in Hr. by apply IDSet_List_elem in Hr.
  - intros id Hp N. rewrite (b_packs _ _ _ _ _ _ _ _ _ B). apply elem_of_difference. split; [done|].
    intros Hr. destruct (b_removed _ _ _ _ _ _ _ _ _ B id Hr) as [Hr' _]. rewrite Ek in Hr'. by apply IDSet_List_elem in Hr'.
Qed.

Lemma mark_and_delete_deletes x r observed required obsolete packIDs r' res :
  mark_and_delete x r observed required obsolete packIDs = (r', res) -> deletes r r' obsolete packIDs.
Proof.
  unfold mark_and_delete. set (m := if negb _ then _ else _).
  assert (I : forall r1 res1, m = (r1, res1) -> r_indexes r1 = r_indexes r /\ r_packs r1 = r_packs r
    /\ forall plan, res1 = Ok plan -> exists plan', r_PrunePlan r1 = Some plan' /\ IndexIDs plan' = IDSet_List obsolete /\ PackIDs plan' = IDSet_List packIDs).
  { intros r1 res1. unfold m. destruct (negb _); intros H; [by apply Complete_inv in H|by apply Persist_inv in H]. }
  intros H. apply then_inv in H as [(e & H & _)|(r1 & plan & H & H2)]; destruct (I _ _ H) as (E1 & E2 & G); [by apply deletes_nothing|].
  destruct (x_KeepDelete x); [injection H2 as <- _; by apply deletes_nothing|].
  destruct (G plan eq_refl) as (plan' & Ep & Ei & Ek).
  assert (D : deletes r1 r' obsolete packIDs).
  { apply then_inv in H2 as [(e & H2 & _)|(r2 & a & H2 & [= <- _])]; by eapply FinalizeLoaded_deletes. }
  unfold deletes in *. by rewrite E1, E2 in D.
Qed.

Lemma execute_normal_keeps x r packIDs ignore r' res pb bss :
  master (r_idx r) bss -> all_final (r_idx r) -> all_covered (r_indexes r) (r_idx r) ->
  (ignore <> ∅ -> rewrite_ok (x_rewrite x) r ignore) -> in_master (r_idx r) pb -> ~ pb_Pack pb ∈ ignore -> ~ pb_Pack pb ∈ packIDs ->
  pb_Pack pb ∈ r_packs r -> execute_normal x r packIDs ignore = (r', res) ->
  filed (r_indexes r') ∅ pb /\ pb_Pack pb ∈ r_packs r'.
Proof.
  intros M Fi C Ro Hm Hn Hk Hr. unfold execute_normal. set (m := if bool_decide _ then _ else _).
  assert (I : forall r1 res1, m = (r1, res1) -> r_packs r1 = r_packs r
    /\ match res1 with Err _ => filed (r_indexes r1) ∅ pb | Ok (_, obsolete) => filed (r_indexes r1) obsolete pb end).
  { intros r1 res1. unfold m. case_bool_decide as Ei; [|intros H; by apply (rewrite_keeps_filed _ _ _ _ _ _ _ M Fi C (Ro Ei) Hm Hn H)].
    intros [= <- <-]. split; [done|]. destruct (has_covered _ _ _ _ M Fi C Hm) as (id & packs & _ & Hl & Hp). exists id, packs.
    split; [done|]. split; [done|]. apply not_elem_of_empty. }
  intros H. apply then_inv in H as [(e & H & _)|(r1 & [required obsolete] & H & H2)]; destruct (I _ _ H) as [Ep Fd]; [by rewrite Ep|].
  destruct (bool_decide _ && _) eqn:B.
  - injection H2 as <- _. apply andb_true_iff in B as [->%bool_decide_eq_true _]. by rewrite Ep.
  - destruct (mark_and_delete_deletes _ _ _ _ _ _ _ _ H2) as [D1 D2]. split; [|apply D2; [by rewrite Ep|done]].
    destruct Fd as (id & packs & Hl & Hp & No). exists id, packs. split; [by apply D1|]. split; [done|apply not_elem_of_empty].
Qed.

(** A recovery deletes only the packs given; the index files are there again when it
    succeeds. *)
Lemma execute_recovery_keeps x r remove ignore r' res pb bss :
  master (r_idx r) bss -> fallback_ok (x_rewrite x) r ignore -> in_master (r_idx r) pb -> ~ pb_Pack pb ∈ ignore -> ~ pb_Pack pb ∈ remove ->
  pb_Pack pb ∈ r_packs r -> execute_recovery x r remove ignore = (r', res) ->
  pb_Pack pb ∈ r_packs r' /\ (res = Ok tt -> filed (r_indexes r') ∅ pb).
Proof.
  intros M [Sn Pm Fr] Hm Hn Hr Hp. unfold execute_recovery. intros H.
  assert (D : forall r1 res1, delete_indexes (x_recovery x) r (MasterIDs (r_idx r)) = (r1, res1) ->
    r_indexes r1 ⊆ r_indexes r /\ r_packs r1 = r_packs r /\ r_idx r1 = r_idx r).
  { unfold delete_indexes. intros r1 res1. destruct (deleteFiles _ _ _ _ _ _). intros [= <- _]. split; [apply map_filter_subseteq|done]. }
  apply then_inv in H as [(e & H & ->)|(r1 & [] & H & H2)]; destruct (D _ _ H) as (D1 & D2 & D3); [by rewrite D2|].
  set (r2 := if bool_decide (remove = ∅) then r1 else _) in H2.
  assert (K : pb_Pack pb ∈ r_packs r2 /\ r_indexes r2 = r_indexes r1 /\ r_idx r2 = r_idx r1).
  { unfold r2. case_bool_decide as Er; [by rewrite D2|]. unfold delete_packs. destruct (deleteFiles _ _ _ _ _ _) as [removed err] eqn:Ed.
    apply deleteFiles_spec in Ed as (Sub & _). cbn. split; [|done]. rewrite D2. apply elem_of_difference. split; [done|]. by intros ?%Sub. }
  destruct K as (K1 & K2 & K3). destruct (x_ctx_end x) as [[]|e]; [|by injection H2 as <- <-].
  split; [unfold SaveFallback in H2; destruct (fallback_saved (x_rewrite x) (r_idx r2) ignore); by injection H2 as <- _|]. intros ->.
  destruct (SaveFallback_filed (x_rewrite x) r2 r' ignore bss) as [F _]; [by rewrite K3, D3| |done|].
  - split; [done|done|]. intros files. rewrite K3, D3, K2. intros Hf id packs Hi. destruct (Fr _ Hf _ _ Hi) as [N U]. split; [|done].
    by eapply lookup_weaken_None.
  - rewrite (in_master_found _ _ _ M) in Hm. destruct Hm as [T (bs & Hb & [_ Hl]%of_handle_elem)%found_in_elem].
    apply list_elem_of_lookup in Hb as [i Hb]. destruct (Forall2_lookup_r _ _ _ _ _ (ms_holds _ _ M) Hb) as (idx & Hi & R).
    rewrite K3, D3 in F. apply (F idx pb); [by eapply list_elem_of_lookup_2|rewrite (has_iff _ _ _ R); eexists; by split|by right].
Qed.

(** *** The repack *)

Section Repack.
Context {cipher : Cipher} {laws : CipherLaws} {zstd : Zstd} {zlaws : ZstdLaws}.
Context (Write : bytes -> bytes -> Z * option string) (st : Settings) (chunker_MinSize : Z) (dec : bytes -> result bytes).

(** The repository before the execution: index and index files agree, and nothing waits to be
    written. *)
Record settled (y : System) : Prop := {
  se_index : exists now hash, rtc m_step (NewMasterIndex now hash) (r_idx (y_repo y));
  se_final : all_final (r_idx (y_repo y));
  se_covered : all_covered (r_indexes (y_repo y)) (r_idx (y_repo y));
  se_packs : r_packs (y_repo y) = dom (y_files y) }.

(** What a repack can do: it copies everything, or it stops somewhere; no new pack has the
    name of one that the index knows and that is missing. *)
Definition repacks (x : execEnv) (plan : Prune.PrunePlan) (y : System) : Prop :=
  let u := uploader_of y (x_treePM x) (x_dataPM x) in
  let '(u', keep', res) := x_repack x u in
  UploadProps.idle u
  /\ (forall id, id ∈ ignorePacks plan -> u_packs u' !! id = None)
  /\ match res with
     | Ok _ => exists keep sort_Blobs workers saved, keepBlobs plan = Some keep /\ (forall l, Permutation (sort_Blobs l) l)
         /\ repacked Write st chunker_MinSize dec sort_Blobs (repackPacks plan) workers keep u saved keep' u'
     | Err _ => rtc (attempt Write st chunker_MinSize) u u'
     end.

(** The content of a pack is as before, or what is there has the hash of the blob. *)
Definition genuine (old : gmap ID bytes) (pb : PackedBlob) (file : bytes) : Prop :=
  old !! pb_Pack pb = Some file
  \/ exists ct d, ReadAt file (b_Length (pb_Blob pb)) (b_Offset (pb_Blob pb)) = Ok ct /\ decodePackedBlob st pb ct = Ok d
     /\ Sum256 d = bh_ID (b_handle (pb_Blob pb)).

(** A blob can be found by the files alone. *)
Definition readable (old : gmap ID bytes) (y : System) (bh : BlobHandle) : Prop :=
  exists id packs pb file, r_indexes (y_repo y) !! id = Some packs /\ pb ∈ flat packs /\ b_handle (pb_Blob pb) = bh
    /\ y_files y !! pb_Pack pb = Some file /\ genuine old pb file.

(** The data of a blob is there, whether or not an index file says where. *)
Definition stored (old : gmap ID bytes) (y : System) (bh : BlobHandle) : Prop :=
  exists pb file, b_handle (pb_Blob pb) = bh /\ y_files y !! pb_Pack pb = Some file /\ genuine old pb file.

Lemma readable_stored old y bh : readable old y bh -> stored old y bh.
Proof. intros (id & packs & pb & file & _ & _ & H). by exists pb, file. Qed.

(** *** A blob in use during the execution *)

Context (sort_Slice : (packInfoWithID -> packInfoWithID -> bool) -> list packInfoWithID -> list packInfoWithID).
Context (repo : Prune.Repository) (handles : list BlobHandle) (L : list PackedBlob) (files : list (ID * Z)).
Context (opts : PruneOptions) (plan : Prune.PrunePlan) (x : execEnv) (y : System) (bh : BlobHandle).
Context (De : getZstdDecoder = Ok dec).
Context (P : PruneProps.prunable sort_Slice repo handles L files) (E : PlanPrune sort_Slice opts repo (Ok handles) = Ok plan).
Context (Ei : repo_idx repo = r_idx (y_repo y)) (S : settled y).

(** The packs before the execution; a recovery may have deleted unreferenced ones. *)
Context (old : gmap ID bytes) (So : y_files y ⊆ old).
Context (Ef : forall id, id ∈ map fst files -> (UnsafeRecovery (plan_opts plan) = true -> ~ id ∈ removePacksFirst plan) -> id ∈ dom (y_files y)).
Context (Hb : bh ∈ handles) (Ig : forall pb, pb ∈ L -> handle pb = bh -> ~ pb_Pack pb ∈ ignorePacks plan).

Lemma listed_in_master pb : pb ∈ L -> in_master (r_idx (y_repo y)) pb.
Proof. intros H. exists L. split; [|done]. rewrite <- Ei. by apply (PruneProps.pr_values _ _ _ _ _ P). Qed.

Lemma start_master : exists bss, master (r_idx (y_repo y)) bss.
Proof. destruct (se_index _ S) as (now & hash & R). destruct (m_steps_known _ _ _ (new_master now hash) R) as (bss & M & _). by exists bss. Qed.

(** As long as files are only added, it can be found. *)
Lemma added_readable u u' : u_packs u = y_files y -> u_indexes u = r_indexes (y_repo y) -> only_adds u u' ->
  readable old (set_uploader y u') bh.
Proof.
  intros Ep Ex [A1 A2]. rewrite Ep in A1. rewrite Ex in A2.
  destruct (PruneProps.planned_blob _ _ _ _ _ _ _ _ P E Hb Ig) as (pb & Hp & Eh & Hf & N0 & _). apply Ef, elem_of_dom in Hf as [file Hf]; [|done].
  destruct start_master as [bss M].
  destruct (has_covered _ _ _ _ M (se_final _ S) (se_covered _ S) (listed_in_master pb Hp)) as (id & packs & _ & Hl & Hk).
  exists id, packs, pb, file. split; [exact (lookup_weaken _ _ _ _ Hl A2)|]. do 2 (split; [done|]).
  split; [exact (lookup_weaken _ _ _ _ Hf A1)|left; exact (lookup_weaken _ _ _ _ Hf So)].
Qed.

(** Where it is when the index is to be rewritten. *)
Definition located (y1 : System) (remove : gset ID) : Prop :=
  (exists bss, master (r_idx (y_repo y1)) bss) /\ all_final (r_idx (y_repo y1)) /\ all_covered (r_indexes (y_repo y1)) (r_idx (y_repo y1))
  /\ r_packs (y_repo y1) = dom (y_files y1)
  /\ exists pb file, in_master (r_idx (y_repo y1)) pb /\ b_handle (pb_Blob pb) = bh /\ ~ pb_Pack pb ∈ ignorePacks plan ∪ remove
     /\ (UnsafeRecovery (plan_opts plan) = false -> ~ pb_Pack pb ∈ removePacksFirst plan) /\ y_files y1 !! pb_Pack pb = Some file /\ genuine old pb file.

Lemma kept_located remove : PruneTheory.elsewhere plan L bh = true \/ repackPacks plan = ∅ -> remove ⊆ removePacks plan ∪ repackPacks plan ->
  exists pb file, in_master (r_idx (y_repo y)) pb /\ b_handle (pb_Blob pb) = bh /\ ~ pb_Pack pb ∈ ignorePacks plan ∪ remove
     /\ (UnsafeRecovery (plan_opts plan) = false -> ~ pb_Pack pb ∈ removePacksFirst plan) /\ y_files y !! pb_Pack pb = Some file.
Proof.
  intros Ek Sub. destruct (PruneProps.planned_blob _ _ _ _ _ _ _ _ P E Hb Ig) as (pb & Hp & Eh & Hf & N1 & N2 & N3 & R).
  apply Ef, elem_of_dom in Hf as [file Hf]; [|done]. exists pb, file.
  assert (N4 : ~ pb_Pack pb ∈ repackPacks plan).
  { destruct Ek as [Ek|Ek]; [rewrite R; congruence|rewrite Ek; apply not_elem_of_empty]. }
  split; [by apply listed_in_master|]. split; [done|]. split; [|done].
  by intros [?|[?|?]%Sub%elem_of_union]%elem_of_union.
Qed.

(** The blobs to keep are in packs that are repacked. *)
Lemma kept_in_repacked h :
  (if PruneTheory.elsewhere plan L h then None else if decide (h ∈ handles) then Some 1 else None) <> None ->
  exists pb, b_handle (pb_Blob pb) = h /\ pb_Pack pb ∈ repackPacks plan /\ in_master (r_idx (y_repo y)) pb.
Proof.
  destruct (PruneTheory.elsewhere plan L h) eqn:Ew; [done|]. destruct (decide (h ∈ handles)) as [Hh|]; [|done]. intros _.
  destruct (PruneProps.prunable_plan _ _ _ _ _ _ _ P E) as (bss & bs & keep0 & packs & stats & _ & _ & Im & Po & _).
  destruct (PruneTheory.im_used _ _ _ _ _ _ Im h Hh) as (pb & Hp & Eh & info & Hi & U). exists pb. split; [done|]. split; [|by apply listed_in_master].
  destruct (decide (pb_Pack pb ∈ repackPacks plan)) as [|N]; [done|]. assert (T : PruneTheory.elsewhere plan L h = true); [|congruence].
  apply PruneTheory.elsewhere_spec. exists pb. do 2 (split; [done|]). split; [|done].
  intros (_ & p & Ep & Z0)%(PruneTheory.po_remove _ _ _ Po). rewrite Hi in Ep. injection Ep as <-. lia.
Qed.

Lemma settled_located : repackPacks plan = ∅ -> located y (removePacks plan).
Proof.
  intros R. split; [exact start_master|]. split; [apply S|]. split; [apply S|]. split; [apply S|].
  destruct (kept_located (removePacks plan)) as (pb & file & H1 & H2 & H3 & H4 & H5); [by right|apply union_subseteq_l|].
  exists pb, file. do 5 (split; [done|]). left. exact (lookup_weaken _ _ _ _ H5 So).
Qed.

(** After a repack it is in a pack that stays, or in a new one. *)
Lemma repacked_located u u' keep keep' sort_Blobs workers saved :
  u_packs u = y_files y -> u_indexes u = r_indexes (y_repo y) -> u_idx u = r_idx (y_repo y) -> UploadProps.idle u ->
  keepBlobs plan = Some keep -> repackPacks plan <> ∅ -> (forall l, Permutation (sort_Blobs l) l) ->
  (forall id, id ∈ ignorePacks plan -> u_packs u' !! id = None) ->
  repacked Write st chunker_MinSize dec sort_Blobs (repackPacks plan) workers keep u saved keep' u' ->
  located (set_uploader y u') (removePacks plan ∪ repackPacks plan).
Proof.
  intros Ep Ex Eu (I1 & I2 & I3) Ek Nr Ps Fresh R.
  destruct (PruneProps.prunable_plan _ _ _ _ _ _ _ P E) as (bss & bs & keep0 & packs & stats & M & Hd & _ & Po & _ & K).
  destruct (K Nr) as (keep1 & Ek1 & W & V). rewrite Ek in Ek1. injection Ek1 as <-. rewrite Ei, <- Eu in M.
  destruct (repacked_uploaded Write st chunker_MinSize dec De sort_Blobs Ps (repackPacks plan) workers _ keep u saved keep' u'
    (ex_intro _ bss (ex_intro _ bs (conj M (conj Hd (conj W V))))) ltac:(intros h _ Hh; rewrite Eu; by apply kept_in_repacked) R) as (U & _ & Sv).
  destruct (DurableProps.uploaded_covers Write st chunker_MinSize u _ u' U) as [[_ C'] F'].
  { split; [by exists bss|]. rewrite Ex, Eu. apply S. }
  destruct (DurableProps.attempts_add Write st chunker_MinSize u u' (DurableProps.uploaded_attempts _ _ _ _ _ _ U)) as [A _].
  assert (Up : uploading st (dom (u_packs u)) u bss) by (split; [done|unfold all_packers; by rewrite I1, I2, I3|done]).
  destruct (uploaded_stores Write st dec De _ chunker_MinSize u bss _ u' Up U) as (bss' & M' & Kp & _ & N).
  split; [by exists bss'|]. do 2 (split; [done|]). split; [done|]. rewrite Ep in A.
  assert (Ty : type_ok (bh_Type bh)) by by apply (proj1 (Forall_forall _ _) (PruneProps.pr_types _ _ _ _ _ P)).
  destruct (PruneTheory.elsewhere plan L bh) eqn:Ew.
  - destruct (kept_located (removePacks plan ∪ repackPacks plan)) as (pb & file & H1 & H2 & H3 & H4 & H5); [by left|done|].
    exists pb, file. rewrite <- Eu, (in_master_found _ _ _ M) in H1. destruct H1 as [T H1].
    split; [change (in_master (u_idx u') pb); rewrite (in_master_found _ _ _ M'); split; [done|by apply Kp]|].
    do 3 (split; [done|]). split; [exact (lookup_weaken _ _ _ _ H5 A)|left; exact (lookup_weaken _ _ _ _ H5 So)].
  - destruct (Sv bh Ty) as [d Hd0]; [by rewrite Ew, decide_True|].
    destruct (proj1 (proj2 (N _ (as_given_elem _ _ _ Hd0))) eq_refl) as (_ & pb & file & ct & H1 & H2 & H3 & H4 & H5). rewrite Ep in H5.
    assert (Hh : b_handle (pb_Blob pb) = bh). { apply found_in_elem in H1 as (b & _ & H1). by apply of_handle_elem in H1 as [? _]. }
    assert (New : forall id, id ∈ map fst files -> (UnsafeRecovery (plan_opts plan) = true -> ~ id ∈ removePacksFirst plan) -> pb_Pack pb <> id)
      by (intros id Hid Hn <-; by apply (Ef _ Hid) in Hn).
    exists pb, file. split; [change (in_master (u_idx u') pb); rewrite (in_master_found _ _ _ M'), Hh; done|]. split; [done|].
    assert (Nn : ~ pb_Pack pb ∈ removePacks plan ∪ repackPacks plan).
    { assert (In : forall id p, packs !! id = Some p -> ~ id ∈ removePacksFirst plan) by (intros id p Hp [_ Hq]%(PruneTheory.po_first _ _ _ Po); congruence).
      intros [(Hx & p & Hq & _)%(PruneTheory.po_remove _ _ _ Po)|(Hx & p & Hq & _)%(PruneTheory.po_repack _ _ _ Po)]%elem_of_union;
        by apply (New _ Hx (fun _ => In _ _ Hq)). }
    split; [intros [Hx%Fresh|Hx]%elem_of_union; [congruence|done]|].
    split; [intros Un (Hx & _)%(PruneTheory.po_first _ _ _ Po); apply (New _ Hx); [congruence|done]|].
    split; [done|]. right. exists ct, d. split; [done|]. split; [done|]. by apply (decode_hash st pb ct d).
Qed.

(** The repack as a whole. *)
Lemma run_repack_spec y1 res1 :
  (repackPacks plan <> ∅ -> repacks x plan y) -> run_repack x plan y = (y1, res1) ->
  match res1 with Ok remove => located y1 remove | Err _ => readable old y1 bh end.
Proof.
  intros Rp. unfold run_repack. case_bool_decide as Er; [intros [= <- <-]; by apply settled_located|].
  specialize (Rp Er). unfold repacks in Rp. set (u := uploader_of y (x_treePM x) (x_dataPM x)) in *.
  destruct (x_repack x u) as [[u' keep'] res]. destruct Rp as (I & Fresh & Rp). intros [= <- <-].
  assert (Ad : rtc (attempt Write st chunker_MinSize) u u' -> readable old (set_uploader y u') bh).
  { intros A. by apply (added_readable u u'); [..|eapply DurableProps.attempts_add]. }
  destruct res as [[]|e]; [|by apply Ad]. cbn [rbind]. destruct Rp as (keep & sort_Blobs & workers & saved & Ek & Ps & R).
  pose proof (repacked_located u u' keep keep' sort_Blobs workers saved eq_refl eq_refl eq_refl I Ek Er Ps Fresh R) as Lc.
  assert (Rd : readable old (set_uploader y u') bh); [|destruct (AssociatedLen _ _) as [n|]; [cbn [rbind]; by destruct (guard _ _)|done]].
  destruct Lc as ((bss & M) & F & C & Ep & pb & file & H1 & H2 & _ & _ & H5 & H6).
  destruct (has_covered _ _ _ _ M F C H1) as (id & packs & _ & Hl & Hp). by exists id, packs, pb, file.
Qed.

(** What is assumed of the index writer: of the rewrite, or in a recovery of the fallback. *)
Definition writer_ok : Prop :=
  forall y1 remove, run_repack x plan y = (y1, Ok remove) ->
    if UnsafeRecovery (plan_opts plan) then fallback_ok (x_rewrite x) (y_repo y1) (ignorePacks plan ∪ remove)
    else ignorePacks plan ∪ remove <> ∅ -> rewrite_ok (x_rewrite x) (y_repo y1) (ignorePacks plan ∪ remove).

(** The outcome: the blob can be found, except that a recovery that fails may leave it
    without an index file. *)
Definition kept (y' : System) (res : result unit) : Prop :=
  stored old y' bh /\ (UnsafeRecovery (plan_opts plan) = false \/ res = Ok tt -> readable old y' bh).

Lemma readable_kept y' res : readable old y' bh -> kept y' res.
Proof. intros R. split; [by apply readable_stored|done]. Qed.

(** The files of the system after the last step. *)
Lemma set_repo_kept y1 r res pb file :
  b_handle (pb_Blob pb) = bh -> y_files y1 !! pb_Pack pb = Some file -> genuine old pb file -> pb_Pack pb ∈ r_packs r ->
  (UnsafeRecovery (plan_opts plan) = false \/ res = Ok tt -> filed (r_indexes r) ∅ pb) ->
  kept (set_repo y1 (if is_ok res then clearIndex (x_world x) r else r)) res.
Proof.
  intros Eh Hf G Hr Fd. assert (Hf' : y_files (set_repo y1 (if is_ok res then clearIndex (x_world x) r else r)) !! pb_Pack pb = Some file).
  { apply map_lookup_filter_Some. split; [done|]. by destruct (is_ok res). }
  split; [by exists pb, file|]. intros (id & packs & Hl & Hp & _)%Fd. exists id, packs, pb, file. split; [by destruct (is_ok res)|done].
Qed.

Lemma execute_rest_keeps y' res :
  (repackPacks plan <> ∅ -> repacks x plan y) -> writer_ok -> execute_rest x plan y = (y', res) -> kept y' res.
Proof.
  intros Rp Wo H. set (u := uploader_of y (x_treePM x) (x_dataPM x)).
  assert (R0 : readable old y bh) by exact (added_readable u u eq_refl eq_refl (conj (reflexivity _) (reflexivity _))).
  unfold execute_rest in H. destruct (x_ctx x) as [[]|e]; [|injection H as <- <-; by apply readable_kept].
  destruct (run_repack x plan y) as [y1 res1] eqn:Er. pose proof (run_repack_spec _ _ Rp Er) as Sp.
  destruct res1 as [remove|e]; [|injection H as <- <-; by apply readable_kept]. pose proof (Wo _ _ Er) as W.
  destruct Sp as ((bss & M) & F & C & Ep & pb & file & H1 & H2 & H3 & H4 & H5 & H6).
  assert (Hk : pb_Pack pb ∈ r_packs (y_repo y1)) by (rewrite Ep; by apply elem_of_dom_2 in H5).
  assert (N : ~ pb_Pack pb ∈ remove) by (intros ?; apply H3, elem_of_union; by right).
  destruct (UnsafeRecovery (plan_opts plan)) eqn:Un.
  - destruct (execute_recovery _ _ _ _) as [r res'] eqn:En. injection H as <- <-.
    destruct (execute_recovery_keeps _ _ _ _ _ _ _ _ M W H1 H3 N Hk En) as [Hr Fd]. apply (set_repo_kept y1 r res' pb file); [done..|].
    rewrite Un. by intros [?| ->]; [|apply Fd].
  - destruct (execute_normal _ _ _ _) as [r res'] eqn:En. injection H as <- <-.
    assert (N' : ~ pb_Pack pb ∈ removePacksFirst plan ∪ remove) by (intros [?|?]%elem_of_union; [by apply H4|done]).
    destruct (execute_normal_keeps _ _ _ _ _ _ _ _ M F C W H1 H3 N' Hk En) as [Fd Hr]. by apply (set_repo_kept y1 r res' pb file).
Qed.
End Repack.

(** *** The first deletion of a recovery *)

(** It deletes packs given, and nothing else. *)
Lemma delete_first_spec x plan y : settled y ->
  settled (delete_first x plan y) /\ y_files (delete_first x plan y) ⊆ y_files y
  /\ r_idx (y_repo (delete_first x plan y)) = r_idx (y_repo y)
  /\ forall id, id ∈ dom (y_files y) -> (UnsafeRecovery (plan_opts plan) = true -> ~ id ∈ removePacksFirst plan) ->
       id ∈ dom (y_files (delete_first x plan y)).
Proof.
  intros [S1 S2 S3 S4]. unfold delete_first. destruct (UnsafeRecovery (plan_opts plan) && _) eqn:B; [|by repeat split].
  apply andb_true_iff in B as [Un _]. unfold delete_packs. destruct (deleteFiles _ _ _ _ _ _) as [removed err] eqn:Ed.
  apply deleteFiles_spec in Ed as (Sub & _). split; [|split; [apply map_filter_subseteq|split; [done|]]].
  - split; [exact S1|exact S2|exact S3|]. change (r_packs (y_repo y) ∖ removed = dom (filter (fun '(id, _) => id ∈ r_packs (y_repo y) ∖ removed) (y_files y))).
    apply set_eq. intros id. rewrite elem_of_dom, elem_of_difference, S4. split.
    + intros [[file Hf]%elem_of_dom N]. exists file. apply map_lookup_filter_Some. split; [done|]. apply elem_of_difference.
      split; [by apply elem_of_dom_2 in Hf|done].
    + intros [file [Hf [_ N]%elem_of_difference]%map_lookup_filter_Some]. split; [by apply elem_of_dom_2 in Hf|done].
  - intros id Hd N. pose proof Hd as [file Hf]%elem_of_dom. apply elem_of_dom. exists file. apply map_lookup_filter_Some.
    split; [done|]. apply elem_of_difference. rewrite S4. split; [done|]. by intros ?%Sub%(N Un).
Qed.
End ExecuteTheory.

(** ** Properties *)

Module ExecuteProps.
Import IndexTheory IndexProps MasterTheory UploadTheory UploadProps RewriteTheory RewriteProps RepackTheory RepackProps.
Import DurableTheory DurableProps MarkerTheory MarkerProps PruneProps ExecuteTheory.

(** C1. A prune loses no blob in use, from the plan to the files that are left. Whatever the
    execution of a plan returns and wherever it stopped, for every blob in use that is not
    listed in a missing pack there is a place in a pack that exists, which either has the
    content it had before, or holds at that place the data with the hash of the blob; and
    an index file names that place, unless the plan is an unsafe recovery and the execution returns
    an error (it deletes the index files before it writes the new ones). The assumptions: index
    and index files agree at the start and the pack sizes of the plan are those of the packs
    there, a repack either copies everything or stops somewhere and makes no pack of the name
    of a missing one, new files have new names, SHA-256 has no collision on the packs of the
    index files that are rewritten, and the context is not cancelled while the last new
    index is handed over. *)
Theorem Execute_keeps_used {cipher : Cipher} {laws : CipherLaws} {zstd : Zstd} {zlaws : ZstdLaws}
    (Write : bytes -> bytes -> Z * option string) (st : Settings) (minSize : Z) (dec : bytes -> result bytes)
    (sort_Slice : (packInfoWithID -> packInfoWithID -> bool) -> list packInfoWithID -> list packInfoWithID)
    (repo : Prune.Repository) (handles : list BlobHandle) (L : list PackedBlob) (files : list (ID * Z))
    (opts : PruneOptions) (plan : Prune.PrunePlan) (x : execEnv) (y y' : System) (res : result unit) (bh : BlobHandle) :
  getZstdDecoder = Ok dec -> prunable sort_Slice repo handles L files -> PlanPrune sort_Slice opts repo (Ok handles) = Ok plan ->
  repo_idx repo = r_idx (y_repo y) -> (forall id, id ∈ map fst files <-> id ∈ dom (y_files y)) -> settled y ->
  bh ∈ handles -> (forall pb, pb ∈ L -> handle pb = bh -> ~ pb_Pack pb ∈ ignorePacks plan) ->
  (repackPacks plan <> ∅ -> repacks Write st minSize dec x plan (delete_first x plan y)) -> writer_ok plan x (delete_first x plan y) ->
  Execute x plan y = (y', res) ->
  stored st (y_files y) y' bh /\ (UnsafeRecovery (plan_opts plan) = false \/ res = Ok tt -> readable st (y_files y) y' bh).
Proof.
  intros De P E Ei Ef S Hb Ig Rp Wo H. destruct (delete_first_spec x plan y S) as (S1 & Sub & Ex & D). unfold Execute in H.
  destruct (x_DryRun x); [injection H as <- <-|].
  - eapply readable_kept, (added_readable st sort_Slice repo handles L files opts plan y bh P E Ei S (y_files y) (reflexivity _) (fun id Hi _ => proj1 (Ef id) Hi)
      Hb Ig (uploader_of y (x_treePM x) (x_dataPM x)) (uploader_of y (x_treePM x) (x_dataPM x)) eq_refl eq_refl (conj (reflexivity _) (reflexivity _))).
  - exact (execute_rest_keeps Write st minSize dec sort_Slice repo handles L files opts plan x (delete_first x plan y) bh De P E (eq_trans Ei (eq_sym Ex)) S1
      (y_files y) Sub (fun id Hi => D id (proj1 (Ef id) Hi)) Hb Ig y' res Rp Wo H).
Qed.

(** The fallback of a recovery writes the index anew. If it succeeds and its context is not
    cancelled while the last index is handed over, every entry of the index in memory is in
    an index file, apart from those of the excluded packs in indexes that are final; the files
    that were left are still there, and the index in memory is empty. *)
Theorem SaveFallback_keeps (e : rewriteEnv) (r r' : Repository) (excludePacks : gset ID) (now : Z) (hash : Z -> ID -> Z) :
  rtc m_step (NewMasterIndex now hash) (r_idx r) -> (forall l, Permutation (rw_map_order e l) l) -> rw_sent e = true ->
  (forall files, fallback_saved e (r_idx r) excludePacks = Ok files -> fresh_files files (r_indexes r)) ->
  SaveFallback e r excludePacks = (r', Ok tt) ->
  (forall idx pb, idx ∈ mi_idx (r_idx r) -> has idx pb -> ix_final idx = false \/ ~ pb_Pack pb ∈ excludePacks -> filed (r_indexes r') ∅ pb)
  /\ r_indexes r ⊆ r_indexes r' /\ MasterValues (r_idx r') = Ok [].
Proof.
  intros S Pm Sn Fr H. destruct (m_steps_known _ _ _ (new_master now hash) S) as (bss & M & _ & _).
  destruct (SaveFallback_filed e r r' excludePacks bss M (Build_fallback_ok _ _ _ Sn Pm Fr) H) as [F O]. do 2 (split; [done|]). unfold SaveFallback in H.
  destruct (fallback_saved e (r_idx r) excludePacks) as [files|]; [|done]. injection H as <-.
  change (MasterValues (NewMasterIndex (rw_created e) (rw_newhash e)) = Ok []).
  destruct (AssociatedTheory.values_in_spec _ _ (ms_holds _ _ (new_master (rw_created e) (rw_newhash e)))) as (pbs & Ev & G).
  unfold MasterValues. rewrite Ev. f_equal. destruct pbs as [|pb pbs]; [done|].
  destruct (proj1 (G pb) (list_elem_of_here _ _)) as (b & t & ->%list_elem_of_singleton & _ & ?%elem_of_nil). done.
Qed.

(** ** Witness *)

#[local] Existing Instances toy_cipher toy_laws toy_zstd toy_zstd_laws.

(** The repository of the upload, of which one data blob is in use: the pack of the tree is
    removed, the pack with the data is repacked. *)
Definition system_of (u : Uploader) : System :=
  mkSystem (PruneMarker.mkRepository None (Ok tt) 2 false true (u_idx u) (u_indexes u) (dom (u_packs u))) (u_packs u).
Definition toy_system : System := system_of toy_u7.
Definition sizes (packs : gmap ID bytes) : list (ID * Z) := map (fun '(id, file) => (id, zlen file)) (map_to_list packs).
Definition prune_of (u : Uploader) : Prune.Repository := Prune.mkRepository (u_idx u) 2 (16 * 1024 * 1024) 2 false (Ok (sizes (u_packs u))).
Definition toy_prune : Prune.Repository := prune_of toy_u7.
Definition plan_or_none (r : result Prune.PrunePlan) : Prune.PrunePlan := match r with Ok plan => plan | Err _ => no_plan end.
Definition toy_plan : Prune.PrunePlan := plan_or_none (PlanPrune insertion_sort sample_options toy_prune (Ok [toy_handle])).

Definition copied (plan : Prune.PrunePlan) (u : Uploader) : list (BlobHandle * bytes) * Repacking :=
  toy_steps 60 (repackPacks plan) (rp_start_state (default (mkSet [] ∅) (keepBlobs plan)) u).
Definition copied_flushed (plan : Prune.PrunePlan) (u : Uploader) : Uploader :=
  fst (flush_packers full_Write (fun _ => Ok tt) (fun _ => Ok tt) (rk_u (snd (copied plan u)))).
Definition copied_stored (plan : Prune.PrunePlan) (u : Uploader) : Uploader := fst (toy_pack (copied_flushed plan u)).
Definition copied_end (plan : Prune.PrunePlan) (u : Uploader) : Uploader :=
  fst (flush_index (fun _ => (repeat x07 32, None)) (copied_stored plan u)).

Definition toy_rewrite : rewriteEnv :=
  mkRewriteEnv keep_order keep_order keep_order (fun _ => 0) 0 toy_hash true (fun _ => Ok tt) (fun _ => (repeat x06 32, None)) [].
Definition toy_exec : execEnv :=
  mkExecEnv false false "" "marker" (Ok tt) (Ok tt) toy_manager toy_manager
    (fun u => (copied_end toy_plan u, rk_keep (snd (copied toy_plan u)), Ok tt)) toy_rewrite calm calm calm.
Definition toy_result : System := fst (Execute toy_exec toy_plan toy_system).

(** *** Its assumptions *)

Lemma sizes_names packs : map fst (sizes packs) = map fst (map_to_list packs).
Proof. unfold sizes. rewrite map_map. apply map_ext. by intros [id file]. Qed.

Lemma sizes_dom packs id : id ∈ map fst (sizes packs) <-> id ∈ dom packs.
Proof.
  rewrite sizes_names, list_elem_of_fmap, elem_of_dom. split.
  - intros ([i file] & -> & H%elem_of_map_to_list). by exists file.
  - intros [file H]. exists (id, file). split; [done|by apply elem_of_map_to_list].
Qed.

Lemma same_index u : repo_idx (prune_of u) = r_idx (y_repo (system_of u)).
Proof. done. Qed.

Lemma same_packs u id : id ∈ map fst (sizes (u_packs u)) <-> id ∈ dom (y_files (system_of u)).
Proof. apply sizes_dom. Qed.

Lemma plan_or_none_ok r : is_ok r = true -> r = Ok (plan_or_none r).
Proof. by destruct r. Qed.

Lemma toy_planned : PlanPrune insertion_sort sample_options toy_prune (Ok [toy_handle]) = Ok toy_plan.
Proof. apply plan_or_none_ok. vm_compute. reflexivity. Qed.

Lemma toy_length : zlen toy_values = 3.
Proof. vm_compute. reflexivity. Qed.

Lemma toy_prunable : prunable insertion_sort toy_prune [toy_handle] toy_values (sizes (u_packs toy_u7)).
Proof.
  split; [exact insertion_sort_perm|exists 0, toy_hash; exact toy_index_steps|vm_compute; reflexivity|rewrite toy_length; lia|done| |].
  - rewrite sizes_names. apply NoDup_fst_map_to_list.
  - apply Forall_singleton. done.
Qed.

Lemma system_settled u saved u' :
  uploaded full_Write toy_settings (512 * 1024) u saved u' -> u_idx u = NewMasterIndex 0 toy_hash ->
  rtc m_step (NewMasterIndex 0 toy_hash) (u_idx u') -> settled (system_of u').
Proof.
  intros U E R. destruct (uploaded_covers _ _ _ _ _ _ U) as [[_ C] F].
  { split; rewrite E; [exists [fun _ => []]; apply new_master|apply new_covered]. }
  by split; [exists 0, toy_hash| | |].
Qed.

Lemma toy_settled : settled toy_system.
Proof. exact (system_settled _ _ _ toy_run eq_refl toy_index_steps). Qed.

Definition no_packs (X : gset ID) : bool := bool_decide (X = ∅).

Lemma no_packs_elem X id : no_packs X = true -> ~ id ∈ X.
Proof. intros ->%bool_decide_eq_true. apply not_elem_of_empty. Qed.

Lemma toy_ignores : no_packs (ignorePacks toy_plan) = true.
Proof. vm_compute. reflexivity. Qed.

Lemma toy_recovery : UnsafeRecovery (plan_opts toy_plan) = false.
Proof. vm_compute. reflexivity. Qed.

Definition toy_before : Uploader := uploader_of toy_system toy_manager toy_manager.

Lemma toy_kept : is_Some (keepBlobs toy_plan).
Proof. apply (bool_decide_eq_true_1 _). vm_compute. reflexivity. Qed.

Lemma toy_copies : Repack.repacked full_Write toy_settings (512 * 1024) toy_decode StreamProps.sort_offsets (repackPacks toy_plan) 1
  (default (mkSet [] ∅) (keepBlobs toy_plan)) toy_before (fst (copied toy_plan toy_before)) (rk_keep (snd (copied toy_plan toy_before)))
  (copied_end toy_plan toy_before).
Proof.
  exists (snd (copied toy_plan toy_before)), (copied_flushed toy_plan toy_before), (copied_stored toy_plan toy_before),
    (fun _ => Ok tt), (fun _ => Ok tt), (fun _ => (repeat x07 32, None)). split; [apply toy_steps_sound|].
  split; [vm_compute; repeat split; reflexivity|]. split; [reflexivity|]. split; [unfold copied_flushed; apply ends_ok; vm_compute; reflexivity|].
  split; [apply (ups_cons _ _ _ _ [] (copied_stored toy_plan toy_before) []); [apply toy_pack_step; vm_compute; reflexivity|constructor]|].
  split; [vm_compute; reflexivity|]. split; [unfold copied_end; apply ends_ok; vm_compute; reflexivity|].
  eapply (fresh_one _ _ (repeat x07 32)). vm_compute. reflexivity.
Qed.

Lemma toy_before_idle : idle toy_before.
Proof. vm_compute. repeat split; reflexivity. Qed.

(** A repack that copies everything, when no pack is missing. *)
Lemma repacks_all x plan y keep saved workers keep' u' :
  idle (uploader_of y (x_treePM x) (x_dataPM x)) -> no_packs (ignorePacks plan) = true ->
  x_repack x (uploader_of y (x_treePM x) (x_dataPM x)) = (u', keep', Ok tt) -> keepBlobs plan = Some keep ->
  Repack.repacked full_Write toy_settings (512 * 1024) toy_decode StreamProps.sort_offsets (repackPacks plan) workers
    (default (mkSet [] ∅) (keepBlobs plan)) (uploader_of y (x_treePM x) (x_dataPM x)) saved keep' u' ->
  repacks full_Write toy_settings (512 * 1024) toy_decode x plan y.
Proof.
  intros I N E Ek R. unfold repacks. rewrite E. split; [done|]. split; [by intros id ?%(no_packs_elem _ _ N)|].
  rewrite Ek in R. exists keep, StreamProps.sort_offsets, workers, saved. split; [done|]. split; [apply StreamProps.sort_offsets_perm|done].
Qed.

(** Without recovery, nothing is deleted first. *)
Lemma delete_first_normal x plan y : UnsafeRecovery (plan_opts plan) = false -> delete_first x plan y = y.
Proof. unfold delete_first. by intros ->. Qed.

Lemma repacks_first Write st minSize dec x plan y :
  UnsafeRecovery (plan_opts plan) = false -> repacks Write st minSize dec x plan y -> repacks Write st minSize dec x plan (delete_first x plan y).
Proof. intros Un. by rewrite delete_first_normal. Qed.

Lemma toy_repacks : repacks full_Write toy_settings (512 * 1024) toy_decode toy_exec toy_plan (delete_first toy_exec toy_plan toy_system).
Proof.
  destruct toy_kept as [keep Ek]. apply (repacks_first _ _ _ _ _ _ _ toy_recovery).
  exact (repacks_all toy_exec toy_plan toy_system keep _ _ _ _ toy_before_idle toy_ignores eq_refl Ek toy_copies).
Qed.

(** A test for the assumptions on a rewrite that keeps one pack. *)
#[local] Instance wide_dec b : Decision (wide b).
Proof. unfold wide, uint32. apply _. Defined.
#[local] Instance wide_file_dec packs : Decision (wide_file packs).
Proof. unfold wide_file. apply _. Defined.

Definition loaded_groups (e : rewriteEnv) (r : Repository) (ignore : gset ID) : list PackBlobs :=
  match load_all (rw_created e) (rw_newhash e) (LoadUnpacked (rw_load e) r) (rw_order e (elements (MasterIDs (r_idx r)))) with
  | Ok idxs => groups_of (rw_map_order e) ignore idxs
  | Err _ => []
  end.

Definition same_hashed (sort_Blobs : list Blob -> list Blob) (gs : list PackBlobs) : bool :=
  match gs with
  | [] => true
  | g :: _ => forallb (fun g' => bool_decide (hashed sort_Blobs g' = hashed sort_Blobs g)) gs
  end.

Definition new_name (files : list (ID * list packJSON)) (indexes : gmap ID (list packJSON)) : bool :=
  match files with [(id, _)] => bool_decide (indexes !! id = None) | _ => false end.

Definition rewrite_test (e : rewriteEnv) (r : Repository) (ignore : gset ID) : bool :=
  forallb (fun '(_, packs) => bool_decide (wide_file packs)) (map_to_list (r_indexes r))
  && same_hashed (rw_sort_Blobs e) (loaded_groups e r ignore) && new_name (rewritten_files e r ignore) (r_indexes r).

Lemma same_hashed_spec sort_Blobs gs g g' :
  same_hashed sort_Blobs gs = true -> g ∈ gs -> g' ∈ gs -> hashed sort_Blobs g = hashed sort_Blobs g'.
Proof.
  destruct gs as [|g0 gs]; [by intros _ ?%elem_of_nil|]. unfold same_hashed. rewrite forallb_forall. intros F Hg Hg'.
  pose proof (F g (proj1 (list_elem_of_In _ _) Hg)) as E%bool_decide_eq_true.
  pose proof (F g' (proj1 (list_elem_of_In _ _) Hg')) as E'%bool_decide_eq_true. congruence.
Qed.

Lemma rewrite_test_ok r ignore : rewrite_test toy_rewrite r ignore = true -> rewrite_ok toy_rewrite r ignore.
Proof.
  unfold rewrite_test. rewrite !andb_true_iff, forallb_forall. intros [[W Sh] N]. split; [done| | |by intros id packs ?%elem_of_nil].
  - split; [done|done|done| |by intros id _ ?%elem_of_nil|].
    + intros id packs _ H%LoadUnpacked_file. apply elem_of_map_to_list in H. specialize (W _ (proj1 (list_elem_of_In _ _) H)).
      by apply bool_decide_eq_true in W.
    + intros idxs E g g' Hg Hg' _. unfold loaded_groups in Sh. rewrite E in Sh. by eapply same_hashed_spec.
  - unfold new_name in N. destruct (rewritten_files toy_rewrite r ignore) as [|[id packs] [|]]; [done| |done].
    apply (fresh_one _ _ id packs). by rewrite N.
Qed.

Definition rewrite_tested (x : execEnv) (plan : Prune.PrunePlan) (y : System) : bool :=
  match run_repack x plan y with
  | (y1, Ok remove) => rewrite_test (x_rewrite x) (y_repo y1) (ignorePacks plan ∪ remove)
  | (_, Err _) => true
  end.

Lemma rewrite_tested_ok x plan y y1 remove :
  x_rewrite x = toy_rewrite -> rewrite_tested x plan y = true -> run_repack x plan y = (y1, Ok remove) ->
  rewrite_ok (x_rewrite x) (y_repo y1) (ignorePacks plan ∪ remove).
Proof. unfold rewrite_tested. intros -> T E. rewrite E in T. by apply rewrite_test_ok. Qed.

Lemma rewrite_tested_writer x plan y :
  UnsafeRecovery (plan_opts plan) = false -> x_rewrite x = toy_rewrite -> rewrite_tested x plan y = true ->
  writer_ok plan x (delete_first x plan y).
Proof. intros Un Er T y1 remove. rewrite delete_first_normal, Un by done. intros E _. by apply (rewrite_tested_ok _ _ y). Qed.

Lemma toy_tested : rewrite_tested toy_exec toy_plan toy_system = true.
Proof. vm_compute. reflexivity. Qed.

Definition succeeds (r : System * result unit) : bool := is_ok (snd r).

Lemma succeeds_ok r : succeeds r = true -> r = (fst r, Ok tt).
Proof. destruct r as [y [[]|]]; done. Qed.

Lemma toy_executed : succeeds (Execute toy_exec toy_plan toy_system) = true.
Proof. vm_compute. reflexivity. Qed.

Lemma Execute_keeps_used_witness :
  Execute toy_exec toy_plan toy_system = (toy_result, Ok tt) /\ readable toy_settings (y_files toy_system) toy_result toy_handle.
Proof.
  pose proof (succeeds_ok _ toy_executed) as E. split; [exact E|].
  exact (proj2 (Execute_keeps_used full_Write toy_settings (512 * 1024) toy_decode insertion_sort toy_prune [toy_handle] toy_values
    (sizes (u_packs toy_u7)) sample_options toy_plan toy_exec toy_system toy_result (Ok tt) toy_handle
    eq_refl toy_prunable toy_planned (same_index toy_u7) (same_packs toy_u7) toy_settled (list_elem_of_here _ _)
    (fun pb _ _ => no_packs_elem _ _ toy_ignores) (fun _ => toy_repacks)
    (rewrite_tested_writer toy_exec toy_plan toy_system toy_recovery eq_refl toy_tested) E) (or_introl toy_recovery)).
Defined.

(** After its index files are gone, the repository gets a new one. *)
Definition bare_repo (u : Uploader) : Repository := (y_repo (system_of u)) <| r_indexes := ∅ |>.
Definition fallback_result : Repository := fst (SaveFallback toy_rewrite (bare_repo toy_u7) ∅).

Definition one_name (r : result (list (ID * list packJSON))) : bool := match r with Ok [_] => true | _ => false end.

Lemma one_name_fresh r files : one_name r = true -> r = Ok files -> fresh_files files ∅.
Proof.
  intros T ->. destruct files as [|[id packs] [|]]; [done| |done]. intros i ps [= -> ->]%list_elem_of_singleton.
  split; [apply lookup_empty|]. by intros packs' [= ->]%list_elem_of_singleton.
Qed.

Lemma fallback_named : one_name (fallback_saved toy_rewrite (u_idx toy_u7) ∅) = true.
Proof. vm_compute. reflexivity. Qed.

Lemma fallback_done : is_ok (snd (SaveFallback toy_rewrite (bare_repo toy_u7) ∅)) = true.
Proof. vm_compute. reflexivity. Qed.

Lemma bare_fresh u :
  one_name (fallback_saved toy_rewrite (u_idx u) ∅) = true ->
  forall files, fallback_saved toy_rewrite (r_idx (bare_repo u)) ∅ = Ok files -> fresh_files files (r_indexes (bare_repo u)).
Proof. intros T files E. exact (one_name_fresh _ files T E). Qed.

Lemma bare_steps u : rtc m_step (NewMasterIndex 0 toy_hash) (u_idx u) -> rtc m_step (NewMasterIndex 0 toy_hash) (r_idx (bare_repo u)).
Proof. done. Qed.

Lemma SaveFallback_keeps_witness :
  SaveFallback toy_rewrite (bare_repo toy_u7) ∅ = (fallback_result, Ok tt) /\ MasterValues (r_idx fallback_result) = Ok [].
Proof.
  pose proof (ends_ok _ fallback_done) as E. split; [exact E|].
  exact (proj2 (proj2 (SaveFallback_keeps toy_rewrite (bare_repo toy_u7) fallback_result ∅ 0 toy_hash
    (bare_steps toy_u7 toy_index_steps) (fun l => reflexivity l) eq_refl (bare_fresh toy_u7 fallback_named) E))).
Defined.
End ExecuteProps.
