(* ===== verification/Calendar.v ===== *)
(** * Times and calendar dates (what [internal/data] uses of the package [time])

    A time is a number of nanoseconds and a location; a location gives for an instant the
    zone in use there, which is how [time.Location.lookup] reports it. The zones themselves
    come from the time zone database and stay a function. The calendar is the proleptic
    Gregorian one, computed from a day number by arithmetic; [civil_succ] shows that it
    follows the rules for the lengths of months and leap years day by day. Years are
    unbounded here; the package is exact for years within 292 * 10^9 of the epoch. *)
From stdpp Require Import base list numbers.
From Stdlib Require Import ZArith Lia.
From S2P Require Import Prelude.

Module Calendar.

(** ** Day numbers, counted from 1970-01-01 *)

Record date := { d_year : Z; d_month : Z; d_day : Z }.

(** A cycle of 400 years begins on March 1st of a year divisible by 400. *)
Definition cycle : Z := 146097.

Definition days_of (d : date) : Z :=
  let y := if d_month d <=? 2 then d_year d - 1 else d_year d in
  let yoe := y mod 400 in
  let mp := (d_month d + 9) mod 12 in
  let doy := (153 * mp + 2) / 5 + d_day d - 1 in
  y / 400 * cycle + (yoe * 365 + yoe / 4 - yoe / 100 + doy) - 719468.

(** The year of a day of the cycle, counted from the first of the cycle, and the date of a
    day of a year that begins on March 1st. *)
Definition year_in_cycle (doe : Z) : Z := (doe - doe / 1460 + doe / 36524 - doe / 146096) / 365.

Definition date_in_year (yoe doy : Z) : date :=
  let mp := (5 * doy + 2) / 153 in
  let m := if mp <? 10 then mp + 3 else mp - 9 in
  {| d_year := if m <=? 2 then yoe + 1 else yoe;
     d_month := m; d_day := doy - (153 * mp + 2) / 5 + 1 |}.

Definition date_in_cycle (doe : Z) : date :=
  let yoe := year_in_cycle doe in
  date_in_year yoe (doe - (365 * yoe + yoe / 4 - yoe / 100)).

Definition shift_years (n : Z) (d : date) : date :=
  {| d_year := d_year d + n; d_month := d_month d; d_day := d_day d |}.

Definition civil_of (z : Z) : date :=
  let z := z + 719468 in shift_years (z / cycle * 400) (date_in_cycle (z mod cycle)).

(** The day of the year, from 0. *)
Definition yday (z : Z) : Z :=
  z - days_of {| d_year := d_year (civil_of z); d_month := 1; d_day := 1 |}.

(** The Thursday of the week of a day; weeks begin on Monday, and day 0 is a Thursday. *)
Definition thursday (z : Z) : Z := z - (z + 3) mod 7 + 3.

(** ** [time.Time] *)

(** What [lookup] returns of a zone: its offset in seconds and the period it is in use. *)
Record zone := { z_offset : Z; z_start : Z; z_end : Z }.

Definition Location := Z -> zone.

Record Time := { T_ns : Z; T_loc : Location }.

Definition fixed_zone (offset : Z) : Location :=
  fun _ => {| z_offset := offset; z_start := - 2 ^ 63; z_end := 2 ^ 63 - 1 |}.

Definition UTC : Location := fixed_zone 0.

Definition second : Z := 10 ^ 9.
Definition hour : Z := 3600 * second.
Definition seconds_per_day : Z := 86400.

Definition Unix (t : Time) : Z := T_ns t / second.

(** Seconds since 1970-01-01 00:00 on a clock at the location. *)
Definition wall (t : Time) : Z := Unix t + z_offset (T_loc t (Unix t)).

Definition day_number (t : Time) : Z := wall t / seconds_per_day.
Definition civil (t : Time) : date := civil_of (day_number t).
Definition Year (t : Time) : Z := d_year (civil t).
Definition Month (t : Time) : Z := d_month (civil t).
Definition Day (t : Time) : Z := d_day (civil t).
Definition Hour (t : Time) : Z := wall t mod seconds_per_day / 3600.
Definition Minute (t : Time) : Z := wall t mod 3600 / 60.

Definition ISOWeek (t : Time) : Z * Z :=
  let thu := thursday (day_number t) in (d_year (civil_of thu), yday thu / 7 + 1).

Definition After (t u : Time) : bool := T_ns u <? T_ns t.
Definition Before (t u : Time) : bool := T_ns t <? T_ns u.
Definition Add (t : Time) (d : Z) : Time := {| T_ns := T_ns t + d; T_loc := T_loc t |}.

(** The zero value: January 1st of year 1, UTC. *)
Definition zero_time : Time := {| T_ns := -62135596800 * second; T_loc := UTC |}.
Definition IsZero (t : Time) : bool := T_ns t =? T_ns zero_time.

(** The instant at which a clock at the location shows the given seconds: the zone at the
    same number of seconds UTC is tried first. *)
Definition at_location (loc : Location) (wall : Z) : Z :=
  let z := loc wall in
  if z_offset z =? 0 then wall
  else
    let utc := wall - z_offset z in
    if (utc <? z_start z) || (z_end z <=? utc) then wall - z_offset (loc utc) else utc.

(** [time.Date] with the month normalised into the year. *)
Definition Date (year month day seconds nsec : Z) (loc : Location) : Time :=
  let first := {| d_year := year + (month - 1) / 12; d_month := (month - 1) mod 12 + 1;
                  d_day := 1 |} in
  let wall := (days_of first + (day - 1)) * seconds_per_day + seconds in
  {| T_ns := at_location loc wall * second + nsec; T_loc := loc |}.

Definition AddDate (t : Time) (years months days : Z) : Time :=
  Date (Year t + years) (Month t + months) (Day t + days)
    (wall t mod seconds_per_day) (T_ns t mod second) (T_loc t).

End Calendar.

Export Calendar.

(** ** The calendar is the Gregorian one *)

Module CalendarTheory.

Definition leap (y : Z) : bool := (y mod 4 =? 0) && negb (y mod 100 =? 0) || (y mod 400 =? 0).

Definition month_length (leap : bool) (m : Z) : Z :=
  if m =? 2 then if leap then 29 else 28
  else if (m =? 4) || (m =? 6) || (m =? 9) || (m =? 11) then 30 else 31.

Definition month_days (y m : Z) : Z := month_length (leap y) m.

(** The date after [d], when [length] is the length of its month. *)
Definition next_date (length : Z) (d : date) : date :=
  if d_day d <? length
  then {| d_year := d_year d; d_month := d_month d; d_day := d_day d + 1 |}
  else if d_month d <? 12
  then {| d_year := d_year d; d_month := d_month d + 1; d_day := 1 |}
  else {| d_year := d_year d + 1; d_month := 1; d_day := 1 |}.

Definition next_day (d : date) : date := next_date (month_days (d_year d) (d_month d)) d.

Definition date_ok (d : date) : bool :=
  (1 <=? d_month d) && (d_month d <=? 12) && (1 <=? d_day d)
  && (d_day d <=? month_days (d_year d) (d_month d)).

(** ** Years of the cycle *)

(** The first day of a year of the cycle; years begin in March. *)
Definition first_day (y : Z) : Z := 365 * y + y / 4 - y / 100 + y / 400.

Lemma year_in_cycle_spec doe : 0 <= doe < cycle ->
  0 <= year_in_cycle doe < 400 /\
  first_day (year_in_cycle doe) <= doe < first_day (year_in_cycle doe + 1).
Proof. unfold year_in_cycle, cycle, first_day. intros H. Z.div_mod_to_equations. lia. Qed.

Lemma first_day_mono a b : a <= b -> first_day a <= first_day b.
Proof. unfold first_day. intros H. Z.div_mod_to_equations. lia. Qed.

Lemma year_in_cycle_unique doe y : 0 <= doe < cycle ->
  first_day y <= doe < first_day (y + 1) -> year_in_cycle doe = y.
Proof.
  intros H Y. destruct (year_in_cycle_spec doe H) as [_ Z].
  destruct (Z.lt_trichotomy (year_in_cycle doe) y) as [L|[E|L]]; [|done|].
  - pose proof (first_day_mono (year_in_cycle doe + 1) y ltac:(lia)). lia.
  - pose proof (first_day_mono (y + 1) (year_in_cycle doe) ltac:(lia)). lia.
Qed.

(** A year has a 29th of February at its end exactly when the next one is a leap year. *)
Lemma year_length y : first_day (y + 1) = first_day y + (if leap (y + 1) then 366 else 365).
Proof. unfold first_day, leap. repeat case_match; split_bools; Z.div_mod_to_equations; lia. Qed.

Lemma date_in_cycle_at y doy : 0 <= y < 400 -> 0 <= doy < (if leap (y + 1) then 366 else 365) ->
  date_in_cycle (first_day y + doy) = date_in_year y doy.
Proof.
  intros Y D. pose proof (year_length y) as L.
  assert (B : first_day (y + 1) <= cycle)
    by (apply (first_day_mono (y + 1) 400); lia).
  assert (A : 0 <= first_day y) by (apply (first_day_mono 0 y); lia).
  unfold date_in_cycle. rewrite (year_in_cycle_unique _ y) by lia.
  f_equal. unfold first_day. rewrite (Z.div_small y 400) by lia. lia.
Qed.

(** Every day of the cycle is a day of one of its years. *)
Lemma cycle_day doe : 0 <= doe < cycle -> exists y doy,
  0 <= y < 400 /\ 0 <= doy < (if leap (y + 1) then 366 else 365) /\ doe = first_day y + doy.
Proof.
  intros H. destruct (year_in_cycle_spec doe H) as [Y D].
  exists (year_in_cycle doe), (doe - first_day (year_in_cycle doe)).
  rewrite year_length in D. repeat split; lia.
Qed.

(** ** Days of a year *)

Lemma month_bounds y doy : 0 <= doy < 366 ->
  1 <= d_month (date_in_year y doy) <= 12 /\ 1 <= d_day (date_in_year y doy).
Proof.
  unfold date_in_year. cbn [d_month d_day]. intros H.
  case_match; split_bools; Z.div_mod_to_equations; lia.
Qed.

Lemma month_days_year y doy :
  month_days (d_year (date_in_year y doy)) (d_month (date_in_year y doy))
  = month_length (leap (y + 1)) (d_month (date_in_year y doy)).
Proof.
  unfold date_in_year, month_days, month_length. cbn [d_year d_month].
  set (m := if _ <? 10 then _ else _). destruct (m =? 2) eqn:M; [|done].
  apply Z.eqb_eq in M. by rewrite M.
Qed.

Lemma day_bound y doy : 0 <= doy < (if leap (y + 1) then 366 else 365) ->
  d_day (date_in_year y doy) <= month_length (leap (y + 1)) (d_month (date_in_year y doy)).
Proof.
  unfold date_in_year, month_length. cbn [d_day d_month]. intros H.
  set (mp := (5 * doy + 2) / 153). assert (M : 0 <= mp < 12) by (unfold mp; case_match; Z.div_mod_to_equations; lia).
  assert (B : 153 * mp <= 5 * doy + 2 < 153 * mp + 153) by (unfold mp; Z.div_mod_to_equations; lia).
  clearbody mp. repeat case_match; split_bools; Z.div_mod_to_equations; lia.
Qed.

Ltac in_year doy :=
  let mp := fresh "mp" in set (mp := (5 * doy + 2) / 153);
  assert (153 * mp <= 5 * doy + 2 < 153 * mp + 153) by (unfold mp; Z.div_mod_to_equations; lia);
  clearbody mp.

Lemma date_in_year_shift y doy : date_in_year y doy = shift_years y (date_in_year 0 doy).
Proof. unfold date_in_year, shift_years. cbn [d_year d_month d_day]. f_equal. case_match; lia. Qed.

Lemma next_date_shift n l d : next_date l (shift_years n d) = shift_years n (next_date l d).
Proof. unfold next_date, shift_years. cbn [d_year d_month d_day]. repeat case_match; cbn; f_equal; lia. Qed.

#[export] Instance date_eq_dec : EqDecision date.
Proof. solve_decision. Defined.

Definition next_right (leap : bool) (doy : nat) : bool :=
  let d := date_in_year 0 (Z.of_nat doy) in
  bool_decide (date_in_year 0 (Z.of_nat doy + 1) = next_date (month_length leap (d_month d)) d).

Lemma next_in_year y doy : 0 <= doy -> doy + 1 < (if leap (y + 1) then 366 else 365) ->
  date_in_year y (doy + 1) = next_day (date_in_year y doy).
Proof.
  intros P H. unfold next_day. rewrite month_days_year.
  rewrite (date_in_year_shift y (doy + 1)), (date_in_year_shift y doy), next_date_shift. f_equal.
  assert (C : forallb (next_right (leap (y + 1))) (seq 0 (if leap (y + 1) then 365 else 364)%nat) = true)
    by (destruct (leap (y + 1)); vm_compute; reflexivity).
  rewrite forallb_forall in C. specialize (C (Z.to_nat doy)). unfold next_right in C.
  rewrite Z2Nat.id in C by lia. apply (bool_decide_eq_true_1 _), C, in_seq. case_match; lia.
Qed.

Lemma next_at_end y doy : doy + 1 = (if leap (y + 1) then 366 else 365) ->
  next_day (date_in_year y doy) = date_in_year (y + 1) 0.
Proof.
  intros H. unfold next_day. rewrite month_days_year.
  destruct (leap (y + 1)); [replace doy with 365 by lia | replace doy with 364 by lia]; reflexivity.
Qed.

Lemma days_of_year y doy : 0 <= y < 400 -> 0 <= doy < 366 ->
  days_of (date_in_year y doy) = first_day y + doy - 719468.
Proof.
  intros Y D. unfold days_of, first_day, date_in_year. cbn [d_year d_month d_day].
  in_year doy. rewrite (Z.div_small y 400) by lia.
  assert (E : forall m, (if m <=? 2 then (if m <=? 2 then y + 1 else y) - 1
                         else if m <=? 2 then y + 1 else y) = y) by (intros; case_match; lia).
  rewrite E, (Z.mod_small y 400), (Z.div_small y 400) by lia.
  assert (M : ((if mp <? 10 then mp + 3 else mp - 9) + 9) mod 12 = mp)
    by (case_match; split_bools; Z.div_mod_to_equations; lia).
  rewrite M. lia.
Qed.

Lemma mod_shift a n k : 0 < n -> (a + k * n) mod n = a mod n.
Proof. intros. apply Z_mod_plus_full. Qed.

Lemma leap_shift y k : leap (y + k * 400) = leap y.
Proof.
  unfold leap. rewrite (mod_shift y 400 k) by lia.
  replace (y + k * 400) with (y + (k * 100) * 4) at 1 by lia. rewrite mod_shift by lia.
  replace (y + k * 400) with (y + (k * 4) * 100) by lia. by rewrite mod_shift by lia.
Qed.

Lemma month_days_shift y k m : month_days (y + k * 400) m = month_days y m.
Proof. unfold month_days. by rewrite leap_shift. Qed.

Lemma days_of_shift k d : days_of (shift_years (k * 400) d) = days_of d + k * cycle.
Proof.
  unfold days_of, shift_years. cbn [d_year d_month d_day].
  assert (E : forall y, (y + k * 400) / 400 = y / 400 + k) by (intros; apply Z_div_plus_full; lia).
  destruct (d_month d <=? 2);
    [replace (d_year d + k * 400 - 1) with (d_year d - 1 + k * 400) by lia|];
    rewrite E, mod_shift by lia; lia.
Qed.

Lemma next_day_shift k d : next_day (shift_years (k * 400) d) = shift_years (k * 400) (next_day d).
Proof.
  unfold next_day. rewrite <- next_date_shift. unfold shift_years. cbn [d_year d_month d_day].
  by rewrite month_days_shift.
Qed.

Lemma civil_parts z : 0 <= (z + 719468) mod cycle < cycle.
Proof. apply Z.mod_pos_bound. reflexivity. Qed.

Lemma days_of_civil z : days_of (civil_of z) = z.
Proof.
  unfold civil_of. rewrite days_of_shift.
  destruct (cycle_day _ (civil_parts z)) as (y & doy & Y & D & E). rewrite E.
  rewrite date_in_cycle_at, days_of_year by (case_match; lia).
  pose proof (Z.div_mod (z + 719468) cycle ltac:(done)). lia.
Qed.

Lemma next_in_cycle doe : 0 <= doe < cycle - 1 ->
  date_in_cycle (doe + 1) = next_day (date_in_cycle doe).
Proof.
  intros H. destruct (cycle_day doe) as (y & doy & Y & D & ->); [lia|].
  rewrite date_in_cycle_at by done. pose proof (year_length y) as L.
  destruct (decide (doy + 1 = if leap (y + 1) then 366 else 365)) as [E|N].
  - rewrite next_at_end by done.
    replace (first_day y + doy + 1) with (first_day (y + 1) + 0) by lia.
    assert (y + 1 <> 400) by (intros F; rewrite <- E, F in L; change (first_day 400) with cycle in L; lia).
    apply date_in_cycle_at; [lia | destruct (leap (y + 1 + 1)); lia].
  - rewrite <- next_in_year by lia. rewrite <- date_in_cycle_at by lia. f_equal. lia.
Qed.

(** The date of the next day is the date after it. *)
Lemma civil_succ z : civil_of (z + 1) = next_day (civil_of z).
Proof.
  unfold civil_of. rewrite next_day_shift.
  set (n := z + 719468). replace (z + 1 + 719468) with (n + 1) by lia.
  pose proof (Z.div_mod n cycle ltac:(done)) as D. pose proof (civil_parts z) as P. fold n in P.
  set (q := n / cycle) in *. set (r := n mod cycle) in *.
  destruct (decide (r = cycle - 1)) as [L|L].
  - assert (E : n + 1 = 0 + (q + 1) * cycle) by lia. rewrite E.
    rewrite Z_div_plus_full, mod_shift by done. rewrite L.
    change (0 / cycle) with 0. change (0 mod cycle) with 0.
    assert (F : next_day (date_in_cycle (cycle - 1)) = shift_years 400 (date_in_cycle 0))
      by reflexivity.
    rewrite F. unfold shift_years. cbn [d_year d_month d_day]. f_equal. lia.
  - assert (E : n + 1 = (r + 1) + q * cycle) by lia. rewrite E.
    rewrite Z_div_plus_full, mod_shift by done.
    rewrite (Z.div_small (r + 1)), (Z.mod_small (r + 1)) by lia.
    rewrite next_in_cycle by lia. reflexivity.
Qed.

Lemma civil_ok z : date_ok (civil_of z) = true.
Proof.
  unfold civil_of. destruct (cycle_day _ (civil_parts z)) as (y & doy & Y & D & E). rewrite E.
  rewrite date_in_cycle_at by done. unfold date_ok, shift_years. cbn [d_year d_month d_day].
  rewrite month_days_shift, month_days_year.
  pose proof (month_bounds y doy ltac:(case_match; lia)). pose proof (day_bound y doy D).
  rewrite !andb_true_iff, !Z.leb_le. lia.
Qed.

(** New Year's Day is at most 365 days back: it is day 306 of a year that begins in March. *)
Lemma yday_bounds z : 0 <= yday z <= 365.
Proof.
  unfold yday, civil_of. cbn [d_year shift_years].
  set (n := z + 719468). pose proof (Z.div_mod n cycle ltac:(done)) as C.
  destruct (cycle_day _ (civil_parts z)) as (y & doy & Y & D & E). fold n in E.
  rewrite E, date_in_cycle_at by done.
  set (d := {| d_year := _; d_month := 1; d_day := 1 |}).
  assert (F : d = shift_years (n / cycle * 400)
    {| d_year := d_year (date_in_year y doy); d_month := 1; d_day := 1 |}) by reflexivity.
  rewrite F, days_of_shift. clear F d. unfold days_of. cbn [d_year d_month d_day Z.leb].
  change (1 <=? 2) with true. cbn [d_year]. unfold date_in_year. cbn [d_year].
  change ((1 + 9) mod 12) with 10. rewrite E in C. set (q := n / cycle) in *. clearbody q.
  unfold first_day, cycle in *. assert (U : 0 <= doy < 366) by (case_match; lia). clear E D.
  in_year doy. repeat (case_match; split_bools); Z.div_mod_to_equations; lia.
Qed.

(** ** Dates grow with the days *)

(** The number a date makes when it is written [YYYYMMDD]. *)
Definition ordinal (d : date) : Z := d_year d * 10000 + d_month d * 100 + d_day d.

Lemma ordinal_next d : date_ok d = true -> ordinal d < ordinal (next_day d).
Proof.
  unfold date_ok, ordinal, next_day, next_date, month_days, month_length. intros O. split_bools.
  repeat case_match; split_bools; cbn [d_year d_month d_day]; lia.
Qed.

Lemma year_next d : d_year d <= d_year (next_day d).
Proof. unfold next_day, next_date. repeat case_match; cbn; lia. Qed.

Lemma month_next d : date_ok d = true ->
  d_year d * 12 + d_month d <= d_year (next_day d) * 12 + d_month (next_day d).
Proof. unfold date_ok, next_day, next_date. intros O. split_bools. repeat case_match; cbn; lia. Qed.

Lemma climb (f : Z -> Z) : (forall z, f z <= f (z + 1)) -> forall a b, a <= b -> f a <= f b.
Proof.
  intros S a b L. replace b with (a + Z.of_nat (Z.to_nat (b - a))) by lia.
  induction (Z.to_nat (b - a)) as [|n IH]; [rewrite Z.add_0_r; lia|].
  rewrite Nat2Z.inj_succ. specialize (S (a + Z.of_nat n)).
  replace (a + Z.succ (Z.of_nat n)) with (a + Z.of_nat n + 1) by lia. lia.
Qed.

Lemma ordinal_mono a b : a <= b -> ordinal (civil_of a) <= ordinal (civil_of b).
Proof.
  apply (climb (fun z => ordinal (civil_of z))). intros z. rewrite civil_succ.
  apply Z.lt_le_incl, ordinal_next, civil_ok.
Qed.

Lemma year_mono a b : a <= b -> d_year (civil_of a) <= d_year (civil_of b).
Proof. apply (climb (fun z => d_year (civil_of z))). intros z. rewrite civil_succ. apply year_next. Qed.

Lemma month_mono a b : a <= b ->
  d_year (civil_of a) * 12 + d_month (civil_of a) <= d_year (civil_of b) * 12 + d_month (civil_of b).
Proof.
  apply (climb (fun z => d_year (civil_of z) * 12 + d_month (civil_of z))).
  intros z. rewrite civil_succ. apply month_next, civil_ok.
Qed.

Lemma thursday_mono a b : a <= b -> thursday a <= thursday b.
Proof. unfold thursday. Z.div_mod_to_equations. lia. Qed.

(** Weeks, numbered as [YYYYWW] by their Thursday. *)
Definition week_number (z : Z) : Z := d_year (civil_of (thursday z)) * 100 + (yday (thursday z) / 7 + 1).

Lemma week_mono a b : a <= b -> week_number a <= week_number b.
Proof.
  intros L. apply thursday_mono in L. unfold week_number.
  pose proof (year_mono _ _ L) as Y.
  pose proof (yday_bounds (thursday a)). pose proof (yday_bounds (thursday b)).
  destruct (decide (d_year (civil_of (thursday a)) = d_year (civil_of (thursday b)))) as [E|N].
  - assert (yday (thursday a) <= yday (thursday b)) by (unfold yday; rewrite E; lia).
    rewrite E. assert (yday (thursday a) / 7 <= yday (thursday b) / 7) by (apply Z.div_le_mono; lia). lia.
  - assert (yday (thursday a) / 7 <= 52) by (Z.div_mod_to_equations; lia).
    assert (0 <= yday (thursday b) / 7) by (Z.div_mod_to_equations; lia). lia.
Qed.

End CalendarTheory.
