(* ===== verification/Duration.v ===== *)
(** * Durations of retention policies ([internal/data/duration.go])

    A duration counts hours, days, months and years. It is printed as [6y5m234d37h] and
    parsed from that form; the printed form of every duration is parsed back to it. A number
    that does not fit an [int] makes the parser panic. *)
From stdpp Require Import base list numbers strings.
From Stdlib Require Import ZArith Lia.
From S2P Require Import Prelude Keys.

Module Duration.

Record Duration := { Hours : Z; Days : Z; Months : Z; Years : Z }.

Definition no_duration : Duration := {| Hours := 0; Days := 0; Months := 0; Years := 0 |}.

Definition Zero (d : Duration) : bool :=
  (Years d =? 0) && (Months d =? 0) && (Days d =? 0) && (Hours d =? 0).

(** ** Decimal numbers *)

Definition digit (d : Z) : byte := z2b (48 + d).
Definition is_digit (b : byte) : bool := (48 <=? b2z b) && (b2z b <=? 57).

(** The digits of [n] in front of [acc]; a number has no more decimal than binary digits. *)
Fixpoint digits (fuel : nat) (n : Z) (acc : bytes) : bytes :=
  let acc := digit (n mod 10) :: acc in
  match fuel with
  | O => acc
  | S fuel => if n <? 10 then acc else digits fuel (n / 10) acc
  end.

(** [fmt.Sprintf("%d", n)] *)
Definition Itoa (n : Z) : bytes :=
  let abs := digits (Z.to_nat (Z.log2 (Z.abs n))) (Z.abs n) [] in
  if n <? 0 then str "-" ++ abs else abs.

(** [strconv.Atoi] of a string of digits. *)
Definition value (n : bytes) : Z := foldl (fun acc b => acc * 10 + (b2z b - 48)) 0 n.

Definition Atoi (n : bytes) : result Z :=
  if value n <? 2 ^ 63 then Ok (value n) else Err "strconv.Atoi: value out of range".

(** ** Printing and parsing *)

Definition printed (n : Z) (unit : string) : bytes :=
  if n =? 0 then [] else Itoa n ++ str unit.

Definition String (d : Duration) : bytes :=
  printed (Years d) "y" ++ printed (Months d) "m" ++ printed (Days d) "d" ++ printed (Hours d) "h".

(** The digits at the front and what follows them. *)
Fixpoint span_digits (s : bytes) : bytes * bytes :=
  match s with
  | [] => ([], [])
  | b :: s' =>
      if is_digit b then let (n, rest) := span_digits s' in (b :: n, rest) else ([], s)
  end.

(** A panic is an error whose message begins with [panic:]. *)
Definition nextNumber (input : bytes) : result (Z * bytes) :=
  match input with
  | [] => Ok (0, [])
  | b :: tail =>
      let negative := bytes_eqb [b] (str "-") in
      let input := if negative then tail else input in
      let (n, rest) := span_digits input in
      do! guard (bytes_eqb n []) "no number found";
      match Atoi n with
      | Err e => Err ("panic: " ++ e)
      | Ok num => Ok (if negative then - num else num, rest)
      end
  end.

Definition set_unit (u : byte) (num : Z) (d : Duration) : result Duration :=
  if bytes_eqb [u] (str "y") then
    Ok {| Hours := Hours d; Days := Days d; Months := Months d; Years := num |}
  else if bytes_eqb [u] (str "m") then
    Ok {| Hours := Hours d; Days := Days d; Months := num; Years := Years d |}
  else if bytes_eqb [u] (str "d") then
    Ok {| Hours := Hours d; Days := num; Months := Months d; Years := Years d |}
  else if bytes_eqb [u] (str "h") then
    Ok {| Hours := num; Days := Days d; Months := Months d; Years := Years d |}
  else Err "invalid unit found after number".

(** [for s != ""]; every round takes a number and a unit off, so [length s] rounds are
    enough (see [parse_loop_enough]). *)
Fixpoint parse_loop (fuel : nat) (s : bytes) (d : Duration) : result Duration :=
  match s, fuel with
  | [], _ => Ok d
  | _, O => Err "fuel"
  | _, S fuel =>
      let! (num, s) := nextNumber s in
      match s with
      | [] => Err "no unit found after number"
      | u :: s => let! d := set_unit u num d in parse_loop fuel s d
      end
  end.

Definition ParseDuration (s : bytes) : result Duration :=
  let s := TrimSpace s in parse_loop (length s) s no_duration.

(** [Set]: the flag keeps its value when the argument is refused. *)
Definition Set_ (d : Duration) (s : bytes) : Duration * result unit :=
  match ParseDuration s with Ok v => (v, Ok tt) | Err e => (d, Err e) end.

End Duration.

(** ** Theory *)

Module DurationTheory.
Import Duration.

Lemma is_digit_digit d : 0 <= d < 10 -> is_digit (digit d) = true /\ b2z (digit d) - 48 = d.
Proof.
  intros H. unfold is_digit, digit. rewrite b2z_z2b, Z.mod_small by lia. split; [|lia].
  apply andb_true_iff. rewrite !Z.leb_le. lia.
Qed.

Lemma value_app a b : value (a ++ b) = value a * 10 ^ zlen b + value b.
Proof.
  unfold value. rewrite foldl_app. generalize (foldl (fun acc b => acc * 10 + (b2z b - 48)) 0 a) as x.
  induction b as [|c b IH] using rev_ind; intros x; [change (10 ^ zlen []) with 1; cbn; lia|].
  rewrite !foldl_app, zlen_app. cbn [foldl]. rewrite IH, Z.pow_add_r by (apply zlen_nonneg).
  change (10 ^ zlen [c]) with 10. lia.
Qed.

Lemma value_digit d acc : 0 <= d < 10 -> value (digit d :: acc) = d * 10 ^ zlen acc + value acc.
Proof.
  intros H. change (digit d :: acc) with ([digit d] ++ acc). rewrite value_app. f_equal. f_equal. cbn. by rewrite (proj2 (is_digit_digit d H)).
Qed.

Lemma digits_value fuel : forall n acc, 0 <= n < 2 ^ (Z.of_nat fuel + 1) ->
  value (digits fuel n acc) = n * 10 ^ zlen acc + value acc.
Proof.
  induction fuel as [|fuel IH]; intros n acc H; cbn [digits].
  - change (2 ^ (Z.of_nat 0 + 1)) with 2 in H.
    rewrite value_digit by (Z.div_mod_to_equations; lia). rewrite Z.mod_small by lia. lia.
  - assert (M : 0 <= n mod 10 < 10) by (Z.div_mod_to_equations; lia).
    destruct (n <? 10) eqn:L.
    + rewrite value_digit by done. rewrite Z.mod_small by lia. lia.
    + rewrite Nat2Z.inj_succ, Z.add_succ_l, Z.pow_succ_r in H by lia.
      rewrite IH by (Z.div_mod_to_equations; lia). rewrite value_digit by done.
      replace (zlen (digit (n mod 10) :: acc)) with (zlen acc + 1) by (unfold zlen; cbn [length]; lia).
      rewrite Z.pow_add_r by (try apply zlen_nonneg; lia). Z.div_mod_to_equations. nia.
Qed.

Lemma digits_digits fuel : forall n acc, 0 <= n -> forallb is_digit acc = true ->
  forallb is_digit (digits fuel n acc) = true /\ digits fuel n acc <> [].
Proof.
  induction fuel as [|fuel IH]; intros n acc H A; cbn [digits].
  all: assert (B : forallb is_digit (digit (n mod 10) :: acc) = true)
    by (cbn [forallb]; rewrite A, (proj1 (is_digit_digit (n mod 10) ltac:(Z.div_mod_to_equations; lia))); done).
  - done.
  - case_match; [done|]. apply IH; [Z.div_mod_to_equations; lia | done].
Qed.

Lemma span_digits_app n rest :
  forallb is_digit n = true -> match rest with [] => true | b :: _ => negb (is_digit b) end = true ->
  span_digits (n ++ rest) = (n, rest).
Proof.
  intros N R. induction n as [|b n IH]; cbn in *.
  - destruct rest as [|b rest]; [done|]. cbn. by apply negb_true_iff in R as ->.
  - apply andb_true_iff in N as [-> N]. by rewrite (IH N).
Qed.

Definition natural (n : Z) : bytes := digits (Z.to_nat (Z.log2 n)) n [].

Lemma natural_value n : 0 <= n -> value (natural n) = n.
Proof.
  intros H. unfold natural. rewrite digits_value; [change (10 ^ zlen (A:=byte) []) with 1; cbn; lia|]. rewrite Z2Nat.id by apply Z.log2_nonneg.
  destruct (decide (n = 0)) as [->|N]; [done|]. pose proof (Z.log2_spec n ltac:(lia)). lia.
Qed.

(** A number in front of a unit is read back. *)
Lemma nextNumber_Itoa v u rest : - 2 ^ 63 < v < 2 ^ 63 -> is_digit u = false ->
  nextNumber (Itoa v ++ u :: rest) = Ok (v, u :: rest).
Proof.
  intros V U. unfold Itoa. fold (natural (Z.abs v)).
  destruct (digits_digits (Z.to_nat (Z.log2 (Z.abs v))) (Z.abs v) [] ltac:(lia) eq_refl) as [D N].
  pose proof (natural_value (Z.abs v) ltac:(lia)) as E. fold (natural (Z.abs v)) in D, N.
  assert (S : span_digits (natural (Z.abs v) ++ u :: rest) = (natural (Z.abs v), u :: rest))
    by (apply span_digits_app; [done | by rewrite U]).
  assert (A : Atoi (natural (Z.abs v)) = Ok (Z.abs v))
    by (unfold Atoi; rewrite E; case_match; [done | lia]).
  assert (G : guard (bytes_eqb (natural (Z.abs v)) []) "no number found" = Ok tt)
    by (apply guard_ok, bytes_eqb_neq, N).
  destruct (v <? 0) eqn:Neg.
  - cbn [app str String.list_byte_of_string]. change (str "-" ++ ?x) with (x2d :: x).
    cbn [app nextNumber]. change (bytes_eqb [x2d] (str "-")) with true. cbn match.
    rewrite S, G. cbn [rbind]. rewrite A. do 2 f_equal. lia.
  - destruct (natural (Z.abs v)) as [|b n] eqn:B; [done|]. cbn [app nextNumber].
    assert (F : bytes_eqb [b] (str "-") = false).
    { apply bytes_eqb_neq. intros [= ->]. done. }
    rewrite F. cbn [app] in S. rewrite S, G. cbn [rbind]. rewrite A. do 2 f_equal. lia.
Qed.

(** ** Texts without white space *)

Definition plain (b : byte) : bool := (33 <=? b2z b) && (b2z b <? 127).

Lemma plain_find b s : plain b = true ->
  List.find (fun w => has_prefix w (b :: s)) spaces = None /\
  List.find (fun w => has_prefix w (b :: s)) (map (@rev byte) spaces) = None.
Proof. destruct b; intros P; try discriminate P; split; reflexivity. Qed.

Lemma TrimSpace_plain s : forallb plain s = true -> TrimSpace s = s.
Proof.
  intros P. unfold TrimSpace.
  assert (F : trim_front (length s) spaces s = s).
  { destruct s as [|b s]; [done|]. cbn in P. apply andb_true_iff in P as [P _].
    cbn [trim_front length]. by rewrite (proj1 (plain_find b s P)). }
  rewrite F. assert (R : forallb plain (rev s) = true).
  { rewrite forallb_forall in *. intros x X. apply P. by apply in_rev. }
  rewrite <- (rev_involutive s) at 3. f_equal. rewrite <- length_rev.
  destruct (rev s) as [|b t]; [done|]. cbn in R. apply andb_true_iff in R as [R _].
  cbn [trim_front length]. by rewrite (proj2 (plain_find b t R)).
Qed.

Lemma digit_plain b : is_digit b = true -> plain b = true.
Proof. unfold is_digit, plain. rewrite !andb_true_iff, !Z.leb_le, Z.ltb_lt. lia. Qed.

Lemma Itoa_plain n : forallb plain (Itoa n) = true.
Proof.
  destruct (digits_digits (Z.to_nat (Z.log2 (Z.abs n))) (Z.abs n) [] ltac:(lia) eq_refl) as [D _].
  assert (P : forallb plain (natural (Z.abs n)) = true).
  { rewrite forallb_forall in *. intros x X. by apply digit_plain, D. }
  unfold Itoa. case_match; [by rewrite forallb_app|done].
Qed.

Lemma printed_plain n u : forallb plain (str u) = true -> forallb plain (printed n u) = true.
Proof. intros U. unfold printed. case_match; [done|]. by rewrite forallb_app, Itoa_plain. Qed.

Lemma String_plain d : forallb plain (String d) = true.
Proof. unfold String. by rewrite !forallb_app, !printed_plain. Qed.

(** ** Parsing what was printed *)

Definition fits (n : Z) : Prop := - 2 ^ 63 < n < 2 ^ 63.

(** The loop takes a printed field off the front; the fuel still suffices for the rest. *)
Lemma parse_printed fuel n unit u rest d d' : fits n -> str unit = [u] -> is_digit u = false ->
  set_unit u n d = Ok d' -> (length (printed n unit ++ rest) <= fuel)%nat ->
  exists fuel', (length rest <= fuel')%nat /\
    parse_loop fuel (printed n unit ++ rest) d = parse_loop fuel' rest (if n =? 0 then d else d').
Proof.
  intros V E U S L. unfold printed in *. rewrite E in *. destruct (n =? 0); [by exists fuel|].
  rewrite <- app_assoc in *. cbn [app] in *. rewrite length_app in L. cbn [length] in L.
  pose proof (nextNumber_Itoa n u rest V U) as N.
  destruct fuel as [|fuel]; [lia|]. exists fuel. split; [lia|].
  destruct (Itoa n ++ u :: rest) as [|b s] eqn:B; [by destruct (Itoa n)|].
  cbn [parse_loop]. rewrite N. cbn [rbind]. rewrite S. done.
Qed.

(** Numbers too large for an [int] are not refused but make the parser panic. *)
Lemma nextNumber_overflow n u rest : 2 ^ 63 <= n -> is_digit u = false ->
  nextNumber (Itoa n ++ u :: rest) = Err "panic: strconv.Atoi: value out of range".
Proof.
  intros V U. unfold Itoa. rewrite Z.abs_eq by lia. fold (natural n).
  destruct (digits_digits (Z.to_nat (Z.log2 n)) n [] ltac:(lia) eq_refl) as [D N].
  pose proof (natural_value n ltac:(lia)) as E. fold (natural n) in D, N.
  assert (S : span_digits (natural n ++ u :: rest) = (natural n, u :: rest))
    by (apply span_digits_app; [done | by rewrite U]).
  assert (A : Atoi (natural n) = Err "strconv.Atoi: value out of range")
    by (unfold Atoi; rewrite E; case_match; [lia | done]).
  case_match; [lia|]. destruct (natural n) as [|b t] eqn:B; [done|]. cbn [app nextNumber].
  assert (F : bytes_eqb [b] (str "-") = false) by (apply bytes_eqb_neq; intros [= ->]; done).
  rewrite F. cbn [app] in S. rewrite S. cbn [bytes_eqb guard rbind]. by rewrite A.
Qed.

End DurationTheory.

(** ** Properties *)

Module DurationProps.
Import Duration DurationTheory.

Ltac parse_field unit F L :=
  match goal with |- parse_loop ?f _ ?x = _ =>
    let f' := fresh "f" in let L' := fresh "L" in let E := fresh "E" in
    edestruct (parse_printed f _ unit _ _ x _ F eq_refl eq_refl eq_refl L) as (f' & L' & E);
    rewrite E; clear L E; rename L' into L
  end.

(** C30. Every duration whose fields are numbers of 64 bits, other than the smallest, is read
    back from what is printed for it. *)
Theorem ParseDuration_String d :
  fits (Hours d) -> fits (Days d) -> fits (Months d) -> fits (Years d) ->
  ParseDuration (String d) = Ok d.
Proof.
  intros H D M Y. unfold ParseDuration. rewrite TrimSpace_plain by apply String_plain.
  assert (L : (length (String d) <= length (String d))%nat) by lia.
  revert L. generalize (length (String d)) at 2 3 as fuel. unfold String.
  intros f0 L0.
  rewrite <- (app_nil_r (printed (Hours d) "h")) in *.
  parse_field "y" Y L0. parse_field "m" M L0. parse_field "d" D L0. parse_field "h" H L0.
  destruct d as [h dd m y]. cbn [Hours Days Months Years].
  assert (E : forall f x, parse_loop f [] x = Ok x) by (intros [] ?; done). rewrite E. f_equal.
  repeat case_match; split_bools; subst; cbn; repeat match goal with X : (_ =? _) = _ |- _ => first
    [apply Z.eqb_eq in X; subst | clear X] end; reflexivity.
Qed.

Lemma ParseDuration_String_witness :
  let d := {| Hours := 37; Days := 234; Months := -5; Years := 6 |} in
  String d = str "6y-5m234d37h" /\ ParseDuration (String d) = Ok d.
Proof.
  split; [reflexivity|]. apply ParseDuration_String; unfold fits; cbn; lia.
Defined.

(** C39. A number of years that does not fit an [int] makes the parser panic, where an
    argument that it cannot read is to be reported as an error. *)
Theorem ParseDuration_panics n : 2 ^ 63 <= n ->
  ParseDuration (Itoa n ++ str "y") = Err "panic: strconv.Atoi: value out of range".
Proof.
  intros N. unfold ParseDuration. rewrite TrimSpace_plain by (by rewrite forallb_app, Itoa_plain).
  rewrite length_app. cbn [length str String.list_byte_of_string]. rewrite Nat.add_1_r.
  pose proof (nextNumber_overflow n x79 [] N eq_refl) as E.
  change (str "y") with [x79]. destruct (Itoa n ++ [x79]) as [|b s] eqn:B; [by destruct (Itoa n)|].
  cbn [parse_loop]. by rewrite E.
Qed.

Lemma ParseDuration_panics_witness :
  ParseDuration (str "9223372036854775808y") = Err "panic: strconv.Atoi: value out of range".
Proof. exact (ParseDuration_panics 9223372036854775808 ltac:(lia)). Defined.

End DurationProps.
