(* ===== verification/Policy.v ===== *)
(** * Retention of snapshots ([internal/data/snapshot_policy.go], [snapshot.go], [tag_list.go])

    [ApplyPolicy] sorts the snapshots, newest first, and goes through them once with one
    counter per option. The theorems say what this means for each option on its own, in the
    terms of the documentation: the newest snapshot of each of the last [n] days, and so on,
    and the oldest of all while some are left. Two findings are proved: a long [within] in
    hours wraps around and keeps nothing, and the retention horizon is no guarantee. *)
From stdpp Require Import base list numbers strings gmap sets sorting.
From Stdlib Require Import ZArith Lia.
From S2P Require Import Prelude Calendar Keys Duration.

Module Policy.
Import Duration.

(** ** Snapshots and tags *)

(** What policies read of a snapshot. *)
Record Snapshot := { sn_Time : Time; sn_Tags : list bytes; sn_id : bytes }.

Definition TagList := list bytes.

(** [strings.Join] *)
Fixpoint Join (sep : bytes) (l : list bytes) : bytes :=
  match l with
  | [] => []
  | [s] => s
  | s :: l => s ++ sep ++ Join sep l
  end.

Definition TagList_String (l : TagList) : bytes := str "[" ++ Join (str ", ") l ++ str "]".

Definition hasTag (sn : Snapshot) (tag : bytes) : bool := existsb (bytes_eqb tag) (sn_Tags sn).

Fixpoint HasTags (sn : Snapshot) (l : TagList) : bool :=
  match l with
  | [] => true
  | tag :: l =>
      if bytes_eqb tag [] && (zlen (sn_Tags sn) =? 0) then true
      else if negb (hasTag sn tag) then false
      else HasTags sn l
  end.

(** [sort.Stable] with [Less]: newest first. *)
Fixpoint insert_newest (sn : Snapshot) (l : list Snapshot) : list Snapshot :=
  match l with
  | [] => [sn]
  | other :: rest =>
      if After (sn_Time other) (sn_Time sn) then other :: insert_newest sn rest else sn :: l
  end.

Definition sort_Stable (l : list Snapshot) : list Snapshot := foldr insert_newest [] l.

(** ** Policies *)

Record ExpirePolicy := {
  Last : Z; Minutely : Z; Hourly : Z; Daily : Z; Weekly : Z; Monthly : Z;
  QuarterYearly : Z; HalfYearly : Z; Yearly : Z;
  Within : Duration; WithinMinutely : Duration; WithinHourly : Duration;
  WithinDaily : Duration; WithinWeekly : Duration; WithinMonthly : Duration;
  WithinQuarterYearly : Duration; WithinHalfYearly : Duration; WithinYearly : Duration;
  Tags : list TagList }.

(** The text of a policy. *)
Definition keep_count (opt : Z * string) : option bytes :=
  let (count, descr) := opt in
  if 0 <? count then Some (Itoa count ++ str " " ++ str descr)
  else if count =? -1 then Some (str "all " ++ str descr)
  else None.

Definition keep_within (opt : Duration * string) : option bytes :=
  let (d, descr) := opt in
  if Zero d then None else Some (str descr ++ str " snapshots within " ++ String d).

(** [if s != "" { s += sep }; s += more] *)
Definition joined (s sep more : bytes) : bytes :=
  (if bytes_eqb s [] then [] else s ++ sep) ++ more.

Definition ExpirePolicy_String (e : ExpirePolicy) : bytes :=
  let keeps := omap keep_count
    [(Last e, "latest"); (Minutely e, "minutely"); (Hourly e, "hourly"); (Daily e, "daily");
     (Weekly e, "weekly"); (Monthly e, "monthly"); (QuarterYearly e, "quarter-yearly");
     (HalfYearly e, "half-yearly"); (Yearly e, "yearly")]%string in
  let keepw := omap keep_within
    [(WithinMinutely e, "minutely"); (WithinHourly e, "hourly"); (WithinDaily e, "daily");
     (WithinWeekly e, "weekly"); (WithinMonthly e, "monthly");
     (WithinQuarterYearly e, "quarter-yearly"); (WithinHalfYearly e, "half-yearly");
     (WithinYearly e, "yearly")]%string in
  let s := match keeps with [] => [] | _ => Join (str ", ") keeps ++ str " snapshots" end in
  let s := match keepw with [] => s | _ => joined s (str ", ") (Join (str ", ") keepw) end in
  let s := match Tags e with
           | [] => s
           | tags => joined s (str " and ") (str "all snapshots with tags ["
                       ++ Join (str " ") (map TagList_String tags) ++ str "]")
           end in
  let s := if Zero (Within e) then s
           else joined s (str " and ") (str "all snapshots within " ++ String (Within e)
                  ++ str " of the newest") in
  if bytes_eqb s [] then str "remove" else str "keep " ++ s.

(** [reflect.DeepEqual] with the policy that has only the tags. *)
Definition Empty (e : ExpirePolicy) : bool :=
  match Tags e with
  | _ :: _ => false
  | [] =>
      forallb (Z.eqb 0) [Last e; Minutely e; Hourly e; Daily e; Weekly e; Monthly e;
                         QuarterYearly e; HalfYearly e; Yearly e]
      && forallb Zero [Within e; WithinMinutely e; WithinHourly e; WithinDaily e; WithinWeekly e;
                       WithinMonthly e; WithinQuarterYearly e; WithinHalfYearly e; WithinYearly e]
  end.

(** ** The periods of a time *)

Definition ymdh (d : Time) (_ : Z) : Z :=
  Year d * 1000000 + Month d * 10000 + Day d * 100 + Hour d.
Definition ymdhm (d : Time) (_ : Z) : Z :=
  Year d * 100000000 + Month d * 1000000 + Day d * 10000 + Hour d * 100 + Minute d.
Definition ymd (d : Time) (_ : Z) : Z := Year d * 10000 + Month d * 100 + Day d.
Definition yw (d : Time) (_ : Z) : Z := let (year, week) := ISOWeek d in year * 100 + week.
Definition ym (d : Time) (_ : Z) : Z := Year d * 100 + Month d.
Definition y (d : Time) (_ : Z) : Z := Year d.
Definition yq (d : Time) (_ : Z) : Z := Year d * 10 + (Month d - 1) / 3.
Definition yh (d : Time) (_ : Z) : Z := Year d * 10 + (Month d - 1) / 6.
Definition always (_ : Time) (nr : Z) : Z := nr.

(** ** Evaluation *)

(** [now] is the time at the call. *)
Definition findLatestTimestamp (now : Time) (snaps : list Snapshot) : result Time :=
  do! guard (zlen snaps =? 0) "panic: list of snapshots is empty";
  Ok (foldl (fun latest sn =>
        if After (sn_Time sn) latest && Before (sn_Time sn) now then sn_Time sn else latest)
      zero_time snaps).

Record Bucket := { Count : Z; bucker : Time -> Z -> Z; b_Last : Z; reason : bytes }.
Record BucketWithin :=
  { w_Within : Duration; w_bucker : Time -> Z -> Z; w_Last : Z; w_reason : bytes }.

Definition bucket (count : Z) (f : Time -> Z -> Z) (reason : string) : Bucket :=
  {| Count := count; bucker := f; b_Last := -1; reason := str reason |}.

Definition bucketWithin (d : Duration) (f : Time -> Z -> Z) (reason : string) : BucketWithin :=
  {| w_Within := d; w_bucker := f; w_Last := -1; w_reason := str reason |}.

Definition buckets (p : ExpirePolicy) : list Bucket :=
  [ bucket (Last p) always "last snapshot"; bucket (Hourly p) ymdh "hourly snapshot";
    bucket (Daily p) ymd "daily snapshot"; bucket (Weekly p) yw "weekly snapshot";
    bucket (Monthly p) ym "monthly snapshot"; bucket (Yearly p) y "yearly snapshot";
    bucket (Minutely p) ymdhm "minutely snapshot";
    bucket (QuarterYearly p) yq "quarter-yearly snapshot";
    bucket (HalfYearly p) yh "half-yearly snapshot" ].

Definition bucketsWithin (p : ExpirePolicy) : list BucketWithin :=
  [ bucketWithin (WithinHourly p) ymdh "hourly within";
    bucketWithin (WithinDaily p) ymd "daily within";
    bucketWithin (WithinWeekly p) yw "weekly within";
    bucketWithin (WithinMonthly p) ym "monthly within";
    bucketWithin (WithinYearly p) y "yearly within";
    bucketWithin (WithinMinutely p) ymdhm "minutely within";
    bucketWithin (WithinQuarterYearly p) yq "quarter-yearly within";
    bucketWithin (WithinHalfYearly p) yh "half-yearly within" ].

(** [latest.AddDate(-years, -months, -days).Add(time.Hour * time.Duration(-hours))]: the
    product is a number of nanoseconds in 64 bits. *)
Definition cutoff (latest : Time) (d : Duration) : Time :=
  Add (AddDate latest (wrap_i 64 (- Years d)) (wrap_i 64 (- Months d)) (wrap_i 64 (- Days d)))
    (wrap_i 64 (hour * wrap_i 64 (- Hours d))).

(** One round of the first inner loop: the bucket after it and the reason it gives. *)
Definition step_bucket (cur : Snapshot) (nr len : Z) (b : Bucket) : Bucket * option bytes :=
  if (0 <? Count b) || (Count b =? -1) then
    let val := bucker b (sn_Time cur) nr in
    if negb (val =? b_Last b) || (nr =? len - 1) then
      let reason' := if (val =? b_Last b) && (nr =? len - 1)
                     then str "oldest " ++ reason b else reason b in
      ({| Count := if 0 <? Count b then Count b - 1 else Count b;
          bucker := bucker b; b_Last := val; reason := reason b |}, Some reason')
    else (b, None)
  else (b, None).

(** One round of the second. *)
Definition step_within (latest : Time) (cur : Snapshot) (nr len : Z) (b : BucketWithin)
    : BucketWithin * option bytes :=
  if negb (Zero (w_Within b)) && After (sn_Time cur) (cutoff latest (w_Within b)) then
    let val := w_bucker b (sn_Time cur) nr in
    if negb (val =? w_Last b) || (nr =? len - 1) then
      let reason' := if (val =? w_Last b) && (nr =? len - 1)
                     then str "oldest " ++ w_reason b else w_reason b in
      ({| w_Within := w_Within b; w_bucker := w_bucker b; w_Last := val; w_reason := w_reason b |},
       Some (reason' ++ str " " ++ String (w_Within b)))
    else (b, None)
  else (b, None).

Definition tag_reason (cur : Snapshot) (l : TagList) : option bytes :=
  if HasTags cur l then Some (str "has tags " ++ TagList_String l) else None.

Definition within_reason (p : ExpirePolicy) (latest : Time) (cur : Snapshot) : list bytes :=
  if negb (Zero (Within p)) && After (sn_Time cur) (cutoff latest (Within p))
  then [str "within " ++ String (Within p)] else [].

Record Counters := { c_Last : Z; c_Hourly : Z; c_Daily : Z; c_Weekly : Z; c_Monthly : Z;
                     c_Yearly : Z }.

Record KeepReason := { kr_Snapshot : option Snapshot; Matches : list bytes; counters : Counters }.

Definition count_at (i : nat) (bs : list Bucket) : Z := default 0 (Count <$> bs !! i).

Definition read_counters (bs : list Bucket) : Counters :=
  {| c_Last := count_at 0 bs; c_Hourly := count_at 1 bs; c_Daily := count_at 2 bs;
     c_Weekly := count_at 3 bs; c_Monthly := count_at 4 bs; c_Yearly := count_at 5 bs |}.

(** The loop over the snapshots; [keepSnap] is set with every reason that is added. *)
Fixpoint apply_loop (p : ExpirePolicy) (latest : Time) (len nr : Z)
    (bs : list Bucket) (ws : list BucketWithin) (snaps : list Snapshot)
    : list Snapshot * list Snapshot * list KeepReason :=
  match snaps with
  | [] => ([], [], [])
  | cur :: snaps =>
      let stepped := map (step_bucket cur nr len) bs in
      let within := map (step_within latest cur nr len) ws in
      let keepSnapReasons := omap (tag_reason cur) (Tags p) ++ within_reason p latest cur
                             ++ omap snd stepped ++ omap snd within in
      let bs := map fst stepped in
      let ws := map fst within in
      let '(keep, remove, reasons) := apply_loop p latest len (nr + 1) bs ws snaps in
      match keepSnapReasons with
      | [] => (keep, cur :: remove, reasons)
      | _ => (cur :: keep, remove,
              {| kr_Snapshot := Some cur; Matches := keepSnapReasons;
                 counters := read_counters bs |} :: reasons)
      end
  end.

Definition ApplyPolicy (now : Time) (snaps : list Snapshot) (p : ExpirePolicy)
    : result (list Snapshot * list Snapshot * list KeepReason) :=
  let snaps := sort_Stable snaps in
  if zlen snaps =? 0 then Ok (snaps, [], [])
  else
    let! latest := findLatestTimestamp now snaps in
    Ok (apply_loop p latest (zlen snaps) 0 (buckets p) (bucketsWithin p) snaps).

(** ** The retention horizon *)

Record RetentionHorizon := { Until : Time; Indefinite : bool }.

Definition indefinitely : RetentionHorizon := {| Until := zero_time; Indefinite := true |}.

Definition matches (r : KeepReason) (prefix : string) : bool :=
  existsb (fun value => has_prefix (str prefix) value
                        || has_prefix (str "oldest " ++ str prefix) value) (Matches r).

Definition count_options (p : ExpirePolicy) : list (Z * string) :=
  [(Last p, "last snapshot"); (Minutely p, "minutely snapshot"); (Hourly p, "hourly snapshot");
   (Daily p, "daily snapshot"); (Weekly p, "weekly snapshot"); (Monthly p, "monthly snapshot");
   (QuarterYearly p, "quarter-yearly snapshot"); (HalfYearly p, "half-yearly snapshot");
   (Yearly p, "yearly snapshot")]%string.

Definition within_options (p : ExpirePolicy) : list (Duration * string) :=
  [(Within p, "within "); (WithinMinutely p, "minutely within");
   (WithinHourly p, "hourly within"); (WithinDaily p, "daily within");
   (WithinWeekly p, "weekly within"); (WithinMonthly p, "monthly within");
   (WithinQuarterYearly p, "quarter-yearly within");
   (WithinHalfYearly p, "half-yearly within"); (WithinYearly p, "yearly within")]%string.

(** [setDuration] *)
Definition setDuration (t : Time) (until : Time) (d : Duration) : Time :=
  let u := Add (AddDate t (Years d) (Months d) (Days d)) (wrap_i 64 (Hours d * hour)) in
  if After u until then u else until.

Definition PolicyRetentionHorizon (r : KeepReason) (p : ExpirePolicy) : RetentionHorizon * bool :=
  match kr_Snapshot r with
  | None => ({| Until := zero_time; Indefinite := false |}, false)
  | Some sn =>
      if existsb (HasTags sn) (Tags p) then (indefinitely, true)
      else if existsb (fun o : Z * string => (fst o =? -1) && matches r (snd o)) (count_options p)
      then (indefinitely, true)
      else
        let until := foldl (fun until (o : Duration * string) =>
          if negb (Zero (fst o)) && matches r (snd o)
          then setDuration (sn_Time sn) until (fst o) else until) zero_time (within_options p) in
        ({| Until := until; Indefinite := false |}, negb (IsZero until))
  end.

End Policy.

(** ** What a policy means *)

Module PolicySpec.
Import Duration Policy.

(** The periods of a list of snapshots. *)
Fixpoint values (f : Time -> Z -> Z) (nr : Z) (s : list Snapshot) : list Z :=
  match s with
  | [] => []
  | sn :: s => f (sn_Time sn) nr :: values f (nr + 1) s
  end.

Definition distinct (vs : list Z) : Z := Z.of_nat (size (list_to_set vs : gset Z)).

(** No newer snapshot has the same period, or there is no older snapshot at all. *)
Definition newest_or_oldest (f : Time -> Z -> Z) (s : list Snapshot) (i : nat) : bool :=
  match values f 0 s !! i with
  | None => false
  | Some v => bool_decide (~ v ∈ take i (values f 0 s)) || (S i =? length s)%nat
  end.

(** An option that counts periods: fewer than [c] periods are newer. *)
Definition count_keeps (s : list Snapshot) (i : nat) (o : Z * (Time -> Z -> Z)) : bool :=
  let (c, f) := o in
  ((c =? -1) || (distinct (take i (values f 0 s)) <? c)) && newest_or_oldest f s i.

(** An option with a duration. *)
Definition within_keeps (latest : Time) (s : list Snapshot) (i : nat) (sn : Snapshot)
    (o : Duration * (Time -> Z -> Z)) : bool :=
  let (d, f) := o in
  negb (Zero d) && After (sn_Time sn) (cutoff latest d) && newest_or_oldest f s i.

(** The [i]th snapshot of the sorted list is kept by one of the options. *)
Definition policy_keeps (p : ExpirePolicy) (latest : Time) (s : list Snapshot) (i : nat) : bool :=
  match s !! i with
  | None => false
  | Some sn =>
      existsb (HasTags sn) (Tags p)
      || negb (Zero (Within p)) && After (sn_Time sn) (cutoff latest (Within p))
      || existsb (count_keeps s i)
           [(Last p, always); (Hourly p, ymdh); (Daily p, ymd); (Weekly p, yw); (Monthly p, ym);
            (Yearly p, y); (Minutely p, ymdhm); (QuarterYearly p, yq); (HalfYearly p, yh)]
      || existsb (within_keeps latest s i sn)
           [(WithinHourly p, ymdh); (WithinDaily p, ymd); (WithinWeekly p, yw);
            (WithinMonthly p, ym); (WithinYearly p, y); (WithinMinutely p, ymdhm);
            (WithinQuarterYearly p, yq); (WithinHalfYearly p, yh)]
  end.

(** The elements at the positions that satisfy [f]. *)
Fixpoint picks {A} (f : nat -> bool) (l : list A) : list A :=
  match l with
  | [] => []
  | x :: l => if f O then x :: picks (fun i => f (S i)) l else picks (fun i => f (S i)) l
  end.

(** Clocks that do not run against the order of the snapshots, as is the case when all were
    taken in the same zone. The year before year 0 is the only one whose number is the
    initial value of a bucket. *)
Definition clocks_agree (l : list Snapshot) : Prop :=
  (forall a b, a ∈ l -> b ∈ l -> T_ns (sn_Time a) <= T_ns (sn_Time b) ->
     wall (sn_Time a) <= wall (sn_Time b)) /\
  (forall a, a ∈ l -> Year (sn_Time a) <> -1).

End PolicySpec.

Module PolicyTheory.
Import Duration Policy PolicySpec CalendarTheory.

(** ** Sorting *)

Definition not_older (a b : Snapshot) : Prop := T_ns (sn_Time b) <= T_ns (sn_Time a).

Lemma insert_perm sn l : insert_newest sn l ≡ₚ sn :: l.
Proof.
  induction l as [|o l IH]; cbn; [done|]. case_match; [|done].
  rewrite IH. apply Permutation_swap.
Qed.

Lemma sort_perm l : sort_Stable l ≡ₚ l.
Proof. induction l as [|sn l IH]; cbn; [done|]. by rewrite insert_perm, IH. Qed.

Lemma insert_sorted sn l : StronglySorted not_older l -> StronglySorted not_older (insert_newest sn l).
Proof.
  induction 1 as [|o l S IH F]; cbn; [repeat constructor|].
  destruct (After (sn_Time o) (sn_Time sn)) eqn:A; unfold After in A.
  - constructor; [done|]. rewrite insert_perm. constructor; [unfold not_older; lia | done].
  - constructor; [by constructor|]. constructor; [unfold not_older; lia|].
    eapply Forall_impl; [exact F|]. unfold not_older. intros x. lia.
Qed.

Lemma sort_sorted l : StronglySorted not_older (sort_Stable l).
Proof. induction l as [|sn l IH]; cbn; [constructor | by apply insert_sorted]. Qed.

Lemma sorted_lookup s j k a b : StronglySorted not_older s -> (j < k)%nat ->
  s !! j = Some a -> s !! k = Some b -> not_older a b.
Proof.
  intros S. revert j k. induction S as [|x s S IH F]; intros j k L J K; [done|].
  destruct k as [|k]; [lia|]. destruct j as [|j]; [|apply (IH j k); [lia|done|done]].
  injection J as ->. by apply (Forall_lookup_1 _ _ _ _ F K).
Qed.

(** Snapshots of the same time stay in their order. *)
Lemma insert_stable t sn l :
  filter (fun x => T_ns (sn_Time x) = t) (insert_newest sn l)
  = filter (fun x => T_ns (sn_Time x) = t) (sn :: l).
Proof.
  induction l as [|o l IH]; cbn [insert_newest]; [done|].
  destruct (After (sn_Time o) (sn_Time sn)) eqn:A; [|done]. unfold After in A.
  rewrite (filter_cons _ o), IH, !filter_cons. repeat case_decide; done || lia.
Qed.

Lemma sort_stable t l :
  filter (fun x => T_ns (sn_Time x) = t) (sort_Stable l) = filter (fun x => T_ns (sn_Time x) = t) l.
Proof.
  induction l as [|sn l IH]; cbn [sort_Stable foldr]; [done|]. change (foldr _ _ l) with (sort_Stable l).
  rewrite insert_stable, !filter_cons, IH. done.
Qed.

(** ** One bucket on its own *)

Fixpoint bucket_trace (len nr : Z) (b : Bucket) (s : list Snapshot) : list bool :=
  match s with
  | [] => []
  | cur :: s => let (b', r) := step_bucket cur nr len b in
                bool_decide (is_Some r) :: bucket_trace len (nr + 1) b' s
  end.

Fixpoint within_trace (latest : Time) (len nr : Z) (b : BucketWithin) (s : list Snapshot) : list bool :=
  match s with
  | [] => []
  | cur :: s => let (b', r) := step_within latest cur nr len b in
                bool_decide (is_Some r) :: within_trace latest len (nr + 1) b' s
  end.

(** Both on numbers: an element that is not enabled is passed over. *)
Definition active (c : Z) : bool := (0 <? c) || (c =? -1).

Fixpoint run (c last : Z) (vs : list (bool * Z)) : list bool :=
  match vs with
  | [] => []
  | (en, v) :: vs =>
      if en && active c && (negb (v =? last) || match vs with [] => true | _ => false end)
      then true :: run (if 0 <? c then c - 1 else c) v vs
      else false :: run c last vs
  end.

Fixpoint inputs (en : Snapshot -> bool) (f : Time -> Z -> Z) (nr : Z) (s : list Snapshot)
    : list (bool * Z) :=
  match s with
  | [] => []
  | sn :: s => (en sn, f (sn_Time sn) nr) :: inputs en f (nr + 1) s
  end.

Lemma inputs_nil en f nr s :
  match inputs en f nr s with [] => true | _ => false end = (zlen s =? 0).
Proof. destruct s; cbn; [done|]. symmetry. apply Z.eqb_neq. unfold zlen. cbn [length]. lia. Qed.

Lemma last_position nr len (sn : Snapshot) s : nr + zlen (sn :: s) = len -> (nr =? len - 1) = (zlen s =? 0).
Proof.
  unfold zlen. cbn [length]. intros E. apply eq_true_iff_eq. rewrite !Z.eqb_eq. lia.
Qed.

Lemma bucket_trace_run len s : forall nr b, nr + zlen s = len ->
  bucket_trace len nr b s = run (Count b) (b_Last b) (inputs (fun _ => true) (bucker b) nr s).
Proof.
  induction s as [|sn s IH]; intros nr b L; [done|].
  cbn [bucket_trace inputs run]. unfold step_bucket. rewrite inputs_nil.
  rewrite (last_position nr len sn s L). fold (active (Count b)).
  assert (L' : nr + 1 + zlen s = len) by (unfold zlen in *; cbn [length] in L; lia).
  destruct (active (Count b)); cbn [andb]; [|by rewrite IH].
  destruct (negb _ || _); rewrite IH by exact L'; reflexivity.
Qed.

Lemma within_trace_run latest len s : forall nr b, nr + zlen s = len ->
  within_trace latest len nr b s
  = run (-1) (w_Last b)
      (inputs (fun sn => negb (Zero (w_Within b)) && After (sn_Time sn) (cutoff latest (w_Within b)))
         (w_bucker b) nr s).
Proof.
  induction s as [|sn s IH]; intros nr b L; [done|].
  cbn [within_trace inputs run]. unfold step_within. rewrite inputs_nil.
  rewrite (last_position nr len sn s L).
  assert (L' : nr + 1 + zlen s = len) by (unfold zlen in *; cbn [length] in L; lia).
  destruct (negb (Zero (w_Within b)) && After _ _); cbn [andb active]; [|by rewrite IH].
  change (active (-1)) with true. cbn [andb].
  destruct (negb _ || _); rewrite IH by exact L'; reflexivity.
Qed.

(** ** Groups *)

(** Equal values are next to each other. *)
Definition grouped (vs : list Z) : Prop :=
  forall i j k v, (i <= j <= k)%nat -> vs !! i = Some v -> vs !! k = Some v -> vs !! j = Some v.

Lemma distinct_snoc vs v :
  distinct (vs ++ [v]) = distinct vs + (if bool_decide (v ∈ vs) then 0 else 1).
Proof.
  unfold distinct. rewrite list_to_set_app_L. cbn [list_to_set]. case_bool_decide as E.
  - replace (list_to_set vs ∪ ({[v]} ∪ ∅)) with (list_to_set vs : gset Z) by set_solver. lia.
  - rewrite size_union by set_solver. rewrite (right_id_L ∅ (∪)), size_singleton. lia.
Qed.

Lemma distinct_nonneg vs : 0 <= distinct vs.
Proof. unfold distinct. lia. Qed.

(** In a grouped list a value is new exactly when it differs from the one before. *)
Lemma grouped_new seen v rest : grouped (seen ++ v :: rest) -> v <> -1 ->
  negb (v =? default (-1) (last seen)) = bool_decide (~ v ∈ seen).
Proof.
  intros G N. destruct (v =? default (-1) (last seen)) eqn:E; symmetry.
  - apply bool_decide_eq_false. apply Z.eqb_eq in E. intros F. apply F.
    destruct (last seen) as [x|] eqn:L; cbn in E; [|lia]. subst x.
    apply last_Some_elem_of in L. done.
  - apply bool_decide_eq_true. apply Z.eqb_neq in E. intros (i & I)%list_elem_of_lookup.
    apply E. pose proof (lookup_lt_Some _ _ _ I) as B.
    assert (J : (seen ++ v :: rest) !! (length seen - 1)%nat = Some v).
    { apply (G i _ (length seen)); [lia | by rewrite lookup_app_l | by apply list_lookup_middle]. }
    rewrite lookup_app_l in J by lia. rewrite last_lookup.
    replace (Init.Nat.pred (length seen)) with (length seen - 1)%nat by lia. by rewrite J.
Qed.

(** What an element is to give after [seen] when the bucket began with the count [c]. *)
Definition wanted (c : Z) (seen : list Z) (v : Z) (oldest : bool) : bool :=
  ((c =? -1) || (distinct seen <? c)) && (bool_decide (~ v ∈ seen) || oldest).

(** The state of a bucket after [seen]. *)
Definition bucket_state (c0 : Z) (seen : list Z) (c last' : Z) : Prop :=
  (c0 = -1 /\ c = -1 \/ distinct seen < c0 /\ c = c0 - distinct seen) /\ last' = default (-1) (last seen)
  \/ (c0 <> -1 /\ c0 <= distinct seen) /\ active c = false.

Lemma bucket_state_active c0 seen c last' : bucket_state c0 seen c last' ->
  active c = (c0 =? -1) || (distinct seen <? c0).
Proof.
  pose proof (distinct_nonneg seen).
  intros [[[[-> ->]|[D ->]] _]|[[N D] A]]; [done| |]; unfold active in *; split_bools.
  - apply eq_true_iff_eq. rewrite !orb_true_iff, !Z.ltb_lt, !Z.eqb_eq. lia.
  - apply eq_true_iff_eq. rewrite !orb_true_iff, !Z.ltb_lt, !Z.eqb_eq. lia.
Qed.

Lemma bucket_state_next c0 seen c last' v : bucket_state c0 seen c last' ->
  active c = true -> ~ v ∈ seen ->
  bucket_state c0 (seen ++ [v]) (if 0 <? c then c - 1 else c) v.
Proof.
  pose proof (distinct_nonneg seen).
  intros [[S L]|[_ F]] A N; [|congruence]. unfold bucket_state. rewrite distinct_snoc, bool_decide_false by done.
  rewrite last_snoc. cbn [default].
  destruct S as [[-> ->]|[D ->]]; [left; split; [by left|done]|].
  rewrite (proj2 (Z.ltb_lt _ _)) by lia.
  destruct (decide (distinct seen + 1 < c0)); [left; split; [right; lia|done] | right].
  split; [lia|]. unfold active. apply orb_false_iff. rewrite Z.ltb_ge, Z.eqb_neq. lia.
Qed.

Lemma bucket_state_same c0 seen c last' v : bucket_state c0 seen c last' ->
  (active c = true -> last seen = Some v) -> (v ∈ seen \/ active c = false) ->
  bucket_state c0 (seen ++ [v]) c last'.
Proof.
  unfold bucket_state. rewrite distinct_snoc, last_snoc. cbn [default].
  intros [[S ->]|[D F]] L E.
  - assert (A : active c = true).
    { destruct S as [[_ ->]|[? ->]]; [done|]. unfold active. by rewrite (proj2 (Z.ltb_lt _ _)) by lia. }
    destruct E as [E|E]; [|congruence]. rewrite bool_decide_true by done. left.
    rewrite L by done. split; [lia|done].
  - right. split; [case_bool_decide; lia | done].
Qed.

(** ** The trace of a bucket *)

Lemma run_disabled vs : Forall (fun x => fst x = false) vs ->
  forall c last' i x, run c last' vs !! i = Some x -> x = false.
Proof.
  induction 1 as [|[en v] vs D F IH]; intros c last' i x R; [done|].
  cbn in D. subst en. cbn [run andb] in R. destruct i as [|i]; [by injection R|]. by apply (IH c last' i).
Qed.

Lemma run_length vs : forall c last', length (run c last' vs) = length vs.
Proof. induction vs as [|[en v] vs IH]; intros; cbn; [done|]. case_match; cbn; by rewrite IH. Qed.

(** The enabled elements come first. *)
Definition enabled_first (vs : list (bool * Z)) : Prop :=
  forall i j v w, (i <= j)%nat -> vs !! i = Some (false, v) -> vs !! j = Some w -> fst w = false.

Lemma policy_run_spec c0 vs : forall seen c last', bucket_state c0 seen c last' -> enabled_first vs ->
  grouped (seen ++ map snd vs) -> ~ -1 ∈ map snd vs ->
  forall i en v, vs !! i = Some (en, v) ->
    run c last' vs !! i
    = Some (en && wanted c0 (seen ++ take i (map snd vs)) v (S i =? length vs)%nat).
Proof.
  induction vs as [|[en v] vs IH]; intros seen c last' B En G N i en' v' I; [done|].
  destruct en.
  2:{ assert (D : Forall (fun x => fst x = false) ((false, v) :: vs)).
      { apply Forall_lookup. intros j w W. apply (En 0%nat j v w); [lia|done|done]. }
      assert (E : en' = false) by (by apply (Forall_lookup_1 _ _ _ _ D I)). subst en'. cbn [andb].
      destruct (lookup_lt_is_Some_2 (run c last' ((false, v) :: vs)) i) as [x X].
      { rewrite run_length. by apply lookup_lt_Some in I. }
      by rewrite X, (run_disabled _ D _ _ _ _ X). }
  assert (En' : enabled_first vs) by (intros i1 j1 v1 w1 L; apply (En (S i1) (S j1) v1 w1); lia).
  cbn [map snd] in G, N. apply not_elem_of_cons in N as [N0 N].
  pose proof (grouped_new _ _ _ G (not_eq_sym N0)) as New.
  assert (G' : grouped ((seen ++ [v]) ++ map snd vs)) by (by rewrite <- app_assoc).
  pose proof (bucket_state_active _ _ _ _ B) as A.
  assert (Last : active c = true -> last' = default (-1) (last seen))
    by (intros T; destruct B as [[_ L]|[_ F]]; [done | congruence]).
  cbn [run andb]. destruct i as [|i].
  - injection I as <- <-. cbn [take map]. rewrite app_nil_r. unfold wanted. rewrite <- A. cbn [andb].
    destruct (active c); cbn [andb]; [|done]. rewrite Last, New by done.
    destruct vs; destruct (bool_decide _); done.
  - assert (W : match vs with [] => true | _ => false end = false) by (by destruct vs).
    rewrite W, orb_false_r. cbn [lookup list_lookup map snd take] in I |- *.
    rewrite (cons_middle v), app_assoc.
    destruct (active c && negb (v =? last')) eqn:T; cbn [lookup list_lookup].
    + apply andb_true_iff in T as [T U]. rewrite Last, New in U by done. apply bool_decide_eq_true in U.
      apply (IH (seen ++ [v])); try done. by apply bucket_state_next with last'.
    + apply (IH (seen ++ [v])); try done. apply andb_false_iff in T. apply bucket_state_same; [done| |].
      * intros C. destruct T as [T|T]; [congruence|]. rewrite Last in T by done.
        apply negb_false_iff, Z.eqb_eq in T. destruct (last seen); cbn in T; [by subst | by destruct N0].
      * destruct T as [T|T]; [by right|]. destruct (active c) eqn:C; [left | by right].
        rewrite Last, New in T by done. apply bool_decide_eq_false in T. by apply dec_stable.
Qed.

(** ** The buckets of the code *)

Lemma inputs_values en f s : forall nr, map snd (inputs en f nr s) = values f nr s.
Proof. induction s as [|sn s IH]; intros nr; cbn; [done|]. by rewrite IH. Qed.

Lemma inputs_length en f s : forall nr, length (inputs en f nr s) = length s.
Proof. induction s as [|sn s IH]; intros nr; cbn; [done|]. by rewrite IH. Qed.

Lemma inputs_lookup en f s : forall nr i sn, s !! i = Some sn ->
  inputs en f nr s !! i = Some (en sn, f (sn_Time sn) (nr + Z.of_nat i)).
Proof.
  induction s as [|x s IH]; intros nr i sn I; [done|]. destruct i as [|i].
  - injection I as ->. cbn. do 3 f_equal. lia.
  - cbn in I |- *. rewrite (IH _ _ _ I). do 3 f_equal. lia.
Qed.

Lemma values_lookup f s nr i sn : s !! i = Some sn ->
  values f nr s !! i = Some (f (sn_Time sn) (nr + Z.of_nat i)).
Proof.
  intros I. rewrite <- (inputs_values (fun _ => true) f s nr), list_lookup_fmap.
  by rewrite (inputs_lookup _ _ _ _ _ _ I).
Qed.

(** What is needed of the periods of an option. *)
Definition good_periods (s : list Snapshot) (f : Time -> Z -> Z) : Prop :=
  grouped (values f 0 s) /\ ~ -1 ∈ values f 0 s.

Lemma run_at s f en c i sn : good_periods s f -> enabled_first (inputs en f 0 s) -> s !! i = Some sn ->
  run c (-1) (inputs en f 0 s) !! i
  = Some (en sn && (((c =? -1) || (distinct (take i (values f 0 s)) <? c)) && newest_or_oldest f s i)).
Proof.
  intros [G N] E I. pose proof (inputs_lookup en f s 0 i sn I) as L.
  assert (B : bucket_state c [] c (-1)).
  { unfold bucket_state. change (distinct []) with 0. cbn [last default].
    destruct (active c) eqn:A; [left | right]; unfold active in A; split_bools; split; try done; lia. }
  rewrite (policy_run_spec c _ [] c (-1) B E) with (en := en sn) (v := f (sn_Time sn) (0 + Z.of_nat i));
    rewrite ?inputs_values; try done.
  cbn [app]. unfold wanted, newest_or_oldest. rewrite (values_lookup f s 0 i sn I), inputs_length. done.
Qed.

Lemma bucket_trace_at s i sn b : b_Last b = -1 -> good_periods s (bucker b) -> s !! i = Some sn ->
  bucket_trace (zlen s) 0 b s !! i = Some (count_keeps s i (Count b, bucker b)).
Proof.
  intros L G I. rewrite bucket_trace_run, L by lia. rewrite (run_at s _ _ _ i sn G); [done| |done].
  intros j k v w _ J. destruct (inputs (fun _ => true) (bucker b) 0 s !! j) eqn:F; [|done].
  apply lookup_lt_Some in F as B. rewrite inputs_length in B.
  destruct (lookup_lt_is_Some_2 s j B) as [x X]. rewrite (inputs_lookup _ _ _ _ _ _ X) in F. congruence.
Qed.

Lemma within_trace_at latest s i sn b : StronglySorted not_older s -> w_Last b = -1 ->
  good_periods s (w_bucker b) -> s !! i = Some sn ->
  within_trace latest (zlen s) 0 b s !! i
  = Some (within_keeps latest s i sn (w_Within b, w_bucker b)).
Proof.
  intros S L G I. rewrite within_trace_run, L by lia. rewrite (run_at s _ _ _ i sn G); [done| |done].
  intros j k v w LE J K.
  assert (Bj : (j < length s)%nat) by (apply lookup_lt_Some in J; by rewrite inputs_length in J).
  assert (Bk : (k < length s)%nat) by (apply lookup_lt_Some in K; by rewrite inputs_length in K).
  destruct (lookup_lt_is_Some_2 s j Bj) as [x X]. destruct (lookup_lt_is_Some_2 s k Bk) as [z Z0].
  rewrite (inputs_lookup _ _ _ _ _ _ X) in J. rewrite (inputs_lookup _ _ _ _ _ _ Z0) in K.
  injection J as J _. injection K as <-. cbn [fst].
  destruct (negb (Zero (w_Within b))); [|done]. cbn [andb] in *. unfold After in *.
  assert (O : not_older x z).
  { destruct (decide (j = k)) as [->|Ne]; [assert (x = z) by congruence; subst; unfold not_older; lia|].
    apply (sorted_lookup s j k); [done|lia|done|done]. }
  unfold not_older in O. rewrite Z.ltb_ge in *. lia.
Qed.

(** ** The loop *)

(** Whether the [i]th of the remaining snapshots is kept, by the buckets on their own. *)
Definition kept (p : ExpirePolicy) (latest : Time) (len nr : Z) (bs : list Bucket)
    (ws : list BucketWithin) (s : list Snapshot) (i : nat) : bool :=
  match s !! i with
  | None => false
  | Some sn =>
      existsb (HasTags sn) (Tags p)
      || negb (Zero (Within p)) && After (sn_Time sn) (cutoff latest (Within p))
      || existsb (fun b => default false (bucket_trace len nr b s !! i)) bs
      || existsb (fun b => default false (within_trace latest len nr b s !! i)) ws
  end.

Lemma kept_next p latest len nr bs ws sn s i :
  kept p latest len nr bs ws (sn :: s) (S i)
  = kept p latest len (nr + 1) (map fst (map (step_bucket sn nr len) bs))
      (map fst (map (step_within latest sn nr len) ws)) s i.
Proof.
  unfold kept. cbn [lookup list_lookup]. destruct (s !! i) as [cur|]; [|done]. rewrite !map_map.
  f_equal; [f_equal|].
  - induction bs as [|b bs IH]; cbn [existsb map]; [done|]. rewrite IH. f_equal.
    cbn [bucket_trace]. by destruct (step_bucket sn nr len b).
  - induction ws as [|b ws IH]; cbn [existsb map]; [done|]. rewrite IH. f_equal.
    cbn [within_trace]. by destruct (step_within latest sn nr len b).
Qed.

Definition is_nil {A} (l : list A) : bool := match l with [] => true | _ => false end.

Lemma is_nil_app {A} (a b : list A) : is_nil (a ++ b) = is_nil a && is_nil b.
Proof. by destruct a. Qed.

Lemma is_nil_omap {A B} (f : A -> option B) l :
  is_nil (omap f l) = negb (existsb (fun x => bool_decide (is_Some (f x))) l).
Proof. induction l as [|x l IH]; cbn; [done|]. destruct (f x); cbn; [done|]. by rewrite IH. Qed.

Lemma is_nil_reasons p latest len nr bs ws sn s :
  is_nil (omap (tag_reason sn) (Tags p) ++ within_reason p latest sn
          ++ omap snd (map (step_bucket sn nr len) bs) ++ omap snd (map (step_within latest sn nr len) ws))
  = negb (kept p latest len nr bs ws (sn :: s) 0).
Proof.
  rewrite !is_nil_app, !is_nil_omap. unfold kept. cbn [lookup list_lookup]. rewrite !negb_orb, !andb_assoc.
  f_equal; [f_equal; [f_equal|]|].
  - f_equal. induction (Tags p) as [|l tags IH]; cbn [existsb]; [done|]. rewrite IH. f_equal.
    unfold tag_reason. by destruct (HasTags sn l).
  - unfold within_reason. by destruct (_ && _).
  - f_equal. induction bs as [|b bs IH]; cbn [existsb map]; [done|]. rewrite IH. f_equal.
    cbn [bucket_trace]. by destruct (step_bucket sn nr len b).
  - f_equal. induction ws as [|b ws IH]; cbn [existsb map]; [done|]. rewrite IH. f_equal.
    cbn [within_trace]. by destruct (step_within latest sn nr len b).
Qed.

Lemma picks_ext {A} (l : list A) : forall f g, (forall i, (i < length l)%nat -> f i = g i) -> picks f l = picks g l.
Proof.
  induction l as [|x l IH]; intros f g E; cbn; [done|].
  rewrite (E 0%nat) by (cbn; lia). rewrite (IH (fun i => f (S i)) (fun i => g (S i))); [done|].
  intros i L. apply E. cbn. lia.
Qed.

Lemma apply_loop_picks p latest len s : forall nr bs ws,
  exists reasons,
    apply_loop p latest len nr bs ws s
    = (picks (kept p latest len nr bs ws s) s,
       picks (fun i => negb (kept p latest len nr bs ws s i)) s, reasons)
    /\ map kr_Snapshot reasons = map Some (picks (kept p latest len nr bs ws s) s)
    /\ Forall (fun r => Matches r <> []) reasons.
Proof.
  induction s as [|sn s IH]; intros nr bs ws; [by exists []|]. cbn [apply_loop].
  pose proof (is_nil_reasons p latest len nr bs ws sn s) as N.
  set (rs := omap (tag_reason sn) (Tags p) ++ _) in *. clearbody rs.
  destruct (IH (nr + 1) (map fst (map (step_bucket sn nr len) bs))
              (map fst (map (step_within latest sn nr len) ws))) as (reasons & E & M & F).
  rewrite E. cbn [picks].
  rewrite !(picks_ext s (fun i => kept p latest len nr bs ws (sn :: s) (S i)) _
              (fun i _ => kept_next p latest len nr bs ws sn s i)).
  rewrite !(picks_ext s (fun i => negb (kept p latest len nr bs ws (sn :: s) (S i))) _
              (fun i _ => f_equal negb (kept_next p latest len nr bs ws sn s i))).
  destruct rs as [|r rs]; cbn [is_nil] in N; symmetry in N.
  - apply negb_true_iff in N. rewrite N. cbn [negb]. by exists reasons.
  - apply negb_false_iff in N. rewrite N. cbn [negb]. eexists. split; [done|]. split.
    + cbn [map kr_Snapshot]. by rewrite M.
    + by constructor.
Qed.

(** ** Periods grow with the time *)

Definition grows (f : Time -> Z -> Z) : Prop :=
  (forall a b m n, wall a <= wall b -> f a m <= f b n) /\
  (forall a n, Year a <> -1 -> f a n <> -1).

Lemma day_mono a b : wall a <= wall b -> day_number a <= day_number b.
Proof. unfold day_number, seconds_per_day. intros L. by apply Z.div_le_mono. Qed.

Lemma time_bounds t : 1 <= Month t <= 12 /\ 1 <= Day t <= 31 /\ 0 <= Hour t < 24 /\ 0 <= Minute t < 60.
Proof.
  pose proof (civil_ok (day_number t)) as O. unfold Month, Day, Hour, Minute, seconds_per_day, civil.
  set (d := civil_of (day_number t)) in *. clearbody d.
  unfold date_ok, month_days, month_length in O. split_bools.
  split_and!; try lia; try (repeat case_match; lia); Z.div_mod_to_equations; lia.
Qed.

Lemma ymd_ordinal t n : ymd t n = ordinal (civil t).
Proof. unfold ymd, ordinal, Year, Month, Day. reflexivity. Qed.

Lemma ymd_strict a b n : day_number a < day_number b -> ymd a n < ymd b n.
Proof.
  intros L. rewrite !ymd_ordinal. unfold civil.
  pose proof (ordinal_next _ (civil_ok (day_number a))) as N. rewrite <- civil_succ in N.
  eapply Z.lt_le_trans; [exact N|]. apply ordinal_mono. lia.
Qed.

(** The time of the day grows within a day. *)
Lemma clock_mono a b : wall a <= wall b -> day_number a < day_number b \/
  (civil a = civil b /\ Hour a <= Hour b /\ Hour a * 100 + Minute a <= Hour b * 100 + Minute b).
Proof.
  intros L. destruct (decide (day_number a < day_number b)) as [D|D]; [by left | right].
  assert (E : day_number a = day_number b) by (pose proof (day_mono _ _ L); lia).
  split; [unfold civil; by rewrite E|]. unfold day_number, Hour, Minute, seconds_per_day in *.
  Z.div_mod_to_equations. lia.
Qed.

Lemma same_civil a b : civil a = civil b -> Year a = Year b /\ Month a = Month b /\ Day a = Day b.
Proof. unfold Year, Month, Day. by intros ->. Qed.

Lemma months_grow a b : wall a <= wall b -> Year a * 12 + Month a <= Year b * 12 + Month b.
Proof. intros L. unfold Year, Month, civil. apply month_mono, day_mono, L. Qed.

(** The fields of a time as numbers, with their bounds. *)
Ltac fields t :=
  pose proof (time_bounds t);
  let y := fresh "y" in let mo := fresh "mo" in let d := fresh "d" in
  let h := fresh "h" in let mi := fresh "mi" in
  set (y := Year t) in *; set (mo := Month t) in *; set (d := Day t) in *;
  set (h := Hour t) in *; set (mi := Minute t) in *; clearbody y mo d h mi.

Lemma grows_ymd : grows ymd.
Proof.
  split.
  - intros a b m n L. rewrite !ymd_ordinal. by apply ordinal_mono, day_mono.
  - intros a n _. unfold ymd. fields a. lia.
Qed.

Lemma grows_ymdh : grows ymdh.
Proof.
  split.
  - intros a b m n L. unfold ymdh.
    destruct (clock_mono a b L) as [D%(ymd_strict _ _ 0)|((E1 & E2 & E3)%same_civil & H1 & _)].
    + unfold ymd in D. fields a. fields b. lia.
    + rewrite E1, E2, E3. lia.
  - intros a n _. unfold ymdh. fields a. lia.
Qed.

Lemma grows_ymdhm : grows ymdhm.
Proof.
  split.
  - intros a b m n L. unfold ymdhm.
    destruct (clock_mono a b L) as [D%(ymd_strict _ _ 0)|((E1 & E2 & E3)%same_civil & _ & H1)].
    + unfold ymd in D. fields a. fields b. lia.
    + rewrite E1, E2, E3. lia.
  - intros a n _. unfold ymdhm. fields a. lia.
Qed.

Lemma grows_yw : grows yw.
Proof.
  split.
  - intros a b m n L. unfold yw, ISOWeek. by apply week_mono, day_mono.
  - intros a n _. unfold yw, ISOWeek. pose proof (yday_bounds (thursday (day_number a))) as B.
    revert B. generalize (yday (thursday (day_number a))) (d_year (civil_of (thursday (day_number a)))).
    intros z w B. Z.div_mod_to_equations. lia.
Qed.

Lemma grows_ym : grows ym.
Proof.
  split.
  - intros a b m n L%months_grow. unfold ym. fields a. fields b. lia.
  - intros a n _. unfold ym. fields a. lia.
Qed.

Lemma grows_y : grows y.
Proof. split; [|done]. intros a b m n L. by apply year_mono, day_mono. Qed.

Lemma grows_yq : grows yq.
Proof.
  split.
  - intros a b m n L%months_grow. unfold yq. fields a. fields b. Z.div_mod_to_equations. lia.
  - intros a n _. unfold yq. fields a. Z.div_mod_to_equations. lia.
Qed.

Lemma grows_yh : grows yh.
Proof.
  split.
  - intros a b m n L%months_grow. unfold yh. fields a. fields b. Z.div_mod_to_equations. lia.
  - intros a n _. unfold yh. fields a. Z.div_mod_to_equations. lia.
Qed.

Lemma grows_good s f : StronglySorted not_older s -> clocks_agree s -> grows f -> good_periods s f.
Proof.
  intros S [C Y] [M N].
  assert (V : forall i v, values f 0 s !! i = Some v ->
            exists sn, s !! i = Some sn /\ v = f (sn_Time sn) (0 + Z.of_nat i)).
  { intros i v E. assert (B : (i < length s)%nat).
    { apply lookup_lt_Some in E. rewrite <- (inputs_values (fun _ => true)), length_map, inputs_length in E. done. }
    destruct (lookup_lt_is_Some_2 s i B) as [sn X]. exists sn. split; [done|].
    rewrite (values_lookup f s 0 i sn X) in E. congruence. }
  assert (D : forall i j a b, (i < j)%nat -> values f 0 s !! i = Some a -> values f 0 s !! j = Some b -> b <= a).
  { intros i j a b L (x & X & ->)%V (z & Z0 & ->)%V. apply M, C;
      [by eapply list_elem_of_lookup_2 .. | by apply (sorted_lookup s i j)]. }
  split.
  - intros i j k v [L1 L2] I K. destruct (decide (i = j)) as [->|N1]; [done|].
    destruct (decide (j = k)) as [->|N2]; [done|].
    destruct (values f 0 s !! j) as [x|] eqn:J.
    + f_equal. pose proof (D i j _ _ ltac:(lia) I J). pose proof (D j k _ _ ltac:(lia) J K). lia.
    + apply lookup_ge_None in J. apply lookup_lt_Some in K. lia.
  - intros (i & I)%list_elem_of_lookup. apply V in I as (sn & X & E).
    apply (N (sn_Time sn) (0 + Z.of_nat i)); [|done]. by apply Y, list_elem_of_lookup_2 with i.
Qed.

Lemma always_good s : good_periods s always.
Proof.
  assert (V : forall i v, values always 0 s !! i = Some v -> v = Z.of_nat i).
  { intros i v E. destruct (s !! i) as [sn|] eqn:X.
    - rewrite (values_lookup always s 0 i sn X) in E. unfold always in E. injection E as <-. lia.
    - apply lookup_ge_None in X. apply lookup_lt_Some in E.
      rewrite <- (inputs_values (fun _ => true)), length_map, inputs_length in E. lia. }
  split.
  - intros i j k v L I K. pose proof (V _ _ I). pose proof (V _ _ K). assert (i = j) as <- by lia. done.
  - intros (i & I)%list_elem_of_lookup. apply V in I. lia.
Qed.

(** ** The whole policy *)

Lemma kept_policy p latest s i : StronglySorted not_older s -> clocks_agree s -> (i < length s)%nat ->
  kept p latest (zlen s) 0 (buckets p) (bucketsWithin p) s i = policy_keeps p latest s i.
Proof.
  intros S C L. destruct (lookup_lt_is_Some_2 s i L) as [sn I].
  assert (B : forall c f r, good_periods s f ->
    default false (bucket_trace (zlen s) 0 (bucket c f r) s !! i) = count_keeps s i (c, f)).
  { intros c f r G. by rewrite (bucket_trace_at s i sn (bucket c f r) eq_refl G I). }
  assert (W : forall d f r, good_periods s f ->
    default false (within_trace latest (zlen s) 0 (bucketWithin d f r) s !! i)
    = within_keeps latest s i sn (d, f)).
  { intros d f r G. by rewrite (within_trace_at latest s i sn (bucketWithin d f r) S eq_refl G I). }
  pose proof (grows_good s) as G. specialize (fun f => G f S C).
  unfold kept, policy_keeps. rewrite I. unfold buckets, bucketsWithin. cbn [existsb].
  rewrite !B, !W by (apply always_good || apply G; auto using grows_ymd, grows_ymdh, grows_ymdhm,
    grows_yw, grows_ym, grows_y, grows_yq, grows_yh).
  done.
Qed.

Lemma clocks_agree_perm l k : l ≡ₚ k -> clocks_agree l -> clocks_agree k.
Proof.
  intros P [C Y]. split; [intros a b A B | intros a A]; rewrite <- P in *; [by apply C | by apply Y].
Qed.

Lemma findLatest_some now s : s <> [] -> exists latest, findLatestTimestamp now s = Ok latest.
Proof. destruct s as [|sn s]; [done|]. intros _. by eexists. Qed.

Lemma ApplyPolicy_loop now l p : exists latest reasons,
  let s := sort_Stable l in
  let k := kept p latest (zlen s) 0 (buckets p) (bucketsWithin p) s in
  (l <> [] -> findLatestTimestamp now s = Ok latest) /\
  ApplyPolicy now l p = Ok (picks k s, picks (fun i => negb (k i)) s, reasons) /\
  map kr_Snapshot reasons = map Some (picks k s) /\ Forall (fun r => Matches r <> []) reasons.
Proof.
  destruct (decide (l = [])) as [->|N]; [by exists zero_time, []|].
  assert (N' : sort_Stable l <> []).
  { intros E. apply N, Permutation_nil_r. by rewrite <- (sort_perm l), E. }
  destruct (findLatest_some now _ N') as [latest F].
  destruct (apply_loop_picks p latest (zlen (sort_Stable l)) (sort_Stable l) 0 (buckets p)
              (bucketsWithin p)) as (reasons & E & M & R).
  exists latest, reasons. split; [done|]. split; [|done]. unfold ApplyPolicy. rewrite F. cbn [rbind].
  destruct (zlen (sort_Stable l) =? 0) eqn:Z0; [by apply Z.eqb_eq, zlen_zero in Z0 | by rewrite E].
Qed.

Lemma picks_perm {A} (l : list A) : forall f, picks f l ++ picks (fun i => negb (f i)) l ≡ₚ l.
Proof.
  induction l as [|x l IH]; intros f; cbn; [done|]. destruct (f 0%nat); cbn.
  - by rewrite (IH (fun i => f (S i))).
  - rewrite <- Permutation_middle. by rewrite (IH (fun i => f (S i))).
Qed.

Lemma picks_sublist {A} (l : list A) : forall f, picks f l `sublist_of` l.
Proof. induction l as [|x l IH]; intros f; cbn; [done|]. case_match; by constructor. Qed.

(** ** Times in a fixed zone *)

Definition in_fixed_zone (t : Time) : Prop := exists offset, T_loc t = fixed_zone offset.

Lemma same_zone_agree offset l : Forall (fun sn => T_loc (sn_Time sn) = fixed_zone offset) l ->
  Forall (fun sn => Year (sn_Time sn) <> -1) l -> clocks_agree l.
Proof.
  rewrite !Forall_forall. intros Z0 Y. split; [|exact Y]. intros a b A B L. unfold wall, Unix, second.
  rewrite (Z0 a A), (Z0 b B). cbn [fixed_zone z_offset].
  pose proof (Z.div_le_mono _ _ (10 ^ 9) ltac:(lia) L). lia.
Qed.

Lemma at_fixed_zone offset w : at_location (fixed_zone offset) w = w - offset.
Proof. unfold at_location. cbn [fixed_zone z_offset z_start z_end]. repeat case_match; lia. Qed.

Lemma days_of_day y m d : days_of {| d_year := y; d_month := m; d_day := 1 |} + (d - 1)
  = days_of {| d_year := y; d_month := m; d_day := d |}.
Proof. unfold days_of. cbn [d_year d_month d_day]. lia. Qed.

(** Adding nothing in a fixed zone gives the same time. *)
Lemma AddDate_zero t : in_fixed_zone t -> T_ns (AddDate t 0 0 0) = T_ns t.
Proof.
  intros [offset F]. unfold AddDate, Date. cbn [T_ns]. rewrite F, at_fixed_zone, !Z.add_0_r.
  pose proof (time_bounds t) as (M & _).
  rewrite (Z.div_small (Month t - 1)), (Z.mod_small (Month t - 1)), Z.add_0_r by lia.
  replace (Month t - 1 + 1) with (Month t) by lia. rewrite days_of_day.
  change {| d_year := Year t; d_month := Month t; d_day := Day t |} with (civil t).
  unfold civil. rewrite days_of_civil. unfold day_number, wall, Unix, seconds_per_day, second.
  rewrite ?F. cbn [fixed_zone z_offset].
  Z.div_mod_to_equations. lia.
Qed.

(** ** The latest time *)

Definition later (now latest : Time) (sn : Snapshot) : Time :=
  if After (sn_Time sn) latest && Before (sn_Time sn) now then sn_Time sn else latest.

Lemma latest_fold now s : forall t, Forall (fun sn => Before (sn_Time sn) now = true) s ->
  let latest := foldl (later now) t s in
  T_ns t <= T_ns latest /\ Forall (fun sn => T_ns (sn_Time sn) <= T_ns latest) s /\
  (latest = t \/ exists sn, sn ∈ s /\ latest = sn_Time sn).
Proof.
  induction s as [|sn s IH]; intros t B; cbn [foldl]; [split_and!; [lia|constructor|by left]|].
  apply Forall_cons in B as [B0 B]. destruct (IH (later now t sn) B) as (L & F & O).
  assert (T : T_ns t <= T_ns (later now t sn) /\ T_ns (sn_Time sn) <= T_ns (later now t sn)).
  { unfold later. rewrite B0, andb_true_r. unfold After. case_match; split_bools; lia. }
  split_and!; [lia | constructor; [lia|done] |].
  destruct O as [->|(x & X & ->)]; [|right; exists x; split; [by right|done]].
  unfold later. case_match; [right; exists sn; split; [by left|done] | by left].
Qed.

(** ** Options that are not set *)

Lemma run_inactive vs : forall last', run 0 last' vs = map (fun _ => false) vs.
Proof. induction vs as [|[en v] vs IH]; intros last'; cbn; [done|]. rewrite andb_false_r. cbn. by rewrite IH. Qed.

Lemma no_count s f r i : default false (bucket_trace (zlen s) 0 (bucket 0 f r) s !! i) = false.
Proof.
  rewrite bucket_trace_run by lia. cbn [bucket Count b_Last]. rewrite run_inactive, list_lookup_fmap.
  by destruct (_ !! i).
Qed.

Lemma no_within latest s f r i :
  default false (within_trace latest (zlen s) 0 (bucketWithin no_duration f r) s !! i) = false.
Proof.
  rewrite within_trace_run by lia. cbn [bucketWithin w_Within w_bucker w_Last].
  change (Zero no_duration) with true. cbn [negb andb].
  destruct (_ !! i) as [x|] eqn:E; [|done]. cbn. eapply run_disabled; [|exact E].
  apply Forall_forall. intros [en v] (j & J)%list_elem_of_lookup.
  assert (B : (j < length s)%nat) by (apply lookup_lt_Some in J; by rewrite inputs_length in J).
  destruct (lookup_lt_is_Some_2 s j B) as [sn S]. rewrite (inputs_lookup _ _ _ _ _ _ S) in J. by injection J as <-.
Qed.

(** A policy with nothing but [within]. *)
Definition only_within (d : Duration) : ExpirePolicy :=
  {| Last := 0; Minutely := 0; Hourly := 0; Daily := 0; Weekly := 0; Monthly := 0;
     QuarterYearly := 0; HalfYearly := 0; Yearly := 0; Within := d;
     WithinMinutely := no_duration; WithinHourly := no_duration; WithinDaily := no_duration;
     WithinWeekly := no_duration; WithinMonthly := no_duration; WithinQuarterYearly := no_duration;
     WithinHalfYearly := no_duration; WithinYearly := no_duration; Tags := [] |}.

Lemma kept_only_within d latest s i sn : s !! i = Some sn ->
  kept (only_within d) latest (zlen s) 0 (buckets (only_within d)) (bucketsWithin (only_within d)) s i
  = negb (Zero d) && After (sn_Time sn) (cutoff latest d).
Proof.
  intros I. unfold kept. rewrite I. unfold buckets, bucketsWithin. cbn [existsb only_within Tags Within
    Last Minutely Hourly Daily Weekly Monthly QuarterYearly HalfYearly Yearly WithinMinutely WithinHourly
    WithinDaily WithinWeekly WithinMonthly WithinQuarterYearly WithinHalfYearly WithinYearly].
  rewrite !no_count, !no_within. by rewrite !orb_false_r.
Qed.

Lemma picks_none {A} (l : list A) : picks (fun _ => false) l = [] /\ picks (fun _ => true) l = l.
Proof. induction l as [|x l [IH1 IH2]]; cbn; [done|]. by rewrite IH1, IH2. Qed.

Definition hours (h : Z) : Duration := {| Hours := h; Days := 0; Months := 0; Years := 0 |}.

(** The product overflows for more than 292 years. *)
Lemma cutoff_hours latest h : in_fixed_zone latest -> 2562047 < h <= 5124095 ->
  T_ns latest <= T_ns (cutoff latest (hours h)).
Proof.
  intros F H. unfold cutoff, hours. cbn [Hours Days Months Years]. change (wrap_i 64 (- 0)) with 0.
  unfold Add. cbn [T_ns]. rewrite AddDate_zero by done.
  assert (E : wrap_i 64 (- h) = - h) by (unfold wrap_i; rewrite Z.mod_small; lia).
  rewrite E. assert (P : 0 <= wrap_i 64 (hour * - h)); [|lia].
  unfold wrap_i. change (64 - 1) with 63.
  replace ((hour * - h + 2 ^ 63) mod 2 ^ 64) with (hour * - h + 2 ^ 63 + 2 ^ 64);
    [unfold hour, second; lia|].
  apply Z.mod_unique with (-1); unfold hour, second; lia.
Qed.

End PolicyTheory.

(** ** Properties *)

Module PolicyProps.
Import Duration DurationTheory Policy PolicySpec PolicyTheory.

(** C13. Which snapshots a policy keeps, when the clocks agree with the order of the
    snapshots: of the list sorted newest first those, in this order, that [policy_keeps]
    tells. These are the snapshots with the tags, those within the duration before the
    latest one, and for each option that counts periods the newest of each of the last [n]
    periods that have a snapshot, and the oldest snapshot while fewer than [n] are newer.
    Every other snapshot is removed, and there is one reason per kept snapshot. *)
Theorem ApplyPolicy_spec now l p : clocks_agree l ->
  exists latest reasons,
    let s := sort_Stable l in
    (l <> [] -> findLatestTimestamp now s = Ok latest) /\
    ApplyPolicy now l p
    = Ok (picks (policy_keeps p latest s) s, picks (fun i => negb (policy_keeps p latest s i)) s, reasons) /\
    map kr_Snapshot reasons = map Some (picks (policy_keeps p latest s) s).
Proof.
  intros C. destruct (ApplyPolicy_loop now l p) as (latest & reasons & F & E & M & _).
  exists latest, reasons. cbv zeta. split; [exact F|].
  assert (C' : clocks_agree (sort_Stable l)) by (by apply (clocks_agree_perm l); [rewrite sort_perm|]).
  pose proof (fun i L => kept_policy p latest _ i (sort_sorted l) C' L) as K.
  rewrite (picks_ext _ _ _ K) in E, M.
  rewrite (picks_ext _ (fun i => negb (kept _ _ _ _ _ _ _ i)) _ (fun i L => f_equal negb (K i L))) in E.
  by split.
Qed.

(** Three snapshots of two days, in UTC: two on January 2nd 2026 and one on the 1st. *)
Definition at_hour (h : Z) (id : string) : Snapshot :=
  {| sn_Time := {| T_ns := (1767225600 + h * 3600) * second; T_loc := UTC |}; sn_Tags := []; sn_id := str id |}.

Definition toy_snapshots : list Snapshot := [at_hour 12 "a"; at_hour 36 "b"; at_hour 37 "c"].

Definition only_daily (c : Z) (d : Duration) : ExpirePolicy :=
  {| Last := 0; Minutely := 0; Hourly := 0; Daily := c; Weekly := 0; Monthly := 0;
     QuarterYearly := 0; HalfYearly := 0; Yearly := 0; Within := no_duration;
     WithinMinutely := no_duration; WithinHourly := no_duration; WithinDaily := d;
     WithinWeekly := no_duration; WithinMonthly := no_duration; WithinQuarterYearly := no_duration;
     WithinHalfYearly := no_duration; WithinYearly := no_duration; Tags := [] |}.

Lemma toy_agree : clocks_agree toy_snapshots.
Proof. apply (same_zone_agree 0); repeat constructor; vm_compute; discriminate. Qed.

Lemma ApplyPolicy_spec_witness :
  let p := only_daily 1 no_duration in
  let now := sn_Time (at_hour 48 "now") in
  map (policy_keeps p (sn_Time (at_hour 37 "c")) (sort_Stable toy_snapshots)) [0; 1; 2]%nat = [true; false; false]
  /\ exists latest reasons,
    let s := sort_Stable toy_snapshots in
    (toy_snapshots <> [] -> findLatestTimestamp now s = Ok latest) /\
    ApplyPolicy now toy_snapshots p
    = Ok (picks (policy_keeps p latest s) s, picks (fun i => negb (policy_keeps p latest s i)) s, reasons) /\
    map kr_Snapshot reasons = map Some (picks (policy_keeps p latest s) s).
Proof.
  split; [vm_compute; reflexivity|].
  exact (ApplyPolicy_spec (sn_Time (at_hour 48 "now")) toy_snapshots (only_daily 1 no_duration) toy_agree).
Defined.

(** C31. Whatever the policy, the clocks and the times: evaluation does not panic, every
    snapshot is either kept or removed, both lists are in the order of the sorted list, and
    each kept snapshot comes with its reason. Sorting puts newer snapshots first and
    leaves those of the same time in their order. *)
Theorem ApplyPolicy_partition now l p :
  exists keep remove reasons,
    ApplyPolicy now l p = Ok (keep, remove, reasons) /\ keep ++ remove ≡ₚ l /\
    keep `sublist_of` sort_Stable l /\ remove `sublist_of` sort_Stable l /\
    map kr_Snapshot reasons = map Some keep /\ Forall (fun r => Matches r <> []) reasons /\
    StronglySorted not_older (sort_Stable l) /\
    forall t, filter (fun x => T_ns (sn_Time x) = t) (sort_Stable l)
              = filter (fun x => T_ns (sn_Time x) = t) l.
Proof.
  destruct (ApplyPolicy_loop now l p) as (latest & reasons & _ & E & M & F).
  eexists _, _, _. split; [exact E|]. split; [by rewrite picks_perm, sort_perm|].
  do 2 (split; [apply picks_sublist|]). do 2 (split; [done|]).
  split; [apply sort_sorted|]. intros t. apply sort_stable.
Qed.

(** C37. A [within] of more than 2562047 and at most 5124095 hours wraps around: its end
    lies after the latest snapshot, so that nothing is within it. A policy that is to keep
    the snapshots of the last 300 years removes all of them. *)
Theorem ApplyPolicy_within_overflow now l h :
  2562047 < h <= 5124095 -> Forall (fun sn => in_fixed_zone (sn_Time sn)) l ->
  Forall (fun sn => Before (sn_Time sn) now = true) l ->
  exists reasons, ApplyPolicy now l (only_within (hours h)) = Ok ([], sort_Stable l, reasons).
Proof.
  intros H Z0 B. destruct (ApplyPolicy_loop now l (only_within (hours h))) as (latest & reasons & F & E & _).
  exists reasons. rewrite E. clear E. set (s := sort_Stable l) in *.
  rewrite <- (sort_perm l) in Z0, B. fold s in Z0, B.
  assert (K : forall i, (i < length s)%nat -> kept (only_within (hours h)) latest (zlen s) 0
    (buckets (only_within (hours h))) (bucketsWithin (only_within (hours h))) s i = false).
  { intros i L. destruct (lookup_lt_is_Some_2 s i L) as [sn I]. rewrite (kept_only_within _ _ _ _ sn I).
    apply andb_false_iff. right. unfold After. apply Z.ltb_ge.
    assert (N : l <> []) by (intros ->; done). specialize (F N). unfold findLatestTimestamp in F.
    apply rbind_ok in F as (u & _ & [= <-]). change (foldl _ zero_time s) with (foldl (later now) zero_time s).
    destruct (latest_fold now s zero_time B) as (_ & M & O). rewrite Forall_forall in M, Z0.
    etrans; [apply M, list_elem_of_lookup_2 with i, I|]. apply cutoff_hours; [|done].
    destruct O as [->|(x & X & ->)]; [by exists 0 | by apply Z0]. }
  rewrite (picks_ext s _ (fun _ => false) K), (picks_ext s _ (fun _ => true) (fun i L => f_equal negb (K i L))).
  by rewrite (proj1 (picks_none s)), (proj2 (picks_none s)).
Qed.

Lemma ApplyPolicy_within_overflow_witness :
  let now := sn_Time (at_hour 48 "now") in
  exists reasons, ApplyPolicy now toy_snapshots (only_within (hours 2629800)) = Ok ([], sort_Stable toy_snapshots, reasons).
Proof.
  apply (ApplyPolicy_within_overflow (sn_Time (at_hour 48 "now")) toy_snapshots 2629800); [lia| |].
  - repeat constructor; by exists 0.
  - repeat constructor.
Defined.

(** *** The next snapshot of the period *)

Lemma omap_none {A B} (f : A -> option B) l : Forall (fun x => f x = None) l -> omap f l = [].
Proof. induction 1 as [|x l E _ IH]; cbn; [done|]. by rewrite E. Qed.

Lemma bucket_displaced (b c : Snapshot) len k : 2 < len -> b_Last k = -1 ->
  (active (Count k) = true -> bucker k (sn_Time c) 0 = bucker k (sn_Time b) 1) ->
  snd (step_bucket b 1 len (fst (step_bucket c 0 len k))) = None.
Proof.
  intros Le L0 Same. unfold step_bucket at 2. fold (active (Count k)).
  assert (O0 : (0 =? len - 1) = false) by (apply Z.eqb_neq; lia). assert (O1 : (1 =? len - 1) = false) by (apply Z.eqb_neq; lia).
  destruct (active (Count k)) eqn:A; [specialize (Same eq_refl)|cbn [fst]; unfold step_bucket; fold (active (Count k)); by rewrite A].
  rewrite O0, orb_false_r. destruct (bucker k (sn_Time c) 0 =? b_Last k) eqn:V; cbn [negb fst].
  - apply Z.eqb_eq in V. unfold step_bucket. fold (active (Count k)). rewrite A, O1, orb_false_r, <- Same, V, Z.eqb_refl. done.
  - unfold step_bucket. cbn [Count bucker b_Last]. destruct (_ || _); [|done]. by rewrite O1, orb_false_r, <- Same, Z.eqb_refl.
Qed.

Lemma within_displaced latest (b c : Snapshot) len k : 2 < len -> w_Last k = -1 -> After (sn_Time c) (sn_Time b) = true ->
  (Zero (w_Within k) = false -> w_bucker k (sn_Time c) 0 = w_bucker k (sn_Time b) 1) ->
  snd (step_within latest b 1 len (fst (step_within latest c 0 len k))) = None.
Proof.
  intros Le L0 Newer Same. unfold step_within at 2.
  assert (O0 : (0 =? len - 1) = false) by (apply Z.eqb_neq; lia). assert (O1 : (1 =? len - 1) = false) by (apply Z.eqb_neq; lia).
  destruct (Zero (w_Within k)) eqn:Z0; cbn [negb andb fst]; [unfold step_within; by rewrite Z0|specialize (Same eq_refl)].
  destruct (After (sn_Time c) (cutoff latest (w_Within k))) eqn:A.
  - rewrite O0, orb_false_r. destruct (w_bucker k (sn_Time c) 0 =? w_Last k) eqn:V; cbn [negb fst]; unfold step_within;
      cbn [w_Within w_bucker w_Last]; rewrite Z0; cbn [negb andb]; (destruct (After (sn_Time b) _); [|done]);
      rewrite O1, orb_false_r, <- Same; [by rewrite V|by rewrite Z.eqb_refl].
  - cbn [fst]. unfold step_within. rewrite Z0. cbn [negb andb]. unfold After in *. apply Z.ltb_ge in A. apply Z.ltb_lt in Newer.
    by rewrite (proj2 (Z.ltb_ge _ _)) by lia.
Qed.

(** A policy that keeps [b] for the sake of its periods alone, all of which [c] shares. *)
Definition displaces (p : ExpirePolicy) (b c : Snapshot) : Prop :=
  After (sn_Time c) (sn_Time b) = true /\ existsb (HasTags b) (Tags p) = false /\ Zero (Within p) = true
  /\ Forall (fun k => active (Count k) = true -> bucker k (sn_Time c) 0 = bucker k (sn_Time b) 1) (buckets p)
  /\ Forall (fun k => Zero (w_Within k) = false -> w_bucker k (sn_Time c) 0 = w_bucker k (sn_Time b) 1) (bucketsWithin p).

Lemma buckets_fresh p : Forall (fun k => b_Last k = -1) (buckets p) /\ Forall (fun k => w_Last k = -1) (bucketsWithin p).
Proof. split; repeat constructor. Qed.

Lemma no_reasons p latest b c len : 2 < len -> displaces p b c ->
  omap (tag_reason b) (Tags p) ++ within_reason p latest b
  ++ omap snd (map (step_bucket b 1 len) (map fst (map (step_bucket c 0 len) (buckets p))))
  ++ omap snd (map (step_within latest b 1 len) (map fst (map (step_within latest c 0 len) (bucketsWithin p)))) = [].
Proof.
  intros Le (N & T & W & B & Bw). destruct (buckets_fresh p) as [F Fw].
  rewrite !omap_none; [|rewrite !map_map; apply Forall_fmap|rewrite !map_map; apply Forall_fmap|].
  - unfold within_reason. by rewrite W.
  - apply Forall_forall. intros k K. rewrite Forall_forall in Bw, Fw. apply within_displaced; auto.
  - apply Forall_forall. intros k K. rewrite Forall_forall in B, F. apply bucket_displaced; auto.
  - apply Forall_forall. intros tags K. unfold tag_reason. destruct (HasTags b tags) eqn:H; [|done].
    exfalso. apply not_true_iff_false in T. apply T, existsb_exists. exists tags. split; [by apply list_elem_of_In|done].
Qed.

Lemma period_numbers p t : Year t <> -1 -> Forall (fun k => bucker k t 0 <> -1) (buckets p).
Proof.
  intros Y. unfold buckets. rewrite !Forall_cons. cbn [bucket bucker]. split; [done|].
  repeat split; [exact (proj2 grows_ymdh t 0 Y)|exact (proj2 grows_ymd t 0 Y)|exact (proj2 grows_yw t 0 Y)|exact (proj2 grows_ym t 0 Y)
    |exact (proj2 grows_y t 0 Y)|exact (proj2 grows_ymdhm t 0 Y)|exact (proj2 grows_yq t 0 Y)|exact (proj2 grows_yh t 0 Y)|constructor].
Qed.

(** The reasons of the code are the names of the options. *)
Lemma bucket_option p k : k ∈ buckets p -> exists name, (Count k, name) ∈ count_options p /\ reason k = str name.
Proof.
  unfold buckets, count_options. rewrite !elem_of_cons, elem_of_nil.
  intros [->|[->|[->|[->|[->|[->|[->|[->|[->|[]]]]]]]]]]; eexists; (split; [|reflexivity]); cbn [bucket Count]; repeat first [apply list_elem_of_here | apply list_elem_of_further].
Qed.

Lemma has_prefix_refl l : has_prefix l l = true.
Proof. apply has_prefix_spec. exists []. by rewrite app_nil_r. Qed.

Lemma horizon_indefinite p r b k : kr_Snapshot r = Some b -> k ∈ buckets p -> Count k = -1 -> reason k ∈ Matches r ->
  PolicyRetentionHorizon r p = (indefinitely, true).
Proof.
  intros S K C M. unfold PolicyRetentionHorizon. rewrite S. destruct (existsb (HasTags b) (Tags p)); [done|].
  destruct (bucket_option p k K) as (name & O & E). assert (X : existsb (fun o : Z * string => (fst o =? -1) && matches r (snd o)) (count_options p) = true); [|by rewrite X].
  apply existsb_exists. exists (Count k, name). split; [by apply list_elem_of_In|]. cbn [fst snd]. rewrite C, Z.eqb_refl. cbn [andb].
  unfold matches. apply existsb_exists. exists (reason k). split; [by apply list_elem_of_In|]. by rewrite E, has_prefix_refl.
Qed.

(** C38. The horizon is no guarantee. Whatever the snapshots and the policy: the newest
    snapshot, when it is not the only one, is said to be kept indefinitely if all snapshots of
    some period are kept, say all daily ones. But when a newer snapshot is taken that lies in
    the same period for every option that is on (which [Last] and [Within] are not), the same
    policy removes the first one, if it has none of the tags. *)
Theorem PolicyRetentionHorizon_displaced now l p b c rest k :
  sort_Stable l = b :: rest -> rest <> [] -> Year (sn_Time b) <> -1 ->
  k ∈ buckets p -> Count k = -1 -> displaces p b c ->
  (exists keep remove r reasons, ApplyPolicy now l p = Ok (keep, remove, r :: reasons) /\ kr_Snapshot r = Some b
     /\ PolicyRetentionHorizon r p = (indefinitely, true))
  /\ (exists keep remove reasons, ApplyPolicy now (c :: l) p = Ok (keep, remove, reasons) /\ b ∈ remove).
Proof.
  intros S Ne Y K C D. split.
  - unfold ApplyPolicy. rewrite S. unfold findLatestTimestamp. cbn [zlen length]. rewrite (proj2 (Z.eqb_neq _ _)) by (unfold zlen; cbn; lia).
    cbn [guard rbind apply_loop]. set (len := zlen (b :: rest)). set (latest := foldl _ zero_time _).
    destruct (apply_loop _ _ _ _ _ _ rest) as [[keep remove] reasons].
    set (rs := omap (tag_reason b) (Tags p) ++ _). assert (M : reason k ∈ rs).
    { unfold rs. rewrite !elem_of_app. right. right. left. apply list_elem_of_omap. exists (step_bucket b 0 len k).
      split; [by apply list_elem_of_fmap_2|]. unfold step_bucket. rewrite C. cbn [orb Z.ltb Z.eqb Z.compare].
      destruct (buckets_fresh p) as [F _]. pose proof (period_numbers p _ Y) as V. rewrite Forall_forall in F, V.
      rewrite (F k K), (proj2 (Z.eqb_neq _ _) (V k K)). done. }
    destruct rs as [|r0 rs'] eqn:R; [by inversion M|]. do 4 eexists. split; [reflexivity|]. split; [done|].
    by apply (horizon_indefinite p _ b k).
  - assert (S' : sort_Stable (c :: l) = c :: b :: rest).
    { change (sort_Stable (c :: l)) with (insert_newest c (sort_Stable l)). rewrite S. cbn [insert_newest].
      destruct D as (N & _). unfold After in *. apply Z.ltb_lt in N. by rewrite (proj2 (Z.ltb_ge _ _)) by lia. }
    unfold ApplyPolicy. rewrite S'. unfold findLatestTimestamp. rewrite (proj2 (Z.eqb_neq _ _)) by (unfold zlen; cbn; lia).
    cbn [guard rbind apply_loop]. set (len := zlen (c :: b :: rest)). set (latest := foldl _ zero_time _). change (0 + 1) with 1.
    rewrite (no_reasons p latest b c len); [|unfold len, zlen; destruct rest; cbn; [done|lia]|done].
    destruct (apply_loop _ _ _ _ _ _ rest) as [[keep remove] reasons]. destruct (omap _ _ ++ _); do 3 eexists; (split; [reflexivity|]); [by right; left | by left].
Qed.

Lemma PolicyRetentionHorizon_displaced_witness :
  let now := sn_Time (at_hour 48 "now") in
  let a := at_hour 12 "a" in let b := at_hour 36 "b" in let c := at_hour 37 "c" in let p := only_daily (-1) no_duration in
  (exists keep remove r reasons, ApplyPolicy now [a; b] p = Ok (keep, remove, r :: reasons) /\ kr_Snapshot r = Some b
     /\ PolicyRetentionHorizon r p = (indefinitely, true))
  /\ (exists keep remove reasons, ApplyPolicy now [c; a; b] p = Ok (keep, remove, reasons) /\ b ∈ remove).
Proof.
  cbv zeta.
  apply (PolicyRetentionHorizon_displaced (sn_Time (at_hour 48 "now")) [at_hour 12 "a"; at_hour 36 "b"] (only_daily (-1) no_duration)
    (at_hour 36 "b") (at_hour 37 "c") [at_hour 12 "a"] (bucket (-1) ymd "daily snapshot")).
  - reflexivity.
  - discriminate.
  - vm_compute. discriminate.
  - do 2 right. left.
  - reflexivity.
  - split; [reflexivity|]. split; [reflexivity|]. split; [reflexivity|]. split; repeat constructor; vm_compute; congruence.
Defined.

End PolicyProps.
