(* ===== verification/Glob.v ===== *)
(** * Patterns of path components ([filepath.Match])

    What the filters need of [filepath.Match] is an interface with one law; the matcher that
    the documentation of the package describes, for Unix and UTF-8, is an instance of it. *)
From stdpp Require Import base list numbers strings.
From Stdlib Require Import ZArith Lia.
From S2P Require Import Prelude.

(** [filepath.Match(pattern, name)] *)
Class PathMatch := Match_ : bytes -> bytes -> result bool.

Definition separator : byte := x2f.

Definition no_separator (name : bytes) : bool := negb (existsb (Byte.eqb separator) name).

(** [*] matches any sequence of characters that are no separators. *)
Class PathMatchLaws (M : PathMatch) :=
  Match_star : forall name, Match_ (str "*") name = Ok (no_separator name).

Module Glob.

(** ** [utf8.DecodeRuneInString] *)

Definition RuneError : Z := 0xFFFD.
Definition cont (b : byte) : bool := (0x80 <=? b2z b) && (b2z b <=? 0xBF).
Definition low6 (b : byte) : Z := b2z b - 0x80.

(** The first character and what follows it; a byte that begins no character is one on its
    own. *)
Definition decode_rune (s : bytes) : option (Z * bytes) :=
  match s with
  | [] => None
  | b0 :: s0 =>
      let x := b2z b0 in
      let bad := Some (RuneError, s0) in
      if x <? 0x80 then Some (x, s0)
      else match s0 with
      | b1 :: s1 =>
          if negb (cont b1) then bad
          else if (0xC2 <=? x) && (x <? 0xE0) then Some ((x - 0xC0) * 64 + low6 b1, s1)
          else match s1 with
          | b2 :: s2 =>
              if negb (cont b2) then bad
              else
                let r := ((x - 0xE0) * 64 + low6 b1) * 64 + low6 b2 in
                if (0xE0 <=? x) && (x <? 0xF0) then
                  if (0x800 <=? r) && negb ((0xD800 <=? r) && (r <=? 0xDFFF)) then Some (r, s2) else bad
                else match s2 with
                | b3 :: s3 =>
                    let r := (((x - 0xF0) * 64 + low6 b1) * 64 + low6 b2) * 64 + low6 b3 in
                    if cont b3 && (0xF0 <=? x) && (0x10000 <=? r) && (r <=? 0x10FFFF) then Some (r, s3) else bad
                | [] => bad
                end
          | [] => bad
          end
      | [] => bad
      end
  end.

(** ** Patterns *)

Inductive token := Star | Any | Lit (b : byte) | Class_ (negated : bool) (ranges : list (Z * Z)).

(** One end of a range, which is not a bare hyphen or bracket nor a broken character, and
    is not at the end of the pattern. *)
Definition getEsc (p : bytes) : option (Z * bytes) :=
  let p' := match p with
            | [] => None
            | b :: t => if Byte.eqb b x2d || Byte.eqb b x5d then None
                        else if Byte.eqb b x5c then Some t else Some p
            end in
  match p' ≫= decode_rune with
  | Some (r, t) =>
      if (r =? RuneError) && (zlen (default [] p') =? zlen t + 1) then None
      else match t with [] => None | _ => Some (r, t) end
  | None => None
  end.

Fixpoint ranges (fuel : nat) (some : bool) (p : bytes) : option (list (Z * Z) * bytes) :=
  match fuel with
  | O => None
  | S fuel =>
      match p with
      | b :: t =>
          if Byte.eqb b x5d && some then Some ([], t)
          else
            match getEsc p with
            | None => None
            | Some (lo, p) =>
                let hi := match p with
                          | b :: t => if Byte.eqb b x2d then getEsc t else Some (lo, p)
                          | [] => None
                          end in
                match hi with
                | None => None
                | Some (hi, p) =>
                    match ranges fuel true p with
                    | None => None
                    | Some (rs, p) => Some ((lo, hi) :: rs, p)
                    end
                end
            end
      | [] => None
      end
  end.

(** The terms of a pattern; [None] when it is malformed. *)
Fixpoint parse (fuel : nat) (p : bytes) : option (list token) :=
  match fuel, p with
  | _, [] => Some []
  | O, _ => None
  | S fuel, b :: t =>
      if Byte.eqb b x2a then cons Star <$> parse fuel t
      else if Byte.eqb b x3f then cons Any <$> parse fuel t
      else if Byte.eqb b x5b then
        let (negated, t) := match t with
                            | c :: t' => if Byte.eqb c x5e then (true, t') else (false, t)
                            | [] => (false, t)
                            end in
        match ranges (length t) false t with
        | None => None
        | Some (rs, t) => cons (Class_ negated rs) <$> parse fuel t
        end
      else if Byte.eqb b x5c then
        match t with
        | [] => None
        | c :: t => cons (Lit c) <$> parse fuel t
        end
      else cons (Lit b) <$> parse fuel t
  end.

Definition in_ranges (rs : list (Z * Z)) (r : Z) : bool :=
  existsb (fun '(lo, hi) => (lo <=? r) && (r <=? hi)) rs.

Fixpoint glob (ts : list token) (s : bytes) : bool :=
  match ts with
  | [] => match s with [] => true | _ => false end
  | Star :: ts =>
      (fix skip (s : bytes) : bool :=
         glob ts s || match s with
                      | b :: s => negb (Byte.eqb separator b) && skip s
                      | [] => false
                      end) s
  | Any :: ts =>
      match s, decode_rune s with
      | b :: _, Some (_, s) => negb (Byte.eqb separator b) && glob ts s
      | _, _ => false
      end
  | Lit c :: ts => match s with b :: s => Byte.eqb c b && glob ts s | [] => false end
  | Class_ negated rs :: ts =>
      match decode_rune s with
      | Some (r, s) => xorb negated (in_ranges rs r) && glob ts s
      | None => false
      end
  end.

#[export] Instance unix : PathMatch := fun pattern name =>
  match parse (length pattern) pattern with
  | Some ts => Ok (glob ts name)
  | None => Err "syntax error in pattern"
  end.

#[export] Instance unix_laws : PathMatchLaws unix.
Proof.
  intros name. unfold Match_, unix. change (parse (length (str "*")) (str "*")) with (Some [Star]).
  f_equal. unfold no_separator. induction name as [|b s IH]; [done|].
  cbn [glob existsb negb orb] in *. rewrite IH. by destruct (Byte.eqb separator b).
Qed.

(** Examples of the documentation. *)
Example glob_star : Match_ (str "*.go") (str "test.go") = Ok true.
Proof. reflexivity. Qed.
Example glob_class : Match_ (str "[^a-c]?[\-x]") (str "dx-") = Ok true.
Proof. vm_compute. reflexivity. Qed.
Example glob_malformed : is_ok (Match_ (str "a[") (str "ab")) = false.
Proof. reflexivity. Qed.

End Glob.
