(* ===== verification/Json.v ===== *)
(** * What [encoding/json] does to text

    Encoding a value and decoding it again gives the value back except for two things: a
    string comes back with every byte that is no UTF-8 replaced, and a [json.RawMessage] comes
    back compacted and escaped. The objects of the journal are read back up to that. *)
From stdpp Require Import base list numbers strings.
From Stdlib Require Import ZArith Lia.
From S2P Require Import Prelude Glob.

Module Json.

(** ** Strings *)

(** U+FFFD *)
Definition replacement : bytes := [xef; xbf; xbd].

Fixpoint text_loop (fuel : nat) (s : bytes) : bytes :=
  match fuel with
  | O => []
  | S fuel =>
      match Glob.decode_rune s with
      | None => []
      | Some (r, t) =>
          (if (r =? Glob.RuneError) && (zlen s =? zlen t + 1) then replacement else take (length s - length t) s)
          ++ text_loop fuel t
      end
  end.

(** A string after encoding and decoding. *)
Definition text (s : bytes) : bytes := text_loop (length s) s.

(** ** Raw messages *)

Inductive position := Outside | Inside | Escaped.

Definition is_blank (c : byte) : bool := Byte.eqb c x20 || Byte.eqb c x09 || Byte.eqb c x0a || Byte.eqb c x0d.

Definition after (p : position) (c : byte) : position :=
  match p with
  | Outside => if Byte.eqb c x22 then Inside else Outside
  | Inside => if Byte.eqb c x5c then Escaped else if Byte.eqb c x22 then Outside else Inside
  | Escaped => Inside
  end.

(** [appendCompact] with [escape], on valid JSON *)
Fixpoint compact (p : position) (s : bytes) : bytes :=
  match s with
  | [] => []
  | c :: t =>
      if Byte.eqb c x3c then str "\u003c" ++ compact (after p c) t
      else if Byte.eqb c x3e then str "\u003e" ++ compact (after p c) t
      else if Byte.eqb c x26 then str "\u0026" ++ compact (after p c) t
      else
        let plain := match p with
                     | Outside => if is_blank c then compact p t else c :: compact (after p c) t
                     | _ => c :: compact (after p c) t
                     end in
        match t with
        | d :: e :: u =>
            if Byte.eqb c xe2 && Byte.eqb d x80 && Byte.eqb e xa8 then str "\u2028" ++ compact (after p c) u
            else if Byte.eqb c xe2 && Byte.eqb d x80 && Byte.eqb e xa9 then str "\u2029" ++ compact (after p c) u
            else plain
        | _ => plain
        end
  end.

(** A [json.RawMessage] after encoding and decoding; [nil] becomes [null]. *)
Definition raw (s : bytes) : bytes := match s with [] => str "null" | _ => compact Outside s end.

End Json.

Module JsonTheory.
Import Json.

Definition ascii (b : byte) : Prop := b2z b < 0x80.

Lemma decode_ascii b s : ascii b -> Glob.decode_rune (b :: s) = Some (b2z b, s).
Proof. intros A. cbn [Glob.decode_rune]. by rewrite (proj2 (Z.ltb_lt _ _) A). Qed.

Lemma text_loop_ascii fuel s : Forall ascii s -> (length s <= fuel)%nat -> text_loop fuel s = s.
Proof.
  intros A. revert fuel. induction A as [|b s A _ IH]; intros [|fuel] L; cbn [length] in L; try done; [lia|].
  cbn [text_loop]. rewrite decode_ascii by done. rewrite (proj2 (Z.eqb_neq _ _)) by (unfold ascii, Glob.RuneError in *; lia).
  cbn [andb length]. replace (S (length s) - length s)%nat with 1%nat by lia. cbn [take app]. f_equal. apply IH. lia.
Qed.

(** Plain text is not changed. *)
Lemma text_ascii s : Forall ascii s -> text s = s.
Proof. intros A. by apply text_loop_ascii. Qed.

Lemma decode_rest s r t : Glob.decode_rune s = Some (r, t) -> exists b u, s = b :: u ++ t /\ (ascii b -> u = []).
Proof.
  unfold Glob.decode_rune, ascii. intros E. repeat case_match; simplify_eq.
  all: try (eexists _, []; done).
  all: first [eexists _, [_]; split; [done|] | eexists _, [_; _]; split; [done|] | eexists _, [_; _; _]; split; [done|]].
  all: intros A; apply Z.ltb_lt in A; congruence.
Qed.

(** What comes back as plain text was given as it is. *)
Lemma text_loop_plain fuel s : (length s <= fuel)%nat -> Forall ascii (text_loop fuel s) -> text_loop fuel s = s.
Proof.
  revert s. induction fuel as [|fuel IH]; intros s L A; [by destruct s; cbn in *; [|lia]|]. cbn [text_loop] in *.
  destruct (Glob.decode_rune s) as [[r t]|] eqn:E; [|destruct s as [|b s]; [done|]].
  2:{ exfalso. clear - E. unfold Glob.decode_rune in E. repeat case_match; done. }
  destruct (decode_rest _ _ _ E) as (b & u & -> & P). destruct (_ && _).
  { exfalso. apply Forall_app in A as [A _]. inversion A as [|? ? B _]. by vm_compute in B. }
  apply Forall_app in A as [A1 A2]. cbn [length] in *. rewrite length_app in *.
  replace (S (length u + length t) - length t)%nat with (S (length u)) in * by lia. cbn [take] in *.
  rewrite take_app_length in *. rewrite IH by (done || lia). by rewrite <- app_comm_cons.
Qed.

Lemma text_plain s : Forall ascii (text s) -> text s = s.
Proof. by apply text_loop_plain. Qed.

End JsonTheory.
