(* ===== verification/Filter.v ===== *)
(** * Path patterns ([internal/filter/filter.go], [include.go], [exclude.go])

    A pattern is a list of path components, some of which are wildcards: [*] and the like
    within a component, and [**] for any number of components. The code expands [**] into
    rows of [*] and tries these at every position of the path. It is compared here with a
    direct definition of what a pattern means. The theorem that matters for walking a
    directory tree is that a directory is entered when anything below it is selected.

    [filepath.Match] is a parameter: the theorems hold for every matcher of components for
    which [*] stands for any text without a separator, as in [Glob]. *)
From stdpp Require Import base list numbers strings.
From Stdlib Require Import ZArith Lia.
From S2P Require Import Prelude Glob.

Module Filter.

(** ** Paths *)

(** [strings.Split(s, "/")] *)
Fixpoint Split (s : bytes) : list bytes :=
  match s with
  | [] => [[]]
  | b :: s =>
      if Byte.eqb separator b then [] :: Split s
      else match Split s with
           | part :: parts => (b :: part) :: parts
           | [] => [[b]]
           end
  end.

(** [filepath.Clean]: the components without empty ones and dots; [..] takes the one before
    it away, and is dropped at the root. [out] is in reverse order. *)
Fixpoint clean_parts (rooted : bool) (out parts : list bytes) : list bytes :=
  match parts with
  | [] => rev out
  | part :: parts =>
      if bytes_eqb part [] || bytes_eqb part (str ".") then clean_parts rooted out parts
      else if bytes_eqb part (str "..") then
        match out with
        | last :: out' =>
            if bytes_eqb last (str "..") then clean_parts rooted (part :: out) parts
            else clean_parts rooted out' parts
        | [] => clean_parts rooted (if rooted then [] else [part]) parts
        end
      else clean_parts rooted (part :: out) parts
  end.

Fixpoint join_slash (l : list bytes) : bytes :=
  match l with
  | [] => []
  | [s] => s
  | s :: l => s ++ separator :: join_slash l
  end.

Definition Clean (path : bytes) : bytes :=
  let rooted := has_prefix [separator] path in
  let out := (if rooted then [separator] else []) ++ join_slash (clean_parts rooted [] (Split path)) in
  if bytes_eqb out [] then str "." else out.

Definition root : bytes := [separator].

(** [splitPath]; [ToSlash] changes nothing on Unix. *)
Definition splitPath (p : bytes) : list bytes :=
  match Split p with
  | [] :: rest => root :: rest
  | parts => parts
  end.

Definition prepareStr (s : bytes) : result (list bytes) :=
  do! guard (bytes_eqb s []) "filter.Match: string is empty";
  Ok (splitPath s).

(** ** Patterns *)

(** The pattern of [**] is empty. *)
Record patternPart := { pattern : bytes; isSimple : bool }.
Record Pattern := { original : bytes; parts : list patternPart; isNegated : bool }.

Definition is_special (b : byte) : bool := existsb (Byte.eqb b) (str "\[]*?").

Definition preparePart (part : bytes) : patternPart :=
  {| pattern := if bytes_eqb part (str "**") then [] else part;
     isSimple := negb (existsb is_special part) |}.

Definition wild (p : patternPart) : bool := bytes_eqb (pattern p) [].

(** An empty pattern is an index out of range. *)
Definition preparePattern (patternStr : bytes) : result Pattern :=
  match patternStr with
  | [] => Err "panic: index out of range"
  | b :: tail =>
      let negate := Byte.eqb b x21 in
      let s := if negate then tail else patternStr in
      let parts := map preparePart (splitPath (Clean s)) in
      let parts := match parts with
                   | [p; q] => if wild p && negb (wild q) then [q] else parts
                   | _ => parts
                   end in
      Ok {| original := patternStr; parts := parts; isNegated := negate |}
  end.

Definition star : patternPart := {| pattern := str "*"; isSimple := false |}.

(** [hasDoubleWildcard] *)
Fixpoint hasDoubleWildcard (ps : list patternPart) : option nat :=
  match ps with
  | [] => None
  | p :: ps => if wild p then Some O else S <$> hasDoubleWildcard ps
  end.

(** ** Matching *)

Section Matching.
Context {M : PathMatch}.

Definition part_match (p : patternPart) (s : bytes) : result bool :=
  if isSimple p then Ok (bytes_eqb (pattern p) s)
  else match Match_ (pattern p) s with Ok b => Ok b | Err _ => Err "Match" end.

(** A loop that ends at the first match or error. *)
Fixpoint first_match (f : nat -> result bool) (todo : list nat) : result bool :=
  match todo with
  | [] => Ok false
  | i :: todo => let! matched := f i in if matched then Ok true else first_match f todo
  end.

(** All parts match, tried from the last to the first. *)
Fixpoint all_parts (l : list (patternPart * bytes)) : result bool :=
  match l with
  | [] => Ok true
  | (p, s) :: l => let! ok := part_match p s in if ok then all_parts l else Ok false
  end.

Definition at_offset (ps : list patternPart) (strs : list bytes) (offset : nat) : result bool :=
  all_parts (rev (zip ps (drop offset strs))).

(** The offsets from [maxOffset] down to [minOffset]. *)
Definition offsets (ps : list patternPart) (strs : list bytes) : list nat :=
  let absolute := match ps with p :: _ => bytes_eqb (pattern p) root | [] => false end in
  let maxOffset := if absolute then O else (length strs - length ps)%nat in
  let minOffset := match strs with
                   | s :: _ => if negb absolute && bytes_eqb s root then 1%nat else O
                   | [] => O
                   end in
  rev (seq minOffset (S maxOffset - minOffset)).

(** The end of [match], for patterns without [**]. *)
Definition match_flat (ps : list patternPart) (strs : list bytes) : result bool :=
  match ps, strs with
  | [], [] => Ok true
  | [], _ => Ok false
  | _, _ =>
      if (length ps <=? length strs)%nat then first_match (at_offset ps strs) (offsets ps strs)
      else Ok false
  end.

(** The pattern with the [**] at [pos] replaced by [i] times [*]. The slice it is built in
    holds all of [strs], so that [append] never reallocates, and the stars written before
    stay in place. *)
Definition expanded (ps : list patternPart) (pos i : nat) : list patternPart :=
  take pos ps ++ repeat star i ++ drop (S pos) ps.

(** [**/x/**] is [x] for paths of two components and more. *)
Definition simplified (ps : list patternPart) (strs : list bytes) : list patternPart :=
  match ps with
  | [p; q; r] => if (2 <=? length strs)%nat && wild p && wild r && negb (wild q) then [q] else ps
  | _ => ps
  end.

(** [match]; each round takes one [**] away. *)
Fixpoint match_fuel (fuel : nat) (ps : list patternPart) (strs : list bytes) : result bool :=
  let ps := simplified ps strs in
  match hasDoubleWildcard ps with
  | None => match_flat ps strs
  | Some pos =>
      match fuel with
      | O => Err "fuel"
      | S fuel =>
          first_match (fun i => match_fuel fuel (expanded ps pos i) strs)
            (seq 0 (length strs + 2 - length ps))
      end
  end.

Definition wilds (ps : list patternPart) : nat := length (List.filter wild ps).

Definition match_ (pat : Pattern) (strs : list bytes) : result bool :=
  match_fuel (wilds (parts pat)) (parts pat) strs.

Definition childMatch (pat : Pattern) (strs : list bytes) : result bool :=
  match parts pat with
  | [] => Err "panic: index out of range"
  | p :: _ =>
      if negb (bytes_eqb (pattern p) root) then Ok true
      else
        let strs := match hasDoubleWildcard (parts pat) with
                    | Some pos => if (pos <=? length strs)%nat then take pos strs else strs
                    | None => strs
                    end in
        let l := Nat.min (length strs) (length (parts pat)) in
        match_ {| original := original pat; parts := take l (parts pat); isNegated := isNegated pat |} strs
  end.

Definition Match (patternStr s : bytes) : result bool :=
  if bytes_eqb patternStr [] then Ok true
  else
    let! pat := preparePattern patternStr in
    let! strs := prepareStr s in
    match_ pat strs.

Definition ChildMatch (patternStr s : bytes) : result bool :=
  if bytes_eqb patternStr [] then Ok true
  else
    let! pat := preparePattern patternStr in
    let! strs := prepareStr s in
    childMatch pat strs.

(** ** Lists of patterns *)

Fixpoint ParsePatterns (ps : list bytes) : result (list Pattern) :=
  match ps with
  | [] => Ok []
  | pat :: ps =>
      if bytes_eqb pat [] then ParsePatterns ps
      else
        let! p := preparePattern pat in
        let! rest := ParsePatterns ps in
        Ok (p :: rest)
  end.

(** The patterns one of whose parts is refused. *)
Definition invalid (pat : Pattern) : bool :=
  existsb (fun p => negb (is_ok (Match_ (pattern p) (pattern p)))) (parts pat).

Definition ValidatePatterns (ps : list bytes) : result unit :=
  let! pats := ParsePatterns ps in
  guard (negb (Nat.eqb (length (List.filter invalid pats)) 0)) "invalid pattern(s) provided".

(** The loop of [list]. *)
Fixpoint list_loop (checkChildMatches hasNegatedPattern : bool) (strs : list bytes)
    (pats : list Pattern) (matched childMayMatch : bool) : result (bool * bool) :=
  match pats with
  | [] => Ok (matched, childMayMatch)
  | pat :: pats =>
      let! m := match_ pat strs in
      let! c := (if checkChildMatches then childMatch pat strs else Ok true) in
      if isNegated pat then
        list_loop checkChildMatches hasNegatedPattern strs pats (matched && negb m) (childMayMatch && negb m)
      else
        let matched := matched || m in
        let childMayMatch := childMayMatch || c in
        if matched && childMayMatch && negb hasNegatedPattern then Ok (matched, childMayMatch)
        else list_loop checkChildMatches hasNegatedPattern strs pats matched childMayMatch
  end.

Definition list_ (pats : list Pattern) (checkChildMatches : bool) (s : bytes) : result (bool * bool) :=
  if Nat.eqb (length pats) 0 then Ok (false, false)
  else
    let! strs := prepareStr s in
    list_loop checkChildMatches (existsb isNegated pats) strs pats false false.

Definition List_ (pats : list Pattern) (s : bytes) : result bool :=
  let! (matched, _) := list_ pats false s in Ok matched.

Definition ListWithChild (pats : list Pattern) (s : bytes) : result (bool * bool) := list_ pats true s.

(** An error is a warning, and nothing matches. *)
Definition IncludeByPattern (pats : list Pattern) (item : bytes) : bool * bool :=
  match ListWithChild pats item with Ok r => r | Err _ => (false, false) end.

Definition RejectByPattern (pats : list Pattern) (item : bytes) : bool :=
  match List_ pats item with Ok matched => matched | Err _ => false end.

End Matching.

End Filter.

(** ** What a pattern means *)

Module FilterSpec.
Import Filter.

Section Meaning.
Context {M : PathMatch}.

Definition part_ok (p : patternPart) (s : bytes) : bool :=
  match part_match p s with Ok b => b | Err _ => false end.

(** A pattern stands for exactly the components [seg]; [**] for any number of them. *)
Inductive means : list patternPart -> list bytes -> Prop :=
| means_nil : means [] []
| means_part p s ps seg : wild p = false -> part_ok p s = true -> means ps seg -> means (p :: ps) (s :: seg)
| means_wild p mid ps seg : wild p = true -> Forall (fun s => no_separator s = true) mid -> means ps seg ->
    means (p :: ps) (mid ++ seg).

Definition absolute (ps : list patternPart) : bool :=
  match ps with p :: _ => bytes_eqb (pattern p) root | [] => false end.

(** A pattern with a root stands at the root; one without anywhere but at the root. *)
Definition anchored (ps : list patternPart) (strs pre : list bytes) : Prop :=
  if absolute ps then pre = [] else head strs = Some root -> pre <> [].

(** Some components of the path are what the pattern stands for. *)
Definition selects (ps : list patternPart) (strs : list bytes) : Prop :=
  exists pre seg post, strs = pre ++ seg ++ post /\ seg <> [] /\ means ps seg /\ anchored ps strs pre.

(** No part is malformed. *)
Definition valid (ps : list patternPart) : Prop :=
  forall p s, p ∈ ps -> wild p = false -> is_ok (part_match p s) = true.

(** Only the first component can be the root. *)
Definition one_root (ps : list patternPart) : Prop :=
  Forall (fun p => bytes_eqb (pattern p) root = false) (tail ps).

End Meaning.
End FilterSpec.

(** ** Theory *)

Module FilterTheory.
Import Filter FilterSpec.

Section Theory.
Context {M : PathMatch} {L : PathMatchLaws M}.

(** *** The results as booleans *)

Definition flat_bool (ps : list patternPart) (strs : list bytes) : bool :=
  match ps, strs with
  | [], [] => true
  | [], _ => false
  | _, _ => (length ps <=? length strs)%nat
            && existsb (fun o => forallb (fun x => part_ok (fst x) (snd x)) (zip ps (drop o strs))) (offsets ps strs)
  end.

Fixpoint match_bool (fuel : nat) (ps : list patternPart) (strs : list bytes) : bool :=
  let ps := simplified ps strs in
  match hasDoubleWildcard ps with
  | None => flat_bool ps strs
  | Some pos =>
      match fuel with
      | O => false
      | S fuel => existsb (fun i => match_bool fuel (expanded ps pos i) strs) (seq 0 (length strs + 2 - length ps))
      end
  end.

Lemma first_match_ok f b l : (forall i, f i = Ok (b i)) -> first_match f l = Ok (existsb b l).
Proof.
  intros E. induction l as [|i l IH]; cbn [first_match existsb]; [done|].
  rewrite E. cbn [rbind]. destruct (b i); [done|]. exact IH.
Qed.

Definition valid_pair (x : patternPart * bytes) : Prop := is_ok (part_match (fst x) (snd x)) = true.

Lemma all_parts_ok l : Forall valid_pair l -> all_parts l = Ok (forallb (fun x => part_ok (fst x) (snd x)) l).
Proof.
  induction 1 as [|[p s] l V F IH]; cbn [all_parts forallb fst snd]; [done|].
  unfold valid_pair, part_ok in *. cbn [fst snd] in *. destruct (part_match p s) as [b|]; [|done].
  cbn [rbind]. destruct b; [exact IH|done].
Qed.

Lemma forallb_rev {A} (f : A -> bool) l : forallb f (rev l) = forallb f l.
Proof.
  induction l as [|x l IH]; [done|]. cbn [rev forallb]. rewrite forallb_app, IH. cbn [forallb].
  rewrite andb_true_r. apply andb_comm.
Qed.

Lemma at_offset_ok ps strs o : Forall (fun p => wild p = false) ps -> valid ps ->
  at_offset ps strs o = Ok (forallb (fun x => part_ok (fst x) (snd x)) (zip ps (drop o strs))).
Proof.
  intros W V. unfold at_offset. rewrite all_parts_ok, forallb_rev; [done|].
  apply Forall_rev, Forall_forall. intros [p s] X%elem_of_zip_l. unfold valid_pair. cbn [fst snd].
  apply V; [done|]. rewrite Forall_forall in W. by apply W.
Qed.

Lemma no_wild ps : hasDoubleWildcard ps = None <-> Forall (fun p => wild p = false) ps.
Proof.
  induction ps as [|p ps IH]; cbn; [split; [constructor | done]|].
  rewrite Forall_cons, <- IH. destruct (wild p); [split; [done | by intros [? _]]|].
  destruct (hasDoubleWildcard ps); cbn; split; try done; by intros [_ ?].
Qed.

Lemma first_wild ps pos : hasDoubleWildcard ps = Some pos -> exists a p b,
  ps = a ++ p :: b /\ length a = pos /\ wild p = true /\ Forall (fun p => wild p = false) a.
Proof.
  revert pos. induction ps as [|p ps IH]; intros pos E; [done|]. cbn in E. destruct (wild p) eqn:W.
  - injection E as <-. by exists [], p, ps.
  - destruct (hasDoubleWildcard ps) as [n|]; [|done]. injection E as <-.
    destruct (IH n eq_refl) as (a & q & b & -> & Le & Q & F). exists (p :: a), q, b. cbn.
    split_and!; [done | by rewrite Le | done | by constructor].
Qed.

Lemma expanded_eq a p b i : expanded (a ++ p :: b) (length a) i = a ++ repeat star i ++ b.
Proof.
  unfold expanded. rewrite take_app_length. f_equal. f_equal.
  rewrite (drop_app_ge _ _ (S (length a))) by lia. replace (S (length a) - length a)%nat with 1%nat by lia. done.
Qed.

Lemma star_valid s : is_ok (part_match star s) = true.
Proof. unfold part_match, star. cbn [isSimple pattern]. by rewrite Match_star. Qed.

Lemma star_ok s : part_ok star s = no_separator s.
Proof. unfold part_ok, part_match, star. cbn [isSimple pattern]. by rewrite Match_star. Qed.

Lemma repeat_elem {A} (x : A) n y : y ∈ repeat x n -> y = x.
Proof. intros E%list_elem_of_In. by apply repeat_spec in E. Qed.

Lemma expanded_valid a p b i : valid (a ++ p :: b) -> valid (a ++ repeat star i ++ b).
Proof.
  intros V q s [Q|[Q|Q]%elem_of_app]%elem_of_app W.
  - apply V; [apply elem_of_app; by left | done].
  - apply repeat_elem in Q as ->. apply star_valid.
  - apply V; [apply elem_of_app; right; by right | done].
Qed.

Lemma simplified_cases ps strs : simplified ps strs = ps \/
  exists p q r, ps = [p; q; r] /\ wild p = true /\ wild r = true /\ wild q = false
    /\ (2 <= length strs)%nat /\ simplified ps strs = [q].
Proof.
  unfold simplified. destruct ps as [|p [|q [|r [|x ps]]]]; try (by left).
  destruct (2 <=? length strs)%nat eqn:Le; [|by left]. destruct (wild p) eqn:P; [|by left].
  destruct (wild r) eqn:R; [|by left]. destruct (wild q) eqn:Q; [by left|]. right.
  exists p, q, r. apply Nat.leb_le in Le. done.
Qed.

Lemma simplified_valid ps strs : valid ps -> valid (simplified ps strs).
Proof.
  intros V. destruct (simplified_cases ps strs) as [->|(p & q & r & E & _ & _ & _ & _ & ->)]; [done|].
  intros x s ->%list_elem_of_singleton. apply V. rewrite E. right. by left.
Qed.

Lemma wilds_app a b : wilds (a ++ b) = (wilds a + wilds b)%nat.
Proof. unfold wilds. by rewrite List.filter_app, length_app. Qed.

Lemma wilds_stars i : wilds (repeat star i) = 0%nat.
Proof. induction i as [|i IH]; [done|]. exact IH. Qed.

Lemma wilds_simplified ps strs : (wilds (simplified ps strs) <= wilds ps)%nat.
Proof.
  destruct (simplified_cases ps strs) as [->|(p & q & r & -> & P & R & Q & _ & ->)]; [done|].
  unfold wilds. cbn. rewrite P, Q, R. cbn. lia.
Qed.

Lemma wilds_expanded a p b i fuel : wild p = true ->
  (wilds (a ++ p :: b) <= S fuel)%nat -> (wilds (a ++ repeat star i ++ b) <= fuel)%nat.
Proof.
  intros P. rewrite !wilds_app, wilds_stars. change (p :: b) with ([p] ++ b). rewrite wilds_app.
  unfold wilds at 2. cbn. rewrite P. cbn. lia.
Qed.

(** Matching ends with a result: each [**] takes one unit of fuel. *)
Lemma match_fuel_ok fuel : forall ps strs, valid ps -> (wilds ps <= fuel)%nat ->
  match_fuel fuel ps strs = Ok (match_bool fuel ps strs).
Proof.
  induction fuel as [|fuel IH]; intros ps strs V W; cbn [match_fuel match_bool];
    pose proof (simplified_valid ps strs V) as V'; pose proof (wilds_simplified ps strs) as W';
    set (qs := simplified ps strs) in *; clearbody qs.
  all: destruct (hasDoubleWildcard qs) as [pos|] eqn:E.
  2,4: apply no_wild in E; unfold match_flat, flat_bool; destruct qs as [|p qs]; [by destruct strs|];
    destruct (length (p :: qs) <=? length strs)%nat; [|by destruct strs];
    rewrite (first_match_ok _ _ _ (fun o => at_offset_ok (p :: qs) strs o E V')); by destruct strs.
  all: apply first_wild in E as (a & p & b & -> & <- & P & _).
  - exfalso. rewrite wilds_app in W'. change (p :: b) with ([p] ++ b) in W'. rewrite wilds_app in W'.
    unfold wilds at 2 in W'. cbn in W'. rewrite P in W'. cbn in W'. lia.
  - apply first_match_ok. intros i. rewrite expanded_eq. apply IH; [by apply (expanded_valid _ p)|].
    apply (wilds_expanded a p b); [done|lia].
Qed.

(** *** Patterns without [**] *)

Lemma zip_forallb ps seg post : length ps = length seg ->
  forallb (fun x => part_ok (fst x) (snd x)) (zip ps (seg ++ post)) = true
  <-> Forall2 (fun p s => part_ok p s = true) ps seg.
Proof.
  revert seg. induction ps as [|p ps IH]; intros [|s seg] E; try done; cbn [zip app].
  cbn [forallb zip_with app fst snd]. rewrite andb_true_iff, (IH seg) by (by injection E).
  split; [intros [? ?]; by constructor | intros F; by inversion F].
Qed.

Lemma offsets_elem ps strs o : ps <> [] -> (length ps <= length strs)%nat ->
  In o (offsets ps strs) <-> (o <= length strs - length ps)%nat /\ anchored ps strs (take o strs).
Proof.
  intros N Le. unfold offsets. rewrite <- in_rev, in_seq. fold (absolute ps).
  destruct strs as [|s strs]; [destruct ps; [done|cbn in Le; lia]|]. unfold anchored.
  change (head (s :: strs)) with (Some s). destruct (absolute ps); cbn [negb andb].
  - split; [intros B; assert (o = 0%nat) as -> by lia; split; [lia|done]|].
    intros [_ T]. destruct o as [|o]; [lia|]. discriminate T.
  - destruct (bytes_eqb s root) eqn:R.
    + apply bytes_eqb_eq in R as ->. split.
      * intros B. split; [lia|]. intros _. destruct o; [lia|done].
      * intros [B T]. destruct o; [by destruct (T eq_refl) | lia].
    + apply bytes_eqb_neq in R. split; [intros B; split; [lia | by intros [= ->]] | intros [B _]; lia].
Qed.

Lemma flat_bool_spec ps strs : strs <> [] ->
  flat_bool ps strs = true <-> ps <> [] /\ exists pre seg post, strs = pre ++ seg ++ post
    /\ Forall2 (fun p s => part_ok p s = true) ps seg /\ anchored ps strs pre.
Proof.
  intros N. unfold flat_bool. destruct ps as [|p ps]; [destruct strs; [done|]; split; [done | by intros [? _]]|].
  destruct strs as [|s strs]; [done|]. set (qs := p :: ps). set (ss := s :: strs).
  rewrite andb_true_iff, Nat.leb_le, existsb_exists. split.
  - intros (Le & o & O & F). apply offsets_elem in O as [B A]; [|done|done]. split; [done|].
    exists (take o ss), (take (length qs) (drop o ss)), (drop (length qs) (drop o ss)).
    split; [by rewrite !take_drop|]. split; [|done].
    rewrite <- (take_drop (length qs) (drop o ss)) in F. apply zip_forallb in F; [done|].
    rewrite length_take, length_drop. lia.
  - intros (_ & pre & seg & post & E & F & A). pose proof (Forall2_length _ _ _ F) as Le.
    assert (Ls : length ss = (length pre + (length seg + length post))%nat) by (by rewrite E, !length_app).
    split; [lia|]. exists (length pre). split.
    + apply offsets_elem; [done|lia|]. split; [lia|]. rewrite E, take_app_length. by rewrite E in A.
    + rewrite E, drop_app_length. by apply zip_forallb.
Qed.

Lemma means_flat ps seg : Forall (fun p => wild p = false) ps ->
  means ps seg <-> Forall2 (fun p s => part_ok p s = true) ps seg.
Proof.
  intros W. split.
  - induction 1 as [|p s ps seg P O I IH|p mid ps seg P]; [constructor| |].
    + apply Forall_cons in W as [_ W]. constructor; auto.
    + apply Forall_cons in W as [W _]. congruence.
  - induction 1 as [|p s ps seg O F IH]; [constructor|]. apply Forall_cons in W as [P W].
    constructor; auto.
Qed.

(** *** Soundness *)

Lemma means_app a b seg : means (a ++ b) seg -> exists s t, seg = s ++ t /\ means a s /\ means b t.
Proof.
  revert seg. induction a as [|p a IH]; intros seg I; [by exists [], seg; split; [|split; [constructor|]]|].
  cbn in I. inversion I as [|? x ? sg P O I' |? mid ? sg P F I']; subst;
    destruct (IH _ I') as (s & t & -> & A & B).
  - exists (x :: s), t. split; [done|]. split; [by constructor | done].
  - exists (mid ++ s), t. split; [by rewrite app_assoc|]. split; [by constructor | done].
Qed.

Lemma means_join a b s t : means a s -> means b t -> means (a ++ b) (s ++ t).
Proof.
  induction 1 as [|p x ps seg P O I IH|p mid ps seg P F I IH]; intros B; [done| |].
  - cbn. constructor; auto.
  - rewrite <- app_assoc. cbn. constructor; auto.
Qed.

Lemma means_stars i seg : means (repeat star i) seg ->
  Forall (fun s => no_separator s = true) seg /\ length seg = i.
Proof.
  revert seg. induction i as [|i IH]; intros seg I; cbn [repeat] in I.
  - inversion I; subst. split; [constructor|done].
  - inversion I as [|? x ? sg P O I'|? ? ? ? P]; subst; [|done]. rewrite star_ok in O.
    destruct (IH _ I') as [F Le]. split; [by constructor | cbn; by rewrite Le].
Qed.

Lemma stars_mean mid : Forall (fun s => no_separator s = true) mid -> means (repeat star (length mid)) mid.
Proof. induction 1 as [|s mid O F IH]; cbn; [constructor|]. constructor; [done | by rewrite star_ok | done]. Qed.

Lemma means_expanded a p b i seg : wild p = true ->
  means (a ++ repeat star i ++ b) seg -> means (a ++ p :: b) seg.
Proof.
  intros P (s & t & -> & A & (m & u & -> & S & B)%means_app)%means_app.
  apply means_join; [done|]. constructor; [done | by apply (means_stars i) | done].
Qed.

(** Replacing [**] does not make a pattern begin with the root. *)
Lemma absolute_expanded a p b i : one_root (a ++ p :: b) -> wild p = true ->
  absolute (a ++ repeat star i ++ b) = absolute (a ++ p :: b).
Proof.
  intros R P. destruct a as [|q a]; [|done]. cbn [app] in *. unfold one_root in R. cbn [tail] in R.
  assert (E : absolute (p :: b) = false).
  { cbn. unfold wild in P. apply bytes_eqb_eq in P. by rewrite P. }
  rewrite E. destruct i as [|i]; [|done]. destruct b as [|q b]; [done|]. apply Forall_cons in R as [R _]. exact R.
Qed.

Lemma one_root_expanded a p b i : one_root (a ++ p :: b) -> one_root (a ++ repeat star i ++ b).
Proof.
  assert (S : Forall (fun p => bytes_eqb (pattern p) root = false) (repeat star i)) by (induction i; by constructor).
  unfold one_root. intros R. destruct a as [|q a].
  - cbn [app tail] in *. destruct i as [|i]; [by destruct b as [|? ?]; [|apply Forall_cons in R as [_ ?]]|].
    cbn [repeat app tail] in *. apply Forall_cons in S as [_ S]. apply Forall_app. by split.
  - cbn [app tail] in *. apply Forall_app in R as [R1 R2]. apply Forall_cons in R2 as [_ R2].
    apply Forall_app. split; [done|]. apply Forall_app. by split.
Qed.

Lemma selects_expanded a p b i strs : one_root (a ++ p :: b) -> wild p = true ->
  selects (a ++ repeat star i ++ b) strs -> selects (a ++ p :: b) strs.
Proof.
  intros R P (pre & seg & post & E & N & I & A). exists pre, seg, post. split_and!; [done|done| |].
  - by apply (means_expanded a p b i).
  - unfold anchored in *. by rewrite <- (absolute_expanded a p b i R P).
Qed.

Lemma one_root_simplified ps strs : one_root ps -> one_root (simplified ps strs).
Proof. destruct (simplified_cases ps strs) as [->|(p & q & r & -> & _ & _ & _ & _ & ->)]; [done | constructor]. Qed.

Lemma selects_simplified ps strs : one_root ps -> selects (simplified ps strs) strs -> selects ps strs.
Proof.
  destruct (simplified_cases ps strs) as [->|(p & q & r & -> & P & Rw & Q & _ & ->)]; [done|].
  intros R. change [q] with ([] ++ repeat star 0 ++ [q]). intros S.
  apply (selects_expanded [] p [q; r] 0 strs R P). cbn [app repeat].
  change [q; r] with ([q] ++ r :: []). apply (selects_expanded [q] r [] 0); [constructor; [|constructor]|done|done].
  unfold wild in Rw. apply bytes_eqb_eq in Rw. by rewrite Rw.
Qed.

Lemma selects_flat ps strs : Forall (fun p => wild p = false) ps -> strs <> [] ->
  flat_bool ps strs = true -> selects ps strs.
Proof.
  intros W N (Ne & pre & seg & post & E & F & A)%flat_bool_spec; [|done].
  exists pre, seg, post. split_and!; [done| |by apply means_flat|done]. intros ->. by inversion F; subst.
Qed.

Lemma match_bool_sound fuel : forall ps strs, one_root ps -> strs <> [] ->
  match_bool fuel ps strs = true -> selects ps strs.
Proof.
  induction fuel as [|fuel IH]; intros ps strs R N E; cbn [match_bool] in E; apply selects_simplified; try done;
    pose proof (one_root_simplified ps strs R) as R'; set (qs := simplified ps strs) in *; clearbody qs;
    destruct (hasDoubleWildcard qs) as [pos|] eqn:W; try done;
    try (apply no_wild in W; by apply selects_flat).
  apply first_wild in W as (a & p & b & -> & <- & P & _). apply existsb_exists in E as (i & _ & E).
  rewrite expanded_eq in E. apply (selects_expanded a p b i); [done|done|].
  apply IH; [by apply (one_root_expanded a p b) | done | done].
Qed.

(** *** Completeness with one [**] *)

Lemma wilds_none ps : wilds ps = 0%nat <-> Forall (fun p => wild p = false) ps.
Proof.
  induction ps as [|p ps IH]; [split; [constructor|done]|]. change (p :: ps) with ([p] ++ ps).
  rewrite wilds_app, Forall_app, <- IH. unfold wilds at 1. cbn. rewrite Forall_singleton.
  destruct (wild p); cbn; split; try lia; intros [? ?]; done || lia.
Qed.

(** *** Too many [**] *)

(** A pattern stands for what it stands for when every [**] takes nothing. *)
Lemma means_without ps seg : means (List.filter (fun p => negb (wild p)) ps) seg -> means ps seg.
Proof.
  revert seg. induction ps as [|p ps IH]; intros seg I; cbn [List.filter] in I; [done|]. destruct (wild p) eqn:Wp; cbn [negb] in I.
  - apply (means_wild p []); [done|constructor|by apply IH].
  - inversion I as [|? s ? sg P O I'|? ? ? ? P]; subst; [|congruence]. constructor; [done|done|by apply IH].
Qed.

Lemma wilds_length ps : (length ps = wilds ps + length (List.filter (fun p => negb (wild p)) ps))%nat.
Proof. unfold wilds. induction ps as [|p ps IH]; [done|]. cbn [List.filter length]. destruct (wild p); cbn [negb length]; lia. Qed.

(** No [**] is expanded when the pattern is longer than the path by two parts. *)
Lemma match_fuel_short ps strs : (length strs + 2 <= length ps)%nat -> (2 <= wilds ps)%nat -> match_fuel (wilds ps) ps strs = Ok false.
Proof.
  intros Le W. destruct (wilds ps) as [|fuel] eqn:E; [lia|]. cbn [match_fuel].
  assert (S : simplified ps strs = ps).
  { unfold simplified. destruct ps as [|p [|q [|r [|]]]]; try done. cbn [length] in Le.
    rewrite (proj2 (Nat.leb_gt 2 (length strs))) by lia. done. }
  rewrite S. destruct (hasDoubleWildcard ps) as [pos|] eqn:H.
  - by replace (length strs + 2 - length ps)%nat with 0%nat by lia.
  - apply no_wild in H. apply wilds_none in H. lia.
Qed.

Lemma simplified_one ps strs : (wilds ps <= 1)%nat -> simplified ps strs = ps.
Proof.
  intros W. destruct (simplified_cases ps strs) as [E|(p & q & r & -> & P & R & Q & _ & _)]; [done|].
  unfold wilds in W. cbn in W. rewrite P, Q, R in W. cbn in W. lia.
Qed.

Lemma match_bool_flat fuel ps strs : Forall (fun p => wild p = false) ps -> strs <> [] ->
  selects ps strs -> match_bool fuel ps strs = true.
Proof.
  intros W N (pre & seg & post & E & Ns & I & A).
  assert (F : flat_bool ps strs = true).
  { apply flat_bool_spec; [done|]. apply means_flat in I; [|done].
    split; [intros ->; by inversion I; subst | by exists pre, seg, post]. }
  pose proof (proj2 (no_wild ps) W) as H. pose proof (proj2 (wilds_none ps) W) as Z0.
  destruct fuel; cbn [match_bool]; rewrite simplified_one, H by lia; done.
Qed.

Lemma match_bool_complete ps strs : one_root ps -> (wilds ps <= 1)%nat -> strs <> [] ->
  selects ps strs -> match_bool (wilds ps) ps strs = true.
Proof.
  intros R W N Sel. destruct (hasDoubleWildcard ps) as [pos|] eqn:H; [|apply no_wild in H; by apply match_bool_flat].
  assert (H' := H). apply first_wild in H' as (a & p & b & E & Le & P & Fa).
  assert (Wb : wilds ps = S (wilds b)).
  { rewrite E. change (p :: b) with ([p] ++ b). rewrite !wilds_app, (proj2 (wilds_none a) Fa).
    unfold wilds at 1. cbn. by rewrite P. }
  assert (Fb : Forall (fun p => wild p = false) b) by (apply wilds_none; lia).
  rewrite Wb. cbn [match_bool]. rewrite (simplified_one ps strs W), H. apply existsb_exists.
  destruct Sel as (pre & seg & post & Es & Ns & I & A). rewrite E in I.
  apply means_app in I as (s & t & -> & Ia & It). inversion It as [|? ? ? ? P'|? mid ? u _ Fm Ib]; subst; [congruence|].
  assert (La : length a = length s) by (eapply Forall2_length, (proj1 (means_flat a s Fa) Ia)).
  assert (Lb : length b = length u) by (eapply Forall2_length, (proj1 (means_flat b u Fb) Ib)).
  exists (length mid). split.
  - apply in_seq. rewrite !length_app. cbn [length]. lia.
  - rewrite expanded_eq. apply match_bool_flat; [|done|].
    + apply Forall_app. split; [done|]. apply Forall_app. split; [|done].
      apply Forall_forall. by intros x ->%repeat_elem.
    + exists pre, (s ++ mid ++ u), post. split_and!; [done|done| |].
      * apply means_join; [done|]. apply means_join; [by apply stars_mean | done].
      * unfold anchored in *. by rewrite (absolute_expanded a p b _ R P).
Qed.

(** *** Longer paths *)

Lemma anchored_longer ps strs more pre : strs <> [] -> anchored ps strs pre -> anchored ps (strs ++ more) pre.
Proof. intros N. unfold anchored. by destruct strs. Qed.

Lemma flat_bool_longer ps strs more : strs <> [] -> flat_bool ps strs = true -> flat_bool ps (strs ++ more) = true.
Proof.
  intros N (Ne & pre & seg & post & E & F & A)%flat_bool_spec; [|done].
  apply flat_bool_spec; [by destruct strs|]. split; [done|]. exists pre, seg, (post ++ more).
  split_and!; [by rewrite E, !app_assoc | done | by apply anchored_longer].
Qed.

Lemma simplified_longer ps strs more : strs <> [] ->
  simplified ps (strs ++ more) = simplified ps strs \/ forall fuel, match_bool fuel ps strs = false.
Proof.
  intros N. destruct (simplified_cases ps (strs ++ more)) as [E|(p & q & r & -> & P & R & Q & Le & E)].
  - left. rewrite E. destruct (simplified_cases ps strs) as [E'|(p & q & r & -> & P & R & Q & Le & E')]; [done|].
    exfalso. unfold simplified in E. rewrite P, R, Q in E. rewrite length_app in E.
    destruct (2 <=? length strs + length more)%nat eqn:B; [discriminate E | apply Nat.leb_gt in B; lia].
  - destruct (decide (2 <= length strs)%nat) as [B|B].
    + left. rewrite E. unfold simplified. by rewrite (proj2 (Nat.leb_le _ _) B), P, R, Q.
    + right. intros fuel. assert (length strs = 1%nat) by (destruct strs; [done | cbn in *; lia]).
      assert (S : simplified [p; q; r] strs = [p; q; r]).
      { unfold simplified. rewrite (proj2 (Nat.leb_gt _ _)) by lia. done. }
      assert (H1 : hasDoubleWildcard [p; q; r] = Some 0%nat) by (cbn; by rewrite P).
      destruct fuel; cbn [match_bool]; rewrite S, H1; [done|]. rewrite H. done.
Qed.

(** What matches a path matches everything below it. *)
Lemma match_bool_longer fuel : forall ps strs more, strs <> [] ->
  match_bool fuel ps strs = true -> match_bool fuel ps (strs ++ more) = true.
Proof.
  induction fuel as [|fuel IH]; intros ps strs more N E.
  all: destruct (simplified_longer ps strs more N) as [S|F]; [|rewrite F in E; done].
  all: cbn [match_bool] in *; rewrite S; destruct (hasDoubleWildcard (simplified ps strs)) as [pos|];
    try done; try by apply flat_bool_longer.
  apply existsb_exists in E as (i & I & E). apply existsb_exists. exists i. split.
  - apply in_seq. apply in_seq in I. rewrite length_app. lia.
  - by apply IH.
Qed.

(** *** Directories *)

Lemma means_take k : forall ps seg, means ps seg -> Forall (fun p => wild p = false) (take k ps) ->
  (k <= length ps)%nat ->
  exists s t, seg = s ++ t /\ length s = k /\ Forall2 (fun p s => part_ok p s = true) (take k ps) s.
Proof.
  induction k as [|k IH]; intros ps seg I W Le; [by exists [], seg|].
  destruct ps as [|p ps]; [cbn in Le; lia|]. cbn [take] in W. apply Forall_cons in W as [P W].
  inversion I as [|? x ? sg _ O I'|? ? ? ? P']; subst; [|congruence].
  destruct (IH ps sg I' W) as (s & t & -> & <- & F); [cbn in Le; lia|].
  exists (x :: s), t. split_and!; [done|done|]. by constructor.
Qed.

Lemma valid_take l ps : valid ps -> valid (take l ps).
Proof. intros V p s P. apply V. by apply elem_of_take in P as (i & P & _); apply list_elem_of_lookup_2 in P. Qed.

(** The parts that are compared with a directory come before the first [**]. *)
Definition cut (ps : list patternPart) (strs : list bytes) : list bytes :=
  match hasDoubleWildcard ps with
  | Some pos => if (pos <=? length strs)%nat then take pos strs else strs
  | None => strs
  end.

Lemma cut_flat ps strs : Forall (fun p => wild p = false) (take (length (cut ps strs)) ps).
Proof.
  unfold cut. destruct (hasDoubleWildcard ps) as [pos|] eqn:H; [|by apply Forall_take, no_wild].
  apply first_wild in H as (a & p & b & -> & <- & _ & F). rewrite take_app_le; [by apply Forall_take|].
  case_match; [rewrite length_take; lia|]. apply Nat.leb_gt in H. lia.
Qed.

Lemma cut_prefix ps strs : exists rest, strs = cut ps strs ++ rest.
Proof.
  unfold cut. destruct (hasDoubleWildcard ps) as [pos|]; [case_match|].
  - exists (drop pos strs). by rewrite take_drop.
  - exists []. by rewrite app_nil_r.
  - exists []. by rewrite app_nil_r.
Qed.

Lemma cut_nonempty ps strs : absolute ps = true -> strs <> [] -> cut ps strs <> [].
Proof.
  intros A N. unfold cut. destruct ps as [|p ps]; [done|]. cbn in A |- *. unfold wild.
  apply bytes_eqb_eq in A. rewrite A. change (bytes_eqb root []) with false. cbn iota.
  destruct (hasDoubleWildcard ps) as [pos|]; cbn; [|done]. case_match; [|done]. by destruct strs.
Qed.

Lemma take_append {A} (l : nat) (a b c d : list A) : (l <= length a)%nat -> length c = l -> a ++ b = c ++ d -> take l a = c.
Proof. intros Le <- E. rewrite <- (take_app_le a b) by done. by rewrite E, take_app_length. Qed.

(** A directory is entered when something below it matches. *)
Lemma childMatch_sound pat strs more : parts pat <> [] -> one_root (parts pat) -> valid (parts pat) -> strs <> [] ->
  match_ pat (strs ++ more) = Ok true -> childMatch pat strs = Ok true.
Proof.
  intros Ne R V N E. unfold childMatch. destruct (parts pat) as [|p ps] eqn:Ps; [done|]. rewrite <- Ps in *.
  change (bytes_eqb (pattern p) root) with (absolute (p :: ps)). rewrite <- Ps.
  destruct (absolute (parts pat)) eqn:A; cbn [negb]; [|done].
  unfold match_ in E. rewrite match_fuel_ok in E by done. injection E as E.
  apply match_bool_sound in E as (pre & seg & post & E & _ & I & An); [|done|by destruct strs].
  unfold anchored in An. rewrite A in An. subst pre. cbn [app] in E. fold (cut (parts pat) strs).
  set (l := Nat.min (length (cut (parts pat) strs)) (length (parts pat))).
  pose proof (cut_flat (parts pat) strs) as W. destruct (cut_prefix (parts pat) strs) as [rest Er].
  assert (Wl : Forall (fun p => wild p = false) (take l (parts pat))).
  { replace (take l (parts pat)) with (take l (take (length (cut (parts pat) strs)) (parts pat)));
      [by apply Forall_take | rewrite take_take; f_equal; lia]. }
  destruct (means_take l _ _ I Wl) as (s & t & -> & Ls & F); [lia|].
  assert (T : take l (cut (parts pat) strs) = s).
  { apply (take_append l _ (rest ++ more) s (t ++ post)); [lia|done|].
    rewrite app_assoc, <- Er, E. by rewrite app_assoc. }
  assert (Lp : (1 <= l)%nat).
  { pose proof (cut_nonempty _ _ A N) as C. assert (1 <= length (parts pat))%nat by (rewrite Ps; cbn; lia).
    unfold l. destruct (cut (parts pat) strs); [done|]. cbn [length]. lia. }
  unfold match_. cbn [parts]. rewrite match_fuel_ok; [|by apply valid_take|done]. f_equal.
  apply match_bool_flat; [done|by apply cut_nonempty|].
  exists [], s, (drop l (cut (parts pat) strs)). split_and!.
  - rewrite <- T. by rewrite take_drop.
  - intros ->. cbn in Ls. lia.
  - by apply means_flat.
  - unfold anchored. replace (absolute (take l (parts pat))) with true; [done|].
    rewrite <- A, Ps. by destruct l; [lia|].
Qed.

(** *** Lists of patterns *)

Definition good (pat : Pattern) : Prop := parts pat <> [] /\ one_root (parts pat) /\ valid (parts pat).

Lemma match_total pat strs : good pat -> exists b, match_ pat strs = Ok b.
Proof. intros (_ & _ & V). eexists. unfold match_. by apply match_fuel_ok. Qed.

Lemma match_longer pat strs more : good pat -> strs <> [] ->
  match_ pat strs = Ok true -> match_ pat (strs ++ more) = Ok true.
Proof.
  intros (_ & _ & V) N. unfold match_. rewrite !match_fuel_ok by done. intros [= E].
  f_equal. by apply match_bool_longer.
Qed.

(** Without negated patterns a directory that may hold a match stays one. *)
Lemma list_loop_stays strs pats : Forall (fun p => isNegated p = false) pats ->
  forall mt r, list_loop true false strs pats mt true = Ok r -> snd r = true.
Proof.
  induction 1 as [|pat pats Neg F IH]; intros mt r E; [by injection E as <-|].
  cbn [list_loop] in E. apply rbind_ok in E as (m & _ & E). apply rbind_ok in E as (c & _ & E).
  rewrite Neg in E. cbn [orb negb] in E. case_match; [by injection E as <- | by apply IH in E].
Qed.

(** Along the list: when the path below is selected so far, the directory is entered. *)
Lemma list_loop_child strs more hn pats : strs <> [] -> Forall good pats ->
  (hn = false -> Forall (fun p => isNegated p = false) pats) ->
  forall mt ct mp cp r r', (mt = true -> cp = true) ->
    list_loop false hn (strs ++ more) pats mt ct = Ok r -> fst r = true ->
    list_loop true hn strs pats mp cp = Ok r' -> snd r' = true.
Proof.
  intros N G. induction G as [|pat pats Gp G IH]; intros Hn mt ct mp cp r r' Inv E1 T E2.
  { injection E1 as <-. injection E2 as <-. by apply Inv. }
  assert (Hn' : hn = false -> Forall (fun p => isNegated p = false) pats)
    by (intros Z0; by apply Hn, Forall_cons in Z0 as [_ ?]).
  cbn [list_loop] in E1, E2.
  apply rbind_ok in E1 as (m1 & M1 & E1). cbn [rbind] in E1.
  apply rbind_ok in E2 as (m2 & M2 & E2). apply rbind_ok in E2 as (c2 & C2 & E2).
  assert (Longer : m2 = true -> m1 = true).
  { intros ->. apply (match_longer pat strs more) in M2; [congruence|done|done]. }
  destruct (isNegated pat).
  - apply (IH Hn' _ _ _ _ _ _) with (2 := E1) (4 := E2); [|done].
    intros [-> Z0]%andb_true_iff. rewrite Inv by done. destruct m2; [by rewrite Longer in Z0 by done | done].
  - assert (Inv' : mt || m1 = true -> cp || c2 = true).
    { intros [->| ->]%orb_true_iff; [by rewrite Inv|]. destruct Gp as (Ne & R & V).
      rewrite (childMatch_sound pat strs more Ne R V N M1) in C2. injection C2 as <-. apply orb_true_r. }
    destruct ((mp || m2) && (cp || c2) && negb hn) eqn:B2.
    { injection E2 as <-. by apply andb_true_iff in B2 as [[_ ?]%andb_true_iff _]. }
    destruct ((mt || m1) && (ct || true) && negb hn) eqn:B1; [|by apply (IH Hn' _ _ _ _ _ _ Inv' E1 T E2)].
    apply andb_true_iff in B1 as [[B1 _]%andb_true_iff Z0]. apply negb_true_iff in Z0. subst hn.
    rewrite Inv' in E2 by done. by apply (list_loop_stays _ _ (Hn' eq_refl)) in E2.
Qed.

(** *** Paths as strings *)

Lemma Split_nonempty s : Split s <> [].
Proof. destruct s as [|b s]; cbn [Split]; [done|]. destruct (Byte.eqb separator b); [done|]. by destruct (Split s). Qed.

Lemma Split_app d n : Split (d ++ separator :: n) = Split d ++ Split n.
Proof.
  induction d as [|b d IH]; [done|]. cbn [app Split]. rewrite IH. destruct (Byte.eqb separator b); [done|].
  destruct (Split d) as [|x xs] eqn:E; [by destruct (Split_nonempty d) | done].
Qed.

Lemma splitPath_app d n : d <> [] -> splitPath (d ++ separator :: n) = splitPath d ++ Split n.
Proof.
  intros N. unfold splitPath. rewrite Split_app. destruct (Split d) as [|[|b x] xs] eqn:E; [by destruct (Split_nonempty d)|done|done].
Qed.

Lemma splitPath_nonempty s : splitPath s <> [].
Proof. unfold splitPath. pose proof (Split_nonempty s). by destruct (Split s) as [|[|? ?] ?]. Qed.

Lemma Split_no_root s : ~ root ∈ Split s.
Proof.
  assert (F : Forall (fun x => no_separator x = true) (Split s)).
  { induction s as [|b s IH]; cbn [Split]; [by repeat constructor|]. destruct (Byte.eqb separator b) eqn:E; [by constructor|].
    destruct (Split s) as [|x xs]; [constructor; [|done]|apply Forall_cons in IH as [X IH]; constructor; [|done]];
      unfold no_separator in *; cbn [existsb]; rewrite E; done. }
  rewrite Forall_forall in F. intros R. by apply F in R.
Qed.

Lemma splitPath_roots s : Forall (fun x => x <> root) (tail (splitPath s)).
Proof.
  pose proof (Split_no_root s) as R. unfold splitPath. apply Forall_forall. intros x X ->. apply R.
  destruct (Split s) as [|[|b y] ys]; cbn in X; [by inversion X | by right | by right].
Qed.

Lemma preparePattern_shape s pat : preparePattern s = Ok pat -> parts pat <> [] /\ one_root (parts pat).
Proof.
  unfold preparePattern. destruct s as [|b t]; [done|]. intros [= <-]. cbn [parts].
  set (u := if Byte.eqb b x21 then t else b :: t).
  pose proof (splitPath_roots (Clean u)) as R. pose proof (splitPath_nonempty (Clean u)) as N.
  assert (O : one_root (map preparePart (splitPath (Clean u)))).
  { unfold one_root. destruct (splitPath (Clean u)) as [|x xs]; [done|]. cbn [map tail] in *. apply Forall_map.
    eapply Forall_impl; [exact R|]. intros y Y. cbn. apply bytes_eqb_neq. by case_match. }
  destruct (splitPath (Clean u)) as [|x [|y [|z zs]]]; [done| | |]; cbn [map] in *; (split; [|done]) || idtac; try done.
  case_match; (split; [done|]); [constructor | done].
Qed.

Lemma ParsePatterns_good ps pats : ParsePatterns ps = Ok pats -> Forall (fun pat => valid (parts pat)) pats -> Forall good pats.
Proof.
  revert pats. induction ps as [|p ps IH]; intros pats E V; cbn in E; [injection E as <-; constructor|].
  case_match; [by apply IH|]. apply rbind_ok in E as (q & Q & E). apply rbind_ok in E as (rest & R & E).
  injection E as <-. apply Forall_cons in V as [V1 V]. constructor; [|by apply IH].
  apply preparePattern_shape in Q as [? ?]. done.
Qed.

End Theory.
End FilterTheory.

(** ** Properties *)

Module FilterProps.
Import Filter FilterSpec FilterTheory.

Section Props.
Context {M : PathMatch} {L : PathMatchLaws M}.

(** C21. Nothing that is selected lies below a directory that is skipped: when the patterns,
    negated ones included, select a path below a directory, [ListWithChild] reports for the
    directory that its children may match. No pattern is malformed; the path below may be any
    number of levels down. *)
Theorem ListWithChild_sound patterns pats dir name m c :
  ParsePatterns patterns = Ok pats -> Forall (fun pat => valid (parts pat)) pats -> dir <> [] ->
  ListWithChild pats dir = Ok (m, c) -> List_ pats (dir ++ separator :: name) = Ok true -> c = true.
Proof.
  intros P V N E1 E2. pose proof (ParsePatterns_good _ _ P V) as G.
  assert (P1 : prepareStr dir = Ok (splitPath dir)).
  { unfold prepareStr. by rewrite (proj2 (guard_ok _ _) (proj2 (bytes_eqb_neq dir []) N)). }
  assert (P2 : prepareStr (dir ++ separator :: name) = Ok (splitPath dir ++ Split name)).
  { unfold prepareStr. rewrite <- splitPath_app by done. by destruct dir. }
  unfold ListWithChild, List_, list_ in *. destruct (Nat.eqb (length pats) 0); [done|].
  rewrite P1 in E1. rewrite P2 in E2. cbn [rbind] in E1, E2.
  apply rbind_ok in E2 as ([m' c'] & E2 & [= ->]).
  apply (list_loop_child (splitPath dir) (Split name) (existsb isNegated pats) pats) with (5 := E2) (7 := E1);
    [apply splitPath_nonempty | done | | done | done].
  intros H. apply Forall_forall. intros x X. destruct (isNegated x) eqn:I; [|done].
  rewrite <- H. symmetry. apply existsb_exists. exists x. split; [by apply list_elem_of_In | done].
Qed.

(** C20. A path that matches a pattern has components that the pattern stands for, with [**]
    for any number of them, at the root when the pattern has one. The converse holds for
    patterns with at most one [**]. Matching ends with a result for every number of them. *)
Theorem Match_spec patternStr s pat : s <> [] -> preparePattern patternStr = Ok pat -> valid (parts pat) ->
  exists b, Match patternStr s = Ok b
    /\ (b = true -> selects (parts pat) (splitPath s))
    /\ ((wilds (parts pat) <= 1)%nat -> selects (parts pat) (splitPath s) -> b = true).
Proof.
  intros N P V. destruct (preparePattern_shape _ _ P) as [Ne R]. exists (match_bool (wilds (parts pat)) (parts pat) (splitPath s)).
  split; [|split].
  - unfold Match. destruct patternStr as [|b t]; [done|]. rewrite P. cbn [bytes_eqb rbind]. unfold prepareStr.
    rewrite (proj2 (guard_ok _ _) (proj2 (bytes_eqb_neq s []) N)). cbn [rbind]. by apply match_fuel_ok.
  - apply match_bool_sound; [done | apply splitPath_nonempty].
  - intros W. apply match_bool_complete; [done | done | apply splitPath_nonempty].
Qed.

(** C40. With two and more [**] matches are missed: a path is never matched in which all of
    them stand for no component, although the pattern stands for it as documented. For the
    number of components a [**] may take is counted as if every other [**] took one. The path
    is not absolute, or the pattern is. *)
Theorem Match_two_wildcards_missed patternStr s pat : s <> [] -> preparePattern patternStr = Ok pat ->
  (2 <= wilds (parts pat))%nat ->
  means (List.filter (fun p => negb (wild p)) (parts pat)) (splitPath s) ->
  head (splitPath s) <> Some root \/ absolute (parts pat) = true ->
  selects (parts pat) (splitPath s) /\ Match patternStr s = Ok false.
Proof.
  intros N P W I A. split.
  - exists [], (splitPath s), []. split; [by rewrite app_nil_r|]. split; [apply splitPath_nonempty|]. split; [by apply means_without|].
    unfold anchored. destruct (absolute (parts pat)); [done|]. intros H. by destruct A.
  - unfold Match. destruct patternStr as [|b t]; [done|]. rewrite P. cbn [bytes_eqb rbind]. unfold prepareStr.
    rewrite (proj2 (guard_ok _ _) (proj2 (bytes_eqb_neq s []) N)). cbn [rbind]. apply match_fuel_short; [|done].
    apply means_flat in I as F; [|apply Forall_forall; intros p Hp; apply list_elem_of_In, filter_In in Hp as [_ Hp]; by apply negb_true_iff].
    apply Forall2_length in F. pose proof (wilds_length (parts pat)). lia.
Qed.

End Props.

#[local] Existing Instances Glob.unix Glob.unix_laws.

(** Parts that the matcher accepts. *)
Lemma unix_valid ps : forallb (fun p => wild p || isSimple p || is_ok (Match_ (pattern p) [])) ps = true ->
  valid ps.
Proof.
  intros F p s P W. rewrite forallb_forall in F. apply list_elem_of_In, F in P. rewrite W in P. cbn [orb] in P.
  unfold part_match. destruct (isSimple p); [done|]. cbn [orb] in P. unfold Match_, Glob.unix in *.
  by destruct (Glob.parse _ _).
Qed.

(** A home directory without its temporary files, and sources anywhere. *)
Definition toy_patterns : list bytes := [str "/home/*/doc?"; str "!/home/u/docs/tmp/**"; str "src/**/*.[ch]"].
Definition toy_pats : list Pattern :=
  Eval vm_compute in match ParsePatterns toy_patterns with Ok pats => pats | Err _ => [] end.

Lemma toy_valid : Forall (fun pat => valid (parts pat)) toy_pats.
Proof. repeat constructor; apply unix_valid; vm_compute; reflexivity. Qed.

Lemma ListWithChild_sound_witness :
  ListWithChild toy_pats (str "/home") = Ok (false, true) /\
  List_ toy_pats (str "/home/u/docs/a") = Ok true /\ List_ toy_pats (str "/home/u/docs/tmp/b") = Ok false /\
  true = true.
Proof.
  split; [vm_compute; reflexivity|]. split; [vm_compute; reflexivity|]. split; [vm_compute; reflexivity|].
  apply (ListWithChild_sound toy_patterns toy_pats (str "/home") (str "u/docs/a") false true);
    [vm_compute; reflexivity | exact toy_valid | discriminate | vm_compute; reflexivity | vm_compute; reflexivity].
Defined.

Definition toy_pattern : Pattern :=
  Eval vm_compute in match preparePattern (str "foo/**/ba?") with Ok p => p | Err _ => {| original := []; parts := []; isNegated := false |} end.

Lemma Match_spec_witness :
  wilds (parts toy_pattern) = 1%nat /\
  exists b, Match (str "foo/**/ba?") (str "/tmp/foo/x/y/bar/z") = Ok b
    /\ (b = true -> selects (parts toy_pattern) (splitPath (str "/tmp/foo/x/y/bar/z")))
    /\ ((wilds (parts toy_pattern) <= 1)%nat -> selects (parts toy_pattern) (splitPath (str "/tmp/foo/x/y/bar/z")) -> b = true).
Proof.
  split; [reflexivity|]. apply (Match_spec (str "foo/**/ba?") (str "/tmp/foo/x/y/bar/z") toy_pattern);
    [discriminate | vm_compute; reflexivity | apply unix_valid; vm_compute; reflexivity].
Defined.

Definition two_wild : Pattern :=
  Eval vm_compute in match preparePattern (str "/foo/**/b?r/**/x") with Ok p => p | Err _ => {| original := []; parts := []; isNegated := false |} end.

Lemma Match_two_wildcards_missed_witness :
  selects (parts two_wild) (splitPath (str "/foo/bar/x")) /\ Match (str "/foo/**/b?r/**/x") (str "/foo/bar/x") = Ok false.
Proof.
  apply (Match_two_wildcards_missed (str "/foo/**/b?r/**/x") (str "/foo/bar/x") two_wild);
    [discriminate | vm_compute; reflexivity | vm_compute; lia | | right; vm_compute; reflexivity].
  repeat (apply means_part; [reflexivity|vm_compute; reflexivity|]). constructor.
Defined.

End FilterProps.
