(* ===== verification/Journal.v ===== *)
(** * The staging journal ([internal/repository/staging/journal.go])

    A backup that runs without the index daemon writes what it knows into a journal: segments
    of facts, chained by their digests, and a seal. Every object is stored on several mirrors,
    and a policy says how many copies make it durable. Objects are immutable.

    The libraries for JSON, HKDF and AES-GCM are parameters with their documented laws. The
    theorems show that a job that was published is read back as JSON gives it back, that
    published objects are never changed, and where publishing fails: for segments of more than six megabytes, and for an
    object whose first publication was not complete. *)
From stdpp Require Import base list numbers strings gmap.
From Stdlib Require Import ZArith Lia.
From S2P Require Import Prelude Sha256 SnapshotRecords Duration Json.

Module Journal.

Definition Format : Z := 1.
Definition MaxSegmentBytes : Z := Z.shiftl 8 20.

Inductive State := StateUploading | StateSealedPending | StateCommitting | StateCommitted
                 | StateRejected | StateAbandoned | StateExpired.

#[export] Instance State_eq : EqDecision State.
Proof. solve_decision. Defined.

(** ** Data; times are nanoseconds, UTC *)

Record Header := {
  h_Format : Z; RepositoryID : bytes; JobID : bytes; IdempotencyKey : bytes;
  CreatedAt : Z; ExpiresAt : Z; CapsuleGeneration : Z; RepositoryKeyVersion : Z;
  ChunkerVersion : bytes; CompressionVersion : bytes; PlacementPolicyVersion : Z;
  SourceIdentitySHA256 : bytes; ConsistencyEvidence : bytes; BasisSnapshot : bytes;
  BasisMetadataGeneration : Z }.

#[export] Instance Header_eq : EqDecision Header.
Proof. solve_decision. Defined.

Record Placement := {
  BackendID : bytes; FailureDomain : bytes; Offsite : bool; pl_Size : Z; pl_SHA256 : bytes }.

Record Pack := {
  pk_ID : bytes; pk_Type : bytes; pk_Size : Z; pk_PayloadSize : Z; pk_HeaderSize : Z;
  pk_BlobCount : Z; pk_SHA256 : bytes; Placements : list Placement }.

Record JRecord := { Kind : bytes; Payload : bytes }.

Record Segment := {
  s_Header : Header; Sequence : Z; PreviousSHA256 : bytes; Packs : list Pack;
  Records : list JRecord }.

Record Seal := {
  se_Header : Header; se_State : State; SegmentSHA256 : list bytes; PackCount : Z;
  ProtectedBytes : Z; SealedAt : Z }.

Record Completion := {
  co_Header : Header; co_State : State; co_SealSHA256 : bytes; MetadataTransaction : bytes;
  SnapshotID : bytes; CompletedAt : Z }.

Record Abandonment := {
  ab_Header : Header; ab_State : State; ab_SealSHA256 : bytes; ab_Reason : bytes;
  Acknowledgement : bytes; AbandonedAt : Z; DeleteAfter : Z }.

Record Rejection := {
  re_Header : Header; re_State : State; re_SealSHA256 : bytes; re_Reason : bytes;
  RejectedAt : Z }.

Record Extension := {
  ex_Header : Header; ex_SealSHA256 : bytes; Generation : Z; PreviousExtensionSHA256 : bytes;
  PreviousExpiresAt : Z; ex_ExpiresAt : Z; ExtendedAt : Z }.

Record Job := {
  j_Header : Header; j_State : State; j_Seal : Seal; j_SealSHA256 : bytes;
  j_Completion : option Completion; j_Abandonment : option Abandonment;
  j_Rejection : option Rejection; j_Extension : option Extension; ExtensionSHA256 : bytes }.

Definition EffectiveExpiresAt (job : Job) : Z :=
  match j_Extension job with Some e => ex_ExpiresAt e | None => ExpiresAt (j_Header job) end.

Record Policy := { MinCopies : Z; MinDomains : Z; MinOffsite : Z }.
Record MirrorPlacement := { mp_FailureDomain : bytes; mp_Offsite : bool }.

(** The objects of one kind or another. *)
Inductive Object :=
| OSegment (s : Segment) | OSeal (s : Seal) | OCompletion (c : Completion)
| OAbandonment (a : Abandonment) | ORejection (r : Rejection) | OExtension (e : Extension).

Definition kind_of (o : Object) : string :=
  match o with
  | OSegment _ => "segment" | OSeal _ => "seal" | OCompletion _ => "completion"
  | OAbandonment _ => "abandonment" | ORejection _ => "rejection" | OExtension _ => "extension"
  end.

Record encryptedObject := {
  o_Format : Z; o_RepositoryID : bytes; o_JobID : bytes; o_Kind : bytes; o_Sequence : Z;
  Nonce : bytes; Ciphertext : bytes }.

(** ** The libraries

    [json.Marshal] of an object and of its envelope; the strict decoder, which refuses
    unknown fields and trailing data, into an object of a kind and into an envelope; the key
    of 32 bytes that HKDF with SHA-256 derives from a root key, a salt and an info; AES-GCM by
    key, nonce, text and additional data. *)
Class JournalCodec := {
  json_Marshal : Object -> result bytes;
  json_Decode : string -> bytes -> result Object;
  envelope_Marshal : encryptedObject -> result bytes;
  envelope_Decode : bytes -> result encryptedObject;
  hkdf : bytes -> bytes -> bytes -> bytes;
  gcm_Seal : bytes -> bytes -> bytes -> bytes -> bytes;
  gcm_Open : bytes -> bytes -> bytes -> bytes -> result bytes }.

(** *** What JSON gives back *)

Definition normal_Header (h : Header) : Header := {|
  h_Format := h_Format h; RepositoryID := Json.text (RepositoryID h); JobID := Json.text (JobID h);
  IdempotencyKey := Json.text (IdempotencyKey h); CreatedAt := CreatedAt h; ExpiresAt := ExpiresAt h;
  CapsuleGeneration := CapsuleGeneration h; RepositoryKeyVersion := RepositoryKeyVersion h;
  ChunkerVersion := Json.text (ChunkerVersion h); CompressionVersion := Json.text (CompressionVersion h);
  PlacementPolicyVersion := PlacementPolicyVersion h; SourceIdentitySHA256 := Json.text (SourceIdentitySHA256 h);
  ConsistencyEvidence := Json.text (ConsistencyEvidence h); BasisSnapshot := Json.text (BasisSnapshot h);
  BasisMetadataGeneration := BasisMetadataGeneration h |}.

Definition normal_Placement (p : Placement) : Placement := {|
  BackendID := Json.text (BackendID p); FailureDomain := Json.text (FailureDomain p); Offsite := Offsite p;
  pl_Size := pl_Size p; pl_SHA256 := Json.text (pl_SHA256 p) |}.

Definition normal_Pack (p : Pack) : Pack := {|
  pk_ID := Json.text (pk_ID p); pk_Type := Json.text (pk_Type p); pk_Size := pk_Size p;
  pk_PayloadSize := pk_PayloadSize p; pk_HeaderSize := pk_HeaderSize p; pk_BlobCount := pk_BlobCount p;
  pk_SHA256 := Json.text (pk_SHA256 p); Placements := map normal_Placement (Placements p) |}.

Definition normal_Record (r : JRecord) : JRecord := {| Kind := Json.text (Kind r); Payload := Json.raw (Payload r) |}.

Definition normal_Segment (s : Segment) : Segment := {|
  s_Header := normal_Header (s_Header s); Sequence := Sequence s; PreviousSHA256 := Json.text (PreviousSHA256 s);
  Packs := map normal_Pack (Packs s); Records := map normal_Record (Records s) |}.

Definition normal_Seal (s : Seal) : Seal := {|
  se_Header := normal_Header (se_Header s); se_State := se_State s; SegmentSHA256 := map Json.text (SegmentSHA256 s);
  PackCount := PackCount s; ProtectedBytes := ProtectedBytes s; SealedAt := SealedAt s |}.

Definition normal (o : Object) : Object :=
  match o with
  | OSegment s => OSegment (normal_Segment s)
  | OSeal s => OSeal (normal_Seal s)
  | OCompletion c => OCompletion {|
      co_Header := normal_Header (co_Header c); co_State := co_State c; co_SealSHA256 := Json.text (co_SealSHA256 c);
      MetadataTransaction := Json.text (MetadataTransaction c); SnapshotID := Json.text (SnapshotID c);
      CompletedAt := CompletedAt c |}
  | OAbandonment a => OAbandonment {|
      ab_Header := normal_Header (ab_Header a); ab_State := ab_State a; ab_SealSHA256 := Json.text (ab_SealSHA256 a);
      ab_Reason := Json.text (ab_Reason a); Acknowledgement := Json.text (Acknowledgement a);
      AbandonedAt := AbandonedAt a; DeleteAfter := DeleteAfter a |}
  | ORejection r => ORejection {|
      re_Header := normal_Header (re_Header r); re_State := re_State r; re_SealSHA256 := Json.text (re_SealSHA256 r);
      re_Reason := Json.text (re_Reason r); RejectedAt := RejectedAt r |}
  | OExtension e => OExtension {|
      ex_Header := normal_Header (ex_Header e); ex_SealSHA256 := Json.text (ex_SealSHA256 e); Generation := Generation e;
      PreviousExtensionSHA256 := Json.text (PreviousExtensionSHA256 e); PreviousExpiresAt := PreviousExpiresAt e;
      ex_ExpiresAt := ex_ExpiresAt e; ExtendedAt := ExtendedAt e |}
  end.

Definition normal_envelope (x : encryptedObject) : encryptedObject := {|
  o_Format := o_Format x; o_RepositoryID := Json.text (o_RepositoryID x); o_JobID := Json.text (o_JobID x);
  o_Kind := Json.text (o_Kind x); o_Sequence := o_Sequence x; Nonce := Nonce x; Ciphertext := Ciphertext x |}.

Definition NonceSize : Z := 12.

(** Decoding inverts encoding up to the text; bytes are written in base64. AES-GCM adds a tag
    of 16 bytes, and opens what it sealed. *)
Class JournalLaws (codec : JournalCodec) := {
  decode_Marshal o b : json_Marshal o = Ok b -> json_Decode (kind_of o) b = Ok (normal o);
  decode_envelope x b : envelope_Marshal x = Ok b -> envelope_Decode b = Ok (normal_envelope x);
  envelope_length x b : envelope_Marshal x = Ok b -> 4 * ((zlen (Ciphertext x) + 2) / 3) <= zlen b;
  gcm_length key nonce text aad : zlen (gcm_Seal key nonce text aad) = zlen text + 16;
  gcm_Open_Seal key nonce text aad : zlen nonce = NonceSize ->
    gcm_Open key nonce (gcm_Seal key nonce text aad) aad = Ok text }.

(** ** Envelopes *)

Section Envelopes.
Context {codec : JournalCodec}.

Definition journalAEAD (rootKey : bytes) (header : Header) : result bytes :=
  do! guard (zlen rootKey <? 32) "journal key material is too short";
  Ok (hkdf rootKey (RepositoryID header) (str "vaultic/staging-journal-v1/" ++ JobID header)).

(** [strings.Join(parts, "\x00")] and the sequence *)
Definition objectAAD (x : encryptedObject) : bytes :=
  str "vaultic-staging-v1" ++ [x00] ++ o_RepositoryID x ++ [x00] ++ o_JobID x ++ [x00] ++ o_Kind x ++ be 8 (o_Sequence x).

(** [random] is what [rand.Reader] gives. *)
Definition sealObject (value : Object) (rootKey : bytes) (header : Header) (kind : string) (sequence : Z) (random : bytes)
    : result bytes :=
  let! plaintext := json_Marshal value in
  let! aead := journalAEAD rootKey header in
  do! guard (zlen random <? NonceSize) "unexpected EOF";
  let nonce := take (Z.to_nat NonceSize) random in
  let object := {| o_Format := Format; o_RepositoryID := RepositoryID header; o_JobID := JobID header; o_Kind := str kind;
                   o_Sequence := sequence; Nonce := nonce; Ciphertext := [] |} in
  envelope_Marshal {| o_Format := o_Format object; o_RepositoryID := o_RepositoryID object; o_JobID := o_JobID object;
                      o_Kind := o_Kind object; o_Sequence := o_Sequence object; Nonce := nonce;
                      Ciphertext := gcm_Seal aead nonce plaintext (objectAAD object) |}.

Definition openObject (encoded rootKey : bytes) (header : Header) (kind : string) (sequence : Z) : result Object :=
  match envelope_Decode encoded with
  | Err _ => Err "decode encrypted journal object"
  | Ok object =>
      do! guard (negb (o_Format object =? Format) || negb (bytes_eqb (o_RepositoryID object) (RepositoryID header))
                 || negb (bytes_eqb (o_JobID object) (JobID header)) || negb (bytes_eqb (o_Kind object) (str kind))
                 || negb (o_Sequence object =? sequence)) "journal object context mismatch";
      let! aead := journalAEAD rootKey header in
      let! plaintext := match gcm_Open aead (Nonce object) (Ciphertext object) (objectAAD object) with
                        | Err e => Err ("authenticate journal object: " ++ e)
                        | Ok plaintext => Ok plaintext
                        end in
      match json_Decode kind plaintext with
      | Err _ => Err "decode journal payload"
      | Ok value => Ok value
      end
  end.

(** [len(json.Marshal(segment))] *)
Definition segment_size (s : Segment) : option Z :=
  match json_Marshal (OSegment s) with Ok b => Some (zlen b) | Err _ => None end.

End Envelopes.

(** ** Checks *)

Definition validDigest (value : bytes) : bool :=
  match SnapshotRecords.hex_decode value with Some d => zlen d =? 32 | None => false end.

(** [hex.EncodeToString(digest[:])] *)
Definition hex_char (n : Z) : byte := z2b (if n <? 10 then 48 + n else 87 + n).
Definition hex (b : bytes) : bytes := concat (map (fun x => [hex_char (b2z x / 16); hex_char (b2z x mod 16)]) b).
Definition digest_of (encoded : bytes) : bytes := hex (Sum256 encoded).

Definition zero_instant : Z := -62135596800 * 10 ^ 9.

Definition Header_Validate (h : Header) (now : Z) : result unit :=
  do! guard (negb (h_Format h =? Format) || bytes_eqb (RepositoryID h) [] || bytes_eqb (JobID h) []
             || bytes_eqb (IdempotencyKey h) [] || (CreatedAt h =? zero_instant)
             || negb (CreatedAt h <? ExpiresAt h)) "invalid ingest journal identity or lifetime";
  do! guard (ExpiresAt h <? now) "ingest journal is expired";
  guard (negb (validDigest (SourceIdentitySHA256 h)) || (CapsuleGeneration h =? 0)
         || (RepositoryKeyVersion h =? 0) || (PlacementPolicyVersion h =? 0))
    "incomplete ingest journal cryptographic context".

(** The loop over the placements: the backends and domains seen and the number off site. *)
Fixpoint placements_loop (pack : Pack) (ps : list Placement) (seen domains : gset bytes) (offsite : Z)
    : result (gset bytes * gset bytes * Z) :=
  match ps with
  | [] => Ok (seen, domains, offsite)
  | p :: ps =>
      do! guard (bytes_eqb (BackendID p) [] || bytes_eqb (FailureDomain p) []
                 || negb (pl_Size p =? pk_Size pack) || negb (bytes_eqb (pl_SHA256 p) (pk_SHA256 pack)))
            "pack has an invalid placement proof";
      do! guard (bool_decide (BackendID p ∈ seen)) "pack repeats backend";
      placements_loop pack ps ({[BackendID p]} ∪ seen) ({[FailureDomain p]} ∪ domains)
        (if Offsite p then wrap_u 64 (offsite + 1) else offsite)
  end.

Definition validatePack (pack : Pack) (policy : Policy) : result unit :=
  do! guard ((pk_Size pack <=? 0)
             || negb (wrap_u 64 (pk_PayloadSize pack + pk_HeaderSize pack) =? pk_Size pack)
             || (pk_BlobCount pack =? 0)) "invalid staged pack size accounting";
  do! guard (bytes_eqb (pk_ID pack) [] || (pk_Size pack <=? 0) || negb (validDigest (pk_SHA256 pack)))
        "invalid staged pack";
  let! (seen, domains, offsite) := placements_loop pack (Placements pack) ∅ ∅ 0 in
  guard ((Z.of_nat (base.size seen) <? Z.max 1 (MinCopies policy))
         || (Z.of_nat (base.size domains) <? Z.max 1 (MinDomains policy))
         || (offsite <? MinOffsite policy)) "pack does not satisfy staging durability".

Fixpoint each {A} (f : A -> result unit) (l : list A) : result unit :=
  match l with [] => Ok tt | x :: l => do! f x; each f l end.

(** ** Names of objects *)

(** [%020d] *)
Definition pad20 (n : Z) : bytes := let d := Duration.Itoa n in repeat x30 (20 - length d) ++ d.

Definition SegmentHandle (jobID : bytes) (sequence : Z) : bytes := jobID ++ str "--segment--" ++ pad20 sequence.
Definition SealHandle (jobID : bytes) : bytes := jobID ++ str "--seal".
Definition CompletionHandle (jobID : bytes) : bytes := jobID ++ str "--completion".
Definition AbandonmentHandle (jobID : bytes) : bytes := jobID ++ str "--abandonment".
Definition RejectionHandle (jobID : bytes) : bytes := jobID ++ str "--rejection".
Definition ExtensionHandle (jobID : bytes) (generation : Z) : bytes := jobID ++ str "--extension--" ++ pad20 generation.

(** ** Mirrors *)

(** The objects of a mirror. *)
Notation Mirror := (gmap bytes bytes).

Inductive loaded := Loaded (b : bytes) | NotExist | Failed (e : string).

(** [loadObject], when the backend answers or fails with another error than that the object
    does not exist. *)
Definition loadObject (fault : option string) (m : Mirror) (handle : bytes) : loaded :=
  match fault with
  | Some e => Failed e
  | None =>
      match m !! handle with
      | None => NotExist
      | Some b =>
          if (zlen b <=? 0) || (MaxSegmentBytes * 2 <? zlen b)
          then Failed "journal object has invalid size" else Loaded b
      end
  end.

(** What happens on a mirror during a publication: errors of the inspection, of [Save], which
    may have written the object nevertheless, and of the two loads after it. *)
Record mirrorEnv := {
  e_inspect : option string; e_save : option string; e_written : bool;
  e_reload : option string; e_verify : option string }.

Definition holds (fault : option string) (m : Mirror) (handle encoded : bytes) : bool :=
  match loadObject fault m handle with Loaded b => bytes_eqb b encoded | _ => false end.

(** [Publish] to one mirror. *)
Definition Publish (env : mirrorEnv) (m : Mirror) (handle encoded : bytes) : Mirror * result unit :=
  if bytes_eqb encoded [] || (MaxSegmentBytes <? zlen encoded)
  then (m, Err "journal publication requires staging mirrors")
  else
    match loadObject (e_inspect env) m handle with
    | Loaded existing =>
        (m, if bytes_eqb existing encoded then Ok tt
            else Err "journal object conflicts with immutable object")
    | Failed e => (m, Err ("inspect journal object: " ++ e))
    | NotExist =>
        let m := if e_written env then <[handle := encoded]> m else m in
        (m,
         do! (match e_save env with
              | Some e => guard (negb (holds (e_reload env) m handle encoded)) ("publish journal object: " ++ e)
              | None => Ok tt
              end);
         guard (negb (holds (e_verify env) m handle encoded)) "verify journal object")
    end.

Record tally := { successes : Z; domains : gset bytes; offsites : Z }.
Definition no_tally : tally := {| successes := 0; domains := ∅; offsites := 0 |}.

Record Store := {
  MirrorPlacements : gmap bytes MirrorPlacement; Key : bytes; st_Policy : Policy;
  AbandonmentSafetyDelay : Z; MaxExtension : Z }.

Definition count_mirror (st : Store) (id : bytes) (t : tally) : tally :=
  let placement := default {| mp_FailureDomain := id; mp_Offsite := false |} (MirrorPlacements st !! id) in
  {| successes := successes t + 1; domains := {[mp_FailureDomain placement]} ∪ domains t;
     offsites := if mp_Offsite placement then offsites t + 1 else offsites t |}.

Definition unsatisfied (p : Policy) (t : tally) : bool :=
  (successes t <? MinCopies p) || (Z.of_nat (base.size (domains t)) <? MinDomains p)
  || (offsites t <? MinOffsite p).

Notation Mirrors := (list (bytes * Mirror)).

Fixpoint publish_loop (st : Store) (env : bytes -> mirrorEnv) (handle encoded : bytes) (ms : Mirrors) (t : tally)
    : Mirrors * tally :=
  match ms with
  | [] => ([], t)
  | (id, m) :: ms =>
      let (m', r) := Publish (env id) m handle encoded in
      let t := if is_ok r then count_mirror st id t else t in
      let (ms', t) := publish_loop st env handle encoded ms t in
      ((id, m') :: ms', t)
  end.

(** [Store.publish] *)
Definition publish (st : Store) (env : bytes -> mirrorEnv) (ms : Mirrors) (handle encoded : bytes)
    : Mirrors * result unit :=
  let (ms, t) := publish_loop st env handle encoded ms no_tally in
  (ms, guard (unsatisfied (st_Policy st) t) "journal publication policy unsatisfied").

Fixpoint quorum_loop (st : Store) (fault : bytes -> option string) (handle : bytes) (ms : Mirrors)
    (authoritative : option bytes) (t : tally) : result (option bytes * tally) :=
  match ms with
  | [] => Ok (authoritative, t)
  | (id, m) :: ms =>
      match loadObject (fault id) m handle with
      | Loaded encoded =>
          do! guard (match authoritative with
                     | None => false
                     | Some a => negb (bytes_eqb a encoded)
                     end) "journal object conflicts across mirrors";
          quorum_loop st fault handle ms (Some (default encoded authoritative)) (count_mirror st id t)
      | _ => quorum_loop st fault handle ms authoritative t
      end
  end.

Definition loadQuorum (st : Store) (fault : bytes -> option string) (ms : Mirrors) (handle : bytes) : result bytes :=
  let! (authoritative, t) := quorum_loop st fault handle ms None no_tally in
  do! guard (unsatisfied (st_Policy st) t) "journal read policy unsatisfied";
  Ok (default [] authoritative).

(** A mirror whose [Stat] fails for whatever reason is passed over. *)
Definition loadOptionalQuorum (st : Store) (stat fault : bytes -> option string) (ms : Mirrors) (handle : bytes)
    : result (option bytes) :=
  if existsb (fun x : bytes * Mirror =>
        match stat (fst x) with Some _ => false | None => bool_decide (is_Some (snd x !! handle)) end) ms
  then let! encoded := loadQuorum st fault ms handle in Ok (Some encoded)
  else Ok None.

(** ** Segments and seals *)

Section Objects.
Context {codec : JournalCodec} (st : Store).

Definition Segment_Validate (s : Segment) (now : Z) : result unit :=
  do! Header_Validate (s_Header s) now;
  do! guard ((Sequence s =? 0) || (1 <? Sequence s) && negb (validDigest (PreviousSHA256 s)))
        "invalid journal segment chain";
  do! each (fun pack => validatePack pack (st_Policy st)) (Packs s);
  match segment_size s with
  | None => Err "json: error calling MarshalJSON"
  | Some n => guard (MaxSegmentBytes <? n) "journal segment exceeds limit"
  end.

Definition seal_for (o : Object) (h : Header) (sequence : Z) (nonce : bytes) : result bytes :=
  sealObject o (Key st) h (kind_of o) sequence nonce.

Definition open_for (encoded : bytes) (h : Header) (kind : string) (sequence : Z) : result Object :=
  openObject encoded (Key st) h kind sequence.

Definition SealSegment (s : Segment) (now : Z) (nonce : bytes) : result (bytes * bytes) :=
  do! Segment_Validate s now;
  let! encoded := seal_for (OSegment s) (s_Header s) (Sequence s) nonce in
  Ok (encoded, digest_of encoded).

Definition open_segment (encoded : bytes) (h : Header) (sequence : Z) : result Segment :=
  let! o := open_for encoded h "segment" sequence in
  match o with OSegment s => Ok s | _ => Err "decode journal payload" end.

(** The loop of [SealSegments]. *)
Fixpoint seal_loop (h : Header) (now : Z) (index : Z) (previous : bytes) (seal : Seal) (segments : list bytes)
    : result Seal :=
  match segments with
  | [] => Ok seal
  | encoded :: segments =>
      let! s := open_segment encoded h (index + 1) in
      do! guard (negb (Sequence s =? index + 1) || negb (bytes_eqb (PreviousSHA256 s) previous))
            "journal segment chain is discontinuous";
      do! Segment_Validate s now;
      let digest := digest_of encoded in
      seal_loop h now (index + 1) digest
        {| se_Header := se_Header seal; se_State := se_State seal;
           SegmentSHA256 := SegmentSHA256 seal ++ [digest];
           PackCount := wrap_u 64 (PackCount seal + zlen (Packs s));
           ProtectedBytes := foldl (fun n pack => wrap_u 64 (n + wrap_u 64 (pk_Size pack))) (ProtectedBytes seal) (Packs s);
           SealedAt := SealedAt seal |} segments
  end.

Definition SealSegments (h : Header) (segments : list bytes) (now : Z) (nonce : bytes)
    : result (bytes * Seal * bytes) :=
  do! Header_Validate h now;
  let! seal := seal_loop h now 0 [] {| se_Header := h; se_State := StateSealedPending; SegmentSHA256 := [];
                 PackCount := 0; ProtectedBytes := 0; SealedAt := now |} segments in
  do! guard (Nat.eqb (length (SegmentSHA256 seal)) 0) "cannot seal an empty journal";
  let! encoded := seal_for (OSeal seal) h 0 nonce in
  Ok (encoded, seal, digest_of encoded).

(** ** Publishing a job *)

(** The errors of the backends in each of the calls of a publication, by the number of the
    call, the time at the call and the random nonces. *)
Record jobEnv := {
  e_publish : nat -> bytes -> mirrorEnv; e_load : nat -> bytes -> option string;
  e_now : nat -> Z; e_nonce : nat -> bytes }.

Definition PublishSegment (env : bytes -> mirrorEnv) (now : Z) (nonce : bytes) (ms : Mirrors) (s : Segment)
    : Mirrors * result bytes :=
  match SealSegment s now nonce with
  | Err e => (ms, Err e)
  | Ok (encoded, digest) =>
      let (ms, r) := publish st env ms (SegmentHandle (JobID (s_Header s)) (Sequence s)) encoded in
      (ms, do! r; Ok digest)
  end.

(** [appendIfFits]: the candidate without the digest of the segment before it, if it fits. *)
Definition fits (s : Segment) : bool :=
  match segment_size s with Some n => n <=? MaxSegmentBytes | None => false end.

Definition with_pack (pack : Pack) (s : Segment) : Segment :=
  {| s_Header := s_Header s; Sequence := Sequence s; PreviousSHA256 := PreviousSHA256 s;
     Packs := Packs s ++ [pack]; Records := Records s |}.

Definition with_record (r : JRecord) (s : Segment) : Segment :=
  {| s_Header := s_Header s; Sequence := Sequence s; PreviousSHA256 := PreviousSHA256 s;
     Packs := Packs s; Records := Records s ++ [r] |}.

Definition empty_segment (h : Header) (sequence : Z) : Segment :=
  {| s_Header := h; Sequence := sequence; PreviousSHA256 := []; Packs := []; Records := [] |}.

Definition flush (h : Header) (segments : list Segment) (current : Segment) : result (list Segment * Segment) :=
  do! guard (Nat.eqb (length (Packs current)) 0 && Nat.eqb (length (Records current)) 0)
        "journal item exceeds segment size limit";
  let segments := segments ++ [current] in
  Ok (segments, empty_segment h (zlen segments + 1)).

(** Both loops: an item that does not fit begins a new segment. *)
Fixpoint fill {A} (add : A -> Segment -> Segment) (e : string) (h : Header) (items : list A)
    (segments : list Segment) (current : Segment) : result (list Segment * Segment) :=
  match items with
  | [] => Ok (segments, current)
  | x :: items =>
      if fits (add x current) then fill add e h items segments (add x current)
      else
        match flush h segments current with
        | Err _ => Err e
        | Ok (segments, current) =>
            if fits (add x current) then fill add e h items segments (add x current) else Err e
        end
  end.

Definition split_job (h : Header) (packs : list Pack) (records : list JRecord) : result (list Segment) :=
  let! (segments, current) := fill with_pack "staged pack fact exceeds segment size limit" h packs [] (empty_segment h 1) in
  let! (segments, current) := fill with_record "staged journal record exceeds segment size limit" h records segments current in
  let! (segments, _) := flush h segments current in
  Ok segments.

Definition with_previous (digest : bytes) (s : Segment) : Segment :=
  {| s_Header := s_Header s; Sequence := Sequence s; PreviousSHA256 := digest;
     Packs := Packs s; Records := Records s |}.

Fixpoint publish_segments (env : jobEnv) (call : nat) (previous : bytes) (ms : Mirrors) (segments : list Segment)
    : Mirrors * result unit :=
  match segments with
  | [] => (ms, Ok tt)
  | s :: segments =>
      let (ms, r) := PublishSegment (e_publish env call) (e_now env call) (e_nonce env call) ms (with_previous previous s) in
      match r with
      | Err e => (ms, Err e)
      | Ok digest => publish_segments env (S call) digest ms segments
      end
  end.

Fixpoint load_segments (fault : nat -> bytes -> option string) (ms : Mirrors) (jobID : bytes) (sequences : list nat)
    : result (list bytes) :=
  match sequences with
  | [] => Ok []
  | i :: sequences =>
      let! encoded := loadQuorum st (fault i) ms (SegmentHandle jobID (Z.of_nat i)) in
      let! rest := load_segments fault ms jobID sequences in
      Ok (encoded :: rest)
  end.

Definition PublishSeal (env : jobEnv) (call : nat) (ms : Mirrors) (h : Header) (segmentCount : nat)
    : Mirrors * result (Seal * bytes) :=
  if Nat.eqb segmentCount 0 then (ms, Err "cannot seal an empty journal")
  else
    match (let! segments := load_segments (e_load env) ms (JobID h) (seq 1 segmentCount) in
           SealSegments h segments (e_now env call) (e_nonce env call)) with
    | Err e => (ms, Err e)
    | Ok (encoded, seal, digest) =>
        let (ms, r) := publish st (e_publish env call) ms (SealHandle (JobID h)) encoded in
        (ms, do! r; Ok (seal, digest))
    end.

Definition PublishJob (env : jobEnv) (ms : Mirrors) (h : Header) (packs : list Pack) (records : list JRecord)
    : Mirrors * result (Seal * bytes * Z) :=
  match split_job h packs records with
  | Err e => (ms, Err e)
  | Ok segments =>
      let (ms, r) := publish_segments env 0 [] ms segments in
      match r with
      | Err e => (ms, Err e)
      | Ok _ =>
          let (ms, r) := PublishSeal env (length segments) ms h (length segments) in
          (ms, let! (seal, digest) := r in Ok (seal, digest, zlen segments))
      end
  end.

(** ** Reading a job *)

Fixpoint verify_loop (fault : nat -> bytes -> option string) (now : nat -> Z) (ms : Mirrors) (job : Job) (index : nat)
    (previous : bytes) (digests : list bytes) : result (list Segment) :=
  match digests with
  | [] => Ok []
  | expected :: digests =>
      let sequence := Z.of_nat (S index) in
      let! encoded := loadQuorum st (fault (S index)) ms (SegmentHandle (JobID (j_Header job)) sequence) in
      do! guard (negb (bytes_eqb (digest_of encoded) expected)) "sealed journal segment digest mismatch";
      let! s := open_segment encoded (j_Header job) sequence in
      do! guard (negb (Sequence s =? sequence) || negb (bytes_eqb (PreviousSHA256 s) previous))
            "sealed journal segment chain is discontinuous";
      let time := if negb (now index <? ExpiresAt (j_Header job)) then ExpiresAt (j_Header job) - 1 else now index in
      do! Segment_Validate s time;
      let! rest := verify_loop fault now ms job (S index) expected digests in
      Ok (s :: rest)
  end.

Definition VerifyJob (fault : nat -> bytes -> option string) (now : nat -> Z) (ms : Mirrors) (job : Job) : result (list Segment) :=
  do! guard (bool_decide (j_State job = StateUploading) || bool_decide (j_State job = StateCommitting))
        "journal is not a sealed reachability root";
  do! guard (Nat.eqb (length (SegmentSHA256 (j_Seal job))) 0 || negb (bool_decide (se_Header (j_Seal job) = j_Header job)))
        "journal seal header mismatch";
  verify_loop fault now ms job 0 [] (SegmentSHA256 (j_Seal job)).

End Objects.

End Journal.

(** ** Theory of mirrors *)

Module JournalTheory.
Import Journal.

Section Mirrors.
Context (st : Store).

(** The mirrors that hold the object hold these bytes. *)
Definition agree (ms : Mirrors) (handle encoded : bytes) : Prop :=
  Forall (fun x : bytes * Mirror => snd x !! handle = None \/ snd x !! handle = Some encoded) ms.

(** The second list of mirrors is the first one with the object on some of them. *)
Definition grown (handle encoded : bytes) (x y : bytes * Mirror) : Prop :=
  fst y = fst x /\ (snd y = snd x \/ snd x !! handle = None /\ snd y = <[handle := encoded]> (snd x)).

Definition storable (b : bytes) : Prop := 0 < zlen b <= MaxSegmentBytes.

Lemma loadObject_held m handle b : storable b -> m !! handle = Some b -> loadObject None m handle = Loaded b.
Proof.
  intros [P Q] E. unfold loadObject. rewrite E, (proj2 (orb_false_iff _ _)); [done|].
  split; [apply Z.leb_gt; lia | apply Z.ltb_ge]. change MaxSegmentBytes with 8388608 in *. lia.
Qed.

Lemma loadObject_some f m handle b : loadObject f m handle = Loaded b -> m !! handle = Some b.
Proof.
  unfold loadObject. destruct f; [done|]. destruct (m !! handle); [|done]. case_match; [done|]. by intros [= ->].
Qed.

Lemma loadObject_none f m handle : loadObject f m handle = NotExist -> m !! handle = None.
Proof. unfold loadObject. destruct f; [done|]. destruct (m !! handle); [|done]. by case_match. Qed.

Lemma Publish_grown env id m handle encoded :
  grown handle encoded (id, m) (id, fst (Publish env m handle encoded)).
Proof.
  unfold grown, Publish. cbn [fst snd]. split; [done|]. case_match; [by left|].
  destruct (loadObject _ _ _) eqn:E; [by left| |by left]. cbn [fst].
  destruct (e_written env); [right | by left]. split; [by eapply loadObject_none | done].
Qed.

Lemma publish_ok_held env m handle encoded : snd (Publish env m handle encoded) = Ok tt ->
  storable encoded /\ fst (Publish env m handle encoded) !! handle = Some encoded.
Proof.
  unfold Publish. destruct (bytes_eqb encoded [] || (MaxSegmentBytes <? zlen encoded)) eqn:G; [done|].
  apply orb_false_iff in G as [G1 G2]. apply bytes_eqb_neq in G1. apply Z.ltb_ge in G2. intros H. split.
  { split; [|done]. pose proof (zlen_nonneg encoded). destruct (decide (zlen encoded = 0)) as [Z0|]; [|lia].
    by apply zlen_zero in Z0. }
  destruct (loadObject (e_inspect env) m handle) eqn:E; cbn [snd fst] in *.
  - destruct (bytes_eqb b encoded) eqn:B; [|done]. apply bytes_eqb_eq in B as <-. by eapply loadObject_some.
  - apply rbind_ok in H as (_ & _ & H). apply guard_ok, negb_false_iff in H. unfold holds in H.
    destruct (loadObject (e_verify env) _ handle) eqn:V; [|done|done]. apply bytes_eqb_eq in H as ->.
    by eapply loadObject_some.
  - done.
Qed.

Lemma publish_loop_grown env handle encoded ms : forall t,
  Forall2 (grown handle encoded) ms (fst (publish_loop st env handle encoded ms t)).
Proof.
  induction ms as [|[id m] ms IH]; intros t; cbn [publish_loop]; [constructor|].
  pose proof (Publish_grown (env id) id m handle encoded) as G.
  destruct (Publish (env id) m handle encoded) as [m' r]. cbn [fst] in G.
  specialize (IH (if is_ok r then count_mirror st id t else t)).
  destruct (publish_loop _ _ _ _ _ _) as [ms' t']. by constructor.
Qed.

Lemma publish_fst env ms handle encoded :
  fst (publish st env ms handle encoded) = fst (publish_loop st env handle encoded ms no_tally).
Proof. unfold publish. by destruct (publish_loop _ _ _ _ _ _). Qed.

Lemma publish_grown env handle encoded ms : Forall2 (grown handle encoded) ms (fst (publish st env ms handle encoded)).
Proof. rewrite publish_fst. apply publish_loop_grown. Qed.

Lemma grown_agree handle encoded ms ms' : Forall2 (grown handle encoded) ms ms' ->
  agree ms handle encoded -> agree ms' handle encoded.
Proof.
  unfold agree. induction 1 as [|[i m] [j n] ms ms' [G1 G2] F IH]; [done|]. intros [A1 A2]%Forall_cons. constructor; [|auto].
  cbn [fst snd] in *. destruct G2 as [E|[_ E]]; rewrite E; [done | right; apply lookup_insert_eq].
Qed.

Lemma grown_other handle encoded handle' encoded' ms ms' : handle <> handle' ->
  Forall2 (grown handle encoded) ms ms' -> agree ms handle' encoded' -> agree ms' handle' encoded'.
Proof.
  unfold agree. intros N. induction 1 as [|[i m] [j n] ms ms' [G1 G2] F IH]; [done|].
  intros [A1 A2]%Forall_cons. constructor; [|auto].
  cbn [fst snd] in *. destruct G2 as [E|[_ E]]; rewrite E; [done | by rewrite lookup_insert_ne].
Qed.

(** *** Counting *)

Definition tally_le (a b : tally) : Prop :=
  successes a <= successes b /\ domains a ⊆ domains b /\ offsites a <= offsites b.

Lemma tally_le_count id a b : tally_le a b -> tally_le (count_mirror st id a) (count_mirror st id b).
Proof.
  intros (S & D & O). unfold tally_le, count_mirror. cbn [successes domains offsites].
  split; [lia|]. split; [set_solver|]. case_match; lia.
Qed.

Lemma tally_le_skip id a b : tally_le a b -> tally_le a (count_mirror st id b).
Proof.
  intros (S & D & O). unfold tally_le, count_mirror. cbn [successes domains offsites].
  split; [lia|]. split; [set_solver|]. case_match; lia.
Qed.

Lemma tally_le_satisfied p a b : tally_le a b -> unsatisfied p a = false -> unsatisfied p b = false.
Proof.
  intros (S & D & O). unfold unsatisfied. rewrite !orb_false_iff, !Z.ltb_ge.
  pose proof (subseteq_size _ _ D). lia.
Qed.

(** Reading after publishing counts at least the mirrors on which publishing succeeded. *)
Lemma quorum_after env handle encoded ms : agree ms handle encoded ->
  forall t u a, tally_le t u -> (a = None \/ a = Some encoded) ->
  let '(ms', t') := publish_loop st env handle encoded ms t in
  storable encoded ->
  exists u', quorum_loop st (fun _ => None) handle ms' a u = Ok (if decide (successes u < successes u') then Some encoded else a, u')
    /\ tally_le t' u' /\ successes u <= successes u'.
Proof.
  unfold agree. induction 1 as [|[id m] ms A F IH]; intros t u a L Ha; cbn [publish_loop].
  { intros _. exists u. cbn [quorum_loop]. rewrite decide_False by lia. done. }
  pose proof (Publish_grown (env id) id m handle encoded) as [_ G].
  pose proof (publish_ok_held (env id) m handle encoded) as H.
  destruct (Publish (env id) m handle encoded) as [m' r]. cbn [fst snd] in *.
  assert (A' : m' !! handle = None \/ m' !! handle = Some encoded).
  { destruct G as [E|[_ E]]; rewrite E; [done | right; apply lookup_insert_eq]. }
  specialize (IH (if is_ok r then count_mirror st id t else t)).
  destruct (publish_loop st env handle encoded ms _) as [ms' t'] eqn:P. intros S.
  cbn [quorum_loop]. destruct A' as [A'|A'].
  - assert (E : loadObject None m' handle = NotExist) by (unfold loadObject; by rewrite A'). rewrite E.
    assert (R : is_ok r = false). { destruct r as [[]|]; [|done]. destruct (H eq_refl) as [_ H']. congruence. }
    rewrite R in *. apply (IH u a L Ha S).
  - rewrite (loadObject_held m' handle encoded S A').
    assert (B : match a with None => false | Some x => negb (bytes_eqb x encoded) end = false)
      by (destruct Ha as [->| ->]; [done | by rewrite bytes_eqb_refl]).
    rewrite B. cbn [guard rbind].
    assert (D : Some (default encoded a) = Some encoded) by (destruct Ha as [->| ->]; done). rewrite D.
    destruct (IH (count_mirror st id u) (Some encoded)) as (u' & Q & T & Le).
    { destruct (is_ok r); [by apply tally_le_count | by apply tally_le_skip]. }
    { by right. } { done. }
    exists u'. rewrite Q. unfold count_mirror in Le. cbn [successes] in Le.
    rewrite (decide_True (P := successes u < successes u')) by lia. split; [by destruct (decide _)|]. split; [done|lia].
Qed.

(** *** Publishing and reading *)

Context (copies : 1 <= MinCopies (st_Policy st)).

Lemma publish_loop_refused env handle encoded ms : ~ storable encoded ->
  forall t, publish_loop st env handle encoded ms t = (ms, t).
Proof.
  intros N. assert (G : bytes_eqb encoded [] || (MaxSegmentBytes <? zlen encoded) = true).
  { destruct (bytes_eqb encoded []) eqn:E; [done|]. apply bytes_eqb_neq in E. cbn [orb]. apply Z.ltb_lt.
    destruct (decide (MaxSegmentBytes < zlen encoded)); [done|]. exfalso. apply N. split; [|lia].
    pose proof (zlen_nonneg encoded). destruct (decide (zlen encoded = 0)) as [Z0|]; [by apply zlen_zero in Z0 | lia]. }
  induction ms as [|[id m] ms IH]; intros t; cbn [publish_loop]; [done|].
  unfold Publish. rewrite G. cbn [is_ok]. by rewrite IH.
Qed.

(** An object that is empty or too large is refused. *)
Lemma publish_refused env ms handle encoded : ~ storable encoded ->
  exists e, publish st env ms handle encoded = (ms, Err e).
Proof.
  intros N. unfold publish. rewrite publish_loop_refused by done. eexists. f_equal. unfold guard, unsatisfied.
  cbn [no_tally successes]. by rewrite (proj2 (Z.ltb_lt 0 _)) by lia.
Qed.

Definition held (ms : Mirrors) (handle encoded : bytes) : Prop :=
  agree ms handle encoded /\ loadQuorum st (fun _ => None) ms handle = Ok encoded.

Lemma publish_held env ms handle encoded ms' : agree ms handle encoded ->
  publish st env ms handle encoded = (ms', Ok tt) -> held ms' handle encoded.
Proof.
  intros A P.
  assert (S : storable encoded).
  { destruct (decide (0 < zlen encoded <= MaxSegmentBytes)) as [S|S]; [done|].
    destruct (publish_refused env ms handle encoded S) as [e E]. congruence. }
  pose proof (publish_grown env handle encoded ms) as G. rewrite P in G. cbn [fst] in G.
  split; [by apply (grown_agree _ _ ms)|].
  pose proof (quorum_after env handle encoded ms A no_tally no_tally None) as Q.
  unfold publish in P. destruct (publish_loop st env handle encoded ms no_tally) as [ms1 t1].
  injection P as -> P. apply guard_ok in P.
  destruct Q as (u & Q & T & Le); [done|by left|done|].
  unfold loadQuorum. rewrite Q. cbn [rbind]. pose proof (tally_le_satisfied _ _ _ T P) as U. rewrite U. cbn [guard rbind].
  unfold unsatisfied in U. rewrite !orb_false_iff, !Z.ltb_ge in U.
  rewrite decide_True by (cbn [no_tally successes] in *; lia). done.
Qed.

Lemma quorum_loop_agree fault handle encoded ms : agree ms handle encoded -> forall a t r,
  (a = None /\ successes t = 0 \/ a = Some encoded) ->
  quorum_loop st fault handle ms a t = Ok r -> fst r = None /\ successes (snd r) = 0 \/ fst r = Some encoded.
Proof.
  unfold agree. induction 1 as [|[id m] ms A F IH]; intros a t r I E; cbn [quorum_loop] in E; [by injection E as <-|].
  destruct (loadObject (fault id) m handle) eqn:L; [|by apply (IH _ _ _ I E)..].
  apply rbind_ok in E as (_ & _ & E). apply (IH _ _ _) in E; [done|]. right.
  apply loadObject_some in L. cbn [snd] in A. destruct A as [A|A]; [congruence|].
  assert (b = encoded) as -> by congruence. by destruct I as [[-> _]| ->].
Qed.

(** Whatever errors there are, other bytes are never returned. *)
Lemma loadQuorum_agree fault ms handle encoded b : agree ms handle encoded ->
  loadQuorum st fault ms handle = Ok b -> b = encoded.
Proof.
  intros A E. unfold loadQuorum in E. apply rbind_ok in E as ([a t] & Q & E). apply rbind_ok in E as (u & G & E).
  injection E as <-. destruct u. apply guard_ok in G. unfold unsatisfied in G. rewrite !orb_false_iff, !Z.ltb_ge in G.
  apply (quorum_loop_agree _ _ _ _ A) in Q; [|by left]. cbn [fst snd] in Q. destruct Q as [[-> Z0]| ->]; [lia|done].
Qed.

Lemma quorum_loop_other fault handle encoded handle' ms ms' : handle <> handle' -> Forall2 (grown handle encoded) ms ms' ->
  forall a t, quorum_loop st fault handle' ms' a t = quorum_loop st fault handle' ms a t.
Proof.
  intros N. induction 1 as [|[i m] [j n] ms ms' [G1 G2] F IH]; intros a t; [done|].
  cbn [fst snd] in G1, G2. subst j. cbn [quorum_loop].
  assert (E : loadObject (fault i) n handle' = loadObject (fault i) m handle').
  { destruct G2 as [->|[_ ->]]; [done|]. unfold loadObject. by rewrite lookup_insert_ne. }
  rewrite E. destruct (loadObject (fault i) m handle'); [|apply IH..].
  destruct (guard _ _); [|done]. cbn [rbind]. apply IH.
Qed.

Lemma held_other env ms handle encoded handle' encoded' : handle <> handle' ->
  held ms handle' encoded' -> held (fst (publish st env ms handle encoded)) handle' encoded'.
Proof.
  intros N [A E]. pose proof (publish_grown env handle encoded ms) as G.
  split; [by apply (grown_other handle encoded handle' encoded' ms)|]. unfold loadQuorum in *.
  by rewrite (quorum_loop_other _ _ _ _ _ _ N G).
Qed.

End Mirrors.
(** ** Names *)

Lemma value_pad n : 0 <= n -> Duration.value (pad20 n) = n.
Proof.
  intros H. unfold pad20, Duration.Itoa. rewrite Z.abs_eq by done.
  assert (E : (n <? 0) = false) by (apply Z.ltb_ge; lia). rewrite E.
  change (Duration.digits (Z.to_nat (Z.log2 n)) n []) with (DurationTheory.natural n).
  rewrite DurationTheory.value_app, DurationTheory.natural_value by done.
  assert (Z0 : forall k, Duration.value (repeat x30 k) = 0).
  { induction k as [|k IH]; [done|]. change (repeat x30 (S k)) with ([x30] ++ repeat x30 k).
    rewrite DurationTheory.value_app, IH. done. }
  rewrite Z0. lia.
Qed.

Lemma SegmentHandle_inj job i k : 0 <= i -> 0 <= k -> SegmentHandle job i = SegmentHandle job k -> i = k.
Proof.
  intros I K E. apply app_inv_head in E. apply app_inv_head in E. by rewrite <- (value_pad i), <- (value_pad k), E.
Qed.

Lemma SegmentHandle_seal job i : SegmentHandle job i <> SealHandle job.
Proof. intros E. apply app_inv_head in E. discriminate E. Qed.

(** ** Envelopes *)

(** An object that can be opened as it was sealed is the object as JSON gives it back. *)
Lemma open_seal {codec : JournalCodec} {laws : JournalLaws codec} o key h seq random b o' :
  sealObject o key h (kind_of o) seq random = Ok b -> openObject b key h (kind_of o) seq = Ok o' ->
  o' = normal o /\ Json.text (RepositoryID h) = RepositoryID h /\ Json.text (JobID h) = JobID h.
Proof.
  unfold sealObject, openObject. intros Se Op. apply rbind_ok in Se as (plain & M & Se). apply rbind_ok in Se as (aead & K & Se).
  apply rbind_ok in Se as ([] & N & Se). apply guard_ok, Z.ltb_ge in N. cbn [o_Format o_RepositoryID o_JobID o_Kind o_Sequence] in Se.
  rewrite (decode_envelope _ _ Se), K in Op. apply rbind_ok in Op as ([] & G & Op). apply guard_ok in G. split_bools.
  unfold normal_envelope in *. cbn [o_Format o_RepositoryID o_JobID o_Kind o_Sequence Nonce Ciphertext] in *.
  repeat match goal with H : bytes_eqb _ _ = true |- _ => apply bytes_eqb_eq in H end. split; [|done]. cbn [rbind] in Op.
  unfold objectAAD in Op. cbn [o_RepositoryID o_JobID o_Kind o_Sequence] in Op.
  repeat match goal with H : Json.text _ = _ |- _ => rewrite H in Op; clear H end. rewrite gcm_Open_Seal in Op.
  - cbn [rbind] in Op. rewrite (decode_Marshal _ _ M) in Op. by injection Op as <-.
  - unfold zlen in *. rewrite length_take. change NonceSize with 12 in *. lia.
Qed.

(** The object of a segment is a third larger than its JSON. *)
Lemma seal_length {codec : JournalCodec} {laws : JournalLaws codec} s key h kind seq random b n :
  sealObject (OSegment s) key h kind seq random = Ok b -> segment_size s = Some n -> 4 * ((n + 16 + 2) / 3) <= zlen b.
Proof.
  unfold sealObject, segment_size. intros Se Sz. apply rbind_ok in Se as (plain & M & Se). rewrite M in Sz. injection Sz as <-.
  apply rbind_ok in Se as (aead & _ & Se). apply rbind_ok in Se as ([] & _ & Se). apply envelope_length in Se.
  cbn [Ciphertext] in Se. by rewrite gcm_length in Se.
Qed.

(** ** Splitting a job into segments *)

Section Jobs.
Context {codec : JournalCodec} {laws : JournalLaws codec} (st : Store) (copies : 1 <= MinCopies (st_Policy st)).

Definition numbered (h : Header) (segments : list Segment) : Prop :=
  forall i s, segments !! i = Some s -> s_Header s = h /\ Sequence s = Z.of_nat i + 1.

Lemma numbered_snoc h segments s : numbered h segments -> s_Header s = h -> Sequence s = zlen segments + 1 ->
  numbered h (segments ++ [s]).
Proof.
  intros N H S i x E. destruct (decide (i < length segments)%nat) as [L|L].
  - rewrite lookup_app_l in E by done. by apply N.
  - rewrite lookup_app_r in E by lia. apply list_lookup_singleton_Some in E as [Z0 <-].
    split; [done|]. rewrite S. unfold zlen. lia.
Qed.

Section Fill.
Context {A B : Type} (add : A -> Segment -> Segment) (get : Segment -> list A) (other : Segment -> list B).
Context (get_add : forall x s, get (add x s) = get s ++ [x]) (other_add : forall x s, other (add x s) = other s).
Context (head_add : forall x s, s_Header (add x s) = s_Header s /\ Sequence (add x s) = Sequence s).
Context (get_empty : forall h n, get (empty_segment h n) = []) (other_empty : forall h n, other (empty_segment h n) = []).

Definition filling (h : Header) (segments : list Segment) (current : Segment) : Prop :=
  numbered h segments /\ s_Header current = h /\ Sequence current = zlen segments + 1.

Lemma fill_spec e h items : forall segments current segments' current',
  filling h segments current -> fill add e h items segments current = Ok (segments', current') ->
  filling h segments' current' /\
  concat (map get segments') ++ get current' = concat (map get segments) ++ get current ++ items /\
  concat (map other segments') ++ other current' = concat (map other segments) ++ other current.
Proof.
  induction items as [|x items IH]; intros segments current segments' current' F E; cbn [fill] in E.
  { injection E as <- <-. by rewrite app_nil_r. }
  destruct F as (N & H & S). destruct (head_add x current) as [H1 S1].
  destruct (fits (add x current)).
  - apply IH in E as (F' & G & O); [|split; [done | split; congruence]]. split; [done|].
    rewrite G, O, get_add, other_add, <- (app_assoc (get current)). done.
  - unfold flush in E. destruct (_ && _); [done|]. cbn [guard rbind] in E.
    destruct (fits _); [|done]. destruct (head_add x (empty_segment h (zlen (segments ++ [current]) + 1))) as [H2 S2].
    apply IH in E as (F' & G & O).
    + split; [done|]. rewrite G, O, get_add, other_add, get_empty, other_empty, !map_app, !concat_app. cbn [map concat app].
      rewrite !app_nil_r, <- !app_assoc. done.
    + split; [by apply numbered_snoc|]. split; [by rewrite H2 | by rewrite S2].
Qed.

End Fill.

Lemma split_job_spec h packs records segments : split_job h packs records = Ok segments ->
  numbered h segments /\ concat (map Packs segments) = packs /\ concat (map Records segments) = records /\ segments <> [].
Proof.
  unfold split_job. intros E. apply rbind_ok in E as ([s1 c1] & E1 & E). apply rbind_ok in E as ([s2 c2] & E2 & E).
  apply rbind_ok in E as ([s3 c3] & E3 & E). injection E as <-.
  apply (fill_spec with_pack Packs Records) in E1 as (F1 & P1 & R1); try done.
  apply (fill_spec with_record Records Packs) in E2 as (F2 & R2 & P2); try done.
  cbn in P1, R1. rewrite P1 in P2. rewrite app_assoc, R1 in R2. cbn [app] in R2.
  unfold flush in E3. destruct (_ && _); [done|]. cbn [guard rbind] in E3. injection E3 as <- <-.
  destruct F2 as (N & H & S). split; [by apply numbered_snoc|]. rewrite !map_app, !concat_app. cbn [map concat].
  rewrite !app_nil_r. split; [done|]. split; [done|]. by destruct s2.
Qed.

(** ** Publishing the segments *)

(** Each object is a segment with the digest of the one before it. *)
Inductive chain : bytes -> list Segment -> list bytes -> Prop :=
| chain_nil previous : chain previous [] []
| chain_cons previous s segments e encs now nonce :
    Segment_Validate st (with_previous previous s) now = Ok tt ->
    seal_for st (OSegment (with_previous previous s)) (s_Header s) (Sequence s) nonce = Ok e ->
    chain (digest_of e) segments encs -> chain previous (s :: segments) (e :: encs).

Definition absent (ms : Mirrors) (handle : bytes) : Prop :=
  Forall (fun x : bytes * Mirror => snd x !! handle = None) ms.

Lemma absent_agree ms handle e : absent ms handle -> agree ms handle e.
Proof. intros F. eapply Forall_impl; [exact F|]. intros x X. by left. Qed.

Lemma absent_other env ms handle encoded handle' : handle <> handle' ->
  absent ms handle' -> absent (fst (publish st env ms handle encoded)) handle'.
Proof.
  intros N. pose proof (publish_grown st env handle encoded ms) as G. unfold absent.
  induction G as [|[i m] [j n] ms1 ms2 [_ G] F IH]; [done|]. intros [A1 A2]%Forall_cons. constructor; [|auto].
  cbn [snd] in *. destruct G as [->|[_ ->]]; [done|]. by rewrite lookup_insert_ne.
Qed.

Lemma PublishSegment_held env now nonce ms s ms' digest :
  absent ms (SegmentHandle (JobID (s_Header s)) (Sequence s)) ->
  PublishSegment st env now nonce ms s = (ms', Ok digest) ->
  exists e, Segment_Validate st s now = Ok tt /\ seal_for st (OSegment s) (s_Header s) (Sequence s) nonce = Ok e
    /\ digest = digest_of e /\ ms' = fst (publish st env ms (SegmentHandle (JobID (s_Header s)) (Sequence s)) e)
    /\ held st ms' (SegmentHandle (JobID (s_Header s)) (Sequence s)) e.
Proof.
  intros A. unfold PublishSegment, SealSegment. destruct (Segment_Validate st s now) as [[]|] eqn:V; [|done]. cbn [rbind].
  destruct (seal_for _ _ _ _ _) as [e|] eqn:E; [|done]. cbn [rbind].
  destruct (publish st env ms _ e) as [ms1 r] eqn:P. intros [= <- R].
  apply rbind_ok in R as ([] & -> & [= <-]). exists e. split_and!; [done|done|done|by rewrite P|].
  apply (publish_held st copies env ms); [by apply absent_agree | done].
Qed.

(** The segments from [base] on are published; other objects stay as they are. *)
Lemma publish_segments_spec env h segments : forall call base previous ms ms',
  (forall i s, segments !! i = Some s -> s_Header s = h /\ Sequence s = base + Z.of_nat i) -> 0 <= base ->
  (forall i, base <= i -> absent ms (SegmentHandle (JobID h) i)) ->
  publish_segments st env call previous ms segments = (ms', Ok tt) ->
  exists encs, chain previous segments encs
    /\ (forall i e, encs !! i = Some e -> held st ms' (SegmentHandle (JobID h) (base + Z.of_nat i)) e)
    /\ (forall i e, 0 <= i < base -> held st ms (SegmentHandle (JobID h) i) e -> held st ms' (SegmentHandle (JobID h) i) e)
    /\ (forall handle, (forall i, handle <> SegmentHandle (JobID h) i) -> absent ms handle -> absent ms' handle).
Proof.
  induction segments as [|s segments IH]; intros call base previous ms ms' N B A E; cbn [publish_segments] in E.
  { injection E as <-. exists []. split_and!; [constructor | by intros i e | done | done]. }
  destruct (N 0%nat s eq_refl) as [H Sq]. rewrite Z.add_0_r in Sq.
  destruct (PublishSegment _ _ _ _ _ _) as [ms1 r] eqn:P. destruct r as [digest|]; [|done].
  apply PublishSegment_held in P as (e & V & Se & -> & M & Hd); [|cbn; rewrite H, Sq; by apply A].
  cbn [with_previous s_Header Sequence] in *. rewrite H, Sq in M, Hd.
  assert (Ne : forall i, 0 <= i -> i <> base -> SegmentHandle (JobID h) base <> SegmentHandle (JobID h) i)
    by (intros i I Nb F; apply SegmentHandle_inj in F; lia).
  apply (IH _ (base + 1)) in E as (encs & C & He & Ho & Hs).
  - exists (e :: encs). split; [by econstructor; [exact V|exact Se|]|]. split_and!.
    + intros [|i] x X; [injection X as <-; rewrite Z.add_0_r; apply Ho; [lia|done]|].
      replace (base + Z.of_nat (S i)) with (base + 1 + Z.of_nat i) by lia. by apply He.
    + intros i x I X. apply Ho; [lia|]. rewrite M. apply held_other; [apply Ne; lia | done].
    + intros handle Nh X. apply Hs; [done|]. rewrite M. apply absent_other; [by apply not_eq_sym | done].
  - intros i x X. destruct (N (S i) x X) as [? ->]. split; [done|lia].
  - lia.
  - intros i I. rewrite M. apply absent_other; [apply Ne; lia | apply A; lia].
Qed.

(** ** Reading the segments *)

Lemma load_segments_spec fault ms job encs : forall base bs,
  (forall i e, encs !! i = Some e -> agree ms (SegmentHandle job (Z.of_nat (base + i))) e) ->
  load_segments st fault ms job (seq base (length encs)) = Ok bs -> bs = encs.
Proof.
  induction encs as [|e encs IH]; intros base bs A E; cbn [length seq load_segments] in E; [by injection E as <-|].
  apply rbind_ok in E as (x & X & E). apply rbind_ok in E as (rest & R & E). injection E as <-.
  assert (A0 := A 0%nat e eq_refl). rewrite Nat.add_0_r in A0. f_equal; [by apply (loadQuorum_agree st copies _ _ _ _ _ A0 X)|].
  apply (IH (S base)); [|done]. intros i y Y. replace (S base + i)%nat with (base + S i)%nat by lia. by apply A.
Qed.

(** What the objects of a chain are opened as. *)
Inductive opened (h : Header) (now : Z) : Z -> bytes -> list bytes -> list Segment -> Prop :=
| opened_nil index previous : opened h now index previous [] []
| opened_cons index previous e encs s out :
    open_segment st e h (index + 1) = Ok s -> Sequence s = index + 1 -> PreviousSHA256 s = previous ->
    Segment_Validate st s now = Ok tt -> opened h now (index + 1) (digest_of e) encs out ->
    opened h now index previous (e :: encs) (s :: out).

Lemma seal_loop_spec h now segments : forall index previous seal seal',
  seal_loop st h now index previous seal segments = Ok seal' ->
  se_Header seal' = se_Header seal /\ se_State seal' = se_State seal
  /\ SegmentSHA256 seal' = SegmentSHA256 seal ++ map digest_of segments
  /\ exists out, opened h now index previous segments out.
Proof.
  induction segments as [|e segments IH]; intros index previous seal seal' E; cbn [seal_loop] in E.
  { injection E as <-. rewrite app_nil_r. split_and!; try done. eexists. constructor. }
  apply rbind_ok in E as (s & O & E). apply rbind_ok in E as ([] & G & E). apply rbind_ok in E as ([] & V & E).
  apply guard_ok in G. apply IH in E as (H & S & D & out & R). split_bools. cbn [se_Header se_State SegmentSHA256] in *.
  split_and!; [done|done|by rewrite D, <- app_assoc|]. exists (s :: out). by constructor.
Qed.

Lemma open_segment_sealed s h seq nonce e s' : seal_for st (OSegment s) h seq nonce = Ok e -> open_segment st e h seq = Ok s' ->
  s' = normal_Segment s.
Proof.
  unfold seal_for, open_segment, open_for. intros Se Op. apply rbind_ok in Op as (o & Op & E).
  destruct (open_seal _ _ _ _ _ _ _ Se Op) as [-> _]. cbn [normal] in E. by injection E as <-.
Qed.

(** The facts of a chain as they are read. *)
Lemma chain_opened h now segments : forall index previous encs out,
  (forall i s, segments !! i = Some s -> s_Header s = h /\ Sequence s = index + Z.of_nat i + 1) ->
  chain previous segments encs -> opened h now index previous encs out ->
  concat (map Packs out) = map normal_Pack (concat (map Packs segments))
  /\ concat (map Records out) = map normal_Record (concat (map Records segments))
  /\ Forall (fun s => ExpiresAt (s_Header s) = ExpiresAt h) out.
Proof.
  induction segments as [|s segments IH]; intros index previous encs out N C O.
  { inversion C; subst. inversion O; subst. done. }
  inversion C as [|? ? ? e es now0 nonce V Se C' E1 E2 E3]; subst. inversion O as [|? ? ? ? x out' Op _ _ _ O']; subst.
  destruct (N 0%nat s eq_refl) as [H Sq]. rewrite Z.add_0_r in Sq. rewrite H, Sq in Se.
  apply (open_segment_sealed _ _ _ _ _ _ Se) in Op as ->.
  destruct (IH (index + 1) (digest_of e) es out') as (P & R & F); [|done|done|].
  - intros i y Y. destruct (N (S i) y Y) as [? ->]. split; [done|lia].
  - cbn [map concat]. rewrite P, R, !map_app. split; [done|]. split; [done|]. constructor; [cbn; by rewrite H|done].
Qed.

(** A segment that was valid once is valid at any time before its expiry. *)
Lemma Segment_Validate_time s now now' : Segment_Validate st s now = Ok tt -> now' <= ExpiresAt (s_Header s) ->
  Segment_Validate st s now' = Ok tt.
Proof.
  intros V L. unfold Segment_Validate in *. apply rbind_ok in V as ([] & H & V).
  assert (H' : Header_Validate (s_Header s) now' = Ok tt).
  { unfold Header_Validate in *. apply rbind_ok in H as ([] & H1 & H). apply rbind_ok in H as ([] & _ & H).
    rewrite H1. cbn [rbind]. rewrite (proj2 (guard_ok (ExpiresAt (s_Header s) <? now') _)); [done|]. apply Z.ltb_ge. lia. }
  rewrite H'. exact V.
Qed.

(** The header of a job names the context of its objects. *)
Definition same_context (h h' : Header) : Prop :=
  RepositoryID h' = RepositoryID h /\ JobID h' = JobID h /\ ExpiresAt h' = ExpiresAt h.

Lemma openObject_context e key h h' kind seq : RepositoryID h' = RepositoryID h -> JobID h' = JobID h ->
  openObject e key h' kind seq = openObject e key h kind seq.
Proof. intros R J. unfold openObject, journalAEAD. by rewrite R, J. Qed.

Lemma open_segment_context e h h' seq : same_context h h' -> open_segment st e h' seq = open_segment st e h seq.
Proof. intros (R & J & _). unfold open_segment, open_for. by rewrite (openObject_context e (Key st) h h'). Qed.

Lemma verify_loop_spec now time ms job h : same_context h (j_Header job) -> forall encs index previous out,
  opened h time (Z.of_nat index) previous encs out -> Forall (fun s => ExpiresAt (s_Header s) = ExpiresAt h) out ->
  (forall i e, encs !! i = Some e -> held st ms (SegmentHandle (JobID h) (Z.of_nat (index + i) + 1)) e) ->
  verify_loop st (fun _ _ => None) now ms job index previous (map digest_of encs) = Ok out.
Proof.
  intros Co encs. induction encs as [|e encs IH]; intros index previous out O F He; [by inversion O|].
  inversion O as [|? ? ? ? s out' Op Sq Pr V O']; subst. apply Forall_cons in F as [Fs F]. cbn [map verify_loop].
  replace (Z.of_nat (S index)) with (Z.of_nat index + 1) by lia. destruct Co as (CR & CJ & CE). rewrite CJ.
  destruct (He 0%nat e eq_refl) as [_ L]. rewrite Nat.add_0_r in L. rewrite L. cbn [rbind].
  rewrite bytes_eqb_refl. cbn [negb guard rbind]. rewrite (open_segment_context _ h) by done. rewrite Op. cbn [rbind].
  rewrite Sq, Z.eqb_refl, bytes_eqb_refl. cbn [negb orb guard rbind]. rewrite (Segment_Validate_time _ time _ V).
  2:{ rewrite Fs, CE. destruct (now index <? ExpiresAt h) eqn:T; cbn [negb]; [apply Z.ltb_lt in T|]; lia. }
  cbn [rbind]. rewrite (IH (S index) (digest_of e) out'); [done| |done|].
  - by replace (Z.of_nat (S index)) with (Z.of_nat index + 1) by lia.
  - intros i x X. replace (Z.of_nat (S index + i) + 1) with (Z.of_nat (index + S i) + 1) by lia. by apply He.
Qed.

Lemma chain_length previous segments encs : chain previous segments encs -> length encs = length segments.
Proof. induction 1; cbn; congruence. Qed.

(** ** A published job *)

(** What a successful publication leaves: the chain of segments and the seal with their
    digests, and no other object of the job. *)
Lemma PublishJob_stored env ms h packs records ms' seal digest n :
  (forall handle, has_prefix (JobID h) handle = true -> absent ms handle) ->
  PublishJob st env ms h packs records = (ms', Ok (seal, digest, n)) ->
  exists time encs out, opened h time 0 [] encs out /\ Forall (fun s => ExpiresAt (s_Header s) = ExpiresAt h) out
    /\ concat (map Packs out) = map normal_Pack packs /\ concat (map Records out) = map normal_Record records
    /\ (forall i e, encs !! i = Some e -> held st ms' (SegmentHandle (JobID h) (Z.of_nat i + 1)) e)
    /\ SegmentSHA256 seal = map digest_of encs /\ se_Header seal = h /\ se_State seal = StateSealedPending
    /\ encs <> [] /\ (exists now, Header_Validate h now = Ok tt)
    /\ (exists enc nonce, seal_for st (OSeal seal) h 0 nonce = Ok enc /\ held st ms' (SealHandle (JobID h)) enc)
    /\ (forall handle, has_prefix (JobID h) handle = true -> (forall i, handle <> SegmentHandle (JobID h) i) ->
         handle <> SealHandle (JobID h) -> absent ms' handle).
Proof.
  intros A E. unfold PublishJob in E. destruct (split_job h packs records) as [segs|] eqn:Sp; [|done].
  apply split_job_spec in Sp as (N & P & R & Ne).
  destruct (publish_segments st env 0 [] ms segs) as [ms1 r] eqn:Pu. destruct r as [[]|]; [|done].
  assert (Pre : forall x, has_prefix (JobID h) (JobID h ++ x) = true) by (intros x; apply has_prefix_spec; by eexists).
  apply (publish_segments_spec env h segs) with (base := 1) in Pu as (encs & Ch & He & _ & Hs);
    [|intros i s X; destruct (N i s X) as [? ->]; split; [done|lia] | lia | intros i _; apply A, Pre].
  unfold PublishSeal in E. rewrite (proj2 (Nat.eqb_neq _ _)) in E by (by destruct segs).
  rewrite <- (chain_length _ _ _ Ch) in E.
  destruct (load_segments _ _ _ _ _) as [bs|] eqn:L; [|done]. cbn [rbind] in E. apply load_segments_spec in L as ->.
  2:{ intros i e X. replace (Z.of_nat (1 + i)) with (1 + Z.of_nat i) by lia. apply (He i e X). }
  destruct (SealSegments _ _ _ _ _) as [[[enc seal0] d0]|] eqn:Se; [|done].
  destruct (publish st _ ms1 (SealHandle (JobID h)) enc) as [ms2 r2] eqn:P2. injection E as <- E.
  apply rbind_ok in E as ([s3 d3] & E3 & [= -> -> _]). apply rbind_ok in E3 as ([] & -> & [= -> ->]).
  unfold SealSegments in Se. apply rbind_ok in Se as ([] & Hv & Se). apply rbind_ok in Se as (seal1 & Lp & Se).
  apply rbind_ok in Se as ([] & G & Se). apply rbind_ok in Se as (enc1 & Sl & Se). injection Se as -> -> _.
  apply seal_loop_spec in Lp as (H1 & St & D & out & O). cbn [se_Header se_State SegmentSHA256 app] in H1, St, D. apply guard_ok in G.
  assert (Nseal : forall i, SealHandle (JobID h) <> SegmentHandle (JobID h) i) by (intros i; apply not_eq_sym, SegmentHandle_seal).
  destruct (chain_opened h (e_now env (length encs)) segs 0 [] encs out) as (Po & Ro & Fo);
    [intros i s X; destruct (N i s X) as [? ->]; split; [done|lia]|done|done|]. rewrite P, R in *.
  exists (e_now env (length encs)), encs, out. split_and!; try done.
  - intros i e X. replace (Z.of_nat i + 1) with (1 + Z.of_nat i) by lia.
    pose proof (held_other st (e_publish env (length encs)) ms1 (SealHandle (JobID h)) enc _ e (Nseal _) (He i e X)) as Ho.
    by rewrite P2 in Ho.
  - intros ->. by rewrite D in G.
  - by eexists.
  - exists enc, (e_nonce env (length encs)). split; [done|]. eapply publish_held; [done| |exact P2].
    apply absent_agree, Hs; [done | apply A, Pre].
  - intros handle Ph Ni Ns. pose proof (absent_other (e_publish env (length encs)) ms1 (SealHandle (JobID h)) enc handle
      (not_eq_sym Ns) (Hs handle Ni (A handle Ph))) as Ho. by rewrite P2 in Ho.
Qed.

Lemma VerifyJob_stored now time ms job h encs out :
  same_context h (j_Header job) -> se_Header (j_Seal job) = j_Header job -> j_State job <> StateUploading -> j_State job <> StateCommitting ->
  opened h time 0 [] encs out -> Forall (fun s => ExpiresAt (s_Header s) = ExpiresAt h) out -> encs <> [] ->
  (forall i e, encs !! i = Some e -> held st ms (SegmentHandle (JobID h) (Z.of_nat i + 1)) e) ->
  SegmentSHA256 (j_Seal job) = map digest_of encs -> VerifyJob st (fun _ _ => None) now ms job = Ok out.
Proof.
  intros Co Sh S1 S2 O F Ne He D. unfold VerifyJob. rewrite !bool_decide_false by done. cbn [orb guard rbind].
  rewrite D, Sh, bool_decide_true by done. destruct encs as [|e0 encs]; [done|]. set (es := e0 :: encs) in *.
  change (Nat.eqb (length (map digest_of es)) 0) with false. cbn [orb negb guard rbind].
  apply (verify_loop_spec now time ms job h); [done|done|done|]. by intros i e X; apply He.
Qed.

End Jobs.
End JournalTheory.

(** ** Properties *)

Module JournalProps.
Import Journal JournalTheory.

(** A mirror that works. *)
Definition healthy : mirrorEnv :=
  {| e_inspect := None; e_save := None; e_written := true; e_reload := None; e_verify := None |}.

Lemma storable_guard e : storable e -> bytes_eqb e [] || (MaxSegmentBytes <? zlen e) = false.
Proof.
  intros [P Q]. apply orb_false_iff. split; [|by apply Z.ltb_ge]. apply bytes_eqb_neq. by intros ->.
Qed.

Lemma Publish_new m handle e : storable e -> m !! handle = None ->
  Publish healthy m handle e = (<[handle := e]> m, Ok tt).
Proof.
  intros S N. unfold Publish. rewrite (storable_guard e S).
  assert (E : loadObject (e_inspect healthy) m handle = NotExist) by (unfold loadObject; cbn; by rewrite N).
  rewrite E. cbn [healthy e_written e_save e_verify rbind]. unfold holds.
  rewrite (loadObject_held _ _ e S (lookup_insert_eq m handle e)), bytes_eqb_refl. done.
Qed.

Lemma Publish_same m handle e : storable e -> m !! handle = Some e -> Publish healthy m handle e = (m, Ok tt).
Proof.
  intros S N. unfold Publish. rewrite (storable_guard e S). change (e_inspect healthy) with (@None string).
  by rewrite (loadObject_held _ _ e S N), bytes_eqb_refl.
Qed.

Lemma Publish_conflict m handle e e' : storable e -> m !! handle = Some e -> e <> e' ->
  exists z, Publish healthy m handle e' = (m, Err z).
Proof.
  intros S N Ne. unfold Publish. case_match; [by eexists|]. change (e_inspect healthy) with (@None string).
  rewrite (loadObject_held _ _ e S N), (proj2 (bytes_eqb_neq e e') Ne). by eexists.
Qed.

Lemma Publish_down env m handle e : e_inspect env <> None -> exists z, Publish env m handle e = (m, Err z).
Proof. intros D. unfold Publish, loadObject. case_match; [by eexists|]. destruct (e_inspect env); [by eexists|done]. Qed.

Lemma no_copy st t msg : 1 <= MinCopies (st_Policy st) -> successes t = 0 ->
  guard (unsatisfied (st_Policy st) t) msg = Err msg.
Proof. intros C Z0. unfold unsatisfied. by rewrite Z0, (proj2 (Z.ltb_lt 0 _)) by lia. Qed.

Lemma one_copy st id msg : MinCopies (st_Policy st) = 2 ->
  guard (unsatisfied (st_Policy st) (count_mirror st id no_tally)) msg = Err msg.
Proof. intros C. unfold unsatisfied. cbn [count_mirror successes no_tally]. by rewrite C. Qed.

Section Props.
Context {codec : JournalCodec} {laws : JournalLaws codec} (st : Store).

(** C12. A job is read back as it was published. When [PublishJob] succeeds, for a policy of
    at least one copy, with mirrors that fail now and then and no object there before whose
    name begins with the identifier of the job, then the segments that [VerifyJob]
    authenticates later, when the mirrors answer, hold the packs and the records that were
    given, in order and as JSON gives them back (the bytes of a string that are no UTF-8
    replaced, the payload of a record compacted and escaped); also after the journal has
    expired. *)
Theorem PublishJob_read_back env ms h packs records ms' seal digest n now job :
  1 <= MinCopies (st_Policy st) ->
  (forall handle, has_prefix (JobID h) handle = true -> absent ms handle) ->
  PublishJob st env ms h packs records = (ms', Ok (seal, digest, n)) ->
  j_Header job = h -> j_Seal job = seal -> j_State job <> StateUploading -> j_State job <> StateCommitting ->
  exists segments, VerifyJob st (fun _ _ => None) now ms' job = Ok segments
    /\ concat (map Packs segments) = map normal_Pack packs /\ concat (map Records segments) = map normal_Record records.
Proof.
  intros C A E Jh Js S1 S2.
  destruct (PublishJob_stored st C _ _ _ _ _ _ _ _ _ A E) as (time & encs & out & O & F & P & R & He & D & H & _ & Ne & _).
  exists out. split; [|done]. apply (VerifyJob_stored st now time ms' job h encs out); try congruence; try done. by rewrite Jh.
Qed.

(** C36. A segment of more than six megabytes is split off but never published: the limit of
    eight megabytes holds for its JSON when the job is split, and again for the encrypted
    object in base64, which is a third larger. [PublishJob] fails for every job that has such
    a segment, whatever the mirrors do, for a policy of at least one copy. *)
Theorem PublishJob_too_large env ms h packs records segments s :
  1 <= MinCopies (st_Policy st) -> split_job h packs records = Ok segments -> s ∈ segments ->
  (forall previous, exists n, segment_size (with_previous previous s) = Some n /\ 6291441 <= n) ->
  is_ok (snd (PublishJob st env ms h packs records)) = false.
Proof.
  intros C Sp S Big. unfold PublishJob. rewrite Sp.
  assert (F : is_ok (snd (publish_segments st env 0 [] ms segments)) = false).
  { clear Sp. generalize 0%nat (@nil byte) ms. induction segments as [|x segments IH]; intros call previous ms0; [by inversion S|].
    cbn [publish_segments]. destruct (PublishSegment _ _ _ _ _ _) as [ms1 r] eqn:P. destruct r as [digest|]; [|done].
    apply elem_of_cons in S as [->|S]; [|by apply IH]. exfalso.
    unfold PublishSegment, SealSegment in P. destruct (Segment_Validate _ _ _); [|done]. cbn [rbind] in P.
    destruct (seal_for _ _ _ _ _) as [e|] eqn:E; [|done]. cbn [rbind] in P.
    destruct (Big previous) as (n & Sz & Ln). unfold seal_for in E. pose proof (seal_length _ _ _ _ _ _ _ _ E Sz) as Le.
    destruct (publish_refused st C (e_publish env call) ms0
      (SegmentHandle (JobID (s_Header (with_previous previous x))) (Sequence (with_previous previous x))) e) as [m R].
    { unfold storable. change MaxSegmentBytes with 8388608. Z.div_mod_to_equations. lia. }
    rewrite R in P. done. }
  destruct (publish_segments st env 0 [] ms segments) as [ms1 r]. by destruct r.
Qed.

(** C35. A publication that reached only some of the mirrors cannot be completed. Its retry
    encrypts the object anew, with another nonce, so that it conflicts with the first copy:
    with two mirrors of which two copies are required, the retry fails although all mirrors
    work, every later retry fails, and reading the object fails because the mirrors differ. *)
Theorem publish_retry_splits a b ma mb handle e1 e2 down :
  MinCopies (st_Policy st) = 2 -> storable e1 -> storable e2 -> e1 <> e2 ->
  ma !! handle = None -> mb !! handle = None -> e_inspect (down b) <> None -> down a = healthy ->
  exists ms1 ms2 x y,
    publish st down [(a, ma); (b, mb)] handle e1 = (ms1, Err x) /\
    publish st (fun _ => healthy) ms1 handle e2 = (ms2, Err y) /\
    is_ok (loadQuorum st (fun _ => None) ms2 handle) = false /\
    forall e3, exists z, publish st (fun _ => healthy) ms2 handle e3 = (ms2, Err z).
Proof.
  intros Two S1 S2 Ne Ha Hb Db Da.
  pose proof (lookup_insert_eq ma handle e1) as Ia. pose proof (lookup_insert_eq mb handle e2) as Ib.
  destruct (Publish_down (down b) mb handle e1 Db) as [x X].
  destruct (Publish_conflict _ handle e1 e2 S1 Ia Ne) as [y Y].
  exists [(a, <[handle := e1]> ma); (b, mb)], [(a, <[handle := e1]> ma); (b, <[handle := e2]> mb)].
  do 2 eexists. split_and!.
  - unfold publish. cbn [publish_loop]. rewrite Da, Publish_new, X by done. cbn [is_ok].
    by rewrite one_copy by done.
  - unfold publish. cbn [publish_loop]. rewrite Y, Publish_new by done. cbn [is_ok]. by rewrite one_copy by done.
  - unfold loadQuorum. cbn [quorum_loop]. rewrite (loadObject_held _ _ _ S1 Ia). cbn [guard rbind default].
    rewrite (loadObject_held _ _ _ S2 Ib). by rewrite (proj2 (bytes_eqb_neq e1 e2) Ne).
  - intros e3. unfold publish. cbn [publish_loop].
    destruct (decide (e1 = e3)) as [<-|N1].
    + destruct (Publish_conflict _ handle e2 e1 S2 Ib (not_eq_sym Ne)) as [z Z0]. rewrite Z0, (Publish_same _ _ _ S1 Ia).
      cbn [is_ok]. rewrite one_copy by done. by eexists.
    + destruct (Publish_conflict _ handle e1 e3 S1 Ia N1) as [z Z0]. rewrite Z0. cbn [is_ok].
      pose proof (Publish_grown healthy b (<[handle := e2]> mb) handle e3) as [_ G]. cbn [fst snd] in G.
      destruct G as [G|[G _]]; [|congruence].
      destruct (Publish healthy (<[handle := e2]> mb) handle e3) as [m r]. cbn [fst] in G. subst m.
      destruct (is_ok r); [rewrite one_copy by done | rewrite no_copy by (done || lia)]; by eexists.
Qed.

End Props.
(** ** Witnesses *)

#[local] Instance Placement_eq : EqDecision Placement.
Proof. solve_decision. Defined.
#[local] Instance Pack_eq : EqDecision Pack.
Proof. solve_decision. Defined.
#[local] Instance JRecord_eq : EqDecision JRecord.
Proof. solve_decision. Defined.
#[local] Instance Segment_eq : EqDecision Segment.
Proof. solve_decision. Defined.
#[local] Instance Seal_eq : EqDecision Seal.
Proof. solve_decision. Defined.

#[local] Instance encryptedObject_eq : EqDecision encryptedObject.
Proof. solve_decision. Defined.

Definition toy_id : bytes := repeat x61 64.
Definition toy_header : Header := {|
  h_Format := 1; RepositoryID := str "repo"; JobID := str "job"; IdempotencyKey := str "key";
  CreatedAt := 1000; ExpiresAt := 2000; CapsuleGeneration := 1; RepositoryKeyVersion := 1;
  ChunkerVersion := []; CompressionVersion := []; PlacementPolicyVersion := 1;
  SourceIdentitySHA256 := toy_id; ConsistencyEvidence := []; BasisSnapshot := []; BasisMetadataGeneration := 0 |}.
Definition toy_placement (id domain : string) : Placement :=
  {| BackendID := str id; FailureDomain := str domain; Offsite := false; pl_Size := 100; pl_SHA256 := toy_id |}.
Definition toy_pack : Pack := {|
  pk_ID := toy_id; pk_Type := str "data"; pk_Size := 100; pk_PayloadSize := 60; pk_HeaderSize := 40;
  pk_BlobCount := 1; pk_SHA256 := toy_id; Placements := [toy_placement "a" "one"; toy_placement "b" "two"] |}.
Definition toy_record : JRecord := {| Kind := str "blob-fact-v1"; Payload := str "{ }" |}.
Definition toy_segment : Segment := {|
  s_Header := toy_header; Sequence := 1; PreviousSHA256 := []; Packs := [toy_pack]; Records := [toy_record] |}.
Definition toy_bytes : bytes := repeat x01 28.
Definition toy_digest : bytes := Eval vm_compute in digest_of toy_bytes.
Definition toy_seal : Seal := {|
  se_Header := toy_header; se_State := StateSealedPending;
  SegmentSHA256 := [toy_digest];
  PackCount := 1; ProtectedBytes := 100; SealedAt := 1500 |}.
Definition toy_store : Store := {|
  MirrorPlacements := {[str "a" := {| mp_FailureDomain := str "one"; mp_Offsite := false |}]}; Key := repeat x05 32;
  st_Policy := {| MinCopies := 2; MinDomains := 2; MinOffsite := 0 |}; AbandonmentSafetyDelay := 0; MaxExtension := 0 |}.
Definition toy_random : bytes := repeat x07 12.
Definition toy_env : jobEnv := {|
  e_publish _ _ := healthy; e_load _ _ := None; e_now _ := 1500; e_nonce _ := toy_random |}.
Definition toy_mirrors : Mirrors := [(str "a", ∅); (str "b", ∅)].
Definition toy_envelope (kind : string) (sequence : Z) (plain : bytes) : encryptedObject := {|
  o_Format := 1; o_RepositoryID := str "repo"; o_JobID := str "job"; o_Kind := str kind; o_Sequence := sequence;
  Nonce := toy_random; Ciphertext := plain ++ repeat x00 16 |}.

(** Libraries for the segments of one job, of which the JSON begins with [j], for its seal and
    for the envelopes of one of the segments and of the seal, of which the JSON is [b1] and
    [b2]; the cipher appends sixteen zeros. *)
Section Toy.
Context (j b1 b2 : bytes).

Definition toy_part (pack record : bool) (previous : bytes) : Segment := {|
  s_Header := toy_header; Sequence := 1; PreviousSHA256 := previous; Packs := if pack then [toy_pack] else [];
  Records := if record then [normal_Record toy_record] else [] |}.
Definition nonempty {A} (l : list A) : bool := match l with [] => false | _ => true end.
Definition flag (b : bool) : byte := if b then x01 else x00.
Definition segment_envelope : encryptedObject := toy_envelope "segment" 1 (j ++ [x01; x01]).
Definition seal_envelope : encryptedObject := toy_envelope "seal" 0 [x02].

Definition toy_codec : JournalCodec := {|
  json_Marshal o :=
    match o with
    | OSegment s =>
        if decide (normal_Segment s = toy_part (nonempty (Packs s)) (nonempty (Records s)) (Json.text (PreviousSHA256 s)))
        then Ok (j ++ flag (nonempty (Packs s)) :: flag (nonempty (Records s)) :: Json.text (PreviousSHA256 s)) else Err "segment"
    | OSeal s => if decide (normal_Seal s = toy_seal) then Ok [x02] else Err "seal"
    | _ => Err "kind"
    end;
  json_Decode kind b :=
    if String.eqb kind "segment" then
      match drop (length j) b with
      | pack :: record :: previous => Ok (OSegment (toy_part (Byte.eqb pack x01) (Byte.eqb record x01) previous))
      | _ => Err "segment"
      end
    else if String.eqb kind "seal" then if bytes_eqb b [x02] then Ok (OSeal toy_seal) else Err "seal"
    else Err "kind";
  envelope_Marshal x :=
    if decide (normal_envelope x = segment_envelope) then Ok b1 else if decide (normal_envelope x = seal_envelope) then Ok b2 else Err "envelope";
  envelope_Decode b := if bytes_eqb b b1 then Ok segment_envelope else if bytes_eqb b b2 then Ok seal_envelope else Err "envelope";
  hkdf _ _ _ := repeat x00 32;
  gcm_Seal _ _ plain _ := plain ++ repeat x00 16;
  gcm_Open _ _ b _ := Ok (take (length b - 16) b) |}.

Definition base64_fits (x : encryptedObject) (b : bytes) : Prop := 4 * ((zlen (Ciphertext x) + 2) / 3) <= zlen b.

Lemma flag_one b : Byte.eqb (flag b) x01 = b.
Proof. by destruct b. Qed.

Lemma toy_codec_laws : b2 <> b1 -> base64_fits segment_envelope b1 -> base64_fits seal_envelope b2 -> JournalLaws toy_codec.
Proof.
  intros Ne L1 L2. constructor.
  - intros o b E. cbn [json_Marshal toy_codec] in E. destruct o as [s|s| | | |]; try done; case_decide as D; try done; injection E as <-.
    + cbn [json_Decode toy_codec kind_of String.eqb]. cbn. rewrite drop_app_length, !flag_one. by rewrite <- D.
    + cbn. by rewrite D.
  - intros x b. cbn [envelope_Marshal envelope_Decode toy_codec].
    destruct (decide (normal_envelope x = segment_envelope)) as [D|_]; [|destruct (decide (normal_envelope x = seal_envelope)) as [D|_]; [|done]]; intros [= <-].
    + by rewrite bytes_eqb_refl, D.
    + by rewrite (proj2 (bytes_eqb_neq b2 b1) Ne), bytes_eqb_refl, D.
  - intros x b. cbn [envelope_Marshal toy_codec]. change (Ciphertext x) with (Ciphertext (normal_envelope x)).
    destruct (decide (normal_envelope x = segment_envelope)) as [D|_]; [|destruct (decide (normal_envelope x = seal_envelope)) as [D|_]; [|done]]; intros [= <-];
      by rewrite D.
  - intros key nonce plain aad. cbn [gcm_Seal toy_codec]. unfold zlen. rewrite length_app, repeat_length. lia.
  - intros key nonce plain aad _. cbn [gcm_Open gcm_Seal toy_codec]. rewrite length_app, repeat_length, Nat.add_sub. by rewrite take_app_length.
Qed.

End Toy.

Definition toy_library (j b1 : bytes) : JournalCodec := toy_codec j b1 (repeat x02 24).

Lemma toy_library_laws j b1 : repeat x02 24 <> b1 -> 4 * ((zlen j + 20) / 3) <= zlen b1 -> JournalLaws (toy_library j b1).
Proof.
  intros Ne L. apply toy_codec_laws; [done| |vm_compute; discriminate].
  unfold base64_fits, segment_envelope, toy_envelope. cbn [Ciphertext]. unfold zlen in *. rewrite !length_app, repeat_length, !Nat2Z.inj_add.
  cbn [length]. by replace (Z.of_nat (length j) + Z.of_nat 2 + Z.of_nat 16 + 2) with (Z.of_nat (length j) + 20) by lia.
Qed.

Definition small : JournalCodec := toy_library [x01] toy_bytes.

Lemma small_laws : JournalLaws small.
Proof. apply toy_library_laws; vm_compute; discriminate. Qed.

Definition toy_run := PublishJob (codec := small) toy_store toy_env toy_mirrors toy_header [toy_pack] [toy_record].
Definition toy_job : Job := {|
  j_Header := toy_header; j_State := StateExpired; j_Seal := toy_seal; j_SealSHA256 := []; j_Completion := None;
  j_Abandonment := None; j_Rejection := None; j_Extension := None; ExtensionSHA256 := [] |}.

Lemma pair_snd {A B} (p : A * B) b : snd p = b -> p = (fst p, b).
Proof. destruct p. by intros <-. Qed.

Lemma PublishJob_read_back_witness : exists segments,
  VerifyJob (codec := small) toy_store (fun _ _ => None) (fun _ => 9999) (fst toy_run) toy_job = Ok segments
  /\ concat (map Packs segments) = [toy_pack]
  /\ concat (map Records segments) = [{| Kind := str "blob-fact-v1"; Payload := str "{}" |}].
Proof.
  apply (PublishJob_read_back (codec := small) (laws := small_laws)
    toy_store toy_env toy_mirrors toy_header [toy_pack] [toy_record] (fst toy_run) toy_seal (digest_of (repeat x02 24)) 1 (fun _ => 9999) toy_job).
  - cbn. lia.
  - intros handle _. repeat constructor.
  - apply pair_snd. vm_compute. reflexivity.
  - reflexivity.
  - reflexivity.
  - discriminate.
  - discriminate.
Defined.

(** Seven megabytes of JSON, which are nine as an object. *)
Definition large_json : bytes := repeat x00 (Z.to_nat 7340032).
Definition large_bytes : bytes := repeat x00 (Z.to_nat 9786736).
Definition large : JournalCodec := toy_library large_json large_bytes.

Lemma zlen_repeat (b : byte) n : 0 <= n -> zlen (repeat b (Z.to_nat n)) = n.
Proof. intros H. unfold zlen. rewrite repeat_length. lia. Qed.

Lemma large_laws : JournalLaws large.
Proof.
  apply toy_library_laws; unfold large_bytes, large_json.
  - intros E. apply (f_equal zlen) in E. rewrite zlen_repeat in E by lia. discriminate E.
  - rewrite !zlen_repeat by lia. vm_compute. discriminate.
Qed.

Lemma large_size s : normal_Segment s = toy_part (nonempty (Packs s)) (nonempty (Records s)) (Json.text (PreviousSHA256 s)) ->
  segment_size (codec := large) s = Some (7340034 + zlen (Json.text (PreviousSHA256 s))).
Proof.
  intros E. unfold segment_size, large, toy_library. cbn [json_Marshal toy_codec]. rewrite decide_True by done.
  unfold large_json. rewrite zlen_app, zlen_repeat by lia. unfold zlen. cbn [length]. f_equal. lia.
Qed.

Lemma large_fits s : normal_Segment s = toy_part (nonempty (Packs s)) (nonempty (Records s)) [] -> PreviousSHA256 s = [] ->
  fits (codec := large) s = true.
Proof. intros E P. unfold fits. rewrite large_size; rewrite P; done. Qed.

Lemma large_split : split_job (codec := large) toy_header [toy_pack] [toy_record] = Ok [toy_segment].
Proof.
  unfold split_job. cbn [fill]. rewrite large_fits by (vm_compute; reflexivity). cbn [fill rbind].
  rewrite large_fits by (vm_compute; reflexivity). reflexivity.
Qed.

Lemma PublishJob_too_large_witness :
  split_job (codec := large) toy_header [toy_pack] [toy_record] = Ok [toy_segment] /\
  is_ok (snd (PublishJob (codec := large) toy_store toy_env toy_mirrors toy_header [toy_pack] [toy_record])) = false.
Proof.
  split; [exact large_split|].
  apply (PublishJob_too_large (codec := large) (laws := large_laws)
    toy_store toy_env toy_mirrors toy_header [toy_pack] [toy_record] [toy_segment] toy_segment).
  - cbn. lia.
  - exact large_split.
  - by left.
  - intros previous. exists (7340034 + zlen (Json.text previous)). pose proof (zlen_nonneg (Json.text previous)).
    split; [apply large_size; reflexivity|lia].
Defined.

Lemma publish_retry_splits_witness : exists ms1 ms2 x y,
    let down := fun id => if bytes_eqb id (str "b") then {| e_inspect := Some "timeout"; e_save := None; e_written := false; e_reload := None; e_verify := None |} else healthy in
    publish toy_store down toy_mirrors (str "job--completion") [x01] = (ms1, Err x) /\
    publish toy_store (fun _ => healthy) ms1 (str "job--completion") [x02] = (ms2, Err y) /\
    is_ok (loadQuorum toy_store (fun _ => None) ms2 (str "job--completion")) = false /\
    forall e3, exists z, publish toy_store (fun _ => healthy) ms2 (str "job--completion") e3 = (ms2, Err z).
Proof.
  apply (publish_retry_splits toy_store (str "a") (str "b") ∅ ∅ (str "job--completion") [x01] [x02]
    (fun id => if bytes_eqb id (str "b") then {| e_inspect := Some "timeout"; e_save := None; e_written := false; e_reload := None; e_verify := None |} else healthy)%string);
    [reflexivity | split; vm_compute; congruence | split; vm_compute; congruence | intros E; inversion E
    | apply lookup_empty | apply lookup_empty | discriminate | reflexivity].
Defined.

End JournalProps.
