(* ===== verification/Staged.v ===== *)
(** * Journals as roots of the repository ([internal/repository/staging/journal.go])

    [Discover] lists the sealed journals of all mirrors and finds out the state of each;
    [PackRoots.Current] collects the packs that prune and garbage collection must not touch
    ([PruneMarker] has their set as an answer of the world). The main theorem is the purpose
    of the journal: the packs of a job that was published are protected. Two findings say when
    they are not: mirrors that cannot be listed or asked count as mirrors without journals. *)
From stdpp Require Import base list numbers strings gmap.
From Stdlib Require Import ZArith Lia.
From coqutil Require Import Datatypes.RecordSetters.
From S2P Require Import Prelude Sha256 Codec SnapshotRecords Duration Json Journal.
Import TriangleBracketNotations.

Module Staged.
Import Journal.

Section Staged.
Context {codec : JournalCodec} (st : Store).

(** ** Other publications *)

Definition default_delay : Z := 24 * 3600 * 10 ^ 9.

Definition SealCompletion (c : Completion) (nonce : bytes) : result bytes :=
  do! guard (negb (bool_decide (co_State c = StateCommitted)) || negb (validDigest (co_SealSHA256 c))
             || bytes_eqb (MetadataTransaction c) [] || bytes_eqb (SnapshotID c) [] || (CompletedAt c =? zero_instant))
        "invalid journal completion";
  seal_for st (OCompletion c) (co_Header c) 0 nonce.

Definition SealAbandonment (a : Abandonment) (nonce : bytes) : result bytes :=
  do! guard (negb (bool_decide (ab_State a = StateAbandoned)) || negb (validDigest (ab_SealSHA256 a))
             || bytes_eqb (ab_Reason a) [] || bytes_eqb (Acknowledgement a) [] || (AbandonedAt a =? zero_instant)
             || negb (AbandonedAt a <? DeleteAfter a)) "invalid journal abandonment";
  seal_for st (OAbandonment a) (ab_Header a) 0 nonce.

Definition SealRejection (r : Rejection) (nonce : bytes) : result bytes :=
  do! guard (negb (bool_decide (re_State r = StateRejected)) || negb (validDigest (re_SealSHA256 r))
             || bytes_eqb (re_Reason r) [] || (RejectedAt r =? zero_instant)) "invalid journal rejection";
  seal_for st (ORejection r) (re_Header r) 0 nonce.

Definition SealExtension (e : Extension) (nonce : bytes) : result bytes :=
  do! guard (negb (validDigest (ex_SealSHA256 e)) || (Generation e =? 0)
             || (1 <? Generation e) && negb (validDigest (PreviousExtensionSHA256 e))
             || (ExtendedAt e =? zero_instant) || negb (PreviousExpiresAt e <? ex_ExpiresAt e)
             || (ex_ExpiresAt e <? ExtendedAt e)) "invalid journal expiry extension";
  seal_for st (OExtension e) (ex_Header e) (Generation e) nonce.

(** [encoded] is sealed and stored under its name. *)
Definition publish_sealed {A : Type} (env : bytes -> mirrorEnv) (ms : Mirrors) (handle : bytes) (encoded : result bytes) (a : A)
    : Mirrors * result A :=
  match encoded with
  | Err e => (ms, Err e)
  | Ok encoded => let (ms, r) := publish st env ms handle encoded in (ms, do! r; Ok a)
  end.

Definition PublishCompletion (env : bytes -> mirrorEnv) (ms : Mirrors) (nonce : bytes) (c : Completion) : Mirrors * result unit :=
  publish_sealed env ms (CompletionHandle (JobID (co_Header c))) (SealCompletion c nonce) tt.

Definition PublishExtension (env : bytes -> mirrorEnv) (ms : Mirrors) (nonce : bytes) (now : Z) (job : Job) (expiresAt : Z)
    : Mirrors * result Extension :=
  if bool_decide (j_State job = StateCommitted) || bool_decide (j_State job = StateAbandoned)
     || bool_decide (j_State job = StateRejected)
  then (ms, Err "terminal journal cannot be extended")
  else if (0 <? MaxExtension st) && (MaxExtension st <? expiresAt - now)
  then (ms, Err "journal extension exceeds repository policy")
  else
    let generation := match j_Extension job with Some e => wrap_u 64 (Generation e + 1) | None => 1 end in
    let extension := {| ex_Header := j_Header job; ex_SealSHA256 := j_SealSHA256 job; Generation := generation;
                        PreviousExtensionSHA256 := ExtensionSHA256 job; PreviousExpiresAt := EffectiveExpiresAt job;
                        ex_ExpiresAt := expiresAt; ExtendedAt := now |} in
    publish_sealed env ms (ExtensionHandle (JobID (j_Header job)) generation) (SealExtension extension nonce) extension.

Definition uncommitted (job : Job) : bool :=
  bool_decide (j_State job = StateSealedPending) || bool_decide (j_State job = StateExpired).

Definition PublishRejection (env : bytes -> mirrorEnv) (ms : Mirrors) (nonce : bytes) (now : Z) (job : Job) (reason : bytes)
    : Mirrors * result Rejection :=
  if negb (uncommitted job) then (ms, Err "only an uncommitted sealed journal can be rejected")
  else
    let rejection := {| re_Header := j_Header job; re_State := StateRejected; re_SealSHA256 := j_SealSHA256 job;
                        re_Reason := reason; RejectedAt := now |} in
    publish_sealed env ms (RejectionHandle (JobID (j_Header job))) (SealRejection rejection nonce) rejection.

Definition PublishAbandonment (env : bytes -> mirrorEnv) (ms : Mirrors) (nonce : bytes) (now : Z) (job : Job)
    (reason acknowledgement : bytes) : Mirrors * result Abandonment :=
  if negb (uncommitted job) then (ms, Err "only an uncommitted sealed journal can be abandoned")
  else
    let delay := if AbandonmentSafetyDelay st <=? 0 then default_delay else AbandonmentSafetyDelay st in
    let abandonment := {| ab_Header := j_Header job; ab_State := StateAbandoned; ab_SealSHA256 := j_SealSHA256 job;
                          ab_Reason := reason; Acknowledgement := acknowledgement; AbandonedAt := now;
                          DeleteAfter := now + delay |} in
    publish_sealed env ms (AbandonmentHandle (JobID (j_Header job))) (SealAbandonment abandonment nonce) abandonment.

(** ** Discovery *)

(** The names that [List] reports of a mirror and its error, and the errors of the loads and
    inspections by mirror and name. *)
Record discoverEnv := {
  d_list : bytes -> list bytes * option string;
  d_copy : bytes -> bytes -> option string;
  d_stat : bytes -> bytes -> option string;
  d_load : bytes -> bytes -> option string;
  d_now : Z }.

(** [strings.CutSuffix] *)
Definition CutSuffix (s suffix : bytes) : option bytes :=
  if has_prefix (rev suffix) (rev s) then Some (take (length s - length suffix) s) else None.

(** The job whose seal has this name. *)
Definition sealed_job (name : bytes) : option bytes :=
  match CutSuffix name (str "--seal") with
  | Some job => if bytes_eqb job [] || existsb (Byte.eqb x2f) job then None else Some job
  | None => None
  end.

(** The callback of [List], which ends with the first seal that cannot be loaded. *)
Fixpoint list_seals (fault : bytes -> option string) (m : Mirror) (names : list bytes) : list (bytes * bytes) :=
  match names with
  | [] => []
  | name :: names =>
      match sealed_job name with
      | None => list_seals fault m names
      | Some job =>
          match loadObject (fault (SealHandle job)) m (SealHandle job) with
          | Loaded b => (job, b) :: list_seals fault m names
          | _ => []
          end
      end
  end.

(** Errors of [List] are noted and the mirror is passed over. *)
Definition copies (env : discoverEnv) (ms : Mirrors) : list (bytes * bytes) :=
  concat (map (fun x : bytes * Mirror => list_seals (d_copy env (fst x)) (snd x) (fst (d_list env (fst x)))) ms).

Definition load_for (env : discoverEnv) (ms : Mirrors) (handle : bytes) : result bytes :=
  loadQuorum st (fun id => d_load env id handle) ms handle.

Definition load_optional (env : discoverEnv) (ms : Mirrors) (handle : bytes) : result (option bytes) :=
  loadOptionalQuorum st (fun id => d_stat env id handle) (fun id => d_load env id handle) ms handle.

Definition open_extension (encoded : bytes) (h : Header) (generation : Z) : result Extension :=
  let! o := open_for st encoded h "extension" generation in
  match o with OExtension e => Ok e | _ => Err "decode journal payload" end.
Definition open_completion (encoded : bytes) (h : Header) : result Completion :=
  let! o := open_for st encoded h "completion" 0 in
  match o with OCompletion c => Ok c | _ => Err "decode journal payload" end.
Definition open_abandonment (encoded : bytes) (h : Header) : result Abandonment :=
  let! o := open_for st encoded h "abandonment" 0 in
  match o with OAbandonment a => Ok a | _ => Err "decode journal payload" end.
Definition open_rejection (encoded : bytes) (h : Header) : result Rejection :=
  let! o := open_for st encoded h "rejection" 0 in
  match o with ORejection r => Ok r | _ => Err "decode journal payload" end.

(** The extensions in order; there are no more of them than objects on the mirrors. *)
Fixpoint extension_loop (fuel : nat) (env : discoverEnv) (ms : Mirrors) (generation previousExpiry : Z)
    (previousDigest : bytes) (job : Job) : result Job :=
  let! found := load_optional env ms (ExtensionHandle (JobID (j_Header job)) generation) in
  match found, fuel with
  | None, _ => Ok job
  | Some _, O => Err "fuel"
  | Some encoded, S fuel =>
      let! e := open_extension encoded (j_Header job) generation in
      do! guard (negb (bytes_eqb (ex_SealSHA256 e) (j_SealSHA256 job)) || negb (Generation e =? generation)
                 || negb (PreviousExpiresAt e =? previousExpiry)
                 || negb (bytes_eqb (PreviousExtensionSHA256 e) previousDigest)
                 || negb (PreviousExpiresAt e <? ex_ExpiresAt e))
            "journal extension does not bind the discovered seal and expiry";
      let digest := digest_of encoded in
      extension_loop fuel env ms (generation + 1) (ex_ExpiresAt e) digest
        (job <| j_Extension := Some e |> <| ExtensionSHA256 := digest |>)
  end.

Definition total_objects (ms : Mirrors) : nat := sum_list (map (fun x : bytes * Mirror => base.size (snd x)) ms).

(** The terminal state that the mirrors have. *)
Definition terminal (env : discoverEnv) (ms : Mirrors) (job : Job) : result Job :=
  let id := JobID (j_Header job) in
  let! found := load_optional env ms (CompletionHandle id) in
  let! job := match found with
              | None => Ok job
              | Some encoded =>
                  let! c := open_completion encoded (j_Header job) in
                  do! guard (negb (bool_decide (co_State c = StateCommitted)) || negb (bytes_eqb (co_SealSHA256 c) (j_SealSHA256 job)))
                        "journal completion does not bind the discovered seal";
                  Ok (job <| j_State := StateCommitted |> <| j_Completion := Some c |>)
              end in
  let! job := if bool_decide (j_State job = StateCommitted) then Ok job
              else
                let! found := load_optional env ms (AbandonmentHandle id) in
                match found with
                | None => Ok job
                | Some encoded =>
                    let! a := open_abandonment encoded (j_Header job) in
                    do! guard (negb (bool_decide (ab_State a = StateAbandoned)) || negb (bytes_eqb (ab_SealSHA256 a) (j_SealSHA256 job)))
                          "journal abandonment does not bind the discovered seal";
                    Ok (job <| j_State := StateAbandoned |> <| j_Abandonment := Some a |>)
                end in
  if bool_decide (j_State job = StateCommitted) || bool_decide (j_State job = StateAbandoned) then Ok job
  else
    let! found := load_optional env ms (RejectionHandle id) in
    match found with
    | None => Ok job
    | Some encoded =>
        let! r := open_rejection encoded (j_Header job) in
        do! guard (negb (bool_decide (re_State r = StateRejected)) || negb (bytes_eqb (re_SealSHA256 r) (j_SealSHA256 job)))
              "journal rejection does not bind the discovered seal";
        Ok (job <| j_State := StateRejected |> <| j_Rejection := Some r |>)
    end.

(** [Header{RepositoryID: repositoryID, JobID: jobID}] *)
Definition named_header (repositoryID jobID : bytes) : Header := {|
  h_Format := 0; RepositoryID := repositoryID; JobID := jobID; IdempotencyKey := []; CreatedAt := zero_instant;
  ExpiresAt := zero_instant; CapsuleGeneration := 0; RepositoryKeyVersion := 0; ChunkerVersion := [];
  CompressionVersion := []; PlacementPolicyVersion := 0; SourceIdentitySHA256 := []; ConsistencyEvidence := [];
  BasisSnapshot := []; BasisMetadataGeneration := 0 |}.

(** One job. The envelope is decoded first for its format, which [openObject] does not take
    from the header; what is no envelope there is none for [openObject]. *)
Definition discover_job (env : discoverEnv) (ms : Mirrors) (repositoryID jobID : bytes) (candidates : list bytes) : result Job :=
  let! first := load_for env ms (SealHandle jobID) in
  do! guard (existsb (fun c => negb (bytes_eqb first c)) (tail candidates)) "conflicting seal for journal";
  let! o := openObject first (Key st) (named_header repositoryID jobID) "seal" 0 in
  let! seal := match o with OSeal s => Ok s | _ => Err "decode journal payload" end in
  do! Header_Validate (se_Header seal) (CreatedAt (se_Header seal));
  do! guard (negb (bytes_eqb (RepositoryID (se_Header seal)) repositoryID) || negb (bytes_eqb (JobID (se_Header seal)) jobID)
             || negb (bool_decide (se_State seal = StateSealedPending))) "journal seal identity mismatch";
  let job := {| j_Header := se_Header seal; j_State := StateSealedPending; j_Seal := seal; j_SealSHA256 := digest_of first;
                j_Completion := None; j_Abandonment := None; j_Rejection := None; j_Extension := None;
                ExtensionSHA256 := [] |} in
  let! job := extension_loop (total_objects ms) env ms 1 (ExpiresAt (j_Header job)) [] job in
  let job := if negb (d_now env <? EffectiveExpiresAt job) then job <| j_State := StateExpired |> else job in
  terminal env ms job.

Fixpoint discover_jobs (env : discoverEnv) (ms : Mirrors) (repositoryID : bytes) (cs : list (bytes * bytes)) (ids : list bytes)
    : result (list Job) :=
  match ids with
  | [] => Ok []
  | id :: ids =>
      let! job := discover_job env ms repositoryID id (map snd (List.filter (fun c => bytes_eqb (fst c) id) cs)) in
      let! rest := discover_jobs env ms repositoryID cs ids in
      Ok (job :: rest)
  end.

(** [sort.Slice] by the time of creation. *)
Fixpoint insert_job (job : Job) (l : list Job) : list Job :=
  match l with
  | [] => [job]
  | x :: l' => if CreatedAt (j_Header x) <? CreatedAt (j_Header job) then x :: insert_job job l' else job :: l
  end.

Definition Discover (env : discoverEnv) (ms : Mirrors) (repositoryID : bytes) : result (list Job) :=
  let cs := copies env ms in
  let! jobs := discover_jobs env ms repositoryID cs (remove_dups (map fst cs)) in
  Ok (foldr insert_job [] jobs).

(** ** Roots *)

Definition ParseID (s : bytes) : result ID :=
  do! guard (negb (zlen s =? 64)) "invalid length for ID";
  match hex_decode s with Some id => Ok id | None => Err "invalid ID" end.

Definition is_root (now : Z) (job : Job) : bool :=
  bool_decide (j_State job = StateSealedPending) || bool_decide (j_State job = StateExpired)
  || bool_decide (j_State job = StateRejected)
  || bool_decide (j_State job = StateAbandoned)
     && match j_Abandonment job with Some a => now <? DeleteAfter a | None => false end.

Fixpoint insert_packs (packs : list Pack) (protected : gset ID) : result (gset ID) :=
  match packs with
  | [] => Ok protected
  | p :: packs => let! id := ParseID (pk_ID p) in insert_packs packs ({[id]} ∪ protected)
  end.

Fixpoint roots_loop (fault : bytes -> nat -> bytes -> option string) (now : Z) (ms : Mirrors) (jobs : list Job) (protected : gset ID)
    : result (gset ID) :=
  match jobs with
  | [] => Ok protected
  | job :: jobs =>
      if negb (is_root now job) then roots_loop fault now ms jobs protected
      else
        let! segments := VerifyJob st (fault (JobID (j_Header job))) (fun _ => now) ms job in
        let! protected := insert_packs (concat (map Packs segments)) protected in
        roots_loop fault now ms jobs protected
  end.

(** [PackRoots.Current] *)
Definition Current (env : discoverEnv) (fault : bytes -> nat -> bytes -> option string) (now : Z) (ms : Mirrors) (repositoryID : bytes)
    : result (gset ID) :=
  let! jobs := Discover env ms repositoryID in
  roots_loop fault now ms jobs ∅.

(** [ActiveUsage]: jobs and bytes *)
Definition active (now : Z) (job : Job) : bool :=
  negb (bool_decide (j_State job = StateCommitted)
        || bool_decide (j_State job = StateAbandoned)
           && match j_Abandonment job with Some a => negb (now <? DeleteAfter a) | None => false end).

Definition ActiveUsage (env : discoverEnv) (now : Z) (ms : Mirrors) (repositoryID : bytes) : result (Z * Z * Z) :=
  let! jobs := Discover env ms repositoryID in
  Ok (foldl (fun '(n, b, oldest) job =>
        if active now job then
          (wrap_u 64 (n + 1), wrap_u 64 (b + ProtectedBytes (j_Seal job)),
           if (oldest =? zero_instant) || (CreatedAt (j_Header job) <? oldest) then CreatedAt (j_Header job) else oldest)
        else (n, b, oldest)) (0, 0, zero_instant) jobs).

Record Quota := { MaxBytes : Z; MaxJobs : Z; MaxAge : Z; MaxPerPrincipal : Z }.

Definition CheckQuota (q : Quota) (activeJobs principalJobs stagedBytes oldest additional now : Z) : result unit :=
  guard ((0 <? MaxJobs q) && (MaxJobs q <=? activeJobs)
         || (0 <? MaxPerPrincipal q) && (MaxPerPrincipal q <=? principalJobs)
         || (0 <? MaxBytes q) && (MaxBytes q <? wrap_u 64 (stagedBytes + additional))
         || (0 <? MaxAge q) && negb (oldest =? zero_instant) && (MaxAge q <? now - oldest))
    "deferred staging quota exceeded".

End Staged.

End Staged.

(** ** Theory *)

Module StagedTheory.
Import Journal JournalTheory Staged.

Section Theory.
Context {codec : JournalCodec} {laws : JournalLaws codec} (st : Store) (min : 1 <= MinCopies (st_Policy st)).

(** *** Extensions end *)

Definition present (ms : Mirrors) (handle : bytes) : Prop := exists x, x ∈ ms /\ is_Some (snd x !! handle).

Definition all_names (ms : Mirrors) : gset bytes := ⋃ (map (fun x : bytes * Mirror => dom (snd x)) ms).

Lemma all_names_size ms : (base.size (all_names ms) <= total_objects ms)%nat.
Proof.
  unfold all_names, total_objects. induction ms as [|[id m] ms IH]; cbn [map sum_list]; [done|].
  rewrite union_list_cons. set (u := ⋃ map _ ms) in *. rewrite size_union_alt. cbn [snd]. rewrite size_dom.
  apply Nat.add_le_mono; [done|]. etrans; [|exact IH]. apply subseteq_size. intros x X. by apply elem_of_difference in X as [X _].
Qed.

Lemma present_names ms handle : present ms handle -> handle ∈ all_names ms.
Proof.
  intros (x & X & S). unfold all_names. apply elem_of_union_list. exists (dom (snd x)). split; [|by apply elem_of_dom].
  apply list_elem_of_fmap. by exists x.
Qed.

Lemma present_count ms hs : NoDup hs -> Forall (present ms) hs -> (length hs <= total_objects ms)%nat.
Proof.
  intros N F. etrans; [|apply all_names_size]. rewrite <- (size_list_to_set (C := gset bytes) hs N).
  apply subseteq_size. intros h H. rewrite elem_of_list_to_set in H. rewrite Forall_forall in F. by apply present_names, F.
Qed.

Lemma load_optional_present env ms handle b : load_optional st env ms handle = Ok (Some b) -> present ms handle.
Proof.
  unfold load_optional, loadOptionalQuorum. destruct (existsb _ ms) eqn:E; [|done]. intros _.
  apply existsb_exists in E as (x & X & E). apply list_elem_of_In in X. exists x. split; [done|].
  destruct (d_stat env _ _); [done|]. by apply bool_decide_eq_true in E.
Qed.

Definition extension_names (job : bytes) (n : nat) : list bytes := map (fun i => ExtensionHandle job (Z.of_nat i)) (seq 1 n).

Lemma extension_names_nodup job n : NoDup (extension_names job n).
Proof.
  unfold extension_names. apply NoDup_fmap_2_strong; [|apply NoDup_seq]. intros i k _ _ E.
  apply app_inv_head in E. apply app_inv_head in E. apply (f_equal Duration.value) in E. rewrite !value_pad in E by lia. lia.
Qed.

(** The fuel of the loop over the extensions is enough: [Err "fuel"] is never the reason. *)
Lemma extension_loop_enough env ms : forall fuel generation previousExpiry previousDigest job,
  Forall (present ms) (extension_names (JobID (j_Header job)) generation) ->
  (total_objects ms <= fuel + generation)%nat ->
  extension_loop st fuel env ms (Z.of_nat generation + 1) previousExpiry previousDigest job
  = extension_loop st (S fuel) env ms (Z.of_nat generation + 1) previousExpiry previousDigest job.
Proof.
  induction fuel as [|fuel IH]; intros g pe pd job P L.
  all: cbn [extension_loop].
  all: destruct (load_optional _ _ _ _) as [[b|]|] eqn:E; cbn [rbind]; [|done|done].
  all: assert (P' : Forall (present ms) (extension_names (JobID (j_Header job)) (S g)))
    by (unfold extension_names in *; rewrite seq_S, map_app, Forall_app; split; [done|]; cbn; constructor; [|done];
        replace (Z.of_nat (S g)) with (Z.of_nat g + 1) by lia; by eapply load_optional_present).
  - apply present_count in P'; [|apply extension_names_nodup].
    unfold extension_names in P'. rewrite length_map, length_seq in P'. lia.
  - destruct (open_extension _ _ _) as [e|]; [|done]. cbn [rbind]. destruct (guard _ _); [|done]. cbn [rbind].
    replace (Z.of_nat g + 1 + 1) with (Z.of_nat (S g) + 1) by lia. apply IH; [done|lia].
Qed.

(** *** Absent objects *)

Lemma load_optional_absent env ms handle : absent ms handle -> load_optional st env ms handle = Ok None.
Proof.
  intros A. unfold load_optional, loadOptionalQuorum. destruct (existsb _ ms) eqn:E; [|done].
  apply existsb_exists in E as (x & X & E). apply list_elem_of_In in X. unfold absent in A. rewrite Forall_forall in A.
  rewrite (A x X) in E. by destruct (d_stat env _ _).
Qed.

Lemma terminal_absent env ms job : absent ms (CompletionHandle (JobID (j_Header job))) ->
  absent ms (AbandonmentHandle (JobID (j_Header job))) -> absent ms (RejectionHandle (JobID (j_Header job))) ->
  terminal st env ms job = Ok job.
Proof.
  intros A1 A2 A3. unfold terminal. rewrite (load_optional_absent _ _ _ A1). cbn [rbind].
  rewrite (load_optional_absent _ _ _ A2), (load_optional_absent _ _ _ A3).
  destruct (bool_decide (j_State job = StateCommitted)) eqn:E; cbn [rbind]; rewrite E; cbn [orb]; [done|]. by case_match.
Qed.

(** *** Text that JSON does not change *)

Lemma hex_char_ascii n : 0 <= n < 16 -> JsonTheory.ascii (hex_char n).
Proof.
  intros H. unfold hex_char, JsonTheory.ascii. rewrite b2z_z2b. destruct (n <? 10) eqn:E; [apply Z.ltb_lt in E|apply Z.ltb_ge in E];
    rewrite Z.mod_small; lia.
Qed.

Lemma digest_text e : Json.text (digest_of e) = digest_of e.
Proof.
  apply JsonTheory.text_ascii. unfold digest_of, hex. induction (Sum256 e) as [|b l IH]; cbn [map concat app]; [constructor|].
  pose proof (b2z_range b). constructor; [|constructor; [|exact IH]]; apply hex_char_ascii; Z.div_mod_to_equations; lia.
Qed.

Lemma hex_digit_ascii b n : hex_digit b = Some n -> JsonTheory.ascii b.
Proof. unfold hex_digit, Keys.between, JsonTheory.ascii. intros E. repeat case_match; try done; split_bools; lia. Qed.

Lemma hex_decode_ascii s : forall d, hex_decode s = Some d -> Forall JsonTheory.ascii s.
Proof.
  assert (H : forall n s d, (length s <= n)%nat -> hex_decode s = Some d -> Forall JsonTheory.ascii s).
  { clear. induction n as [|n IH]; intros s d L E; (destruct s as [|a [|b s]]; [constructor|done|cbn [length] in L]); [lia|].
    cbn [hex_decode] in E. destruct (hex_digit a) eqn:Ea; [|done]. destruct (hex_digit b) eqn:Eb; [|done].
    destruct (hex_decode s) as [x|] eqn:Es; [|done].
    constructor; [by eapply hex_digit_ascii|]. constructor; [by eapply hex_digit_ascii|]. apply (IH s x); [lia|done]. }
  intros d. by apply (H (length s)).
Qed.

(** An identifier that is read was given as it is. *)
Lemma ParseID_text s id : ParseID (Json.text s) = Ok id -> ParseID s = Ok id.
Proof.
  intros E. assert (T : Json.text s = s); [|by rewrite T in E]. unfold ParseID in E. apply rbind_ok in E as (_ & _ & E).
  destruct (hex_decode (Json.text s)) as [d|] eqn:D; [|done]. by apply JsonTheory.text_plain, (hex_decode_ascii _ d).
Qed.

(** *** Listing *)

Lemma has_prefix_refl_app p l : has_prefix p (p ++ l) = true.
Proof. apply has_prefix_spec. by exists l. Qed.

Lemma sealed_job_name job : job <> [] -> existsb (Byte.eqb x2f) job = false -> sealed_job (SealHandle job) = Some job.
Proof.
  intros N S. unfold sealed_job, CutSuffix, SealHandle. rewrite rev_app_distr, has_prefix_refl_app, length_app.
  replace (length job + length (str "--seal") - length (str "--seal"))%nat with (length job) by lia.
  rewrite take_app_length, S. destruct (bytes_eqb job []) eqn:E; [by apply bytes_eqb_eq in E | done].
Qed.

(** The mirrors answer: each lists its objects, and every seal that is listed can be loaded. *)
Definition answers (env : discoverEnv) (ms : Mirrors) : Prop := forall id m, (id, m) ∈ ms ->
  (forall handle, is_Some (m !! handle) -> handle ∈ fst (d_list env id)) /\
  (forall name job, name ∈ fst (d_list env id) -> sealed_job name = Some job ->
     exists b, loadObject (d_copy env id (SealHandle job)) m (SealHandle job) = Loaded b) /\
  (forall handle, d_stat env id handle = None /\ d_load env id handle = None).

Lemma list_seals_elem fault m names name job : name ∈ names -> sealed_job name = Some job ->
  (forall name job, name ∈ names -> sealed_job name = Some job -> exists b, loadObject (fault (SealHandle job)) m (SealHandle job) = Loaded b) ->
  job ∈ map fst (list_seals fault m names).
Proof.
  intros I S L. induction names as [|x names IH]; [by inversion I|]. cbn [list_seals].
  assert (IH' : name ∈ names -> job ∈ map fst (list_seals fault m names))
    by (intros I'; apply IH; [done | intros n j N J; apply (L n j); [by right | done]]).
  apply elem_of_cons in I as [<-|I].
  - rewrite S. destruct (L name job) as [b ->]; [by left | done|]. cbn. by left.
  - destruct (sealed_job x) as [j|] eqn:J; [|by apply IH']. destruct (L x j) as [b ->]; [by left | done|]. cbn. right. by apply IH'.
Qed.

(** Some mirror has an object that can be read. *)
Lemma held_somewhere ms handle e : held st ms handle e -> exists id m, (id, m) ∈ ms /\ m !! handle = Some e.
Proof.
  intros [A E]. destruct (decide (Exists (fun x : bytes * Mirror => snd x !! handle = Some e) ms)) as [X|X].
  - apply Exists_exists in X as ([id m] & X & Y). by exists id, m.
  - exfalso. apply not_Exists_Forall in X; [|intros x; apply _]. unfold agree in A.
    assert (F : Forall (fun x : bytes * Mirror => snd x !! handle = None) ms).
    { apply Forall_forall. intros x I. rewrite Forall_forall in A, X. destruct (A x I) as [?|?]; [done|]. by destruct (X x I). }
    assert (Q : forall a t, quorum_loop st (fun _ => None) handle ms a t = Ok (a, t)).
    { clear - F. induction F as [|[id m] ms N F IH]; intros a t; cbn [quorum_loop]; [done|]. unfold loadObject. cbn [snd] in N. by rewrite N. }
    unfold loadQuorum in E. rewrite Q in E. cbn [rbind] in E. unfold unsatisfied in E. cbn [no_tally successes] in E.
    rewrite (proj2 (Z.ltb_lt 0 _)) in E by lia. done.
Qed.

(** *** Collecting *)

Lemma discover_jobs_elem env ms repositoryID cs ids : forall jobs, discover_jobs st env ms repositoryID cs ids = Ok jobs ->
  forall id, id ∈ ids -> exists job candidates, discover_job st env ms repositoryID id candidates = Ok job /\ job ∈ jobs.
Proof.
  induction ids as [|i ids IH]; intros jobs E id I; cbn [discover_jobs] in E; [by inversion I|].
  apply rbind_ok in E as (job & J & E). apply rbind_ok in E as (rest & R & E). injection E as <-.
  apply elem_of_cons in I as [->|I]; [exists job; eexists; split; [exact J | by left]|].
  destruct (IH rest R id I) as (j & c & D & E). exists j, c. split; [done | by right].
Qed.

Lemma elem_of_insert_job x job l : x ∈ insert_job job l <-> x = job \/ x ∈ l.
Proof.
  induction l as [|y l IH]; cbn; [by rewrite list_elem_of_singleton, elem_of_nil; intuition|].
  case_match; rewrite !elem_of_cons; [rewrite IH|]; intuition.
Qed.

Lemma elem_of_sorted_jobs x l : x ∈ foldr insert_job [] l <-> x ∈ l.
Proof. induction l as [|y l IH]; cbn; [done|]. by rewrite elem_of_insert_job, IH, elem_of_cons. Qed.

Lemma insert_packs_spec packs : forall protected protected', insert_packs packs protected = Ok protected' ->
  protected ⊆ protected' /\ forall p, p ∈ packs -> exists id, ParseID (pk_ID p) = Ok id /\ id ∈ protected'.
Proof.
  induction packs as [|p packs IH]; intros protected protected' E; cbn [insert_packs] in E.
  { injection E as <-. split; [done|]. intros q Q. by inversion Q. }
  apply rbind_ok in E as (id & I & E). apply IH in E as [S A]. split; [set_solver|].
  intros q Q. apply elem_of_cons in Q as [->|Q]; [exists id; split; [done|set_solver] | by apply A].
Qed.

Lemma roots_loop_spec fault now ms jobs : forall protected protected', roots_loop st fault now ms jobs protected = Ok protected' ->
  protected ⊆ protected' /\ forall job segments, job ∈ jobs -> is_root now job = true ->
    VerifyJob st (fault (JobID (j_Header job))) (fun _ => now) ms job = Ok segments ->
    forall p, p ∈ concat (map Packs segments) -> exists id, ParseID (pk_ID p) = Ok id /\ id ∈ protected'.
Proof.
  induction jobs as [|j jobs IH]; intros protected protected' E; cbn [roots_loop] in E.
  { injection E as <-. split; [done|]. intros job segments Q. by inversion Q. }
  destruct (is_root now j) eqn:R; cbn [negb] in E.
  - apply rbind_ok in E as (segs & V & E). apply rbind_ok in E as (mid & I & E). apply insert_packs_spec in I as [S1 A1].
    apply IH in E as [S2 A2]. split; [set_solver|]. intros job segments Q Rj Vj p P.
    apply elem_of_cons in Q as [->|Q]; [|by eapply A2]. assert (segments = segs) as -> by congruence.
    destruct (A1 p P) as (id & ? & ?). exists id. split; [done|set_solver].
  - apply IH in E as [S A]. split; [done|]. intros job segments Q Rj. apply elem_of_cons in Q as [->|Q]; [congruence|by apply A].
Qed.

(** *** A published job is discovered *)

Lemma quorum_loop_answers env ms handle : (forall id m, (id, m) ∈ ms -> d_load env id handle = None) -> forall a t,
  quorum_loop st (fun id => d_load env id handle) handle ms a t = quorum_loop st (fun _ => None) handle ms a t.
Proof.
  induction ms as [|[id m] ms IH]; intros L a t; cbn [quorum_loop]; [done|]. rewrite (L id m) by (by left).
  assert (L' : forall id m, (id, m) ∈ ms -> d_load env id handle = None) by (intros i n I; apply (L i n); by right).
  repeat case_match; by rewrite ?IH.
Qed.

Lemma load_for_answers env ms handle e : answers env ms -> held st ms handle e -> load_for st env ms handle = Ok e.
Proof.
  intros A [_ E]. unfold load_for, loadQuorum in *. rewrite quorum_loop_answers; [done|].
  intros id m I. by destruct (A id m I) as (_ & _ & L), (L handle).
Qed.

Lemma copies_held env ms job e : answers env ms -> held st ms (SealHandle job) e -> job <> [] ->
  existsb (Byte.eqb x2f) job = false -> job ∈ map fst (copies env ms).
Proof.
  intros A H N S. apply held_somewhere in H as (id & m & I & E). destruct (A id m I) as (L & Ld & _).
  assert (J : job ∈ map fst (list_seals (d_copy env id) m (fst (d_list env id)))).
  { apply (list_seals_elem _ _ _ (SealHandle job)); [apply L; by rewrite E | by apply sealed_job_name | done]. }
  apply list_elem_of_fmap in J as (c & -> & C). apply list_elem_of_fmap. exists c. split; [done|].
  unfold copies. apply list_elem_of_In, in_concat. eexists. split; [|by apply list_elem_of_In].
  apply in_map_iff. exists (id, m). split; [done|]. by apply list_elem_of_In.
Qed.

Lemma extension_loop_absent fuel env ms previousExpiry previousDigest job :
  absent ms (ExtensionHandle (JobID (j_Header job)) 1) ->
  extension_loop st fuel env ms 1 previousExpiry previousDigest job = Ok job.
Proof. intros A. destruct fuel; cbn [extension_loop]; by rewrite (load_optional_absent env _ _ A). Qed.

Lemma discover_published env ms h seal enc nonce candidates job :
  answers env ms -> seal_for st (OSeal seal) h 0 nonce = Ok enc -> held st ms (SealHandle (JobID h)) enc -> se_Header seal = h ->
  (forall handle, has_prefix (JobID h) handle = true -> (forall i, handle <> SegmentHandle (JobID h) i) ->
     handle <> SealHandle (JobID h) -> absent ms handle) ->
  discover_job st env ms (RepositoryID h) (JobID h) candidates = Ok job ->
  j_Header job = normal_Header h /\ j_Seal job = normal_Seal seal /\ same_context h (j_Header job) /\ (j_State job = StateSealedPending \/ j_State job = StateExpired).
Proof.
  intros A Se H Hd Ab E.
  assert (Ab' : forall x, (forall i, JobID h ++ x <> SegmentHandle (JobID h) i) ->
    JobID h ++ x <> SealHandle (JobID h) -> absent ms (JobID h ++ x)) by (intros x; apply Ab, has_prefix_refl_app).
  unfold discover_job in E. rewrite (load_for_answers _ _ _ _ A H) in E. cbn [rbind] in E. apply rbind_ok in E as (_ & _ & E).
  apply rbind_ok in E as (o & Op & E). rewrite (openObject_context _ _ h) in Op by done. destruct (open_seal _ _ _ _ _ _ o Se Op) as (-> & TR & TJ). cbn [normal rbind] in E.
  apply rbind_ok in E as (_ & _ & E). apply rbind_ok in E as (_ & _ & E). cbn [normal_Seal se_Header] in E. rewrite Hd in E.
  assert (Sc : same_context h (normal_Header h)) by (split_and!; [exact TR|exact TJ|done]).
  rewrite extension_loop_absent in E.
  2:{ cbn [j_Header normal_Header JobID]. rewrite TJ. apply Ab'; [intros i F|intros F]; apply app_inv_head in F; discriminate. }
  cbn [rbind] in E. destruct (negb _); rewrite terminal_absent in E.
  2-4, 6-8: cbn -[normal_Header]; cbn [normal_Header JobID]; rewrite TJ; apply Ab'; [intros i F|intros F]; apply app_inv_head in F; discriminate.
  all: injection E as <-; rewrite <- Hd in *; split_and!; auto.
Qed.

Lemma Discover_published env ms h seal enc nonce jobs :
  answers env ms -> seal_for st (OSeal seal) h 0 nonce = Ok enc -> held st ms (SealHandle (JobID h)) enc -> se_Header seal = h ->
  (forall handle, has_prefix (JobID h) handle = true -> (forall i, handle <> SegmentHandle (JobID h) i) ->
     handle <> SealHandle (JobID h) -> absent ms handle) ->
  JobID h <> [] -> existsb (Byte.eqb x2f) (JobID h) = false ->
  Discover st env ms (RepositoryID h) = Ok jobs ->
  exists job, job ∈ jobs /\ j_Header job = normal_Header h /\ j_Seal job = normal_Seal seal /\ same_context h (j_Header job) /\ (j_State job = StateSealedPending \/ j_State job = StateExpired).
Proof.
  intros A Se H Hd Ab N S E. unfold Discover in E. apply rbind_ok in E as (js & D & E). injection E as <-.
  destruct (discover_jobs_elem _ _ _ _ _ _ D (JobID h)) as (job & c & J & I);
    [apply elem_of_remove_dups; by apply (copies_held env ms _ enc)|].
  exists job. split; [by apply elem_of_sorted_jobs|]. by eapply discover_published.
Qed.

End Theory.
End StagedTheory.

(** ** Properties *)

Module StagedProps.
Import Journal JournalTheory Staged StagedTheory.

Section Props.
Context {codec : JournalCodec} {laws : JournalLaws codec} (st : Store).

(** C9. The purpose of the journal: after a job was published, whatever faults the publication
    met on the mirrors, every pack it names is in the set of protected packs that prune and
    garbage collection receive, expired or not, provided the mirrors answer and the collection
    succeeds. The policy asks for at least one copy, no object whose name begins with the
    identifier of the job was there before, and the identifier has no slash (the seal of a job
    that has one is not looked at). *)
Theorem published_packs_protected env ms h packs records ms' seal digest n world now protected :
  1 <= MinCopies (st_Policy st) ->
  (forall handle, has_prefix (JobID h) handle = true -> absent ms handle) ->
  existsb (Byte.eqb x2f) (JobID h) = false ->
  PublishJob st env ms h packs records = (ms', Ok (seal, digest, n)) ->
  answers world ms' ->
  Current st world (fun _ _ _ => None) now ms' (RepositoryID h) = Ok protected ->
  forall p, p ∈ packs -> exists id, ParseID (pk_ID p) = Ok id /\ id ∈ protected.
Proof.
  intros C F S P A E p I.
  destruct (PublishJob_stored st C _ _ _ _ _ _ _ _ _ F P)
    as (time & encs & out & O & Fo & Pk & _ & He & D & Hd & _ & Ne & (t & V) & (enc & nonce & Se & H) & Ab).
  assert (Nj : JobID h <> []) by (intros Z; unfold Header_Validate in V; rewrite Z in V;
    apply rbind_ok in V as ([] & V & _); apply guard_ok in V; cbn in V; rewrite ?orb_true_r in V; done).
  unfold Current in E. apply rbind_ok in E as (jobs & J & E).
  eapply (Discover_published st C world ms' h seal enc nonce) in J as (job & Jj & Jh & Js & Sc & St); [|done..].
  assert (Vj : VerifyJob st (fun _ _ => None) (fun _ => now) ms' job = Ok out).
  { apply (VerifyJob_stored st (fun _ => now) time ms' job h encs); try done; try (by destruct St as [->| ->]).
    - by rewrite Js, Jh; cbn [normal_Seal se_Header]; rewrite Hd.
    - rewrite Js. cbn [normal_Seal SegmentSHA256]. rewrite D, map_map. apply map_ext, digest_text. }
  apply (roots_loop_spec st C) in E as [_ R]. destruct (R job out Jj) with (p := normal_Pack p) as (id & Pi & Ip); [|done| |].
  2:{ rewrite Pk. by apply list_elem_of_fmap_2. }
  2:{ exists id. split; [by apply ParseID_text|done]. }
  unfold is_root. destruct St as [->| ->]; done.
Qed.

(** C34. A mirror that does not answer counts as one without journals: when no mirror can be
    listed, the collection of the roots succeeds with the empty set whatever the mirrors hold,
    and when no mirror can be asked for the terminal objects, a job that was committed,
    abandoned or rejected keeps the state it had from its seal. *)
Theorem unanswered_is_absent world fault now ms repositoryID :
  (forall id, exists e, d_list world id = ([], Some e)) ->
  (forall id handle, exists e, d_stat world id handle = Some e) ->
  Current st world fault now ms repositoryID = Ok ∅ /\ forall job, terminal st world ms job = Ok job.
Proof.
  intros L T. split.
  - assert (E : copies world ms = []).
    { unfold copies. induction ms as [|[id m] ms IH]; cbn; [done|]. destruct (L id) as [e ->]. by rewrite IH. }
    unfold Current, Discover. by rewrite E.
  - assert (O : forall handle, load_optional st world ms handle = Ok None).
    { intros handle. unfold load_optional, loadOptionalQuorum. destruct (existsb _ ms) eqn:X; [|done].
      apply existsb_exists in X as ([id m] & _ & X). cbn [fst] in X. by destruct (T id handle) as [e Te]; rewrite Te in X. }
    intros job. unfold terminal. rewrite !O. cbn [rbind].
    destruct (bool_decide (j_State job = StateCommitted)) eqn:E; cbn [rbind]; rewrite E; cbn [orb]; [done|]. by case_match.
Qed.

End Props.

(** *** Instances *)

Import JournalProps.

Definition toy_world : discoverEnv := {|
  d_list id := (map fst (map_to_list (default ∅ (snd <$> find (fun x : bytes * Mirror => bytes_eqb (fst x) id) (fst toy_run)))), None);
  d_copy _ _ := None; d_stat _ _ := None; d_load _ _ := None; d_now := 9999 |}.

(** The listed seals can be loaded. *)
Definition loadable (m : Mirror) : bool :=
  forallb (fun name => match sealed_job name with
                       | Some job => match loadObject None m (SealHandle job) with Loaded _ => true | _ => false end
                       | None => true
                       end) (map fst (map_to_list m)).

Lemma toy_answers : answers toy_world (fst toy_run).
Proof.
  assert (K : forallb (fun x : bytes * Mirror => loadable (snd x)) (fst toy_run) = true) by (vm_compute; reflexivity).
  assert (D : map fst (fst toy_run) = [str "a"; str "b"]) by (vm_compute; reflexivity).
  unfold answers, toy_world, d_list. set (ms := fst toy_run) in *. clearbody ms.
  destruct ms as [|[i1 m1] [|[i2 m2] [|]]]; try discriminate D. injection D as -> ->. cbn [forallb snd] in K. split_bools.
  intros id m I. assert (L : loadable m = true /\ default ∅ (snd <$> find (fun x : bytes * Mirror => bytes_eqb (fst x) id)
    [(str "a", m1); (str "b", m2)]) = m).
  { apply elem_of_cons in I as [[= -> ->]|[[= -> ->]|I]%elem_of_cons]; [done | done | by inversion I]. }
  destruct L as [L ->]. cbn [fst]. split_and!; [|intros name job N J|done].
  - intros handle [v V]. apply elem_of_map_to_list in V. apply list_elem_of_fmap. by exists (handle, v).
  - unfold loadable in L. rewrite forallb_forall in L. apply list_elem_of_In, L in N. rewrite J in N. cbn [d_copy].
    destruct (loadObject _ _ _) as [x| |]; [by exists x | done | done].
Qed.

Lemma published_packs_protected_witness :
  exists protected id, Current (codec := small) toy_store toy_world (fun _ _ _ => None) 9999 (fst toy_run) (str "repo") = Ok protected
    /\ ParseID toy_id = Ok id /\ id ∈ protected.
Proof.
  assert (K : is_ok (Current (codec := small) toy_store toy_world (fun _ _ _ => None) 9999 (fst toy_run) (str "repo")) = true)
    by (vm_compute; reflexivity).
  destruct (Current (codec := small) toy_store toy_world _ _ _ _) as [protected|] eqn:E; [|discriminate K]. exists protected.
  destruct (published_packs_protected (codec := small)
    (laws := small_laws)
    toy_store toy_env toy_mirrors toy_header [toy_pack] [toy_record] (fst toy_run) toy_seal (digest_of (repeat x02 24)) 1
    toy_world 9999 protected) with (p := toy_pack) as (id & P & I).
  - cbn. lia.
  - intros handle _. repeat constructor.
  - reflexivity.
  - apply pair_snd. vm_compute. reflexivity.
  - apply toy_answers.
  - exact E.
  - by left.
  - exists id. split; [reflexivity | split; [exact P | exact I]].
Defined.

Definition silent : discoverEnv := {|
  d_list _ := ([], Some "timeout"%string); d_copy _ _ := None; d_stat _ _ := Some "timeout"%string; d_load _ _ := None; d_now := 0 |}.

Lemma unanswered_is_absent_witness :
  Current (codec := small) toy_store silent (fun _ _ _ => None) 0 (fst toy_run) (str "repo") = Ok ∅
  /\ forall job, terminal (codec := small) toy_store silent (fst toy_run) job = Ok job.
Proof.
  apply (unanswered_is_absent (codec := small) toy_store silent (fun _ _ _ => None) 0 (fst toy_run) (str "repo")); by eexists.
Defined.

End StagedProps.
