(* ===== verification/Store.v ===== *)
(** * The schema store ([internal/index/daemon/schema_store_*.go], [client_rpc.go];
    [vaulticdb/src/storage.rs])

    The database of the index daemon and its transactions, and the operations of
    [SchemaStore] that write batches of schema records and allocate revisions. The engine
    gives serializable transactions, so a transaction that commits is one step on the
    database: it reads and writes a view of the database and replaces it at the end. Every
    call can fail, and a commit can be refused, or applied without the answer arriving.
    The main theorems: records of immutable kinds are never changed by a batch whatever
    fails, a batch that succeeds is stored as a whole, and blocks of revisions are
    disjoint. *)
From stdpp Require Import base list numbers strings gmap.
From Stdlib Require Import ZArith Lia.
From S2P Require Import Prelude Codec Sha256 Keys KeyParse Records Validate.

Module Store.

(** ** The database *)

Record Mutation := { m_Key : bytes; m_Value : bytes }.
#[export] Instance Mutation_eq_dec : EqDecision Mutation.
Proof. solve_decision. Defined.

Record IdempotencyRecord := { ir_operation : string; ir_request_sha256 : bytes; ir_durable : bool }.

Notation Data := (gmap bytes bytes).

Record Database := { data : Data; idempotency : gmap bytes IdempotencyRecord }.

(** An error is its message; [codes.Aborted] is the message below. *)
Definition code_Aborted : string := "Aborted".

Record Limits := { MaxBatchItems : Z; MaxMessageBytes : Z }.

(** What happens to a commit: it is refused before the engine applies it, it is applied, or
    it is applied and the answer is an error. *)
Inductive fate := Refused (error : string) | Applied | Lost (error : string).

(** One transaction: the errors of its calls by their number, [proto.Size] of the request of a
    call that reads or writes several records, and its end. *)
Record txnEnv := {
  t_begin : option string;
  t_call : nat -> option string;
  t_read_size : nat -> list bytes -> Z;
  t_write_size : nat -> list Mutation -> list bytes -> Z;
  t_fate : fate;
  t_rollback : option string;
  t_id : bytes }.

(** The view of an open transaction (its snapshot and its own writes) and the number of its calls. *)
Record txn := { t_view : Data; t_calls : nat }.

Definition Tx (A : Type) : Type := txn -> result A * txn.

Definition ret {A} (a : A) : Tx A := fun t => (Ok a, t).
Definition bind {A B} (m : Tx A) (k : A -> Tx B) : Tx B := fun t =>
  let (r, t) := m t in match r with Ok a => k a t | Err e => (Err e, t) end.
Definition lift {A} (r : result A) : Tx A := fun t => (r, t).

Notation "'let%' x ':=' m 'in' k" := (bind m (fun x => k))
  (at level 200, x pattern, m at level 200, k at level 200, right associativity) : go_scope.
Notation "'do%' m ';' k" := (bind m (fun _ => k))
  (at level 200, m at level 200, k at level 200, right associativity) : go_scope.

Section Client.
Context (limits : Limits) (env : txnEnv).

Definition call : Tx unit := fun t =>
  (match t_call env (t_calls t) with Some e => Err e | None => Ok tt end, {| t_view := t_view t; t_calls := S (t_calls t) |}).

Definition view : Tx Data := fun t => (Ok (t_view t), t).
Definition calls : Tx nat := fun t => (Ok (t_calls t), t).

Definition Get (key : bytes) : Tx (option bytes) :=
  do% call;
  let% v := view in
  ret (v !! key).

Definition MultiGet (keys : list bytes) : Tx (list (option bytes)) :=
  do% lift (guard (MaxBatchItems limits <? zlen keys) "multi-get has too many items");
  let% i := calls in
  do% lift (guard (MaxMessageBytes limits <? t_read_size env i keys) "multi-get request is too large");
  do% call;
  let% v := view in
  ret (map (fun key => v !! key) keys).

Definition apply_puts (puts : list Mutation) (v : Data) : Data :=
  foldl (fun v put => <[m_Key put := m_Value put]> v) v puts.
Definition apply_deletes (deletes : list bytes) (v : Data) : Data :=
  foldl (fun v key => base.delete key v) v deletes.

Definition WriteBatch (puts : list Mutation) (deletes : list bytes) : Tx unit :=
  do% lift (guard (MaxBatchItems limits <? zlen puts + zlen deletes) "write batch has too many items");
  let% i := calls in
  do% lift (guard (MaxMessageBytes limits <? t_write_size env i puts deletes) "write batch is too large");
  do% call;
  fun t => (Ok tt, {| t_view := apply_deletes deletes (apply_puts puts (t_view t)); t_calls := t_calls t |}).

End Client.

(** *** The sizes of requests *)

(** The messages of [daemon.proto], in the documented encoding of protocol buffers: a tag of one
    byte, the length as a varint, and the bytes; empty strings and zeros are left out, but
    not in a repeated field. *)
Record RequestContext := { RequestId : bytes; DeadlineUnixMs : Z }.

Definition varint_size (n : Z) : Z := if n =? 0 then 1 else Z.log2 n / 7 + 1.
Definition field_size (len : Z) : Z := 1 + varint_size len + len.
Definition optional_size (len : Z) : Z := if len =? 0 then 0 else field_size len.
Definition sum_sizes {A} (size : A -> Z) (l : list A) : Z := foldr (fun x z => size x + z) 0 l.

Definition RequestContext_size (c : RequestContext) : Z :=
  optional_size (zlen (RequestId c)) + (if DeadlineUnixMs c =? 0 then 0 else 1 + varint_size (wrap_u 64 (DeadlineUnixMs c))).
Definition KeyValue_size (put : Mutation) : Z := optional_size (zlen (m_Key put)) + optional_size (zlen (m_Value put)).

(** Of a transaction: not durable by itself, and without an idempotency key. *)
Definition WriteBatchRequest_size (c : RequestContext) (puts : list Mutation) (deletes : list bytes) (transaction_id : bytes) : Z :=
  field_size (RequestContext_size c) + sum_sizes (fun put => field_size (KeyValue_size put)) puts
  + sum_sizes (fun key => field_size (zlen key)) deletes + optional_size (zlen transaction_id).

(** How the body of a transaction ends: with [Commit] under an idempotency key (empty for
    none), or with [Rollback], whose error is returned ([strict]) or dropped. *)
Inductive ending (A : Type) :=
| Commit (key : bytes) (a : A)
| Rollback (strict : bool) (a : A).
Arguments Commit {A}.
Arguments Rollback {A}.

Definition MAX_IDEMPOTENCY_KEY_BYTES : Z := 256.

Definition ascii_control (b : byte) : bool := (b2z b <? 32) || (b2z b =? 127).

Definition IDEMPOTENCY_PREFIX : bytes := str "meta:idempotency:".

Definition idempotency_record_key (value : bytes) : result (option bytes) :=
  if bytes_eqb value [] then Ok None
  else
    do! guard ((MAX_IDEMPOTENCY_KEY_BYTES <? zlen value) || existsb ascii_control value) "invalid idempotency key";
    Ok (Some (IDEMPOTENCY_PREFIX ++ value)).

Definition transaction_digest (transaction_id : bytes) : bytes :=
  Sum256 (str "vaulticdb-transaction-commit-v1" ++ [x00] ++ transaction_id).

(** [Storage::commit]: the engine puts the view in the place of the database. *)
Definition commit (env : txnEnv) (db : Database) (v : Data) (key : bytes) : Database * result unit :=
  match t_fate env with
  | Refused e => (db, Err e)
  | fate =>
      let answer := match fate with Lost e => Err e | _ => Ok tt end in
      match idempotency_record_key key with
      | Err e => (db, Err e)
      | Ok None => ({| data := v; idempotency := idempotency db |}, answer)
      | Ok (Some k) =>
          let digest := transaction_digest (t_id env) in
          match idempotency db !! k with
          | Some existing =>
              (db, guard (negb (String.eqb (ir_operation existing) "transaction-commit")
                          || negb (bytes_eqb (ir_request_sha256 existing) digest))
                     "idempotency key is bound to a different operation")
          | None =>
              ({| data := v;
                  idempotency := <[k := {| ir_operation := "transaction-commit"; ir_request_sha256 := digest; ir_durable := true |}]>
                                   (idempotency db) |}, answer)
          end
      end
  end.

Definition transact {A} (env : txnEnv) (db : Database) (body : Tx (ending A)) : Database * result A :=
  match t_begin env with
  | Some e => (db, Err e)
  | None =>
      let (r, t) := body {| t_view := data db; t_calls := 0 |} in
      match r with
      | Err e => (db, Err e)
      | Ok (Rollback strict a) =>
          (db, match t_rollback env with Some e => if strict then Err e else Ok a | None => Ok a end)
      | Ok (Commit key a) => let (db, r) := commit env db (t_view t) key in (db, do! r; Ok a)
      end
  end.

(** [Client.IdempotencyCommitted], a read outside of a transaction with its error *)
Definition IdempotencyCommitted (fault : option string) (db : Database) (key : bytes) : result bool :=
  do! guard (bytes_eqb key []) "idempotency key is required";
  match fault with
  | Some e => Err e
  | None =>
      match idempotency db !! (IDEMPOTENCY_PREFIX ++ key) with
      | None => Ok false
      | Some record =>
          do! guard (negb (String.eqb (ir_operation record) "transaction-commit") || bytes_eqb (ir_request_sha256 record) []
                     || negb (ir_durable record)) "invalid durable transaction idempotency record";
          Ok true
      end
  end.

(** ** Kinds of records *)

Definition kind_in (kinds : list KeyKind) (kind : KeyKind) : bool := existsb (kind_eqb kind) kinds.

Definition mutable_kinds : list KeyKind :=
  [KeyPack; KeyPackAggregate; KeyTierAggregate; KeyReverseManifest; KeyReverseInode; KeyReferenceCount;
   KeyGarbageCollection; KeyCrawlDebt; KeyImportCheckpoint; KeySnapshotImportCheckpoint; KeyExportCheckpoint;
   KeyPackHistoryBucket; KeyHistoryRawFloor; KeyHistoryEnabledAt; KeyPackPlacement; KeyBackendPack;
   KeyPlacementDeleteQueue; KeyPlacementRequest; KeyRepackLineage; KeyPromotionEligibility; KeyAnalyticsFact;
   KeyAnalyticsCache; KeyAnalyticsMetadata; KeyAnalyticsBuildCheckpoint; KeyAnalyticsDictionary;
   KeyAnalyticsFactSegment; KeyAnalyticsSegmentMetadata; KeyAnalyticsDimensionIndex; KeyAnalyticsResidency;
   KeyAnalyticsWatermark; KeyAnalyticsManifest; KeyAnalyticsQueryResult; KeyAnalyticsQueryHeat;
   KeyAnalyticsQueryView; KeyAnalyticsQueryJob; KeyGrowthTime; KeyGrowthPath; KeyUserSummary; KeyGroupSummary;
   KeyUserStats; KeyGroupStats; KeyUserChurn; KeyUserInode; KeyUserBlob; KeyUserBlobContribution;
   KeyAnalyticsDerivedMarker; KeyPathVersion; KeyUIDExclusionPolicy].

Definition validateMutableKey (key : bytes) : result unit :=
  let! parsed := ParseKey key in
  if kind_in mutable_kinds (PK.Kind parsed) then Ok tt
  else if kind_eqb (PK.Kind parsed) KeyPackHistory then Err "pack history events are append-only"
  else if kind_eqb (PK.Kind parsed) KeyNextRevision then Err "revision sequence requires AllocateRevision"
  else Err "schema key requires a dedicated transactional operation".

Definition delete_kinds : list KeyKind :=
  [KeyReverseManifest; KeyReverseInode; KeyReferenceCount; KeyGarbageCollection; KeyExportIndexCheckpoint;
   KeyPackHistory; KeyPackHistoryBucket; KeyPackPlacement; KeyBackendPack; KeyPlacementDeleteQueue;
   KeyPlacementRequest; KeyRepackLineage; KeyPromotionEligibility; KeyAnalyticsFact; KeyAnalyticsCache;
   KeyAnalyticsMetadata; KeyAnalyticsBuildCheckpoint; KeyAnalyticsDictionary; KeyAnalyticsFactSegment;
   KeyAnalyticsSegmentMetadata; KeyAnalyticsDimensionIndex; KeyAnalyticsResidency; KeyAnalyticsDelta;
   KeyAnalyticsWatermark; KeyAnalyticsManifest; KeyAnalyticsQueryResult; KeyAnalyticsQueryHeat;
   KeyAnalyticsQueryView; KeyAnalyticsQueryJob; KeyGrowthTime; KeyGrowthPath; KeyUserSummary; KeyGroupSummary;
   KeyUserStats; KeyGroupStats; KeyUserChurn; KeyUserInode; KeyUserBlob; KeyUserBlobContribution;
   KeyAnalyticsDerivedMarker; KeyPathVersion; KeyUIDExclusionPolicy].

Definition validateMutableDeleteKey (key : bytes) : result unit :=
  let! parsed := ParseKey key in
  guard (negb (kind_in delete_kinds (PK.Kind parsed))) "schema key must remain visible and cannot be deleted".

Definition immutable_kinds : list KeyKind :=
  [KeyBlob; KeyInodeRevision; KeyDirectoryRevision; KeySnapshot; KeyPackHistory].

Definition publish_kinds : list KeyKind :=
  [KeyPack; KeyPackAggregate; KeyTierAggregate; KeyReverseManifest; KeyReverseInode; KeyReferenceCount;
   KeyGarbageCollection; KeyCrawlDebt; KeyImportCheckpoint; KeySnapshotImportCheckpoint; KeyExportCheckpoint;
   KeyPackHistoryBucket; KeyHistoryRawFloor; KeyHistoryEnabledAt; KeyPackPlacement; KeyBackendPack;
   KeyPlacementDeleteQueue; KeyPlacementRequest; KeyRepackLineage; KeyPromotionEligibility; KeyAnalyticsFact;
   KeyAnalyticsCache; KeyAnalyticsMetadata; KeyAnalyticsBuildCheckpoint; KeyPathVersion].

(** Whether the record is immutable. *)
Definition validatePublishKey (key : bytes) : result bool :=
  let! parsed := ParseKey key in
  if kind_in immutable_kinds (PK.Kind parsed) then Ok true
  else if kind_in publish_kinds (PK.Kind parsed) then Ok false
  else if kind_eqb (PK.Kind parsed) KeyContentManifest then Err "content manifests require CreateContentManifest"
  else if kind_eqb (PK.Kind parsed) KeyNextRevision then Err "revision sequence requires AllocateRevision"
  else Err "schema key requires a dedicated transactional operation".

(** ** Batches *)

Definition put_size (put : Mutation) : Z := zlen (m_Key put) + zlen (m_Value put) + 32.
Definition delete_size (key : bytes) : Z := zlen key + 16.

Section Batches.
Context {A : Type} (size : A -> Z) (limits : Limits) (maxBytes : Z).

(** The inner loop: the items of the next message, and the others. *)
Fixpoint span_batch (used n : Z) (items : list A) : result (list A * list A) :=
  match items with
  | [] => Ok ([], [])
  | item :: rest =>
      if negb (n <? MaxBatchItems limits) then Ok ([], items)
      else
        do! guard (maxBytes <? size item) "schema mutation exceeds daemon message limit";
        if maxBytes <? used + size item then Ok ([], items)
        else let! (batch, others) := span_batch (used + size item) (n + 1) rest in Ok (item :: batch, others)
  end.

(** The outer loop; every message has an item, so as many rounds as items are enough. *)
Fixpoint write_batches (fuel : nat) (write : list A -> Tx unit) (items : list A) : Tx unit :=
  match items, fuel with
  | [], _ => ret tt
  | _, O => lift (Err "fuel")
  | _, S fuel =>
      let% (batch, others) := lift (span_batch 128 0 items) in
      do% lift (guard (Nat.eqb (length batch) 0) "schema mutation batch made no progress");
      do% write batch;
      write_batches fuel write others
  end.

End Batches.

Definition writeTransactionBatches (limits : Limits) (env : txnEnv) (puts : list Mutation) (deletes : list bytes) : Tx unit :=
  do% lift (guard ((MaxBatchItems limits =? 0) || (MaxMessageBytes limits <? 1024))
              "vaulticdb advertised insufficient transaction batch limits");
  let maxBytes := MaxMessageBytes limits - 512 in
  do% write_batches put_size limits maxBytes (length puts) (fun batch => WriteBatch limits env batch []) puts;
  write_batches delete_size limits maxBytes (length deletes) (fun batch => WriteBatch limits env [] batch) deletes.

(** ** Mutable batches *)

(** The reader of JSON documents, of which the schema asks whether a document is valid and
    for the tree of a snapshot. *)
Class JSON := { json_valid : bytes -> bool; json_tree : bytes -> option bytes }.

Section Writes.
Context {json : JSON}.

Fixpoint distinct_keys (seen : gset bytes) (keys : list bytes) : result unit :=
  match keys with
  | [] => Ok tt
  | key :: keys =>
      do! guard (bool_decide (key ∈ seen)) "schema batch contains duplicate key";
      distinct_keys ({[key]} ∪ seen) keys
  end.

Definition validateDistinctMutations (puts : list Mutation) (deletes : list bytes) : result unit :=
  distinct_keys ∅ (map m_Key puts ++ deletes).

Fixpoint each {A} (f : A -> result unit) (l : list A) : result unit :=
  match l with
  | [] => Ok tt
  | a :: l => do! f a; each f l
  end.

Definition validateRelatedMutations (puts : list Mutation) (deletes : list bytes) : result unit :=
  do! validateDistinctMutations puts deletes;
  do! each (fun put => do! validateMutableKey (m_Key put); ValidateValue json_valid json_tree (m_Key put) (m_Value put)) puts;
  each validateMutableDeleteKey deletes.

(** [WriteMutableBatch]: one write of the daemon, with [proto.Size] of its request, which is
    applied or not; [acknowledged] is its answer about durability. *)
Definition WriteMutableBatch (limits : Limits) (size : list Mutation -> list bytes -> Z) (write : fate) (acknowledged : bool) (db : Database)
    (puts : list Mutation) (deletes : list bytes) (durable : bool) : Database * result unit :=
  match (do! validateRelatedMutations puts deletes;
         do! guard (MaxBatchItems limits <? zlen puts + zlen deletes) "write batch has too many items";
         guard (MaxMessageBytes limits <? size puts deletes) "write batch is too large") with
  | Err e => (db, Err e)
  | Ok _ =>
      let written := {| data := apply_deletes deletes (apply_puts puts (data db)); idempotency := idempotency db |} in
      match write with
      | Refused e => (db, Err e)
      | Lost e => (written, Err e)
      | Applied => (written, guard (durable && negb acknowledged) "vaulticdb did not acknowledge durable schema write")
      end
  end.

Definition Put (limits : Limits) (size : list Mutation -> list bytes -> Z) (write : fate) (acknowledged : bool) (db : Database) (key value : bytes) (durable : bool)
    : Database * result unit :=
  WriteMutableBatch limits size write acknowledged db [{| m_Key := key; m_Value := value |}] [] durable.

(** ** Published batches *)

(** The first loop: each put with whether it is immutable. *)
Fixpoint validate_puts (seen : gset bytes) (puts : list Mutation) : result (list (Mutation * bool) * gset bytes) :=
  match puts with
  | [] => Ok ([], seen)
  | put :: puts =>
      do! guard (bool_decide (m_Key put ∈ seen)) "schema batch contains duplicate key";
      let! immutable := validatePublishKey (m_Key put) in
      do! ValidateValue json_valid json_tree (m_Key put) (m_Value put);
      let! (rest, seen) := validate_puts ({[m_Key put]} ∪ seen) puts in
      Ok ((put, immutable) :: rest, seen)
  end.

Fixpoint validate_deletes (seen : gset bytes) (deletes : list bytes) : result unit :=
  match deletes with
  | [] => Ok tt
  | key :: deletes =>
      do! guard (bool_decide (key ∈ seen)) "schema batch contains duplicate key";
      do! validateMutableDeleteKey key;
      validate_deletes ({[key]} ∪ seen) deletes
  end.

(** The immutable puts and the values that are stored under their keys: each must agree, and
    those that are stored already are left out. *)
Fixpoint missing_puts (puts : list Mutation) (found : list (option bytes)) : result (list Mutation) :=
  match puts, found with
  | put :: puts, value :: found =>
      match value with
      | Some v =>
          do! guard (negb (bytes_eqb v (m_Value put))) "immutable schema record already exists with different data";
          missing_puts puts found
      | None => let! rest := missing_puts puts found in Ok (put :: rest)
      end
  | _, _ => Ok []
  end.

(** The puts in their order without the immutable ones that are not in [missing]. *)
Definition remaining (puts : list (Mutation * bool)) (missing : list Mutation) : list Mutation :=
  map fst (List.filter (fun p => negb (snd p) || existsb (fun m => bytes_eqb (m_Key m) (m_Key (fst p))) missing) puts).

Definition publish_body (limits : Limits) (env : txnEnv) (puts : list (Mutation * bool)) (deletes : list bytes) (key : bytes)
    : Tx (ending unit) :=
  let immutable := map fst (List.filter snd puts) in
  let% missing := (if Nat.eqb (length immutable) 0 then ret []
                   else let% found := MultiGet limits env (map m_Key immutable) in lift (missing_puts immutable found)) in
  let puts := remaining puts missing in
  if Nat.eqb (length puts) 0 && Nat.eqb (length deletes) 0 then ret (Rollback true tt)
  else
    do% writeTransactionBatches limits env puts deletes;
    ret (Commit key tt).

Definition publishSchemaBatch (limits : Limits) (env : txnEnv) (db : Database) (puts : list Mutation) (deletes : list bytes)
    (idempotencyKey : bytes) : Database * result unit :=
  match (let! (checked, seen) := validate_puts ∅ puts in
         do! validate_deletes seen deletes;
         Ok checked) with
  | Err e => (db, Err e)
  | Ok checked => transact env db (publish_body limits env checked deletes idempotencyKey)
  end.

Definition PublishSchemaBatch (limits : Limits) (env : txnEnv) (db : Database) (puts : list Mutation) (deletes : list bytes)
    : Database * result unit :=
  publishSchemaBatch limits env db puts deletes [].

Definition PublishSchemaBatchWithIdempotency (limits : Limits) (env : txnEnv) (db : Database) (puts : list Mutation)
    (deletes : list bytes) (idempotencyKey : bytes) : Database * result unit :=
  if bytes_eqb idempotencyKey [] then (db, Err "idempotency key is required")
  else publishSchemaBatch limits env db puts deletes idempotencyKey.

End Writes.

(** ** Revisions *)

Definition revisionAllocationAttempts : nat := 128.

Definition allocate_body (limits : Limits) (env : txnEnv) (count : Z) : Tx Z :=
  let% encoded := Get env NextRevisionKey in
  let% next := match encoded with Some b => lift (UnmarshalNextRevision b) | None => ret 1 end in
  do% lift (guard (MaxUint64 - count <? next) "repository revision sequence exhausted");
  let% encodedNext := lift (MarshalNextRevision (next + count)) in
  do% WriteBatch limits env [{| m_Key := NextRevisionKey; m_Value := encodedNext |}] [];
  ret next.

(** The attempts, repeated when the commit is aborted; the other clients act between them,
    and [canceled] is the end of the context while the attempt waits. *)
Fixpoint allocate_loop (fuel : nat) (limits : Limits) (envs : nat -> txnEnv) (others : nat -> Database -> Database)
    (canceled : nat -> bool) (attempt : nat) (db : Database) (count : Z) : Database * result (Z * Z) :=
  match fuel with
  | O => (db, Err "allocate repository revision: transaction conflict retry limit exceeded")
  | S fuel =>
      let env := envs attempt in
      match t_begin env with
      | Some e => (db, Err e)
      | None =>
          match allocate_body limits env count {| t_view := data db; t_calls := 0 |} with
          | (Err e, _) => (db, Err e)
          | (Ok next, t) =>
              match commit env db (t_view t) [] with
              | (db, Ok _) => (db, Ok (next, Z.of_nat attempt))
              | (db, Err e) =>
                  if negb (String.eqb e code_Aborted) then (db, Err e)
                  else if canceled attempt then (db, Err "context canceled")
                  else allocate_loop fuel limits envs others canceled (S attempt) (others attempt db) count
              end
          end
      end
  end.

Definition AllocateRevisionBlockWithRetryCount (limits : Limits) (envs : nat -> txnEnv) (others : nat -> Database -> Database)
    (canceled : nat -> bool) (db : Database) (count : Z) : Database * result (Z * Z) :=
  if count =? 0 then (db, Err "revision block size must be positive")
  else allocate_loop revisionAllocationAttempts limits envs others canceled 0 db count.

Definition AllocateRevisionBlock (limits : Limits) (envs : nat -> txnEnv) (others : nat -> Database -> Database)
    (canceled : nat -> bool) (db : Database) (count : Z) : Database * result Z :=
  let (db, r) := AllocateRevisionBlockWithRetryCount limits envs others canceled db count in
  (db, let! (first, _) := r in Ok first).

End Store.

(** ** Theory *)

Module StoreTheory.
Import Store.

Lemma bind_ok {A B} (m : Tx A) (k : A -> Tx B) t b t' :
  bind m k t = (Ok b, t') <-> exists a t1, m t = (Ok a, t1) /\ k a t1 = (Ok b, t').
Proof.
  unfold bind. destruct (m t) as [[a|e] t1]; split.
  - intros H. by exists a, t1.
  - by intros (? & ? & [= -> ->] & H).
  - done.
  - by intros (? & ? & ? & ?).
Qed.

Lemma lift_ok {A} (r : result A) t a t' : lift r t = (Ok a, t') <-> r = Ok a /\ t' = t.
Proof. unfold lift. split; [by intros [= -> ->] | by intros [-> ->]]. Qed.

Lemma ret_ok {A} (x : A) t a t' : ret x t = (Ok a, t') <-> a = x /\ t' = t.
Proof. unfold ret. split; [by intros [= -> ->] | by intros [-> ->]]. Qed.

(** Decompose a successful run. *)
Ltac inv_tx :=
  repeat match goal with
  | H : bind _ _ _ = (Ok _, _) |- _ =>
      let a := fresh "a" in let t := fresh "t" in let E := fresh "E" in
      apply bind_ok in H; destruct H as (a & t & E & H)
  | H : lift _ _ = (Ok _, _) |- _ => apply lift_ok in H; destruct H as [H ?]; subst
  | H : ret _ _ = (Ok _, _) |- _ => apply ret_ok in H; destruct H; subst
  | H : guard _ _ = Ok ?u |- _ => destruct u; apply guard_ok in H
  end.

Section Calls.
Context (limits : Limits) (env : txnEnv).

Lemma call_ok t u t' : call env t = (Ok u, t') -> t_view t' = t_view t.
Proof. unfold call. intros [= _ <-]. done. Qed.

Lemma Get_ok key t v t' : Get env key t = (Ok v, t') -> v = t_view t !! key /\ t_view t' = t_view t.
Proof.
  unfold Get, view. intros H. inv_tx. apply call_ok in E. injection E0 as <- <-. by rewrite E.
Qed.

Lemma MultiGet_ok keys t vs t' : MultiGet limits env keys t = (Ok vs, t') ->
  zlen keys <= MaxBatchItems limits /\ vs = map (fun key => t_view t !! key) keys /\ t_view t' = t_view t.
Proof.
  unfold MultiGet, view, calls. intros H. inv_tx. injection E0 as <- <-. apply call_ok in E2. injection E3 as <- <-. split_bools. by rewrite E2.
Qed.

Lemma WriteBatch_ok puts deletes t u t' : WriteBatch limits env puts deletes t = (Ok u, t') ->
  t_view t' = apply_deletes deletes (apply_puts puts (t_view t)).
Proof. unfold WriteBatch, calls. intros H. inv_tx. injection E0 as <- <-. apply call_ok in E2. injection H as _ <-. cbn. by rewrite E2. Qed.

End Calls.

(** *** Batches *)

Lemma apply_puts_app a b v : apply_puts (a ++ b) v = apply_puts b (apply_puts a v).
Proof. apply foldl_app. Qed.
Lemma apply_deletes_app a b v : apply_deletes (a ++ b) v = apply_deletes b (apply_deletes a v).
Proof. apply foldl_app. Qed.

Lemma apply_puts_other puts v key : key ∉ map m_Key puts -> apply_puts puts v !! key = v !! key.
Proof.
  revert v. induction puts as [|p puts IH]; intros v N; cbn; [done|]. cbn in N. apply not_elem_of_cons in N as [N1 N2].
  fold (apply_puts puts (<[m_Key p := m_Value p]> v)). rewrite IH by done. by rewrite lookup_insert_ne.
Qed.

Lemma apply_puts_elem puts v p : NoDup (map m_Key puts) -> p ∈ puts -> apply_puts puts v !! m_Key p = Some (m_Value p).
Proof.
  revert v. induction puts as [|q puts IH]; intros v N I; [by inversion I|]. cbn [map] in N. apply NoDup_cons in N as [N1 N2].
  cbn. fold (apply_puts puts (<[m_Key q := m_Value q]> v)). apply elem_of_cons in I as [->|I]; [|by apply IH].
  rewrite apply_puts_other by done. apply lookup_insert_eq.
Qed.

Lemma apply_deletes_lookup deletes v key :
  apply_deletes deletes v !! key = if decide (key ∈ deletes) then None else v !! key.
Proof.
  revert v. induction deletes as [|d deletes IH]; intros v; cbn; [done|]. fold (apply_deletes deletes (base.delete d v)). rewrite IH.
  destruct (decide (key = d)) as [->|N].
  - rewrite lookup_delete_eq. rewrite (decide_True (P := d ∈ d :: deletes)) by (by left). by case_decide.
  - rewrite lookup_delete_ne by done. repeat case_decide; set_solver.
Qed.

Section Spans.
Context {A : Type} (size : A -> Z) (limits : Limits) (maxBytes : Z).

(** A message has at most the items and the bytes that the daemon takes. *)
Lemma span_batch_spec items : forall used n batch others, span_batch size limits maxBytes used n items = Ok (batch, others) ->
  batch ++ others = items /\ (batch <> [] -> n + zlen batch <= MaxBatchItems limits /\ used + foldr (fun x z => size x + z) 0 batch <= maxBytes).
Proof.
  induction items as [|x items IH]; intros used n batch others E; cbn [span_batch] in E; [by injection E as <- <-|].
  destruct (n <? MaxBatchItems limits) eqn:L; cbn [negb] in E; [|by injection E as <- <-].
  apply rbind_ok in E as ([] & _ & E). destruct (maxBytes <? used + size x) eqn:U; [by injection E as <- <-|].
  apply rbind_ok in E as ([b o] & S & E). injection E as <- <-. apply IH in S as [S1 S2]. split; [by rewrite <- S1|].
  intros _. split_bools. destruct b as [|y b]; [cbn; split; unfold zlen; cbn; lia|].
  destruct S2 as [S2 S3]; [done|]. cbn [foldr] in *. unfold zlen in *. cbn [length] in *. lia.
Qed.

Context (write : list A -> Tx unit) (f : list A -> Data -> Data).
Context (write_ok : forall batch t t', write batch t = (Ok tt, t') -> t_view t' = f batch (t_view t)).
Context (f_app : forall a b v, f (a ++ b) v = f b (f a v)) (f_nil : forall v, f [] v = v).

Lemma write_batches_view fuel : forall items t t', write_batches size limits maxBytes fuel write items t = (Ok tt, t') ->
  t_view t' = f items (t_view t).
Proof.
  induction fuel as [|fuel IH]; intros items t t' H; destruct items as [|x items]; cbn [write_batches] in H.
  1,3: apply ret_ok in H as [_ ->]; by rewrite f_nil.
  - by inv_tx.
  - apply bind_ok in H as ([b o] & t1 & S & H). inv_tx. apply span_batch_spec in S as [<- _].
    destruct a0. apply write_ok in E0. apply IH in H. by rewrite f_app, H, E0.
Qed.

End Spans.

Lemma writeTransactionBatches_view limits env puts deletes t t' :
  writeTransactionBatches limits env puts deletes t = (Ok tt, t') ->
  t_view t' = apply_deletes deletes (apply_puts puts (t_view t)).
Proof.
  unfold writeTransactionBatches. intros H. inv_tx. destruct a0.
  apply (write_batches_view _ _ _ _ apply_puts) in E0; [|intros b s s' W; by apply WriteBatch_ok in W | apply apply_puts_app | done].
  apply (write_batches_view _ _ _ _ apply_deletes) in H; [|intros b s s' W; by apply WriteBatch_ok in W | apply apply_deletes_app | done].
  by rewrite H, E0.
Qed.

(** *** Transactions *)

Lemma commit_cases env db v key db' r : commit env db v key = (db', r) ->
  db' = db \/ data db' = v.
Proof. unfold commit. repeat case_match; intros [= <- <-]; auto. Qed.

(** The transaction is not one that was committed before. *)
Definition fresh_transaction (env : txnEnv) (db : Database) : Prop :=
  forall k record, idempotency db !! k = Some record -> ir_request_sha256 record <> transaction_digest (t_id env).

Lemma commit_ok env db v key db' : fresh_transaction env db -> commit env db v key = (db', Ok tt) -> data db' = v.
Proof.
  intros F. unfold commit. destruct (t_fate env); [done| |].
  all: destruct (idempotency_record_key key) as [[k|]|]; [|by intros [= <-]|done].
  all: destruct (idempotency db !! k) as [x|] eqn:X; [|by intros [= <-]].
  all: intros [= _ G]; apply guard_ok in G; split_bools; by apply F in X.
Qed.

Lemma transact_cases {A} env db (body : Tx (ending A)) db' r : transact env db body = (db', r) ->
  db' = db \/ exists key a t, body {| t_view := data db; t_calls := 0 |} = (Ok (Commit key a), t) /\ data db' = t_view t.
Proof.
  unfold transact. destruct (t_begin env); [intros [= <- _]; by left|].
  destruct (body _) as [[[key a|strict a]|e] t]; [|intros [= <- _]; by left..].
  destruct (commit _ _ _ _) as [d c] eqn:C. intros [= <- _]. apply commit_cases in C as [->|D]; [by left|].
  right. by exists key, a, t.
Qed.

Lemma transact_ok {A} env db (body : Tx (ending A)) db' a : fresh_transaction env db -> transact env db body = (db', Ok a) ->
  (exists key t, body {| t_view := data db; t_calls := 0 |} = (Ok (Commit key a), t) /\ data db' = t_view t)
  \/ (exists strict t, body {| t_view := data db; t_calls := 0 |} = (Ok (Rollback strict a), t) /\ db' = db).
Proof.
  intros F. unfold transact. destruct (t_begin env); [done|].
  destruct (body _) as [[[key b|strict b]|e] t]; [| |done].
  - destruct (commit _ _ _ _) as [d c] eqn:C. intros [= <- R]. apply rbind_ok in R as ([] & -> & [= ->]).
    left. exists key, t. split; [done|]. by eapply commit_ok.
  - intros [= <- R]. right. exists strict, t. split; [|done]. repeat case_match; congruence.
Qed.

(** *** Published batches *)

(** What a batch means: its puts are stored, its deletes are gone and the rest is as before. *)
Definition published (puts : list Mutation) (deletes : list bytes) (old new : Data) : Prop :=
  (forall p, p ∈ puts -> new !! m_Key p = Some (m_Value p))
  /\ (forall key, key ∈ deletes -> new !! key = None)
  /\ (forall key, key ∉ map m_Key puts -> key ∉ deletes -> new !! key = old !! key).

Section Publish.
Context {json : JSON}.

Lemma validate_puts_spec puts : forall seen checked seen', validate_puts seen puts = Ok (checked, seen') ->
  map fst checked = puts /\ NoDup (map m_Key puts) /\ (forall key, key ∈ seen' <-> key ∈ seen \/ key ∈ map m_Key puts)
  /\ (forall key, key ∈ map m_Key puts -> key ∉ seen)
  /\ Forall (fun p => validatePublishKey (m_Key (fst p)) = Ok (snd p)
                      /\ ValidateValue json_valid json_tree (m_Key (fst p)) (m_Value (fst p)) = Ok tt) checked.
Proof.
  induction puts as [|p puts IH]; intros seen checked seen' E; cbn [validate_puts] in E.
  { injection E as <- <-. split_and!; [done | constructor | intros key; cbn; set_solver | intros key K; by inversion K | constructor]. }
  apply rbind_ok in E as ([] & G & E). apply guard_ok, bool_decide_eq_false in G.
  apply rbind_ok in E as (b & B & E). apply rbind_ok in E as ([] & V & E). apply rbind_ok in E as ([rest s] & R & E).
  injection E as <- <-. apply IH in R as (F & N & M & D & A). cbn [map]. split_and!.
  - by rewrite F.
  - constructor; [|done]. intros K. apply D in K. apply K, elem_of_union. left. by apply elem_of_singleton.
  - intros key. rewrite M, elem_of_union, elem_of_singleton, elem_of_cons. clear. intuition.
  - intros key K. apply elem_of_cons in K as [->|K]; [done|]. apply D in K. rewrite elem_of_union in K. intuition.
  - by constructor.
Qed.

Lemma validate_deletes_spec deletes : forall seen, validate_deletes seen deletes = Ok tt ->
  Forall (fun key => key ∉ seen /\ validateMutableDeleteKey key = Ok tt) deletes.
Proof.
  induction deletes as [|d deletes IH]; intros seen E; cbn [validate_deletes] in E; [constructor|].
  apply rbind_ok in E as ([] & G & E). apply guard_ok, bool_decide_eq_false in G. apply rbind_ok in E as ([] & V & E).
  apply IH in E. constructor; [done|]. eapply Forall_impl; [exact E|]. intros key [K1 K2]. split; [set_solver|done].
Qed.

Lemma missing_puts_spec (v : Data) puts : forall missing, missing_puts puts (map (fun key => v !! key) (map m_Key puts)) = Ok missing ->
  Forall (fun p => (v !! m_Key p = None /\ p ∈ missing) \/ v !! m_Key p = Some (m_Value p)) puts
  /\ Forall (fun p => v !! m_Key p = None) missing.
Proof.
  induction puts as [|p puts IH]; intros missing E; cbn [map missing_puts] in E; [injection E as <-; split; constructor|].
  destruct (v !! m_Key p) as [x|] eqn:X.
  - apply rbind_ok in E as ([] & G & E). apply guard_ok in G. split_bools. subst x. apply IH in E as [E1 E2].
    split; [constructor; [by right|done]|done].
  - apply rbind_ok in E as (rest & R & E). injection E as <-. apply IH in R as [R1 R2]. split; constructor; try done.
    + left. split; [done|by left].
    + eapply Forall_impl; [exact R1|]. intros q [[Q1 Q2]|Q]; [left; split; [done|by right] | by right].
Qed.

Lemma elem_of_remaining p checked missing : p ∈ remaining checked missing <->
  exists b, (p, b) ∈ checked /\ (b = false \/ exists m, m ∈ missing /\ m_Key m = m_Key p).
Proof.
  unfold remaining. rewrite list_elem_of_fmap. setoid_rewrite list_elem_of_In. setoid_rewrite filter_In. split.
  - intros ([q b] & -> & I & E). cbn [fst snd] in E. exists b. split; [done|]. destruct b; [right|by left]. cbn [negb orb] in E.
    apply existsb_exists in E as (m & M & E). apply bytes_eqb_eq in E. by exists m.
  - intros (b & I & E). exists (p, b). split_and!; [done|done|]. cbn [fst snd]. destruct E as [->|(m & M & E)]; [done|].
    apply orb_true_iff. right. apply existsb_exists. exists m. split; [done | by apply bytes_eqb_eq].
Qed.

(** The end of the body: what it wrote, and that immutable records agree. *)
Lemma publish_body_ok limits env checked deletes key t e t' :
  publish_body limits env checked deletes key t = (Ok e, t') ->
  exists missing, Forall (fun p => snd p = true -> t_view t !! m_Key (fst p) = None /\ fst p ∈ missing
                                   \/ t_view t !! m_Key (fst p) = Some (m_Value (fst p))) checked
    /\ Forall (fun p => t_view t !! m_Key p = None) missing
    /\ (e = Commit key tt /\ t_view t' = apply_deletes deletes (apply_puts (remaining checked missing) (t_view t))
         \/ e = Rollback true tt /\ remaining checked missing = [] /\ deletes = []).
Proof.
  unfold publish_body. set (immutable := map fst (List.filter snd checked)). intros H.
  apply bind_ok in H as (missing & t1 & M & H). exists missing.
  assert (M' : t_view t1 = t_view t /\ missing_puts immutable (map (fun key => t_view t !! key) (map m_Key immutable)) = Ok missing).
  { destruct (Nat.eqb (length immutable) 0) eqn:L.
    - apply ret_ok in M as [-> ->]. apply Nat.eqb_eq in L. apply nil_length_inv in L. by rewrite L.
    - apply bind_ok in M as (found & t2 & G & M). apply MultiGet_ok in G as (_ & -> & V). apply lift_ok in M as [M ->]. done. }
  destruct M' as [V M']. apply missing_puts_spec in M' as [M1 M2]. split_and!.
  - apply Forall_forall. intros [p b] I B. cbn [fst snd] in *. subst b. eapply (proj1 (Forall_forall _ _) M1), list_elem_of_fmap.
    exists (p, true). split; [done|]. apply list_elem_of_In, filter_In. split; [by apply list_elem_of_In|done].
  - done.
  - destruct (Nat.eqb (length (remaining checked missing)) 0 && Nat.eqb (length deletes) 0) eqn:Z.
    + apply ret_ok in H as [-> ->]. split_bools. right. split_and!; [done | by apply nil_length_inv..].
    + inv_tx. destruct a. apply writeTransactionBatches_view in E. left. split; [done|]. by rewrite E, V.
Qed.

Lemma NoDup_filter_map {A B} (f : A -> B) g (l : list A) : NoDup (map f l) -> NoDup (map f (List.filter g l)).
Proof.
  induction l as [|x l IH]; cbn; [done|]. intros [N1 N2]%NoDup_cons. destruct (g x); cbn; [|auto]. constructor; [|auto].
  intros I. apply N1. apply list_elem_of_fmap in I as (y & -> & Y). apply list_elem_of_In, filter_In in Y as [Y _].
  apply list_elem_of_fmap. exists y. split; [done|]. by apply list_elem_of_In.
Qed.

Lemma same_key (l : list Mutation) p q : NoDup (map m_Key l) -> p ∈ l -> q ∈ l -> m_Key p = m_Key q -> p = q.
Proof.
  intros N P Q E. apply list_elem_of_lookup in P as [i P]. apply list_elem_of_lookup in Q as [k Q].
  assert (i = k) as ->; [|congruence]. eapply NoDup_lookup; [exact N|..]; rewrite list_lookup_fmap; [by rewrite P|]. by rewrite Q, E.
Qed.

Lemma publish_body_published (seen : gset bytes) limits env checked deletes key t e t' :
  publish_body limits env checked deletes key t = (Ok e, t') -> NoDup (map m_Key (map fst checked)) ->
  (forall k, k ∈ map m_Key (map fst checked) -> k ∈ seen) -> Forall (fun k => k ∉ seen /\ validateMutableDeleteKey k = Ok tt) deletes ->
  published (map fst checked) deletes (t_view t) (match e with Commit _ _ => t_view t' | Rollback _ _ => t_view t end)
  /\ (forall p v, p ∈ checked -> snd p = true -> t_view t !! m_Key (fst p) = Some v -> v = m_Value (fst p)).
Proof.
  intros H N S D. apply publish_body_ok in H as (missing & A & M & C). rewrite Forall_forall in A. rewrite Forall_forall in M. rewrite Forall_forall in D. split.
  2:{ intros p v P B V. destruct (A p P B) as [[X _]|X]; congruence. }
  assert (Nr : NoDup (map m_Key (remaining checked missing))).
  { unfold remaining. rewrite map_map in *. by apply NoDup_filter_map. }
  assert (R : forall p, p ∈ map fst checked -> p ∈ remaining checked missing \/
    p ∉ remaining checked missing /\ t_view t !! m_Key p = Some (m_Value p)).
  { intros p P. apply list_elem_of_fmap in P as ([q b] & -> & P). cbn [fst].
    destruct (decide (q ∈ remaining checked missing)) as [I|I]; [by left|]. right. split; [done|].
    destruct b; [|destruct I; apply elem_of_remaining; exists false; auto].
    destruct (A (q, true) P eq_refl) as [[_ X]|X]; [|done]. destruct I. apply elem_of_remaining. exists true. eauto. }
  assert (Sub : forall q, q ∈ remaining checked missing -> q ∈ map fst checked)
    by (intros q Q; apply elem_of_remaining in Q as (b & Q & _); apply list_elem_of_fmap; by exists (q, b)).
  destruct C as [[-> ->]|(-> & Z1 & ->)]; (split_and!; [intros p P | intros k K | intros k K1 K2]).
  - rewrite apply_deletes_lookup, decide_False by (intros K; apply D in K as [K _]; apply K, S, list_elem_of_fmap; by exists p).
    destruct (R p P) as [I|[I V]]; [by apply apply_puts_elem|]. rewrite apply_puts_other; [done|].
    intros K. apply list_elem_of_fmap in K as (q & E & Q). apply I. by rewrite (same_key _ p q N P (Sub q Q) E).
  - by rewrite apply_deletes_lookup, decide_True.
  - rewrite apply_deletes_lookup, decide_False, apply_puts_other; [done| |done].
    intros K. apply K1. apply list_elem_of_fmap in K as (q & -> & Q). apply list_elem_of_fmap. exists q. auto.
  - destruct (R p P) as [I|[_ V]]; [rewrite Z1 in I; by inversion I | done].
  - by inversion K.
  - done.
Qed.

Lemma immutable_not_deleted key p : ParseKey key = Ok p ->
  kind_in [KeyBlob; KeyInodeRevision; KeyDirectoryRevision; KeySnapshot] (PK.Kind p) = true ->
  validateMutableDeleteKey key <> Ok tt.
Proof.
  intros P K E. unfold validateMutableDeleteKey in E. rewrite P in E. cbn [rbind] in E. apply guard_ok in E.
  destruct (PK.Kind p); vm_compute in K, E; discriminate.
Qed.

(** The checks before the transaction. *)
Lemma publishSchemaBatch_inv limits env db puts deletes key db' r :
  publishSchemaBatch limits env db puts deletes key = (db', r) ->
  (db' = db /\ exists e, r = Err e) \/
  exists checked seen, validate_puts ∅ puts = Ok (checked, seen) /\ validate_deletes seen deletes = Ok tt
    /\ transact env db (publish_body limits env checked deletes key) = (db', r).
Proof.
  unfold publishSchemaBatch. destruct (validate_puts ∅ puts) as [[checked seen]|] eqn:P; cbn [rbind]; [|intros [= <- <-]; eauto].
  destruct (validate_deletes seen deletes) as [[]|] eqn:D; cbn [rbind]; [|intros [= <- <-]; eauto].
  intros T. right. by exists checked, seen.
Qed.

(** The database after a batch is the one before or has the whole batch. *)
Lemma publishSchemaBatch_cases limits env db puts deletes key db' r :
  publishSchemaBatch limits env db puts deletes key = (db', r) ->
  db' = db \/ published puts deletes (data db) (data db')
    /\ forall k p, ParseKey k = Ok p -> kind_in immutable_kinds (PK.Kind p) = true -> k ∉ deletes ->
       forall v, data db !! k = Some v -> data db' !! k = Some v.
Proof.
  intros E. apply publishSchemaBatch_inv in E as [[-> _]|(checked & seen & P & D & T)]; [by left|].
  apply validate_puts_spec in P as (<- & N & S & _ & F). apply validate_deletes_spec in D.
  apply transact_cases in T as [->|(k0 & a & t & B & V)]; [by left|]. right.
  apply publish_body_published with (seen := seen) in B as [B1 B2];
    [|done | intros k K; apply S; by right | done]. cbn [t_view] in B1, B2. rewrite <- V in B1. split; [done|].
  intros k p Pk K Nd v Vk. destruct (decide (k ∈ map m_Key (map fst checked))) as [I|I].
  - apply list_elem_of_fmap in I as (q & -> & I). destruct B1 as (B1 & _). rewrite (B1 q I). f_equal.
    apply list_elem_of_fmap in I as ([q' b] & -> & I). cbn [fst] in *.
    rewrite Forall_forall in F. destruct (F _ I) as [Fb _]. cbn [fst snd] in Fb. unfold validatePublishKey in Fb.
    rewrite Pk in Fb. cbn [rbind] in Fb. rewrite K in Fb. injection Fb as <-. symmetry. by apply (B2 (q', true)).
  - destruct B1 as (_ & _ & B1). by rewrite B1.
Qed.

Lemma publishSchemaBatch_deletes limits env db puts deletes key db' r :
  publishSchemaBatch limits env db puts deletes key = (db', r) ->
  db' = db \/ Forall (fun k => validateMutableDeleteKey k = Ok tt) deletes.
Proof.
  intros E. apply publishSchemaBatch_inv in E as [[-> _]|(checked & seen & P & D & T)]; [by left|]. right.
  apply validate_deletes_spec in D. eapply Forall_impl; [exact D|]. by intros k [_ K].
Qed.

Lemma publishSchemaBatch_ok limits env db puts deletes key db' : fresh_transaction env db ->
  publishSchemaBatch limits env db puts deletes key = (db', Ok tt) -> published puts deletes (data db) (data db').
Proof.
  intros Fr E. apply publishSchemaBatch_inv in E as [[_ [e [=]]]|(checked & seen & P & D & T)].
  apply validate_puts_spec in P as (<- & N & S & _ & F). apply validate_deletes_spec in D.
  apply transact_ok in T as [(k0 & t & B & V)|(st & t & B & ->)]; [| |done].
  all: apply publish_body_published with (seen := seen) in B as [B1 _]; [|done | intros k K; apply S; by right | done].
  - cbn [t_view] in B1. by rewrite <- V in B1.
  - done.
Qed.

End Publish.

(** *** Revisions *)

(** The next revision that is free. *)
Definition next_revision (v : Data) : Z :=
  match v !! NextRevisionKey with
  | Some b => match UnmarshalNextRevision b with Ok next => next | Err _ => 0 end
  | None => 1
  end.

Lemma UnmarshalNextRevision_marshal n b : uint64 n -> MarshalNextRevision n = Ok b -> UnmarshalNextRevision b = Ok n.
Proof.
  intros R. unfold MarshalNextRevision. destruct (n =? 0) eqn:Z; [done|]. intros [= <-]. unfold marshalNextRevision, UnmarshalNextRevision.
  replace (be 8 n) with (wires [U64 n]) by apply app_nil_r. rewrite newDecoder_wires.
  2:{ unfold zlen. cbn [length wires map concat wire]. rewrite app_nil_r, be_length. vm_compute. discriminate. }
  cbn [rbind]. rewrite u64_wires by done. cbn [rbind]. by rewrite Z.
Qed.

Lemma UnmarshalNextRevision_range b n : UnmarshalNextRevision b = Ok n -> 1 <= n <= MaxUint64.
Proof.
  unfold UnmarshalNextRevision. intros H. inv_results. destruct a0 as [v d]. inv_results. apply u64_inv in E0.
  split_bools. destruct E0 as (_ & _ & _ & T). apply Forall_inv in T. cbn in T. unfold MaxUint64. range.
Qed.

Lemma allocate_body_ok limits env count t next t' : 0 < count -> allocate_body limits env count t = (Ok next, t') ->
  next = next_revision (t_view t) /\ next_revision (t_view t') = next + count /\ 1 <= next /\ next + count <= MaxUint64.
Proof.
  intros C H. unfold allocate_body in H. apply bind_ok in H as (v & t1 & G & H). apply Get_ok in G as [-> V1].
  apply bind_ok in H as (n & t2 & U & H). inv_tx. apply WriteBatch_ok in E1. split_bools.
  assert (N : n = next_revision (t_view t) /\ t2 = t1 /\ 1 <= n).
  { unfold next_revision. destruct (t_view t !! NextRevisionKey).
    - apply lift_ok in U as [U ->]. rewrite U. apply UnmarshalNextRevision_range in U. split_and!; [done|done|lia].
    - by apply ret_ok in U as [-> ->]. }
  destruct N as (N & -> & L). split_and!; [done | | done | lia]. unfold next_revision. rewrite E1.
  unfold apply_deletes, apply_puts. cbn [foldl m_Key m_Value]. rewrite lookup_insert_eq.
  apply UnmarshalNextRevision_marshal in E0; [by rewrite E0|]. unfold MaxUint64 in *. range.
Qed.

Lemma allocate_loop_spec fuel limits envs others canceled count : 0 < count ->
  (forall i d, next_revision (data d) <= next_revision (data (others i d))) ->
  forall attempt db db' r, allocate_loop fuel limits envs others canceled attempt db count = (db', r) ->
  next_revision (data db) <= next_revision (data db') /\
  forall first n, r = Ok (first, n) ->
    1 <= first /\ next_revision (data db) <= first /\ next_revision (data db') = first + count /\ first + count <= MaxUint64.
Proof.
  intros C M. induction fuel as [|fuel IH]; intros attempt db db' r E; cbn [allocate_loop] in E; [injection E as <- <-; split; [lia|done]|].
  destruct (t_begin _); [injection E as <- <-; split; [lia|done]|].
  destruct (allocate_body _ _ _ _) as [[next|e] t] eqn:B; [|injection E as <- <-; split; [lia|done]].
  apply allocate_body_ok in B as (N & N' & L & U); [|done]. cbn [t_view] in N.
  destruct (commit _ _ _ _) as [d c] eqn:K.
  assert (D : next_revision (data db) <= next_revision (data d))
    by (apply commit_cases in K as [->| ->]; lia).
  destruct c as [[]|e].
  - injection E as <- <-. split; [done|]. intros f n [= <- <-]. rewrite <- N' in U |- *.
    assert (data d = t_view t) as -> by (unfold commit in K; cbn in K; destruct (t_fate _); by inversion K).
    split_and!; lia.
  - destruct (negb _); [injection E as <- <-; split; [lia|done]|].
    destruct (canceled attempt); [injection E as <- <-; split; [lia|done]|].
    apply IH in E as [E1 E2]. specialize (M attempt d). split; [lia|]. intros f n F. destruct (E2 f n F) as (? & ? & ? & ?). lia.
Qed.

(** What other clients do: they publish batches, write mutable records, or try to allocate a
    block, with whatever outcome. *)
Inductive client_step : Database -> Database -> Prop :=
  | client_publish (json : JSON) limits env puts deletes key d d' r :
      publishSchemaBatch limits env d puts deletes key = (d', r) -> client_step d d'
  | client_write (json : JSON) limits size write acknowledged puts deletes durable d d' r :
      WriteMutableBatch limits size write acknowledged d puts deletes durable = (d', r) -> client_step d d'
  | client_allocate limits envs others canceled attempt count d d' r :
      0 < count -> allocate_loop 1 limits envs others canceled attempt d count = (d', r) ->
      (forall i d, next_revision (data d) <= next_revision (data (others i d))) -> client_step d d'.

Lemma each_ok {A} (f : A -> result unit) l : each f l = Ok tt -> Forall (fun a => f a = Ok tt) l.
Proof. induction l as [|a l IH]; cbn; [constructor|]. intros H. apply rbind_ok in H as ([] & H1 & H2). constructor; [done|by apply IH]. Qed.

Lemma next_revision_same (v v' : Data) : v' !! NextRevisionKey = v !! NextRevisionKey -> next_revision v' = next_revision v.
Proof. unfold next_revision. by intros ->. Qed.

Lemma client_step_next d d' : client_step d d' -> next_revision (data d) <= next_revision (data d').
Proof.
  intros S. destruct S as [json limits env puts deletes key d d' r H|json limits size write ack puts deletes durable d d' r H
    |limits envs others canceled attempt count d d' r C H M]; [| |by apply allocate_loop_spec in H as [? _]].
  - rewrite (next_revision_same (data d) (data d')); [lia|]. destruct (publishSchemaBatch_deletes _ _ _ _ _ _ _ _ H) as [->|D]; [done|].
    pose proof H as I. apply publishSchemaBatch_inv in I as [[-> _]|(checked & seen & P & _ & _)]; [done|].
    apply publishSchemaBatch_cases in H as [->|[(_ & _ & O) _]]; [done|]. apply O.
    + intros (p & Ek & Hp)%list_elem_of_fmap. apply validate_puts_spec in P as (<- & _ & _ & _ & F).
      apply list_elem_of_fmap in Hp as (q & -> & Hq). rewrite Forall_forall in F. destruct (F q Hq) as [V _]. rewrite <- Ek in V. discriminate V.
    + intros K. rewrite Forall_forall in D. specialize (D _ K). discriminate D.
  - unfold WriteMutableBatch in H. destruct (do! _; _) as [[]|] eqn:V; [|injection H as <- _; lia].
    apply rbind_ok in V as ([] & V & _). unfold validateRelatedMutations in V. apply rbind_ok in V as ([] & _ & V). apply rbind_ok in V as ([] & P%each_ok & D%each_ok).
    assert (E : apply_deletes deletes (apply_puts puts (data d)) !! NextRevisionKey = data d !! NextRevisionKey).
    { rewrite apply_deletes_lookup, decide_False, apply_puts_other; [done| |].
      - intros (p & Ek & Hp)%list_elem_of_fmap. rewrite Forall_forall in P. specialize (P p Hp). apply rbind_ok in P as ([] & P & _).
        rewrite <- Ek in P. discriminate P.
      - intros K. rewrite Forall_forall in D. specialize (D _ K). discriminate D. }
    apply next_revision_same in E. destruct write; injection H as <- _; cbn [data]; lia.
Qed.

(** *** Batches are written *)

Lemma varint_size_bound n k : 0 <= n < 2 ^ (7 * k) -> 1 <= k -> 1 <= varint_size n <= k.
Proof.
  intros [N L] K. unfold varint_size. destruct (Z.eqb_spec n 0); [lia|]. assert (Z.log2 n < 7 * k) by (apply Z.log2_lt_pow2; lia).
  pose proof (Z.log2_nonneg n). assert (Z.log2 n / 7 < k) by (apply Z.div_lt_upper_bound; lia). pose proof (Z.div_pos (Z.log2 n) 7). lia.
Qed.

Lemma optional_size_bound n k : 0 <= n < 2 ^ (7 * k) -> 1 <= k -> 0 <= optional_size n <= n + k + 1.
Proof.
  intros N K. unfold optional_size, field_size. destruct (Z.eqb_spec n 0); [lia|]. pose proof (varint_size_bound n k N K). lia.
Qed.

Lemma RequestContext_size_bound c : zlen (RequestId c) <= 28 -> 0 <= RequestContext_size c <= 41.
Proof.
  intros L. pose proof (zlen_nonneg (RequestId c)) as N. unfold RequestContext_size.
  pose proof (optional_size_bound (zlen (RequestId c)) 1 ltac:(cbn; lia) ltac:(lia)) as O.
  destruct (_ =? 0); [lia|]. assert (W : 0 <= wrap_u 64 (DeadlineUnixMs c) < 2 ^ (7 * 10)).
  { unfold wrap_u. pose proof (Z.mod_pos_bound (DeadlineUnixMs c) (2 ^ 64) ltac:(lia)). split; [lia|].
    change (2 ^ (7 * 10)) with (64 * 2 ^ 64). lia. }
  pose proof (varint_size_bound _ 10 W ltac:(lia)). lia.
Qed.

Lemma sum_sizes_nonneg {A} (g : A -> Z) l : (forall x, 0 <= g x) -> 0 <= sum_sizes g l.
Proof. intros P. induction l as [|x l IH]; [done|]. change (sum_sizes g (x :: l)) with (g x + sum_sizes g l). specialize (P x). lia. Qed.

Lemma sum_sizes_bound {A} (f g : A -> Z) (bound : Z) l :
  (forall x, 0 <= g x) -> (forall x, g x <= bound -> f x <= g x) -> sum_sizes g l <= bound -> sum_sizes f l <= sum_sizes g l.
Proof.
  intros P F. induction l as [|x l IH]; [done|]. change (sum_sizes ?h (x :: l)) with (h x + sum_sizes h l). intros S.
  pose proof (sum_sizes_nonneg g l P). pose proof (P x). specialize (F x ltac:(lia)). specialize (IH ltac:(lia)). lia.
Qed.

Lemma put_size_wire put : put_size put <= MaxUint32 -> field_size (KeyValue_size put) <= put_size put.
Proof.
  unfold put_size, KeyValue_size, field_size. intros L. pose proof (zlen_nonneg (m_Key put)). pose proof (zlen_nonneg (m_Value put)).
  unfold MaxUint32 in L. pose proof (optional_size_bound (zlen (m_Key put)) 5 ltac:(cbn; lia) ltac:(lia)).
  pose proof (optional_size_bound (zlen (m_Value put)) 5 ltac:(cbn; lia) ltac:(lia)).
  pose proof (varint_size_bound (optional_size (zlen (m_Key put)) + optional_size (zlen (m_Value put))) 5 ltac:(cbn; lia) ltac:(lia)). lia.
Qed.

Lemma delete_size_wire key : delete_size key <= MaxUint32 -> field_size (zlen key) <= delete_size key.
Proof.
  unfold delete_size, field_size. intros L. pose proof (zlen_nonneg key). unfold MaxUint32 in L.
  pose proof (varint_size_bound (zlen key) 5 ltac:(cbn; lia) ltac:(lia)). lia.
Qed.

(** What is assumed of [proto.Size] and of the rest of a request: the size is that of the
    encoding, the request ID is a prefix of 8 bytes and a number of 64 bits, and the ID
    of the transaction has at most 512 bytes. *)
Record protobuf_sizes (env : txnEnv) (context : nat -> RequestContext) : Prop := {
  ps_write : forall i puts deletes, t_write_size env i puts deletes = WriteBatchRequest_size (context i) puts deletes (t_id env);
  ps_context : forall i, zlen (RequestId (context i)) <= 28;
  ps_id : zlen (t_id env) <= 512 }.

(** The estimate of the batches is enough. *)
Lemma request_fits env context i puts deletes maxBytes :
  protobuf_sizes env context -> maxBytes <= MaxUint32 ->
  128 + (sum_sizes put_size puts + sum_sizes delete_size deletes) <= maxBytes - 512 -> t_write_size env i puts deletes <= maxBytes.
Proof.
  intros [W C I] M B. rewrite W. unfold WriteBatchRequest_size. pose proof (RequestContext_size_bound _ (C i)) as R.
  pose proof (varint_size_bound (RequestContext_size (context i)) 1 ltac:(cbn; lia) ltac:(lia)) as V. unfold field_size at 1.
  pose proof (optional_size_bound (zlen (t_id env)) 2 ltac:(pose proof (zlen_nonneg (t_id env)); cbn; lia) ltac:(lia)) as T.
  assert (P0 : forall put, 0 <= put_size put) by (intros p; unfold put_size; pose proof (zlen_nonneg (m_Key p)); pose proof (zlen_nonneg (m_Value p)); lia).
  assert (D0 : forall key, 0 <= delete_size key) by (intros k; unfold delete_size; pose proof (zlen_nonneg k); lia).
  pose proof (sum_sizes_nonneg _ puts P0). pose proof (sum_sizes_nonneg _ deletes D0).
  pose proof (sum_sizes_bound _ put_size MaxUint32 puts P0 put_size_wire ltac:(lia)).
  pose proof (sum_sizes_bound _ delete_size MaxUint32 deletes D0 delete_size_wire ltac:(lia)). lia.
Qed.

Section Progress.
Context {A : Type} (size : A -> Z) (limits : Limits) (maxBytes : Z).
Context (write : list A -> Tx unit) (items_ok : 1 <= MaxBatchItems limits).
Context (write_total : forall batch t, zlen batch <= MaxBatchItems limits -> 128 + sum_sizes size batch <= maxBytes ->
  exists t', write batch t = (Ok tt, t')).

Lemma span_batch_total items : Forall (fun x => size x <= maxBytes) items -> forall used n,
  exists batch others, span_batch size limits maxBytes used n items = Ok (batch, others).
Proof.
  induction 1 as [|x items X F IH]; intros used n; cbn [span_batch]; [by eexists _, _|].
  destruct (negb _); [by eexists _, _|]. rewrite (proj2 (Z.ltb_ge _ _) X). cbn [guard rbind].
  destruct (maxBytes <? _); [by eexists _, _|]. destruct (IH (used + size x) (n + 1)) as (b & o & ->). by eexists _, _.
Qed.

Lemma write_batches_total fuel : forall items t, Forall (fun x => 128 + size x <= maxBytes) items -> (length items <= fuel)%nat ->
  exists t', write_batches size limits maxBytes fuel write items t = (Ok tt, t').
Proof.
  induction fuel as [|fuel IH]; intros [|x items] t F L; cbn [write_batches length] in *; [by eexists | lia | by eexists|].
  destruct (span_batch_total (x :: items)) with (used := 128) (n := 0) as (b & o & E).
  { eapply Forall_impl; [exact F|]. cbn. lia. }
  assert (Nb : b <> []).
  { intros ->. apply Forall_inv in F. cbn [span_batch] in E. rewrite (proj2 (Z.ltb_lt 0 _)) in E by lia. cbn [negb] in E.
    rewrite (proj2 (Z.ltb_ge _ (size x))) in E by lia. cbn [guard rbind] in E.
    rewrite (proj2 (Z.ltb_ge _ (128 + size x))) in E by lia. apply rbind_ok in E as ([? ?] & _ & [=]). }
  destruct (span_batch_spec _ _ _ _ _ _ _ _ E) as [S1 S2]. specialize (S2 Nb) as [S2 S3].
  unfold bind, lift. rewrite E. destruct b as [|y b]; [done|]. cbn [length Nat.eqb guard].
  destruct (write_total (y :: b) t) as [t1 ->]; [lia|exact S3|]. apply IH.
  - rewrite <- S1 in F. by apply Forall_app in F as [_ F].
  - apply (f_equal length) in S1. rewrite length_app in S1. cbn [length] in S1. lia.
Qed.

End Progress.

Lemma WriteBatch_total limits env puts deletes t : (forall i, t_call env i = None) ->
  zlen puts + zlen deletes <= MaxBatchItems limits -> (forall i, t_write_size env i puts deletes <= MaxMessageBytes limits) ->
  exists t', WriteBatch limits env puts deletes t = (Ok tt, t').
Proof.
  intros F L M. unfold WriteBatch, bind, lift, calls, call. rewrite (proj2 (Z.ltb_ge _ _) L). cbn [guard].
  rewrite (proj2 (Z.ltb_ge _ _) (M _)). cbn [guard]. rewrite F. by eexists.
Qed.

End StoreTheory.

(** ** Properties *)

Module StoreProps.
Import Store StoreTheory.

(** C10. A batch is atomic and immutable records stay as they are: whatever the answers of the
    daemon, the database afterwards is the one before or has the whole batch (its puts
    stored, its deletes gone, the rest as before), the latter when the call succeeds, and a
    blob, revision or snapshot record that was stored is stored with the same value. *)
Theorem publishSchemaBatch_atomic {json : JSON} limits env db puts deletes key db' r :
  publishSchemaBatch limits env db puts deletes key = (db', r) ->
  (db' = db \/ published puts deletes (data db) (data db')) /\
  (fresh_transaction env db -> r = Ok tt -> published puts deletes (data db) (data db')) /\
  (forall k p v, ParseKey k = Ok p -> kind_in [KeyBlob; KeyInodeRevision; KeyDirectoryRevision; KeySnapshot] (PK.Kind p) = true ->
     data db !! k = Some v -> data db' !! k = Some v).
Proof.
  intros E. split_and!.
  - apply publishSchemaBatch_cases in E as [->|[P _]]; auto.
  - intros F ->. by eapply publishSchemaBatch_ok.
  - intros k p v P K V. destruct (publishSchemaBatch_deletes _ _ _ _ _ _ _ _ E) as [->|D]; [done|].
    apply publishSchemaBatch_cases in E as [->|[_ I]]; [done|]. eapply I; [exact P | | | done].
    + by destruct (PK.Kind p); vm_compute in K |- *.
    + rewrite Forall_forall in D. intros X. apply D in X. by eapply immutable_not_deleted.
Qed.

(** C27. Blocks of revisions are fresh: an allocation returns revisions that were free before,
    the next free one afterwards is the first behind the block, and no allocation, whether
    it succeeds or fails with or without effect, makes the next free revision smaller. Zero is
    never handed out and the sequence does not wrap around. Between the attempts the other
    clients may do anything that does not make the next free revision smaller; the
    operations of the store do not ([client_step_next]). *)
Theorem AllocateRevisionBlock_fresh limits envs others canceled db count db' r :
  0 <= count -> (forall i d, next_revision (data d) <= next_revision (data (others i d))) ->
  AllocateRevisionBlock limits envs others canceled db count = (db', r) ->
  next_revision (data db) <= next_revision (data db') /\
  forall first, r = Ok first -> 1 <= first /\ next_revision (data db) <= first
    /\ next_revision (data db') = first + count /\ first + count <= MaxUint64.
Proof.
  intros C M E. unfold AllocateRevisionBlock, AllocateRevisionBlockWithRetryCount in E.
  destruct (Z.eqb_spec count 0) as [->|N]; [injection E as <- <-; split; [lia|done]|].
  destruct (allocate_loop _ _ _ _ _ _ _ _) as [d x] eqn:A. injection E as <- <-.
  apply allocate_loop_spec in A as [A1 A2]; [|lia|done]. split; [done|]. intros first F.
  apply rbind_ok in F as ([f n] & -> & [= <-]). by apply A2 with n.
Qed.

(** C28. The messages of a transaction: with a daemon that answers, every list of mutations
    whose items fit into a message is written completely and in its order; no message
    exceeds the limits on items and bytes that the client checks before it sends one, and
    the loop ends. [proto.Size] is the size of the documented encoding, and the ID of the
    transaction has at most 512 bytes. *)
Theorem writeTransactionBatches_complete limits env context puts deletes t :
  (forall i, t_call env i = None) -> protobuf_sizes env context ->
  1 <= MaxBatchItems limits -> 1024 <= MaxMessageBytes limits <= MaxUint32 ->
  Forall (fun p => 128 + put_size p <= MaxMessageBytes limits - 512) puts ->
  Forall (fun k => 128 + delete_size k <= MaxMessageBytes limits - 512) deletes ->
  exists t', writeTransactionBatches limits env puts deletes t = (Ok tt, t')
    /\ t_view t' = apply_deletes deletes (apply_puts puts (t_view t)).
Proof.
  intros F S I [B U] P D. assert (E : exists t', writeTransactionBatches limits env puts deletes t = (Ok tt, t')).
  { unfold writeTransactionBatches. rewrite (proj2 (Z.eqb_neq _ _)), (proj2 (Z.ltb_ge _ _)) by lia. cbn [orb guard]. unfold bind at 1, lift.
    destruct (write_batches_total put_size limits (MaxMessageBytes limits - 512) (fun batch => WriteBatch limits env batch []) I) with
      (fuel := length puts) (items := puts) (t := t) as [t1 E1]; [|done|done|].
    { intros b s Z M. apply WriteBatch_total; [done|unfold zlen in *; cbn; lia|]. intros i. apply (request_fits _ _ _ _ _ _ S U).
      change (sum_sizes delete_size []) with 0. lia. }
    unfold bind. rewrite E1. apply write_batches_total; [done| |done|done].
    intros b s Z M. apply WriteBatch_total; [done|unfold zlen in *; cbn; lia|]. intros i. apply (request_fits _ _ _ _ _ _ S U).
    change (sum_sizes put_size []) with 0. lia. }
  destruct E as [t' E]. exists t'. split; [done|]. by apply writeTransactionBatches_view in E.
Qed.

(** *** Instances *)

#[local] Instance no_json : JSON := { json_valid _ := false; json_tree _ := None }.

Definition toy_limits : Limits := {| MaxBatchItems := 2; MaxMessageBytes := 1024 |}.
Definition toy_context (i : nat) : RequestContext := {| RequestId := str "vaultic-7"; DeadlineUnixMs := 1700000000000 |}.
Definition answering : txnEnv := {|
  t_begin := None; t_call _ := None; t_read_size _ keys := sum_sizes (fun key => field_size (zlen key)) keys;
  t_write_size i puts deletes := WriteBatchRequest_size (toy_context i) puts deletes (str "txn-1-1");
  t_fate := Applied; t_rollback := None; t_id := str "txn-1-1" |}.

Lemma answering_sizes : protobuf_sizes answering toy_context.
Proof. by split. Qed.
Definition empty_db : Database := {| data := ∅; idempotency := ∅ |}.
Definition toy_blob : Mutation := {|
  m_Key := BlobKey (repeat x0a 32);
  m_Value := match BlobRecord_MarshalBinary (mkBlobRecord [mkBlobLocation (repeat x0b 32) 0 10 0 1]) with Ok b => b | Err _ => [] end |}.

Lemma publishSchemaBatch_atomic_witness :
  published [toy_blob] [] ∅ (data (fst (publishSchemaBatch toy_limits answering empty_db [toy_blob] [] (str "job")))).
Proof.
  apply (publishSchemaBatch_atomic toy_limits answering empty_db [toy_blob] [] (str "job") _ _ (surjective_pairing _)).
  - intros k record R. cbn in R. by rewrite lookup_empty in R.
  - vm_compute. reflexivity.
Defined.

Lemma AllocateRevisionBlock_fresh_witness :
  next_revision (data (fst (AllocateRevisionBlock toy_limits (fun _ => answering) (fun _ d => d) (fun _ => false) empty_db 5))) = 1 + 5.
Proof.
  apply (AllocateRevisionBlock_fresh toy_limits (fun _ => answering) (fun _ d => d) (fun _ => false) empty_db 5 _ _ ltac:(lia)
    ltac:(intros; apply Z.le_refl) (surjective_pairing _)). vm_compute. reflexivity.
Defined.

Lemma writeTransactionBatches_complete_witness : exists t',
  writeTransactionBatches toy_limits answering [toy_blob; toy_blob; toy_blob] [NextRevisionKey] {| t_view := ∅; t_calls := 0 |} = (Ok tt, t')
  /\ t_view t' = apply_deletes [NextRevisionKey] (apply_puts [toy_blob; toy_blob; toy_blob] ∅).
Proof.
  apply (writeTransactionBatches_complete toy_limits answering toy_context [toy_blob; toy_blob; toy_blob] [NextRevisionKey] {| t_view := ∅; t_calls := 0 |});
    [done | exact answering_sizes | cbn; lia | unfold MaxUint32; cbn; lia | repeat constructor; vm_compute; discriminate | repeat constructor; vm_compute; discriminate].
Defined.

End StoreProps.
