(* ===== verification/Catalog.v ===== *)
(** * The pack catalog ([internal/index/daemon/schema_store_import.go],
    [schema_store_reconcile.go], [history.go])

    The transactions that publish, acknowledge and delete packs and that change their usage
    and tier. Each writes the record of the pack, the locations of its blobs, the totals by
    type and tier, and events of the history. The main theorem is that the totals are exact
    in every database these transactions lead to; the others are about the locations of blobs
    and the sequence of events. *)
From stdpp Require Import base list numbers strings gmap.
From Stdlib Require Import ZArith Lia.
From coqutil Require Import Datatypes.RecordSetters.
From S2P Require Import Prelude Codec Keys KeyParse Records MetaRecords Aggregates Store.
Import TriangleBracketNotations.

Module Catalog.
Import Store.

(** ** Locations *)

Definition samePhysicalLocation (left right : BlobLocation) : bool :=
  bytes_eqb (loc_PackID left) (loc_PackID right) && (loc_Offset left =? loc_Offset right)
  && (loc_Length left =? loc_Length right) && (loc_Type left =? loc_Type right).

Definition containsPhysicalLocation (locations : list BlobLocation) (candidate : BlobLocation) : bool :=
  existsb (fun location => samePhysicalLocation location candidate) locations.

(** The inner loop of both merges: the first location of the same place takes the greater
    uncompressed size; a new place is appended. *)
Fixpoint absorb (locations : list BlobLocation) (candidate : BlobLocation) : list BlobLocation :=
  match locations with
  | [] => [candidate]
  | location :: rest =>
      if samePhysicalLocation location candidate
      then (if loc_UncompressedSize location <? loc_UncompressedSize candidate
            then location <| loc_UncompressedSize := loc_UncompressedSize candidate |> else location) :: rest
      else location :: absorb rest candidate
  end.

Definition location_less (left right : BlobLocation) : bool :=
  match bytes_compare (loc_PackID left) (loc_PackID right) with
  | Lt => true
  | Gt => false
  | Eq =>
      if negb (loc_Type left =? loc_Type right) then loc_Type left <? loc_Type right
      else if negb (loc_Offset left =? loc_Offset right) then loc_Offset left <? loc_Offset right
      else if negb (loc_Length left =? loc_Length right) then loc_Length left <? loc_Length right
      else loc_UncompressedSize left <? loc_UncompressedSize right
  end.

Fixpoint insert_location (location : BlobLocation) (l : list BlobLocation) : list BlobLocation :=
  match l with
  | [] => [location]
  | x :: l' => if location_less x location then x :: insert_location location l' else location :: l
  end.

Definition canonicalBlobRecord (record : BlobRecord) : BlobRecord :=
  mkBlobRecord (foldr insert_location [] (foldl absorb [] (Locations record))).

Definition mergeBlobRecords (existing incoming : BlobRecord) : BlobRecord :=
  canonicalBlobRecord (mkBlobRecord (foldl absorb (Locations existing) (Locations incoming))).

(** ** Records of packs *)

Definition appendUniqueID (ids : list ID) (candidate : ID) : list ID :=
  if existsb (bytes_eqb candidate) ids then ids else ids ++ [candidate].

Fixpoint insert_id (id : ID) (l : list ID) : list ID :=
  match l with
  | [] => [id]
  | x :: l' => match bytes_compare x id with Lt => x :: insert_id id l' | _ => id :: l end
  end.
Definition sort_ids (ids : list ID) : list ID := foldr insert_id [] ids.

Definition isUnknownTier (tier : Z) : bool := (tier =? 0) || (tier =? TierUnknown).
Definition isUnknownRetention (source : Z) : bool := (source =? 0) || (source =? RetentionUnknown).

Definition applyPackLifetime (result existing incoming : PackRecord) : PackRecord :=
  let result := if negb (pk_CreationTimeKnown existing) && pk_CreationTimeKnown incoming
                then result <| pk_CreationTime := pk_CreationTime incoming |> <| pk_CreationTimeKnown := true |> else result in
  let result := if isUnknownTier (pk_Tier existing) && negb (isUnknownTier (pk_Tier incoming))
                then result <| pk_Tier := pk_Tier incoming |> else result in
  let result := if bytes_eqb (pk_StorageClass existing) []
                then result <| pk_StorageClass := pk_StorageClass incoming |> else result in
  let result := if isUnknownRetention (pk_RetentionSource existing) && negb (isUnknownRetention (pk_RetentionSource incoming))
                   && pk_CreationTimeKnown result
                then result <| pk_RetentionSource := pk_RetentionSource incoming |>
                            <| pk_MinRetentionUntil := pk_MinRetentionUntil incoming |> else result in
  let result := if negb (pk_DeleteAfter incoming =? 0)
                then result <| pk_DeleteAfter := pk_DeleteAfter incoming |> else result in
  if pk_UsageKnown incoming
  then result <| pk_UsageKnown := true |> <| pk_UsedPayloadBytes := pk_UsedPayloadBytes incoming |>
              <| pk_UnusedPayloadBytes := pk_UnusedPayloadBytes incoming |> else result.

(** [mergeImportedPackRecord] without a source index *)
Definition mergeImportedPackRecord (existing incoming : PackRecord) : PackRecord :=
  let result := existing <| pk_SourceIndexIDs := foldl appendUniqueID (pk_SourceIndexIDs existing) (pk_SourceIndexIDs incoming) |> in
  let result := if pk_PhysicalSizeKnown incoming
                then result <| pk_PhysicalSize := pk_PhysicalSize incoming |> <| pk_HeaderSize := pk_HeaderSize incoming |>
                            <| pk_PhysicalSizeKnown := true |> else result in
  let result := if negb (pk_Type result =? pk_Type incoming) then result <| pk_Type := PackMixed |> else result in
  let result := if pk_Type existing =? PackUnknown then result <| pk_Type := pk_Type incoming |> else result in
  let result := if pk_Type incoming =? PackUnknown then result <| pk_Type := pk_Type existing |> else result in
  let result := applyPackLifetime result existing incoming in
  result <| pk_SourceIndexIDs := sort_ids (pk_SourceIndexIDs result) |>.

Definition clearStalePackUsage (record : PackRecord) : PackRecord :=
  if negb (pk_UsageKnown record)
  then record <| pk_UsedPayloadBytes := 0 |> <| pk_UnusedPayloadBytes := 0 |>
  else if (pk_PayloadSize record <? pk_UsedPayloadBytes record)
          || negb (wrap_u 64 (pk_UsedPayloadBytes record + pk_UnusedPayloadBytes record) =? pk_PayloadSize record)
  then record <| pk_UsageKnown := false |> <| pk_UsedPayloadBytes := 0 |> <| pk_UnusedPayloadBytes := 0 |>
  else record.

(** ** Totals *)

Definition subtractPackAggregate (a : PackAggregate) (r : PackRecord) : result PackAggregate :=
  do! guard ((pa_PackCount a =? 0) || (pa_PhysicalSize a <? pk_PhysicalSize r) || (pa_PayloadSize a <? pk_PayloadSize r)
             || (pa_HeaderSize a <? pk_HeaderSize r) || (pa_BlobCount a <? pk_BlobCount r)) "pack aggregate underflow";
  do! guard (pk_UsageKnown r && ((pa_AccountedPackCount a =? 0) || (pa_UsedPayloadBytes a <? pk_UsedPayloadBytes r)
                                 || (pa_UnusedPayloadBytes a <? pk_UnusedPayloadBytes r))) "pack aggregate usage underflow";
  let usage n m := if pk_UsageKnown r then n - m else n in
  Ok (mkPackAggregate (pa_PackCount a - 1) (pa_PhysicalSize a - pk_PhysicalSize r) (pa_PayloadSize a - pk_PayloadSize r)
        (pa_HeaderSize a - pk_HeaderSize r) (pa_BlobCount a - pk_BlobCount r) (pa_UpdateSequence a)
        (usage (pa_UsedPayloadBytes a) (pk_UsedPayloadBytes r)) (usage (pa_UnusedPayloadBytes a) (pk_UnusedPayloadBytes r))
        (usage (pa_AccountedPackCount a) 1)).

Definition addPackAggregate (a : PackAggregate) (r : PackRecord) : result PackAggregate :=
  do! guard ((pa_PackCount a =? MaxUint64) || (MaxUint64 - pa_PhysicalSize a <? pk_PhysicalSize r)
             || (MaxUint64 - pa_PayloadSize a <? pk_PayloadSize r) || (MaxUint64 - pa_HeaderSize a <? pk_HeaderSize r)
             || (MaxUint64 - pa_BlobCount a <? pk_BlobCount r)) "pack aggregate overflow";
  do! guard (pk_UsageKnown r && ((pa_AccountedPackCount a =? MaxUint64)
                                 || (MaxUint64 - pa_UsedPayloadBytes a <? pk_UsedPayloadBytes r)
                                 || (MaxUint64 - pa_UnusedPayloadBytes a <? pk_UnusedPayloadBytes r))) "pack aggregate usage overflow";
  let usage n m := if pk_UsageKnown r then n + m else n in
  Ok (mkPackAggregate (pa_PackCount a + 1) (pa_PhysicalSize a + pk_PhysicalSize r) (pa_PayloadSize a + pk_PayloadSize r)
        (pa_HeaderSize a + pk_HeaderSize r) (pa_BlobCount a + pk_BlobCount r) (pa_UpdateSequence a)
        (usage (pa_UsedPayloadBytes a) (pk_UsedPayloadBytes r)) (usage (pa_UnusedPayloadBytes a) (pk_UnusedPayloadBytes r))
        (usage (pa_AccountedPackCount a) 1)).

Definition aggregateKeys : list bytes := map PackAggregateKey AggregateKinds ++ map TierAggregateKey TierAggregateKinds.

Definition typeAggregateCount : nat := 5.
Definition isTierAggregateOffset (offset : nat) : bool := Nat.leb typeAggregateCount offset.

Definition aggregateAppliesTo (offset : nat) (record : PackRecord) : bool :=
  if negb (isTierAggregateOffset offset)
  then let kind := Z.of_nat offset + AggregateData in (kind =? AggregateAll) || (pk_Type record =? kind)
  else
    let tier := if pk_Tier record =? 0 then TierUnknown else pk_Tier record in
    nth (offset - typeAggregateCount) TierAggregateKinds 0 =? tier.

Record packChange := { pc_packID : ID; pc_old : option PackRecord; pc_current : PackRecord }.

(** The loop over the changes for one total: what it becomes, and whether it was touched. *)
Fixpoint apply_changes (offset : nat) (found : bool) (changes : list packChange) (a : PackAggregate) (touched : bool)
    : result (PackAggregate * bool) :=
  match changes with
  | [] => Ok (a, touched)
  | change :: changes =>
      let! (a, touched) :=
        match pc_old change with
        | Some old =>
            if aggregateAppliesTo offset old && (found || negb (isTierAggregateOffset offset))
            then let! a := subtractPackAggregate a old in Ok (a, true) else Ok (a, touched)
        | None => Ok (a, touched)
        end in
      let! (a, touched) :=
        if aggregateAppliesTo offset (pc_current change)
        then let! a := addPackAggregate a (pc_current change) in Ok (a, true) else Ok (a, touched) in
      apply_changes offset found changes a touched
  end.

Definition read_aggregate (value : option bytes) : result PackAggregate :=
  match value with Some b => UnmarshalPackAggregate b | None => Ok zero_aggregate end.

Definition is_found (value : option bytes) : bool := match value with Some _ => true | None => false end.

Definition advance (key : bytes) (a : PackAggregate) : result Mutation :=
  let! encoded := PackAggregate_MarshalBinary (a <| pa_UpdateSequence := wrap_u 64 (pa_UpdateSequence a + 1) |>) in
  Ok {| m_Key := key; m_Value := encoded |}.

(** [applyPackAggregateDeltasFromValues] from the key at [offset] on; [skip] says which
    untouched totals are left out. *)
Fixpoint deltas_loop (skip : bool -> bool -> bool) (changes : list packChange) (offset : nat) (keys : list bytes)
    (values : list (option bytes)) : result (list Mutation) :=
  match keys, values with
  | key :: keys, value :: values =>
      let! a := read_aggregate value in
      let! (a, touched) := apply_changes offset (is_found value) changes a false in
      if negb touched && skip (isTierAggregateOffset offset) (is_found value)
      then deltas_loop skip changes (S offset) keys values
      else
        let! put := advance key a in
        let! rest := deltas_loop skip changes (S offset) keys values in
        Ok (put :: rest)
  | _, _ => Ok []
  end.

Definition applyPackAggregateDeltasFromValues (values : list (option bytes)) (changes : list packChange) (advanceUntouched : bool)
    : result (list Mutation) :=
  deltas_loop (fun tier found => negb advanceUntouched || tier && negb found) changes 0 aggregateKeys values.

Definition applyPackAggregateDeltas (limits : Limits) (env : txnEnv) (changes : list packChange) (advanceUntouched : bool)
    : Tx (list Mutation) :=
  let% values := MultiGet limits env aggregateKeys in
  lift (applyPackAggregateDeltasFromValues values changes advanceUntouched).

(** [updatePackAggregates] is the same loop for one change, where only absent totals of a
    tier are left out. *)
Definition updatePackAggregates (limits : Limits) (env : txnEnv) (change : packChange) : Tx (list Mutation) :=
  let% values := MultiGet limits env aggregateKeys in
  lift (deltas_loop (fun tier found => tier && negb found) [change] 0 aggregateKeys values).

Fixpoint remove_loop (record : PackRecord) (offset : nat) (keys : list bytes) (values : list (option bytes)) : result (list Mutation) :=
  match keys, values with
  | key :: keys, value :: values =>
      if negb (aggregateAppliesTo offset record) then remove_loop record (S offset) keys values
      else
        match value with
        | None => if isTierAggregateOffset offset then remove_loop record (S offset) keys values else Err "pack aggregate is missing"
        | Some b =>
            let! a := UnmarshalPackAggregate b in
            let! a := subtractPackAggregate a record in
            let! put := advance key a in
            let! rest := remove_loop record (S offset) keys values in
            Ok (put :: rest)
        end
  | _, _ => Ok []
  end.

Definition removePackAggregates (limits : Limits) (env : txnEnv) (record : PackRecord) : Tx (list Mutation) :=
  let% values := MultiGet limits env aggregateKeys in
  lift (remove_loop record 0 aggregateKeys values).

(** ** History *)

Definition EventImported : Z := 2.
Definition EventPublished : Z := 3.
Definition EventPromoted : Z := 6.
Definition EventUsageChanged : Z := 8.
Definition EventRepackedInto : Z := 10.
Definition EventDeletePending : Z := 11.
Definition EventDeleted : Z := 12.

Record PackEvent := { pe_PackID : ID; pe_Record : PackHistoryEvent }.

Fixpoint number_events (seconds allocated : Z) (events : list PackEvent) : list Mutation * Z :=
  match events with
  | [] => ([], allocated)
  | event :: events =>
      match PackHistoryEvent_MarshalBinary (pe_Record event) with
      | Err _ => number_events seconds allocated events
      | Ok value =>
          let (rest, next) := number_events seconds (allocated + 1) events in
          ({| m_Key := PackHistoryKey seconds allocated (pe_PackID event); m_Value := value |} :: rest, next)
      end
  end.

(** [clock] is [historyClock().UTC().Unix()]. *)
Definition appendPackHistoryFromSequence (clock : Z) (events : list PackEvent) (value : option bytes) : result (list Mutation) :=
  let next := match value with
              | Some b => match UnmarshalNextRevision b with Ok next => next | Err _ => 1 end
              | None => 1
              end in
  do! guard (MaxUint64 - next <? zlen events) "pack history sequence exhausted";
  let seconds := if clock <? 0 then 0 else clock in
  let (mutations, allocated) := number_events seconds next events in
  if Nat.eqb (length mutations) 0 then Ok []
  else
    let! encodedNext := MarshalNextRevision allocated in
    Ok (mutations ++ [{| m_Key := NextEventSequenceKey; m_Value := encodedNext |}]).

Definition historyEnabledMarkerMutation (clock : Z) (found : bool) : result (list Mutation) :=
  if found then Ok []
  else
    let! value := HistoryMarker_MarshalBinary (mkHistoryMarker (if clock <? 0 then 0 else clock)) in
    Ok [{| m_Key := HistoryEnabledAtKey; m_Value := value |}].

Definition packHistoryMutations (env : txnEnv) (clock : Z) (events : list PackEvent) : Tx (list Mutation) :=
  if Nat.eqb (length events) 0 then ret []
  else
    let% value := Get env HistoryEnabledAtKey in
    let% marker := lift (historyEnabledMarkerMutation clock (is_found value)) in
    let% sequence := Get env NextEventSequenceKey in
    let% entries := lift (appendPackHistoryFromSequence clock events sequence) in
    ret (if Nat.eqb (length entries) 0 then [] else marker ++ entries).

Definition usageDeltas (old : option PackRecord) (current : PackRecord) : Z * Z :=
  let (oldUsed, oldUnused) := match old with
                              | Some r => if pk_UsageKnown r then (pk_UsedPayloadBytes r, pk_UnusedPayloadBytes r) else (0, 0)
                              | None => (0, 0)
                              end in
  if negb (pk_UsageKnown current) then (wrap_i 64 (- wrap_i 64 oldUsed), wrap_i 64 (- wrap_i 64 oldUnused))
  else (wrap_i 64 (wrap_i 64 (pk_UsedPayloadBytes current) - wrap_i 64 oldUsed),
        wrap_i 64 (wrap_i 64 (pk_UnusedPayloadBytes current) - wrap_i 64 oldUnused)).

Definition pack_event (id : ID) (type : Z) (r : PackRecord) (deltas : Z * Z) (predecessors : list ID) (runID : ID) (reason : bytes) : PackEvent :=
  {| pe_PackID := id;
     pe_Record := mkPackHistoryEvent type (pk_Type r) 0 (pk_PhysicalSize r) (pk_PayloadSize r) (fst deltas) (snd deltas)
                    predecessors runID reason |}.

(** ** Publication of a pack *)

(** The maps of the source are lists in the order in which they are iterated. *)
Record PublishedPack := {
  pp_PackID : ID;
  pp_Record : PackRecord;
  pp_Blobs : list (ID * BlobRecord);
  pp_Placements : list (Z * PlacementRecord);
  pp_PredecessorPackIDs : list ID;
  pp_LineageKind : Z;
  pp_RunID : ID }.

Definition all_locations (blobs : list (ID * BlobRecord)) : list BlobLocation := concat (map (fun x => Locations (snd x)) blobs).

Definition canonical_blobs (blobs : list (ID * BlobRecord)) : list (ID * BlobRecord) :=
  map (fun x => (fst x, canonicalBlobRecord (snd x))) blobs.

(** [preparePackImport] of a pack that is not a legacy one *)
Definition preparePackImport (pack : PublishedPack) : result (list (ID * BlobRecord)) :=
  do! guard (bytes_eqb (pp_PackID pack) zero_id) "pack publication requires its identity";
  do! guard (negb (pk_Lifecycle (pp_Record pack) =? PackExportPending)) "pack publication has invalid lifecycle";
  let blobs := canonical_blobs (pp_Blobs pack) in
  let locations := all_locations blobs in
  do! guard (existsb (fun l => negb (bytes_eqb (loc_PackID l) (pp_PackID pack))) locations)
        "legacy blob location belongs to a different pack";
  do! guard (negb (zlen locations =? pk_BlobCount (pp_Record pack))
             || negb (ClassifyPack (map loc_Type locations) =? pk_Type (pp_Record pack)))
        "legacy pack record does not match its blob locations";
  Ok blobs.

Record packImportPlan := { ip_puts : list Mutation; newLocationCount : Z; newPayloadSize : Z }.

Fixpoint accumulate_locations (count payload : Z) (locations : list BlobLocation) : result (Z * Z) :=
  match locations with
  | [] => Ok (count, payload)
  | location :: locations =>
      do! guard (MaxUint64 - payload <? loc_Length location) "pack payload size overflow";
      accumulate_locations (count + 1) (payload + loc_Length location) locations
  end.

Definition appendImportedBlobMutation (plan : packImportPlan) (key : bytes) (incoming : BlobRecord) (value : option bytes)
    : result packImportPlan :=
  let! (incoming, added) :=
    match value with
    | Some b =>
        let! existing := UnmarshalBlobRecord b in
        Ok (mergeBlobRecords existing incoming,
            List.filter (fun l => negb (containsPhysicalLocation (Locations existing) l)) (Locations incoming))
    | None => Ok (incoming, Locations incoming)
    end in
  let! (count, payload) := accumulate_locations (newLocationCount plan) (newPayloadSize plan) added in
  let! encoded := BlobRecord_MarshalBinary incoming in
  Ok {| ip_puts := ip_puts plan ++ [{| m_Key := key; m_Value := encoded |}]; newLocationCount := count; newPayloadSize := payload |}.

Definition lookup_limits (limits : Limits) : Limits :=
  {| MaxBatchItems := Z.min (MaxBatchItems limits) 1000; MaxMessageBytes := MaxMessageBytes limits |}.

(** [blobLookupBatchEnd]: the blobs of the next lookup, and the others *)
Definition lookup_batch (limits : Limits) (blobs : list (ID * BlobRecord)) : result (list (ID * BlobRecord) * list (ID * BlobRecord)) :=
  do! guard ((MaxBatchItems limits =? 0) || (MaxMessageBytes limits <? 256)) "vaulticdb advertised insufficient blob lookup limits";
  let! (batch, others) := span_batch (fun x => zlen (BlobKey (fst x)) + 16) (lookup_limits limits) (MaxMessageBytes limits / 2) 128 0 blobs in
  do! guard (Nat.eqb (length batch) 0) "blob lookup batch made no progress";
  Ok (batch, others).

Fixpoint append_mutations (plan : packImportPlan) (blobs : list (ID * BlobRecord)) (values : list (option bytes)) : result packImportPlan :=
  match blobs, values with
  | (id, incoming) :: blobs, value :: values =>
      let! plan := appendImportedBlobMutation plan (BlobKey id) (canonicalBlobRecord incoming) value in
      append_mutations plan blobs values
  | _, _ => Ok plan
  end.

(** [planImportedBlobs]; every lookup has a blob, so as many rounds as blobs are enough. *)
Fixpoint planImportedBlobs (fuel : nat) (limits : Limits) (env : txnEnv) (plan : packImportPlan) (blobs : list (ID * BlobRecord))
    : Tx packImportPlan :=
  match blobs, fuel with
  | [], _ => ret plan
  | _, O => lift (Err "fuel")
  | _, S fuel =>
      let% (batch, others) := lift (lookup_batch limits blobs) in
      let% values := MultiGet limits env (map (fun x => BlobKey (fst x)) batch) in
      let% plan := lift (append_mutations plan batch values) in
      planImportedBlobs fuel limits env plan others
  end.

Fixpoint placement_puts (packID : ID) (placements : list (Z * PlacementRecord)) : result (list Mutation) :=
  match placements with
  | [] => Ok []
  | (backend, placement) :: placements =>
      do! guard (backend =? 0) "pack placement requires a backend";
      let! value := PlacementRecord_MarshalBinary placement in
      let! backendValue := BackendPackRecord_MarshalBinary (mkBackendPackRecord (pl_State placement) (pl_Bytes placement) (pl_PlacedAt placement)) in
      let! rest := placement_puts packID placements in
      Ok ({| m_Key := PackPlacementKey packID backend; m_Value := value |}
          :: {| m_Key := BackendPackKey backend packID; m_Value := backendValue |} :: rest)
  end.

Fixpoint lineage_puts (packID runID : ID) (kind : Z) (predecessors : list ID) : result (list Mutation) :=
  match predecessors with
  | [] => Ok []
  | predecessor :: predecessors =>
      let! value := RepackLineageRecord_MarshalBinary (mkRepackLineageRecord runID (if kind =? 0 then LineageRepack else kind)) in
      let! rest := lineage_puts packID runID kind predecessors in
      Ok ({| m_Key := RepackLineageKey predecessor packID; m_Value := value |} :: rest)
  end.

(** The record that [planPackRecord] stores. *)
Definition imported_record (record : PackRecord) (old : option PackRecord) (plan : packImportPlan) : result PackRecord :=
  let! record := match old with
                 | Some old =>
                     do! guard ((MaxUint64 - pk_BlobCount old <? newLocationCount plan) || (MaxUint64 - pk_PayloadSize old <? newPayloadSize plan))
                           "pack catalog size overflow";
                     Ok (record <| pk_BlobCount := pk_BlobCount old + newLocationCount plan |>
                                <| pk_PayloadSize := pk_PayloadSize old + newPayloadSize plan |>)
                 | None => Ok record
                 end in
  let record := if pk_PhysicalSizeKnown record
                then record <| pk_HeaderSize := if pk_PhysicalSize record <? pk_PayloadSize record then 0
                                                else pk_PhysicalSize record - pk_PayloadSize record |> else record in
  Ok (clearStalePackUsage record).

Definition planPackRecord (pack : PublishedPack) (record : PackRecord) : result (list Mutation) :=
  let! encoded := PackRecord_MarshalBinary record in
  let! placements := placement_puts (pp_PackID pack) (pp_Placements pack) in
  let! lineage := lineage_puts (pp_PackID pack) (pp_RunID pack) (pp_LineageKind pack) (pp_PredecessorPackIDs pack) in
  Ok ({| m_Key := PackKey (pp_PackID pack); m_Value := encoded |} :: placements ++ lineage).

Definition planResolvedUnavailableDebt (env : txnEnv) (now : Z) (packID : ID) : Tx (list Mutation) :=
  let key := CrawlDebtKey zero_id packID in
  let% value := Get env key in
  match value with
  | None => ret []
  | Some b =>
      let% debt := lift (UnmarshalCrawlDebtRecord b) in
      if negb (cd_Reason debt =? DebtUnavailablePack) || (cd_Status debt =? DebtResolved) then ret []
      else
        let% encoded := lift (CrawlDebtRecord_MarshalBinary
          (debt <| cd_Status := DebtResolved |> <| cd_ErrorClass := [] |> <| cd_LastAttemptUnixNano := now |>)) in
        ret [{| m_Key := key; m_Value := encoded |}]
  end.

Definition PackTier_String (tier : Z) : bytes := match tierAggregateNames tier with Some name => name | None => str "unknown" end.

Definition packImportEvents (pack : PublishedPack) (record : PackRecord) (old : option PackRecord) : list PackEvent :=
  let eventType := if Nat.eqb (length (pp_PredecessorPackIDs pack)) 0 then EventCreated
                   else if pp_LineageKind pack =? LineagePromotion then EventPromoted else EventRepackedInto in
  pack_event (pp_PackID pack) eventType record (usageDeltas old record) (pp_PredecessorPackIDs pack) (pp_RunID pack) []
  :: match old with
     | Some old => if negb (pk_Tier old =? pk_Tier record)
                   then [pack_event (pp_PackID pack) EventTierChanged record (0, 0) [] (pp_RunID pack) (PackTier_String (pk_Tier record))] else []
     | None => []
     end.

(** The times of a transaction: [time.Now().UnixNano()] and [historyClock().UTC().Unix()] *)
Record times := { now_nano : Z; now_unix : Z }.

Definition planPackImport (limits : Limits) (env : txnEnv) (time : times) (pack : PublishedPack) (blobs : list (ID * BlobRecord))
    : Tx (list Mutation) :=
  let% value := Get env (PackKey (pp_PackID pack)) in
  let% old := match value with None => ret None | Some b => let% r := lift (UnmarshalPackRecord b) in ret (Some r) end in
  let record := match old with Some old => mergeImportedPackRecord old (pp_Record pack) | None => pp_Record pack end in
  let record := record <| pk_SourceIndexIDs := sort_ids (pk_SourceIndexIDs record) |> in
  let% plan := planImportedBlobs (length blobs) limits env {| ip_puts := []; newLocationCount := 0; newPayloadSize := 0 |} blobs in
  let% record := lift (imported_record record old plan) in
  let% records := lift (planPackRecord pack record) in
  let% aggregates := updatePackAggregates limits env {| pc_packID := pp_PackID pack; pc_old := old; pc_current := record |} in
  let% debt := planResolvedUnavailableDebt env (now_nano time) (pp_PackID pack) in
  let% history := packHistoryMutations env (now_unix time) (packImportEvents pack record old) in
  ret (ip_puts plan ++ records ++ aggregates ++ debt ++ history).

Definition importPackOnce (limits : Limits) (env : txnEnv) (time : times) (pack : PublishedPack) (db : Database) : Database * result unit :=
  match preparePackImport pack with
  | Err e => (db, Err e)
  | Ok blobs =>
      transact env db (
        let% puts := planPackImport limits env time pack blobs in
        do% writeTransactionBatches limits env puts [];
        ret (Commit [] tt))
  end.

(** The retries of an operation whose transaction was aborted; the other clients act between
    the attempts, and [canceled] is the end of the context while the operation waits. *)
Fixpoint retry {A} (fuel : nat) (once : nat -> Database -> Database * result A) (others : nat -> Database -> Database)
    (canceled : nat -> bool) (attempt : nat) (db : Database) : Database * result A :=
  match fuel with
  | O => (db, Err "transaction conflict retry limit exceeded")
  | S fuel =>
      match once attempt db with
      | (db, Ok a) => (db, Ok a)
      | (db, Err e) =>
          if negb (String.eqb e code_Aborted) then (db, Err e)
          else if canceled attempt then (db, Err "context canceled")
          else retry fuel once others canceled (S attempt) (others attempt db)
      end
  end.

Definition PublishPack (limits : Limits) (envs : nat -> txnEnv) (time : nat -> times) (others : nat -> Database -> Database)
    (canceled : nat -> bool) (pack : PublishedPack) (db : Database) : Database * result unit :=
  retry revisionAllocationAttempts (fun i => importPackOnce limits (envs i) (time i) pack) others canceled 0 db.

(** ** Life cycle *)

Definition BlobLookupBatchSize : Z := 256.

(** The records of the packs that are not published yet, and their events. *)
Fixpoint publish_records (ids : list ID) (values : list (option bytes)) : result (list Mutation * list PackEvent) :=
  match ids, values with
  | id :: ids, value :: values =>
      match value with
      | None => Err "published pack is missing"
      | Some b =>
          let! record := UnmarshalPackRecord b in
          if pk_Lifecycle record =? PackPublished then publish_records ids values
          else
            do! guard (negb (pk_Lifecycle record =? PackExportPending) && negb (pk_Lifecycle record =? PackImported))
                  "pack cannot transition to published";
            let record := record <| pk_Lifecycle := PackPublished |> in
            let! encoded := PackRecord_MarshalBinary record in
            let! (puts, events) := publish_records ids values in
            Ok ({| m_Key := PackKey id; m_Value := encoded |} :: puts, pack_event id EventPublished record (0, 0) [] zero_id [] :: events)
      end
  | _, _ => Ok ([], [])
  end.

Fixpoint publish_chunks (fuel : nat) (limits : Limits) (env : txnEnv) (limit : nat) (ids : list ID)
    : Tx (list Mutation * list PackEvent) :=
  match ids, fuel with
  | [], _ => ret ([], [])
  | _, O => lift (Err "fuel")
  | _, S fuel =>
      let batch := take limit ids in
      let% values := MultiGet limits env (map PackKey batch) in
      let% (puts, events) := lift (publish_records batch values) in
      let% (puts', events') := publish_chunks fuel limits env limit (drop limit ids) in
      ret (puts ++ puts', events ++ events')
  end.

Definition markPacksPublishedOnce (limits : Limits) (env : txnEnv) (time : times) (packIDs : list ID) (db : Database)
    : Database * result unit :=
  let limit := Z.to_nat (Z.min BlobLookupBatchSize (MaxBatchItems limits)) in
  if Nat.eqb limit 0 then (db, Err "daemon does not support pack acknowledgment batches")
  else
    transact env db (
      let% (puts, events) := publish_chunks (length packIDs) limits env limit packIDs in
      if Nat.eqb (length puts) 0 then ret (Rollback true tt)
      else
        let% history := packHistoryMutations env (now_unix time) events in
        do% writeTransactionBatches limits env (puts ++ history) [];
        ret (Commit [] tt)).

Definition MarkPacksPublished (limits : Limits) (envs : nat -> txnEnv) (time : nat -> times) (others : nat -> Database -> Database)
    (canceled : nat -> bool) (packIDs : list ID) (db : Database) : Database * result unit :=
  if BlobLookupBatchSize <? zlen packIDs then (db, Err "pack acknowledgment batch exceeds limit")
  else if Nat.eqb (length packIDs) 0 then (db, Ok tt)
  else retry revisionAllocationAttempts (fun i => markPacksPublishedOnce limits (envs i) (time i) (foldl appendUniqueID [] packIDs)) others canceled 0 db.

(** The placements of a pack that begins to be deleted. *)
Fixpoint evict_loop (env : txnEnv) (now : Z) (packID : ID) (keys : list bytes) : Tx (list Mutation) :=
  match keys with
  | [] => ret []
  | key :: keys =>
      let% value := Get env key in
      match value with
      | None => evict_loop env now packID keys
      | Some b =>
          let% parsed := lift (ParseKey key) in
          do% lift (guard (negb (kind_eqb (PK.Kind parsed) KeyPackPlacement)) "invalid placement key");
          let% placement := lift (UnmarshalPlacementRecord b) in
          if negb (pl_State placement =? PlacementLive) && negb (pl_State placement =? PlacementPending)
          then evict_loop env now packID keys
          else
            let after := if negb (pl_RetentionSource placement =? RetentionUnknown) && (now <? pl_MinRetentionUntil placement)
                         then pl_MinRetentionUntil placement else now in
            let placement := placement <| pl_State := PlacementEvicting |> <| pl_DeleteAfter := after |> in
            let% encoded := lift (PlacementRecord_MarshalBinary placement) in
            let% backendValue := lift (BackendPackRecord_MarshalBinary
              (mkBackendPackRecord (pl_State placement) (pl_Bytes placement) (pl_PlacedAt placement))) in
            let% queueValue := lift (PlacementDeleteRecord_MarshalBinary
              (mkPlacementDeleteRecord (PK.Backend parsed) (pl_Bytes placement) (str "gc") zero_id)) in
            let% rest := evict_loop env now packID keys in
            ret ({| m_Key := key; m_Value := encoded |}
                 :: {| m_Key := BackendPackKey (PK.Backend parsed) packID; m_Value := backendValue |}
                 :: {| m_Key := PlacementDeleteQueueKey after packID (PK.Backend parsed); m_Value := queueValue |} :: rest)
      end
  end.

(** [placementKeys] is the answer of the scan before the transaction. *)
Definition markPackDeletePendingOnce (limits : Limits) (env : txnEnv) (time : times) (placementKeys : result (list bytes)) (packID : ID)
    (db : Database) : Database * result unit :=
  match placementKeys with
  | Err e => (db, Err e)
  | Ok placementKeys =>
      transact env db (
        let% value := Get env (PackKey packID) in
        match value with
        | None => lift (Err "pack to delete is missing")
        | Some b =>
            let% record := lift (UnmarshalPackRecord b) in
            if pk_Lifecycle record =? PackDeletePending then ret (Rollback true tt)
            else
              do% lift (guard (negb (pk_Lifecycle record =? PackPublished)) "pack cannot transition to delete-pending");
              let record := record <| pk_Lifecycle := PackDeletePending |> in
              let% encoded := lift (PackRecord_MarshalBinary record) in
              let% placements := evict_loop env (now_nano time) packID placementKeys in
              let% history := packHistoryMutations env (now_unix time) [pack_event packID EventDeletePending record (0, 0) [] zero_id []] in
              do% WriteBatch limits env ({| m_Key := PackKey packID; m_Value := encoded |} :: placements ++ history) [];
              ret (Commit [] tt)
        end)
  end.

Definition MarkPackDeletePending (limits : Limits) (envs : nat -> txnEnv) (time : nat -> times) (others : nat -> Database -> Database)
    (canceled : nat -> bool) (placementKeys : nat -> result (list bytes)) (packID : ID) (db : Database) : Database * result unit :=
  retry revisionAllocationAttempts (fun i => markPackDeletePendingOnce limits (envs i) (time i) (placementKeys i) packID) others canceled 0 db.

(** The keys of the placements that go with a deleted pack. *)
Fixpoint placement_deletes (env : txnEnv) (packID : ID) (keys : list bytes) : Tx (list bytes) :=
  match keys with
  | [] => ret []
  | key :: keys =>
      let% parsed := lift (ParseKey key) in
      do% lift (guard (negb (kind_eqb (PK.Kind parsed) KeyPackPlacement)) "invalid placement key");
      let% value := Get env key in
      let% queued := match value with
                     | None => ret []
                     | Some b =>
                         let% placement := lift (UnmarshalPlacementRecord b) in
                         ret (if negb (pl_DeleteAfter placement =? 0)
                              then [PlacementDeleteQueueKey (pl_DeleteAfter placement) packID (PK.Backend parsed)] else [])
                     end in
      let% rest := placement_deletes env packID keys in
      ret (key :: BackendPackKey (PK.Backend parsed) packID :: queued ++ rest)
  end.

(** The blobs of a deleted pack: those that keep a location and those that go. *)
Fixpoint strip_blobs (env : txnEnv) (packID : ID) (blobIDs : list ID) : Tx (list Mutation * list bytes) :=
  match blobIDs with
  | [] => ret ([], [])
  | blobID :: blobIDs =>
      let% value := Get env (BlobKey blobID) in
      match value with
      | None => strip_blobs env packID blobIDs
      | Some b =>
          let% blob := lift (UnmarshalBlobRecord b) in
          let remaining := List.filter (fun l => negb (bytes_eqb (loc_PackID l) packID)) (Locations blob) in
          let% (puts, deletes) :=
            if Nat.eqb (length remaining) 0 then ret ([], [BlobKey blobID])
            else if negb (Nat.eqb (length remaining) (length (Locations blob)))
            then let% encoded := lift (BlobRecord_MarshalBinary (mkBlobRecord remaining)) in
                 ret ([{| m_Key := BlobKey blobID; m_Value := encoded |}], [])
            else ret ([], []) in
          let% (puts', deletes') := strip_blobs env packID blobIDs in
          ret (puts ++ puts', deletes ++ deletes')
      end
  end.

Fixpoint found_keys (env : txnEnv) (keys : list bytes) : Tx (list bytes) :=
  match keys with
  | [] => ret []
  | key :: keys =>
      let% value := Get env key in
      let% rest := found_keys env keys in
      ret (if is_found value then key :: rest else rest)
  end.

Definition no_record : PackRecord := mkPackRecord 0 0 0 0 0 false 0 false 0 [] 0 [] 0 0 0 0 false 0.

Definition markPackDeletedOnce (limits : Limits) (env : txnEnv) (time : times) (placementKeys : result (list bytes)) (packID : ID)
    (memberBlobIDs : list ID) (db : Database) : Database * result unit :=
  match placementKeys with
  | Err e => (db, Err e)
  | Ok placementKeys =>
      transact env db (
        let% value := Get env (PackKey packID) in
        match value with
        | None => lift (Err "pack to delete is missing")
        | Some b =>
            let% record := lift (UnmarshalPackRecord b) in
            do% lift (guard (negb (pk_Lifecycle record =? PackDeletePending)) "pack cannot be deleted from lifecycle");
            let% placements := placement_deletes env packID placementKeys in
            let% (puts, deletes) := strip_blobs env packID memberBlobIDs in
            let% aggregates := removePackAggregates limits env record in
            let% history := packHistoryMutations env (now_unix time)
              [pack_event packID EventDeleted record (usageDeltas (Some record) no_record) [] zero_id []] in
            let% stale := found_keys env (GarbageCollectionKey GCPack packID :: map (GarbageCollectionKey GCBlob) memberBlobIDs) in
            do% writeTransactionBatches limits env (puts ++ aggregates ++ history) (PackKey packID :: placements ++ deletes ++ stale);
            ret (Commit [] tt)
        end)
  end.

Definition MarkPackDeleted (limits : Limits) (envs : nat -> txnEnv) (time : nat -> times) (others : nat -> Database -> Database)
    (canceled : nat -> bool) (placementKeys : nat -> result (list bytes)) (packID : ID) (memberBlobIDs : list ID) (db : Database)
    : Database * result unit :=
  retry revisionAllocationAttempts (fun i => markPackDeletedOnce limits (envs i) (time i) (placementKeys i) packID memberBlobIDs)
    others canceled 0 db.

(** ** Usage and tiers *)

Record PackUsage := { us_Used : Z; us_Unused : Z }.

(** The packs whose usage changes: their puts and their changes. *)
Fixpoint usage_loop (env : txnEnv) (usage : list (ID * PackUsage)) : Tx (list Mutation * list packChange) :=
  match usage with
  | [] => ret ([], [])
  | (id, split) :: usage =>
      let% value := Get env (PackKey id) in
      match value with
      | None => usage_loop env usage
      | Some b =>
          let% current := lift (UnmarshalPackRecord b) in
          if (pk_PayloadSize current <? us_Used split) || negb (wrap_u 64 (us_Used split + us_Unused split) =? pk_PayloadSize current)
             || pk_UsageKnown current && (pk_UsedPayloadBytes current =? us_Used split) && (pk_UnusedPayloadBytes current =? us_Unused split)
          then usage_loop env usage
          else
            let updated := current <| pk_UsageKnown := true |> <| pk_UsedPayloadBytes := us_Used split |>
                                   <| pk_UnusedPayloadBytes := us_Unused split |> in
            let% encoded := lift (PackRecord_MarshalBinary updated) in
            let% (puts, changes) := usage_loop env usage in
            ret ({| m_Key := PackKey id; m_Value := encoded |} :: puts,
                 {| pc_packID := id; pc_old := Some current; pc_current := updated |} :: changes)
      end
  end.

Definition usage_event (runID : ID) (change : packChange) : PackEvent :=
  pack_event (pc_packID change) EventUsageChanged (pc_current change) (usageDeltas (pc_old change) (pc_current change)) [] runID [].

Definition updatePackUsageOnce (limits : Limits) (env : txnEnv) (time : times) (usage : list (ID * PackUsage)) (runID : ID) (db : Database)
    : Database * result Z :=
  transact env db (
    let% (puts, changes) := usage_loop env usage in
    if Nat.eqb (length changes) 0 then ret (Rollback false 0)
    else
      let% aggregates := applyPackAggregateDeltas limits env changes false in
      let% history := packHistoryMutations env (now_unix time) (map (usage_event runID) changes) in
      do% writeTransactionBatches limits env (puts ++ aggregates ++ history) [];
      ret (Commit [] (zlen changes))).

Definition packUsageBatchSize : nat := 256.

(** The batches of [UpdatePackUsageForRun]; [usage] is in the order of the ids. *)
Fixpoint usage_batches (fuel : nat) (limits : Limits) (envs : nat -> nat -> txnEnv) (time : nat -> nat -> times)
    (others : nat -> nat -> Database -> Database) (canceled : nat -> nat -> bool) (usage : list (ID * PackUsage)) (runID : ID)
    (batch : nat) (applied : Z) (db : Database) : Database * result Z :=
  match usage, fuel with
  | [], _ => (db, Ok applied)
  | _, O => (db, Err "fuel")
  | _, S fuel =>
      let (db, r) := retry revisionAllocationAttempts
        (fun i => updatePackUsageOnce limits (envs batch i) (time batch i) (take packUsageBatchSize usage) runID) (others batch) (canceled batch) 0 db in
      match r with
      | Err e => (db, Err e)
      | Ok count => usage_batches fuel limits envs time others canceled (drop packUsageBatchSize usage) runID (S batch) (applied + count) db
      end
  end.

Definition UpdatePackUsageForRun (limits : Limits) (envs : nat -> nat -> txnEnv) (time : nat -> nat -> times)
    (others : nat -> nat -> Database -> Database) (canceled : nat -> nat -> bool) (usage : list (ID * PackUsage)) (runID : ID) (db : Database)
    : Database * result Z :=
  usage_batches (length usage) limits envs time others canceled usage runID 0 0 db.

(** The entries under a prefix, whose pages the scan of a transaction delivers. *)
Definition prefix_entries (prefix : bytes) (v : Data) : list (bytes * bytes) :=
  List.filter (fun e => has_prefix prefix (fst e)) (map_to_list v).

Definition no_placement : PlacementRecord := mkPlacementRecord 0 [] 0 false 0 0 0 0 0.

Fixpoint match_placements (placements : list (Z * PlacementRecord)) (entries : list (bytes * bytes)) : result unit :=
  match entries with
  | [] => Ok tt
  | (key, value) :: entries =>
      let! parsed := ParseKey key in
      let found := find (fun p => fst p =? PK.Backend parsed) placements in
      let! encoded := PlacementRecord_MarshalBinary (match found with Some p => snd p | None => no_placement end) in
      do! guard (match found with Some _ => negb (bytes_eqb encoded value) | None => true end) code_Aborted;
      match_placements placements entries
  end.

Definition ReconcilePackTier (limits : Limits) (env : txnEnv) (id : ID) (expected : PackRecord) (placements : list (Z * PlacementRecord))
    (tier : Z) (db : Database) : Database * result unit :=
  transact env db (
    let% value := Get env (PackKey id) in
    let% want := lift (PackRecord_MarshalBinary expected) in
    do% lift (guard (match value with Some b => negb (bytes_eqb b want) | None => true end) code_Aborted);
    do% call env;
    let% v := view in
    let entries := prefix_entries (PackPlacementPrefix id) v in
    do% lift (match_placements placements entries);
    do% lift (guard (negb (zlen entries =? zlen placements)) code_Aborted);
    let updated := expected <| pk_Tier := tier |> in
    let% encoded := lift (PackRecord_MarshalBinary updated) in
    let% aggregates := applyPackAggregateDeltas limits env [{| pc_packID := id; pc_old := Some expected; pc_current := updated |}] false in
    do% writeTransactionBatches limits env (aggregates ++ [{| m_Key := PackKey id; m_Value := encoded |}]) [];
    ret (Commit [] tt)).

End Catalog.
