(* ===== verification/CatalogTheory.v ===== *)
(** * The totals of the pack catalog are exact

    The theory of [Catalog]. The weight of a database for a total is the sum over the records
    of packs the total applies to; every put or delete changes it by the contributions of the
    records it replaces and stores. The transactions of the catalog are the steps of the
    database; in every database they lead to, each total that is stored is the sum over the
    packs that are stored. *)
From stdpp Require Import base list numbers strings gmap relations.
From Stdlib Require Import ZArith Lia.
From coqutil Require Import Datatypes.RecordSetters.
From S2P Require Import Prelude Codec Keys KeyParse KeySpec KeyTheory Records MetaRecords Aggregates Store Catalog.
Import TriangleBracketNotations.

Module CatalogTheory.
Import Store StoreTheory Catalog.

(** ** Weights *)

Definition is_pack (key : bytes) : bool := is_key 34 "p:" key.

(** What a record adds to the total at [offset]. *)
Definition part (offset : nat) (r : PackRecord) : PackAggregate :=
  if aggregateAppliesTo offset r then contribution r else zero_aggregate.

Definition entry_part (offset : nat) (key value : bytes) : PackAggregate :=
  if is_pack key then match UnmarshalPackRecord value with Ok r => part offset r | Err _ => zero_aggregate end
  else zero_aggregate.

Definition value_part (offset : nat) (key : bytes) (value : option bytes) : PackAggregate :=
  match value with Some b => entry_part offset key b | None => zero_aggregate end.

Definition weigh (offset : nat) (v : Data) : PackAggregate :=
  map_fold (fun key value => plus (entry_part offset key value)) zero_aggregate v.

Lemma plus_swap a b c : plus a (plus b c) = plus b (plus a c).
Proof. by rewrite <- !plus_assoc, (plus_comm a b). Qed.

(** Equations between sums, field by field. *)
Ltac sums :=
  intros; repeat match goal with a : PackAggregate |- _ => destruct a end; unfold plus, zero_aggregate in *; cbn in *;
  repeat match goal with H : mkPackAggregate _ _ _ _ _ _ _ _ _ = mkPackAggregate _ _ _ _ _ _ _ _ _ |- _ => injection H; clear H; intros end;
  f_equal; lia.

Lemma plus_cancel a b c : plus a c = plus b c -> a = b.
Proof. sums. Qed.
Lemma plus_shift a r b s v e p : plus a r = plus b s -> plus b p = plus v e -> plus a (plus p r) = plus v (plus e s).
Proof. sums. Qed.

Lemma weigh_delete offset v key b : v !! key = Some b ->
  weigh offset v = plus (entry_part offset key b) (weigh offset (base.delete key v)).
Proof.
  intros E. unfold weigh. rewrite (map_fold_delete_L _ _ key b v); [done | intros; apply plus_swap | done].
Qed.

Lemma weigh_put offset v key b :
  plus (weigh offset (<[key := b]> v)) (value_part offset key (v !! key)) = plus (weigh offset v) (entry_part offset key b).
Proof.
  destruct (v !! key) as [x|] eqn:E; cbn [value_part].
  - rewrite (weigh_delete offset (<[key := b]> v) key b) by apply lookup_insert_eq.
    rewrite (weigh_delete offset v key x E), delete_insert_eq.
    by rewrite !(plus_comm _ (weigh _ _)), !plus_assoc, (plus_comm (entry_part _ _ b)).
  - rewrite plus_zero_r, (plus_comm (weigh offset v)). unfold weigh.
    apply (map_fold_insert_L (fun key value => plus (entry_part offset key value))); [intros; apply plus_swap | done].
Qed.

Lemma weigh_delete_any offset v key :
  plus (weigh offset (base.delete key v)) (value_part offset key (v !! key)) = weigh offset v.
Proof.
  destruct (v !! key) as [x|] eqn:E; cbn [value_part].
  - by rewrite (weigh_delete offset v key x E), plus_comm.
  - rewrite plus_zero_r. by rewrite delete_id.
Qed.

(** The contributions that puts replace, one after the other, and those they store. *)
Fixpoint replaced (offset : nat) (v : Data) (puts : list Mutation) : PackAggregate :=
  match puts with
  | [] => zero_aggregate
  | p :: puts => plus (value_part offset (m_Key p) (v !! m_Key p)) (replaced offset (<[m_Key p := m_Value p]> v) puts)
  end.
Fixpoint stored_parts (offset : nat) (puts : list Mutation) : PackAggregate :=
  match puts with
  | [] => zero_aggregate
  | p :: puts => plus (entry_part offset (m_Key p) (m_Value p)) (stored_parts offset puts)
  end.

Lemma weigh_puts offset puts : forall v,
  plus (weigh offset (apply_puts puts v)) (replaced offset v puts) = plus (weigh offset v) (stored_parts offset puts).
Proof.
  induction puts as [|p puts IH]; intros v; cbn [replaced stored_parts]; [done|].
  change (apply_puts (p :: puts) v) with (apply_puts puts (<[m_Key p := m_Value p]> v)).
  exact (plus_shift _ _ _ _ _ _ _ (IH _) (weigh_put offset v (m_Key p) (m_Value p))).
Qed.

Lemma stored_parts_app offset a b : stored_parts offset (a ++ b) = plus (stored_parts offset a) (stored_parts offset b).
Proof. induction a as [|p a IH]; cbn; [by rewrite plus_zero_l | by rewrite IH, plus_assoc]. Qed.

Lemma replaced_app offset a b : forall v, replaced offset v (a ++ b) = plus (replaced offset v a) (replaced offset (apply_puts a v) b).
Proof.
  induction a as [|p a IH]; intros v; cbn [app replaced]; [by rewrite plus_zero_l|].
  rewrite IH, plus_assoc. done.
Qed.

(** ** Other keys *)

(** A key that is neither of a pack nor of a total. *)
Definition neutral (key : bytes) : Prop := is_pack key = false /\ key ∉ aggregateKeys.
Definition not_pack (key : bytes) : Prop := is_pack key = false.

Lemma value_part_not_pack offset key value : not_pack key -> value_part offset key value = zero_aggregate.
Proof. intros N. destruct value; cbn; [|done]. unfold entry_part. by rewrite N. Qed.

Lemma stored_parts_not_pack offset puts : Forall (fun p => not_pack (m_Key p)) puts -> stored_parts offset puts = zero_aggregate.
Proof.
  induction 1 as [|p puts N F IH]; cbn; [done|]. rewrite IH. unfold entry_part. by rewrite N.
Qed.

Lemma replaced_not_pack offset puts : Forall (fun p => not_pack (m_Key p)) puts -> forall v, replaced offset v puts = zero_aggregate.
Proof.
  induction 1 as [|p puts N F IH]; intros v; cbn; [done|]. rewrite IH, value_part_not_pack by done. done.
Qed.

(** Every record of a pack can be read. *)
Definition decodes (v : Data) : Prop := forall key b, v !! key = Some b -> is_pack key = true -> exists r, UnmarshalPackRecord b = Ok r.

Lemma decodes_puts puts : Forall (fun p => is_pack (m_Key p) = true -> exists r, UnmarshalPackRecord (m_Value p) = Ok r) puts ->
  forall v, decodes v -> decodes (apply_puts puts v).
Proof.
  induction 1 as [|p puts P F IH]; intros v D; [done|].
  change (apply_puts (p :: puts) v) with (apply_puts puts (<[m_Key p := m_Value p]> v)). apply IH.
  intros key b E K. destruct (decide (m_Key p = key)) as [<-|N].
  - rewrite lookup_insert_eq in E. injection E as <-. auto.
  - rewrite lookup_insert_ne in E by done. by eapply D.
Qed.

Lemma decodes_deletes deletes v : decodes v -> decodes (apply_deletes deletes v).
Proof. intros D key b E K. rewrite apply_deletes_lookup in E. case_decide; [done|]. by eapply D. Qed.

(** ** Exact totals *)

(** The total at [offset] is readable and is the weight of the database. *)
Definition exact_at (offset : nat) (key : bytes) (v : Data) : Prop :=
  exists a, read_aggregate (v !! key) = Ok a /\ totals a = weigh offset v.

Definition exact (v : Data) : Prop := decodes v /\ forall offset key, aggregateKeys !! offset = Some key -> exact_at offset key v.

Lemma exact_empty : exact ∅.
Proof.
  split; [intros key b E; by rewrite lookup_empty in E|]. intros offset key _. exists zero_aggregate.
  by rewrite lookup_empty.
Qed.

(** ** Arithmetic of totals *)

Lemma subtractPackAggregate_spec a r a' : subtractPackAggregate a r = Ok a' ->
  plus (totals a') (contribution r) = totals a /\ (fits a -> PackRecord_ok r -> fits a').
Proof.
  unfold subtractPackAggregate. intros H. inv_results. split_bools. unfold fits, PackRecord_ok, totals, set_sequence, contribution, plus in *.
  destruct a as [pc ps py hs bc us up un ap], r as [? ? ? ? ? ? ? ? ? ? ? ? ? ? ? ? usage ?]. cbn in *. destruct usage; cbn in *; split_bools.
  all: split; [f_equal; lia|]. all: intros F O; destruct_and?; split_and!; range.
Qed.

Lemma addPackAggregate_spec a r a' : addPackAggregate a r = Ok a' ->
  totals a' = plus (totals a) (contribution r) /\ (fits a -> PackRecord_ok r -> fits a').
Proof.
  unfold addPackAggregate. intros H. inv_results. split_bools. unfold fits, PackRecord_ok, totals, set_sequence, contribution, plus, MaxUint64 in *.
  destruct a as [pc ps py hs bc us up un ap], r as [? ? ? ? ? ? ? ? ? ? ? ? ? ? ? ? usage ?]. cbn in *. destruct usage; cbn in *; split_bools.
  all: split; [f_equal; lia|]. all: intros F O; destruct_and?; split_and!; range.
Qed.

Lemma read_aggregate_fits value a : read_aggregate value = Ok a -> fits a.
Proof.
  destruct value as [b|]; cbn; [|intros [= <-]; apply fits_zero]. intros H. apply PackAggregate_prefix in H as [H _].
  unfold PackAggregate_ok, fits in *. intuition.
Qed.

Lemma advance_spec key a put : advance key a = Ok put -> fits a ->
  m_Key put = key /\ exists a', read_aggregate (Some (m_Value put)) = Ok a' /\ totals a' = totals a.
Proof.
  unfold advance. intros H F. inv_results. split; [done|]. cbn [m_Value read_aggregate].
  apply (PackAggregate_RoundTrip _ _) in E; [by eexists|]. unfold fits in F. cbn. unfold PackAggregate_ok. cbn. destruct_and?.
  split_and!; try done. apply wrap_u_range. lia.
Qed.

(** What a list of changes takes from a total and adds to it. *)
Definition old_part (offset : nat) (c : packChange) : PackAggregate :=
  match pc_old c with Some r => part offset r | None => zero_aggregate end.
Definition olds (offset : nat) (changes : list packChange) : PackAggregate := foldr (fun c => plus (old_part offset c)) zero_aggregate changes.
Definition news (offset : nat) (changes : list packChange) : PackAggregate :=
  foldr (fun c => plus (part offset (pc_current c))) zero_aggregate changes.

Definition change_ok (c : packChange) : Prop :=
  PackRecord_ok (pc_current c) /\ forall r, pc_old c = Some r -> PackRecord_ok r.

(** A total that is not stored has no pack to subtract. *)
Definition covered (offset : nat) (found : bool) (changes : list packChange) : Prop :=
  Forall (fun c => forall r, pc_old c = Some r -> aggregateAppliesTo offset r = true -> found = true) changes.

Lemma apply_changes_spec offset found changes : Forall change_ok changes -> covered offset found changes ->
  forall a touched a' touched', apply_changes offset found changes a touched = Ok (a', touched') -> fits a ->
  plus (totals a') (olds offset changes) = plus (totals a) (news offset changes) /\ fits a'
  /\ (touched' = false -> touched = false /\ totals a' = totals a).
Proof.
  intros O C. induction changes as [|c changes IH]; intros a touched a' touched' H F; cbn [apply_changes] in H.
  { injection H as <- <-. done. }
  apply Forall_cons in O as [[Oc Oo] O]. apply Forall_cons in C as [Cc C]. specialize (IH O C).
  apply rbind_ok in H as ([a1 t1] & H1 & H). apply rbind_ok in H as ([a2 t2] & H2 & H). cbn [olds news foldr].
  fold (olds offset changes) (news offset changes).
  assert (S1 : plus (totals a1) (old_part offset c) = totals a /\ fits a1 /\ (t1 = false -> touched = false /\ totals a1 = totals a)).
  { unfold old_part, part. destruct (pc_old c) as [r|]; [|injection H1 as <- <-; rewrite plus_zero_r; auto].
    destruct (aggregateAppliesTo offset r) eqn:A; cbn [andb] in H1; [|injection H1 as <- <-; rewrite plus_zero_r; auto].
    rewrite (Cc r eq_refl A) in H1. cbn [orb] in H1. apply rbind_ok in H1 as (x & X & [= <- <-]).
    apply subtractPackAggregate_spec in X as [X1 X2]. split_and!; [done | by apply X2, Oo | done]. }
  assert (S2 : totals a2 = plus (totals a1) (part offset (pc_current c)) /\ fits a2 /\ (t2 = false -> t1 = false /\ totals a2 = totals a1)).
  { unfold part. destruct S1 as (_ & F1 & _). destruct (aggregateAppliesTo offset (pc_current c)); [|injection H2 as <- <-; rewrite plus_zero_r; auto].
    apply rbind_ok in H2 as (x & X & [= <- <-]). apply addPackAggregate_spec in X as [X1 X2]. split_and!; [done | by apply X2 | done]. }
  destruct S1 as (S1 & F1 & T1), S2 as (S2 & F2 & T2). apply IH in H as (H & F' & T); [|done]. split_and!; [|done|].
  - rewrite <- S1. rewrite S2 in H. clear - H. revert H. generalize (totals a'), (totals a1), (old_part offset c), (part offset (pc_current c)),
      (olds offset changes), (news offset changes). sums.
  - intros Z. apply T in Z as [Z E]. apply T2 in Z as [Z E2]. apply T1 in Z as [Z E1]. split; [done|congruence].
Qed.

(** The puts of the totals: a total that was touched is stored with its new value. *)
Lemma deltas_loop_spec skip changes : Forall change_ok changes -> forall keys values offset puts,
  (forall i value, values !! i = Some value -> covered (offset + i) (is_found value) changes) ->
  length keys = length values -> deltas_loop skip changes offset keys values = Ok puts -> NoDup keys ->
  (forall key, key ∈ map m_Key puts -> key ∈ keys) /\ NoDup (map m_Key puts) /\
  forall i key value, keys !! i = Some key -> values !! i = Some value ->
    exists a a', read_aggregate value = Ok a /\ plus (totals a') (olds (offset + i) changes) = plus (totals a) (news (offset + i) changes) /\
      ((exists put, put ∈ puts /\ m_Key put = key /\ exists b, read_aggregate (Some (m_Value put)) = Ok b /\ totals b = totals a')
       \/ key ∉ map m_Key puts /\ totals a' = totals a).
Proof.
  intros O. induction keys as [|key keys IH]; intros [|value values] offset puts C L H N; try done; cbn [deltas_loop] in H.
  { injection H as <-. split_and!; [by intros k K; inversion K | constructor | done]. }
  apply NoDup_cons in N as [Nk N]. apply rbind_ok in H as (a & A & H). apply rbind_ok in H as ([a1 touched] & P & H).
  pose proof (C 0%nat value eq_refl) as C0. rewrite Nat.add_0_r in C0.
  apply (apply_changes_spec _ _ _ O C0) in P as (P & F & T); [|by eapply read_aggregate_fits].
  assert (Ctail : forall i v, values !! i = Some v -> covered (S offset + i) (is_found v) changes)
    by (intros i v V; rewrite Nat.add_succ_comm; by apply (C (S i))).
  destruct (negb touched && skip (isTierAggregateOffset offset) (is_found value)) eqn:Sk.
  - apply andb_true_iff in Sk as [Sk _]. apply negb_true_iff in Sk. apply T in Sk as [_ Sk].
    apply IH in H as (K & D & S); [|done|by injection L|done]. split_and!; [intros k Q; right; auto | done|].
    intros [|i] k w Ek Ew; cbn in Ek, Ew.
    + injection Ek as <-. injection Ew as <-. rewrite Nat.add_0_r. exists a, a1. split_and!; [done|done|]. right. split; [|done]. intros Q. by apply K in Q.
    + rewrite <- Nat.add_succ_comm. by apply (S i).
  - apply rbind_ok in H as (put & Ad & H). apply rbind_ok in H as (rest & H & [= <-]). apply advance_spec in Ad as [Pk (b & B1 & B2)]; [|done].
    apply IH in H as (K & D & S); [|done|by injection L|done]. cbn [map]. rewrite Pk. split_and!.
    + intros k Q. apply elem_of_cons in Q as [->|Q]; [by left | right; auto].
    + constructor; [|done]. intros Q. by apply K in Q.
    + intros [|i] k w Ek Ew; cbn in Ek, Ew.
      * injection Ek as <-. injection Ew as <-. rewrite Nat.add_0_r. exists a, a1. split_and!; [done|done|]. left. exists put. split_and!; [by left|done|]. by exists b.
      * rewrite <- Nat.add_succ_comm. destruct (S i k w Ek Ew) as (x & x' & X1 & X2 & X3). exists x, x'. split_and!; [done|done|].
        destruct X3 as [(q & Q1 & Q2 & Q3)|[Q1 Q2]]; [left; exists q; split_and!; [by right|done|done] | right; split; [|done]].
        intros Q. apply elem_of_cons in Q as [->|Q]; [|done]. apply Nk. by eapply list_elem_of_lookup_2.
Qed.

Lemma remove_loop_spec record : PackRecord_ok record -> forall keys values offset puts,
  (forall i value, values !! i = Some value -> aggregateAppliesTo (offset + i) record = true -> is_found value = true) ->
  length keys = length values -> remove_loop record offset keys values = Ok puts -> NoDup keys ->
  (forall key, key ∈ map m_Key puts -> key ∈ keys) /\ NoDup (map m_Key puts) /\
  forall i key value a, keys !! i = Some key -> values !! i = Some value -> read_aggregate value = Ok a ->
    exists a', plus (totals a') (part (offset + i) record) = totals a /\
      ((exists put, put ∈ puts /\ m_Key put = key /\ exists b, read_aggregate (Some (m_Value put)) = Ok b /\ totals b = totals a')
       \/ key ∉ map m_Key puts /\ totals a' = totals a).
Proof.
  intros O. induction keys as [|key keys IH]; intros [|value values] offset puts C L H N; try done; cbn [remove_loop] in H.
  { injection H as <-. split_and!; [by intros k K; inversion K | constructor | done]. }
  apply NoDup_cons in N as [Nk N].
  assert (Ctail : forall i v, values !! i = Some v -> aggregateAppliesTo (S offset + i) record = true -> is_found v = true)
    by (intros i v V; rewrite Nat.add_succ_comm; by apply (C (S i))).
  pose proof (C 0%nat value eq_refl) as C0. rewrite Nat.add_0_r in C0. unfold part.
  destruct (aggregateAppliesTo offset record) eqn:A; cbn [negb] in H.
  - destruct value as [b|]; [|by specialize (C0 eq_refl)].
    apply rbind_ok in H as (a & B & H). apply rbind_ok in H as (a1 & S1 & H). apply rbind_ok in H as (put & Ad & H).
    apply rbind_ok in H as (rest & H & [= <-]). apply subtractPackAggregate_spec in S1 as [S1 F].
    apply advance_spec in Ad as [Pk (x & B1 & B2)]; [|by apply F; [eapply (read_aggregate_fits (Some b))|]].
    apply IH in H as (K & D & S); [|done|by injection L|done]. cbn [map]. rewrite Pk. split_and!.
    + intros k Q. apply elem_of_cons in Q as [->|Q]; [by left | right; auto].
    + constructor; [|done]. intros Q. by apply K in Q.
    + intros [|i] k w a0 Ek Ew R; cbn in Ek, Ew.
      * injection Ek as <-. injection Ew as <-. cbn in R. assert (a0 = a) as -> by congruence.
        rewrite Nat.add_0_r, A. exists a1. split; [done|]. left. exists put. split_and!; [by left|done|]. by exists x.
      * rewrite <- Nat.add_succ_comm. destruct (S i k w a0 Ek Ew R) as (x' & X2 & X3). exists x'. split; [done|].
        destruct X3 as [(q & Q1 & Q2 & Q3)|[Q1 Q2]]; [left; exists q; split_and!; [by right|done|done] | right; split; [|done]].
        intros Q. apply elem_of_cons in Q as [->|Q]; [|done]. apply Nk. by eapply list_elem_of_lookup_2.
  - apply IH in H as (K & D & S); [|done|by injection L|done]. split_and!; [intros k Q; right; auto | done|].
    intros [|i] k w a0 Ek Ew R; cbn in Ek, Ew.
    + injection Ek as <-. injection Ew as <-. rewrite Nat.add_0_r, A. exists a0. split; [apply plus_zero_r|]. right. split; [|done].
      intros Q. by apply K in Q.
    + rewrite <- Nat.add_succ_comm. by apply (S i k w).
Qed.

(** ** Keys *)

Lemma aggregateKeys_nodup : NoDup aggregateKeys.
Proof. apply (bool_decide_eq_true_1 (NoDup aggregateKeys)). vm_compute. reflexivity. Qed.

Lemma aggregateKeys_not_pack key : key ∈ aggregateKeys -> not_pack key.
Proof.
  intros I. assert (F : Forall (fun k => is_pack k = false) aggregateKeys) by (repeat constructor).
  rewrite Forall_forall in F. by apply F.
Qed.

Lemma is_pack_PackKey id : id_ok id -> is_pack (PackKey id) = true.
Proof.
  intros L. unfold is_pack, is_key, PackKey, idKey. rewrite length_app. unfold id_ok in L. rewrite L. done.
Qed.

Lemma PackKey_inj a b : PackKey a = PackKey b -> a = b.
Proof. apply app_inv_head. Qed.

(** Keys whose first two bytes are not those of a pack are none, and likewise for totals. *)
Lemma neutral_prefix (a b : byte) rest : bytes_eqb [a; b] (str "p:") = false -> bytes_eqb [a; b] (str "a:") = false ->
  neutral (a :: b :: rest).
Proof.
  intros P A. split; [unfold is_pack, is_key; change (take _ _) with [a; b]; by rewrite P, andb_false_r|].
  intros I. assert (F : Forall (fun k => take 2 k = str "a:") aggregateKeys) by (repeat constructor).
  rewrite Forall_forall in F. apply F in I. change (take 2 _) with [a; b] in I. by rewrite I in A.
Qed.

Lemma is_pack_parse key p : is_pack key = true -> ParseKey key = Ok p -> PK.Kind p = KeyPack.
Proof.
  unfold is_pack, is_key. intros E P. split_bools. cbn [String.length] in *.
  assert (K : key = PackKey (drop 2 key)) by (rewrite <- (take_drop 2 key) at 1; by rewrite H0).
  rewrite K in P. pose proof (schema_roundtrip (Spec.Base (Spec.Pack (drop 2 key)))) as R.
  assert (W : Spec.schema_wf (Spec.Base (Spec.Pack (drop 2 key)))) by (cbn; unfold id_ok; rewrite length_drop; lia).
  apply R in W. change (Spec.schema_key _) with (PackKey (drop 2 key)) in W. rewrite W in P. by injection P as <-.
Qed.

Lemma placement_key_neutral key p : ParseKey key = Ok p -> PK.Kind p = KeyPackPlacement -> neutral key.
Proof.
  intros P K. split.
  - destruct (is_pack key) eqn:E; [|done]. apply (is_pack_parse _ _ E) in P. congruence.
  - intros I. assert (F : Forall (fun k => match ParseKey k with Ok q => PK.Kind q <> KeyPackPlacement | Err _ => False end) aggregateKeys)
      by (repeat constructor; vm_compute; discriminate).
    rewrite Forall_forall in F. apply F in I. by rewrite P in I.
Qed.

(** ** From one database to the next *)

Lemma part_normalized offset r : part offset (PackRecord_normalized r) = part offset r.
Proof.
  unfold part. rewrite normalized_contribution. replace (aggregateAppliesTo offset (PackRecord_normalized r)) with (aggregateAppliesTo offset r); [done|].
  unfold aggregateAppliesTo. rewrite normalized_Type. destruct (isTierAggregateOffset offset); cbn [negb]; [|done].
  assert (pk_Tier (PackRecord_normalized r) = if pk_Tier r =? 0 then TierUnknown else pk_Tier r) as ->
    by (unfold PackRecord_normalized; repeat case_match; done).
  destruct (pk_Tier r =? 0) eqn:T; [done | by rewrite T].
Qed.

Lemma count_part_nonneg offset key b : 0 <= pa_PackCount (entry_part offset key b).
Proof. unfold entry_part, part. repeat case_match; cbn; lia. Qed.

Lemma weigh_count_nonneg offset v : 0 <= pa_PackCount (weigh offset v).
Proof.
  unfold weigh. apply (map_fold_weak_ind (fun a _ => 0 <= pa_PackCount a)); [cbn; lia|].
  intros k b m r _ H. pose proof (count_part_nonneg offset k b). destruct (entry_part offset k b), r. cbn in *. lia.
Qed.

(** A record that is stored, up to the defaults of its encoding. *)
Definition stored_as (v : Data) (id : ID) (r : PackRecord) : Prop :=
  exists b r', v !! PackKey id = Some b /\ UnmarshalPackRecord b = Ok r' /\ forall offset, part offset r' = part offset r.

(** A total that is exact and not stored has no pack. *)
Lemma exact_found v offset key id r : exact_at offset key v -> id_ok id -> stored_as v id r ->
  aggregateAppliesTo offset r = true -> is_found (v !! key) = true.
Proof.
  intros (a & R & T) I (b & r' & L & U & P) A. destruct (v !! key) as [x|]; [done|]. cbn in R. injection R as <-. exfalso.
  rewrite (weigh_delete offset v _ _ L) in T. unfold entry_part in T. rewrite is_pack_PackKey, U, P in T by done.
  unfold part in T. rewrite A in T. apply (f_equal pa_PackCount) in T. pose proof (weigh_count_nonneg offset (base.delete (PackKey id) v)).
  unfold contribution in T. destruct (weigh _ _). cbn in *. lia.
Qed.

(** The record before a change is what the database has. *)
Definition change_of (v : Data) (c : packChange) : Prop :=
  id_ok (pc_packID c) /\ match pc_old c with Some r => stored_as v (pc_packID c) r | None => v !! PackKey (pc_packID c) = None end.

Lemma exact_covered v offset key changes : exact v -> aggregateKeys !! offset = Some key -> Forall (change_of v) changes ->
  covered offset (is_found (v !! key)) changes.
Proof.
  intros [_ E] K F. eapply Forall_impl; [exact F|]. intros c [I C] r O A. rewrite O in C. by eapply exact_found; eauto.
Qed.

(** Puts of totals among others *)
Lemma apply_puts_between pre aggs post v key :
  key ∉ map m_Key pre -> key ∉ map m_Key post -> apply_puts (pre ++ aggs ++ post) v !! key = apply_puts aggs (apply_puts pre v) !! key.
Proof. intros A B. by rewrite !apply_puts_app, apply_puts_other. Qed.

Definition no_total (p : Mutation) : Prop := m_Key p ∉ aggregateKeys.

Lemma no_total_other puts key : Forall no_total puts -> key ∈ aggregateKeys -> key ∉ map m_Key puts.
Proof. intros F K I. apply list_elem_of_fmap in I as (p & -> & P). rewrite Forall_forall in F. by apply (F p P). Qed.

Lemma total_after pre aggs post v key (a a' : PackAggregate) : key ∈ aggregateKeys ->
  Forall no_total pre -> Forall no_total post -> NoDup (map m_Key aggs) -> read_aggregate (v !! key) = Ok a ->
  (exists put, put ∈ aggs /\ m_Key put = key /\ exists b, read_aggregate (Some (m_Value put)) = Ok b /\ totals b = totals a')
    \/ key ∉ map m_Key aggs /\ totals a' = totals a ->
  exists b, read_aggregate (apply_puts (pre ++ aggs ++ post) v !! key) = Ok b /\ totals b = totals a'.
Proof.
  intros K P Q N R H. rewrite apply_puts_between by (by apply no_total_other).
  destruct H as [(put & I & <- & b & B & T)|[I T]].
  - rewrite apply_puts_elem by done. by exists b.
  - rewrite !apply_puts_other by (done || by apply no_total_other). exists a. by rewrite R.
Qed.

(** A transaction that stores packs with new totals. *)
Lemma changes_exact skip v changes pre aggs post :
  exact v -> Forall (change_of v) changes -> Forall change_ok changes ->
  deltas_loop skip changes 0 aggregateKeys (map (fun key => v !! key) aggregateKeys) = Ok aggs ->
  Forall no_total pre -> Forall no_total post ->
  Forall (fun p => is_pack (m_Key p) = true -> exists r, UnmarshalPackRecord (m_Value p) = Ok r) (pre ++ aggs ++ post) ->
  (forall offset, replaced offset v (pre ++ aggs ++ post) = olds offset changes) ->
  (forall offset, stored_parts offset (pre ++ aggs ++ post) = news offset changes) ->
  exact (apply_puts (pre ++ aggs ++ post) v).
Proof.
  intros X C O D P Q F R S. split; [by apply decodes_puts; [|apply X]|]. intros offset key K.
  assert (V : map (fun k => v !! k) aggregateKeys !! offset = Some (v !! key)) by (rewrite list_lookup_fmap, K; done).
  apply deltas_loop_spec in D as (_ & N & D); [|done| |by rewrite length_map|apply aggregateKeys_nodup].
  2:{ intros i value L. rewrite list_lookup_fmap in L. destruct (aggregateKeys !! i) as [k|] eqn:Ki; [|done]. injection L as <-.
      by apply exact_covered. }
  destruct (D offset key _ K V) as (a & a' & Ra & T & H). cbn [Nat.add] in T.
  destruct (proj2 X offset key K) as (a0 & R0 & W). assert (a0 = a) as -> by congruence.
  eapply (total_after pre aggs post v) in H as (b & Rb & Tb); [|by eapply list_elem_of_lookup_2|done..]. exists b. split; [done|].
  rewrite Tb. pose proof (weigh_puts offset (pre ++ aggs ++ post) v) as G. rewrite R, S, <- W, <- T in G.
  symmetry. by apply plus_cancel in G.
Qed.

(** A transaction that leaves every contribution as it is. *)
Lemma same_exact v puts : exact v -> Forall no_total puts ->
  Forall (fun p => is_pack (m_Key p) = true -> exists r, UnmarshalPackRecord (m_Value p) = Ok r) puts ->
  (forall offset, replaced offset v puts = stored_parts offset puts) -> exact (apply_puts puts v).
Proof.
  intros X P F R. split; [by apply decodes_puts; [|apply X]|]. intros offset key K.
  destruct (proj2 X offset key K) as (a & Ra & W). exists a.
  rewrite apply_puts_other by (apply no_total_other; [done | by eapply list_elem_of_lookup_2]). split; [done|].
  rewrite W. pose proof (weigh_puts offset puts v) as G. rewrite R in G. symmetry. by apply plus_cancel in G.
Qed.

Lemma exact_delete_neutral deletes : Forall neutral deletes -> forall v, exact v -> exact (apply_deletes deletes v).
Proof.
  induction 1 as [|d deletes [N1 N2] F IH]; intros v X; [done|].
  change (apply_deletes (d :: deletes) v) with (apply_deletes deletes (base.delete d v)). apply IH.
  split; [apply (decodes_deletes [d]), X|]. intros offset key K. destruct (proj2 X offset key K) as (a & R & W). exists a.
  rewrite lookup_delete_ne by (intros ->; apply N2; by eapply list_elem_of_lookup_2). split; [done|].
  pose proof (weigh_delete_any offset v d) as G. rewrite value_part_not_pack, plus_zero_r in G by done. congruence.
Qed.

(** A transaction that deletes a pack and takes it from the totals. *)
Lemma remove_exact v id record pre aggs post : exact v -> id_ok id -> PackRecord_ok record -> stored_as v id record ->
  remove_loop record 0 aggregateKeys (map (fun key => v !! key) aggregateKeys) = Ok aggs ->
  Forall (fun p => neutral (m_Key p)) pre -> Forall (fun p => neutral (m_Key p)) post ->
  exact (base.delete (PackKey id) (apply_puts (pre ++ aggs ++ post) v)).
Proof.
  intros X I O S D P Q.
  assert (KN : PackKey id ∉ aggregateKeys) by (intros K; apply aggregateKeys_not_pack in K; unfold not_pack in K; by rewrite is_pack_PackKey in K).
  apply remove_loop_spec in D as (Ka & N & D); [|done| |by rewrite length_map|apply aggregateKeys_nodup].
  2:{ intros i value L. rewrite list_lookup_fmap in L. destruct (aggregateKeys !! i) as [k|] eqn:Ki; [|done]. injection L as <-.
      intros A. eapply exact_found; [by apply X|done|done|done]. }
  assert (NP : Forall (fun p => not_pack (m_Key p)) (pre ++ aggs ++ post)).
  { apply Forall_app_2; [eapply Forall_impl; [exact P|]; by intros p [? _]|]. apply Forall_app_2; [|eapply Forall_impl; [exact Q|]; by intros p [? _]].
    apply Forall_forall. intros p Hp. apply aggregateKeys_not_pack, Ka, list_elem_of_fmap. by exists p. }
  assert (NK : PackKey id ∉ map m_Key (pre ++ aggs ++ post)).
  { intros K. apply list_elem_of_fmap in K as (p & E & K). rewrite Forall_forall in NP. apply NP in K. unfold not_pack in K.
    rewrite <- E, is_pack_PackKey in K; done. }
  split.
  { apply (decodes_deletes [PackKey id]), decodes_puts; [|apply X]. eapply Forall_impl; [exact NP|]. intros p Np Hp. unfold not_pack in Np. congruence. }
  intros offset key K. assert (V : map (fun k => v !! k) aggregateKeys !! offset = Some (v !! key)) by (rewrite list_lookup_fmap, K; done).
  destruct (proj2 X offset key K) as (a & Ra & W). destruct (D offset key _ a K V Ra) as (a' & T & H). cbn [Nat.add] in T.
  pose proof (list_elem_of_lookup_2 _ _ _ K) as Kin.
  eapply (total_after pre aggs post v) in H as (b & Rb & Tb); [|done|eapply Forall_impl; [exact P|]; by intros p [_ ?]|eapply Forall_impl; [exact Q|]; by intros p [_ ?]|done|done].
  exists b. rewrite lookup_delete_ne by (intros <-; done). split; [done|]. rewrite Tb.
  pose proof (weigh_puts offset (pre ++ aggs ++ post) v) as G. rewrite replaced_not_pack, stored_parts_not_pack, !plus_zero_r in G by done.
  pose proof (weigh_delete_any offset (apply_puts (pre ++ aggs ++ post) v) (PackKey id)) as G'.
  rewrite apply_puts_other, G in G' by done. destruct S as (b0 & r' & L & U & Pr). rewrite L in G'. cbn [value_part] in G'.
  unfold entry_part in G'. rewrite is_pack_PackKey, U, Pr, <- W, <- T in G' by done. symmetry. by apply plus_cancel in G'.
Qed.

(** *** Packs among the puts *)

Lemma PackKey_no_total id : id_ok id -> PackKey id ∉ aggregateKeys.
Proof. intros I K. apply aggregateKeys_not_pack in K. unfold not_pack in K. by rewrite is_pack_PackKey in K. Qed.

Lemma marshal_part r b : PackRecord_ok r -> PackRecord_MarshalBinary r = Ok b ->
  exists r', UnmarshalPackRecord b = Ok r' /\ forall offset, part offset r' = part offset r.
Proof.
  intros O M. exists (PackRecord_normalized r). split; [by apply (PackRecord_RoundTrip r b)|]. intros offset. apply part_normalized.
Qed.

Definition pack_put (c : packChange) (p : Mutation) : Prop :=
  m_Key p = PackKey (pc_packID c) /\ exists r, UnmarshalPackRecord (m_Value p) = Ok r /\ forall offset, part offset r = part offset (pc_current c).

Lemma replaced_packs offset changes packs : Forall2 pack_put changes packs -> NoDup (map pc_packID changes) -> forall v, Forall (change_of v) changes ->
  replaced offset v packs = olds offset changes /\ stored_parts offset packs = news offset changes.
Proof.
  induction 1 as [|c p changes packs [K (r & U & P)] F IH]; intros N v C; [done|]. cbn [replaced stored_parts olds news foldr map] in *.
  fold (olds offset changes) (news offset changes). apply NoDup_cons in N as [N1 N]. apply Forall_cons in C as [[I C] Cs].
  destruct (IH N (<[m_Key p := m_Value p]> v)) as [-> ->].
  { apply Forall_forall. intros c' H. rewrite Forall_forall in Cs. destruct (Cs c' H) as [I' C']. split; [done|].
    unfold stored_as in *. rewrite lookup_insert_ne; [done|]. rewrite K. intros E. apply PackKey_inj in E. apply N1. rewrite E.
    apply list_elem_of_fmap. by exists c'. }
  rewrite K. split; f_equal.
  - unfold old_part, value_part. destruct (pc_old c) as [o|]; [|by rewrite C].
    destruct C as (b & o' & -> & Uo & Po). unfold entry_part. by rewrite is_pack_PackKey, Uo, Po.
  - unfold entry_part. by rewrite is_pack_PackKey, U, P.
Qed.

Lemma replaced_ext offset puts : forall v v', (forall p, p ∈ puts -> v !! m_Key p = v' !! m_Key p) -> replaced offset v puts = replaced offset v' puts.
Proof.
  induction puts as [|p puts IH]; intros v v' E; [done|]. cbn [replaced]. f_equal; [by rewrite (E p) by (by left)|]. apply IH.
  intros q Q. destruct (decide (m_Key p = m_Key q)) as [->|N]; [by rewrite !lookup_insert_eq | rewrite !lookup_insert_ne by done; apply E; by right].
Qed.

Lemma around offset A packs B v : Forall (fun p => not_pack (m_Key p)) A -> Forall (fun p => not_pack (m_Key p)) B ->
  Forall (fun p => is_pack (m_Key p) = true) packs ->
  replaced offset v (A ++ packs ++ B) = replaced offset v packs /\ stored_parts offset (A ++ packs ++ B) = stored_parts offset packs.
Proof.
  intros NA NB P. rewrite !replaced_app, !stored_parts_app. rewrite !(replaced_not_pack offset A NA), !(replaced_not_pack offset B NB).
  rewrite !(stored_parts_not_pack offset A NA), !(stored_parts_not_pack offset B NB), !plus_zero_l, !plus_zero_r. split; [|done].
  apply replaced_ext. intros p I. apply apply_puts_other. intros K. apply list_elem_of_fmap in K as (q & E & Q).
  rewrite Forall_forall in NA. rewrite Forall_forall in P. specialize (NA q Q). specialize (P p I). unfold not_pack in NA. congruence.
Qed.

Lemma pack_puts_is_pack v changes packs : Forall2 pack_put changes packs -> Forall (change_of v) changes ->
  Forall (fun p => is_pack (m_Key p) = true /\ exists r, UnmarshalPackRecord (m_Value p) = Ok r) packs.
Proof.
  induction 1 as [|c p changes packs [K (r & U & _)] F IH]; intros C; [constructor|]. apply Forall_cons in C as [[I _] C].
  constructor; [|auto]. split; [by rewrite K, is_pack_PackKey | by exists r].
Qed.

Lemma readable_packs A packs B : Forall (fun p => not_pack (m_Key p)) A -> Forall (fun p => not_pack (m_Key p)) B ->
  Forall (fun p => is_pack (m_Key p) = true /\ exists r, UnmarshalPackRecord (m_Value p) = Ok r) packs ->
  Forall (fun p => is_pack (m_Key p) = true -> exists r, UnmarshalPackRecord (m_Value p) = Ok r) (A ++ packs ++ B).
Proof.
  intros NA NB P. apply Forall_app_2; [|apply Forall_app_2].
  1,3: eapply Forall_impl; [eassumption|]; intros p N K; unfold not_pack in N; congruence.
  eapply Forall_impl; [exact P|]. by intros p [_ ?] _.
Qed.

Lemma packs_exact skip v changes aggs pre post A packs B :
  exact v -> Forall (change_of v) changes -> Forall change_ok changes -> NoDup (map pc_packID changes) ->
  deltas_loop skip changes 0 aggregateKeys (map (fun key => v !! key) aggregateKeys) = Ok aggs ->
  pre ++ aggs ++ post = A ++ packs ++ B -> Forall no_total pre -> Forall no_total post ->
  Forall (fun p => not_pack (m_Key p)) A -> Forall (fun p => not_pack (m_Key p)) B -> Forall2 pack_put changes packs ->
  exact (apply_puts (pre ++ aggs ++ post) v).
Proof.
  intros X C O N D E P Q NA NB F. pose proof (pack_puts_is_pack v changes packs F C) as G.
  assert (G' : Forall (fun p => is_pack (m_Key p) = true) packs) by (eapply Forall_impl; [exact G|]; by intros p [? _]).
  apply (changes_exact skip v changes); try done.
  - rewrite E. by apply readable_packs.
  - intros offset. rewrite E. destruct (around offset A packs B v NA NB G') as [-> _]. by apply replaced_packs.
  - intros offset. rewrite E. destruct (around offset A packs B v NA NB G') as [_ ->]. by eapply replaced_packs.
Qed.

(** Packs whose contributions do not change. *)
Lemma lifecycle_exact v changes A packs B :
  exact v -> Forall (change_of v) changes -> NoDup (map pc_packID changes) ->
  Forall (fun c => exists r, pc_old c = Some r /\ forall offset, part offset r = part offset (pc_current c)) changes ->
  Forall (fun p => neutral (m_Key p)) A -> Forall (fun p => neutral (m_Key p)) B -> Forall2 pack_put changes packs ->
  exact (apply_puts (A ++ packs ++ B) v).
Proof.
  intros X C N S NA NB F. pose proof (pack_puts_is_pack v changes packs F C) as G.
  assert (NA' : Forall (fun p => not_pack (m_Key p)) A) by (eapply Forall_impl; [exact NA|]; by intros p [? _]).
  assert (NB' : Forall (fun p => not_pack (m_Key p)) B) by (eapply Forall_impl; [exact NB|]; by intros p [? _]).
  apply same_exact; [done| |by apply readable_packs|].
  - apply Forall_app_2; [|apply Forall_app_2]; [eapply Forall_impl; [exact NA|]; by intros p [_ ?] | | eapply Forall_impl; [exact NB|]; by intros p [_ ?]].
    eapply Forall_impl; [exact G|]. intros p [K _] T. apply aggregateKeys_not_pack in T. unfold not_pack in T. congruence.
  - intros offset. destruct (around offset A packs B v NA' NB') as [-> ->]; [eapply Forall_impl; [exact G|]; by intros p [? _]|].
    destruct (replaced_packs offset changes packs F N v C) as [-> ->]. clear - S. unfold olds, news.
    induction S as [|c changes (r & O & P) S IH]; [done|]. cbn [foldr]. rewrite IH. unfold old_part. by rewrite O, P.
Qed.

End CatalogTheory.
