(* ===== verification/CatalogProps.v ===== *)
(** * What holds of the pack catalog

    The operations of [Catalog] as steps of the database, and the two main theorems: in every
    database that the steps lead to, each total is the sum over the packs it applies to; and a
    pack that was published has all its locations in the records of its blobs, which lose
    none. *)
From stdpp Require Import base list numbers strings gmap relations.
From Stdlib Require Import ZArith Lia.
From coqutil Require Import Datatypes.RecordSetters.
From S2P Require Import Prelude Codec Keys KeyParse Records MetaRecords Aggregates Store Catalog CatalogTheory.
Import TriangleBracketNotations.

Module CatalogSteps.
Import Store StoreTheory Catalog CatalogTheory.

Notation neutral_puts := (Forall (fun p => neutral (m_Key p))).

(** ** Puts of other keys *)

(** Keys that are not of blobs either. *)
Definition aside (key : bytes) : Prop := neutral key /\ take 2 key <> str "b:".
Notation aside_puts := (Forall (fun p => aside (m_Key p))).

Lemma aside_neutral key : aside key -> neutral key. Proof. by intros [? _]. Qed.
Lemma aside_puts_neutral puts : aside_puts puts -> neutral_puts puts.
Proof. intros F. eapply Forall_impl; [exact F|]. by intros p [? _]. Qed.

Ltac other_key := split; [apply neutral_prefix; reflexivity | discriminate].

Lemma PackPlacementKey_aside id backend : aside (PackPlacementKey id backend). Proof. other_key. Qed.
Lemma BackendPackKey_aside backend id : aside (BackendPackKey backend id). Proof. other_key. Qed.
Lemma RepackLineageKey_aside old new : aside (RepackLineageKey old new). Proof. other_key. Qed.
Lemma CrawlDebtKey_aside a b : aside (CrawlDebtKey a b). Proof. other_key. Qed.
Lemma PackHistoryKey_aside s n id : aside (PackHistoryKey s n id). Proof. other_key. Qed.
Lemma NextEventSequenceKey_aside : aside NextEventSequenceKey. Proof. other_key. Qed.
Lemma HistoryEnabledAtKey_aside : aside HistoryEnabledAtKey. Proof. other_key. Qed.
Lemma PlacementDeleteQueueKey_aside t id b : aside (PlacementDeleteQueueKey t id b). Proof. other_key. Qed.
Lemma GarbageCollectionKey_aside k id : aside (GarbageCollectionKey k id).
Proof.
  unfold GarbageCollectionKey. destruct (k =? GCBlob); [other_key|]. destruct (k =? GCPack); [other_key|].
  split; [|discriminate]. split; [done|]. apply (bool_decide_eq_false_1 (_ ∈ _)). vm_compute. reflexivity.
Qed.
Lemma BlobKey_neutral id : neutral (BlobKey id). Proof. apply neutral_prefix; reflexivity. Qed.

Create HintDb keys.
#[export] Hint Resolve BlobKey_neutral PackPlacementKey_aside BackendPackKey_aside RepackLineageKey_aside CrawlDebtKey_aside
  PackHistoryKey_aside NextEventSequenceKey_aside HistoryEnabledAtKey_aside PlacementDeleteQueueKey_aside
  GarbageCollectionKey_aside aside_neutral aside_puts_neutral : keys.

Ltac neutrals :=
  repeat (apply Forall_nil_2 || apply Forall_cons_2 || apply Forall_app_2); cbn [m_Key]; eauto with keys.

Lemma number_events_aside seconds events : forall n, aside_puts (fst (number_events seconds n events)).
Proof.
  induction events as [|e events IH]; intros n; cbn [number_events]; [constructor|].
  destruct (PackHistoryEvent_MarshalBinary _); [|apply IH]. specialize (IH (n + 1)). destruct (number_events _ _ _). cbn [fst] in *. neutrals.
Qed.

Lemma packHistoryMutations_ok env clock events t puts t' : packHistoryMutations env clock events t = (Ok puts, t') ->
  aside_puts puts /\ t_view t' = t_view t.
Proof.
  unfold packHistoryMutations. destruct (Nat.eqb _ _); intros H; [inv_tx; (split; [neutrals|congruence])|].
  inv_tx. apply Get_ok in E as [_ V1]. apply Get_ok in E1 as [_ V2]. split; [|congruence].
  destruct (Nat.eqb (length a2) 0); [constructor|]. apply Forall_app_2.
  - unfold historyEnabledMarkerMutation in E0. destruct (is_found a); inv_results; neutrals.
  - unfold appendPackHistoryFromSequence in E2. apply rbind_ok in E2 as (u & _ & E2).
    match type of E2 with context [number_events ?s ?n events] => pose proof (number_events_aside s events n) as NE; destruct (number_events s n events) as [ms al] end.
    cbn [fst] in NE. destruct (Nat.eqb (length ms) 0); inv_results; neutrals.
Qed.

Lemma placement_puts_aside id placements : forall puts, placement_puts id placements = Ok puts -> aside_puts puts.
Proof. induction placements as [|[backend p] l IH]; intros puts H; cbn [placement_puts] in H; inv_results; neutrals. Qed.

Lemma lineage_puts_aside id run kind l : forall puts, lineage_puts id run kind l = Ok puts -> aside_puts puts.
Proof. induction l as [|p l IH]; intros puts H; cbn [lineage_puts] in H; inv_results; neutrals. Qed.

Lemma planResolvedUnavailableDebt_ok env now id t puts t' : planResolvedUnavailableDebt env now id t = (Ok puts, t') ->
  aside_puts puts /\ t_view t' = t_view t.
Proof.
  unfold planResolvedUnavailableDebt. intros H. apply bind_ok in H as (v & t1 & G & H). apply Get_ok in G as [_ V].
  destruct v as [b|]; [|inv_tx; split; [neutrals|done]]. apply bind_ok in H as (d & t2 & U & H). apply lift_ok in U as [_ ->].
  destruct (_ || _); inv_tx; (split; [neutrals|congruence]).
Qed.

(** ** Locations *)

(** What two locations of the same place have in common. *)
Definition place (l : BlobLocation) : ID * Z * Z * Z := (loc_PackID l, loc_Offset l, loc_Length l, loc_Type l).

Lemma same_place l r : samePhysicalLocation l r = true <-> place l = place r.
Proof.
  unfold samePhysicalLocation, place. rewrite !andb_true_iff, bytes_eqb_eq, !Z.eqb_eq. split; [by intros [[[-> ->] ->] ->] | by intros [= -> -> -> ->]].
Qed.

Lemma contains_place locations x : containsPhysicalLocation locations x = true <-> place x ∈ map place locations.
Proof.
  unfold containsPhysicalLocation. rewrite existsb_exists, list_elem_of_fmap. setoid_rewrite same_place. setoid_rewrite list_elem_of_In.
  split; intros (y & A & B); exists y; auto.
Qed.

Lemma absorb_places locations c q : q ∈ map place (absorb locations c) <-> q ∈ map place locations \/ q = place c.
Proof.
  induction locations as [|x l IH]; cbn [absorb map]; [by rewrite list_elem_of_singleton, elem_of_nil; intuition|].
  destruct (samePhysicalLocation x c) eqn:S.
  - apply same_place in S. cbn [map]. match goal with |- context [place (if ?b then ?y else x)] =>
      assert (place (if b then y else x) = place x) as -> by (destruct b; [by destruct x | done]) end.
    rewrite S, !elem_of_cons. tauto.
  - cbn [map]. rewrite !elem_of_cons, IH. tauto.
Qed.

Lemma foldl_absorb_places incoming q : forall existing,
  q ∈ map place (foldl absorb existing incoming) <-> q ∈ map place existing \/ q ∈ map place incoming.
Proof.
  induction incoming as [|x l IH]; intros existing; cbn [foldl map]; [by rewrite elem_of_nil; intuition|].
  rewrite IH, absorb_places, elem_of_cons. tauto.
Qed.

Lemma insert_location_perm x l : insert_location x l ≡ₚ x :: l.
Proof. induction l as [|y l IH]; cbn; [done|]. destruct (location_less y x); [rewrite IH; constructor | done]. Qed.
Lemma sort_locations_perm l : foldr insert_location [] l ≡ₚ l.
Proof. induction l as [|x l IH]; cbn; [done|]. by rewrite insert_location_perm, IH. Qed.

Lemma canonical_places r q : q ∈ map place (Locations (canonicalBlobRecord r)) <-> q ∈ map place (Locations r).
Proof.
  unfold canonicalBlobRecord. cbn [Locations]. rewrite sort_locations_perm, foldl_absorb_places, elem_of_nil. tauto.
Qed.

Lemma merge_places existing incoming q :
  q ∈ map place (Locations (mergeBlobRecords existing incoming)) <-> q ∈ map place (Locations existing) \/ q ∈ map place (Locations incoming).
Proof. unfold mergeBlobRecords. by rewrite canonical_places, <- foldl_absorb_places. Qed.

(** ** Records stay well typed *)

Notation locations_ok := (Forall BlobLocation_ok).

Lemma absorb_ok c l : locations_ok l -> BlobLocation_ok c -> locations_ok (absorb l c).
Proof.
  intros F C. induction F as [|x l X F IH]; cbn [absorb]; [by constructor; [|constructor]|].
  destruct (samePhysicalLocation x c); [destruct (_ <? _)|]; constructor; try done.
  unfold BlobLocation_ok in *. destruct x. cbn in *. intuition.
Qed.

Lemma foldl_absorb_ok incoming : locations_ok incoming -> forall existing, locations_ok existing -> locations_ok (foldl absorb existing incoming).
Proof. induction 1 as [|x l X F IH]; intros existing E; cbn; [done|]. by apply IH, absorb_ok. Qed.

Lemma canonical_ok r : locations_ok (Locations r) -> locations_ok (Locations (canonicalBlobRecord r)).
Proof. intros F. unfold canonicalBlobRecord. cbn [Locations]. rewrite sort_locations_perm. by apply foldl_absorb_ok. Qed.

Lemma merge_ok existing incoming : locations_ok (Locations existing) -> locations_ok (Locations incoming) ->
  locations_ok (Locations (mergeBlobRecords existing incoming)).
Proof. intros E I. apply canonical_ok. cbn [Locations]. by apply foldl_absorb_ok. Qed.

Lemma accumulate_locations_spec locations : locations_ok locations -> forall count payload count' payload',
  accumulate_locations count payload locations = Ok (count', payload') -> 0 <= count -> 0 <= payload -> 0 <= count' /\ 0 <= payload'.
Proof.
  induction 1 as [|l locations L F IH]; intros count payload count' payload' H C P; cbn [accumulate_locations] in H; [by injection H as <- <-|].
  apply rbind_ok in H as (u & _ & H). destruct L as (_ & _ & L & _). apply IH in H; range.
Qed.

(** ** Publication *)

(** The put of a blob: its record has the locations of the pack and all that it had. *)
Definition blob_put (v : Data) (x : ID * BlobRecord) (p : Mutation) : Prop :=
  m_Key p = BlobKey (fst x) /\ exists r, UnmarshalBlobRecord (m_Value p) = Ok r
    /\ (forall q, q ∈ map place (Locations (snd x)) -> q ∈ map place (Locations r))
    /\ (forall b old, v !! BlobKey (fst x) = Some b -> UnmarshalBlobRecord b = Ok old ->
         forall q, q ∈ map place (Locations old) -> q ∈ map place (Locations r)).

Lemma appendImportedBlobMutation_spec v plan x plan' : locations_ok (Locations (snd x)) ->
  0 <= newLocationCount plan -> 0 <= newPayloadSize plan ->
  appendImportedBlobMutation plan (BlobKey (fst x)) (canonicalBlobRecord (snd x)) (v !! BlobKey (fst x)) = Ok plan' ->
  0 <= newLocationCount plan' /\ 0 <= newPayloadSize plan' /\ exists p, ip_puts plan' = ip_puts plan ++ [p] /\ blob_put v x p.
Proof.
  intros O C P H. pose proof (canonical_ok _ O) as O'. unfold appendImportedBlobMutation in H. apply rbind_ok in H as ([r added] & R & H).
  apply rbind_ok in H as ([c y] & A & H). apply rbind_ok in H as (b & M & H). injection H as <-. cbn [newLocationCount newPayloadSize ip_puts].
  assert (G : locations_ok (Locations r) /\ locations_ok added /\
    (forall q, q ∈ map place (Locations (snd x)) -> q ∈ map place (Locations r)) /\
    (forall b old, v !! BlobKey (fst x) = Some b -> UnmarshalBlobRecord b = Ok old -> forall q, q ∈ map place (Locations old) -> q ∈ map place (Locations r))).
  { destruct (v !! BlobKey (fst x)) as [b0|].
    - apply rbind_ok in R as (old & U & [= <- <-]). pose proof (proj1 (BlobRecord_Canonical _ _ U)) as Oo. split_and!.
      + by apply merge_ok.
      + apply Forall_forall. intros l I. apply list_elem_of_In, filter_In in I as [I _]. rewrite Forall_forall in O'. by apply O', list_elem_of_In.
      + intros q Q. apply merge_places. right. by apply canonical_places.
      + intros b' old' [= <-] U' q Q. assert (old' = old) as -> by congruence. apply merge_places. by left.
    - injection R as <- <-. split_and!; [done|done| |done]. intros q Q. by apply canonical_places. }
  destruct G as (Or & Oa & G1 & G2). apply (accumulate_locations_spec _ Oa) in A as [A1 A2]; [|done..].
  split_and!; [done|done|]. eexists. split; [done|]. split; [done|]. exists r. split; [|done].
  by apply (BlobRecord_RoundTrip r b).
Qed.

Lemma append_mutations_spec v blobs : Forall (fun x => locations_ok (Locations (snd x))) blobs -> forall plan plan',
  append_mutations plan blobs (map (fun key => v !! key) (map (fun x => BlobKey (fst x)) blobs)) = Ok plan' ->
  0 <= newLocationCount plan -> 0 <= newPayloadSize plan ->
  0 <= newLocationCount plan' /\ 0 <= newPayloadSize plan' /\ exists puts, ip_puts plan' = ip_puts plan ++ puts /\ Forall2 (blob_put v) blobs puts.
Proof.
  induction 1 as [|[id r] blobs O F IH]; intros plan plan' H C P; cbn [append_mutations map fst] in H.
  { injection H as <-. split_and!; [done|done|]. exists []. by rewrite app_nil_r. }
  apply rbind_ok in H as (plan1 & A & H). apply (appendImportedBlobMutation_spec v plan (id, r)) in A as (C1 & P1 & p & E & B); [|done..].
  apply IH in H as (C2 & P2 & puts & E2 & B2); [|done..]. split_and!; [done|done|]. exists (p :: puts). split; [by rewrite E2, E, <- app_assoc|].
  by constructor.
Qed.

Lemma lookup_batch_spec limits blobs batch others : lookup_batch limits blobs = Ok (batch, others) -> batch ++ others = blobs /\ batch <> [].
Proof.
  unfold lookup_batch. intros H. apply rbind_ok in H as (? & _ & H). apply rbind_ok in H as ([b o] & S & H).
  apply rbind_ok in H as (u & G & [= <- <-]). apply span_batch_spec in S as [S _]. split; [done|]. intros ->. destruct u. by apply guard_ok in G.
Qed.

Lemma planImportedBlobs_spec limits env fuel : forall blobs plan t plan' t', Forall (fun x => locations_ok (Locations (snd x))) blobs ->
  planImportedBlobs fuel limits env plan blobs t = (Ok plan', t') -> 0 <= newLocationCount plan -> 0 <= newPayloadSize plan ->
  t_view t' = t_view t /\ 0 <= newLocationCount plan' /\ 0 <= newPayloadSize plan' /\
  exists puts, ip_puts plan' = ip_puts plan ++ puts /\ Forall2 (blob_put (t_view t)) blobs puts.
Proof.
  induction fuel as [|fuel IH]; intros blobs plan t plan' t' F H C P; destruct blobs as [|x blobs]; cbn [planImportedBlobs] in H.
  1,3: apply ret_ok in H as [-> ->]; split_and!; [done..|]; exists []; split; [by rewrite app_nil_r | constructor].
  { by inv_tx. }
  apply bind_ok in H as ([batch others] & t1 & B & H). apply lift_ok in B as [B ->]. apply lookup_batch_spec in B as [B _].
  rewrite <- B in *. apply Forall_app in F as [F1 F2].
  apply bind_ok in H as (values & t2 & G & H). apply MultiGet_ok in G as (_ & -> & V). apply bind_ok in H as (plan1 & t3 & A & H).
  apply lift_ok in A as [A ->]. apply append_mutations_spec in A as (C1 & P1 & puts & E & Q); [|done..].
  apply IH in H as (V' & C2 & P2 & puts' & E' & Q'); [|done..]. split_and!; [congruence|done|done|]. exists (puts ++ puts').
  split; [by rewrite E', E, app_assoc|]. apply Forall2_app; [done|]. by rewrite <- V.
Qed.

(** As many rounds as blobs are enough. *)
Lemma planImportedBlobs_enough limits env fuel : forall blobs plan t, (length blobs <= fuel)%nat ->
  planImportedBlobs fuel limits env plan blobs t = planImportedBlobs (S fuel) limits env plan blobs t.
Proof.
  induction fuel as [|fuel IH]; intros [|x blobs] plan t L; cbn [length] in L; try done; [lia|].
  change (planImportedBlobs (S ?n) limits env plan (x :: blobs) t) with
    (bind (lift (lookup_batch limits (x :: blobs))) (fun '(batch, others) =>
       let% values := MultiGet limits env (map (fun x => BlobKey (fst x)) batch) in
       let% plan := lift (append_mutations plan batch values) in planImportedBlobs n limits env plan others) t).
  unfold bind, lift. destruct (lookup_batch limits (x :: blobs)) as [[batch others]|] eqn:B; [|done].
  destruct (MultiGet _ _ _ _) as [[values|] t1]; [|done]. destruct (append_mutations _ _ _) as [plan1|]; [|done]. apply IH.
  apply lookup_batch_spec in B as [B N]. apply (f_equal length) in B. rewrite length_app in B. destruct batch; [done|]. cbn [length] in *. lia.
Qed.

(** The updates of a record, one at a time. *)
Ltac let_ok :=
  match goal with |- PackRecord_ok (let x := ?e in @?b x) =>
    let H := fresh "O" in let y := fresh "r" in
    assert (H : PackRecord_ok e); [|change (PackRecord_ok (b e)); revert H; generalize e; intros y H; cbv beta]
  end.
Ltac set_ok := repeat case_match; unfold PackRecord_ok in *; cbn -[u_range i_range] in *; destruct_and?; split_and!; unfold constant; try done.

Lemma applyPackLifetime_ok result existing incoming : PackRecord_ok result -> PackRecord_ok incoming ->
  PackRecord_ok (applyPackLifetime result existing incoming).
Proof. intros R I. cbv beta delta [applyPackLifetime]. do 5 (let_ok; [set_ok|]). set_ok. Qed.

Lemma appendUniqueID_ok ids candidate : Forall id_ok ids -> id_ok candidate -> Forall id_ok (appendUniqueID ids candidate).
Proof. intros F C. unfold appendUniqueID. case_match; [done|]. apply Forall_app_2; [done|]. by constructor. Qed.

Lemma unique_ids_ok incoming : Forall id_ok incoming -> forall ids, Forall id_ok ids -> Forall id_ok (foldl appendUniqueID ids incoming).
Proof. induction 1 as [|x l X F IH]; intros ids I; cbn; [done|]. by apply IH, appendUniqueID_ok. Qed.

Lemma sort_ids_ok ids : Forall id_ok ids -> Forall id_ok (sort_ids ids).
Proof.
  assert (P : forall x l, insert_id x l ≡ₚ x :: l).
  { intros x l. induction l as [|y l IH]; cbn; [done|]. destruct (bytes_compare y x); [done | rewrite IH; constructor | done]. }
  intros F. assert (S : sort_ids ids ≡ₚ ids) by (unfold sort_ids; clear F; induction ids as [|x l IH]; cbn; [done | by rewrite P, IH]).
  by rewrite S.
Qed.

Lemma sorted_ok r : PackRecord_ok r -> PackRecord_ok (r <| pk_SourceIndexIDs := sort_ids (pk_SourceIndexIDs r) |>).
Proof.
  intros O. assert (S := sort_ids_ok (pk_SourceIndexIDs r)). unfold PackRecord_ok in *. cbn -[u_range i_range sort_ids]. destruct_and?. split_and!; auto.
Qed.

Lemma mergeImportedPackRecord_ok existing incoming : PackRecord_ok existing -> PackRecord_ok incoming ->
  PackRecord_ok (mergeImportedPackRecord existing incoming).
Proof.
  intros E I. cbv beta delta [mergeImportedPackRecord]. let_ok.
  { assert (U := unique_ids_ok (pk_SourceIndexIDs incoming)). set_ok. by apply U. }
  let_ok; [set_ok|]. let_ok; [set_ok; unfold PackMixed; range|]. do 2 (let_ok; [set_ok|]). let_ok; [by apply applyPackLifetime_ok|]. by apply sorted_ok.
Qed.

Lemma clearStalePackUsage_ok r : PackRecord_ok r -> PackRecord_ok (clearStalePackUsage r).
Proof. intros O. unfold clearStalePackUsage. set_ok; range. Qed.

Lemma imported_record_ok record old plan r : PackRecord_ok record -> (forall o, old = Some o -> PackRecord_ok o) ->
  0 <= newLocationCount plan -> 0 <= newPayloadSize plan -> imported_record record old plan = Ok r -> PackRecord_ok r.
Proof.
  intros O Oo C P H. unfold imported_record in H. apply rbind_ok in H as (r1 & R & H). injection H as <-. apply clearStalePackUsage_ok.
  assert (O1 : PackRecord_ok r1).
  { destruct old as [o|]; [|by injection R as <-]. specialize (Oo o eq_refl). apply rbind_ok in R as ([] & G & [= <-]). apply guard_ok in G.
    split_bools. unfold MaxUint64 in *. unfold PackRecord_ok in O, Oo |- *. cbn -[u_range i_range] in *. destruct_and?. split_and!; try done; unfold constant; range. }
  destruct (pk_PhysicalSizeKnown r1); [|done]. destruct (pk_PhysicalSize r1 <? pk_PayloadSize r1) eqn:L; split_bools.
  all: unfold PackRecord_ok in *; cbn -[u_range i_range] in *; destruct_and?; split_and!; try done; unfold constant; range.
Qed.

Lemma decoded_ok b r : UnmarshalPackRecord b = Ok r -> PackRecord_ok r.
Proof. intros U. by apply PackRecord_prefix in U as [O _]. Qed.

Lemma decoded_stored (v : Data) id b r : v !! PackKey id = Some b -> UnmarshalPackRecord b = Ok r -> stored_as v id r.
Proof. intros L U. by exists b, r. Qed.

(** A pack as the types of the source have it. *)
Definition pack_ok (pack : PublishedPack) : Prop :=
  id_ok (pp_PackID pack) /\ PackRecord_ok (pp_Record pack) /\ Forall (fun x => locations_ok (Locations (snd x))) (pp_Blobs pack)
  /\ NoDup (map fst (pp_Blobs pack)).

Lemma blob_puts_neutral v blobs puts : Forall2 (blob_put v) blobs puts -> neutral_puts puts.
Proof. induction 1 as [|x p blobs puts [K _] F IH]; [constructor|]. constructor; [rewrite K; auto with keys | done]. Qed.

Lemma planPackRecord_ok pack record puts : planPackRecord pack record = Ok puts ->
  exists encoded rest, puts = {| m_Key := PackKey (pp_PackID pack); m_Value := encoded |} :: rest
    /\ PackRecord_MarshalBinary record = Ok encoded /\ aside_puts rest.
Proof.
  unfold planPackRecord. intros H. inv_results. eexists _, _. split; [done|]. split; [done|].
  apply Forall_app_2; [by eapply placement_puts_aside | by eapply lineage_puts_aside].
Qed.

(** What a publication writes. *)
Lemma planPackImport_inv limits env time pack blobs t puts t' : pack_ok pack -> Forall (fun x => locations_ok (Locations (snd x))) blobs ->
  planPackImport limits env time pack blobs t = (Ok puts, t') ->
  t_view t' = t_view t /\ exists blob_puts encoded rest aggs post old record skip,
    puts = blob_puts ++ ({| m_Key := PackKey (pp_PackID pack); m_Value := encoded |} :: rest) ++ aggs ++ post
    /\ Forall2 (blob_put (t_view t)) blobs blob_puts /\ aside_puts rest /\ aside_puts post
    /\ PackRecord_MarshalBinary record = Ok encoded /\ PackRecord_ok record /\ (forall o, old = Some o -> PackRecord_ok o)
    /\ change_of (t_view t) {| pc_packID := pp_PackID pack; pc_old := old; pc_current := record |}
    /\ deltas_loop skip [{| pc_packID := pp_PackID pack; pc_old := old; pc_current := record |}] 0 aggregateKeys
         (map (fun key => t_view t !! key) aggregateKeys) = Ok aggs.
Proof.
  intros (I & O & _ & _) Ob H. unfold planPackImport in H.
  apply bind_ok in H as (value & t1 & G & H). apply Get_ok in G as [-> V1].
  apply bind_ok in H as (old & t2 & U & H).
  assert (Uo : t2 = t1 /\ (forall o, old = Some o -> PackRecord_ok o)
    /\ match old with Some r => stored_as (t_view t) (pp_PackID pack) r | None => t_view t !! PackKey (pp_PackID pack) = None end).
  { destruct (t_view t !! PackKey (pp_PackID pack)) as [b|] eqn:L; inv_tx; (split; [done|]); [|done].
    split; [intros o [= <-]; by eapply decoded_ok | by eapply decoded_stored]. }
  destruct Uo as (-> & Oo & S). apply bind_ok in H as (plan & t3 & P & H).
  apply planImportedBlobs_spec in P as (V3 & C & Pn & blob_puts & E & B); [|done | cbn; lia..]. cbn [ip_puts app] in E.
  apply bind_ok in H as (record & t4 & R & H). apply lift_ok in R as [R ->].
  apply bind_ok in H as (records & t5 & Pr & H). apply lift_ok in Pr as [Pr ->].
  apply planPackRecord_ok in Pr as (encoded & rest & -> & M & Nr).
  apply bind_ok in H as (aggs & t6 & A & H). unfold updatePackAggregates in A. apply bind_ok in A as (values & t7 & G & A).
  apply MultiGet_ok in G as (_ & -> & V7). apply lift_ok in A as [A ->].
  apply bind_ok in H as (debt & t8 & D & H). apply planResolvedUnavailableDebt_ok in D as [Nd V8].
  apply bind_ok in H as (history & t9 & Hi & H). apply packHistoryMutations_ok in Hi as [Nh V9]. apply ret_ok in H as [-> ->].
  split; [congruence|]. eexists blob_puts, encoded, rest, aggs, (debt ++ history), old, record, _.
  rewrite E, V3, V1 in *. split_and!; try done.
  - by apply Forall_app_2.
  - eapply imported_record_ok; [| |exact C|exact Pn|exact R]; [|done]. apply sorted_ok. destruct old as [o|]; [|done].
    apply mergeImportedPackRecord_ok; auto.
Qed.

Lemma neutral_not_pack puts : neutral_puts puts -> Forall (fun p => not_pack (m_Key p)) puts.
Proof. intros F. eapply Forall_impl; [exact F|]. by intros p [? _]. Qed.
Lemma neutral_no_total puts : neutral_puts puts -> Forall no_total puts.
Proof. intros F. eapply Forall_impl; [exact F|]. by intros p [_ ?]. Qed.
#[export] Hint Resolve neutral_not_pack neutral_no_total : keys.

Lemma deltas_not_pack skip changes v aggs : exact v -> Forall (change_of v) changes -> Forall change_ok changes ->
  deltas_loop skip changes 0 aggregateKeys (map (fun key => v !! key) aggregateKeys) = Ok aggs -> Forall (fun p => not_pack (m_Key p)) aggs.
Proof.
  intros X C O D. apply deltas_loop_spec in D as (K & _ & _); [|done| |by rewrite length_map|apply aggregateKeys_nodup].
  - apply Forall_forall. intros p I. apply aggregateKeys_not_pack, K, list_elem_of_fmap. by exists p.
  - intros i value L. rewrite list_lookup_fmap in L. destruct (aggregateKeys !! i) as [k|] eqn:Ki; [|done]. injection L as <-. by apply exact_covered.
Qed.

Lemma planPackImport_exact limits env time pack blobs t puts t' : pack_ok pack -> Forall (fun x => locations_ok (Locations (snd x))) blobs ->
  planPackImport limits env time pack blobs t = (Ok puts, t') -> exact (t_view t) -> exact (apply_puts puts (t_view t)).
Proof.
  intros Op Ob H X. apply planPackImport_inv in H as (_ & bp & encoded & rest & aggs & post & old & record & skip & -> & B & Nr & Np & M & O & Oo & C & D); [|done..].
  set (change := {| pc_packID := pp_PackID pack; pc_old := old; pc_current := record |}) in *.
  assert (Cs : Forall (change_of (t_view t)) [change]) by (constructor; [done|constructor]).
  assert (Os : Forall change_ok [change]) by (constructor; [done|constructor]).
  assert (Na := deltas_not_pack _ _ _ _ X Cs Os D). apply blob_puts_neutral in B.
  rewrite app_assoc. eapply (packs_exact skip (t_view t) [change] aggs _ post bp [_] (rest ++ aggs ++ post)); try done.
  - cbn. repeat constructor. by inversion 1.
  - by rewrite <- !app_assoc.
  - apply Forall_app_2; [auto with keys|]. constructor; [by apply PackKey_no_total, C | auto with keys].
  - auto with keys.
  - auto with keys.
  - repeat apply Forall_app_2; auto with keys.
  - constructor; [|constructor]. split; [done|]. by apply marshal_part.
Qed.

(** ** Transactions *)

Lemma transact_exact {A} env db (body : Tx (ending A)) db' r : transact env db body = (db', r) -> exact (data db) ->
  (forall key a t, body {| t_view := data db; t_calls := 0 |} = (Ok (Commit key a), t) -> exact (t_view t)) -> exact (data db').
Proof. intros T X B. apply transact_cases in T as [->|(key & a & t & E & ->)]; [done|]. by eapply B. Qed.

Lemma importPackOnce_exact limits env time pack db : pack_ok pack -> exact (data db) -> exact (data (fst (importPackOnce limits env time pack db))).
Proof.
  intros O X. destruct (importPackOnce limits env time pack db) as [db' r] eqn:E. cbn [fst]. unfold importPackOnce in E.
  destruct (preparePackImport pack) as [blobs|e] eqn:P; [|by injection E as <- _].
  eapply transact_exact; [exact E|done|]. intros key a t H. apply bind_ok in H as (puts & t1 & Pl & H). inv_tx. destruct a0.
  apply writeTransactionBatches_view in E0. assert (Ob : Forall (fun x => locations_ok (Locations (snd x))) blobs).
  { unfold preparePackImport in P. inv_results. destruct O as (_ & _ & O & _). unfold canonical_blobs. apply Forall_map.
    eapply Forall_impl; [exact O|]. intros x. cbn [snd]. apply canonical_ok. }
  pose proof (planPackImport_exact _ _ _ _ _ _ _ _ O Ob Pl X) as G.
  apply planPackImport_inv in Pl as [V _]; [|done..]. rewrite E0, V. exact G.
Qed.

(** The changes of a list of packs: which ones, what they were, and that nothing else changes. *)
Definition lifecycle_changes (v : Data) (ids : list ID) (puts : list Mutation) : Prop :=
  exists changes, Forall2 pack_put changes puts /\ Forall (change_of v) changes
    /\ Forall (fun c => exists r, pc_old c = Some r /\ forall offset, part offset r = part offset (pc_current c)) changes
    /\ (forall id, id ∈ map pc_packID changes -> id ∈ ids) /\ (NoDup ids -> NoDup (map pc_packID changes)).

Lemma part_lifecycle offset r l : part offset (r <| pk_Lifecycle := l |>) = part offset r.
Proof. by destruct r. Qed.
Lemma lifecycle_ok r l : PackRecord_ok r -> uint8 l -> PackRecord_ok (r <| pk_Lifecycle := l |>).
Proof. intros O L. set_ok. Qed.

(** One pack gets another state. *)
Lemma lifecycle_put v id b r l encoded : id_ok id -> v !! PackKey id = Some b -> UnmarshalPackRecord b = Ok r -> uint8 l ->
  PackRecord_MarshalBinary (r <| pk_Lifecycle := l |>) = Ok encoded ->
  let c := {| pc_packID := id; pc_old := Some r; pc_current := r <| pk_Lifecycle := l |> |} in
  pack_put c {| m_Key := PackKey id; m_Value := encoded |} /\ change_of v c
  /\ exists o, pc_old c = Some o /\ forall offset, part offset o = part offset (pc_current c).
Proof.
  intros I L U Ul M. cbn zeta. split_and!.
  - split; [done|]. cbn [m_Value pc_current]. eapply marshal_part; [|exact M]. apply lifecycle_ok; [by eapply decoded_ok | done].
  - split; [done|]. cbn. by eapply decoded_stored.
  - exists r. split; [done|]. intros offset. cbn [pc_current]. by rewrite part_lifecycle.
Qed.

Lemma publish_records_spec v ids : Forall id_ok ids -> forall puts events,
  publish_records ids (map (fun key => v !! key) (map PackKey ids)) = Ok (puts, events) -> lifecycle_changes v ids puts.
Proof.
  induction 1 as [|id ids I F IH]; intros puts events H; cbn [publish_records map] in H.
  { injection H as <- <-. exists []. split_and!; try done; constructor. }
  destruct (v !! PackKey id) as [b|] eqn:L; [|done]. apply rbind_ok in H as (r & U & H).
  destruct (pk_Lifecycle r =? PackPublished).
  - apply IH in H as (changes & A & B & C & D & N). exists changes. split_and!; [done..|intros x X; right; auto|]. intros Nd. by apply NoDup_cons in Nd as [_ Nd]; auto.
  - apply rbind_ok in H as ([] & _ & H). apply rbind_ok in H as (encoded & M & H). apply rbind_ok in H as ([puts1 events1] & R & H).
    injection H as <- <-. apply IH in R as (changes & A & B & C & D & N).
    destruct (lifecycle_put v id b r PackPublished encoded) as (P & Q & S); [done..|unfold PackPublished; range|done|].
    eexists (_ :: changes). split_and!; [constructor; [exact P|done] | constructor; [exact Q|done] | constructor; [exact S|done] | |].
    + intros x X. cbn [map pc_packID] in X. apply elem_of_cons in X as [->|X]; [by left | right; auto].
    + intros Nd. apply NoDup_cons in Nd as [Nd1 Nd]. cbn [map pc_packID]. constructor; auto.
Qed.

Lemma lifecycle_changes_app v ids ids' puts puts' : lifecycle_changes v ids puts -> lifecycle_changes v ids' puts' ->
  lifecycle_changes v (ids ++ ids') (puts ++ puts').
Proof.
  intros (c & A & B & C & D & N) (c' & A' & B' & C' & D' & N'). exists (c ++ c'). rewrite map_app.
  split_and!; [by apply Forall2_app | by apply Forall_app_2.. | |].
  - intros id I. rewrite elem_of_app in *. destruct I; [left|right]; auto.
  - rewrite !NoDup_app. intros (Na & X & Nb). split_and!; auto. intros id I I'. apply (X id); auto.
Qed.

Lemma publish_chunks_spec limits env limit fuel : forall ids t puts events t', Forall id_ok ids ->
  publish_chunks fuel limits env limit ids t = (Ok (puts, events), t') -> t_view t' = t_view t /\ lifecycle_changes (t_view t) ids puts.
Proof.
  assert (Z : forall v, lifecycle_changes v [] []) by (intros v; exists []; split_and!; try done; constructor).
  induction fuel as [|fuel IH]; intros ids t puts events t' F H; destruct ids as [|id ids]; cbn [publish_chunks] in H.
  1,3: apply ret_ok in H as [[= -> ->] ->]; by split.
  { by inv_tx. }
  revert F H. generalize (id :: ids). intros l F H. apply bind_ok in H as (values & t1 & G & H). apply MultiGet_ok in G as (_ & -> & V).
  apply bind_ok in H as ([p e] & t2 & P & H). apply lift_ok in P as [P ->]. apply bind_ok in H as ([p' e'] & t3 & R & H).
  apply ret_ok in H as [[= -> ->] ->]. rewrite <- (take_drop limit l) in F. apply Forall_app in F as [F1 F2].
  apply publish_records_spec in P; [|done]. apply IH in R as [V' R]; [|done]. split; [congruence|].
  rewrite <- (take_drop limit l). apply lifecycle_changes_app; [done|]. by rewrite <- V.
Qed.

Lemma lifecycle_changes_exact v ids puts post : exact v -> NoDup ids -> lifecycle_changes v ids puts -> neutral_puts post ->
  exact (apply_puts (puts ++ post) v).
Proof.
  intros X N (c & A & B & C & D & Nc) P. by apply (lifecycle_exact v c [] puts post); auto.
Qed.

Lemma markPacksPublishedOnce_exact limits env time ids db : Forall id_ok ids -> NoDup ids -> exact (data db) ->
  exact (data (fst (markPacksPublishedOnce limits env time ids db))).
Proof.
  intros I N X. unfold markPacksPublishedOnce. destruct (Nat.eqb _ 0); [done|].
  destruct (transact _ _ _) as [db' r] eqn:T. cbn [fst]. eapply transact_exact; [exact T|done|]. intros key a t H.
  apply bind_ok in H as ([puts events] & t1 & P & H). apply publish_chunks_spec in P as [V P]; [|done].
  destruct (Nat.eqb (length puts) 0); [by inv_tx|]. apply bind_ok in H as (history & t2 & Hi & H). apply packHistoryMutations_ok in Hi as [Nh Vh]; apply aside_puts_neutral in Nh.
  inv_tx. destruct a0. apply writeTransactionBatches_view in E. rewrite E, Vh, V. by eapply lifecycle_changes_exact.
Qed.

Lemma evict_loop_ok env now id keys : forall t puts t', evict_loop env now id keys t = (Ok puts, t') -> neutral_puts puts /\ t_view t' = t_view t.
Proof.
  induction keys as [|key keys IH]; intros t puts t' H; cbn [evict_loop] in H; [inv_tx; split; [constructor|done]|].
  apply bind_ok in H as (value & t1 & G & H). apply Get_ok in G as [_ V]. destruct value as [b|].
  2:{ apply IH in H as [H1 H2]. split; [done|congruence]. }
  apply bind_ok in H as (parsed & t2 & P & H). apply lift_ok in P as [P ->]. apply bind_ok in H as ([] & t3 & K & H).
  apply lift_ok in K as [K ->]. apply guard_ok, negb_false_iff, bool_decide_eq_true in K.
  apply bind_ok in H as (pl & t4 & U & H). apply lift_ok in U as [_ ->].
  destruct (_ && _); [apply IH in H as [H1 H2]; split; [done|congruence]|]. inv_tx. apply IH in E2 as [Nr V2].
  split; [|congruence]. neutrals. by eapply placement_key_neutral.
Qed.

Lemma markPackDeletePendingOnce_exact limits env time keys id db : id_ok id -> exact (data db) ->
  exact (data (fst (markPackDeletePendingOnce limits env time keys id db))).
Proof.
  intros I X. unfold markPackDeletePendingOnce. destruct keys as [keys|]; [|done].
  destruct (transact _ _ _) as [db' r] eqn:T. cbn [fst]. eapply transact_exact; [exact T|done|]. intros key a t H.
  apply bind_ok in H as (value & t1 & G & H). apply Get_ok in G as [-> V]. cbn [t_view] in *.
  destruct (data db !! PackKey id) as [b|] eqn:L; [|by inv_tx]. apply bind_ok in H as (record & t2 & U & H). apply lift_ok in U as [U ->].
  destruct (pk_Lifecycle record =? PackDeletePending); [by inv_tx|].
  apply bind_ok in H as (u & t3 & Gu & H). apply lift_ok in Gu as [_ ->]. apply bind_ok in H as (encoded & t4 & M & H). apply lift_ok in M as [M ->].
  apply bind_ok in H as (placements & t5 & Ev & H). apply evict_loop_ok in Ev as [N1 V1].
  apply bind_ok in H as (history & t6 & Hi & H). apply packHistoryMutations_ok in Hi as [N2 V2]; apply aside_puts_neutral in N2.
  apply bind_ok in H as (w & t7 & W & H). apply WriteBatch_ok in W. apply ret_ok in H as [_ ->]. rewrite W, V2, V1, V.
  destruct (lifecycle_put (data db) id b record PackDeletePending encoded) as (P & Q & S); [done..|unfold PackDeletePending; range|done|].
  match type of P with pack_put ?c _ => apply (lifecycle_exact (data db) [c] [] [{| m_Key := PackKey id; m_Value := encoded |}] (placements ++ history)) end;
    rewrite ?Forall_singleton; try done; [apply NoDup_singleton | by apply Forall_app_2 | by constructor].
Qed.

Lemma placement_deletes_ok env id keys : forall t deletes t', placement_deletes env id keys t = (Ok deletes, t') ->
  Forall neutral deletes /\ t_view t' = t_view t.
Proof.
  induction keys as [|key keys IH]; intros t deletes t' H; cbn [placement_deletes] in H; [inv_tx; split; [constructor|done]|].
  apply bind_ok in H as (parsed & t2 & P & H). apply lift_ok in P as [P ->]. apply bind_ok in H as ([] & t3 & K & H).
  apply lift_ok in K as [K ->]. apply guard_ok, negb_false_iff, bool_decide_eq_true in K.
  apply bind_ok in H as (value & t4 & G & H). apply Get_ok in G as [_ V]. apply bind_ok in H as (queued & t5 & Q & H).
  assert (Nq : Forall neutral queued /\ t5 = t4) by (destruct value; inv_tx; split; try done; repeat case_match; neutrals).
  destruct Nq as [Nq ->]. inv_tx. apply IH in E as [Nr V2]. split; [|congruence]. neutrals. by eapply placement_key_neutral.
Qed.

Lemma strip_blobs_ok env id blobs : forall t puts deletes t', strip_blobs env id blobs t = (Ok (puts, deletes), t') ->
  neutral_puts puts /\ Forall neutral deletes /\ t_view t' = t_view t.
Proof.
  induction blobs as [|blob blobs IH]; intros t puts deletes t' H; cbn [strip_blobs] in H.
  { apply ret_ok in H as [[= -> ->] ->]. split_and!; constructor. }
  apply bind_ok in H as (value & t1 & G & H). apply Get_ok in G as [_ V]. destruct value as [b|].
  2:{ apply IH in H as (H1 & H2 & H3). split_and!; [done|done|congruence]. }
  apply bind_ok in H as (record & t2 & U & H). apply lift_ok in U as [_ ->]. apply bind_ok in H as ([p d] & t3 & S & H).
  assert (N : neutral_puts p /\ Forall neutral d /\ t3 = t1).
  { destruct (Nat.eqb _ _); [apply ret_ok in S as [[= -> ->] ->]; split_and!; neutrals|].
    destruct (negb _); inv_tx; simplify_eq; split_and!; neutrals. }
  destruct N as (Np & Nd & ->). apply bind_ok in H as ([p' d'] & t4 & R & H). apply ret_ok in H as [[= -> ->] ->].
  apply IH in R as (H1 & H2 & H3). split_and!; [by apply Forall_app_2..|congruence].
Qed.

Lemma found_keys_ok env keys : Forall neutral keys -> forall t found t', found_keys env keys t = (Ok found, t') ->
  Forall neutral found /\ t_view t' = t_view t.
Proof.
  induction 1 as [|key keys N F IH]; intros t found t' H; cbn [found_keys] in H; [inv_tx; split; [constructor|done]|].
  apply bind_ok in H as (value & t1 & G & H). apply Get_ok in G as [_ V]. inv_tx. apply IH in E as [Nr V2]. split; [|congruence].
  destruct (is_found value); [by constructor | done].
Qed.

Lemma markPackDeletedOnce_exact limits env time keys id members db : id_ok id -> exact (data db) ->
  exact (data (fst (markPackDeletedOnce limits env time keys id members db))).
Proof.
  intros I X. unfold markPackDeletedOnce. destruct keys as [keys|]; [|done].
  destruct (transact _ _ _) as [db' r] eqn:T. cbn [fst]. eapply transact_exact; [exact T|done|]. intros key a t H.
  apply bind_ok in H as (value & t1 & G & H). apply Get_ok in G as [-> V]. cbn [t_view] in *.
  destruct (data db !! PackKey id) as [b|] eqn:L; [|by inv_tx]. apply bind_ok in H as (record & t2 & U & H). apply lift_ok in U as [U ->].
  apply bind_ok in H as (u & t3 & G & H). apply lift_ok in G as [_ ->].
  apply bind_ok in H as (placements & t4 & P & H). apply placement_deletes_ok in P as [Np V4].
  apply bind_ok in H as ([puts deletes] & t5 & S & H). apply strip_blobs_ok in S as (Nb & Nd & V5).
  apply bind_ok in H as (aggs & t6 & A & H). unfold removePackAggregates in A. apply bind_ok in A as (values & t7 & G & A).
  apply MultiGet_ok in G as (_ & -> & V7). apply lift_ok in A as [A ->].
  apply bind_ok in H as (history & t8 & Hi & H). apply packHistoryMutations_ok in Hi as [Nh V8]; apply aside_puts_neutral in Nh.
  apply bind_ok in H as (stale & t9 & F & H). apply found_keys_ok in F as [Ns V9].
  2:{ constructor; [auto with keys|]. apply Forall_map, Forall_forall. intros x _. auto with keys. }
  inv_tx. destruct a0. apply writeTransactionBatches_view in E. rewrite E. change (apply_deletes (PackKey id :: ?l) ?v) with (apply_deletes l (base.delete (PackKey id) v)).
  apply exact_delete_neutral; [by repeat apply Forall_app_2|]. rewrite V9, V8, V7, V5, V4, V. rewrite V5, V4, V in A.
  eapply remove_exact; try done; [by eapply decoded_ok | by eapply decoded_stored].
Qed.

(** ** Usage and tiers *)

Definition usage_ok (usage : list (ID * PackUsage)) : Prop :=
  Forall (fun x => id_ok (fst x) /\ uint64 (us_Used (snd x)) /\ uint64 (us_Unused (snd x))) usage /\ NoDup (map fst usage).

Lemma usage_set_ok r used unused : PackRecord_ok r -> uint64 used -> uint64 unused ->
  PackRecord_ok (r <| pk_UsageKnown := true |> <| pk_UsedPayloadBytes := used |> <| pk_UnusedPayloadBytes := unused |>).
Proof. intros O A B. set_ok. Qed.
Lemma tier_set_ok r tier : PackRecord_ok r -> uint8 tier -> PackRecord_ok (r <| pk_Tier := tier |>).
Proof. intros O A. set_ok. Qed.

Lemma usage_loop_spec env usage : Forall (fun x => id_ok (fst x) /\ uint64 (us_Used (snd x)) /\ uint64 (us_Unused (snd x))) usage ->
  forall t puts changes t', usage_loop env usage t = (Ok (puts, changes), t') ->
  t_view t' = t_view t /\ Forall2 pack_put changes puts /\ Forall (change_of (t_view t)) changes /\ Forall change_ok changes
  /\ (forall id, id ∈ map pc_packID changes -> id ∈ map fst usage) /\ (NoDup (map fst usage) -> NoDup (map pc_packID changes)).
Proof.
  induction 1 as [|[id split] usage (I & Uu & Un) F IH]; intros t puts changes t' H; cbn [usage_loop fst snd] in *.
  { apply ret_ok in H as [[= -> ->] ->]. split_and!; try done; constructor. }
  apply bind_ok in H as (value & t1 & G & H). apply Get_ok in G as [-> V].
  assert (Skip : forall t' puts changes, usage_loop env usage t1 = (Ok (puts, changes), t') ->
    t_view t' = t_view t /\ Forall2 pack_put changes puts /\ Forall (change_of (t_view t)) changes /\ Forall change_ok changes
    /\ (forall x, x ∈ map pc_packID changes -> x ∈ map fst usage) /\ (NoDup (map fst usage) -> NoDup (map pc_packID changes))).
  { intros t2 p c R. apply IH in R. by rewrite V in R. }
  cbn [map fst]. destruct (t_view t !! PackKey id) as [b|] eqn:L; [|apply Skip in H as (A & B & C & D & E & N); split_and!; [done..|intros x X; right; auto|by intros [_ Nd]%NoDup_cons; auto]].
  apply bind_ok in H as (current & t2 & U & H). apply lift_ok in U as [U ->].
  destruct (_ || _); [apply Skip in H as (A & B & C & D & E & N); split_and!; [done..|intros x X; right; auto|by intros [_ Nd]%NoDup_cons; auto]|].
  apply bind_ok in H as (encoded & t3 & M & H). apply lift_ok in M as [M ->]. apply bind_ok in H as ([p c] & t4 & R & H).
  apply ret_ok in H as [[= -> ->] ->]. apply Skip in R as (A & B & C & D & E & N).
  pose proof (usage_set_ok _ _ _ (decoded_ok _ _ U) Uu Un) as Ou.
  split_and!; [done| | | | |].
  - constructor; [|done]. split; [done|]. by apply marshal_part.
  - constructor; [|done]. split; [done|]. by eapply decoded_stored.
  - constructor; [|done]. split; [done|]. intros r [= <-]. by eapply decoded_ok.
  - intros x X. cbn [map pc_packID] in X. apply elem_of_cons in X as [->|X]; [by left | right; auto].
  - intros Nd. apply NoDup_cons in Nd as [Nd1 Nd]. cbn [map pc_packID]. constructor; auto.
Qed.

Lemma applyPackAggregateDeltas_ok limits env changes untouched t aggs t' : applyPackAggregateDeltas limits env changes untouched t = (Ok aggs, t') ->
  t_view t' = t_view t /\ exists skip, deltas_loop skip changes 0 aggregateKeys (map (fun key => t_view t !! key) aggregateKeys) = Ok aggs.
Proof.
  unfold applyPackAggregateDeltas. intros H. apply bind_ok in H as (values & t1 & G & H). apply MultiGet_ok in G as (_ & -> & V).
  apply lift_ok in H as [H ->]. split; [done|]. eexists. exact H.
Qed.

Lemma updatePackUsageOnce_exact limits env time usage run db : usage_ok usage -> exact (data db) ->
  exact (data (fst (updatePackUsageOnce limits env time usage run db))).
Proof.
  intros [O N] X. unfold updatePackUsageOnce. destruct (transact _ _ _) as [db' r] eqn:T. cbn [fst]. eapply transact_exact; [exact T|done|].
  intros key a t H. apply bind_ok in H as ([puts changes] & t1 & U & H). apply usage_loop_spec in U as (V & F & C & Oc & _ & Nc); [|done].
  destruct (Nat.eqb (length changes) 0); [by inv_tx|]. apply bind_ok in H as (aggs & t2 & A & H).
  apply applyPackAggregateDeltas_ok in A as [V2 [skip A]]. apply bind_ok in H as (history & t3 & Hi & H). apply packHistoryMutations_ok in Hi as [Nh V3]; apply aside_puts_neutral in Nh.
  inv_tx. destruct a0. apply writeTransactionBatches_view in E. cbn [t_view] in *. rewrite E, V3, V2, V. rewrite V in A.
  assert (Na := deltas_not_pack _ _ _ _ X C Oc A). assert (P := pack_puts_is_pack _ _ _ F C).
  eapply (packs_exact skip (data db) changes aggs puts history [] puts (aggs ++ history)); auto with keys.
  - eapply Forall_impl; [exact P|]. intros p [K _] K'. apply aggregateKeys_not_pack in K'. unfold not_pack in K'. congruence.
  - apply Forall_app_2; auto with keys.
Qed.

Lemma ReconcilePackTier_exact limits env id expected placements tier db : id_ok id -> PackRecord_ok expected -> uint8 tier -> exact (data db) ->
  exact (data (fst (ReconcilePackTier limits env id expected placements tier db))).
Proof.
  intros I O Ut X. unfold ReconcilePackTier. destruct (transact _ _ _) as [db' r] eqn:T. cbn [fst]. eapply transact_exact; [exact T|done|].
  intros key a t H. apply bind_ok in H as (value & t1 & G & H). apply Get_ok in G as [-> V]. cbn [t_view] in *.
  apply bind_ok in H as (want & t2 & M & H). apply lift_ok in M as [M ->]. apply bind_ok in H as ([] & t3 & G & H). apply lift_ok in G as [G ->].
  apply guard_ok in G. destruct (data db !! PackKey id) as [b|] eqn:L; [|done]. apply negb_false_iff, bytes_eqb_eq in G as ->.
  apply bind_ok in H as (u & t4 & Ca & H). apply call_ok in Ca. apply bind_ok in H as (v & t5 & W & H). injection W as <- <-.
  apply bind_ok in H as (u1 & t6 & Q & H). apply lift_ok in Q as [_ ->]. apply bind_ok in H as (u2 & t7 & Q & H). apply lift_ok in Q as [_ ->].
  apply bind_ok in H as (encoded & t8 & M2 & H). apply lift_ok in M2 as [M2 ->]. apply bind_ok in H as (aggs & t9 & A & H).
  apply applyPackAggregateDeltas_ok in A as [V2 [skip A]]. inv_tx. destruct a0. apply writeTransactionBatches_view in E.
  rewrite E, V2, Ca, V. rewrite Ca, V in A. clear E. set (change := {| pc_packID := id; pc_old := Some expected; pc_current := _ |}) in *.
  pose proof (tier_set_ok _ _ O Ut) as Ou.
  assert (C : Forall (change_of (data db)) [change]).
  { constructor; [|constructor]. split; [done|]. cbn. destruct (marshal_part _ _ O M) as (r' & U & P). by exists want, r'. }
  assert (Oc : Forall change_ok [change]) by (constructor; [split; [done|by intros r0 [= <-]] | constructor]).
  assert (Na := deltas_not_pack _ _ _ _ X C Oc A). change (apply_deletes [] ?v) with v.
  match goal with |- exact (apply_puts (aggs ++ ?l) _) => apply (packs_exact skip (data db) [change] aggs [] l aggs l []) end;
    rewrite ?app_nil_r; try done.
  - apply NoDup_singleton.
  - constructor; [by apply PackKey_no_total | constructor].
  - constructor; [|constructor]. split; [done|]. by apply marshal_part.
Qed.

End CatalogSteps.

Module CatalogReach.
Import Store StoreTheory Catalog CatalogTheory CatalogSteps.

(** ** Reachable databases *)

(** One attempt of an operation on the catalog, whatever fails in it. *)
Inductive step : Database -> Database -> Prop :=
| step_import limits env time pack db : pack_ok pack -> step db (fst (importPackOnce limits env time pack db))
| step_publish limits env time ids db : Forall id_ok ids -> NoDup ids -> step db (fst (markPacksPublishedOnce limits env time ids db))
| step_pending limits env time keys id db : id_ok id -> step db (fst (markPackDeletePendingOnce limits env time keys id db))
| step_delete limits env time keys id members db : id_ok id -> step db (fst (markPackDeletedOnce limits env time keys id members db))
| step_usage limits env time usage run db : usage_ok usage -> step db (fst (updatePackUsageOnce limits env time usage run db))
| step_tier limits env id expected placements tier db : id_ok id -> PackRecord_ok expected -> uint8 tier ->
    step db (fst (ReconcilePackTier limits env id expected placements tier db)).

Definition reachable (db : Database) : Prop := exists db0, data db0 = ∅ /\ rtc step db0 db.

Lemma step_exact db db' : step db db' -> exact (data db) -> exact (data db').
Proof.
  destruct 1; intros X; [by apply importPackOnce_exact | by apply markPacksPublishedOnce_exact | by apply markPackDeletePendingOnce_exact
    | by apply markPackDeletedOnce_exact | by apply updatePackUsageOnce_exact | by apply ReconcilePackTier_exact].
Qed.

Lemma steps_exact db db' : rtc step db db' -> exact (data db) -> exact (data db').
Proof. induction 1 as [|x y z S R IH]; [done|]. intros X. by eapply IH, step_exact. Qed.

Lemma reachable_exact db : reachable db -> exact (data db).
Proof. intros (db0 & E & R). eapply steps_exact; [exact R|]. rewrite E. apply exact_empty. Qed.

(** The operations with their retries are steps, with those of other clients between them. *)
Lemma retry_steps {A} fuel (once : nat -> Database -> Database * result A) others canceled :
  (forall i d, step d (fst (once i d))) -> (forall i d, rtc step d (others i d)) ->
  forall i db, rtc step db (fst (retry fuel once others canceled i db)).
Proof.
  intros O S. induction fuel as [|fuel IH]; intros i db; cbn [retry]; [done|].
  specialize (O i db). destruct (once i db) as [d [a|e]]; cbn [fst] in *; [by apply rtc_once|].
  destruct (negb _); [by apply rtc_once|]. destruct (canceled i); [by apply rtc_once|].
  eapply rtc_l; [exact O|]. etrans; [apply S | apply IH].
Qed.

Lemma unique_ids_nodup ids : forall acc, NoDup acc -> NoDup (foldl appendUniqueID acc ids).
Proof.
  induction ids as [|x l IH]; intros acc N; cbn; [done|]. apply IH. unfold appendUniqueID. destruct (existsb (bytes_eqb x) acc) eqn:E; [done|].
  apply NoDup_app. split_and!; [done| |apply NoDup_singleton]. intros y Y Z. apply list_elem_of_singleton in Z as ->.
  apply not_true_iff_false in E. apply E, existsb_exists. exists x. split; [by apply list_elem_of_In | by apply bytes_eqb_eq].
Qed.

Section Operations.
Context (limits : Limits) (envs : nat -> txnEnv) (time : nat -> times) (others : nat -> Database -> Database) (canceled : nat -> bool).
Context (others_ok : forall i d, rtc step d (others i d)).

Lemma PublishPack_steps pack db : pack_ok pack -> rtc step db (fst (PublishPack limits envs time others canceled pack db)).
Proof. intros O. apply retry_steps; [|done]. intros i d. by apply step_import. Qed.

Lemma MarkPacksPublished_steps ids db : Forall id_ok ids -> rtc step db (fst (MarkPacksPublished limits envs time others canceled ids db)).
Proof.
  intros O. unfold MarkPacksPublished. destruct (_ <? _); [done|]. destruct (Nat.eqb _ _); [done|]. apply retry_steps; [|done].
  intros i d. apply step_publish; [by apply unique_ids_ok; [|constructor] | apply unique_ids_nodup; constructor].
Qed.

Lemma MarkPackDeletePending_steps keys id db : id_ok id -> rtc step db (fst (MarkPackDeletePending limits envs time others canceled keys id db)).
Proof. intros O. apply retry_steps; [|done]. intros i d. by apply step_pending. Qed.

Lemma MarkPackDeleted_steps keys id members db : id_ok id ->
  rtc step db (fst (MarkPackDeleted limits envs time others canceled keys id members db)).
Proof. intros O. apply retry_steps; [|done]. intros i d. by apply step_delete. Qed.

End Operations.

Lemma UpdatePackUsageForRun_steps limits envs time others canceled usage run db : usage_ok usage -> (forall b i d, rtc step d (others b i d)) ->
  rtc step db (fst (UpdatePackUsageForRun limits envs time others canceled usage run db)).
Proof.
  intros O S. unfold UpdatePackUsageForRun. generalize 0%nat at 1, 0. generalize (length usage). intros fuel batch applied.
  revert usage O batch applied db. induction fuel as [|fuel IH]; intros usage O batch applied db; destruct usage as [|x usage]; try done.
  revert O. generalize (x :: usage). intros l O. cbn [usage_batches].
  assert (Ol : usage_ok (take packUsageBatchSize l) /\ usage_ok (drop packUsageBatchSize l)).
  { destruct O as [A N]. unfold usage_ok. rewrite <- (take_drop packUsageBatchSize l) in A, N. apply Forall_app in A as [A1 A2].
    rewrite map_app, NoDup_app in N. destruct N as (N1 & _ & N2). done. }
  destruct l as [|y l]; [done|]. revert Ol. generalize (y :: l). clear O l y. intros l [O1 O2].
  match goal with |- context [retry ?n ?once ?o ?c 0 db] => pose proof (retry_steps n once o c) as R; specialize (R ltac:(intros i d; by apply step_usage) (S batch) 0%nat db);
    destruct (retry n once o c 0 db) as [d [count|e]] end; cbn [fst] in *; [|done].
  etrans; [exact R | by apply IH].
Qed.

(** ** The packs that are stored *)

Definition stored_packs (v : Data) : list PackRecord :=
  concat (map (fun e => if is_pack (fst e) then match UnmarshalPackRecord (snd e) with Ok r => [r] | Err _ => [] end else []) (map_to_list v)).

Lemma filter_concat {A} (f : A -> bool) (l : list (list A)) : List.filter f (concat l) = concat (map (List.filter f) l).
Proof. induction l as [|x l IH]; cbn; [done|]. by rewrite List.filter_app, IH. Qed.

Lemma weigh_tally offset v : weigh offset v = tally (List.filter (aggregateAppliesTo offset) (stored_packs v)).
Proof.
  unfold weigh, stored_packs. rewrite map_fold_foldr. induction (map_to_list v) as [|[key b] l IH]; [done|].
  cbn [foldr map concat uncurry fst snd]. rewrite List.filter_app, tally_app, <- IH. unfold compose, uncurry. f_equal. unfold entry_part, part.
  destruct (is_pack key); [|done]. destruct (UnmarshalPackRecord b); [|done]. cbn. destruct (aggregateAppliesTo offset a); [|done].
  cbn. by rewrite plus_zero_r.
Qed.

Lemma stored_packs_valid v : Forall (fun r => PackRecord_ok r /\ valid_pack r /\ valid_tier r) (stored_packs v).
Proof.
  apply Forall_concat, Forall_map, Forall_forall. intros [key b] _. cbn [fst snd]. destruct (is_pack key); [|constructor].
  destruct (UnmarshalPackRecord b) as [r|] eqn:U; [|constructor]. constructor; [|constructor].
  apply PackRecord_prefix in U as (O & N & V & _). split; [done|]. unfold valid_pack, valid_tier. rewrite N. unfold PackRecord_validate, PackRecord_validatePackLifetime in V.
  unfold invalid_pack. destruct (_ || _); [done|]. split; [done|]. cbn [guard rbind] in V. destruct (invalid_size_state r); [done|]. cbn [guard rbind] in V.
  destruct (validPackTier (pk_Tier r)); [done|]. done.
Qed.

(** ** The rebuilt totals *)

Lemma filter_decide {A} (P : A -> Prop) `{forall x, Decision (P x)} f (l : list A) :
  Forall (fun x => f x = bool_decide (P x)) l -> List.filter f l = base.filter P l.
Proof.
  induction 1 as [|x l E F IH]; [done|]. cbn [List.filter]. rewrite filter_cons, E, IH. destruct (decide (P x)).
  - by rewrite bool_decide_true.
  - by rewrite bool_decide_false.
Qed.

Lemma filter_every {A} (P : A -> Prop) `{forall x, Decision (P x)} (l : list A) : (forall x, x ∈ l -> P x) -> base.filter P l = l.
Proof. induction l as [|x l IH]; intros F; [done|]. rewrite filter_cons_True by (apply F; by left). f_equal. apply IH. intros y Y. apply F. by right. Qed.
Lemma filter_never {A} (P : A -> Prop) `{forall x, Decision (P x)} (l : list A) : (forall x, x ∈ l -> ~ P x) -> base.filter P l = [].
Proof. induction l as [|x l IH]; intros F; [done|]. rewrite filter_cons_False by (apply F; by left). apply IH. intros y Y. apply F. by right. Qed.

Lemma applies_to_kind i k r : AggregateKinds !! i = Some k -> valid_pack r -> aggregateAppliesTo i r = bool_decide (in_kind k r).
Proof.
  intros K V. unfold valid_pack, invalid_pack in V. rewrite normalized_Type in V. apply orb_false_iff in V as [V _].
  apply negb_false_iff in V. unfold validPackType, between in V. split_bools. unfold PackData, PackUnknown in *.
  apply Bool.eq_iff_eq_true. rewrite bool_decide_eq_true. unfold in_kind.
  assert (T : pk_Type r = 1 \/ pk_Type r = 2 \/ pk_Type r = 3 \/ pk_Type r = 4) by lia.
  do 5 (destruct i as [|i]; [injection K as <-; unfold aggregateAppliesTo; destruct T as [->|[->|[->| ->]]];
    (split; [intros X; first [left; reflexivity | right; reflexivity | discriminate X] | intros [X|X]; first [reflexivity | discriminate X]])|]). done.
Qed.

Lemma applies_to_tier i t r : TierAggregateKinds !! i = Some t -> aggregateAppliesTo (5 + i) r = bool_decide (in_tier t r).
Proof.
  intros K. apply Bool.eq_iff_eq_true. rewrite bool_decide_eq_true. unfold aggregateAppliesTo, in_tier.
  change (isTierAggregateOffset (5 + i)) with true. cbn [negb].
  replace (5 + i - typeAggregateCount)%nat with i by (unfold typeAggregateCount; lia).
  assert (nth i TierAggregateKinds 0 = t) as -> by (by rewrite nth_lookup, K).
  assert (pk_Tier (PackRecord_normalized r) = if pk_Tier r =? 0 then TierUnknown else pk_Tier r) as ->
    by (unfold PackRecord_normalized; repeat case_match; done).
  by rewrite Z.eqb_eq.
Qed.

Section Rebuilt.
Context (v : Data) (exact_v : exact v).

Lemma exact_tally i key : aggregateKeys !! i = Some key -> exists a, read_aggregate (v !! key) = Ok a /\ fits a
  /\ totals a = tally (List.filter (aggregateAppliesTo i) (stored_packs v)).
Proof. intros K. destruct (proj2 exact_v i key K) as (a & R & T). exists a. rewrite <- weigh_tally. split_and!; [done | by eapply read_aggregate_fits | done]. Qed.

Lemma kind_total i k : AggregateKinds !! i = Some k -> exists a, read_aggregate (v !! PackAggregateKey k) = Ok a /\ fits a
  /\ totals a = tally (base.filter (in_kind k) (stored_packs v)).
Proof.
  intros K. destruct (exact_tally i (PackAggregateKey k)) as (a & R & F & T).
  { unfold aggregateKeys. apply lookup_app_l_Some. by rewrite list_lookup_fmap, K. }
  exists a. split_and!; [done|done|]. rewrite T. f_equal. apply filter_decide. eapply Forall_impl; [apply stored_packs_valid|].
  intros r (_ & V & _). by apply applies_to_kind.
Qed.

Lemma tier_total i t : TierAggregateKinds !! i = Some t -> exists a, read_aggregate (v !! TierAggregateKey t) = Ok a /\ fits a
  /\ totals a = tally (base.filter (in_tier t) (stored_packs v)).
Proof.
  intros K. destruct (exact_tally (5 + i) (TierAggregateKey t)) as (a & R & F & T).
  { unfold aggregateKeys. rewrite lookup_app_r by (cbn; lia). replace (5 + i - _)%nat with i by (cbn; lia). by rewrite list_lookup_fmap, K. }
  exists a. split_and!; [done|done|]. rewrite T. f_equal. apply filter_decide. apply Forall_forall. intros r _. by apply applies_to_tier.
Qed.

Lemma totals_set_sequence seq a b : totals a = b -> set_sequence seq a = set_sequence seq b.
Proof. intros <-. by destruct a. Qed.

Lemma table_lookup (f : Z -> PackAggregate) keys k :
  (list_to_map (map (fun k => (k, f k)) keys) : aggregates) !! k = if decide (k ∈ keys) then Some (f k) else None.
Proof.
  induction keys as [|x keys IH]; [cbn; rewrite lookup_empty; by rewrite decide_False by (by apply not_elem_of_nil)|].
  cbn [map]. rewrite list_to_map_cons. destruct (decide (x = k)) as [->|N].
  - rewrite lookup_insert_eq. by rewrite decide_True by (by left).
  - rewrite lookup_insert_ne, IH by done. repeat case_decide; set_solver.
Qed.

Lemma rebuilt_types seq : exists types, RebuildPackAggregates (stored_packs v) seq = Ok types
  /\ forall k, k ∈ AggregateKinds -> exists a, read_aggregate (v !! PackAggregateKey k) = Ok a /\ types !! k = Some (set_sequence seq a).
Proof.
  set (packs := stored_packs v). exists (list_to_map (map (fun k => (k, set_sequence seq (tally (base.filter (in_kind k) packs)))) AggregateKinds)).
  pose proof (stored_packs_valid v) as V. fold packs in V. assert (Vp : Forall valid_pack packs) by (eapply Forall_impl; [exact V|]; by intros ? (? & ? & ?)).
  split.
  - apply rebuild_types_run. split; [done|]. apply (types_iff seq); [eapply Forall_impl; [exact V|]; by intros ? (? & ? & ?) | done | by intros [] |]. split.
    + destruct (kind_total 4 AggregateAll eq_refl) as (a & _ & F & T). apply (proj2 (fits_totals a)) in F. rewrite T in F.
      assert (E : base.filter (in_kind AggregateAll) (stored_packs v) = packs) by (apply filter_every; by left). by rewrite E in F.
    + intros k. apply table_lookup.
  - intros k K. rewrite table_lookup, decide_True by done. apply list_elem_of_lookup in K as [i K].
    destruct (kind_total i k K) as (a & R & _ & T). exists a. split; [done|]. f_equal. symmetry. by apply totals_set_sequence.
Qed.

Lemma rebuilt_tiers seq : exists tiers, RebuildTierAggregates (stored_packs v) seq = Ok tiers
  /\ forall t, t ∈ TierAggregateKinds -> exists a, read_aggregate (v !! TierAggregateKey t) = Ok a /\ tiers !! t = Some (set_sequence seq a).
Proof.
  set (packs := stored_packs v). exists (list_to_map (map (fun t => (t, set_sequence seq (tally (base.filter (in_tier t) packs)))) TierAggregateKinds)).
  pose proof (stored_packs_valid v) as V. fold packs in V.
  split.
  - apply rebuild_tiers_run. split; [split; (eapply Forall_impl; [exact V|]; by intros ? (? & ? & ?))|].
    apply (tiers_iff seq); [eapply Forall_impl; [exact V|]; by intros ? (? & ? & ?).. | by intros [] |]. split; [|intros k; apply table_lookup].
    intros t. destruct (decide (t ∈ TierAggregateKinds)) as [K|K].
    + apply list_elem_of_lookup in K as [i K]. destruct (tier_total i t K) as (a & _ & F & T). apply (proj2 (fits_totals a)) in F. rewrite T in F. exact F.
    + assert (E : base.filter (in_tier t) packs = []); [|rewrite E; apply fits_zero]. apply filter_never. intros r I <-. apply K.
      rewrite Forall_forall in V. destruct (V r I) as (_ & _ & Vt). unfold valid_tier, validPackTier, between in Vt. split_bools.
      unfold TierAggregateKinds. rewrite !elem_of_cons. unfold TierUnknown, TierHot, TierCold, TierMirrored, TierSingle in *. lia.
  - intros t K. rewrite table_lookup, decide_True by done. apply list_elem_of_lookup in K as [i K].
    destruct (tier_total i t K) as (a & R & _ & T). exists a. split; [done|]. f_equal. symmetry. by apply totals_set_sequence.
Qed.

End Rebuilt.

(** ** Locations of blobs *)

(** The record of blob [id] has a location at this place. *)
Definition located (v : Data) (id : ID) (q : ID * Z * Z * Z) : Prop :=
  exists b r, v !! BlobKey id = Some b /\ UnmarshalBlobRecord b = Ok r /\ q ∈ map place (Locations r).

Lemma BlobKey_inj a b : BlobKey a = BlobKey b -> a = b.
Proof. apply app_inv_head. Qed.

Lemma aside_not_blob id puts : aside_puts puts -> BlobKey id ∉ map m_Key puts.
Proof. intros F K. apply list_elem_of_fmap in K as (p & E & K). rewrite Forall_forall in F. destruct (F p K) as [_ N]. by rewrite <- E in N. Qed.

(** The totals are put under their keys, whatever they are. *)
Lemma deltas_loop_keys skip changes keys : forall values offset puts,
  deltas_loop skip changes offset keys values = Ok puts -> forall key, key ∈ map m_Key puts -> key ∈ keys.
Proof.
  induction keys as [|k keys IH]; intros values offset puts H key K; cbn [deltas_loop] in H; [injection H as <-; by apply elem_of_nil in K|].
  destruct values as [|value values]; [injection H as <-; by apply elem_of_nil in K|].
  apply rbind_ok in H as (a & _ & H). apply rbind_ok in H as ([a' touched] & _ & H). destruct (_ && _); [right; by eapply IH|].
  apply rbind_ok in H as (put & A & H). apply rbind_ok in H as (rest & R & [= <-]). cbn [map] in K. apply elem_of_cons in K as [->|K]; [|right; by eapply IH].
  unfold advance in A. apply rbind_ok in A as (b & _ & [= <-]). left.
Qed.

Lemma deltas_not_blob (skip : bool -> bool -> bool) (changes : list packChange) (v : Data) (id : ID) (aggs : list Mutation) :
  deltas_loop skip changes 0 aggregateKeys (map (fun key => v !! key) aggregateKeys) = Ok aggs -> BlobKey id ∉ map m_Key aggs.
Proof. intros D K. apply (deltas_loop_keys _ _ _ _ _ _ D) in K. by destruct (BlobKey_neutral id). Qed.

(** What the puts of blobs say, when they are the only ones of blobs. *)
Lemma blob_puts_located v blobs puts : Forall2 (blob_put v) blobs puts -> NoDup (map fst blobs) ->
  (forall id q, located v id q -> located (apply_puts puts v) id q)
  /\ (forall id record l, (id, record) ∈ blobs -> l ∈ Locations record -> located (apply_puts puts v) id (place l)).
Proof.
  intros F N. assert (K : map m_Key puts = map (fun x => BlobKey (fst x)) blobs) by (clear N; induction F as [|x p ? ? [E _] F IH]; cbn [map]; congruence).
  assert (Nk : NoDup (map m_Key puts)) by (rewrite K, <- map_map; apply NoDup_fmap_2; [intros a b; apply BlobKey_inj | done]).
  assert (G : forall x, x ∈ blobs -> exists p, p ∈ puts /\ blob_put v x p).
  { intros x X. apply list_elem_of_lookup in X as [i X]. destruct (Forall2_lookup_l _ _ _ _ _ F X) as (p & P & B). exists p. split; [by eapply list_elem_of_lookup_2|done]. }
  split.
  - intros id q (b & r & L & U & Q). destruct (decide (BlobKey id ∈ map m_Key puts)) as [I|I].
    2:{ exists b, r. by rewrite apply_puts_other. }
    rewrite K in I. apply list_elem_of_fmap in I as (x & E & I). apply BlobKey_inj in E as ->.
    destruct (G x I) as (p & P & E & r' & U' & _ & Keep). exists (m_Value p), r'. rewrite <- E, apply_puts_elem by done. split_and!; [done|done|].
    by eapply Keep.
  - intros id record l I L. destruct (G _ I) as (p & P & E & r & U & Add & _). cbn [fst snd] in *. exists (m_Value p), r.
    rewrite <- E, apply_puts_elem by done. split_and!; [done|done|]. apply Add, list_elem_of_fmap. by exists l.
Qed.

Lemma located_other v v' id q : v' !! BlobKey id = v !! BlobKey id -> located v id q -> located v' id q.
Proof. intros E (b & r & L & H). exists b, r. by rewrite E. Qed.

Lemma planPackImport_located limits env time pack blobs t puts t' : pack_ok pack -> Forall (fun x => locations_ok (Locations (snd x))) blobs ->
  NoDup (map fst blobs) -> planPackImport limits env time pack blobs t = (Ok puts, t') ->
  (forall id q, located (t_view t) id q -> located (apply_puts puts (t_view t)) id q)
  /\ (forall id record l, (id, record) ∈ blobs -> l ∈ Locations record -> located (apply_puts puts (t_view t)) id (place l)).
Proof.
  intros Op Ob N H. apply planPackImport_inv in H as (_ & bp & encoded & rest & aggs & post & old & record & skip & -> & B & Nr & Np & M & O & Oo & C & D); [|done..].
  apply blob_puts_located in B as [B1 B2]; [|done]. rewrite apply_puts_app.
  assert (E : forall id, apply_puts (({| m_Key := PackKey (pp_PackID pack); m_Value := encoded |} :: rest) ++ aggs ++ post) (apply_puts bp (t_view t)) !! BlobKey id
    = apply_puts bp (t_view t) !! BlobKey id).
  { intros id. apply apply_puts_other. rewrite !map_app, !not_elem_of_app. split_and!; [|by eapply deltas_not_blob | by apply aside_not_blob].
    cbn [map m_Key]. apply not_elem_of_cons. split; [done | by apply aside_not_blob]. }
  split; [intros id q L | intros id r l I L]; eapply located_other; eauto.
Qed.

Lemma commit_plain env db v db' : commit env db v [] = (db', Ok tt) -> data db' = v.
Proof. unfold commit. cbn. destruct (t_fate env); by intros [= <-]. Qed.

Lemma prepared_blobs pack blobs : pack_ok pack -> preparePackImport pack = Ok blobs ->
  blobs = canonical_blobs (pp_Blobs pack) /\ Forall (fun x => locations_ok (Locations (snd x))) blobs /\ NoDup (map fst blobs).
Proof.
  intros (_ & _ & O & N) P. unfold preparePackImport in P. inv_results. split; [done|]. unfold canonical_blobs. split.
  - apply Forall_map. eapply Forall_impl; [exact O|]. intros x. cbn [snd]. apply canonical_ok.
  - by rewrite map_map.
Qed.

Lemma importPackOnce_located limits env time pack db db' r : pack_ok pack ->
  importPackOnce limits env time pack db = (db', r) ->
  (forall id q, located (data db) id q -> located (data db') id q)
  /\ (r = Ok tt -> forall id record l, (id, record) ∈ pp_Blobs pack -> l ∈ Locations record -> located (data db') id (place l)).
Proof.
  intros O E. unfold importPackOnce in E. destruct (preparePackImport pack) as [blobs|e] eqn:P; [|by injection E as <- <-].
  apply prepared_blobs in P as (-> & Ob & N); [|done]. unfold transact in E. destruct (t_begin env); [by injection E as <- <-|].
  match type of E with (let (_, _) := ?body in _) = _ => destruct body as [[[k []|st u]|e] t] eqn:B end; [| |by injection E as <- <-].
  2:{ apply bind_ok in B as (puts & t1 & _ & B). by inv_tx. }
  apply bind_ok in B as (puts & t1 & Pl & B). apply bind_ok in B as ([] & t2 & E0 & B). apply ret_ok in B as [[= ->] ->]. apply writeTransactionBatches_view in E0.
  assert (V : t_view t2 = apply_puts puts (data db)) by (rewrite E0; apply planPackImport_inv in Pl as [-> _]; done).
  apply planPackImport_located in Pl as [P1 P2]; [|done..]. cbn [t_view] in *. rewrite <- V in P1, P2.
  destruct (commit _ _ _ _) as [d c] eqn:K. injection E as <- <-. split.
  - destruct (commit_cases _ _ _ _ _ _ K) as [->|D]; [done | by rewrite D].
  - intros R id record l I L. apply rbind_ok in R as ([] & -> & _). rewrite (commit_plain _ _ _ _ K).
    assert (Q : place l ∈ map place (Locations (canonicalBlobRecord record))) by (apply canonical_places, list_elem_of_fmap; by exists l).
    apply list_elem_of_fmap in Q as (l' & -> & Q). eapply P2; [|exact Q]. apply list_elem_of_fmap. by exists (id, record).
Qed.

End CatalogReach.

Module CatalogProps.
Import Store StoreTheory Catalog CatalogTheory CatalogSteps CatalogReach.

(** C4. The totals of the catalog are exact: in every database that publications, state
    changes, usage updates, tier changes and deletions of packs lead to from an empty one,
    whatever calls and commits fail and however clients interleave, a rebuild from the
    stored packs succeeds and finds for every type and every tier the total that the
    transactions keep up to date. *)
Theorem totals_rebuilt db updateSequence : reachable db ->
  exists types tiers,
    RebuildPackAggregates (stored_packs (data db)) updateSequence = Ok types
    /\ RebuildTierAggregates (stored_packs (data db)) updateSequence = Ok tiers
    /\ (forall kind, kind ∈ AggregateKinds -> exists a,
          read_aggregate (data db !! PackAggregateKey kind) = Ok a /\ types !! kind = Some (set_sequence updateSequence a))
    /\ (forall tier, tier ∈ TierAggregateKinds -> exists a,
          read_aggregate (data db !! TierAggregateKey tier) = Ok a /\ tiers !! tier = Some (set_sequence updateSequence a)).
Proof.
  intros R. apply reachable_exact in R. destruct (rebuilt_types _ R updateSequence) as (types & A & B).
  destruct (rebuilt_tiers _ R updateSequence) as (tiers & C & D). by exists types, tiers.
Qed.

(** C11. A publication of a pack loses no location of a blob, whatever the database holds,
    whatever fails and however often it is retried, provided that what other clients do
    between the attempts loses none; and when it succeeds, whatever the others did, every
    location of every blob of the pack is in the record of the blob. The pack is as the
    types of the code have it: an ID of 32 bytes, numbers in their ranges, and each blob
    once. *)
Theorem PublishPack_located limits envs time others canceled pack db db' r :
  pack_ok pack -> PublishPack limits envs time others canceled pack db = (db', r) ->
  ((forall i d id q, located (data d) id q -> located (data (others i d)) id q) ->
     forall id q, located (data db) id q -> located (data db') id q)
  /\ (r = Ok tt -> forall id record l, (id, record) ∈ pp_Blobs pack -> l ∈ Locations record -> located (data db') id (place l)).
Proof.
  intros O. unfold PublishPack. generalize revisionAllocationAttempts, 0%nat. intros fuel i E.
  revert i db E. induction fuel as [|fuel IH]; intros i db E; cbn [retry] in E; [by injection E as <- <-|].
  destruct (importPackOnce limits (envs i) (time i) pack db) as [d c] eqn:I. apply importPackOnce_located in I as [I1 I2]; [|done].
  destruct c as [[]|e]; [by injection E as <- <-|]. destruct (negb _); [injection E as <- <-; by split|].
  destruct (canceled i); [injection E as <- <-; by split|].
  apply IH in E as [E1 E2]. split; [|done]. intros K id q L. by apply (E1 K), K, I1.
Qed.

(** *** Instances *)

Definition toy_limits : Limits := {| MaxBatchItems := 100; MaxMessageBytes := 4096 |}.
Definition toy_env : txnEnv := StoreProps.answering.
Definition toy_time : times := {| now_nano := 5; now_unix := 7 |}.
Definition toy_location : BlobLocation := mkBlobLocation (repeat x0b 32) 0 10 0 BlobData.
Definition toy_pack : PublishedPack := {|
  pp_PackID := repeat x0b 32;
  pp_Record := mkPackRecord PackData 0 10 0 1 false 0 false PackExportPending [] TierHot [] 0 0 0 0 false 0;
  pp_Blobs := [(repeat x0a 32, mkBlobRecord [toy_location])];
  pp_Placements := []; pp_PredecessorPackIDs := []; pp_LineageKind := 0; pp_RunID := zero_id |}.
Definition toy_start : Database := {| data := ∅; idempotency := ∅ |}.
Notation toy_publish := (PublishPack toy_limits (fun _ => toy_env) (fun _ => toy_time) (fun _ d => d) (fun _ => false) toy_pack toy_start).

Lemma toy_pack_ok : pack_ok toy_pack.
Proof.
  split; [done|]. split; [unfold PackRecord_ok; split_and!; (apply Forall_nil_2 || (split; vm_compute; congruence))|]. split; [|apply NoDup_singleton].
  cbn [toy_pack pp_Blobs]. constructor; [|constructor]. cbn [snd Locations]. constructor; [|constructor].
  unfold BlobLocation_ok. split_and!; [reflexivity | split; vm_compute; congruence..].
Qed.

Lemma totals_rebuilt_witness : snd toy_publish = Ok tt /\ exists types tiers,
    RebuildPackAggregates (stored_packs (data (fst toy_publish))) 3 = Ok types
    /\ RebuildTierAggregates (stored_packs (data (fst toy_publish))) 3 = Ok tiers
    /\ (forall kind, kind ∈ AggregateKinds -> exists a,
          read_aggregate (data (fst toy_publish) !! PackAggregateKey kind) = Ok a /\ types !! kind = Some (set_sequence 3 a))
    /\ (forall tier, tier ∈ TierAggregateKinds -> exists a,
          read_aggregate (data (fst toy_publish) !! TierAggregateKey tier) = Ok a /\ tiers !! tier = Some (set_sequence 3 a)).
Proof.
  split; [vm_compute; reflexivity|]. apply (totals_rebuilt (fst toy_publish) 3). exists toy_start. split; [reflexivity|].
  apply PublishPack_steps; [done | apply toy_pack_ok].
Defined.

Lemma PublishPack_located_witness : snd toy_publish = Ok tt /\ located (data (fst toy_publish)) (repeat x0a 32) (place toy_location).
Proof.
  assert (S : snd toy_publish = Ok tt) by (vm_compute; reflexivity). split; [exact S|].
  destruct (PublishPack_located toy_limits (fun _ => toy_env) (fun _ => toy_time) (fun _ d => d) (fun _ => false) toy_pack toy_start _ _
    toy_pack_ok (surjective_pairing _)) as [_ P].
  exact (P S (repeat x0a 32) (mkBlobRecord [toy_location]) toy_location ltac:(left) ltac:(left)).
Defined.

End CatalogProps.
